(* ===== verification/_CoqProject ===== *)
-Q . S2P
Prelude.v
WdTypes.v
WdPacket.v
WdHash.v
WdExec.v
WdHelper.v
WdChecksum.v
WdSerial.v
WdAddr.v
CString.v
WdLex.v
WdParse.v
WdAnalyze.v
WdCompile.v
WdMeaning.v
WdHeap.v
WdApi.v
WdDecompile.v
WdFormat.v
WdIPv6.v
WdText.v
WdReprint.v
PfRange.v
PfAddr.v
PfCube.v
PfBranch.v
PfInsn.v
PfWalk.v
PfEncode.v
PfSound.v
PfEvents.v
BpfParse.v
BpfMatch.v
BpfAgree.v
BpfTc.v
BpfEvents.v
HdQueue.v
HdSend.v
HdEvents.v
HdRecv.v
HdOpen.v
HdCgroup.v
HdAlive.v
HdResources.v
EbLog.v
EbRules.v
EbMeaning.v
EbList.v
EbLoad.v
Pinned.v
Cli.v
CliSniff.v
Divert.v
System.v
Findings.v
FindingsLang.v
FindingsFormat.v
