(* ===== verification/Prelude.v ===== *)
(** * A verification of ebpfdivert

    ebpfdivert lets a program capture, change, drop and inject the packets of
    a Linux machine, and observe or refuse socket operations, chosen by a
    filter in the language of WinDivert.  Paths below are those of the
    repository ([src/...], [include/...]).

    ** The program and its parts

    - A filter text is compiled by the vendored WinDivert code
      ([src/wd/windivert_helper.c]) into an object: an array of tests with a
      success and a failure continuation.  The object can be evaluated on a
      packet or event ([src/wd/windivert_shared.c]), written to text and read
      back, and formatted as a filter again.
    - [src/prefilter.c] lowers the object to a table of kernel rules that
      matches a superset of the packets the filter accepts, or precisely
      these when it reports the result as exact.
    - The TC programs ([src/ebpfdivert.bpf.c]) parse every packet, run the
      rules and copy, steal, drop or pass the packet; the event programs
      ([src/ebpfdivert_events.bpf.c]) report socket operations and flows and
      refuse the operations a blocking handle's rules match.
    - A handle ([src/handle.c]) opens the programs, receives what they put in
      the ring, evaluates the filter again where the rules are not exact,
      queues what the filter accepts, puts back what it rejects and injects
      packets.
    - The pinned mode ([src/ebpfdivert.c], [src/ebpfdivert-cli.c]) uses the
      same TC programs with rules written as text, without a handle.

    ** Files

    Shared:
    - [Prelude] (this file): machine integers at their width, bit operations
      and their notations, byte loads and stores, 128-bit words, lemmas on
      lists and sums, the tactics [b2p] and [case_if] and the hint databases.
    - [CString]: the functions of the C library the code calls on strings.

    Filter objects ([src/wd]):
    - [WdTypes]: fields, tests, instructions, layers, well-formed objects.
    - [WdPacket], [WdHash], [WdExec]: [WinDivertHelperParsePacketEx],
      [WinDivertHashPacket], [WinDivertExecuteFilter] and [wd_filter_eval].
      A header pointer is an offset into the packet; undefined behaviour is a
      result of its own ([None], [VUndef]), so that safety is a theorem.
      So are loads of header fields and payload bytes outside the packet.
    - [WdHelper]: checksums, TTL, [wd_parse_packet]; [WdChecksum]: RFC 1071
      and the pseudo headers of RFC 768, 793 and 8200, written independently
      of the code, and that the checksums are these.
    - [WdSerial]: the serialized object, written and read.
    - [WdAnalyze]: [WinDivertAnalyzeFilter].

    Filter language ([src/wd/windivert_helper.c]):
    - [WdAddr], [WdIPv6]: numbers and addresses as text, in both directions.
    - [WdLex], [WdParse]: [WinDivertTokenizeFilter], [WinDivertParseFilter]
      and a grammar the parser is proved equal to.
    - [WdCompile]: [WinDivertSimplifyTest], [WinDivertFlattenExpr],
      [WinDivertEmitFilter], [WinDivertCompileFilter], [wd_filter_compile].
    - [WdMeaning]: what an expression means for a packet.
    - [WdHeap]: the bounded memory pool of the compiler and the formatter.
    - [WdDecompile], [WdFormat]: [WinDivertHelperFormatFilter].
    - [WdText], [WdReprint]: the texts it prints, and that they are read back.
    - [WdApi]: the helper functions that take a filter as text, the old
      parser interface and the byte order helpers.

    Lowering ([src/prefilter.c]):
    - [PfRange], [PfAddr]: the constraints on one field, as sets of values.
    - [PfCube]: cubes, [pf_branch], [pf_walk]; [PfBranch], [PfInsn]: one
      instruction; [PfWalk]: the whole walk.
    - [PfEncode]: rules, [pf_lower], [pf_match]; [PfSound]: the contract.
    - [PfEvents]: [pf_lower_events] with its contract.

    Kernel:
    - [BpfParse], [BpfMatch], [BpfTc]: [parse_packet], the rule loop over the
      tables [load_rules] writes, [process_packet] and the TC programs.
    - [BpfAgree]: the relation between the two parsers.
    - [BpfEvents]: the cgroup and sockops programs.

    Handles ([src/handle.c]):
    - [HdQueue], [HdRecv], [HdSend], [HdEvents], [HdOpen]: the queue, receive
      and send paths, event layers, open, registry, shutdown and close.
    - [HdCgroup]: the files of /proc that an open reads; [HdAlive]: the
      heartbeat thread and the guarded entry points.
    - [HdResources]: what the functions acquire and release, over a ledger of
      live resources, for every combination of failing calls.

    Pinned mode:
    - [EbRules], [EbMeaning]: rule texts, tables, and what a rule matches.
    - [EbList], [EbLoad], [EbLog]: listing, statistics, loading, messages.
    - [Cli], [CliSniff]: the command line and its sniff command.

    Composition:
    - [Divert]: parser, lowering, rule loop and evaluator together;
      [System]: a whole network handle; [Pinned]: the whole pinned mode.
    - [Findings], [FindingsLang], [FindingsFormat]: evaluated examples of the
      cases the hypotheses of the theorems exclude.

    ** How the code is modelled

    Functions keep their names.  State is passed explicitly: the bytes of a
    packet, the maps and the ring of the kernel, the queue, caches and
    configuration of a handle.  Integers are [Z] reduced to their width where
    the code assigns to a narrower type ([u8], [u16], [u32], [u64]).  Errors
    are the values the code returns; undefined behaviour is an outcome of its
    own and is excluded by theorems, never assumed away.  Threads appear as
    schedules: the critical sections of other threads are steps that happen
    between the steps of the modelled call ([HdQueue.queue_step], the rounds
    of [HdRecv], the interleavings of [HdOpen], the steps of [HdAlive]).

    Code outside the repository is a parameter: kernel helpers (records of
    functions in [BpfTc] and [BpfEvents]), system calls and the clock
    ([HdSend.net], [HdOpen.open_env]), libbpf (the classes [EbLoad.TcHooks]
    and [EbLoad.TcLaws], the record [EbLoad.load_env]), [inet_addr],
    [inet_pton] and [inet_ntop] ([EbRules.rules_env], [EbList]).

    ** Fuel and bounds

    Loops that the code bounds by a constant run that many rounds (256 tests,
    64 rules, 8 groups of an address).  The walk of the lowering has the
    state limit of the code as fuel ([PfWalk.walk_terminates]); the tokenizer
    one round per character; the parser and the decompiler the number of
    tokens and nodes; the evaluator one round per instruction, which is
    enough because jumps go forward.  Running out of fuel is the overflow
    outcome of the code in the walk, and an outcome of its own elsewhere; the
    theorems show that it does not occur.

    ** Theorems

    The kernel and user space do not agree on every packet and filter, so the
    theorems that compose them have a scope: [BpfAgree.plain] packets, without
    IPv4-mapped addresses, and tests that are [PfBranch.lowerable]
    ([PfEvents.event_lowerable] for socket operations).  The meaning of a text
    is for [WdMeaning.plain_expr], the formatter for [WdDecompile.sign_kept]
    and [WdReprint.printable].  [Findings] has examples of what is outside.

    - A handle is its filter: [System.divert_implements_filter],
      [System.sniff_implements_filter], [System.rejected_continues_unchanged]
      compose the TC program, the ring, the evaluator and the send path;
      [Divert.prefilter_superset], [Divert.prefilter_exact],
      [Divert.drop_handle_exact], [PfSound.pf_lower_contract],
      [BpfMatch.kernel_loop_is_pf_match] and [BpfAgree.parsers_agree] are the
      contracts in between; [HdEvents.socket_block_exact] is the same for
      socket operations.
    - A filter object is its text: [WdParse.parser_is_grammar],
      [WdMeaning.compile_accepts], [WdMeaning.text_decides_packets];
      backwards [WdDecompile.decompile_sound]; the round trips
      [WdReprint.format_recompiles], [WdSerial.serialize_roundtrip] and
      [WdIPv6.ipv6_roundtrip].  The
      compiler never exhausts its memory pool
      ([WdHeap.compile_pool_suffices]); evaluating a filter string is
      compiling and evaluating it ([WdApi.eval_string_agrees]); an object
      string is a filter ([WdApi.object_string_compiles]).
    - Injection: injected packets are not captured again and chains of
      handles end ([HdSend.injected_not_recaptured],
      [BpfTc.injection_terminates]); nothing is stolen without a copy
      ([BpfTc.stolen_is_copied]).
    - Queue and receive path: order, limits, answers and buffer bounds
      ([HdQueue.queue_is_fifo], [HdQueue.queue_invariant],
      [HdRecv.recv_answers], [HdRecv.recv_ex_batch]).
    - Open and close: what a successful open establishes, what a shutdown
      stops, that close waits for the counted calls ([HdOpen]); that a failed
      open leaks nothing and a closed handle releases everything once, but for
      what the system refuses to remove
      ([HdResources.open_leaks_nothing], [HdResources.lifetime_releases]);
      that the heartbeat keeps a live owner alive
      ([HdAlive.heartbeat_keeps_alive]) and which directory the event
      programs are attached to ([HdCgroup.cgroup_root_found]).
    - Evaluation, analysis, checksums, deserialization: totality, soundness,
      RFC 1071 sums, well-formedness ([WdExec], [WdAnalyze], [WdChecksum],
      [WdSerial]).
    - Flows: every UDP flow is reported as established, once, with the
      endpoints of its packets ([BpfEvents.udp_flow_reported_once]).
    - Pinned mode: rule text to verdict ([EbMeaning.pinned_rules_decide],
      [Pinned.pinned_verdict]), atomic additions, listings that fit their
      buffers, the command line, its capture file, its reports of mistakes in
      a filter ([CliSniff.sniff_reports_filter]) and the messages of the
      library ([EbLog.errors_are_printed], [EbLog.libbpf_messages]).

    ** Not modelled

    - Failures of [malloc] and [calloc] outside [HdResources] (the limit of
      the memory pool is modelled) and the waiting for the file lock of the
      registry: the critical sections it protects are steps.
    - The loading of the embedded object files by libbpf.
    - Usage texts and signal handlers of the command line tool.
    - [include/vmlinux.h] (generated) and the Windows compatibility headers
      under [src/wd/compat]. *)

From Stdlib Require Import ZArith List Bool Lia.
Import ListNotations.

#[global] Open Scope Z_scope.
#[global] Open Scope bool_scope.
#[global] Open Scope list_scope.

Declare Scope divert_scope.
Delimit Scope divert_scope with divert.
#[global] Open Scope divert_scope.

(** Arithmetic stays folded under [cbn] and [simpl]: goals are for [lia]. *)
#[global] Arguments Z.add : simpl never.
#[global] Arguments Z.sub : simpl never.
#[global] Arguments Z.mul : simpl never.
#[global] Arguments Z.opp : simpl never.
#[global] Arguments Z.pow : simpl never.
#[global] Arguments Z.modulo : simpl never.
#[global] Arguments Z.div : simpl never.
#[global] Arguments Z.land : simpl never.
#[global] Arguments Z.lor : simpl never.
#[global] Arguments Z.shiftl : simpl never.
#[global] Arguments Z.shiftr : simpl never.
#[global] Arguments Z.to_nat : simpl never.
#[global] Arguments Z.of_nat : simpl never.

(** ** Fixed-width integers

    A w-bit unsigned C integer is a [Z]; wrap-around is written out. *)

Definition u8 (z : Z) : Z := z mod 2 ^ 8.
Definition u16 (z : Z) : Z := z mod 2 ^ 16.
Definition u32 (z : Z) : Z := z mod 2 ^ 32.
Definition u64 (z : Z) : Z := z mod 2 ^ 64.

(** Two's complement reading of a 32-bit word ([(INT)x]). *)
Definition i32 (z : Z) : Z :=
  if u32 z <? 2 ^ 31 then u32 z else u32 z - 2 ^ 32.

(** Signed 64-bit: [(int64_t) z]. *)
Definition i64 (z : Z) : Z :=
  let w := u64 z in if w <? 2 ^ 63 then w else w - 2 ^ 64.

Notation "a &&& b" := (Z.land a b) : divert_scope.
Notation "a ||| b" := (Z.lor a b) : divert_scope.
Notation "a '>>>' b" := (Z.shiftr a b) (at level 33, left associativity) : divert_scope.
Notation "a '<<<' b" := (Z.shiftl a b) (at level 33, left associativity) : divert_scope.

(** [!!(mask & flag)]: is any bit of [flag] set in [mask]? *)
Definition has (mask flag : Z) : bool := negb (Z.land mask flag =? 0).

(** [b ? m : 0]. *)
Definition flag_if (b : bool) (m : Z) : Z := if b then m else 0.

Definition b2z (b : bool) : Z := if b then 1 else 0.

(** ** Bytes and loads

    Memory is a list of bytes; the host is little endian, as every target of
    the project (amd64, arm64) is. *)

Definition byte_at (p : list Z) (o : Z) : Z :=
  if o <? 0 then 0 else nth (Z.to_nat o) p 0.

Definition zlen {A} (l : list A) : Z := Z.of_nat (length l).

Definition ld16 (p : list Z) (o : Z) : Z :=
  byte_at p o + 2 ^ 8 * byte_at p (o + 1).

Definition ld32 (p : list Z) (o : Z) : Z :=
  byte_at p o + 2 ^ 8 * byte_at p (o + 1)
  + 2 ^ 16 * byte_at p (o + 2) + 2 ^ 24 * byte_at p (o + 3).

Definition ld64 (p : list Z) (o : Z) : Z := ld32 p o + 2 ^ 32 * ld32 p (o + 4).

(** The same bytes read in network order. *)
Definition be16 (p : list Z) (o : Z) : Z :=
  2 ^ 8 * byte_at p o + byte_at p (o + 1).

Definition be32 (p : list Z) (o : Z) : Z :=
  2 ^ 24 * byte_at p o + 2 ^ 16 * byte_at p (o + 1)
  + 2 ^ 8 * byte_at p (o + 2) + byte_at p (o + 3).

(** [l[i] = v]; nothing past the end. *)
Fixpoint set_nth {A} (i : nat) (v : A) (l : list A) : list A :=
  match l, i with
  | [], _ => []
  | _ :: l, O => v :: l
  | x :: l, S i => x :: set_nth i v l
  end.

(** Byte and little-endian stores; nothing is stored outside the list. *)
Definition set_byte (p : list Z) (o v : Z) : list Z :=
  if o <? 0 then p else set_nth (Z.to_nat o) v p.

Definition st16 (p : list Z) (o v : Z) : list Z :=
  set_byte (set_byte p o (v mod 2 ^ 8)) (o + 1) (v / 2 ^ 8).

(** [n] bytes from offset [o]. *)
Definition slice (p : list Z) (o n : Z) : list Z := firstn (Z.to_nat n) (skipn (Z.to_nat o) p).

Definition le16 (v : Z) : list Z := [v mod 2 ^ 8; v / 2 ^ 8 mod 2 ^ 8].
Definition le32 (v : Z) : list Z :=
  [v mod 2 ^ 8; v / 2 ^ 8 mod 2 ^ 8; v / 2 ^ 16 mod 2 ^ 8; v / 2 ^ 24 mod 2 ^ 8].

Definition is_byte (z : Z) : Prop := 0 <= z < 256.
Definition bytes (p : list Z) : Prop := Forall is_byte p.

(** The sum of a list. *)
Definition zsum (l : list Z) : Z := fold_right Z.add 0 l.

Lemma u16_small z : 0 <= z <= 65535 -> u16 z = z.
Proof. intros H. apply Z.mod_small. lia. Qed.

Lemma u8_small z : 0 <= z <= 255 -> u8 z = z.
Proof. intros H. apply Z.mod_small. lia. Qed.

Lemma bytes_firstn n p : bytes p -> bytes (firstn n p).
Proof. intros H. unfold bytes in *. rewrite <- (firstn_skipn n p), Forall_app in H. apply H. Qed.

Lemma bytes_skipn n p : bytes p -> bytes (skipn n p).
Proof. intros H. unfold bytes in *. rewrite <- (firstn_skipn n p), Forall_app in H. apply H. Qed.

(** ** Tactics *)

(** Turn boolean comparisons in the context and the goal into propositions. *)
Ltac b2p :=
  repeat match goal with
  | H : negb _ = true |- _ => apply negb_true_iff in H
  | H : negb _ = false |- _ => apply negb_false_iff in H
  | H : (_ && _) = true |- _ => apply andb_true_iff in H; destruct H
  | H : (_ || _) = false |- _ => apply orb_false_iff in H; destruct H
  | H : (_ || _) = true |- _ => apply orb_true_iff in H
  | H : (_ && _) = false |- _ => apply andb_false_iff in H
  | H : (_ =? _) = true |- _ => apply Z.eqb_eq in H
  | H : (_ =? _) = false |- _ => apply Z.eqb_neq in H
  | H : (_ <? _) = true |- _ => apply Z.ltb_lt in H
  | H : (_ <? _) = false |- _ => apply Z.ltb_ge in H
  | H : (_ <=? _) = true |- _ => apply Z.leb_le in H
  | H : (_ <=? _) = false |- _ => apply Z.leb_gt in H
  | H : (_ >? _) = _ |- _ => rewrite Z.gtb_ltb in H
  | H : (_ >=? _) = _ |- _ => rewrite Z.geb_leb in H
  | |- negb _ = true => apply negb_true_iff
  | |- negb _ = false => apply negb_false_iff
  | |- (_ && _) = true => apply andb_true_iff
  | |- (_ || _) = false => apply orb_false_iff
  | |- (_ || _) = true => apply orb_true_iff
  | |- (_ && _) = false => apply andb_false_iff
  | |- (_ =? _) = true => apply Z.eqb_eq
  | |- (_ =? _) = false => apply Z.eqb_neq
  | |- (_ <? _) = true => apply Z.ltb_lt
  | |- (_ <? _) = false => apply Z.ltb_ge
  | |- (_ <=? _) = true => apply Z.leb_le
  | |- (_ <=? _) = false => apply Z.leb_gt
  end.

(** Case on the first [if] (or [match]) of the goal or of a hypothesis. *)
Ltac case_if :=
  match goal with
  | |- context [if ?b then _ else _] => destruct b eqn:?
  end.

Ltac case_if_in H :=
  match type of H with
  | context [if ?b then _ else _] => destruct b eqn:?
  end.

Ltac split_hyps :=
  repeat match goal with
  | H : _ /\ _ |- _ => destruct H
  | H : exists _, _ |- _ => destruct H
  end.

Create HintDb divert.

(** ** Generic lemmas *)

Lemma byte_at_range p o : bytes p -> is_byte (byte_at p o).
Proof.
  intros Hp. unfold byte_at. case_if; [unfold is_byte; lia|].
  destruct (nth_in_or_default (Z.to_nat o) p 0) as [Hin | ->].
  - unfold bytes in Hp. rewrite Forall_forall in Hp. auto.
  - unfold is_byte; lia.
Qed.

Lemma zlen_nil {A} : zlen (@nil A) = 0.
Proof. reflexivity. Qed.

Lemma zlen_cons {A} (x : A) l : zlen (x :: l) = 1 + zlen l.
Proof. unfold zlen. cbn [length]. lia. Qed.

Lemma zlen_app {A} (l m : list A) : zlen (l ++ m) = zlen l + zlen m.
Proof. unfold zlen. rewrite length_app. lia. Qed.

Lemma zlen_nonneg {A} (l : list A) : 0 <= zlen l.
Proof. unfold zlen. lia. Qed.

Lemma byte_at_app_r p q o : zlen p <= o -> byte_at (p ++ q) o = byte_at q (o - zlen p).
Proof.
  unfold byte_at, zlen. intros H.
  destruct (o <? 0) eqn:E1; b2p; [lia|].
  destruct (o - Z.of_nat (length p) <? 0) eqn:E2; b2p; [lia|].
  rewrite app_nth2 by lia. f_equal. lia.
Qed.

Lemma byte_at_skipn p (n : nat) o :
  0 <= o -> byte_at (skipn n p) o = byte_at p (o + Z.of_nat n).
Proof.
  unfold byte_at. intros H.
  destruct (o <? 0) eqn:E1; b2p; [lia|].
  destruct (o + Z.of_nat n <? 0) eqn:E2; b2p; [lia|].
  rewrite nth_skipn. f_equal. lia.
Qed.

#[export] Hint Resolve byte_at_range zlen_nonneg : divert.

Lemma has_0 f : has 0 f = false.
Proof. unfold has. now rewrite Z.land_0_l. Qed.

Lemma b2z_range b : 0 <= b2z b <= 1.
Proof. destruct b; cbn; lia. Qed.

Lemma has_lor a b f : has (a ||| b) f = has a f || has b f.
Proof.
  unfold has. rewrite Z.land_comm, Z.land_lor_distr_r, !(Z.land_comm f).
  destruct (Z.land a f =? 0) eqn:Ea, (Z.land b f =? 0) eqn:Eb; b2p; rewrite ?Ea, ?Eb; cbn; try reflexivity;
    apply negb_true_iff, Z.eqb_neq; intros H; apply Z.lor_eq_0_iff in H; tauto.
Qed.

Lemma has_flag_if b m f : has (flag_if b m) f = b && has m f.
Proof. destruct b; [reflexivity|]. unfold has; cbn. reflexivity. Qed.

(** Evaluate membership of one mask constant in another. *)
Ltac has_consts :=
  rewrite ?has_lor, ?has_flag_if;
  repeat match goal with
  | |- context [has ?a ?b] => let v := eval vm_compute in (has a b) in
      lazymatch v with true => idtac | false => idtac end; change (has a b) with v
  end;
  rewrite ?andb_true_r, ?andb_false_r, ?orb_false_r, ?orb_false_l.

(** ** Bit operations against arithmetic *)

Lemma land_ones_mod a n : 0 <= n -> Z.land a (Z.ones n) = a mod 2 ^ n.
Proof. apply Z.land_ones. Qed.

Lemma land_mask_mod a n m : 0 <= n -> m = Z.ones n -> Z.land a m = a mod 2 ^ n.
Proof. intros ? ->. now apply Z.land_ones. Qed.

Lemma land_bound k a m : 0 <= k -> 0 <= m < 2 ^ k -> 0 <= a &&& m < 2 ^ k.
Proof.
  intros Hk Hm. rewrite <- (Z.mod_small m (2 ^ k)) by exact Hm.
  rewrite <- land_ones_mod, Z.land_assoc, land_ones_mod by exact Hk.
  apply Z.mod_pos_bound. lia.
Qed.

Lemma lor_bound k a b : 0 <= k -> 0 <= a < 2 ^ k -> 0 <= b < 2 ^ k -> 0 <= a ||| b < 2 ^ k.
Proof.
  intros Hk Ha Hb. split; [apply Z.lor_nonneg; lia|].
  assert (E : a ||| b = (a ||| b) mod 2 ^ k).
  { rewrite <- Z.land_ones by lia. rewrite Z.land_lor_distr_l, !Z.land_ones by lia.
    now rewrite !Z.mod_small by lia. }
  rewrite E. apply Z.mod_pos_bound. lia.
Qed.

Lemma lor_add_disjoint a b n :
  0 <= n -> 0 <= a < 2 ^ n -> Z.lor a (2 ^ n * b) = a + 2 ^ n * b.
Proof.
  intros Hn Ha. assert (Hz : Z.land a (2 ^ n * b) = 0).
  { apply Z.bits_inj'. intros i Hi. rewrite Z.land_spec, Z.bits_0.
    destruct (Z.lt_ge_cases i n) as [Hlt | Hge].
    - rewrite (Z.mul_comm (2 ^ n)), Z.mul_pow2_bits_low by lia. apply andb_false_r.
    - rewrite <- (Z.mod_small a (2 ^ n)) by lia.
      rewrite Z.mod_pow2_bits_high by lia. reflexivity. }
  rewrite Z.add_nocarry_lxor by exact Hz. symmetry. now apply Z.lxor_lor.
Qed.

(** A byte of a word moved from bit [i] to bit [j]. *)
Lemma shiftr_land_byte x i j m :
  0 <= i -> 0 <= j -> m = Z.shiftl 255 j ->
  Z.land (Z.shiftr x i) m = 2 ^ j * ((x / 2 ^ (i + j)) mod 2 ^ 8).
Proof.
  intros Hi Hj ->. change 255 with (Z.ones 8).
  assert (E : Z.land (Z.shiftr x i) (Z.shiftl (Z.ones 8) j)
              = Z.shiftl (Z.land (Z.shiftr x (i + j)) (Z.ones 8)) j).
  { apply Z.bits_inj'. intros k Hk.
    rewrite Z.land_spec, Z.shiftr_spec, !Z.shiftl_spec by lia.
    destruct (Z.lt_ge_cases k j) as [Hlt | Hge].
    - rewrite !(Z.testbit_neg_r _ (k - j)) by lia. apply andb_false_r.
    - rewrite Z.land_spec, Z.shiftr_spec by lia. do 2 f_equal. lia. }
  rewrite E, Z.shiftl_mul_pow2, Z.land_ones, Z.shiftr_div_pow2 by lia. ring.
Qed.

Lemma shiftl_land_byte x i j m :
  0 <= i <= j -> m = Z.shiftl 255 j ->
  Z.land (Z.shiftl x i) m = 2 ^ j * ((x / 2 ^ (j - i)) mod 2 ^ 8).
Proof.
  intros Hi ->. change 255 with (Z.ones 8).
  assert (E : Z.land (Z.shiftl x i) (Z.shiftl (Z.ones 8) j)
              = Z.shiftl (Z.land (Z.shiftr x (j - i)) (Z.ones 8)) j).
  { apply Z.bits_inj'. intros k Hk.
    rewrite Z.land_spec, !Z.shiftl_spec by lia.
    destruct (Z.lt_ge_cases k j) as [Hlt | Hge].
    - rewrite !(Z.testbit_neg_r _ (k - j)) by lia. apply andb_false_r.
    - rewrite Z.land_spec, Z.shiftr_spec by lia. do 2 f_equal. lia. }
  rewrite E, Z.shiftl_mul_pow2, Z.land_ones, Z.shiftr_div_pow2 by lia. ring.
Qed.

(** ** Stores *)

Lemma set_nth_length {A} (v : A) : forall l i, length (set_nth i v l) = length l.
Proof. induction l as [|x l IH]; destruct i; cbn; auto. Qed.

Lemma nth_set_nth {A} (v d : A) : forall l i j,
  nth j (set_nth i v l) d = if (j =? i)%nat && (i <? length l)%nat then v else nth j l d.
Proof.
  induction l as [|x l IH]; intros [|i] [|j]; cbn [set_nth nth Nat.eqb length andb];
    try reflexivity; [now rewrite andb_false_r|]. rewrite IH. reflexivity.
Qed.

Lemma nth_error_set_nth {R} (x : R) : forall l i k, k <> i -> nth_error (set_nth i x l) k = nth_error l k.
Proof.
  induction l as [|y l IH]; intros [|i] [|k] H; cbn; try reflexivity; try congruence. apply IH. congruence.
Qed.

Lemma nth_error_set_same {A} (v : A) : forall l i, (i < length l)%nat -> nth_error (set_nth i v l) i = Some v.
Proof. induction l as [|x l IH]; intros [|i] H; cbn in *; try lia; [reflexivity|]. apply IH. lia. Qed.

Lemma set_nth_comm {A} (v w : A) : forall l i j, i <> j -> set_nth i v (set_nth j w l) = set_nth j w (set_nth i v l).
Proof. induction l as [|x l IH]; intros [|i] [|j] H; cbn; try congruence. f_equal. apply IH. congruence. Qed.

Lemma set_nth_twice {A} (v w : A) : forall l i, set_nth i v (set_nth i w l) = set_nth i v l.
Proof. induction l as [|x l IH]; intros [|i]; cbn; try reflexivity. f_equal. apply IH. Qed.

Lemma set_nth_same {A} (v : A) : forall l i, nth_error l i = Some v -> set_nth i v l = l.
Proof. induction l as [|x l IH]; intros [|i] H; cbn in *; try congruence. f_equal. auto. Qed.

Lemma map_set_nth {A B} (f : A -> B) v : forall l i, map f (set_nth i v l) = set_nth i (f v) (map f l).
Proof. induction l as [|x l IH]; intros [|i]; cbn; try reflexivity. now rewrite IH. Qed.

Lemma sum_set_nth l i v : forall x, nth_error l i = Some x -> zsum (set_nth i v l) = zsum l - x + v.
Proof.
  revert i. induction l as [|y l IH]; intros [|i] x H; cbn in H; try discriminate; cbn [set_nth zsum fold_right].
  - injection H as ->. unfold zsum. lia.
  - specialize (IH i x H). unfold zsum in IH. rewrite IH. unfold zsum. lia.
Qed.

Lemma zsum_nonneg l : Forall (fun x => 0 <= x) l -> 0 <= zsum l.
Proof. induction 1; cbn [zsum fold_right]; [lia|]. unfold zsum in *. lia. Qed.

Lemma set_byte_len p o v : zlen (set_byte p o v) = zlen p.
Proof. unfold set_byte, zlen. case_if; [reflexivity|]. now rewrite set_nth_length. Qed.

Lemma byte_at_set p o v x : 0 <= o < zlen p ->
  byte_at (set_byte p o v) x = if x =? o then v else byte_at p x.
Proof.
  unfold byte_at, set_byte, zlen. intros H.
  destruct (o <? 0) eqn:E1; b2p; [lia|]. destruct (x <? 0) eqn:E2; b2p.
  - destruct (x =? o) eqn:E3; b2p; [lia|reflexivity].
  - rewrite nth_set_nth. destruct (x =? o) eqn:E3; b2p.
    + subst x. rewrite Nat.eqb_refl. destruct (Nat.ltb_spec (Z.to_nat o) (length p)); [reflexivity|lia].
    + destruct (Nat.eqb_spec (Z.to_nat x) (Z.to_nat o)); [lia|reflexivity].
Qed.

Lemma bytes_set p o v : bytes p -> is_byte v -> bytes (set_byte p o v).
Proof.
  intros Hp Hv. unfold set_byte. case_if; [exact Hp|]. unfold bytes in *.
  apply Forall_nth. intros i d Hi. rewrite nth_set_nth. rewrite set_nth_length in Hi.
  case_if; [exact Hv|]. rewrite Forall_nth in Hp. auto.
Qed.

Lemma st16_len p o v : zlen (st16 p o v) = zlen p.
Proof. unfold st16. now rewrite !set_byte_len. Qed.

Lemma bytes_st16 p o v : bytes p -> 0 <= v < 2 ^ 16 -> bytes (st16 p o v).
Proof.
  intros Hp Hv. unfold st16. change (2 ^ 8) with 256.
  repeat apply bytes_set; auto; unfold is_byte; Z.to_euclidean_division_equations; lia.
Qed.

Lemma byte_at_st16 p o v x : 0 <= o -> o + 1 < zlen p ->
  byte_at (st16 p o v) x =
  if x =? o then v mod 2 ^ 8 else if x =? o + 1 then v / 2 ^ 8 else byte_at p x.
Proof.
  intros H1 H2. unfold st16. rewrite byte_at_set by (rewrite set_byte_len; lia).
  rewrite byte_at_set by lia.
  destruct (x =? o) eqn:E1, (x =? o + 1) eqn:E2; b2p; try reflexivity; lia.
Qed.

Lemma ld16_st16 p o v x : 0 <= o -> o + 1 < zlen p -> 0 <= v < 2 ^ 16 ->
  x = o \/ x + 1 < o \/ o + 1 < x -> ld16 (st16 p o v) x = if x =? o then v else ld16 p x.
Proof.
  intros H1 H2 Hv Hx. unfold ld16. rewrite !byte_at_st16 by lia.
  repeat match goal with
  | |- context [?a =? ?b] => destruct (Z.eqb_spec a b); try lia
  end. change (2 ^ 8) with 256. Z.to_euclidean_division_equations. lia.
Qed.

(** Lists are equal when all their bytes are. *)
Lemma byte_at_ext p q : zlen p = zlen q -> (forall o, byte_at p o = byte_at q o) -> p = q.
Proof.
  unfold zlen. intros Hl H. apply (nth_ext p q 0 0); [lia|]. intros n Hn.
  specialize (H (Z.of_nat n)). unfold byte_at in H.
  destruct (Z.of_nat n <? 0) eqn:E; b2p; [lia|]. now rewrite Nat2Z.id in H.
Qed.

Lemma zlen_slice p o n : 0 <= o -> 0 <= n -> o + n <= zlen p -> zlen (slice p o n) = n.
Proof. unfold slice, zlen. intros. rewrite length_firstn, length_skipn. lia. Qed.

Lemma byte_at_slice p o n x : 0 <= o -> 0 <= x < n -> byte_at (slice p o n) x = byte_at p (o + x).
Proof.
  intros Ho Hx. unfold slice, byte_at. destruct (x <? 0) eqn:E1; b2p; [lia|].
  destruct (o + x <? 0) eqn:E2; b2p; [lia|]. rewrite nth_firstn, nth_skipn.
  destruct (Nat.ltb_spec (Z.to_nat x) (Z.to_nat n)); [f_equal; lia|lia].
Qed.

Lemma bytes_app p q : bytes p -> bytes q -> bytes (p ++ q).
Proof. intros. now apply Forall_app. Qed.

Lemma bytes_slice p o n : bytes p -> bytes (slice p o n).
Proof.
  intros Hp. unfold slice, bytes in *. apply Forall_forall. intros x Hx.
  rewrite Forall_forall in Hp. apply Hp. apply In_nth with (d := 0) in Hx.
  destruct Hx as (i & Hi & <-). rewrite nth_firstn. rewrite length_firstn, length_skipn in Hi.
  destruct (Nat.ltb_spec i (Z.to_nat n)); [|lia]. rewrite nth_skipn. apply nth_In. lia.
Qed.

#[export] Hint Resolve bytes_app bytes_slice bytes_st16 : divert.
