(* ===== verification/WdTypes.v ===== *)
(** * WinDivert data types

    The filter object of the vendored WinDivert sources: fields, tests,
    instructions, layers, events and 128-bit words ([src/wd/windivert.h],
    [src/wd/windivert_device.h]), and the byte-order macros and field/layer
    table of [src/wd/windivert_shared.c]. *)

From Stdlib Require Import ZArith List Bool Lia.
From S2P Require Import Prelude.
Import ListNotations.

(** ** Filter fields, [WINDIVERT_FILTER_FIELD_*]

    The 11-bit [field] of an instruction: both producers of filter objects
    (the compiler and the deserializer) keep it at most
    [WINDIVERT_FILTER_FIELD_MAX], so the codes are the 86 constructors. *)
Inductive FIELD : Set :=
| FIELD_ZERO | FIELD_INBOUND | FIELD_OUTBOUND | FIELD_IFIDX | FIELD_SUBIFIDX | FIELD_IP
| FIELD_IPV6 | FIELD_ICMP | FIELD_TCP | FIELD_UDP | FIELD_ICMPV6 | FIELD_IP_HDRLENGTH
| FIELD_IP_TOS | FIELD_IP_LENGTH | FIELD_IP_ID | FIELD_IP_DF | FIELD_IP_MF
| FIELD_IP_FRAGOFF | FIELD_IP_TTL | FIELD_IP_PROTOCOL | FIELD_IP_CHECKSUM
| FIELD_IP_SRCADDR | FIELD_IP_DSTADDR | FIELD_IPV6_TRAFFICCLASS | FIELD_IPV6_FLOWLABEL
| FIELD_IPV6_LENGTH | FIELD_IPV6_NEXTHDR | FIELD_IPV6_HOPLIMIT | FIELD_IPV6_SRCADDR
| FIELD_IPV6_DSTADDR | FIELD_ICMP_TYPE | FIELD_ICMP_CODE | FIELD_ICMP_CHECKSUM
| FIELD_ICMP_BODY | FIELD_ICMPV6_TYPE | FIELD_ICMPV6_CODE | FIELD_ICMPV6_CHECKSUM
| FIELD_ICMPV6_BODY | FIELD_TCP_SRCPORT | FIELD_TCP_DSTPORT | FIELD_TCP_SEQNUM
| FIELD_TCP_ACKNUM | FIELD_TCP_HDRLENGTH | FIELD_TCP_URG | FIELD_TCP_ACK
| FIELD_TCP_PSH | FIELD_TCP_RST | FIELD_TCP_SYN | FIELD_TCP_FIN | FIELD_TCP_WINDOW
| FIELD_TCP_CHECKSUM | FIELD_TCP_URGPTR | FIELD_TCP_PAYLOADLENGTH | FIELD_UDP_SRCPORT
| FIELD_UDP_DSTPORT | FIELD_UDP_LENGTH | FIELD_UDP_CHECKSUM | FIELD_UDP_PAYLOADLENGTH
| FIELD_LOOPBACK | FIELD_IMPOSTOR | FIELD_PROCESSID | FIELD_LOCALADDR
| FIELD_REMOTEADDR | FIELD_LOCALPORT | FIELD_REMOTEPORT | FIELD_PROTOCOL
| FIELD_ENDPOINTID | FIELD_PARENTENDPOINTID | FIELD_LAYER | FIELD_PRIORITY
| FIELD_EVENT | FIELD_PACKET | FIELD_PACKET16 | FIELD_PACKET32 | FIELD_TCP_PAYLOAD
| FIELD_TCP_PAYLOAD16 | FIELD_TCP_PAYLOAD32 | FIELD_UDP_PAYLOAD | FIELD_UDP_PAYLOAD16
| FIELD_UDP_PAYLOAD32 | FIELD_LENGTH | FIELD_TIMESTAMP | FIELD_RANDOM8 | FIELD_RANDOM16
| FIELD_RANDOM32 | FIELD_FRAGMENT.

Definition all_fields : list FIELD :=
  [FIELD_ZERO; FIELD_INBOUND; FIELD_OUTBOUND; FIELD_IFIDX; FIELD_SUBIFIDX; FIELD_IP;
   FIELD_IPV6; FIELD_ICMP; FIELD_TCP; FIELD_UDP; FIELD_ICMPV6; FIELD_IP_HDRLENGTH;
   FIELD_IP_TOS; FIELD_IP_LENGTH; FIELD_IP_ID; FIELD_IP_DF; FIELD_IP_MF;
   FIELD_IP_FRAGOFF; FIELD_IP_TTL; FIELD_IP_PROTOCOL; FIELD_IP_CHECKSUM;
   FIELD_IP_SRCADDR; FIELD_IP_DSTADDR; FIELD_IPV6_TRAFFICCLASS; FIELD_IPV6_FLOWLABEL;
   FIELD_IPV6_LENGTH; FIELD_IPV6_NEXTHDR; FIELD_IPV6_HOPLIMIT; FIELD_IPV6_SRCADDR;
   FIELD_IPV6_DSTADDR; FIELD_ICMP_TYPE; FIELD_ICMP_CODE; FIELD_ICMP_CHECKSUM;
   FIELD_ICMP_BODY; FIELD_ICMPV6_TYPE; FIELD_ICMPV6_CODE; FIELD_ICMPV6_CHECKSUM;
   FIELD_ICMPV6_BODY; FIELD_TCP_SRCPORT; FIELD_TCP_DSTPORT; FIELD_TCP_SEQNUM;
   FIELD_TCP_ACKNUM; FIELD_TCP_HDRLENGTH; FIELD_TCP_URG; FIELD_TCP_ACK; FIELD_TCP_PSH;
   FIELD_TCP_RST; FIELD_TCP_SYN; FIELD_TCP_FIN; FIELD_TCP_WINDOW; FIELD_TCP_CHECKSUM;
   FIELD_TCP_URGPTR; FIELD_TCP_PAYLOADLENGTH; FIELD_UDP_SRCPORT; FIELD_UDP_DSTPORT;
   FIELD_UDP_LENGTH; FIELD_UDP_CHECKSUM; FIELD_UDP_PAYLOADLENGTH; FIELD_LOOPBACK;
   FIELD_IMPOSTOR; FIELD_PROCESSID; FIELD_LOCALADDR; FIELD_REMOTEADDR; FIELD_LOCALPORT;
   FIELD_REMOTEPORT; FIELD_PROTOCOL; FIELD_ENDPOINTID; FIELD_PARENTENDPOINTID;
   FIELD_LAYER; FIELD_PRIORITY; FIELD_EVENT; FIELD_PACKET; FIELD_PACKET16;
   FIELD_PACKET32; FIELD_TCP_PAYLOAD; FIELD_TCP_PAYLOAD16; FIELD_TCP_PAYLOAD32;
   FIELD_UDP_PAYLOAD; FIELD_UDP_PAYLOAD16; FIELD_UDP_PAYLOAD32; FIELD_LENGTH;
   FIELD_TIMESTAMP; FIELD_RANDOM8; FIELD_RANDOM16; FIELD_RANDOM32; FIELD_FRAGMENT].

Definition field_code (f : FIELD) : Z :=
  match f with
  | FIELD_ZERO => 0 | FIELD_INBOUND => 1 | FIELD_OUTBOUND => 2 | FIELD_IFIDX => 3
  | FIELD_SUBIFIDX => 4 | FIELD_IP => 5 | FIELD_IPV6 => 6 | FIELD_ICMP => 7
  | FIELD_TCP => 8 | FIELD_UDP => 9 | FIELD_ICMPV6 => 10 | FIELD_IP_HDRLENGTH => 11
  | FIELD_IP_TOS => 12 | FIELD_IP_LENGTH => 13 | FIELD_IP_ID => 14 | FIELD_IP_DF => 15
  | FIELD_IP_MF => 16 | FIELD_IP_FRAGOFF => 17 | FIELD_IP_TTL => 18
  | FIELD_IP_PROTOCOL => 19 | FIELD_IP_CHECKSUM => 20 | FIELD_IP_SRCADDR => 21
  | FIELD_IP_DSTADDR => 22 | FIELD_IPV6_TRAFFICCLASS => 23 | FIELD_IPV6_FLOWLABEL => 24
  | FIELD_IPV6_LENGTH => 25 | FIELD_IPV6_NEXTHDR => 26 | FIELD_IPV6_HOPLIMIT => 27
  | FIELD_IPV6_SRCADDR => 28 | FIELD_IPV6_DSTADDR => 29 | FIELD_ICMP_TYPE => 30
  | FIELD_ICMP_CODE => 31 | FIELD_ICMP_CHECKSUM => 32 | FIELD_ICMP_BODY => 33
  | FIELD_ICMPV6_TYPE => 34 | FIELD_ICMPV6_CODE => 35 | FIELD_ICMPV6_CHECKSUM => 36
  | FIELD_ICMPV6_BODY => 37 | FIELD_TCP_SRCPORT => 38 | FIELD_TCP_DSTPORT => 39
  | FIELD_TCP_SEQNUM => 40 | FIELD_TCP_ACKNUM => 41 | FIELD_TCP_HDRLENGTH => 42
  | FIELD_TCP_URG => 43 | FIELD_TCP_ACK => 44 | FIELD_TCP_PSH => 45
  | FIELD_TCP_RST => 46 | FIELD_TCP_SYN => 47 | FIELD_TCP_FIN => 48
  | FIELD_TCP_WINDOW => 49 | FIELD_TCP_CHECKSUM => 50 | FIELD_TCP_URGPTR => 51
  | FIELD_TCP_PAYLOADLENGTH => 52 | FIELD_UDP_SRCPORT => 53 | FIELD_UDP_DSTPORT => 54
  | FIELD_UDP_LENGTH => 55 | FIELD_UDP_CHECKSUM => 56 | FIELD_UDP_PAYLOADLENGTH => 57
  | FIELD_LOOPBACK => 58 | FIELD_IMPOSTOR => 59 | FIELD_PROCESSID => 60
  | FIELD_LOCALADDR => 61 | FIELD_REMOTEADDR => 62 | FIELD_LOCALPORT => 63
  | FIELD_REMOTEPORT => 64 | FIELD_PROTOCOL => 65 | FIELD_ENDPOINTID => 66
  | FIELD_PARENTENDPOINTID => 67 | FIELD_LAYER => 68 | FIELD_PRIORITY => 69
  | FIELD_EVENT => 70 | FIELD_PACKET => 71 | FIELD_PACKET16 => 72
  | FIELD_PACKET32 => 73 | FIELD_TCP_PAYLOAD => 74 | FIELD_TCP_PAYLOAD16 => 75
  | FIELD_TCP_PAYLOAD32 => 76 | FIELD_UDP_PAYLOAD => 77 | FIELD_UDP_PAYLOAD16 => 78
  | FIELD_UDP_PAYLOAD32 => 79 | FIELD_LENGTH => 80 | FIELD_TIMESTAMP => 81
  | FIELD_RANDOM8 => 82 | FIELD_RANDOM16 => 83 | FIELD_RANDOM32 => 84
  | FIELD_FRAGMENT => 85
  end.

Definition WINDIVERT_FILTER_FIELD_MAX : Z := field_code FIELD_FRAGMENT.

Definition field_eqb (f g : FIELD) : bool := field_code f =? field_code g.

(** The field a numeric code names, if any. *)
Definition field_of_code (z : Z) : option FIELD :=
  if (z <? 0) || (WINDIVERT_FILTER_FIELD_MAX <? z) then None
  else nth_error all_fields (Z.to_nat z).

(** ** Tests, [WINDIVERT_FILTER_TEST_*] *)
Inductive TEST : Set := TEST_EQ | TEST_NEQ | TEST_LT | TEST_LEQ | TEST_GT | TEST_GEQ.

Definition test_code (t : TEST) : Z :=
  match t with
  | TEST_EQ => 0 | TEST_NEQ => 1 | TEST_LT => 2
  | TEST_LEQ => 3 | TEST_GT => 4 | TEST_GEQ => 5
  end.

Definition test_of_code (z : Z) : option TEST :=
  if z =? 0 then Some TEST_EQ else if z =? 1 then Some TEST_NEQ
  else if z =? 2 then Some TEST_LT else if z =? 3 then Some TEST_LEQ
  else if z =? 4 then Some TEST_GT else if z =? 5 then Some TEST_GEQ else None.

(** ** 128-bit values: [UINT32 x[4]], word 0 least significant *)
Record u128 : Set := W128 { w0 : Z; w1 : Z; w2 : Z; w3 : Z }.

Definition val128 (a : u128) : Z :=
  w0 a + 2 ^ 32 * w1 a + 2 ^ 64 * w2 a + 2 ^ 96 * w3 a.

Definition zero128 : u128 := W128 0 0 0 0.

Definition is_u32 (z : Z) : Prop := 0 <= z < 2 ^ 32.
Definition wf128 (a : u128) : Prop :=
  is_u32 (w0 a) /\ is_u32 (w1 a) /\ is_u32 (w2 a) /\ is_u32 (w3 a).

(** ** Filter objects *)
Definition WINDIVERT_FILTER_MAXLEN : Z := 256.
Definition WINDIVERT_FILTER_RESULT_ACCEPT : Z := 0x7FFE.
Definition WINDIVERT_FILTER_RESULT_REJECT : Z := 0x7FFF.

Record WINDIVERT_FILTER : Set := mkFilter {
  field : FIELD;
  test : TEST;
  success : Z;          (* success continuation *)
  failure : Z;          (* fail continuation *)
  neg : bool;           (* argument negative? *)
  arg : u128            (* argument *)
}.

(** ** Layers, protocols *)
Inductive WINDIVERT_LAYER : Set :=
| LAYER_NETWORK | LAYER_NETWORK_FORWARD | LAYER_FLOW | LAYER_SOCKET | LAYER_REFLECT.

Definition layer_code (l : WINDIVERT_LAYER) : Z :=
  match l with
  | LAYER_NETWORK => 0 | LAYER_NETWORK_FORWARD => 1 | LAYER_FLOW => 2
  | LAYER_SOCKET => 3 | LAYER_REFLECT => 4
  end.

Definition layer_eqb (a b : WINDIVERT_LAYER) : bool := layer_code a =? layer_code b.

Definition IPPROTO_HOPOPTS : Z := 0.
Definition IPPROTO_ICMP : Z := 1.
Definition IPPROTO_TCP : Z := 6.
Definition IPPROTO_UDP : Z := 17.
Definition IPPROTO_ROUTING : Z := 43.
Definition IPPROTO_FRAGMENT : Z := 44.
Definition IPPROTO_AH : Z := 51.
Definition IPPROTO_ICMPV6 : Z := 58.
Definition IPPROTO_DSTOPTS : Z := 60.
Definition IPPROTO_MH : Z := 135.

(** ** Layer data of a [WINDIVERT_ADDRESS] *)
Record WINDIVERT_DATA_NETWORK : Set := mkDataNetwork { IfIdx : Z; SubIfIdx : Z }.

(** [WINDIVERT_DATA_FLOW] and [WINDIVERT_DATA_SOCKET] have the same members;
    one record stands for both. *)
Record WINDIVERT_DATA_FLOW : Set := mkDataFlow {
  EndpointId : Z;
  ParentEndpointId : Z;
  ProcessId : Z;
  LocalAddr : u128;
  RemoteAddr : u128;
  LocalPort : Z;
  RemotePort : Z;
  Protocol : Z
}.

Record WINDIVERT_DATA_REFLECT : Set := mkDataReflect {
  ReflTimestamp : Z;
  ReflProcessId : Z;
  ReflLayer : WINDIVERT_LAYER;
  ReflFlags : Z;
  ReflPriority : Z
}.

(** ** Byte order: [BYTESWAP16], [BYTESWAP32] *)
Definition BYTESWAP16 (x : Z) : Z :=
  ((x >>> 8) &&& 0x00FF) ||| ((x <<< 8) &&& 0xFF00).

Definition BYTESWAP32 (x : Z) : Z :=
  ((x >>> 24) &&& 0x000000FF) ||| ((x >>> 8) &&& 0x0000FF00) |||
  ((x <<< 8) &&& 0x00FF0000) ||| ((x <<< 24) &&& 0xFF000000).

Definition ntohs := BYTESWAP16.
Definition htons := BYTESWAP16.
Definition ntohl := BYTESWAP32.
Definition htonl := BYTESWAP32.

(** ** Which fields a layer supports: [WinDivertValidateField] *)
Definition WINDIVERT_LAYER_FLAG (l : WINDIVERT_LAYER) : Z := 1 <<< layer_code l.

Definition LNMFSR : Z :=
  WINDIVERT_LAYER_FLAG LAYER_NETWORK ||| WINDIVERT_LAYER_FLAG LAYER_NETWORK_FORWARD |||
  WINDIVERT_LAYER_FLAG LAYER_FLOW ||| WINDIVERT_LAYER_FLAG LAYER_SOCKET |||
  WINDIVERT_LAYER_FLAG LAYER_REFLECT.
Definition LNMFS_ : Z :=
  WINDIVERT_LAYER_FLAG LAYER_NETWORK ||| WINDIVERT_LAYER_FLAG LAYER_NETWORK_FORWARD |||
  WINDIVERT_LAYER_FLAG LAYER_FLOW ||| WINDIVERT_LAYER_FLAG LAYER_SOCKET.
Definition LN_FS_ : Z :=
  WINDIVERT_LAYER_FLAG LAYER_NETWORK ||| WINDIVERT_LAYER_FLAG LAYER_FLOW |||
  WINDIVERT_LAYER_FLAG LAYER_SOCKET.
Definition L__FS_ : Z :=
  WINDIVERT_LAYER_FLAG LAYER_FLOW ||| WINDIVERT_LAYER_FLAG LAYER_SOCKET.
Definition L__FSR : Z :=
  WINDIVERT_LAYER_FLAG LAYER_FLOW ||| WINDIVERT_LAYER_FLAG LAYER_SOCKET |||
  WINDIVERT_LAYER_FLAG LAYER_REFLECT.
Definition LNM___ : Z :=
  WINDIVERT_LAYER_FLAG LAYER_NETWORK ||| WINDIVERT_LAYER_FLAG LAYER_NETWORK_FORWARD.
Definition L____R : Z := WINDIVERT_LAYER_FLAG LAYER_REFLECT.

(** The [flags] table. *)
Definition field_layers (f : FIELD) : Z :=
  match f with
  | FIELD_ZERO => LNMFSR
  | FIELD_INBOUND => LN_FS_
  | FIELD_OUTBOUND => LN_FS_
  | FIELD_IFIDX => LNM___
  | FIELD_SUBIFIDX => LNM___
  | FIELD_IP => LNMFS_
  | FIELD_IPV6 => LNMFS_
  | FIELD_ICMP => LNMFS_
  | FIELD_TCP => LNMFS_
  | FIELD_UDP => LNMFS_
  | FIELD_ICMPV6 => LNMFS_
  | FIELD_IP_HDRLENGTH => LNM___
  | FIELD_IP_TOS => LNM___
  | FIELD_IP_LENGTH => LNM___
  | FIELD_IP_ID => LNM___
  | FIELD_IP_DF => LNM___
  | FIELD_IP_MF => LNM___
  | FIELD_IP_FRAGOFF => LNM___
  | FIELD_IP_TTL => LNM___
  | FIELD_IP_PROTOCOL => LNM___
  | FIELD_IP_CHECKSUM => LNM___
  | FIELD_IP_SRCADDR => LNM___
  | FIELD_IP_DSTADDR => LNM___
  | FIELD_IPV6_TRAFFICCLASS => LNM___
  | FIELD_IPV6_FLOWLABEL => LNM___
  | FIELD_IPV6_LENGTH => LNM___
  | FIELD_IPV6_NEXTHDR => LNM___
  | FIELD_IPV6_HOPLIMIT => LNM___
  | FIELD_IPV6_SRCADDR => LNM___
  | FIELD_IPV6_DSTADDR => LNM___
  | FIELD_ICMP_TYPE => LNM___
  | FIELD_ICMP_CODE => LNM___
  | FIELD_ICMP_CHECKSUM => LNM___
  | FIELD_ICMP_BODY => LNM___
  | FIELD_ICMPV6_TYPE => LNM___
  | FIELD_ICMPV6_CODE => LNM___
  | FIELD_ICMPV6_CHECKSUM => LNM___
  | FIELD_ICMPV6_BODY => LNM___
  | FIELD_TCP_SRCPORT => LNM___
  | FIELD_TCP_DSTPORT => LNM___
  | FIELD_TCP_SEQNUM => LNM___
  | FIELD_TCP_ACKNUM => LNM___
  | FIELD_TCP_HDRLENGTH => LNM___
  | FIELD_TCP_URG => LNM___
  | FIELD_TCP_ACK => LNM___
  | FIELD_TCP_PSH => LNM___
  | FIELD_TCP_RST => LNM___
  | FIELD_TCP_SYN => LNM___
  | FIELD_TCP_FIN => LNM___
  | FIELD_TCP_WINDOW => LNM___
  | FIELD_TCP_CHECKSUM => LNM___
  | FIELD_TCP_URGPTR => LNM___
  | FIELD_TCP_PAYLOADLENGTH => LNM___
  | FIELD_UDP_SRCPORT => LNM___
  | FIELD_UDP_DSTPORT => LNM___
  | FIELD_UDP_LENGTH => LNM___
  | FIELD_UDP_CHECKSUM => LNM___
  | FIELD_UDP_PAYLOADLENGTH => LNM___
  | FIELD_LOOPBACK => LN_FS_
  | FIELD_IMPOSTOR => LNM___
  | FIELD_PROCESSID => L__FSR
  | FIELD_LOCALADDR => LN_FS_
  | FIELD_REMOTEADDR => LN_FS_
  | FIELD_LOCALPORT => LN_FS_
  | FIELD_REMOTEPORT => LN_FS_
  | FIELD_PROTOCOL => LN_FS_
  | FIELD_ENDPOINTID => L__FS_
  | FIELD_PARENTENDPOINTID => L__FS_
  | FIELD_LAYER => L____R
  | FIELD_PRIORITY => L____R
  | FIELD_EVENT => LNMFSR
  | FIELD_PACKET => LNM___
  | FIELD_PACKET16 => LNM___
  | FIELD_PACKET32 => LNM___
  | FIELD_TCP_PAYLOAD => LNM___
  | FIELD_TCP_PAYLOAD16 => LNM___
  | FIELD_TCP_PAYLOAD32 => LNM___
  | FIELD_UDP_PAYLOAD => LNM___
  | FIELD_UDP_PAYLOAD16 => LNM___
  | FIELD_UDP_PAYLOAD32 => LNM___
  | FIELD_LENGTH => LNM___
  | FIELD_TIMESTAMP => LNMFSR
  | FIELD_RANDOM8 => LNM___
  | FIELD_RANDOM16 => LNM___
  | FIELD_RANDOM32 => LNM___
  | FIELD_FRAGMENT => LNM___
  end.

Definition WinDivertValidateField (layer : WINDIVERT_LAYER) (f : FIELD) : bool :=
  negb (field_layers f &&& (1 <<< layer_code layer) =? 0).

(** ** Properties *)

(** Byte [k/8] of a little-endian sum. *)
Ltac solve_byte := change (2 ^ 8) with 256; change (2 ^ 16) with 65536;
  change (2 ^ 24) with 16777216; unfold is_byte in *; Z.div_mod_to_equations; lia.

Lemma ntohs_ld16 p o : bytes p -> ntohs (ld16 p o) = be16 p o.
Proof.
  intros Hp. unfold ntohs, BYTESWAP16, ld16, be16.
  pose proof (byte_at_range p o Hp). pose proof (byte_at_range p (o + 1) Hp).
  set (a := byte_at p o) in *. set (b := byte_at p (o + 1)) in *.
  rewrite (shiftr_land_byte _ 8 0), (shiftl_land_byte _ 8 8) by (lia || reflexivity).
  replace ((a + 2 ^ 8 * b) / 2 ^ (8 + 0) mod 2 ^ 8) with b by (simpl (8 + 0); solve_byte).
  replace ((a + 2 ^ 8 * b) / 2 ^ (8 - 8) mod 2 ^ 8) with a
    by (simpl (8 - 8); rewrite Z.pow_0_r, Z.div_1_r; solve_byte).
  unfold is_byte in *. rewrite Z.pow_0_r, Z.mul_1_l, lor_add_disjoint by lia. lia.
Qed.

Lemma ntohl_ld32 p o : bytes p -> ntohl (ld32 p o) = be32 p o.
Proof.
  intros Hp. unfold ntohl, BYTESWAP32, ld32, be32.
  pose proof (byte_at_range p o Hp). pose proof (byte_at_range p (o + 1) Hp).
  pose proof (byte_at_range p (o + 2) Hp). pose proof (byte_at_range p (o + 3) Hp).
  set (a := byte_at p o) in *. set (b := byte_at p (o + 1)) in *.
  set (c := byte_at p (o + 2)) in *. set (d := byte_at p (o + 3)) in *.
  set (x := a + 2 ^ 8 * b + 2 ^ 16 * c + 2 ^ 24 * d).
  rewrite (shiftr_land_byte _ 24 0), (shiftr_land_byte _ 8 8) by (lia || reflexivity).
  rewrite (shiftl_land_byte _ 8 16), (shiftl_land_byte _ 24 24) by (lia || reflexivity).
  replace (x / 2 ^ (24 + 0) mod 2 ^ 8) with d by (subst x; simpl (24 + 0); solve_byte).
  replace (x / 2 ^ (8 + 8) mod 2 ^ 8) with c by (subst x; simpl (8 + 8); solve_byte).
  replace (x / 2 ^ (16 - 8) mod 2 ^ 8) with b by (subst x; simpl (16 - 8); solve_byte).
  replace (x / 2 ^ (24 - 24) mod 2 ^ 8) with a
    by (subst x; simpl (24 - 24); rewrite Z.pow_0_r, Z.div_1_r; solve_byte).
  unfold is_byte in *. rewrite Z.pow_0_r, Z.mul_1_l.
  rewrite (lor_add_disjoint d c 8), (lor_add_disjoint _ b 16), (lor_add_disjoint _ a 24) by lia.
  lia.
Qed.

Lemma field_of_code_code f : field_of_code (field_code f) = Some f.
Proof. destruct f; reflexivity. Qed.

Lemma field_eqb_eq f g : field_eqb f g = true <-> f = g.
Proof.
  unfold field_eqb. rewrite Z.eqb_eq. split; [|intros ->; reflexivity].
  intros H. apply (f_equal field_of_code) in H. rewrite !field_of_code_code in H. congruence.
Qed.

Lemma test_of_code_code t : test_of_code (test_code t) = Some t.
Proof. destruct t; reflexivity. Qed.

Lemma val128_bound a : wf128 a -> 0 <= val128 a < 2 ^ 128.
Proof. unfold wf128, is_u32, val128. lia. Qed.

Lemma val128_inj a b : wf128 a -> wf128 b -> val128 a = val128 b -> a = b.
Proof.
  destruct a, b. unfold wf128, is_u32, val128; cbn [w0 w1 w2 w3]. intros Ha Hb H.
  f_equal; lia.
Qed.

Lemma be16_range p o : bytes p -> 0 <= be16 p o < 2 ^ 16.
Proof.
  intros Hp. pose proof (byte_at_range p o Hp). pose proof (byte_at_range p (o + 1) Hp).
  unfold be16, is_byte in *. lia.
Qed.

Lemma be32_range p o : bytes p -> 0 <= be32 p o < 2 ^ 32.
Proof.
  intros Hp. pose proof (byte_at_range p o Hp). pose proof (byte_at_range p (o + 1) Hp).
  pose proof (byte_at_range p (o + 2) Hp). pose proof (byte_at_range p (o + 3) Hp).
  unfold be32, is_byte in *. lia.
Qed.

#[export] Hint Resolve be16_range be32_range val128_bound : divert.
