(* ===== verification/WdPacket.v ===== *)
(** * Packet parsing in user space

    Header layouts of [src/wd/windivert.h] and the parser
    [WinDivertHelperParsePacketEx] of [src/wd/windivert_shared.c].

    A packet is its list of bytes; a header pointer is the offset of the
    header in the packet ([option Z], [None] for [NULL]), and a header field
    is a load at that offset. *)

From Stdlib Require Import ZArith List Bool Lia.
From S2P Require Import Prelude WdTypes.
Import ListNotations.

(** ** Header fields *)

Section Headers.
Variable p : list Z.      (* the packet *)
Variable h : Z.           (* where the header starts *)

Definition ip_HdrLength : Z := byte_at p h &&& 0xF.
Definition ip_Version : Z := byte_at p h >>> 4.
Definition ip_TOS : Z := byte_at p (h + 1).
Definition ip_Length : Z := ld16 p (h + 2).
Definition ip_Id : Z := ld16 p (h + 4).
Definition ip_FragOff0 : Z := ld16 p (h + 6).
Definition ip_TTL : Z := byte_at p (h + 8).
Definition ip_Protocol : Z := byte_at p (h + 9).
Definition ip_Checksum : Z := ld16 p (h + 10).
Definition ip_SrcAddr : Z := ld32 p (h + 12).
Definition ip_DstAddr : Z := ld32 p (h + 16).

Definition WINDIVERT_IPHDR_GET_FRAGOFF : Z := ip_FragOff0 &&& 0xFF1F.
Definition WINDIVERT_IPHDR_GET_MF : bool := has ip_FragOff0 0x0020.
Definition WINDIVERT_IPHDR_GET_DF : bool := has ip_FragOff0 0x0040.

Definition ipv6_TrafficClass0 : Z := byte_at p h &&& 0xF.
Definition ipv6_FlowLabel0 : Z := byte_at p (h + 1) &&& 0xF.
Definition ipv6_TrafficClass1 : Z := byte_at p (h + 1) >>> 4.
Definition ipv6_FlowLabel1 : Z := ld16 p (h + 2).
Definition ipv6_Length : Z := ld16 p (h + 4).
Definition ipv6_NextHdr : Z := byte_at p (h + 6).
Definition ipv6_HopLimit : Z := byte_at p (h + 7).
Definition ipv6_SrcAddr (i : Z) : Z := ld32 p (h + 8 + 4 * i).
Definition ipv6_DstAddr (i : Z) : Z := ld32 p (h + 24 + 4 * i).

Definition WINDIVERT_IPV6HDR_GET_TRAFFICCLASS : Z :=
  (ipv6_TrafficClass0 <<< 4) ||| ipv6_TrafficClass1.
Definition WINDIVERT_IPV6HDR_GET_FLOWLABEL : Z :=
  (ipv6_FlowLabel0 <<< 16) ||| ipv6_FlowLabel1.

(** ICMP and ICMPv6 headers have the same layout. *)
Definition icmp_Type : Z := byte_at p h.
Definition icmp_Code : Z := byte_at p (h + 1).
Definition icmp_Checksum : Z := ld16 p (h + 2).
Definition icmp_Body : Z := ld32 p (h + 4).

Definition tcp_SrcPort : Z := ld16 p h.
Definition tcp_DstPort : Z := ld16 p (h + 2).
Definition tcp_SeqNum : Z := ld32 p (h + 4).
Definition tcp_AckNum : Z := ld32 p (h + 8).
Definition tcp_HdrLength : Z := byte_at p (h + 12) >>> 4.
Definition tcp_flag (bit : Z) : Z := b2z (Z.testbit (byte_at p (h + 13)) bit).
Definition tcp_Fin : Z := tcp_flag 0.
Definition tcp_Syn : Z := tcp_flag 1.
Definition tcp_Rst : Z := tcp_flag 2.
Definition tcp_Psh : Z := tcp_flag 3.
Definition tcp_Ack : Z := tcp_flag 4.
Definition tcp_Urg : Z := tcp_flag 5.
Definition tcp_Window : Z := ld16 p (h + 14).
Definition tcp_Checksum : Z := ld16 p (h + 16).
Definition tcp_UrgPtr : Z := ld16 p (h + 18).

Definition udp_SrcPort : Z := ld16 p h.
Definition udp_DstPort : Z := ld16 p (h + 2).
Definition udp_Length : Z := ld16 p (h + 4).
Definition udp_Checksum : Z := ld16 p (h + 6).

(** The IPv6 fragment header, [WINDIVERT_IPV6FRAGHDR]. *)
Definition frag_FragOff0 : Z := ld16 p (h + 2).
Definition WINDIVERT_IPV6FRAGHDR_GET_FRAGOFF : Z := frag_FragOff0 &&& 0xF8FF.
Definition WINDIVERT_IPV6FRAGHDR_GET_MF : bool := has frag_FragOff0 0x0100.
End Headers.

(** ** Packet info, [WINDIVERT_PACKET] *)
Record WINDIVERT_PACKET : Set := mkPacket {
  HeaderLength : Z;
  FragOff : Z;
  Fragment : bool;
  MF : bool;
  PayloadLength : Z;
  PktProtocol : Z;
  Truncated : bool;
  Extended : bool;
  IPHeader : option Z;
  IPv6Header : option Z;
  ICMPHeader : option Z;
  ICMPv6Header : option Z;
  TCPHeader : option Z;
  UDPHeader : option Z;
  Payload : option Z
}.

(** State of the IPv6 extension-header loop. *)
Record ext_state : Set := mkExt {
  x_protocol : Z;
  x_data : Z;
  x_data_len : Z;
  x_frag_off : Z;
  x_MF : bool;
  x_fragment : bool
}.

(** The [switch (protocol)] of the loop body: [Some header_len] and the
    updated fragment state when the header is an extension header. *)
Definition ext_header (p : list Z) (s : ext_state) : option (Z * ext_state) :=
  let header_len := byte_at p (x_data s + 1) in
  let proto := x_protocol s in
  if proto =? IPPROTO_FRAGMENT then
    if x_fragment s || (x_data_len s <? 8) then None
    else Some (8, mkExt proto (x_data s) (x_data_len s)
                    (ntohs (WINDIVERT_IPV6FRAGHDR_GET_FRAGOFF p (x_data s)))
                    (WINDIVERT_IPV6FRAGHDR_GET_MF p (x_data s)) true)
  else if proto =? IPPROTO_AH then Some ((header_len + 2) * 4, s)
  else if (proto =? IPPROTO_HOPOPTS) || (proto =? IPPROTO_DSTOPTS) ||
          (proto =? IPPROTO_ROUTING) || (proto =? IPPROTO_MH)
  then Some ((header_len + 1) * 8, s)
  else None.

(** [while (frag_off == 0 && data_len >= 2)]; every round consumes at least
    eight bytes, so [data_len] rounds are more than enough fuel. *)
Fixpoint ext_loop (fuel : nat) (p : list Z) (s : ext_state) : ext_state :=
  match fuel with
  | O => s
  | S fuel =>
    if (x_frag_off s =? 0) && (2 <=? x_data_len s) then
      match ext_header p s with
      | None => s
      | Some (header_len, s') =>
        if x_data_len s' <? header_len then s'
        else ext_loop fuel p
               (mkExt (byte_at p (x_data s')) (x_data s' + header_len)
                  (x_data_len s' - header_len) (x_frag_off s') (x_MF s') (x_fragment s'))
      end
    else s
  end.

(** What the IP part of the parser found. *)
Record ip_part : Set := mkIpPart {
  ip_total_len : Z;
  ip_packet_len : Z;
  ip_v4 : bool;
  ip_ext : ext_state
}.

Definition parse_ipv4 (p : list Z) : option ip_part :=
  let packetLen := zlen p in
  if (packetLen <? 20) || (ip_HdrLength p 0 <? 5) then None
  else
    let total_len := ntohs (ip_Length p 0) in
    let header_len := ip_HdrLength p 0 * 4 in
    if (total_len <? header_len) || (packetLen <? header_len) then None
    else
      let frag_off := ntohs (WINDIVERT_IPHDR_GET_FRAGOFF p 0) in
      let MF := WINDIVERT_IPHDR_GET_MF p 0 in
      let packet_len := if total_len <? packetLen then total_len else packetLen in
      Some (mkIpPart total_len packet_len true
              (mkExt (ip_Protocol p 0) header_len (packet_len - header_len) frag_off MF
                 (MF || negb (frag_off =? 0)))).

Definition parse_ipv6 (p : list Z) : option ip_part :=
  let packetLen := zlen p in
  if packetLen <? 40 then None
  else
    let total_len := ntohs (ipv6_Length p 0) + 40 in
    let packet_len := if total_len <? packetLen then total_len else packetLen in
    let data_len := packet_len - 40 in
    Some (mkIpPart total_len packet_len false
            (ext_loop (Z.to_nat data_len) p
               (mkExt (ipv6_NextHdr p 0) 40 data_len 0 false false))).

(** Transport headers found behind the IP headers, and the header length to
    skip (0 on every [goto WinDivertHelperParsePacketExit]). *)
Record transport : Set := mkTransport {
  t_icmp : option Z;
  t_icmpv6 : option Z;
  t_tcp : option Z;
  t_udp : option Z;
  t_header_len : Z
}.

Definition no_transport : transport := mkTransport None None None None 0.

Definition parse_transport (p : list Z) (v4 : bool) (s : ext_state) : transport :=
  let data := x_data s in
  let data_len := x_data_len s in
  if negb (x_frag_off s =? 0) then no_transport
  else if x_protocol s =? IPPROTO_TCP then
    if (data_len <? 20) || (tcp_HdrLength p data <? 5) then no_transport
    else
      let header_len := tcp_HdrLength p data * 4 in
      mkTransport None None (Some data) None
        (if header_len >? data_len then data_len else header_len)
  else if x_protocol s =? IPPROTO_UDP then
    if data_len <? 8 then no_transport
    else mkTransport None None None (Some data) 8
  else if x_protocol s =? IPPROTO_ICMP then
    if negb v4 || (data_len <? 8) then no_transport
    else mkTransport (Some data) None None None 8
  else if x_protocol s =? IPPROTO_ICMPV6 then
    if v4 || (data_len <? 8) then no_transport
    else mkTransport None (Some data) None None 8
  else no_transport.

(** [WinDivertHelperParsePacketEx]; [None] is [FALSE].  The bit-field widths
    of [WINDIVERT_PACKET] are the [mod]s. *)
Definition WinDivertHelperParsePacketEx (p : list Z) : option WINDIVERT_PACKET :=
  if zlen p <? 20 then None
  else
    let version := ip_Version p 0 in
    let ip := if version =? 4 then parse_ipv4 p
              else if version =? 6 then parse_ipv6 p else None in
    match ip with
    | None => None
    | Some i =>
      let s := ip_ext i in
      let t := parse_transport p (ip_v4 i) s in
      let data := x_data s + t_header_len t in
      let data_len := x_data_len s - t_header_len t in
      Some {| HeaderLength := (ip_packet_len i - data_len) mod 2 ^ 17;
              FragOff := x_frag_off s mod 2 ^ 13;
              Fragment := x_fragment s;
              MF := x_MF s;
              PayloadLength := data_len mod 2 ^ 16;
              PktProtocol := x_protocol s;
              Truncated := zlen p <? ip_total_len i;
              Extended := ip_total_len i <? zlen p;
              IPHeader := if ip_v4 i then Some 0 else None;
              IPv6Header := if ip_v4 i then None else Some 0;
              ICMPHeader := t_icmp t;
              ICMPv6Header := t_icmpv6 t;
              TCPHeader := t_tcp t;
              UDPHeader := t_udp t;
              Payload := if data_len =? 0 then None else Some data |}
    end.

(** ** Properties of the parser *)

(** The loop's data lies behind the fixed header and ends where the packet
    (after trimming to the length field) ends. *)
Definition ext_inv (packet_len : Z) (s : ext_state) : Prop :=
  0 <= x_data_len s /\ x_data s + x_data_len s = packet_len /\ 0 <= x_data s.

Lemma ext_header_len p s n s' : bytes p -> ext_header p s = Some (n, s') ->
  8 <= n /\ x_data s' = x_data s /\ x_data_len s' = x_data_len s.
Proof.
  intros Hp. pose proof (byte_at_range p (x_data s + 1) Hp) as Hb. unfold is_byte in Hb.
  unfold ext_header. repeat case_if; intros H; inversion H; subst; cbn; lia.
Qed.

Lemma ext_loop_inv p len : bytes p -> forall fuel s,
  ext_inv len s -> ext_inv len (ext_loop fuel p s).
Proof.
  intros Hp. induction fuel as [|fuel IH]; intros s Hs; cbn [ext_loop]; [exact Hs|].
  case_if; [|exact Hs]. destruct (ext_header p s) as [[n s']|] eqn:E; [|exact Hs].
  destruct (ext_header_len _ _ _ _ Hp E) as (Hn & Hd & Hl). unfold ext_inv in *.
  case_if; [rewrite Hd, Hl; exact Hs|]. b2p. apply IH. cbn. lia.
Qed.

(** Enough fuel: every round consumes eight bytes or more. *)
Lemma ext_loop_fuel p : bytes p -> forall n m s,
  (Z.to_nat (x_data_len s) <= n)%nat -> (Z.to_nat (x_data_len s) <= m)%nat ->
  ext_loop n p s = ext_loop m p s.
Proof.
  intros Hp. induction n as [|n IH]; intros m s Hn Hm.
  - assert (x_data_len s <= 0) by lia. destruct m; cbn [ext_loop]; [reflexivity|].
    case_if; [b2p; lia|reflexivity].
  - destruct m as [|m]; cbn [ext_loop]; (case_if; [|reflexivity]); [b2p; lia|].
    destruct (ext_header p s) as [[k s']|] eqn:E; [|reflexivity].
    destruct (ext_header_len _ _ _ _ Hp E) as (Hk & Hd & Hl).
    case_if; [reflexivity|]. b2p. apply IH; cbn; lia.
Qed.

(** Every header of [transport] lies inside the data it was found in. *)
Lemma parse_transport_bounds p v4 s : 0 <= x_data_len s ->
  let t := parse_transport p v4 s in
  0 <= t_header_len t <= x_data_len s /\
  (forall h, t_tcp t = Some h -> h = x_data s /\ 20 <= x_data_len s) /\
  (forall h, t_udp t = Some h -> h = x_data s /\ 8 <= x_data_len s) /\
  (forall h, t_icmp t = Some h -> h = x_data s /\ 8 <= x_data_len s) /\
  (forall h, t_icmpv6 t = Some h -> h = x_data s /\ 8 <= x_data_len s).
Proof.
  intros Hs. unfold parse_transport.
  repeat (case_if; b2p; cbn); repeat split; try discriminate; intros;
    try congruence; try lia.
Qed.

(** Which transport header is found follows from protocol and family. *)
Lemma parse_transport_proto p v4 s :
  let t := parse_transport p v4 s in
  (t_tcp t <> None -> x_protocol s = IPPROTO_TCP) /\
  (t_udp t <> None -> x_protocol s = IPPROTO_UDP) /\
  (t_icmp t <> None -> x_protocol s = IPPROTO_ICMP /\ v4 = true) /\
  (t_icmpv6 t <> None -> x_protocol s = IPPROTO_ICMPV6 /\ v4 = false).
Proof.
  unfold parse_transport.
  repeat (case_if; b2p; cbn); repeat split; try congruence; intros; try congruence;
    destruct v4; cbn in *; congruence.
Qed.

(** [size] bytes at pointer [o] are inside the packet ([NULL] is fine). *)
Definition in_packet (p : list Z) (o : option Z) (size : Z) : Prop :=
  forall h, o = Some h -> 0 <= h /\ h + size <= zlen p.

(** What the IP part guarantees to the transport part. *)
Record ip_part_ok (p : list Z) (i : ip_part) : Prop := {
  ipo_ext : ext_inv (ip_packet_len i) (ip_ext i);
  ipo_fits : ip_packet_len i <= zlen p;
  ipo_len : ip_packet_len i < 2 ^ 16 + 40;
  ipo_data : x_data_len (ip_ext i) < 2 ^ 16;
  ipo_hdr : (if ip_v4 i then 20 else 40) <= x_data (ip_ext i)
}.

Lemma ip_HdrLength_range p h : bytes p -> 0 <= ip_HdrLength p h < 16.
Proof.
  intros Hp. unfold ip_HdrLength. rewrite (land_mask_mod _ 4) by (lia || reflexivity).
  apply Z.mod_pos_bound. lia.
Qed.

Lemma parse_ipv4_ok p i : bytes p -> parse_ipv4 p = Some i -> ip_part_ok p i /\ ip_v4 i = true.
Proof.
  intros Hp. pose proof (ip_HdrLength_range p 0 Hp). unfold parse_ipv4, ip_Length.
  rewrite ntohs_ld16 by exact Hp. pose proof (be16_range p (0 + 2) Hp).
  set (n := be16 p (0 + 2)) in *. clearbody n.
  do 2 (case_if; [discriminate|]). intros E; inversion E; subst; clear E. b2p.
  split; [|reflexivity]. split; unfold ext_inv; cbn; repeat case_if; b2p; lia.
Qed.

Lemma ext_loop_data p : bytes p -> forall fuel s, x_data s <= x_data (ext_loop fuel p s).
Proof.
  intros Hp. induction fuel as [|fuel IH]; intros s; cbn [ext_loop]; [lia|].
  case_if; [|lia]. destruct (ext_header p s) as [[n s']|] eqn:E; [|lia].
  destruct (ext_header_len _ _ _ _ Hp E) as (Hn & Hd & Hl). case_if; [lia|].
  etransitivity; [|apply IH]. cbn. lia.
Qed.

Lemma parse_ipv6_ok p i : bytes p -> parse_ipv6 p = Some i -> ip_part_ok p i /\ ip_v4 i = false.
Proof.
  intros Hp. unfold parse_ipv6. case_if; [discriminate|].
  set (len := if _ <? _ then _ else _). set (s0 := mkExt _ _ _ _ _ _).
  intros E; inversion E; subst i; clear E. split; [|reflexivity]. b2p.
  assert (Hlen : 40 <= len <= zlen p /\ len < 2 ^ 16 + 40).
  { subst len. unfold ipv6_Length. rewrite ntohs_ld16 by exact Hp.
    pose proof (be16_range p (0 + 4) Hp). case_if; b2p; lia. }
  clearbody len.
  assert (Hs : ext_inv len (ext_loop (Z.to_nat (len - 40)) p s0)).
  { apply ext_loop_inv; [exact Hp|]. unfold ext_inv; subst s0; cbn; lia. }
  pose proof (ext_loop_data p Hp (Z.to_nat (len - 40)) s0) as Hd.
  change (x_data s0) with 40 in Hd.
  split; cbn [ip_packet_len ip_ext ip_v4]; unfold ext_inv in *; lia.
Qed.

(** The parser's two stages. *)
Lemma parse_inv p info : WinDivertHelperParsePacketEx p = Some info ->
  exists i, (if ip_Version p 0 =? 4 then parse_ipv4 p
             else if ip_Version p 0 =? 6 then parse_ipv6 p else None) = Some i /\
    let t := parse_transport p (ip_v4 i) (ip_ext i) in
    info = {| HeaderLength := (ip_packet_len i - (x_data_len (ip_ext i) - t_header_len t)) mod 2 ^ 17;
              FragOff := x_frag_off (ip_ext i) mod 2 ^ 13;
              Fragment := x_fragment (ip_ext i); MF := x_MF (ip_ext i);
              PayloadLength := (x_data_len (ip_ext i) - t_header_len t) mod 2 ^ 16;
              PktProtocol := x_protocol (ip_ext i);
              Truncated := zlen p <? ip_total_len i; Extended := ip_total_len i <? zlen p;
              IPHeader := if ip_v4 i then Some 0 else None;
              IPv6Header := if ip_v4 i then None else Some 0;
              ICMPHeader := t_icmp t; ICMPv6Header := t_icmpv6 t;
              TCPHeader := t_tcp t; UDPHeader := t_udp t;
              Payload := if x_data_len (ip_ext i) - t_header_len t =? 0 then None
                         else Some (x_data (ip_ext i) + t_header_len t) |}.
Proof.
  unfold WinDivertHelperParsePacketEx. case_if; [discriminate|].
  destruct (if ip_Version p 0 =? 4 then _ else _) as [i|]; [|discriminate].
  intros E; inversion E. exists i. split; reflexivity.
Qed.

Lemma parse_stage_ok p i : bytes p ->
  (if ip_Version p 0 =? 4 then parse_ipv4 p
   else if ip_Version p 0 =? 6 then parse_ipv6 p else None) = Some i -> ip_part_ok p i.
Proof.
  intros Hp. case_if; [apply parse_ipv4_ok, Hp|case_if; [apply parse_ipv6_ok, Hp|discriminate]].
Qed.

Lemma parse_shape p info : bytes p -> WinDivertHelperParsePacketEx p = Some info ->
  (in_packet p (IPHeader info) 20 /\ in_packet p (IPv6Header info) 40 /\
   in_packet p (TCPHeader info) 20 /\ in_packet p (UDPHeader info) 8 /\
   in_packet p (ICMPHeader info) 8 /\ in_packet p (ICMPv6Header info) 8) /\
  (0 <= HeaderLength info /\ 0 <= PayloadLength info /\
   HeaderLength info + PayloadLength info <= zlen p).
Proof.
  intros Hp H. destruct (parse_inv _ _ H) as (i & Hi & ->).
  destruct (parse_stage_ok p i Hp Hi) as [(Hl & Hd & H0) Hf Hpl Hdl Hh].
  destruct (parse_transport_bounds p (ip_v4 i) (ip_ext i) Hl) as (Ht & H1 & H2 & H3 & H4).
  unfold in_packet; cbn. rewrite !Z.mod_small by (destruct (ip_v4 i); lia).
  repeat split; intros; try lia;
    repeat match goal with
    | H : ?o = Some _, K : forall h, ?o = Some h -> _ |- _ => destruct (K _ H); clear K
    | H : (if ?b then _ else _) = Some _ |- _ => destruct b; inversion H; subst; clear H
    end; try lia.
Qed.

(** ** Properties *)

(** An IPv4 packet with a UDP header. *)
Definition ex_udp : list Z :=
  [0x45; 0; 0; 32; 0; 1; 0; 0; 64; 17; 0; 0; 10; 0; 0; 1; 10; 0; 0; 2;
   0x30; 0x39; 0; 53; 0; 12; 0; 0; 1; 2; 3; 4].

Lemma ex_udp_bytes : bytes ex_udp.
Proof. unfold ex_udp, bytes, is_byte. repeat constructor; lia. Qed.

(** The parser is memory safe: every header pointer it returns has its
    whole header inside the packet, and the header and payload lengths it
    reports stay within the packet. *)
Theorem parsed_headers_in_bounds p info : bytes p -> WinDivertHelperParsePacketEx p = Some info ->
  in_packet p (IPHeader info) 20 /\ in_packet p (IPv6Header info) 40 /\
  in_packet p (TCPHeader info) 20 /\ in_packet p (UDPHeader info) 8 /\
  in_packet p (ICMPHeader info) 8 /\ in_packet p (ICMPv6Header info) 8 /\
  0 <= HeaderLength info /\ 0 <= PayloadLength info /\
  HeaderLength info + PayloadLength info <= zlen p.
Proof. intros Hp H. destruct (parse_shape p info Hp H) as [? ?]. tauto. Qed.

Lemma parsed_headers_in_bounds_witness : exists info,
  WinDivertHelperParsePacketEx ex_udp = Some info /\ in_packet ex_udp (UDPHeader info) 8.
Proof.
  eexists. split; [vm_compute; reflexivity|].
  refine (proj1 (proj2 (proj2 (proj2 (parsed_headers_in_bounds ex_udp _ ex_udp_bytes _))))).
  vm_compute. reflexivity.
Defined.

(** The extension header loop terminates: every round consumes at least
    eight bytes, so as many rounds as there are bytes left give the same
    result as any larger number. *)
Theorem ext_loop_terminates p s n : bytes p -> (Z.to_nat (x_data_len s) <= n)%nat ->
  ext_loop n p s = ext_loop (Z.to_nat (x_data_len s)) p s.
Proof. intros Hp Hn. apply ext_loop_fuel; [exact Hp|exact Hn|lia]. Qed.

Lemma ext_loop_terminates_witness :
  ext_loop 100 ex_udp (mkExt 60 0 32 0 false false) = ext_loop 32 ex_udp (mkExt 60 0 32 0 false false).
Proof. apply (ext_loop_terminates ex_udp (mkExt 60 0 32 0 false false) 100 ex_udp_bytes). cbn. lia. Defined.
