(* ===== verification/WdHash.v ===== *)
(** * Packet hash

    The specialised 64-bit xxHash of [src/wd/windivert_hash.c], the source of
    the [random8], [random16] and [random32] filter fields. *)

From Stdlib Require Import ZArith List Bool Lia.
From S2P Require Import Prelude WdTypes WdPacket.
Import ListNotations.

Definition WINDIVERT_ROTL64 (x r : Z) : Z := u64 (x <<< r) ||| (x >>> (64 - r)).

Definition WINDIVERT_PRIME64_1 : Z := 11400714785074694791.
Definition WINDIVERT_PRIME64_2 : Z := 14029467366897019727.
Definition WINDIVERT_PRIME64_3 : Z := 1609587929392839161.
Definition WINDIVERT_PRIME64_4 : Z := 9650029242287828579.

Definition WINDIVERT_MUL64 (a b : Z) : Z := u64 (a * b).

Definition WinDivertXXH64Round (acc input : Z) : Z :=
  let acc := u64 (acc + WINDIVERT_MUL64 input WINDIVERT_PRIME64_2) in
  let acc := WINDIVERT_ROTL64 acc 31 in
  WINDIVERT_MUL64 acc WINDIVERT_PRIME64_1.

Definition WinDivertXXH64MergeRound (acc val : Z) : Z :=
  let val := WinDivertXXH64Round 0 val in
  let acc := Z.lxor acc val in
  u64 (WINDIVERT_MUL64 acc WINDIVERT_PRIME64_1 + WINDIVERT_PRIME64_4).

Definition WinDivertXXH64Avalanche (h64 : Z) : Z :=
  let h64 := Z.lxor h64 (h64 >>> 33) in
  let h64 := WINDIVERT_MUL64 h64 WINDIVERT_PRIME64_2 in
  let h64 := Z.lxor h64 (h64 >>> 29) in
  let h64 := WINDIVERT_MUL64 h64 WINDIVERT_PRIME64_3 in
  Z.lxor h64 (h64 >>> 32).

Definition padding64 (i : nat) : Z :=
  nth i [0x428A2F9871374491; 0xB5C0FBCFE9B5DBA5; 0x3956C25B59F111F1;
         0x923F82A4AB1C5ED5; 0xD807AA9812835B01; 0x243185BE550C7DC3;
         0x72BE5D7480DEB1FE; 0x9BDC06A7C19BF174; 0xE49B69C1EFBE4786] 0.

(** [v[i] = x ^ padding64[i+4]; i++] on the list [v] of the slots filled so
    far ([i] is its length). *)
Definition hash_push (v : list Z) (x : Z) : list Z :=
  v ++ [Z.lxor x (padding64 (length v + 4))].

Fixpoint hash_fill (n : nat) (seed : Z) (v : list Z) : list Z :=
  match n with
  | O => v
  | S n => if (length v <=? 3)%nat then hash_fill n seed (hash_push v seed) else v
  end.

Definition WinDivertHashPacket (p : list Z) (seed : Z)
    (ip_header ipv6_header icmp_header icmpv6_header tcp_header udp_header : option Z) : Z :=
  let v1 := Z.lxor seed (padding64 0) in
  let setup :=
    match ip_header, ipv6_header with
    | Some h, _ =>
      Some (Z.lxor (ld64 p h) (padding64 1), Z.lxor (ld64 p (h + 8)) (padding64 2),
            Z.lxor (ld32 p (h + 16)) (padding64 3), [])
    | None, Some h =>
      Some (Z.lxor (ld64 p h) (padding64 1), Z.lxor (ld64 p (h + 8)) (padding64 2),
            Z.lxor (ld64 p (h + 16)) (padding64 3),
            [Z.lxor (ld64 p (h + 24)) (padding64 4); Z.lxor (ld64 p (h + 32)) (padding64 5)])
    | None, None => None
    end in
  match setup with
  | None => 0
  | Some (v2, v3, v4, v) =>
    let '(v2, v) :=
      match tcp_header, udp_header, icmp_header, icmpv6_header with
      | Some h, _, _, _ =>
        let v := hash_push (hash_push v (ld64 p h)) (ld64 p (h + 8)) in
        if (length v <=? 3)%nat then (v2, hash_push v (ld32 p (h + 16)))
        else (Z.lxor v2 (u64 (ld32 p (h + 16) <<< 32)), v)
      | None, Some h, _, _ => (v2, hash_push v (ld64 p h))
      | None, None, Some h, _ => (v2, hash_push v (ld64 p h))
      | None, None, None, Some h => (v2, hash_push v (ld64 p h))
      | None, None, None, None => (v2, v)
      end in
    let v := hash_fill 4 seed v in
    let v1 := WinDivertXXH64Round (nth 0 v 0) v1 in
    let v2 := WinDivertXXH64Round (nth 1 v 0) v2 in
    let v3 := WinDivertXXH64Round (nth 2 v 0) v3 in
    let v4 := WinDivertXXH64Round (nth 3 v 0) v4 in
    let h64 := u64 (WINDIVERT_ROTL64 v1 1 + WINDIVERT_ROTL64 v2 7 +
                    WINDIVERT_ROTL64 v3 12 + WINDIVERT_ROTL64 v4 18) in
    let h64 := WinDivertXXH64MergeRound h64 v1 in
    let h64 := WinDivertXXH64MergeRound h64 v2 in
    let h64 := WinDivertXXH64MergeRound h64 v3 in
    let h64 := WinDivertXXH64MergeRound h64 v4 in
    WinDivertXXH64Avalanche (u64 (h64 + 32))
  end.
