(* ===== verification/WdExec.v ===== *)
(** * The filter evaluator

    [WinDivertGetData] ([src/wd/windivert_helper.c]), [WinDivertCompare128]
    and [WinDivertExecuteFilter] ([src/wd/windivert_shared.c]), and the
    wrapper [wd_filter_eval] of [src/wd/wd_port.c]. *)

From Stdlib Require Import ZArith List Bool Lia.
From S2P Require Import Prelude WdTypes WdPacket WdHash.
Import ListNotations.

(** ** Arguments of [WinDivertExecuteFilter] *)
Record exec_args : Set := mkArgs {
  a_layer : WINDIVERT_LAYER;
  a_timestamp : Z;
  a_event : Z;
  a_ipv4 : bool;
  a_outbound : bool;
  a_loopback : bool;
  a_impostor : bool;
  a_fragment : bool;
  a_network : option WINDIVERT_DATA_NETWORK;
  a_flow : option WINDIVERT_DATA_FLOW;
  a_socket : option WINDIVERT_DATA_FLOW;
  a_reflect : option WINDIVERT_DATA_REFLECT;
  a_ip_header : option Z;
  a_ipv6_header : option Z;
  a_icmp_header : option Z;
  a_icmpv6_header : option Z;
  a_tcp_header : option Z;
  a_udp_header : option Z;
  a_protocol : Z;
  a_packet : list Z;
  a_packet_len : Z;
  a_header_len : Z;
  a_payload_len : Z
}.

(** Outcome of reading a field: a value ([neg], [big] and the words), a
    failed read ([result = FALSE]), [return -1], or a dereference of a NULL
    pointer or an access outside the packet, which C leaves undefined. *)
Inductive fetch : Set :=
| FVal (fneg fbig : bool) (v : u128)
| FFail
| FErr
| FUndef.

Definition small (v : Z) : fetch := FVal false false (W128 v 0 0 0).
Definition big (v0 v1 v2 v3 : Z) : fetch := FVal false true (W128 v0 v1 v2 v3).
Definition non_null {A} (o : option A) : bool := match o with Some _ => true | None => false end.
Definition deref {A} (o : option A) (k : A -> fetch) : fetch :=
  match o with Some a => k a | None => FUndef end.

(** A load of the [n] bytes at [off]; [v] is the value made of them. *)
Definition in_bounds (p : list Z) (off n : Z) : bool := (0 <=? off) && (off + n <=? zlen p).
Definition loads (p : list Z) (off n : Z) (v : fetch) : fetch :=
  if in_bounds p off n then v else FUndef.

(** [WinDivertGetData] with the load it does; signed 32-bit indices. *)
Definition WinDivertGetData (packet : list Z) (min max idx size : Z) : fetch :=
  let idx := i32 (idx + (if idx <? 0 then max else min)) in
  if (idx <? min) || (idx >? max - size) then FFail
  else loads packet idx size
    (small (if size =? 1 then byte_at packet idx
            else if size =? 2 then ntohs (ld16 packet idx)
            else ntohl (ld32 packet idx))).

(** First [switch]: is the header the field lives in present? *)
Definition header_present (a : exec_args) (f : FIELD) : bool :=
  match f with
  | FIELD_IP_HDRLENGTH | FIELD_IP_TOS | FIELD_IP_LENGTH | FIELD_IP_ID | FIELD_IP_DF
  | FIELD_IP_MF | FIELD_IP_FRAGOFF | FIELD_IP_TTL | FIELD_IP_PROTOCOL | FIELD_IP_CHECKSUM
  | FIELD_IP_SRCADDR | FIELD_IP_DSTADDR => non_null (a_ip_header a)
  | FIELD_IPV6_TRAFFICCLASS | FIELD_IPV6_FLOWLABEL | FIELD_IPV6_LENGTH | FIELD_IPV6_NEXTHDR
  | FIELD_IPV6_HOPLIMIT | FIELD_IPV6_SRCADDR | FIELD_IPV6_DSTADDR => non_null (a_ipv6_header a)
  | FIELD_ICMP_TYPE | FIELD_ICMP_CODE | FIELD_ICMP_CHECKSUM | FIELD_ICMP_BODY =>
    non_null (a_icmp_header a)
  | FIELD_ICMPV6_TYPE | FIELD_ICMPV6_CODE | FIELD_ICMPV6_CHECKSUM | FIELD_ICMPV6_BODY =>
    non_null (a_icmpv6_header a)
  | FIELD_TCP_SRCPORT | FIELD_TCP_DSTPORT | FIELD_TCP_SEQNUM | FIELD_TCP_ACKNUM
  | FIELD_TCP_HDRLENGTH | FIELD_TCP_URG | FIELD_TCP_ACK | FIELD_TCP_PSH | FIELD_TCP_RST
  | FIELD_TCP_SYN | FIELD_TCP_FIN | FIELD_TCP_WINDOW | FIELD_TCP_CHECKSUM | FIELD_TCP_URGPTR
  | FIELD_TCP_PAYLOAD | FIELD_TCP_PAYLOAD16 | FIELD_TCP_PAYLOAD32 | FIELD_TCP_PAYLOADLENGTH =>
    non_null (a_tcp_header a)
  | FIELD_UDP_SRCPORT | FIELD_UDP_DSTPORT | FIELD_UDP_LENGTH | FIELD_UDP_CHECKSUM
  | FIELD_UDP_PAYLOAD | FIELD_UDP_PAYLOAD16 | FIELD_UDP_PAYLOAD32 | FIELD_UDP_PAYLOADLENGTH =>
    non_null (a_udp_header a)
  | _ => true
  end.

(** [random64]: the hash made non-zero. *)
Definition random64 (a : exec_args) : Z :=
  WinDivertHashPacket (a_packet a) (u64 (a_timestamp a)) (a_ip_header a) (a_ipv6_header a)
    (a_icmp_header a) (a_icmpv6_header a) (a_tcp_header a) (a_udp_header a)
  ||| 0xFF00000000000000.

(** The loads of the hash: the fixed part of the IP header and of the
    transport header, each where there is one. *)
Definition hash_in_bounds (a : exec_args) : bool :=
  let inside o n := match o with Some h => in_bounds (a_packet a) h n | None => true end in
  match a_ip_header a, a_ipv6_header a with
  | None, None => true
  | ip, ipv6 =>
    match ip with Some h => in_bounds (a_packet a) h 20 | None => inside ipv6 40 end &&
    match a_tcp_header a, a_udp_header a, a_icmp_header a, a_icmpv6_header a with
    | Some h, _, _, _ => in_bounds (a_packet a) h 20
    | None, Some h, _, _ | None, None, Some h, _ => in_bounds (a_packet a) h 8
    | None, None, None, icmpv6 => inside icmpv6 8
    end
  end.

Definition random (a : exec_args) (v : Z) : fetch :=
  if hash_in_bounds a then small v else FUndef.

Definition INT64_MIN : Z := - 2 ^ 63.

(** The fields that do not live in a header.  [-timestamp] overflows for the
    smallest [INT64]. *)
Definition fetch_meta (a : exec_args) (f : FIELD) (arg1 : Z) : fetch :=
  match f with
  | FIELD_ZERO => small 0
  | FIELD_EVENT => small (a_event a)
  | FIELD_LENGTH => small (a_packet_len a)
  | FIELD_TIMESTAMP =>
    if a_timestamp a =? INT64_MIN then FUndef
    else
      let n := a_timestamp a <? 0 in
      let q := u64 (if n then - a_timestamp a else a_timestamp a) in
      FVal n true (W128 (u32 q) (q >>> 32) 0 0)
  | FIELD_RANDOM8 => random a (((random64 a >>> 32) >>> 16) &&& 0xFF)
  | FIELD_RANDOM16 => random a ((random64 a >>> 32) &&& 0xFFFF)
  | FIELD_RANDOM32 => random a (u32 (random64 a))
  | FIELD_PACKET =>
    WinDivertGetData (a_packet a) 0 (a_packet_len a) (i32 arg1) 1
  | FIELD_PACKET16 =>
    WinDivertGetData (a_packet a) 0 (a_packet_len a) (i32 arg1) 2
  | FIELD_PACKET32 =>
    WinDivertGetData (a_packet a) 0 (a_packet_len a) (i32 arg1) 4
  | FIELD_TCP_PAYLOAD | FIELD_UDP_PAYLOAD =>
    WinDivertGetData (a_packet a) (a_header_len a) (a_header_len a + a_payload_len a)
      (i32 arg1) 1
  | FIELD_TCP_PAYLOAD16 | FIELD_UDP_PAYLOAD16 =>
    WinDivertGetData (a_packet a) (a_header_len a) (a_header_len a + a_payload_len a)
      (i32 arg1) 2
  | FIELD_TCP_PAYLOAD32 | FIELD_UDP_PAYLOAD32 =>
    WinDivertGetData (a_packet a) (a_header_len a) (a_header_len a + a_payload_len a)
      (i32 arg1) 4
  | FIELD_INBOUND => small (b2z (negb (a_outbound a)))
  | FIELD_OUTBOUND => small (b2z (a_outbound a))
  | FIELD_FRAGMENT => small (b2z (a_fragment a))
  | FIELD_IFIDX =>
    match a_layer a with
    | LAYER_NETWORK | LAYER_NETWORK_FORWARD => deref (a_network a) (fun d => small (IfIdx d))
    | _ => FErr
    end
  | FIELD_SUBIFIDX => deref (a_network a) (fun d => small (SubIfIdx d))
  | FIELD_LOOPBACK => small (b2z (a_loopback a))
  | FIELD_IMPOSTOR => small (b2z (a_impostor a))
  | FIELD_TCP_PAYLOADLENGTH | FIELD_UDP_PAYLOADLENGTH => small (a_payload_len a)
  | FIELD_LAYER => deref (a_reflect a) (fun d => small (layer_code (ReflLayer d)))
  | FIELD_PRIORITY =>
    deref (a_reflect a) (fun d =>
      let n := ReflPriority d <? 0 in
      FVal n false (W128 (if n then - ReflPriority d else ReflPriority d) 0 0 0))
  | _ => FErr
  end.

(** Protocol presence: from the headers on the network layers, from the
    protocol number on FLOW and SOCKET. *)
Definition proto_field (a : exec_args) (hdr : option Z) (fam : bool) (proto : Z) : fetch :=
  match a_layer a with
  | LAYER_NETWORK | LAYER_NETWORK_FORWARD => small (b2z (non_null hdr))
  | LAYER_SOCKET => deref (a_socket a) (fun d => small (b2z (fam && (Protocol d =? proto))))
  | LAYER_FLOW => deref (a_flow a) (fun d => small (b2z (fam && (Protocol d =? proto))))
  | LAYER_REFLECT => FErr
  end.

Definition fetch_presence (a : exec_args) (f : FIELD) : fetch :=
  match f with
  | FIELD_IP => small (b2z (non_null (a_ip_header a)))
  | FIELD_IPV6 => small (b2z (non_null (a_ipv6_header a)))
  | FIELD_ICMP => proto_field a (a_icmp_header a) (a_ipv4 a) IPPROTO_ICMP
  | FIELD_ICMPV6 => proto_field a (a_icmpv6_header a) (negb (a_ipv4 a)) IPPROTO_ICMPV6
  | FIELD_TCP => proto_field a (a_tcp_header a) true IPPROTO_TCP
  | FIELD_UDP => proto_field a (a_udp_header a) true IPPROTO_UDP
  | _ => FErr
  end.

(** An IPv4 address as [::ffff:a.b.c.d], an IPv6 address from its words. *)
Definition mapped (v : Z) : fetch := big (ntohl v) 0x0000FFFF 0 0.
Definition ipv6_words (word : Z -> Z) : fetch :=
  big (ntohl (word 3)) (ntohl (word 2)) (ntohl (word 1)) (ntohl (word 0)).

Definition fetch_ip (a : exec_args) (f : FIELD) : fetch :=
  let p := a_packet a in
  deref (a_ip_header a) (fun h =>
  match f with
  | FIELD_IP_HDRLENGTH => loads p h 1 (small (ip_HdrLength p h))
  | FIELD_IP_TOS => loads p (h + 1) 1 (small (ip_TOS p h))
  | FIELD_IP_LENGTH => loads p (h + 2) 2 (small (ntohs (ip_Length p h)))
  | FIELD_IP_ID => loads p (h + 4) 2 (small (ntohs (ip_Id p h)))
  | FIELD_IP_DF => loads p (h + 6) 2 (small (b2z (WINDIVERT_IPHDR_GET_DF p h)))
  | FIELD_IP_MF => loads p (h + 6) 2 (small (b2z (WINDIVERT_IPHDR_GET_MF p h)))
  | FIELD_IP_FRAGOFF => loads p (h + 6) 2 (small (ntohs (WINDIVERT_IPHDR_GET_FRAGOFF p h)))
  | FIELD_IP_TTL => loads p (h + 8) 1 (small (ip_TTL p h))
  | FIELD_IP_PROTOCOL => loads p (h + 9) 1 (small (ip_Protocol p h))
  | FIELD_IP_CHECKSUM => loads p (h + 10) 2 (small (ntohs (ip_Checksum p h)))
  | FIELD_IP_SRCADDR => loads p (h + 12) 4 (mapped (ip_SrcAddr p h))
  | FIELD_IP_DSTADDR => loads p (h + 16) 4 (mapped (ip_DstAddr p h))
  | _ => FErr
  end).

Definition fetch_ipv6 (a : exec_args) (f : FIELD) : fetch :=
  let p := a_packet a in
  deref (a_ipv6_header a) (fun h =>
  match f with
  | FIELD_IPV6_TRAFFICCLASS => loads p h 2 (small (WINDIVERT_IPV6HDR_GET_TRAFFICCLASS p h))
  | FIELD_IPV6_FLOWLABEL => loads p (h + 1) 3 (small (ntohl (WINDIVERT_IPV6HDR_GET_FLOWLABEL p h)))
  | FIELD_IPV6_LENGTH => loads p (h + 4) 2 (small (ntohs (ipv6_Length p h)))
  | FIELD_IPV6_NEXTHDR => loads p (h + 6) 1 (small (ipv6_NextHdr p h))
  | FIELD_IPV6_HOPLIMIT => loads p (h + 7) 1 (small (ipv6_HopLimit p h))
  | FIELD_IPV6_SRCADDR => loads p (h + 8) 16 (ipv6_words (ipv6_SrcAddr p h))
  | FIELD_IPV6_DSTADDR => loads p (h + 24) 16 (ipv6_words (ipv6_DstAddr p h))
  | _ => FErr
  end).

(** ICMP and ICMPv6 fields: same layout, different pointer. *)
Definition fetch_icmp (a : exec_args) (f : FIELD) : fetch :=
  let p := a_packet a in
  match f with
  | FIELD_ICMP_TYPE =>
    deref (a_icmp_header a) (fun h => loads p h 1 (small (icmp_Type p h)))
  | FIELD_ICMP_CODE =>
    deref (a_icmp_header a) (fun h => loads p (h + 1) 1 (small (icmp_Code p h)))
  | FIELD_ICMP_CHECKSUM =>
    deref (a_icmp_header a) (fun h => loads p (h + 2) 2 (small (ntohs (icmp_Checksum p h))))
  | FIELD_ICMP_BODY =>
    deref (a_icmp_header a) (fun h => loads p (h + 4) 4 (small (ntohl (icmp_Body p h))))
  | FIELD_ICMPV6_TYPE =>
    deref (a_icmpv6_header a) (fun h => loads p h 1 (small (icmp_Type p h)))
  | FIELD_ICMPV6_CODE =>
    deref (a_icmpv6_header a) (fun h => loads p (h + 1) 1 (small (icmp_Code p h)))
  | FIELD_ICMPV6_CHECKSUM =>
    deref (a_icmpv6_header a) (fun h => loads p (h + 2) 2 (small (ntohs (icmp_Checksum p h))))
  | FIELD_ICMPV6_BODY =>
    deref (a_icmpv6_header a) (fun h => loads p (h + 4) 4 (small (ntohl (icmp_Body p h))))
  | _ => FErr
  end.

Definition fetch_tcp (a : exec_args) (f : FIELD) : fetch :=
  let p := a_packet a in
  deref (a_tcp_header a) (fun h =>
  match f with
  | FIELD_TCP_SRCPORT => loads p h 2 (small (ntohs (tcp_SrcPort p h)))
  | FIELD_TCP_DSTPORT => loads p (h + 2) 2 (small (ntohs (tcp_DstPort p h)))
  | FIELD_TCP_SEQNUM => loads p (h + 4) 4 (small (ntohl (tcp_SeqNum p h)))
  | FIELD_TCP_ACKNUM => loads p (h + 8) 4 (small (ntohl (tcp_AckNum p h)))
  | FIELD_TCP_HDRLENGTH => loads p (h + 12) 1 (small (tcp_HdrLength p h))
  | FIELD_TCP_URG => loads p (h + 13) 1 (small (tcp_Urg p h))
  | FIELD_TCP_ACK => loads p (h + 13) 1 (small (tcp_Ack p h))
  | FIELD_TCP_PSH => loads p (h + 13) 1 (small (tcp_Psh p h))
  | FIELD_TCP_RST => loads p (h + 13) 1 (small (tcp_Rst p h))
  | FIELD_TCP_SYN => loads p (h + 13) 1 (small (tcp_Syn p h))
  | FIELD_TCP_FIN => loads p (h + 13) 1 (small (tcp_Fin p h))
  | FIELD_TCP_WINDOW => loads p (h + 14) 2 (small (ntohs (tcp_Window p h)))
  | FIELD_TCP_CHECKSUM => loads p (h + 16) 2 (small (ntohs (tcp_Checksum p h)))
  | FIELD_TCP_URGPTR => loads p (h + 18) 2 (small (ntohs (tcp_UrgPtr p h)))
  | _ => FErr
  end).

Definition fetch_udp (a : exec_args) (f : FIELD) : fetch :=
  let p := a_packet a in
  deref (a_udp_header a) (fun h =>
  match f with
  | FIELD_UDP_SRCPORT => loads p h 2 (small (ntohs (udp_SrcPort p h)))
  | FIELD_UDP_DSTPORT => loads p (h + 2) 2 (small (ntohs (udp_DstPort p h)))
  | FIELD_UDP_LENGTH => loads p (h + 4) 2 (small (ntohs (udp_Length p h)))
  | FIELD_UDP_CHECKSUM => loads p (h + 6) 2 (small (ntohs (udp_Checksum p h)))
  | _ => FErr
  end).

Definition words128 (v : u128) : fetch := FVal false true v.

(** [LOCALADDR] ([source_side = outbound]) and [REMOTEADDR]
    ([source_side = !outbound]). *)
Definition fetch_addr (a : exec_args) (source_side : bool)
    (data_addr : WINDIVERT_DATA_FLOW -> u128) : fetch :=
  let p := a_packet a in
  match a_layer a with
  | LAYER_NETWORK =>
    match a_ip_header a, a_ipv6_header a with
    | Some h, _ =>
      if source_side then loads p (h + 12) 4 (mapped (ip_SrcAddr p h))
      else loads p (h + 16) 4 (mapped (ip_DstAddr p h))
    | None, Some h =>
      if source_side then loads p (h + 8) 16 (ipv6_words (ipv6_SrcAddr p h))
      else loads p (h + 24) 16 (ipv6_words (ipv6_DstAddr p h))
    | None, None => big 0 0 0 0
    end
  | LAYER_FLOW => deref (a_flow a) (fun d => words128 (data_addr d))
  | LAYER_SOCKET => deref (a_socket a) (fun d => words128 (data_addr d))
  | _ => FErr
  end.

(** [LOCALPORT] and [REMOTEPORT], likewise. *)
Definition fetch_port (a : exec_args) (source_side : bool)
    (data_port : WINDIVERT_DATA_FLOW -> Z) : fetch :=
  let p := a_packet a in
  match a_layer a with
  | LAYER_NETWORK =>
    match a_tcp_header a, a_udp_header a, a_icmp_header a, a_icmpv6_header a with
    | Some h, _, _, _ =>
      if source_side then loads p h 2 (small (ntohs (tcp_SrcPort p h)))
      else loads p (h + 2) 2 (small (ntohs (tcp_DstPort p h)))
    | None, Some h, _, _ =>
      if source_side then loads p h 2 (small (ntohs (udp_SrcPort p h)))
      else loads p (h + 2) 2 (small (ntohs (udp_DstPort p h)))
    | None, None, Some h, _ => if source_side then loads p h 1 (small (icmp_Type p h)) else small 0
    | None, None, None, Some h => if source_side then loads p h 1 (small (icmp_Type p h)) else small 0
    | None, None, None, None => small 0
    end
  | LAYER_FLOW => deref (a_flow a) (fun d => small (data_port d))
  | LAYER_SOCKET => deref (a_socket a) (fun d => small (data_port d))
  | _ => FErr
  end.

Definition fetch_endpoint (a : exec_args) (id : WINDIVERT_DATA_FLOW -> Z) : fetch :=
  let words d := big (u32 (id d)) (id d >>> 32) 0 0 in
  match a_layer a with
  | LAYER_FLOW => deref (a_flow a) words
  | LAYER_SOCKET => deref (a_socket a) words
  | _ => FErr
  end.

(** The fields whose source depends on the layer. *)
Definition fetch_layer (a : exec_args) (f : FIELD) : fetch :=
  match f with
  | FIELD_LOCALADDR => fetch_addr a (a_outbound a) LocalAddr
  | FIELD_REMOTEADDR => fetch_addr a (negb (a_outbound a)) RemoteAddr
  | FIELD_LOCALPORT => fetch_port a (a_outbound a) LocalPort
  | FIELD_REMOTEPORT => fetch_port a (negb (a_outbound a)) RemotePort
  | FIELD_PROTOCOL =>
    match a_layer a with
    | LAYER_NETWORK => small (a_protocol a)
    | LAYER_FLOW => deref (a_flow a) (fun d => small (Protocol d))
    | LAYER_SOCKET => deref (a_socket a) (fun d => small (Protocol d))
    | _ => FErr
    end
  | FIELD_PROCESSID =>
    match a_layer a with
    | LAYER_FLOW => deref (a_flow a) (fun d => small (ProcessId d))
    | LAYER_SOCKET => deref (a_socket a) (fun d => small (ProcessId d))
    | LAYER_REFLECT => deref (a_reflect a) (fun d => small (ReflProcessId d))
    | _ => FErr
    end
  | FIELD_ENDPOINTID => fetch_endpoint a EndpointId
  | FIELD_PARENTENDPOINTID => fetch_endpoint a ParentEndpointId
  | _ => FErr
  end.

(** Second [switch]: the value of a field whose header is present. *)
Definition fetch_field (a : exec_args) (f : FIELD) (arg1 : Z) : fetch :=
  match f with
  | FIELD_ZERO | FIELD_EVENT | FIELD_LENGTH | FIELD_TIMESTAMP
  | FIELD_RANDOM8 | FIELD_RANDOM16 | FIELD_RANDOM32
  | FIELD_PACKET | FIELD_PACKET16 | FIELD_PACKET32
  | FIELD_TCP_PAYLOAD | FIELD_TCP_PAYLOAD16 | FIELD_TCP_PAYLOAD32
  | FIELD_UDP_PAYLOAD | FIELD_UDP_PAYLOAD16 | FIELD_UDP_PAYLOAD32
  | FIELD_INBOUND | FIELD_OUTBOUND | FIELD_FRAGMENT | FIELD_IFIDX | FIELD_SUBIFIDX
  | FIELD_LOOPBACK | FIELD_IMPOSTOR | FIELD_TCP_PAYLOADLENGTH | FIELD_UDP_PAYLOADLENGTH
  | FIELD_LAYER | FIELD_PRIORITY => fetch_meta a f arg1
  | FIELD_IP | FIELD_IPV6 | FIELD_ICMP | FIELD_ICMPV6 | FIELD_TCP | FIELD_UDP =>
    fetch_presence a f
  | FIELD_IP_HDRLENGTH | FIELD_IP_TOS | FIELD_IP_LENGTH | FIELD_IP_ID | FIELD_IP_DF
  | FIELD_IP_MF | FIELD_IP_FRAGOFF | FIELD_IP_TTL | FIELD_IP_PROTOCOL | FIELD_IP_CHECKSUM
  | FIELD_IP_SRCADDR | FIELD_IP_DSTADDR => fetch_ip a f
  | FIELD_IPV6_TRAFFICCLASS | FIELD_IPV6_FLOWLABEL | FIELD_IPV6_LENGTH | FIELD_IPV6_NEXTHDR
  | FIELD_IPV6_HOPLIMIT | FIELD_IPV6_SRCADDR | FIELD_IPV6_DSTADDR => fetch_ipv6 a f
  | FIELD_ICMP_TYPE | FIELD_ICMP_CODE | FIELD_ICMP_CHECKSUM | FIELD_ICMP_BODY
  | FIELD_ICMPV6_TYPE | FIELD_ICMPV6_CODE | FIELD_ICMPV6_CHECKSUM | FIELD_ICMPV6_BODY =>
    fetch_icmp a f
  | FIELD_TCP_SRCPORT | FIELD_TCP_DSTPORT | FIELD_TCP_SEQNUM | FIELD_TCP_ACKNUM
  | FIELD_TCP_HDRLENGTH | FIELD_TCP_URG | FIELD_TCP_ACK | FIELD_TCP_PSH | FIELD_TCP_RST
  | FIELD_TCP_SYN | FIELD_TCP_FIN | FIELD_TCP_WINDOW | FIELD_TCP_CHECKSUM | FIELD_TCP_URGPTR =>
    fetch_tcp a f
  | FIELD_UDP_SRCPORT | FIELD_UDP_DSTPORT | FIELD_UDP_LENGTH | FIELD_UDP_CHECKSUM =>
    fetch_udp a f
  | FIELD_LOCALADDR | FIELD_REMOTEADDR | FIELD_LOCALPORT | FIELD_REMOTEPORT | FIELD_PROTOCOL
  | FIELD_PROCESSID | FIELD_ENDPOINTID | FIELD_PARENTENDPOINTID => fetch_layer a f
  end.

(** ** Comparison and tests *)

(** One word of the comparison; [rest] decides when the words are equal. *)
Definition cmp_word (n x y : Z) (rest : Z) : Z :=
  if x <? y then - n else if y <? x then n else rest.

Definition WinDivertCompare128 (neg_a : bool) (a : u128) (neg_b : bool) (b : u128)
    (is_big : bool) : Z :=
  if neg_a && negb neg_b then -1
  else if negb neg_a && neg_b then 1
  else
    let n := if neg_a then -1 else 1 in
    let low := cmp_word n (w0 a) (w0 b) 0 in
    if is_big then cmp_word n (w3 a) (w3 b) (cmp_word n (w2 a) (w2 b) (cmp_word n (w1 a) (w1 b) low))
    else low.

Definition test_result (t : TEST) (cmp : Z) : bool :=
  match t with
  | TEST_EQ => cmp =? 0
  | TEST_NEQ => negb (cmp =? 0)
  | TEST_LT => cmp <? 0
  | TEST_LEQ => cmp <=? 0
  | TEST_GT => cmp >? 0
  | TEST_GEQ => cmp >=? 0
  end.

(** ** The evaluation loop *)

(** One instruction: [result], [return -1], or undefined behaviour. *)
Inductive outcome : Set := OResult (b : bool) | OErr | OUndef.

Definition exec_insn (a : exec_args) (i : WINDIVERT_FILTER) : outcome :=
  if negb (WinDivertValidateField (a_layer a) (field i)) then OErr
  else if header_present a (field i) then
    match fetch_field a (field i) (w1 (arg i)) with
    | FVal n bg v => OResult (test_result (test i) (WinDivertCompare128 n v (neg i) (arg i) bg))
    | FFail => OResult false
    | FErr => OErr
    | FUndef => OUndef
    end
  else OResult false.

(** Result of a whole evaluation: the [int] returned, or undefined. *)
Inductive verdict : Set := VRet (z : Z) | VUndef.

Fixpoint exec_loop (ttl : nat) (a : exec_args) (f : list WINDIVERT_FILTER) (ip : Z) : verdict :=
  match ttl with
  | O => VRet (-1)
  | S ttl =>
    match nth_error f (Z.to_nat ip) with
    | None => VUndef
    | Some i =>
      match exec_insn a i with
      | OErr => VRet (-1)
      | OUndef => VUndef
      | OResult r =>
        let ip := u16 (if r then success i else failure i) in
        if ip =? WINDIVERT_FILTER_RESULT_ACCEPT then VRet 1
        else if ip =? WINDIVERT_FILTER_RESULT_REJECT then VRet 0
        else exec_loop ttl a f ip
      end
    end
  end.

(** [ttl] starts at [WINDIVERT_FILTER_MAXLEN+1] and the loop runs while
    [ttl-- != 0]. *)
Definition WinDivertExecuteFilter (f : list WINDIVERT_FILTER) (a : exec_args) : verdict :=
  exec_loop (Z.to_nat (WINDIVERT_FILTER_MAXLEN + 1)) a f 0.

(** ** [wd_filter_eval] *)

Record WINDIVERT_ADDRESS : Set := mkAddress {
  Timestamp : Z;
  Layer : WINDIVERT_LAYER;
  Event : Z;
  Sniffed : bool;
  Outbound : bool;
  Loopback : bool;
  Impostor : bool;
  IPv6 : bool;
  IPChecksum : bool;
  TCPChecksum : bool;
  UDPChecksum : bool;
  Network : WINDIVERT_DATA_NETWORK;
  Flow : WINDIVERT_DATA_FLOW;
  Reflect : WINDIVERT_DATA_REFLECT
}.

Record wd_filter : Set := mkWdFilter {
  wf_layer : WINDIVERT_LAYER;
  wf_flags : Z;
  wf_object : list WINDIVERT_FILTER      (* [object[0 .. length-1]] *)
}.

(** The zeroed tail of [object[WINDIVERT_FILTER_MAXLEN]] ([calloc]). *)
Definition zero_insn : WINDIVERT_FILTER :=
  mkFilter FIELD_ZERO TEST_EQ 0 0 false (W128 0 0 0 0).

Definition object_array (insns : list WINDIVERT_FILTER) : list WINDIVERT_FILTER :=
  insns ++ repeat zero_insn (Z.to_nat WINDIVERT_FILTER_MAXLEN - length insns).

Definition EINVAL : Z := 22.

(** An all-zero [WINDIVERT_PACKET] ([memset]), for the layers without packet. *)
Definition no_packet : WINDIVERT_PACKET :=
  mkPacket 0 0 false false 0 0 false false None None None None None None None.

Definition eval_args (addr : WINDIVERT_ADDRESS) (packet : list Z) (info : WINDIVERT_PACKET)
    : exec_args :=
  {| a_layer := Layer addr; a_timestamp := Timestamp addr; a_event := Event addr;
     a_ipv4 := negb (IPv6 addr); a_outbound := Outbound addr; a_loopback := Loopback addr;
     a_impostor := Impostor addr; a_fragment := Fragment info;
     a_network := match Layer addr with
                  | LAYER_NETWORK | LAYER_NETWORK_FORWARD => Some (Network addr)
                  | _ => None end;
     a_flow := match Layer addr with LAYER_FLOW => Some (Flow addr) | _ => None end;
     a_socket := match Layer addr with LAYER_SOCKET => Some (Flow addr) | _ => None end;
     a_reflect := match Layer addr with LAYER_REFLECT => Some (Reflect addr) | _ => None end;
     a_ip_header := IPHeader info; a_ipv6_header := IPv6Header info;
     a_icmp_header := ICMPHeader info; a_icmpv6_header := ICMPv6Header info;
     a_tcp_header := TCPHeader info; a_udp_header := UDPHeader info;
     a_protocol := PktProtocol info; a_packet := packet; a_packet_len := zlen packet;
     a_header_len := HeaderLength info; a_payload_len := PayloadLength info |}.

(** [packet = None] is a NULL packet pointer. *)
Definition wd_filter_eval (f : wd_filter) (packet : option (list Z)) (addr : WINDIVERT_ADDRESS)
    : verdict :=
  if negb (layer_eqb (Layer addr) (wf_layer f)) then VRet (- EINVAL)
  else
    let bytes := match packet with Some p => p | None => [] end in
    let info :=
      match Layer addr with
      | LAYER_NETWORK | LAYER_NETWORK_FORWARD =>
        match packet with
        | None => None
        | Some p =>
          match WinDivertHelperParsePacketEx p with
          | None => None
          | Some info =>
            if (IPv6 addr && negb (non_null (IPv6Header info))) ||
               (negb (IPv6 addr) && negb (non_null (IPHeader info)))
            then None else Some info
          end
        end
      | _ => Some no_packet
      end in
    match info with
    | None => VRet (- EINVAL)
    | Some info =>
      match WinDivertExecuteFilter (object_array (wf_object f)) (eval_args addr bytes info) with
      | VUndef => VUndef
      | VRet r => if r <? 0 then VRet (- EINVAL) else VRet (b2z (negb (r =? 0)))
      end
    end.

(** ** Well-formed filter objects

    What the compiler guarantees: at most [WINDIVERT_FILTER_MAXLEN]
    instructions, fields of the layer, arguments of four 32-bit words, and
    continuations that are a result or a later instruction.  The deserializer
    checks all but the layer. *)
Definition jump_ok (n i t : Z) : bool :=
  (t =? WINDIVERT_FILTER_RESULT_ACCEPT) || (t =? WINDIVERT_FILTER_RESULT_REJECT) ||
  ((i <? t) && (t <? n)).

Definition word_ok (z : Z) : bool := (0 <=? z) && (z <? 2 ^ 32).
Definition arg_ok (a : u128) : bool :=
  word_ok (w0 a) && word_ok (w1 a) && word_ok (w2 a) && word_ok (w3 a).

Definition insn_ok (l : WINDIVERT_LAYER) (n i : Z) (x : WINDIVERT_FILTER) : bool :=
  WinDivertValidateField l (field x) && jump_ok n i (success x) && jump_ok n i (failure x) &&
  arg_ok (arg x).

Fixpoint insns_ok (l : WINDIVERT_LAYER) (n i : Z) (f : list WINDIVERT_FILTER) : bool :=
  match f with
  | [] => true
  | x :: f => insn_ok l n i x && insns_ok l n (i + 1) f
  end.

Definition wf_filter (l : WINDIVERT_LAYER) (f : list WINDIVERT_FILTER) : bool :=
  (1 <=? zlen f) && (zlen f <=? WINDIVERT_FILTER_MAXLEN) && insns_ok l (zlen f) 0 f.

(** ** Comparison as integers *)

(** Truth of [v <test> arg] on integers. *)
Definition test_z (t : TEST) (v arg : Z) : bool :=
  match t with
  | TEST_EQ => v =? arg
  | TEST_NEQ => negb (v =? arg)
  | TEST_LT => v <? arg
  | TEST_LEQ => v <=? arg
  | TEST_GT => arg <? v
  | TEST_GEQ => arg <=? v
  end.

(** A sign and a magnitude; [is_big] says how many words count. *)
Definition magnitude (is_big : bool) (v : u128) : Z := if is_big then val128 v else w0 v.
Definition signed (neg : bool) (z : Z) : Z := if neg then - z else z.

(** Well-formed arguments: the layer's data is there, the headers and the
    payload lie in a packet shorter than 2^31 bytes, and the time stamp has a
    negation. *)
Record args_ok (a : exec_args) : Prop := {
  ao_network : a_layer a = LAYER_NETWORK \/ a_layer a = LAYER_NETWORK_FORWARD ->
               non_null (a_network a) = true;
  ao_flow : a_layer a = LAYER_FLOW -> non_null (a_flow a) = true;
  ao_socket : a_layer a = LAYER_SOCKET -> non_null (a_socket a) = true;
  ao_reflect : a_layer a = LAYER_REFLECT -> non_null (a_reflect a) = true;
  ao_len : a_packet_len a = zlen (a_packet a);
  ao_int : zlen (a_packet a) < 2 ^ 31;
  ao_header : 0 <= a_header_len a;
  ao_payload : 0 <= a_payload_len a;
  ao_fits : a_header_len a + a_payload_len a <= zlen (a_packet a);
  ao_ip : in_packet (a_packet a) (a_ip_header a) 20;
  ao_ipv6 : in_packet (a_packet a) (a_ipv6_header a) 40;
  ao_tcp : in_packet (a_packet a) (a_tcp_header a) 20;
  ao_udp : in_packet (a_packet a) (a_udp_header a) 8;
  ao_icmp : in_packet (a_packet a) (a_icmp_header a) 8;
  ao_icmpv6 : in_packet (a_packet a) (a_icmpv6_header a) 8;
  ao_time : a_timestamp a <> INT64_MIN
}.

(** ** Properties *)

Lemma insns_ok_nth l n : forall f i k x, insns_ok l n i f = true ->
  nth_error f k = Some x -> insn_ok l n (i + Z.of_nat k) x = true.
Proof.
  induction f as [|y f IH]; intros i k x; [destruct k; discriminate|].
  cbn [insns_ok]. intros H Hk. b2p. destruct k as [|k]; cbn in Hk.
  - inversion Hk; subst. now rewrite Z.add_0_r.
  - specialize (IH _ _ _ H0 Hk). now replace (i + Z.of_nat (S k)) with (i + 1 + Z.of_nat k) by lia.
Qed.

Lemma wf_filter_nth l f k x : wf_filter l f = true -> nth_error f k = Some x ->
  insn_ok l (zlen f) (Z.of_nat k) x = true.
Proof.
  unfold wf_filter. intros H Hk. b2p. exact (insns_ok_nth _ _ _ _ _ _ H0 Hk).
Qed.

Lemma arg_ok_wf128 a : arg_ok a = true -> wf128 a.
Proof. unfold arg_ok, word_ok, wf128, is_u32. intros H. b2p. lia. Qed.

(** The comparison is that of the integers, negative zeros apart. *)
Lemma compare128_test t n a m b is_big : wf128 a -> wf128 b ->
  (n = true -> 0 < magnitude is_big a) -> (m = true -> 0 < magnitude is_big b) ->
  test_result t (WinDivertCompare128 n a m b is_big) =
  test_z t (signed n (magnitude is_big a)) (signed m (magnitude is_big b)).
Proof.
  destruct a as [a0 a1 a2 a3], b as [b0 b1 b2 b3].
  unfold wf128, is_u32, magnitude, val128; cbn [w0 w1 w2 w3]. intros Ha Hb Hn Hm.
  set (x := signed n _). set (y := signed m _).
  assert (C : WinDivertCompare128 n (W128 a0 a1 a2 a3) m (W128 b0 b1 b2 b3) is_big =
    match x ?= y with Lt => -1 | Eq => 0 | Gt => 1 end).
  { unfold WinDivertCompare128, cmp_word; cbn [w0 w1 w2 w3]. subst x y.
    destruct n, m, is_big; cbn [andb negb signed]; specialize (Hn eq_refl) || clear Hn;
      specialize (Hm eq_refl) || clear Hm; match goal with |- context [?u ?= ?v] => destruct (Z.compare_spec u v) end;
      repeat case_if; b2p; lia. }
  rewrite C. destruct (Z.compare_spec x y); destruct t; cbn; lia.
Qed.

(** [WinDivertGetData] never leaves the packet. *)
Lemma GetData_defined p lo hi idx n : 0 <= lo -> 0 <= n -> hi <= zlen p ->
  WinDivertGetData p lo hi idx n <> FUndef /\ WinDivertGetData p lo hi idx n <> FErr.
Proof.
  intros Hlo Hn Hhi. unfold WinDivertGetData, small, loads, in_bounds.
  set (j := i32 _). destruct ((j <? lo) || (j >? hi - n)) eqn:E1; [split; discriminate|].
  destruct ((0 <=? j) && (j + n <=? zlen p)) eqn:E2; [split; discriminate|].
  b2p. destruct E2; b2p; lia.
Qed.

(** The index does not wrap for the indices of the filter language, whose
    magnitude is at most 65535. *)
Lemma GetData_index lo hi idx : -65535 <= idx <= 65535 -> 0 <= lo <= hi -> hi < 2 ^ 31 - 2 ^ 16 ->
  i32 (idx + (if idx <? 0 then hi else lo)) = idx + (if idx <? 0 then hi else lo).
Proof. intros. unfold i32, u32. destruct (idx <? 0) eqn:?; case_if; b2p; Z.to_euclidean_division_equations; lia. Qed.

(** Loads inside a header that lies in the packet. *)
Lemma in_packet_bounds p o h n off k : in_packet p o n -> o = Some h -> 0 <= off -> off + k <= n ->
  in_bounds p (h + off) k = true.
Proof.
  intros H E Ho Hk. destruct (H h E). unfold in_bounds. apply andb_true_iff.
  rewrite !Z.leb_le. lia.
Qed.

Lemma loads_in p o h n off k v : in_packet p o n -> o = Some h -> 0 <= off -> off + k <= n ->
  loads p (h + off) k v = v.
Proof. intros H E Ho Hk. unfold loads. now rewrite (in_packet_bounds p o h n off k H E Ho Hk). Qed.

Lemma loads_at p o h n k v : in_packet p o n -> o = Some h -> k <= n -> loads p h k v = v.
Proof. intros H E Hk. rewrite <- (Z.add_0_r h) at 1. now apply (loads_in p o h n 0 k); [..|lia|lia]. Qed.

(** Every load of a header field is inside the packet. *)
Ltac load_from I E := first [rewrite (loads_in _ _ _ _ _ _ _ I E) by lia | rewrite (loads_at _ _ _ _ _ _ I E) by lia].

Ltac load_ok A :=
  repeat match goal with
  | E : a_ip_header _ = Some _ |- context [loads] => load_from (ao_ip _ A) E
  | E : a_ipv6_header _ = Some _ |- context [loads] => load_from (ao_ipv6 _ A) E
  | E : a_tcp_header _ = Some _ |- context [loads] => load_from (ao_tcp _ A) E
  | E : a_udp_header _ = Some _ |- context [loads] => load_from (ao_udp _ A) E
  | E : a_icmp_header _ = Some _ |- context [loads] => load_from (ao_icmp _ A) E
  | E : a_icmpv6_header _ = Some _ |- context [loads] => load_from (ao_icmpv6 _ A) E
  end.

Lemma hash_loads a : args_ok a -> hash_in_bounds a = true.
Proof.
  intros A. unfold hash_in_bounds.
  assert (B : forall o n h, in_packet (a_packet a) o n -> o = Some h -> in_bounds (a_packet a) h n = true).
  { intros o n h I E. rewrite <- (Z.add_0_r h). apply (in_packet_bounds _ o h n); auto; lia. }
  destruct A. destruct (a_ip_header a), (a_ipv6_header a), (a_tcp_header a), (a_udp_header a), (a_icmp_header a),
    (a_icmpv6_header a); try reflexivity; rewrite ?andb_true_iff; repeat split; eauto.
Qed.

(** A field of the layer, with its header present, always has a value or a
    failed read: no NULL pointer is followed and [-1] is not returned. *)
Lemma fetch_defined a f arg1 : args_ok a ->
  WinDivertValidateField (a_layer a) f = true -> header_present a f = true ->
  fetch_field a f arg1 <> FUndef /\ fetch_field a f arg1 <> FErr.
Proof.
  intros A Hv Hh. pose proof (hash_loads a A) as HL.
  pose proof A as [Hn Hf Hs Hr Hl Hi H0 H1 H2 _ _ _ _ _ _ Ht]. apply Z.eqb_neq in Ht.
  destruct (a_layer a) eqn:El; destruct f; try discriminate Hv; clear Hv; cbn in Hh |- *;
    unfold fetch_ip, fetch_ipv6, fetch_icmp, fetch_tcp, fetch_udp, proto_field, fetch_addr,
      fetch_port, fetch_endpoint, mapped, ipv6_words, random; rewrite ?El, ?HL, ?Ht;
    try (apply GetData_defined; lia);
    repeat match goal with
    | |- context [deref ?o _] => destruct o eqn:?; cbn [deref non_null] in *
    | |- context [match ?o with Some _ => _ | None => _ end] => destruct o eqn:?; cbn [non_null] in *
    | |- context [if ?o then _ else _] => destruct o eqn:?
    end; load_ok A; try (split; discriminate); exfalso;
    first [ discriminate Hh | discriminate (Hn (or_introl eq_refl))
          | discriminate (Hn (or_intror eq_refl)) | discriminate (Hf eq_refl)
          | discriminate (Hs eq_refl) | discriminate (Hr eq_refl) ].
Qed.

Lemma exec_insn_defined a i : args_ok a -> WinDivertValidateField (a_layer a) (field i) = true ->
  exists b, exec_insn a i = OResult b.
Proof.
  intros Ha Hv. unfold exec_insn. rewrite Hv. cbn [negb].
  destruct (header_present a (field i)) eqn:Hh; [|eauto].
  destruct (fetch_defined a (field i) (w1 (arg i)) Ha Hv Hh) as [Hu He].
  destruct (fetch_field a (field i) (w1 (arg i))); try congruence; eauto.
Qed.

(** *** The loop on well-formed filters *)

Lemma jump_ok_cases n i t : jump_ok n i t = true -> n <= WINDIVERT_FILTER_MAXLEN -> 0 <= i ->
  u16 t = t /\ (t = WINDIVERT_FILTER_RESULT_ACCEPT \/ t = WINDIVERT_FILTER_RESULT_REJECT \/
    (t <> WINDIVERT_FILTER_RESULT_ACCEPT /\ t <> WINDIVERT_FILTER_RESULT_REJECT /\ i < t < n)).
Proof.
  unfold jump_ok, u16, WINDIVERT_FILTER_RESULT_ACCEPT, WINDIVERT_FILTER_RESULT_REJECT,
    WINDIVERT_FILTER_MAXLEN.
  intros H Hn Hi. apply orb_true_iff in H. rewrite orb_true_iff, andb_true_iff in H.
  rewrite !Z.eqb_eq, !Z.ltb_lt in H. split; [apply Z.mod_small; lia|lia].
Qed.

Section Loop.
Variable a : exec_args.
Variable f : list WINDIVERT_FILTER.
Hypothesis Ha : args_ok a.
Hypothesis Hf : wf_filter (a_layer a) f = true.

(** Where the evaluation goes from instruction [i]. *)
Definition next_ip (i : WINDIVERT_FILTER) : Z :=
  match exec_insn a i with
  | OResult true => success i
  | _ => failure i
  end.

Lemma wf_maxlen : zlen f <= WINDIVERT_FILTER_MAXLEN.
Proof using Hf. unfold wf_filter in Hf. b2p. assumption. Qed.

Lemma wf_nonempty : 0 < zlen f.
Proof using Hf. unfold wf_filter in Hf. b2p. lia. Qed.

Lemma next_ip_ok ip i : 0 <= ip -> nth_error f (Z.to_nat ip) = Some i ->
  (exists b, exec_insn a i = OResult b /\ next_ip i = if b then success i else failure i) /\
  jump_ok (zlen f) ip (next_ip i) = true.
Proof using Ha Hf.
  intros Hip Hi. pose proof (wf_filter_nth _ _ _ _ Hf Hi) as H. unfold insn_ok in H.
  rewrite Z2Nat.id in H by exact Hip. rewrite !andb_true_iff in H.
  destruct H as [[[Hv Hs] Hx] _]. destruct (exec_insn_defined a i Ha Hv) as [b Eb].
  unfold next_ip. rewrite Eb. split; [exists b|]; destruct b; auto.
Qed.

(** One round. *)
Lemma exec_loop_S n ip i : 0 <= ip -> nth_error f (Z.to_nat ip) = Some i ->
  exec_loop (S n) a f ip =
  if next_ip i =? WINDIVERT_FILTER_RESULT_ACCEPT then VRet 1
  else if next_ip i =? WINDIVERT_FILTER_RESULT_REJECT then VRet 0
  else exec_loop n a f (next_ip i).
Proof using Ha Hf.
  intros Hip Hi. destruct (next_ip_ok ip i Hip Hi) as [(b & Eb & En) Hj].
  destruct (jump_ok_cases _ _ _ Hj wf_maxlen Hip) as [Hu _].
  cbn [exec_loop]. rewrite Hi, Eb, <- En, Hu. reflexivity.
Qed.

Lemma nth_in_range ip : 0 <= ip < zlen f -> exists i, nth_error f (Z.to_nat ip) = Some i.
Proof using.
  intros H. destruct (nth_error f (Z.to_nat ip)) eqn:E; [eauto|].
  apply nth_error_None in E. unfold zlen in H. lia.
Qed.

(** Jumps go forward, so as many rounds as instructions left decide. *)
Lemma exec_loop_decides : forall n ip, 0 <= ip < zlen f -> zlen f - ip <= Z.of_nat n ->
  exists b, forall m, zlen f - ip <= Z.of_nat m -> exec_loop m a f ip = VRet (b2z b).
Proof using Ha Hf.
  induction n as [|n IH]; intros ip Hip Hn; [lia|].
  destruct (nth_in_range ip Hip) as [i Hi].
  destruct (next_ip_ok ip i ltac:(lia) Hi) as [_ Hj].
  destruct (jump_ok_cases _ _ _ Hj wf_maxlen ltac:(lia)) as [_ [E|[E|(E1 & E2 & E3)]]].
  - exists true. intros [|m] Hm; [lia|]. rewrite (exec_loop_S m ip i) by (assumption || lia).
    now rewrite E.
  - exists false. intros [|m] Hm; [lia|]. rewrite (exec_loop_S m ip i) by (assumption || lia).
    now rewrite E.
  - destruct (IH (next_ip i) ltac:(lia) ltac:(lia)) as [b Hb]. exists b.
    intros [|m] Hm; [lia|]. rewrite (exec_loop_S m ip i) by (assumption || lia).
    apply Z.eqb_neq in E1, E2. rewrite E1, E2. apply Hb. lia.
Qed.

(** Does the evaluation from [ip] accept?  Any fuel from [length f] on. *)
Definition accepts (ip : Z) : bool :=
  match exec_loop (length f) a f ip with VRet z => z =? 1 | VUndef => false end.

Definition accepts_at (t : Z) : bool :=
  if t =? WINDIVERT_FILTER_RESULT_ACCEPT then true
  else if t =? WINDIVERT_FILTER_RESULT_REJECT then false
  else accepts t.

Lemma accepts_exec ip m : 0 <= ip < zlen f -> zlen f - ip <= Z.of_nat m ->
  exec_loop m a f ip = VRet (b2z (accepts ip)).
Proof using Ha Hf.
  intros Hip Hm. destruct (exec_loop_decides m ip Hip Hm) as [b Hb]. unfold accepts.
  rewrite (Hb (length f)) by (unfold zlen in *; lia). rewrite Hb by exact Hm.
  destruct b; reflexivity.
Qed.

Lemma accepts_step ip i : 0 <= ip -> nth_error f (Z.to_nat ip) = Some i ->
  accepts ip = accepts_at (next_ip i).
Proof using Ha Hf.
  intros Hip Hi. assert (Hr : 0 <= ip < zlen f).
  { split; [exact Hip|]. assert (Hlt : (Z.to_nat ip < length f)%nat)
      by (apply nth_error_Some; congruence). unfold zlen. lia. }
  pose proof (accepts_exec ip (S (length f)) Hr ltac:(unfold zlen; lia)) as E.
  rewrite (exec_loop_S _ _ i) in E by assumption. unfold accepts_at, accepts.
  destruct (next_ip i =? WINDIVERT_FILTER_RESULT_ACCEPT);
    [unfold accepts in *; destruct (exec_loop (length f) a f ip); [|discriminate];
     destruct (z =? 1) eqn:Ez; [reflexivity|discriminate]|].
  destruct (next_ip i =? WINDIVERT_FILTER_RESULT_REJECT);
    [unfold accepts in *; destruct (exec_loop (length f) a f ip); [|reflexivity];
     destruct (z =? 1) eqn:Ez; [discriminate|reflexivity]|].
  rewrite E. fold (accepts ip). now destruct (accepts ip).
Qed.

Lemma ExecuteFilter_accepts : WinDivertExecuteFilter f a = VRet (b2z (accepts 0)).
Proof using Ha Hf.
  apply accepts_exec; [pose proof wf_nonempty; lia|]. pose proof wf_maxlen. lia.
Qed.
End Loop.

(** ** The wrapper *)

(** The zeroed tail of the object array is never reached. *)
Lemma exec_loop_pad a f pad : args_ok a -> wf_filter (a_layer a) f = true ->
  forall n ip, 0 <= ip < zlen f -> exec_loop n a (f ++ pad) ip = exec_loop n a f ip.
Proof.
  intros Ha Hf. induction n as [|n IH]; intros ip Hr; [reflexivity|].
  destruct (nth_in_range f ip Hr) as [i Hi].
  assert (Hi' : nth_error (f ++ pad) (Z.to_nat ip) = Some i).
  { rewrite nth_error_app1; [exact Hi|]. apply nth_error_Some. congruence. }
  destruct (next_ip_ok a f Ha Hf ip i ltac:(lia) Hi) as [(b & Eb & En) Hj].
  destruct (jump_ok_cases _ _ _ Hj (wf_maxlen a f Hf) ltac:(lia)) as [Hu Hc].
  cbn [exec_loop]. rewrite Hi, Hi', Eb, <- En, Hu.
  case_if; [reflexivity|]. case_if; [reflexivity|]. b2p.
  destruct Hc as [Hc|[Hc|(_ & _ & Hc)]]; [contradiction|contradiction|]. apply IH. lia.
Qed.

Lemma ExecuteFilter_object a f : args_ok a -> wf_filter (a_layer a) f = true ->
  WinDivertExecuteFilter (object_array f) a = VRet (b2z (accepts a f 0)).
Proof.
  intros Ha Hf. rewrite <- ExecuteFilter_accepts by assumption. unfold WinDivertExecuteFilter, object_array.
  apply exec_loop_pad; [exact Ha|exact Hf|]. pose proof (wf_nonempty a f Hf). lia.
Qed.

(** A time stamp of the kernel, converted to [INT64], can be negated: so it is
    for 292 years after the boot. *)
Definition stamp_ok (t : Z) : Prop := i64 t <> INT64_MIN.

Lemma stamp_small t : 0 <= t < 2 ^ 63 -> stamp_ok t.
Proof. unfold stamp_ok, i64, u64, INT64_MIN. intros H. rewrite Z.mod_small by lia. case_if; b2p; lia. Qed.

Lemma eval_args_ok addr p info : Timestamp addr <> INT64_MIN -> bytes p -> zlen p < 2 ^ 31 ->
  WinDivertHelperParsePacketEx p = Some info \/ info = no_packet -> args_ok (eval_args addr p info).
Proof.
  intros Ht Hp Hl H. assert (S : (in_packet p (IPHeader info) 20 /\ in_packet p (IPv6Header info) 40 /\
     in_packet p (TCPHeader info) 20 /\ in_packet p (UDPHeader info) 8 /\
     in_packet p (ICMPHeader info) 8 /\ in_packet p (ICMPv6Header info) 8) /\
    0 <= HeaderLength info /\ 0 <= PayloadLength info /\ HeaderLength info + PayloadLength info <= zlen p).
  { destruct H as [H| ->]; [now apply parse_shape|]. pose proof (zlen_nonneg p).
    split; [repeat split; discriminate|cbn; lia]. }
  unfold eval_args. split; cbn [a_layer a_network a_flow a_socket a_reflect a_packet a_packet_len
    a_header_len a_payload_len a_ip_header a_ipv6_header a_icmp_header a_icmpv6_header a_tcp_header
    a_udp_header a_timestamp]; try apply S; try assumption; try reflexivity; intros E; try (now rewrite E).
  now destruct E as [-> | ->].
Qed.

(** A result does not depend on how [-INT64_MIN] comes out: where the
    evaluation has a result, it has the same one with a time stamp that has
    the same bits and a negation. *)
Definition args_at (t : Z) (a : exec_args) : exec_args :=
  mkArgs (a_layer a) t (a_event a) (a_ipv4 a) (a_outbound a) (a_loopback a) (a_impostor a) (a_fragment a)
    (a_network a) (a_flow a) (a_socket a) (a_reflect a) (a_ip_header a) (a_ipv6_header a) (a_icmp_header a)
    (a_icmpv6_header a) (a_tcp_header a) (a_udp_header a) (a_protocol a) (a_packet a) (a_packet_len a)
    (a_header_len a) (a_payload_len a).

Definition settled (t : Z) : Z := if t =? INT64_MIN then 2 ^ 63 else t.

Lemma settled_ok t : settled t <> INT64_MIN.
Proof. unfold settled, INT64_MIN. case_if; b2p; [discriminate|assumption]. Qed.

Lemma fetch_settled a f x : fetch_field (args_at (settled (a_timestamp a)) a) f x = fetch_field a f x \/
  fetch_field a f x = FUndef.
Proof.
  unfold settled. destruct (Z.eqb_spec (a_timestamp a) INT64_MIN) as [E|E];
    [|left; destruct a; reflexivity].
  assert (R : random64 (args_at (2 ^ 63) a) = random64 a)
    by (unfold random64; cbn [args_at a_packet a_timestamp a_ip_header a_ipv6_header a_icmp_header a_icmpv6_header
      a_tcp_header a_udp_header]; rewrite E; reflexivity).
  destruct f; cbn [fetch_field fetch_meta];
    lazymatch goal with
    | |- context [random64] => left; now rewrite R
    | |- context [INT64_MIN] => right; now rewrite E
    | |- _ => left; reflexivity
    end.
Qed.

Lemma exec_insn_settled a i b : exec_insn a i = OResult b ->
  exec_insn (args_at (settled (a_timestamp a)) a) i = OResult b.
Proof.
  unfold exec_insn. change (a_layer (args_at _ a)) with (a_layer a).
  change (header_present (args_at _ a) (field i)) with (header_present a (field i)).
  case_if; [discriminate|]. case_if; [|auto].
  destruct (fetch_settled a (field i) (w1 (arg i))) as [-> | ->]; [auto|discriminate].
Qed.

Lemma exec_loop_values a f : forall n ip r, exec_loop n a f ip = VRet r -> r = -1 \/ r = 0 \/ r = 1.
Proof.
  induction n as [|n IH]; intros ip r; cbn [exec_loop]; [intros [= <-]; auto|].
  destruct (nth_error f (Z.to_nat ip)) as [i|]; [|discriminate].
  destruct (exec_insn a i) as [b| |]; [|intros [= <-]; auto|discriminate].
  case_if; [intros [= <-]; auto|]. case_if; [intros [= <-]; auto|]. apply IH.
Qed.

Lemma ExecuteFilter_values f a r : WinDivertExecuteFilter f a = VRet r -> r = -1 \/ r = 0 \/ r = 1.
Proof. apply exec_loop_values. Qed.

Lemma exec_loop_settled a f : forall n ip, exec_loop n a f ip = VRet 1 ->
  exec_loop n (args_at (settled (a_timestamp a)) a) f ip = VRet 1.
Proof.
  induction n as [|n IH]; intros ip; cbn [exec_loop]; [discriminate|].
  destruct (nth_error f (Z.to_nat ip)) as [i|]; [|discriminate].
  destruct (exec_insn a i) as [b| |] eqn:E; try discriminate. rewrite (exec_insn_settled _ _ _ E).
  case_if; [auto|]. case_if; [auto|]. apply IH.
Qed.

(** What [wd_filter_eval] returns: the verdict of the filter, or an error
    when the address and the packet do not fit. *)
Lemma wd_filter_eval_packet f p addr info : wf_filter (wf_layer f) (wf_object f) = true ->
  Timestamp addr <> INT64_MIN -> bytes p -> zlen p < 2 ^ 31 -> Layer addr = wf_layer f ->
  Layer addr = LAYER_NETWORK \/ Layer addr = LAYER_NETWORK_FORWARD ->
  WinDivertHelperParsePacketEx p = Some info ->
  (if IPv6 addr then IPv6Header info <> None else IPHeader info <> None) ->
  wd_filter_eval f (Some p) addr = VRet (b2z (accepts (eval_args addr p info) (wf_object f) 0)).
Proof.
  intros Hf Ht Hp Hl El Hn Hi H6. unfold wd_filter_eval. rewrite El.
  replace (layer_eqb (wf_layer f) (wf_layer f)) with true by now destruct (wf_layer f).
  assert (Ei : (IPv6 addr && negb (non_null (IPv6Header info))) ||
    (negb (IPv6 addr) && negb (non_null (IPHeader info))) = false).
  { destruct (IPv6 addr), (IPv6Header info), (IPHeader info); cbn; congruence. }
  rewrite <- El. cbn [negb].
  assert (Ex : match Layer addr with
     | LAYER_NETWORK | LAYER_NETWORK_FORWARD =>
       match WinDivertHelperParsePacketEx p with
       | None => None
       | Some info => if (IPv6 addr && negb (non_null (IPv6Header info))) ||
           (negb (IPv6 addr) && negb (non_null (IPHeader info))) then None else Some info
       end
     | _ => Some no_packet end = Some info)
    by (rewrite Hi, Ei; now destruct Hn as [-> | ->]).
  rewrite Ex, ExecuteFilter_object.
  - now destruct (accepts _ _ _).
  - apply eval_args_ok; auto.
  - cbn. now rewrite El.
Qed.

(** ** Properties *)

(** [udp.DstPort == 53], and an address for [ex_udp]. *)
Definition ex_filter : wd_filter :=
  mkWdFilter LAYER_NETWORK 0
    [mkFilter FIELD_UDP_DSTPORT TEST_EQ WINDIVERT_FILTER_RESULT_ACCEPT
       WINDIVERT_FILTER_RESULT_REJECT false (W128 53 0 0 0)].

Definition ex_address : WINDIVERT_ADDRESS :=
  mkAddress 0 LAYER_NETWORK 0 false true false false false false false false
    (mkDataNetwork 2 0) (mkDataFlow 0 0 0 (W128 0 0 0 0) (W128 0 0 0 0) 0 0 0)
    (mkDataReflect 0 0 LAYER_NETWORK 0 0).

Lemma eval_result f p addr info : wf_filter (Layer addr) f = true -> Timestamp addr <> INT64_MIN -> bytes p -> zlen p < 2 ^ 31 ->
  WinDivertHelperParsePacketEx p = Some info \/ info = no_packet ->
  exists b, WinDivertExecuteFilter (object_array f) (eval_args addr p info) = VRet (b2z b).
Proof.
  intros Hf Ht Hp Hl Hi. exists (accepts (eval_args addr p info) f 0).
  apply ExecuteFilter_object; [now apply eval_args_ok|exact Hf].
Qed.

(** The verdicts of an evaluation. *)
Lemma wd_filter_eval_total f packet addr :
  wf_filter (wf_layer f) (wf_object f) = true -> Timestamp addr <> INT64_MIN ->
  (forall p, packet = Some p -> bytes p /\ zlen p < 2 ^ 31) ->
  wd_filter_eval f packet addr = VRet 0 \/ wd_filter_eval f packet addr = VRet 1 \/
  wd_filter_eval f packet addr = VRet (- EINVAL).
Proof.
  intros Hf Ht Hp. unfold wd_filter_eval.
  destruct (layer_eqb (Layer addr) (wf_layer f)) eqn:El; cbn [negb]; [|auto].
  assert (Hl : wf_filter (Layer addr) (wf_object f) = true)
    by (now replace (Layer addr) with (wf_layer f) by (now destruct (Layer addr), (wf_layer f))).
  set (bs := match packet with Some p => p | None => [] end).
  assert (Hb : bytes bs /\ zlen bs < 2 ^ 31).
  { subst bs. destruct packet as [p|]; [now apply Hp|]. split; [constructor|reflexivity]. }
  match goal with |- context [match ?i with Some _ => _ | None => VRet (- EINVAL) end] =>
    destruct i as [info|] eqn:Ei end; [|auto].
  destruct (eval_result (wf_object f) bs addr info Hl Ht (proj1 Hb) (proj2 Hb)) as [b ->].
  - destruct (Layer addr); try (right; congruence); left; destruct packet as [p|]; try discriminate;
      subst bs; destruct (WinDivertHelperParsePacketEx p); try discriminate; case_if_in Ei; congruence.
  - destruct b; auto.
Qed.

(** C37. Evaluating a well-formed filter is total and memory safe on every
    packet below 2^31 bytes and every address whose time stamp is not the
    smallest [INT64] (the evaluator negates it): [wd_filter_eval] returns 0, 1
    or [-EINVAL], and no instruction dereferences a missing header, loads a
    header field or payload byte outside the packet, or leaves the
    instruction array; each of these would be the outcome [VUndef]. *)
Theorem filter_eval_total f packet addr :
  wf_filter (wf_layer f) (wf_object f) = true -> Timestamp addr <> INT64_MIN ->
  (forall p, packet = Some p -> bytes p /\ zlen p < 2 ^ 31) ->
  wd_filter_eval f packet addr = VRet 0 \/ wd_filter_eval f packet addr = VRet 1 \/
  wd_filter_eval f packet addr = VRet (- EINVAL).
Proof. apply wd_filter_eval_total. Qed.

Lemma filter_eval_total_witness :
  wd_filter_eval ex_filter (Some ex_udp) ex_address = VRet 0 \/
  wd_filter_eval ex_filter (Some ex_udp) ex_address = VRet 1 \/
  wd_filter_eval ex_filter (Some ex_udp) ex_address = VRet (- EINVAL).
Proof.
  apply (filter_eval_total ex_filter (Some ex_udp) ex_address); [reflexivity|discriminate|].
  intros p H. inversion H; subst. split; [exact ex_udp_bytes|reflexivity].
Defined.

(** The evaluator's time-to-live never cuts a well-formed filter short:
    as many rounds as instructions decide, and the 257 rounds
    [WinDivertExecuteFilter] allows give the same answer as any larger
    number. *)
Theorem filter_decides_in_time a f :
  args_ok a -> wf_filter (a_layer a) f = true ->
  exists b, WinDivertExecuteFilter (object_array f) a = VRet (b2z b) /\
    forall ttl, (length f <= ttl)%nat -> exec_loop ttl a (object_array f) 0 = VRet (b2z b).
Proof.
  intros Ha Hf. exists (accepts a f 0). split; [now apply ExecuteFilter_object|].
  intros ttl Ht. pose proof (wf_nonempty a f Hf) as Hn. unfold object_array.
  rewrite exec_loop_pad by (assumption || lia). apply accepts_exec; auto; unfold zlen in *; lia.
Qed.

Lemma filter_decides_in_time_witness : exists b,
  WinDivertExecuteFilter (object_array (wf_object ex_filter)) (eval_args ex_address [] no_packet) =
  VRet (b2z b).
Proof.
  destruct (filter_decides_in_time (eval_args ex_address [] no_packet) (wf_object ex_filter)) as (b & H & _);
    [|reflexivity|exists b; exact H].
  apply eval_args_ok; [discriminate|constructor|reflexivity|now right].
Defined.
