(* ===== verification/WdHelper.v ===== *)
(** * Packet helpers: checksums, TTL, packet information

    [WinDivertHelperCalcChecksums], [WinDivertInitPseudoHeader],
    [WinDivertCalcChecksum] and [WinDivertHelperDecrementTTL] of
    [src/wd/windivert_shared.c], and [wd_calc_checksums],
    [wd_verify_checksums] and [wd_parse_packet] of [src/wd/wd_port.c].

    A packet is updated in place: the functions return the new bytes.  A read
    outside the packet, which C leaves undefined, is [None].  The Internet
    checksum is specified by one's complement sums: the sum of all words,
    checksum included, is 0 modulo [0xFFFF]. *)

From Stdlib Require Import ZArith List Bool Lia.
From S2P Require Import Prelude WdTypes WdPacket WdExec.
Import ListNotations.

(** ** The checksum *)

(** [for (i = 0; i < len16; i++) sum += data16[i];] on a 32-bit [sum]. *)
Fixpoint sum_words (n : nat) (p : list Z) (o sum : Z) : Z :=
  match n with
  | O => sum
  | S n => sum_words n p (o + 2) (u32 (sum + ld16 p o))
  end.

Definition fold_sum (sum : Z) : Z :=
  let sum := u32 ((sum &&& 0xFFFF) + (sum >>> 16)) in
  let sum := u32 (sum + (sum >>> 16)) in
  u16 (u32 (Z.lnot sum)).

(** [WinDivertCalcChecksum]: [len] bytes of [p] at [o] behind a pseudo
    header. *)
Definition WinDivertCalcChecksum (pseudo p : list Z) (o len : Z) : option Z :=
  if zlen p <? o + len then None
  else
    let sum := sum_words (Z.to_nat (zlen pseudo >>> 1)) pseudo 0 0 in
    let sum := sum_words (Z.to_nat (len >>> 1)) p o sum in
    let sum := if has len 1 then u32 (sum + byte_at p (o + (len - 1))) else sum in
    Some (fold_sum sum).

(** [WinDivertInitPseudoHeader]; [h] is the offset of the IP header and the
    result the bytes of the pseudo header. *)
Definition WinDivertInitPseudoHeader (p : list Z) (ip_header ipv6_header : option Z)
    (protocol len : Z) : option (list Z) :=
  match ip_header, ipv6_header with
  | Some h, _ => Some (slice p (h + 12) 8 ++ [0; protocol] ++ le16 (htons (u16 len)))
  | None, Some h => Some (slice p (h + 8) 32 ++ le32 (htonl (u32 len)) ++ [0; 0; 0; protocol])
  | None, None => None
  end.

(** [header->Checksum = 0; header->Checksum = WinDivertCalcChecksum(...)]
    for a checksum at offset [o] of the [len] bytes at [h]. *)
Definition put_checksum (pseudo p : list Z) (h o len : Z) : option (list Z) :=
  let p := st16 p (h + o) 0 in
  match WinDivertCalcChecksum pseudo p h len with
  | None => None
  | Some sum => Some (st16 p (h + o) sum)
  end.

(** ** [WinDivertHelperCalcChecksums] *)

Definition WINDIVERT_HELPER_NO_IP_CHECKSUM : Z := 1.
Definition WINDIVERT_HELPER_NO_ICMP_CHECKSUM : Z := 2.
Definition WINDIVERT_HELPER_NO_ICMPV6_CHECKSUM : Z := 4.
Definition WINDIVERT_HELPER_NO_TCP_CHECKSUM : Z := 8.
Definition WINDIVERT_HELPER_NO_UDP_CHECKSUM : Z := 16.

Definition set_checksums (ip tcp udp : bool) (a : WINDIVERT_ADDRESS) : WINDIVERT_ADDRESS :=
  mkAddress (Timestamp a) (Layer a) (Event a) (Sniffed a) (Outbound a) (Loopback a) (Impostor a)
    (IPv6 a) (ip || IPChecksum a) (tcp || TCPChecksum a) (udp || UDPChecksum a)
    (Network a) (Flow a) (Reflect a).

(** Return value, packet and address ([None] for a NULL [pAddr]). *)
Record calc_out : Set := mkCalc {
  c_ok : bool;
  c_packet : list Z;
  c_addr : option WINDIVERT_ADDRESS
}.

Definition calc_ip (p : list Z) (info : WINDIVERT_PACKET) (addr : option WINDIVERT_ADDRESS)
    (flags : Z) : option (list Z * option WINDIVERT_ADDRESS) :=
  match IPHeader info with
  | Some h =>
    if has flags WINDIVERT_HELPER_NO_IP_CHECKSUM then Some (p, addr)
    else
      match put_checksum [] p h 10 (ip_HdrLength p h * 4) with
      | None => None
      | Some p => Some (p, option_map (set_checksums true false false) addr)
      end
  | None => Some (p, addr)
  end.

(** One transport header: skip, refuse a partial packet, or store. *)
Definition calc_transport (p : list Z) (addr : option WINDIVERT_ADDRESS) (skip truncated : bool)
    (done : option (list Z)) (mark : WINDIVERT_ADDRESS -> WINDIVERT_ADDRESS) : option calc_out :=
  if skip then Some (mkCalc true p addr)
  else if truncated then Some (mkCalc false p addr)
  else
    match done with
    | None => None
    | Some p => Some (mkCalc true p (option_map mark addr))
    end.

(** A checksum over a pseudo header and [len] bytes. *)
Definition put_pseudo (p : list Z) (ip_header ipv6_header : option Z) (protocol h o len : Z)
    : option (list Z) :=
  match WinDivertInitPseudoHeader p ip_header ipv6_header protocol len with
  | None => None
  | Some pseudo => put_checksum pseudo p h o len
  end.

(** [if (udp_header->Checksum == 0) udp_header->Checksum = 0xFFFF;] *)
Definition udp_nonzero (p : list Z) (h : Z) : list Z :=
  if udp_Checksum p h =? 0 then st16 p (h + 6) 0xFFFF else p.

Definition WinDivertHelperCalcChecksums (p : list Z) (addr : option WINDIVERT_ADDRESS) (flags : Z)
    : option calc_out :=
  match WinDivertHelperParsePacketEx p with
  | None => Some (mkCalc false p addr)
  | Some info =>
    match calc_ip p info addr flags with
    | None => None
    | Some (p, addr) =>
      let payload_len := PayloadLength info in
      let truncated := Truncated info || MF info || negb (FragOff info =? 0) in
      let calc skip done mark := calc_transport p addr (has flags skip) truncated done mark in
      match ICMPHeader info, ICMPv6Header info, TCPHeader info, UDPHeader info with
      | Some h, _, _, _ =>
        calc WINDIVERT_HELPER_NO_ICMP_CHECKSUM (put_checksum [] p h 2 (payload_len + 8)) (fun a => a)
      | None, Some h, _, _ =>
        calc WINDIVERT_HELPER_NO_ICMPV6_CHECKSUM
          (put_pseudo p None (IPv6Header info) IPPROTO_ICMPV6 h 2 (payload_len + 8)) (fun a => a)
      | None, None, Some h, _ =>
        calc WINDIVERT_HELPER_NO_TCP_CHECKSUM
          (put_pseudo p (IPHeader info) (IPv6Header info) IPPROTO_TCP h 16
             (payload_len + tcp_HdrLength p h * 4))
          (set_checksums false true false)
      | None, None, None, Some h =>
        calc WINDIVERT_HELPER_NO_UDP_CHECKSUM
          (option_map (fun p => udp_nonzero p h)
             (put_pseudo p (IPHeader info) (IPv6Header info) IPPROTO_UDP h 6 (payload_len + 8)))
          (set_checksums false false true)
      | None, None, None, None => Some (mkCalc true p addr)
      end
    end
  end.

(** ** [WinDivertHelperDecrementTTL] *)

Definition WinDivertHelperDecrementTTL (p : list Z) : bool * list Z :=
  if zlen p <? 20 then (false, p)
  else if ip_Version p 0 =? 4 then
    if ip_TTL p 0 <=? 1 then (false, p)
    else
      let p := set_byte p 8 (u8 (ip_TTL p 0 - 1)) in
      (true, st16 p 10 (if ip_Checksum p 0 >=? 0xFFFE then ip_Checksum p 0 - 0xFFFE
                        else u16 (ip_Checksum p 0 + 1)))
  else if ip_Version p 0 =? 6 then
    if zlen p <? 40 then (false, p)
    else if ipv6_HopLimit p 0 <=? 1 then (false, p)
    else (true, set_byte p 7 (u8 (ipv6_HopLimit p 0 - 1)))
  else (false, p).

(** ** The wrappers of [wd_port.c] *)

Definition ERROR_SUCCESS : Z := 0.
Definition ERROR_INVALID_PARAMETER : Z := 87.
Definition ERROR_INSUFFICIENT_BUFFER : Z := 122.
Definition ENOSPC : Z := 28.

(** The last error ([SetLastError]) as a negative [errno]. *)
Definition wd_errno (err : Z) : Z :=
  if (err =? ERROR_SUCCESS) || (err =? ERROR_INVALID_PARAMETER) then - EINVAL
  else if err =? ERROR_INSUFFICIENT_BUFFER then - ENOSPC
  else - i32 err.

(** The thread's last error, which the helper does not set, is an argument. *)
Definition wd_calc_checksums (last_error : Z) (p : list Z) (addr : option WINDIVERT_ADDRESS)
    (flags : Z) : option (Z * list Z * option WINDIVERT_ADDRESS) :=
  match WinDivertHelperCalcChecksums p addr flags with
  | None => None
  | Some out => Some (if c_ok out then 0 else wd_errno last_error, c_packet out, c_addr out)
  end.

(** [ip_ok], [tcp_ok] and [udp_ok]: the checksums of the packet against those
    of a recalculated copy. *)
Definition wd_verify_checksums (p : list Z) : option (bool * bool * bool) :=
  match WinDivertHelperParsePacketEx p with
  | None => Some (false, false, false)
  | Some info =>
    if Fragment info || Truncated info then Some (false, false, false)
    else
      match WinDivertHelperCalcChecksums p None 0 with
      | None => None
      | Some out =>
        let same hdr o := match hdr with
                          | Some h => ld16 (c_packet out) (h + o) =? ld16 p (h + o)
                          | None => false
                          end in
        Some (same (IPHeader info) 10, same (TCPHeader info) 16, same (UDPHeader info) 6)
      end
  end.

Record wd_packet_info : Set := mkInfo {
  wi_ipv6 : bool;
  wi_fragment : bool;
  wi_protocol : Z;
  wi_ip_off : Z;
  wi_transport_off : Z;
  wi_payload_off : Z;
  wi_payload_len : Z
}.

Definition offset_or (o : option Z) (d : Z) : Z := match o with Some x => x | None => d end.

(** [None] is [-EINVAL]. *)
Definition wd_parse_packet (p : list Z) : option wd_packet_info :=
  match WinDivertHelperParsePacketEx p with
  | None => None
  | Some info =>
    Some {| wi_ipv6 := non_null (IPv6Header info); wi_fragment := Fragment info;
            wi_protocol := PktProtocol info;
            wi_ip_off := offset_or (IPHeader info) (offset_or (IPv6Header info) (-1));
            wi_transport_off := offset_or (TCPHeader info) (offset_or (UDPHeader info)
              (offset_or (ICMPHeader info) (offset_or (ICMPv6Header info) (-1))));
            wi_payload_off := offset_or (Payload info) (-1);
            wi_payload_len := PayloadLength info |}
  end.

(** ** One's complement sums *)

Fixpoint word_sum (n : nat) (p : list Z) (o : Z) : Z :=
  match n with
  | O => 0
  | S n => ld16 p o + word_sum n p (o + 2)
  end.

(** The sum RFC 1071 takes over [len] bytes: an odd last byte is padded. *)
Definition range_sum (p : list Z) (o len : Z) : Z :=
  word_sum (Z.to_nat (len / 2)) p o + (if Z.odd len then byte_at p (o + (len - 1)) else 0).

(** The checksum of the [len] bytes at [o] verifies. *)
Definition sum_ok (pseudo p : list Z) (o len : Z) : Prop :=
  (range_sum pseudo 0 (zlen pseudo) + range_sum p o len) mod 0xFFFF = 0.

Lemma ld16_range p o : bytes p -> 0 <= ld16 p o <= 0xFFFF.
Proof.
  intros Hp. pose proof (byte_at_range p o Hp). pose proof (byte_at_range p (o + 1) Hp).
  unfold ld16, is_byte in *. lia.
Qed.

Lemma word_sum_range p : bytes p -> forall n o, 0 <= word_sum n p o <= 0xFFFF * Z.of_nat n.
Proof.
  intros Hp. induction n as [|n IH]; intros o; cbn [word_sum]; [lia|].
  pose proof (ld16_range p o Hp). specialize (IH (o + 2)). lia.
Qed.

Lemma sum_words_eq p : bytes p -> forall n o s,
  0 <= s -> s + 0xFFFF * Z.of_nat n < 2 ^ 32 -> sum_words n p o s = s + word_sum n p o.
Proof.
  intros Hp. induction n as [|n IH]; intros o s Hs Hn; cbn [sum_words word_sum]; [lia|].
  pose proof (ld16_range p o Hp). unfold u32. rewrite Z.mod_small by lia.
  rewrite IH by lia. lia.
Qed.

Lemma fold_sum_spec s : 0 < s < 2 ^ 32 -> fold_sum s = (- s) mod 0xFFFF.
Proof.
  intros Hs. unfold fold_sum, u16, u32. rewrite (land_mask_mod _ 16) by (lia || reflexivity).
  rewrite !Z.shiftr_div_pow2 by lia. unfold Z.lnot.
  change (2 ^ 16) with 65536. change (2 ^ 32) with 4294967296 in *.
  assert (H1 : 0 <= s mod 65536 + s / 65536 <= 131070) by (Z.to_euclidean_division_equations; lia).
  rewrite (Z.mod_small (_ + s / 65536)) by lia. set (t := s mod 65536 + s / 65536) in *.
  assert (Ht : exists k, s = t + 65535 * k) by (exists (s / 65536); Z.to_euclidean_division_equations; lia).
  assert (Ht0 : 0 < t).
  { subst t. pose proof (Z.mod_pos_bound s 65536). pose proof (Z.div_pos s 65536).
    pose proof (Z.div_mod s 65536). lia. }
  clearbody t. destruct Ht as [k ->].
  replace (- (t + 65535 * k)) with (- t + (- k) * 65535) by lia. rewrite Z.mod_add by lia.
  assert (D : t / 65536 = if t <? 65536 then 0 else 1)
    by (case_if; b2p; Z.to_euclidean_division_equations; lia).
  assert (R : forall x, 0 <= x < 131072 ->
    (Z.pred (- x)) mod 4294967296 mod 65536 = 65535 - x mod 65536).
  { intros x Hx. rewrite <- (Z.mod_add (Z.pred (- x)) 1) by lia.
    rewrite (Z.mod_small _ 4294967296) by lia. Z.to_euclidean_division_equations. lia. }
  rewrite D. case_if; b2p; rewrite (Z.mod_small (t + _)) by lia; rewrite R by lia.
  - rewrite Z.add_0_r, Z.mod_small by lia. symmetry.
    destruct (Z.eq_dec t 65535) as [->|N]; [reflexivity|].
    rewrite <- (Z.mod_add (- t) 1) by lia. rewrite Z.mod_small by lia. lia.
  - replace (t + 1) with (t - 65535 + 1 * 65536) by lia.
    rewrite Z.mod_add, (Z.mod_small (t - 65535)) by lia. symmetry.
    destruct (Z.eq_dec t 131070) as [->|N]; [reflexivity|].
    rewrite <- (Z.mod_add (- t) 2) by lia. rewrite Z.mod_small by lia. lia.
Qed.

Lemma fold_sum_ok s : 0 <= s < 2 ^ 32 ->
  0 <= fold_sum s < 2 ^ 16 /\ (s + fold_sum s) mod 0xFFFF = 0.
Proof.
  intros Hs. destruct (Z.eq_dec s 0) as [->|N]; [vm_compute; intuition congruence|].
  rewrite fold_sum_spec by lia. pose proof (Z.mod_pos_bound (- s) 0xFFFF ltac:(lia)).
  split; [lia|]. rewrite Zplus_mod_idemp_r. now rewrite Z.add_opp_diag_r.
Qed.

Lemma word_sum_ext p q : forall n o, (forall x, o <= x < o + 2 * Z.of_nat n -> byte_at p x = byte_at q x) ->
  word_sum n p o = word_sum n q o.
Proof.
  induction n as [|n IH]; intros o H; cbn [word_sum]; [reflexivity|].
  unfold ld16. rewrite !H by lia. f_equal. apply IH. intros. apply H. lia.
Qed.

Lemma range_sum_ext p q o len : 0 <= len ->
  (forall x, o <= x < o + len -> byte_at p x = byte_at q x) -> range_sum p o len = range_sum q o len.
Proof.
  intros Hl H. unfold range_sum. pose proof (Z.div_mod len 2 ltac:(lia)).
  pose proof (Z.mod_pos_bound len 2 ltac:(lia)). f_equal.
  - apply word_sum_ext. intros. apply H. lia.
  - destruct (Z.odd len) eqn:E; [|reflexivity]. apply H.
    destruct (Z.eq_dec len 0) as [->|]; [discriminate|lia].
Qed.

Lemma range_sum_range p o len : bytes p -> 0 <= len ->
  0 <= range_sum p o len <= 0xFFFF * (len / 2) + 0xFF.
Proof.
  intros Hp Hl. unfold range_sum. pose proof (word_sum_range p Hp (Z.to_nat (len / 2)) o).
  pose proof (Z.div_pos len 2). pose proof (byte_at_range p (o + (len - 1)) Hp) as B.
  unfold is_byte in B. destruct (Z.odd len); lia.
Qed.

(** Storing a word at an even offset changes the sum by that word. *)
Lemma word_sum_st16 p b v : 0 <= b -> b + 1 < zlen p -> 0 <= v < 2 ^ 16 -> forall n o k,
  b = o + 2 * Z.of_nat k -> (k < n)%nat ->
  word_sum n (st16 p b v) o = word_sum n p o - ld16 p b + v.
Proof.
  intros H1 H2 Hv. induction n as [|n IH]; intros o k Hb Hk; [lia|]. cbn [word_sum].
  destruct k as [|k].
  - replace o with b by lia. rewrite ld16_st16, Z.eqb_refl by lia.
    rewrite (word_sum_ext (st16 p b v) p) by
      (intros x Hx; rewrite byte_at_st16 by lia;
       destruct (Z.eqb_spec x b), (Z.eqb_spec x (b + 1)); [lia..|reflexivity]). lia.
  - rewrite ld16_st16 by lia. destruct (Z.eqb_spec o b); [lia|].
    rewrite (IH (o + 2) k) by lia. lia.
Qed.

Lemma range_sum_st16 p h o len v : 0 <= h -> 0 <= o -> Z.even o = true -> o + 2 <= len ->
  h + len <= zlen p -> 0 <= v < 2 ^ 16 ->
  range_sum (st16 p (h + o) v) h len = range_sum p h len - ld16 p (h + o) + v.
Proof.
  intros H1 H2 He H3 H4 Hv. apply Z.even_spec in He. destruct He as [k He].
  unfold range_sum. pose proof (Z.div_mod len 2 ltac:(lia)).
  pose proof (Z.mod_pos_bound len 2 ltac:(lia)).
  rewrite (word_sum_st16 p (h + o) v ltac:(lia) ltac:(lia) Hv _ h (Z.to_nat k)) by lia.
  destruct (Z.odd len) eqn:E; [|lia]. rewrite byte_at_st16 by lia.
  assert (len mod 2 = 1) by (rewrite Zmod_odd, E; reflexivity).
  destruct (Z.eqb_spec (h + (len - 1)) (h + o)); [lia|].
  destruct (Z.eqb_spec (h + (len - 1)) (h + o + 1)); lia.
Qed.

(** The checksum of [len] bytes at [h] whose checksum field is at [h + o]. *)
Definition csum (pseudo p : list Z) (h o len : Z) : Z :=
  fold_sum (range_sum pseudo 0 (zlen pseudo) + range_sum (st16 p (h + o) 0) h len).

Section Checksum.
Variables (pseudo p : list Z) (h o len : Z).
Hypothesis Hpseudo : bytes pseudo /\ zlen pseudo <= 40 /\ Z.even (zlen pseudo) = true.
Hypothesis Hp : bytes p.
Hypothesis Ho : 0 <= h /\ 0 <= o /\ Z.even o = true /\ o + 2 <= len.
Hypothesis Hlen : h + len <= zlen p /\ len < 2 ^ 17 - 64.

Lemma sum_bound q : bytes q ->
  0 <= range_sum pseudo 0 (zlen pseudo) + range_sum q h len < 2 ^ 32.
Proof using Hpseudo Ho Hlen.
  intros Hq. destruct Hpseudo as (P1 & P2 & _).
  pose proof (range_sum_range pseudo 0 (zlen pseudo) P1 (zlen_nonneg _)).
  pose proof (range_sum_range q h len Hq ltac:(lia)).
  pose proof (Z.div_le_upper_bound (zlen pseudo) 2 20).
  pose proof (Z.div_le_upper_bound len 2 (2 ^ 16 - 32)). lia.
Qed.

Lemma calc_checksum_eq q : bytes q -> zlen q = zlen p ->
  WinDivertCalcChecksum pseudo q h len =
  Some (fold_sum (range_sum pseudo 0 (zlen pseudo) + range_sum q h len)).
Proof using Hpseudo Ho Hlen.
  intros Hq Hz. pose proof (sum_bound q Hq) as B. destruct Hpseudo as (P1 & P2 & P3).
  unfold WinDivertCalcChecksum. rewrite Hz. destruct (zlen p <? h + len) eqn:E; b2p; [lia|].
  unfold range_sum in *. rewrite !Z.shiftr_div_pow2 by lia. change (2 ^ 1) with 2.
  pose proof (zlen_nonneg pseudo). pose proof (Z.div_pos len 2). pose proof (Z.div_pos (zlen pseudo) 2).
  pose proof (Z.div_le_upper_bound (zlen pseudo) 2 20).
  pose proof (Z.div_le_upper_bound len 2 (2 ^ 16 - 32)).
  pose proof (word_sum_range pseudo P1 (Z.to_nat (zlen pseudo / 2)) 0).
  rewrite (sum_words_eq pseudo P1), (sum_words_eq q Hq) by lia.
  replace (Z.odd (zlen pseudo)) with false in *
    by (rewrite <- Z.negb_even, P3; reflexivity).
  replace (has len 1) with (Z.odd len).
  - f_equal. f_equal. revert B. destruct (Z.odd len); intros B; [|lia]. unfold u32. rewrite Z.mod_small by lia. lia.
  - unfold has. rewrite (land_mask_mod _ 1) by (lia || reflexivity).
    rewrite Zmod_odd. now destruct (Z.odd len).
Qed.

Lemma csum_range : 0 <= csum pseudo p h o len < 2 ^ 16.
Proof using Hpseudo Hp Ho Hlen.
  apply fold_sum_ok, sum_bound. apply bytes_st16; [exact Hp|lia].
Qed.

Lemma st16_twice q x v w : 0 <= x -> x + 1 < zlen q -> st16 (st16 q x v) x w = st16 q x w.
Proof using.
  intros H1 H2. apply byte_at_ext; [now rewrite !st16_len|]. intros y.
  rewrite !byte_at_st16 by (rewrite ?st16_len; lia). repeat case_if; reflexivity.
Qed.

Lemma put_checksum_eq : put_checksum pseudo p h o len = Some (st16 p (h + o) (csum pseudo p h o len)).
Proof using Hpseudo Hp Ho Hlen.
  unfold put_checksum. rewrite calc_checksum_eq; [|apply bytes_st16; [exact Hp|lia]|apply st16_len].
  rewrite st16_twice by lia. unfold csum. reflexivity.
Qed.

(** RFC 1071: with the checksum stored, the one's complement sum vanishes. *)
Lemma csum_ok v : 0 <= v < 2 ^ 16 -> v mod 0xFFFF = csum pseudo p h o len mod 0xFFFF ->
  sum_ok pseudo (st16 p (h + o) v) h len.
Proof using Hpseudo Hp Ho Hlen.
  intros Hv Hm. unfold sum_ok.
  assert (Hz : bytes (st16 p (h + o) 0)) by (apply bytes_st16; [exact Hp|lia]).
  destruct (fold_sum_ok _ (sum_bound _ Hz)) as [_ F]. fold (csum pseudo p h o len) in F.
  destruct Ho as (Q1 & Q2 & Q3 & Q4). rewrite range_sum_st16 in F by (assumption || lia).
  rewrite range_sum_st16 by (assumption || lia).
  set (A := range_sum pseudo 0 (zlen pseudo)) in *. set (S := range_sum p h len) in *.
  replace (A + (S - ld16 p (h + o) + v)) with ((A + (S - ld16 p (h + o) + 0)) + v) by lia.
  rewrite <- (Zplus_mod_idemp_r v), Hm, Zplus_mod_idemp_r. exact F.
Qed.
End Checksum.

(** ** Where the checksums of a packet are *)

Definition packet_len (info : WINDIVERT_PACKET) : Z := HeaderLength info + PayloadLength info.

(** Offset of the transport header and of the checksum in it. *)
Definition transport_field (info : WINDIVERT_PACKET) : option (Z * Z) :=
  match ICMPHeader info, ICMPv6Header info, TCPHeader info, UDPHeader info with
  | Some h, _, _, _ => Some (h, 2)
  | None, Some h, _, _ => Some (h, 2)
  | None, None, Some h, _ => Some (h, 16)
  | None, None, None, Some h => Some (h, 6)
  | None, None, None, None => None
  end.

(** The pseudo header the transport checksum covers (none for ICMP). *)
Definition pseudo_header (p : list Z) (info : WINDIVERT_PACKET) (h : Z) : list Z :=
  match ICMPHeader info with
  | Some _ => []
  | None =>
    match WinDivertInitPseudoHeader p (IPHeader info) (IPv6Header info) (PktProtocol info)
            (packet_len info - h) with
    | Some l => l
    | None => []
    end
  end.

(** Is [x] one of the bytes the helper writes? *)
Definition checksum_byte (info : WINDIVERT_PACKET) (x : Z) : bool :=
  (non_null (IPHeader info) && ((x =? 10) || (x =? 11))) ||
  match transport_field info with
  | Some (h, o) => (x =? h + o) || (x =? h + o + 1)
  | None => false
  end.

(** A TCP header within the packet; the parser also accepts a longer one. *)
Definition tcp_fits (p : list Z) (info : WINDIVERT_PACKET) : Prop :=
  forall h, TCPHeader info = Some h -> h + tcp_HdrLength p h * 4 <= packet_len info.

(** What the helper relies on. *)
Record layout (p : list Z) (info : WINDIVERT_PACKET) : Prop := {
  ly_len : packet_len info <= zlen p /\ packet_len info < 2 ^ 16 + 40;
  ly_ip : forall h, IPHeader info = Some h -> h = 0 /\ IPv6Header info = None /\
    20 <= ip_HdrLength p 0 * 4 <= zlen p;
  ly_ipv6 : IPHeader info = None -> IPv6Header info = Some 0 /\ 40 <= zlen p;
  ly_transport : forall h o, transport_field info = Some (h, o) ->
    (if non_null (IPHeader info) then Z.max 20 (ip_HdrLength p 0 * 4) else 40) <= h /\
    2 <= o /\ Z.even o = true /\ h + o + 2 <= packet_len info;
  ly_proto : (ICMPv6Header info <> None -> PktProtocol info = IPPROTO_ICMPV6 /\ IPHeader info = None) /\
    (TCPHeader info <> None -> PktProtocol info = IPPROTO_TCP) /\
    (UDPHeader info <> None -> PktProtocol info = IPPROTO_UDP);
  ly_payload : (forall h, ICMPHeader info = Some h \/ ICMPv6Header info = Some h \/
      UDPHeader info = Some h -> PayloadLength info + 8 = packet_len info - h) /\
    (tcp_fits p info -> forall h, TCPHeader info = Some h ->
       PayloadLength info + tcp_HdrLength p h * 4 = packet_len info - h);
  ly_field : forall h, (TCPHeader info = Some h -> transport_field info = Some (h, 16)) /\
    (UDPHeader info = Some h -> transport_field info = Some (h, 6))
}.

Lemma parse_ipv4_hdr p i : bytes p -> parse_ipv4 p = Some i ->
  20 <= ip_HdrLength p 0 * 4 <= zlen p /\ x_data (ip_ext i) = ip_HdrLength p 0 * 4.
Proof.
  intros Hp. unfold parse_ipv4. do 2 (case_if; [discriminate|]). intros E; inversion E; subst. b2p.
  cbn. lia.
Qed.

(** One of the transport headers was found, and it was cut to the data. *)
Lemma parse_transport_len p v4 s : 0 <= x_data_len s ->
  let t := parse_transport p v4 s in
  (forall h, t_icmp t = Some h \/ t_icmpv6 t = Some h \/ t_udp t = Some h -> t_header_len t = 8) /\
  (forall h, t_tcp t = Some h -> t_header_len t = Z.min (x_data_len s) (tcp_HdrLength p h * 4)).
Proof.
  intros Hs. unfold parse_transport.
  repeat (case_if; b2p; cbn);
    repeat split; intros; repeat match goal with H : _ \/ _ |- _ => destruct H end;
    try discriminate; try reflexivity;
    match goal with H : Some _ = Some _ |- _ => inversion H; subst; lia end.
Qed.

Lemma parse_layout p info : bytes p -> WinDivertHelperParsePacketEx p = Some info -> layout p info.
Proof.
  intros Hp H. destruct (parse_inv _ _ H) as (i & Hi & ->).
  destruct (parse_stage_ok p i Hp Hi) as [(Hl & Hd & H0) Hf Hpl Hdl Hh].
  assert (H4 : ip_v4 i = true ->
    20 <= ip_HdrLength p 0 * 4 <= zlen p /\ x_data (ip_ext i) = ip_HdrLength p 0 * 4).
  { revert Hi. case_if; [intros Hi _; exact (parse_ipv4_hdr p i Hp Hi)|].
    case_if; [|discriminate]. intros Hi E. apply parse_ipv6_ok in Hi; [|exact Hp]. now destruct Hi; congruence. }
  destruct (parse_transport_bounds p (ip_v4 i) (ip_ext i) Hl) as (Ht & B1 & B2 & B3 & B4).
  destruct (parse_transport_proto p (ip_v4 i) (ip_ext i)) as (P1 & P2 & P3 & P4).
  destruct (parse_transport_len p (ip_v4 i) (ip_ext i) Hl) as [L1 L2].
  set (t := parse_transport p (ip_v4 i) (ip_ext i)) in *. clearbody t. clear H Hi.
  assert (M1 : (x_data_len (ip_ext i) - t_header_len t) mod 2 ^ 16 =
    x_data_len (ip_ext i) - t_header_len t) by (apply Z.mod_small; lia).
  assert (M2 : (ip_packet_len i - (x_data_len (ip_ext i) - t_header_len t)) mod 2 ^ 17 =
    ip_packet_len i - (x_data_len (ip_ext i) - t_header_len t))
    by (apply Z.mod_small; destruct (ip_v4 i); lia).
  split; unfold packet_len, tcp_fits, packet_len; cbn;
    rewrite ?M1, ?M2; clear M1 M2.
  - lia.
  - intros h E. destruct (ip_v4 i); inversion E; subst. destruct H4; auto.
  - intros E. destruct (ip_v4 i); [discriminate|]. split; [reflexivity|lia].
  - intros h o. unfold transport_field; cbn. assert (Hx : (if non_null (if ip_v4 i then Some 0 else None)
      then Z.max 20 (ip_HdrLength p 0 * 4) else 40) <= x_data (ip_ext i))
      by (destruct (ip_v4 i); cbn in *; [destruct H4; auto; lia|lia]).
    destruct (t_icmp t) as [h'|]; [|destruct (t_icmpv6 t) as [h'|];
      [|destruct (t_tcp t) as [h'|]; [|destruct (t_udp t) as [h'|]; [|discriminate]]]];
      intros E; inversion E; subst;
      match goal with K : forall h, Some _ = Some h -> h = _ /\ _ |- _ => destruct (K _ eq_refl) end;
      subst; repeat split; try lia.
  - repeat split; intros; try (now apply P1); try (now apply P2); try (now apply P4).
    destruct P4 as [_ ->]; [assumption|reflexivity].
  - split.
    + intros h E. rewrite (L1 h E). destruct E as [E|[E|E]];
        [destruct (B3 h E)|destruct (B4 h E)|destruct (B2 h E)]; lia.
    + intros F h E. specialize (F h E). rewrite (L2 h E). destruct (B1 h E). lia.
  - intros h. unfold transport_field; cbn.
    destruct (t_tcp t) as [h1|]; [pose proof (P1 ltac:(discriminate)) as Q|];
      (destruct (t_icmp t); [destruct P3 as [Q3 _]; [discriminate|]|]);
      (destruct (t_icmpv6 t); [destruct P4 as [Q4 _]; [discriminate|]|]);
      (destruct (t_udp t); [pose proof (P2 ltac:(discriminate)) as Q2|]);
      split; intros E; inversion E; subst; try reflexivity; exfalso;
      unfold IPPROTO_TCP, IPPROTO_UDP, IPPROTO_ICMP, IPPROTO_ICMPV6 in *; congruence.
Qed.

(** ** What the helper computes *)

Definition ip_stage (p : list Z) (info : WINDIVERT_PACKET) : list Z :=
  match IPHeader info with
  | Some h => st16 p (h + 10) (csum [] p h 10 (ip_HdrLength p h * 4))
  | None => p
  end.

Definition transport_stage (p : list Z) (info : WINDIVERT_PACKET) : list Z :=
  match transport_field info with
  | Some (h, o) =>
    let sum := csum (pseudo_header p info h) p h o (packet_len info - h) in
    st16 p (h + o) (if (o =? 6) && (sum =? 0) then 0xFFFF else sum)
  | None => p
  end.

(** Packets that differ at most in their checksums. *)
Definition same_but (info : WINDIVERT_PACKET) (p q : list Z) : Prop :=
  zlen q = zlen p /\ forall x, checksum_byte info x = false -> byte_at q x = byte_at p x.

Lemma checksum_byte_low p info x : layout p info -> x < 20 ->
  checksum_byte info x = non_null (IPHeader info) && ((x =? 10) || (x =? 11)).
Proof.
  intros L Hx. unfold checksum_byte. destruct (transport_field info) as [[h o]|] eqn:E;
    [|apply orb_false_r]. destruct (ly_transport _ _ L h o E) as (H1 & H2 & _).
  assert (20 <= h) by (destruct (non_null (IPHeader info)); lia).
  destruct (Z.eqb_spec x (h + o)), (Z.eqb_spec x (h + o + 1)); try lia. apply orb_false_r.
Qed.

Lemma transport_proto p info h o : layout p info -> transport_field info = Some (h, o) ->
  ICMPHeader info = None -> is_byte (PktProtocol info).
Proof.
  intros L E N. destruct (ly_proto _ _ L) as (P1 & P2 & P3). unfold transport_field in E.
  rewrite N in E. destruct (ICMPv6Header info); [destruct P1 as [-> _]; [discriminate|]|
    destruct (TCPHeader info); [rewrite P2 by discriminate|
      destruct (UDPHeader info); [rewrite P3 by discriminate|discriminate]]];
    unfold is_byte, IPPROTO_ICMPV6, IPPROTO_TCP, IPPROTO_UDP; lia.
Qed.

Lemma pseudo_header_ok p info h o : bytes p -> layout p info ->
  transport_field info = Some (h, o) ->
  let pseudo := pseudo_header p info h in
  bytes pseudo /\ zlen pseudo <= 40 /\ Z.even (zlen pseudo) = true.
Proof.
  intros Hp L Ht. unfold pseudo_header, WinDivertInitPseudoHeader.
  assert (N : bytes [] /\ zlen (@nil Z) <= 40 /\ Z.even (zlen (@nil Z)) = true)
    by (split; [apply Forall_nil|split; [discriminate|reflexivity]]).
  destruct (ICMPHeader info) eqn:E0; [exact N|].
  pose proof (transport_proto p info h o L Ht E0) as Hb.
  assert (D : forall v, is_byte (v mod 2 ^ 8)) by (intros v; apply Z.mod_pos_bound; lia).
  assert (Z0 : is_byte 0) by (unfold is_byte; lia). unfold le16, le32. cbn [app].
  destruct (IPHeader info) as [a|] eqn:E; [destruct (ly_ip _ _ L a E) as (-> & _ & H)|
    destruct (ly_ipv6 _ _ L E) as (-> & H)]; cbn zeta; unfold zlen; rewrite !length_app.
  - assert (S : zlen (slice p (0 + 12) 8) = 8) by (apply zlen_slice; lia).
    unfold zlen in S. replace (length (slice p (0 + 12) 8)) with 8%nat by lia.
    split; [|split; [cbn; lia|reflexivity]].
    apply bytes_app; [now apply bytes_slice|].
    repeat (apply Forall_cons; [auto|]). apply Forall_nil.
  - assert (S : zlen (slice p (0 + 8) 32) = 32) by (apply zlen_slice; lia).
    unfold zlen in S. replace (length (slice p (0 + 8) 32)) with 32%nat by lia.
    split; [|split; [cbn; lia|reflexivity]].
    apply bytes_app; [now apply bytes_slice|].
    repeat (apply Forall_cons; [auto|]). apply Forall_nil.
Qed.

Lemma same_but_st16 info p o v : 0 <= o -> o + 1 < zlen p ->
  checksum_byte info o = true -> checksum_byte info (o + 1) = true -> same_but info p (st16 p o v).
Proof.
  intros H1 H2 C1 C2. split; [apply st16_len|]. intros x Hx. rewrite byte_at_st16 by lia.
  destruct (Z.eqb_spec x o); [congruence|]. destruct (Z.eqb_spec x (o + 1)); congruence.
Qed.

Section Same.
Variables (info : WINDIVERT_PACKET) (p q : list Z).
Hypothesis Hp : bytes p.
Hypothesis L : layout p info.
Hypothesis S : same_but info p q.

Lemma same_low x : x < 10 -> byte_at q x = byte_at p x.
Proof using L S.
  intros Hx. apply (proj2 S). rewrite (checksum_byte_low p) by (assumption || lia).
  destruct (Z.eqb_spec x 10), (Z.eqb_spec x 11); lia.
Qed.

(** Bytes behind the IPv4 checksum and outside the transport checksum. *)
Lemma same_high x : 12 <= x ->
  (forall h o, transport_field info = Some (h, o) -> x < h + o \/ h + o + 1 < x) ->
  byte_at q x = byte_at p x.
Proof using S.
  intros Hx Ht. apply (proj2 S). unfold checksum_byte.
  replace ((x =? 10) || (x =? 11)) with false
    by (destruct (Z.eqb_spec x 10), (Z.eqb_spec x 11); try reflexivity; lia).
  rewrite andb_false_r. destruct (transport_field info) as [[h o]|]; [|reflexivity].
  destruct (Ht h o eq_refl); destruct (Z.eqb_spec x (h + o)), (Z.eqb_spec x (h + o + 1));
    (reflexivity || lia).
Qed.

Lemma same_v6 x : IPHeader info = None -> x < 40 -> byte_at q x = byte_at p x.
Proof using L S.
  intros N Hx. apply (proj2 S). unfold checksum_byte. rewrite N. cbn.
  destruct (transport_field info) as [[h o]|] eqn:E; [|reflexivity].
  destruct (ly_transport _ _ L h o E) as (H1 & H2 & _). rewrite N in H1. cbn in H1.
  destruct (Z.eqb_spec x (h + o)), (Z.eqb_spec x (h + o + 1)); (reflexivity || lia).
Qed.

Lemma same_HdrLength : ip_HdrLength q 0 = ip_HdrLength p 0.
Proof using L S. unfold ip_HdrLength. now rewrite same_low by lia. Qed.

Lemma same_tcp h : TCPHeader info = Some h -> tcp_HdrLength q h = tcp_HdrLength p h.
Proof using L S.
  intros E. pose proof (proj1 (ly_field _ _ L h) E) as F.
  destruct (ly_transport _ _ L h 16 F) as (H1 & _). unfold tcp_HdrLength.
  rewrite same_high; [reflexivity|destruct (non_null (IPHeader info)); lia|].
  intros h' o F'. rewrite F in F'. inversion F'; subst. lia.
Qed.

Lemma layout_same : layout q info.
Proof using L S.
  pose proof (proj1 S) as Z. pose proof same_HdrLength as Hh. pose proof same_tcp as Ht. destruct L.
  split; rewrite ?Z, ?Hh; auto. split; [apply ly_payload0|].
  intros F h E. rewrite (Ht h E). apply ly_payload0; [|exact E]. intros h' E'.
  rewrite <- (Ht h' E'). now apply F.
Qed.

Lemma same_slice o n : 0 <= o -> 0 <= n -> o + n <= zlen p ->
  (forall x, o <= x < o + n -> byte_at q x = byte_at p x) -> slice q o n = slice p o n.
Proof using S.
  intros Ho Hn Hz H. pose proof (proj1 S). apply byte_at_ext; [rewrite !zlen_slice by lia; reflexivity|].
  intros x. destruct (Z.lt_ge_cases x 0); [unfold byte_at; destruct (Z.ltb_spec x 0); [reflexivity|lia]|].
  destruct (Z.lt_ge_cases x n); [rewrite !byte_at_slice by lia; apply H; lia|].
  unfold byte_at. destruct (Z.ltb_spec x 0); [reflexivity|].
  pose proof (zlen_slice p o n Ho Hn Hz). pose proof (zlen_slice q o n Ho Hn ltac:(lia)).
  unfold zlen in *. rewrite !nth_overflow by lia. reflexivity.
Qed.

Lemma same_pseudo h : pseudo_header q info h = pseudo_header p info h.
Proof using L S.
  unfold pseudo_header, WinDivertInitPseudoHeader. destruct (ICMPHeader info); [reflexivity|].
  destruct (IPHeader info) as [a|] eqn:E.
  - destruct (ly_ip _ _ L a E) as (-> & _ & H). rewrite same_slice; try lia; [reflexivity|].
    intros x Hx. apply same_high; [lia|]. intros h' o F. left.
    destruct (ly_transport _ _ L h' o F) as (H1 & H2 & _). rewrite E in H1. cbn in H1. lia.
  - destruct (ly_ipv6 _ _ L E) as (-> & H). rewrite same_slice; try lia; [reflexivity|].
    intros x Hx. apply same_v6; [exact E|lia].
Qed.

(** A checksum only depends on the other bytes it covers. *)
Lemma same_csum pseudo h o len : 0 <= h -> 0 <= o -> o + 2 <= len -> h + len <= zlen p ->
  (forall x, h <= x < h + len -> x <> h + o -> x <> h + o + 1 -> byte_at q x = byte_at p x) ->
  csum pseudo q h o len = csum pseudo p h o len.
Proof using S.
  intros Hh Ho Hl Hz H. pose proof (proj1 S). unfold csum. do 2 f_equal. apply range_sum_ext; [lia|].
  intros x Hx. rewrite !byte_at_st16 by lia.
  destruct (Z.eqb_spec x (h + o)); [reflexivity|].
  destruct (Z.eqb_spec x (h + o + 1)); [reflexivity|]. now apply H.
Qed.

Lemma same_ip_csum : IPHeader info = Some 0 ->
  csum [] q 0 10 (ip_HdrLength q 0 * 4) = csum [] p 0 10 (ip_HdrLength p 0 * 4).
Proof using L S.
  intros E. rewrite same_HdrLength. destruct (ly_ip _ _ L 0 E) as (_ & _ & H).
  apply same_csum; try lia. intros x Hx N1 N2.
  destruct (Z.lt_ge_cases x 10); [apply same_low; lia|]. apply same_high; [lia|].
  intros h o F. destruct (ly_transport _ _ L h o F) as (H1 & H2 & _). rewrite E in H1. cbn in H1. lia.
Qed.

Lemma same_transport_csum h o : transport_field info = Some (h, o) ->
  csum (pseudo_header q info h) q h o (packet_len info - h) =
  csum (pseudo_header p info h) p h o (packet_len info - h).
Proof using L S.
  intros F. rewrite same_pseudo. pose proof (ly_transport _ _ L h o F) as (H1 & H2 & _ & H4).
  pose proof (ly_len _ _ L). assert (20 <= h) by (destruct (non_null (IPHeader info)); lia).
  apply same_csum; try lia. intros x Hx N1 N2. apply same_high; [lia|].
  intros h' o' F'. rewrite F in F'. inversion F'; subst. lia.
Qed.
End Same.

Lemma no_pseudo : bytes [] /\ zlen (@nil Z) <= 40 /\ Z.even (zlen (@nil Z)) = true.
Proof. split; [apply Forall_nil|split; [discriminate|reflexivity]]. Qed.

Section Calc.
Variables (p : list Z) (info : WINDIVERT_PACKET).
Hypothesis Hp : bytes p.
Hypothesis L : layout p info.

Lemma ip_args h : IPHeader info = Some h -> h = 0 /\
  (0 <= 0 /\ 0 <= 10 /\ Z.even 10 = true /\ 10 + 2 <= ip_HdrLength p 0 * 4) /\
  (0 + ip_HdrLength p 0 * 4 <= zlen p /\ ip_HdrLength p 0 * 4 < 2 ^ 17 - 64).
Proof using Hp L.
  intros E. destruct (ly_ip _ _ L h E) as (H0 & _ & H). pose proof (ip_HdrLength_range p 0 Hp).
  repeat split; lia.
Qed.

Lemma ip_field x : IPHeader info <> None -> x = 10 \/ x = 11 -> checksum_byte info x = true.
Proof using. intros N [-> | ->]; unfold checksum_byte; destruct (IPHeader info); now cbn. Qed.

Lemma ip_stage_same : same_but info p (ip_stage p info).
Proof using Hp L.
  unfold ip_stage. destruct (IPHeader info) as [h|] eqn:E; [|split; auto].
  destruct (ip_args h E) as (-> & H1 & H2).
  apply same_but_st16; try lia; apply ip_field; auto; congruence.
Qed.

Lemma ip_stage_bytes : bytes (ip_stage p info).
Proof using Hp L.
  unfold ip_stage. destruct (IPHeader info) as [h|] eqn:E; [|exact Hp].
  destruct (ip_args h E) as (-> & H1 & H2). apply bytes_st16; [exact Hp|].
  apply csum_range; [exact no_pseudo|exact Hp|exact H1|exact H2].
Qed.

Lemma calc_ip_eq addr : exists addr', calc_ip p info addr 0 = Some (ip_stage p info, addr').
Proof using Hp L.
  unfold calc_ip, ip_stage. destruct (IPHeader info) as [h|] eqn:E; [|eauto].
  destruct (ip_args h E) as (-> & H1 & H2). change (has 0 WINDIVERT_HELPER_NO_IP_CHECKSUM) with false.
  cbn iota. rewrite (put_checksum_eq [] p 0 10 _ no_pseudo Hp H1 H2). eauto.
Qed.

Lemma transport_args h o : transport_field info = Some (h, o) ->
  (0 <= h /\ 0 <= o /\ Z.even o = true /\ o + 2 <= packet_len info - h) /\
  (h + (packet_len info - h) <= zlen p /\ packet_len info - h < 2 ^ 17 - 64).
Proof using L.
  intros E. destruct (ly_transport _ _ L h o E) as (H1 & H2 & H3 & H4). destruct (ly_len _ _ L).
  assert (20 <= h) by (destruct (non_null (IPHeader info)); lia). repeat split; auto; lia.
Qed.

Lemma transport_stage_same : same_but info p (transport_stage p info).
Proof using Hp L.
  unfold transport_stage. destruct (transport_field info) as [[h o]|] eqn:E; [|split; auto].
  destruct (transport_args h o E) as (H1 & H2).
  apply same_but_st16; try lia; unfold checksum_byte; rewrite E, Z.eqb_refl, ?orb_true_r; reflexivity.
Qed.

Lemma transport_csum_range h o : transport_field info = Some (h, o) ->
  0 <= csum (pseudo_header p info h) p h o (packet_len info - h) < 2 ^ 16.
Proof using Hp L.
  intros E. destruct (transport_args h o E) as (H1 & H2).
  apply csum_range; [exact (pseudo_header_ok p info h o Hp L E)|exact Hp|exact H1|exact H2].
Qed.

Lemma transport_sum h o : transport_field info = Some (h, o) ->
  sum_ok (pseudo_header p info h) (transport_stage p info) h (packet_len info - h).
Proof using Hp L.
  intros E. destruct (transport_args h o E) as (H1 & H2).
  pose proof (transport_csum_range h o E) as R. unfold transport_stage. rewrite E.
  apply (csum_ok _ p h o _ (pseudo_header_ok p info h o Hp L E) Hp H1 H2);
    destruct (Z.eqb_spec (csum (pseudo_header p info h) p h o (packet_len info - h)) 0) as [->|];
    destruct (o =? 6); cbn; (lia || reflexivity).
Qed.

Lemma put_transport h o : transport_field info = Some (h, o) ->
  put_checksum (pseudo_header p info h) p h o (packet_len info - h) =
  Some (st16 p (h + o) (csum (pseudo_header p info h) p h o (packet_len info - h))).
Proof using Hp L.
  intros E. destruct (transport_args h o E) as (H1 & H2).
  exact (put_checksum_eq _ p h o _ (pseudo_header_ok p info h o Hp L E) Hp H1 H2).
Qed.

Lemma put_pseudo_eq proto h o len : transport_field info = Some (h, o) ->
  ICMPHeader info = None -> PktProtocol info = proto -> len = packet_len info - h ->
  put_pseudo p (IPHeader info) (IPv6Header info) proto h o len =
  Some (st16 p (h + o) (csum (pseudo_header p info h) p h o (packet_len info - h))).
Proof using Hp L.
  intros E N <- ->. rewrite <- put_transport by exact E. unfold put_pseudo, pseudo_header. rewrite N.
  destruct (WinDivertInitPseudoHeader _ _ _ _ _) eqn:W; [reflexivity|].
  exfalso. revert W. unfold WinDivertInitPseudoHeader. destruct (IPHeader info) eqn:I; [discriminate|].
  destruct (ly_ipv6 _ _ L I) as [-> _]. discriminate.
Qed.
End Calc.

(** A packet whose checksums the helper computes. *)
Record whole (p : list Z) (info : WINDIVERT_PACKET) : Prop := {
  wh_bytes : bytes p;
  wh_parse : WinDivertHelperParsePacketEx p = Some info;
  wh_truncated : Truncated info = false;
  wh_frag : MF info = false /\ FragOff info = 0;
  wh_tcp : tcp_fits p info
}.

Lemma calc_eq p info addr : whole p info -> exists addr',
  WinDivertHelperCalcChecksums p addr 0 =
  Some (mkCalc true (transport_stage (ip_stage p info) info) addr').
Proof.
  intros [Hp Hi Ht [Hm Hf] Hfit]. pose proof (parse_layout p info Hp Hi) as L.
  pose proof (ip_stage_same p info Hp L) as S. pose proof (ip_stage_bytes p info Hp L) as Hq.
  pose proof (layout_same info p _ L S) as L'. destruct (calc_ip_eq p info Hp L addr) as [addr' E].
  assert (Hfit' : tcp_fits (ip_stage p info) info)
    by (intros h T; rewrite (same_tcp info p _ L S h T); now apply Hfit).
  unfold WinDivertHelperCalcChecksums. rewrite Hi, E, Ht, Hm, Hf. cbn [orb negb Z.eqb].
  set (q := ip_stage p info) in *. clearbody q. clear Hi E S Hfit Hp L.
  destruct (ly_payload _ _ L') as [P1 P2]. specialize (P2 Hfit').
  destruct (ly_proto _ _ L') as (Q1 & Q2 & Q3).
  pose proof (put_transport q info Hq L') as T. pose proof (put_pseudo_eq q info Hq L') as U.
  unfold transport_stage, transport_field, calc_transport in *. rewrite !has_0.
  destruct (ICMPHeader info) as [h|] eqn:E1.
  { specialize (T h 2 eq_refl). unfold pseudo_header in *. rewrite E1 in *.
    rewrite (P1 h) by auto. rewrite T. cbn. eauto. }
  destruct (ICMPv6Header info) as [h|] eqn:E2.
  { destruct Q1 as [Q0 Q1]; [discriminate|]. rewrite Q1 in U.
    rewrite (U IPPROTO_ICMPV6 h 2) by (auto; rewrite (P1 h); auto). cbn. eauto. }
  destruct (TCPHeader info) as [h|] eqn:E3.
  { rewrite (U IPPROTO_TCP h 16) by (auto; apply Q2; discriminate). cbn. eauto. }
  destruct (UDPHeader info) as [h|] eqn:E4; [|eauto].
  rewrite (U IPPROTO_UDP h 6) by (auto; try (rewrite (P1 h); auto); apply Q3; discriminate).
  destruct (transport_args q info L' h 6) as (A1 & A2); [unfold transport_field; now rewrite E1, E2, E3, E4|].
  pose proof (transport_csum_range q info Hq L' h 6) as R.
  unfold transport_field in R. rewrite E1, E2, E3, E4 in R. specialize (R eq_refl).
  set (c := csum _ _ _ _ _) in *. cbn [option_map]. unfold udp_nonzero, udp_Checksum.
  rewrite ld16_st16, Z.eqb_refl by lia. change (6 =? 6) with true. cbn [andb].
  destruct (c =? 0); [rewrite st16_twice by lia|]; cbn; eauto.
Qed.

(** Which checksums are stored does not depend on the old ones. *)
Lemma stages_same p q info : bytes p -> bytes q -> layout p info -> same_but info p q ->
  transport_stage (ip_stage q info) info = transport_stage (ip_stage p info) info.
Proof.
  intros Hp Hq L S. pose proof (layout_same info p q L S) as L'.
  pose proof (ip_stage_same p info Hp L) as Sp. pose proof (ip_stage_same q info Hq L') as Sq.
  pose proof (layout_same info p _ L Sp) as L1.
  assert (S1 : same_but info (ip_stage p info) (ip_stage q info)).
  { split; [rewrite (proj1 Sp), (proj1 Sq); apply S|]. intros x Hx.
    rewrite (proj2 Sp), (proj2 Sq) by exact Hx. now apply S. }
  assert (E : forall x, (forall h o, transport_field info = Some (h, o) -> x <> h + o /\ x <> h + o + 1) ->
    byte_at (ip_stage q info) x = byte_at (ip_stage p info) x).
  { intros x Hx. destruct (checksum_byte info x) eqn:C; [|now apply S1]. unfold checksum_byte in C.
    replace (match transport_field info with Some _ => _ | None => _ end) with false in C
      by (destruct (transport_field info) as [[h o]|]; [destruct (Hx h o eq_refl);
          destruct (Z.eqb_spec x (h + o)), (Z.eqb_spec x (h + o + 1)); reflexivity || lia|reflexivity]).
    rewrite orb_false_r in C. b2p. unfold ip_stage. destruct (IPHeader info) as [h|] eqn:I; [|discriminate].
    destruct (ip_args p info Hp L h I) as (-> & A1 & A2). pose proof (proj1 S).
    rewrite (same_ip_csum info p q L S I), !byte_at_st16 by lia.
    destruct (Z.eqb_spec x (0 + 10)); [reflexivity|].
    destruct (Z.eqb_spec x (0 + 10 + 1)); [reflexivity|lia]. }
  pose proof (same_transport_csum info _ _ L1 S1) as C. unfold transport_stage.
  destruct (transport_field info) as [[h o]|] eqn:T.
  - rewrite (C h o eq_refl). destruct (transport_args _ info L1 h o T) as (A1 & A2).
    pose proof (proj1 S1). apply byte_at_ext; [now rewrite !st16_len|]. intros x.
    rewrite !byte_at_st16 by lia.
    destruct (Z.eqb_spec x (h + o)); [reflexivity|].
    destruct (Z.eqb_spec x (h + o + 1)); [reflexivity|]. apply E.
    intros h' o' T'. inversion T'; subst. lia.
  - apply byte_at_ext; [apply S1|]. intros x. apply E. discriminate.
Qed.

(** ** The parser does not look at checksums *)

Lemma ext_header_same p q s : (forall x, x_data s <= x < x_data s + 8 -> byte_at q x = byte_at p x) ->
  ext_header q s = ext_header p s.
Proof.
  intros H. unfold ext_header, WINDIVERT_IPV6FRAGHDR_GET_FRAGOFF, WINDIVERT_IPV6FRAGHDR_GET_MF,
    frag_FragOff0, ld16. now rewrite !H by lia.
Qed.

Lemma ext_loop_same p q : bytes p -> forall fuel s,
  (forall x, x < x_data (ext_loop fuel p s) -> byte_at q x = byte_at p x) ->
  ext_header p (ext_loop fuel p s) = None -> ext_loop fuel q s = ext_loop fuel p s.
Proof.
  intros Hp. induction fuel as [|fuel IH]; intros s; cbn [ext_loop]; [reflexivity|].
  case_if; [|reflexivity]. destruct (ext_header p s) as [[n s']|] eqn:E.
  - destruct (ext_header_len _ _ _ _ Hp E) as (Hn & Hd & Hl). case_if.
    + intros _ N. exfalso. b2p. revert E N. unfold ext_header. repeat case_if; b2p; intros E N;
        inversion E; subst; cbn in *; try congruence; lia.
    + intros H N. pose proof (ext_loop_data p Hp fuel (mkExt (byte_at p (x_data s')) (x_data s' + n)
        (x_data_len s' - n) (x_frag_off s') (x_MF s') (x_fragment s'))) as D. cbn [x_data] in D.
      rewrite (ext_header_same p q s) by (intros; apply H; lia). rewrite E.
      replace (x_data_len s' <? n) with false. rewrite (H (x_data s')) by lia. now apply IH.
  - intros _ _. assert (E' : ext_header q s = None); [|now rewrite E'].
    revert E. unfold ext_header. repeat case_if; congruence.
Qed.

Lemma transport_at p v4 s h o : 0 <= x_data_len s ->
  let t := parse_transport p v4 s in
  (match t_icmp t, t_icmpv6 t, t_tcp t, t_udp t with
   | Some h, _, _, _ => Some (h, 2)
   | None, Some h, _, _ => Some (h, 2)
   | None, None, Some h, _ => Some (h, 16)
   | None, None, None, Some h => Some (h, 6)
   | None, None, None, None => None
   end = Some (h, o)) ->
  h = x_data s /\ (o = 2 \/ o = 6 \/ o = 16) /\ ext_header p s = None.
Proof.
  intros Hs. unfold parse_transport.
  repeat (case_if; b2p; cbn); intros E; inversion E; subst; (split; [reflexivity|split; [auto|]]);
    unfold ext_header; match goal with H : x_protocol s = _ |- _ => rewrite H end; reflexivity.
Qed.

Section ParseSame.
Variables (p q : list Z) (info : WINDIVERT_PACKET) (i : ip_part).
Hypothesis Hp : bytes p.
Hypothesis L : layout p info.
Hypothesis S : same_but info p q.
Hypothesis Hok : ip_part_ok p i.
Hypothesis Hfield : transport_field info =
  let t := parse_transport p (ip_v4 i) (ip_ext i) in
  match t_icmp t, t_icmpv6 t, t_tcp t, t_udp t with
  | Some h, _, _, _ => Some (h, 2)
  | None, Some h, _, _ => Some (h, 2)
  | None, None, Some h, _ => Some (h, 16)
  | None, None, None, Some h => Some (h, 6)
  | None, None, None, None => None
  end.

Lemma parse_ipv4_same : parse_ipv4 q = parse_ipv4 p.
Proof using L S.
  pose proof (same_low info p q L S) as Low.
  unfold parse_ipv4, ip_HdrLength, ip_Length, ip_Protocol, WINDIVERT_IPHDR_GET_FRAGOFF,
    WINDIVERT_IPHDR_GET_MF, ip_FragOff0, ld16. rewrite (proj1 S). now rewrite !Low by lia.
Qed.

Lemma field_facts h o : transport_field info = Some (h, o) ->
  h = x_data (ip_ext i) /\ (o = 2 \/ o = 6 \/ o = 16) /\ ext_header p (ip_ext i) = None.
Proof using Hfield Hok.
  intros E. rewrite Hfield in E. apply transport_at in E; [exact E|]. apply (ipo_ext _ _ Hok).
Qed.

Lemma parse_ipv6_same : IPHeader info = None -> parse_ipv6 p = Some i -> parse_ipv6 q = Some i.
Proof using Hp L S Hfield Hok.
  intros N E. assert (T : (exists h o, transport_field info = Some (h, o)) \/ transport_field info = None)
    by (destruct (transport_field info) as [[]|]; eauto). destruct T as [(h & o & T)|T].
  - pose proof (same_v6 info p q L S) as V. destruct (field_facts h o T) as (-> & _ & X).
    revert E. unfold parse_ipv6, ipv6_Length, ipv6_NextHdr, ld16. rewrite (proj1 S).
    case_if; [discriminate|]. rewrite !V by (assumption || lia). intros E. inversion E as [E'].
    rewrite E'. rewrite <- E' in X. cbn [ip_ext] in X.
    rewrite (ext_loop_same p q Hp); [exact E| |exact X]. intros x Hx.
    apply (proj2 S). unfold checksum_byte. rewrite N, T. cbn [non_null andb orb].
    rewrite <- E'. cbn [ip_ext]. destruct (ly_transport _ _ L _ _ T) as (_ & H2 & _).
    match goal with |- (?a =? ?b) || _ = _ => destruct (Z.eqb_spec a b); [lia|] end.
    match goal with |- false || (?a =? ?b) = _ => destruct (Z.eqb_spec a b); [lia|reflexivity] end.
  - replace q with p; [exact E|]. apply byte_at_ext; [symmetry; apply S|]. intros x. symmetry.
    apply S. unfold checksum_byte. now rewrite N, T.
Qed.

Lemma parse_transport_same :
  parse_transport q (ip_v4 i) (ip_ext i) = parse_transport p (ip_v4 i) (ip_ext i).
Proof using S Hfield Hok.
  unfold parse_transport, tcp_HdrLength. pose proof (ipo_hdr _ _ Hok) as Hh.
  rewrite (same_high info p q S (x_data (ip_ext i) + 12)); [reflexivity| |].
  - destruct (ip_v4 i); lia.
  - intros h o T. destruct (field_facts h o T) as (-> & Ho & _). lia.
Qed.
End ParseSame.

Lemma parse_same p q info : bytes p -> WinDivertHelperParsePacketEx p = Some info ->
  same_but info p q -> WinDivertHelperParsePacketEx q = Some info.
Proof.
  intros Hp Hi S. pose proof (parse_layout p info Hp Hi) as L.
  destruct (parse_inv _ _ Hi) as (i & Hs & Hinfo). pose proof (parse_stage_ok p i Hp Hs) as Hok.
  assert (Hf : IPHeader info = if ip_v4 i then Some 0 else None) by (rewrite Hinfo; reflexivity).
  pose proof (parse_transport_same p q info i S Hok ltac:(rewrite Hinfo; reflexivity)) as Ht.
  pose proof (parse_ipv6_same p q info i Hp L S Hok ltac:(rewrite Hinfo; reflexivity)) as H6.
  assert (Hq : (if ip_Version q 0 =? 4 then parse_ipv4 q
    else if ip_Version q 0 =? 6 then parse_ipv6 q else None) = Some i).
  { revert Hs. unfold ip_Version. rewrite (same_low info p q L S) by lia.
    case_if; [now rewrite (parse_ipv4_same p q info L S)|]. case_if; [|discriminate].
    intros Hs. apply H6; [|exact Hs]. rewrite Hf. now rewrite (proj2 (parse_ipv6_ok p i Hp Hs)). }
  unfold WinDivertHelperParsePacketEx in *. rewrite (proj1 S), Hq, Ht. rewrite Hs in Hi. exact Hi.
Qed.

(** ** Recalculation *)

Lemma ext_loop_frag p : forall fuel s,
  (x_fragment s = false -> x_MF s = false /\ x_frag_off s = 0) ->
  x_fragment (ext_loop fuel p s) = false ->
  x_MF (ext_loop fuel p s) = false /\ x_frag_off (ext_loop fuel p s) = 0.
Proof.
  induction fuel as [|fuel IH]; intros s Hs; cbn [ext_loop]; [exact Hs|].
  case_if; [|exact Hs]. destruct (ext_header p s) as [[n s']|] eqn:E; [|exact Hs].
  assert (Hs' : x_fragment s' = false -> x_MF s' = false /\ x_frag_off s' = 0).
  { revert E. unfold ext_header. repeat case_if; intros E; inversion E; subst; auto. discriminate. }
  case_if; [exact Hs'|]. now apply IH.
Qed.

Lemma not_fragment p info : bytes p -> WinDivertHelperParsePacketEx p = Some info ->
  Fragment info = false -> MF info = false /\ FragOff info = 0.
Proof.
  intros Hp Hi. destruct (parse_inv _ _ Hi) as (i & Hs & ->). cbn. clear Hi.
  assert (H : x_fragment (ip_ext i) = false -> x_MF (ip_ext i) = false /\ x_frag_off (ip_ext i) = 0).
  { revert Hs. case_if; [|case_if; [|discriminate]].
    - unfold parse_ipv4. do 2 (case_if; [discriminate|]). intros E; inversion E; cbn. intros F. b2p. auto.
    - unfold parse_ipv6. case_if; [discriminate|]. intros E; inversion E; cbn [ip_ext].
      apply ext_loop_frag. auto. }
  intros F. destruct (H F) as [-> ->]. auto.
Qed.

Lemma stages_ok p info : bytes p -> layout p info ->
  let q := transport_stage (ip_stage p info) info in
  same_but info p q /\
  (IPHeader info <> None -> sum_ok [] q 0 (ip_HdrLength q 0 * 4)) /\
  (forall h o, transport_field info = Some (h, o) ->
     sum_ok (pseudo_header q info h) q h (packet_len info - h)).
Proof.
  intros Hp L. pose proof (ip_stage_same p info Hp L) as S1. pose proof (ip_stage_bytes p info Hp L) as Hb.
  pose proof (layout_same info p _ L S1) as L1. pose proof (transport_stage_same _ info Hb L1) as S2.
  cbv zeta. repeat split.
  - rewrite (proj1 S2). apply S1.
  - intros x Hx. rewrite (proj2 S2) by exact Hx. now apply S1.
  - intros N. rewrite (same_HdrLength info _ _ L1 S2), (same_HdrLength info _ _ L S1).
    destruct (IPHeader info) as [h|] eqn:I; [|congruence].
    destruct (ip_args p info Hp L h I) as (-> & A1 & A2).
    unfold sum_ok. rewrite (range_sum_ext (transport_stage _ info) (ip_stage p info)); [|lia|].
    + unfold ip_stage. rewrite I. apply (csum_ok [] p 0 10 _ no_pseudo Hp A1 A2); [|reflexivity].
      exact (csum_range [] p 0 10 _ no_pseudo Hp A1 A2).
    + intros x Hx. unfold transport_stage. destruct (transport_field info) as [[h o]|] eqn:T; [|reflexivity].
      destruct (transport_args _ info L1 h o T) as (B1 & B2). rewrite byte_at_st16 by lia.
      destruct (ly_transport _ _ L h o T) as (H1 & H2 & _). rewrite I in H1. cbn in H1.
      destruct (Z.eqb_spec x (h + o)); [lia|]. destruct (Z.eqb_spec x (h + o + 1)); [lia|reflexivity].
  - intros h o T. rewrite (same_pseudo info _ _ L1 S2). now apply (transport_sum _ info Hb L1 h o).
Qed.

Lemma transport_stage_bytes p info : bytes p -> layout p info -> bytes (transport_stage p info).
Proof.
  intros Hp L. unfold transport_stage. destruct (transport_field info) as [[h o]|] eqn:T; [|exact Hp].
  apply bytes_st16; [exact Hp|]. pose proof (transport_csum_range p info Hp L h o T).
  case_if; lia.
Qed.

(** ** TTL *)

Lemma ttl_sum p : bytes p -> 20 <= ip_HdrLength p 0 * 4 <= zlen p -> 1 < ip_TTL p 0 ->
  let q := set_byte p 8 (ip_TTL p 0 - 1) in
  range_sum q 0 (ip_HdrLength p 0 * 4) = range_sum p 0 (ip_HdrLength p 0 * 4) - 1.
Proof.
  intros Hp Hl Ht. set (len := ip_HdrLength p 0 * 4) in *. cbv zeta.
  assert (E : set_byte p 8 (ip_TTL p 0 - 1) = st16 p (0 + 8) (ld16 p 8 - 1)).
  { unfold ip_TTL, ld16 in *. change (0 + 8) with 8 in *. pose proof (byte_at_range p 8 Hp). pose proof (byte_at_range p (8 + 1) Hp).
    unfold is_byte in *. apply byte_at_ext; [now rewrite set_byte_len, st16_len|]. intros x.
    rewrite byte_at_set, byte_at_st16 by lia.
    replace (byte_at p 8 + 2 ^ 8 * byte_at p (8 + 1) - 1)
      with (byte_at p 8 - 1 + byte_at p (8 + 1) * 2 ^ 8) by lia.
    rewrite Z.mod_add, Z.div_add, Z.mod_small, Z.div_small by lia.
    destruct (Z.eqb_spec x 8); [reflexivity|].
    destruct (Z.eqb_spec x (8 + 1)) as [->|]; [lia|reflexivity]. }
  rewrite E. pose proof (ld16_range p 8 Hp).
  assert (0 < ld16 p 8).
  { unfold ld16, ip_TTL in *. pose proof (byte_at_range p (8 + 1) Hp). unfold is_byte in *.
    change (0 + 8) with 8 in Ht. lia. }
  rewrite range_sum_st16 by (lia || reflexivity). change (0 + 8) with 8. lia.
Qed.

(** The incremental update adds one in one's complement. *)
Lemma incr_checksum c : 0 <= c <= 0xFFFF ->
  let c' := if c >=? 0xFFFE then c - 0xFFFE else u16 (c + 1) in
  0 <= c' < 2 ^ 16 /\ exists k, c' = c + 1 + k * 0xFFFF.
Proof.
  intros H. cbv zeta. unfold u16. rewrite Z.geb_leb. case_if; b2p; [split; [lia|exists (-1); lia]|].
  rewrite Z.mod_small by lia. split; [lia|exists 0; lia].
Qed.

(** ** Properties *)

Lemma ex_udp_whole : exists info, whole ex_udp info /\ transport_field info = Some (20, 6).
Proof.
  destruct (WinDivertHelperParsePacketEx ex_udp) as [info|] eqn:E; [|discriminate].
  exists info. vm_compute in E. inversion E; subst info; clear E.
  repeat split; try reflexivity; [apply ex_udp_bytes|]. intros h H. discriminate.
Qed.

(** Recalculation and verification fit together: a packet that is not a
    fragment passes the verification of [wd_verify_checksums], which the
    capture path uses to set the checksum flags of an address, in every
    checksum it has once its checksums are recalculated. *)
Theorem calc_verify_roundtrip p info addr : bytes p ->
  WinDivertHelperParsePacketEx p = Some info -> Fragment info = false -> Truncated info = false ->
  tcp_fits p info ->
  exists out, WinDivertHelperCalcChecksums p addr 0 = Some out /\
    wd_verify_checksums (c_packet out) =
    Some (non_null (IPHeader info), non_null (TCPHeader info), non_null (UDPHeader info)).
Proof.
  intros Hp Hi Hf Ht Hfit. pose proof (parse_layout p info Hp Hi) as L.
  pose proof (ip_stage_bytes p info Hp L) as Hb.
  pose proof (layout_same info p _ L (ip_stage_same p info Hp L)) as L1.
  pose proof (transport_stage_bytes _ info Hb L1) as Hq.
  destruct (stages_ok p info Hp L) as [S _].
  pose proof (parse_same p _ info Hp Hi S) as Hi'.
  assert (W : whole p info) by (split; auto; exact (not_fragment p info Hp Hi Hf)).
  destruct (calc_eq p info addr W) as [addr' E]. eexists. split; [exact E|]. cbn [c_packet].
  set (q := transport_stage (ip_stage p info) info) in *.
  assert (Wq : whole q info).
  { split; auto; [exact (not_fragment p info Hp Hi Hf)|]. intros h T.
    rewrite (same_tcp info p q L S h T). now apply Hfit. }
  destruct (calc_eq q info None Wq) as [addr'' Eq].
  rewrite (stages_same p q info Hp Hq L S) in Eq. fold q in Eq.
  unfold wd_verify_checksums. rewrite Hi', Hf, Ht. cbn [orb]. rewrite Eq. cbn [c_packet].
  destruct (IPHeader info), (TCPHeader info), (UDPHeader info); cbn [non_null];
    rewrite ?Z.eqb_refl; reflexivity.
Qed.

Lemma calc_verify_roundtrip_witness : exists out,
  WinDivertHelperCalcChecksums ex_udp None 0 = Some out /\
  wd_verify_checksums (c_packet out) = Some (true, false, true).
Proof.
  destruct (WinDivertHelperParsePacketEx ex_udp) as [info|] eqn:E; [|discriminate].
  pose proof E as E0. vm_compute in E0. inversion E0; subst info; clear E0.
  apply (calc_verify_roundtrip ex_udp _ None ex_udp_bytes E); try reflexivity.
  intros h H. discriminate.
Defined.

(** The incremental update of [WinDivertHelperDecrementTTL] keeps an IPv4
    header checksum valid: on success the TTL is one less, the header still
    sums to zero, and only the TTL and the checksum have changed. *)
Theorem decrement_ttl_valid p p' : bytes p -> ip_Version p 0 = 4 ->
  20 <= ip_HdrLength p 0 * 4 <= zlen p -> sum_ok [] p 0 (ip_HdrLength p 0 * 4) ->
  WinDivertHelperDecrementTTL p = (true, p') ->
  ip_TTL p' 0 = ip_TTL p 0 - 1 /\ sum_ok [] p' 0 (ip_HdrLength p' 0 * 4) /\
  forall x, x <> 8 -> x <> 10 -> x <> 11 -> byte_at p' x = byte_at p x.
Proof.
  intros Hp Hv Hl Hs. unfold WinDivertHelperDecrementTTL. rewrite Hv. change (4 =? 4) with true.
  cbn iota. case_if; [discriminate|]. case_if; [discriminate|]. b2p. intros E.
  injection E as <-. pose proof (byte_at_range p 8 Hp) as Hb. unfold is_byte in Hb.
  assert (Ht : 1 < ip_TTL p 0) by lia. pose proof (ttl_sum p Hp Hl Ht) as T.
  assert (U : u8 (ip_TTL p 0 - 1) = ip_TTL p 0 - 1)
    by (unfold u8; apply Z.mod_small; unfold ip_TTL in *; change (0 + 8) with 8 in *; lia).
  rewrite U. set (q := set_byte p 8 (ip_TTL p 0 - 1)) in *.
  assert (Hz : zlen q = zlen p) by apply set_byte_len.
  assert (Hq : forall x, x <> 8 -> byte_at q x = byte_at p x).
  { intros x Hx. subst q. rewrite byte_at_set by lia. destruct (Z.eqb_spec x 8); congruence. }
  assert (Hc : ip_Checksum q 0 = ip_Checksum p 0) by (unfold ip_Checksum, ld16; now rewrite !Hq by lia).
  pose proof (ld16_range p (0 + 10) Hp) as Hr. fold (ip_Checksum p 0) in Hr. rewrite Hc.
  match goal with |- context [st16 q 10 ?v] => set (c := v) end.
  destruct (incr_checksum _ Hr) as (C1 & k & C2). fold c in C1, C2. clearbody c.
  assert (Hh : ip_HdrLength (st16 q 10 c) 0 = ip_HdrLength p 0)
    by (unfold ip_HdrLength; rewrite byte_at_st16 by lia; cbn [Z.eqb]; now rewrite Hq by lia).
  rewrite Hh. repeat split.
  - unfold ip_TTL at 1. rewrite byte_at_st16 by lia. subst q. rewrite byte_at_set by lia. reflexivity.
  - unfold sum_ok in *. change 10 with (0 + 10). rewrite range_sum_st16 by (lia || reflexivity).
    rewrite T. fold (ip_Checksum q 0). rewrite Hc, C2.
    set (A := range_sum [] 0 (zlen [])) in *. set (R := range_sum p 0 _) in *.
    replace (A + (R - 1 - ip_Checksum p 0 + (ip_Checksum p 0 + 1 + k * 0xFFFF)))
      with (A + R + k * 0xFFFF) by lia. now rewrite Z.mod_add by lia.
  - intros x H1 H2 H3. rewrite byte_at_st16 by lia.
    destruct (Z.eqb_spec x 10); [congruence|]. destruct (Z.eqb_spec x (10 + 1)); [lia|]. now apply Hq.
Qed.

Definition ex_valid : list Z :=
  match WinDivertHelperCalcChecksums ex_udp None 0 with Some out => c_packet out | None => [] end.

Lemma decrement_ttl_valid_witness :
  ip_TTL (snd (WinDivertHelperDecrementTTL ex_valid)) 0 = 63 /\
  sum_ok [] (snd (WinDivertHelperDecrementTTL ex_valid)) 0 20.
Proof.
  assert (B : bytes ex_valid)
    by (let l := eval vm_compute in ex_valid in change (bytes l); unfold bytes, is_byte;
        repeat (apply Forall_cons; [lia|]); apply Forall_nil).
  destruct (decrement_ttl_valid ex_valid (snd (WinDivertHelperDecrementTTL ex_valid)) B)
    as (T & S & _); [reflexivity|vm_compute; split; discriminate|reflexivity|reflexivity|].
  split; [exact T|exact S].
Defined.
