(* ===== verification/WdChecksum.v ===== *)
(** * Internet checksums as the RFCs define them

    The specification of [WinDivertHelperCalcChecksums] ([src/wd/windivert_shared.c],
    modelled in [WdHelper]), written from the RFCs and not from the code: the
    one's complement sum of RFC 1071 over the big-endian words of a list of
    bytes, and the pseudo headers of RFC 793, 768 and 8200 taken from the
    bytes of the packet.  A checksum is right when the sum over the pseudo
    header and the segment, checksum included, is [0xFFFF]. *)

From Stdlib Require Import ZArith List Bool Lia.
From S2P Require Import Prelude WdTypes WdPacket WdExec WdHelper.
Import ListNotations.

(** ** The specification *)

(** One's complement addition of 16-bit words: the carry comes back in. *)
Definition oc_add (x y : Z) : Z := if x + y >? 0xFFFF then x + y - 0xFFFF else x + y.

(** The sum of the words, the last byte of an odd list padded with zero. *)
Fixpoint rfc1071 (l : list Z) : Z :=
  match l with
  | a :: b :: l => oc_add (a * 256 + b) (rfc1071 l)
  | [a] => a * 256
  | [] => 0
  end.

(** The length of a packet in its IP header. *)
Definition rfc_total (p : list Z) : Z :=
  if byte_at p 0 / 16 =? 4 then be16 p 2 else be16 p 4 + 40.

(** The pseudo header for the segment at [h]: addresses, protocol and the
    length of the segment; ICMP for IPv4 has none. *)
Definition rfc_pseudo (p : list Z) (info : WINDIVERT_PACKET) (h : Z) : list Z :=
  let len := rfc_total p - h in
  let next := if non_null (TCPHeader info) then 6 else if non_null (UDPHeader info) then 17 else 58 in
  if non_null (ICMPHeader info) then []
  else if byte_at p 0 / 16 =? 4 then slice p 12 8 ++ [0; next; len / 256; len mod 256]
  else slice p 8 32 ++
       [len / 2 ^ 24; len / 2 ^ 16 mod 256; len / 2 ^ 8 mod 256; len mod 256; 0; 0; 0; next].

(** ** Sums of lists *)

Lemma pair_ind (P : list Z -> Prop) : P [] -> (forall a, P [a]) -> (forall a b l, P l -> P (a :: b :: l)) ->
  forall l, P l.
Proof.
  intros H0 H1 H2. assert (H : forall l, P l /\ forall a, P (a :: l)).
  { induction l as [|x l [I1 I2]]; [auto|]. split; [apply I2|]. intros a. apply H2, I1. }
  intros l. apply H.
Qed.

(** The sum of little-endian words, without carries. *)
Fixpoint le_sum (l : list Z) : Z :=
  match l with
  | a :: b :: l => a + 2 ^ 8 * b + le_sum l
  | [a] => a
  | [] => 0
  end.

Lemma le_sum_app l l' : Z.even (zlen l) = true -> le_sum (l ++ l') = le_sum l + le_sum l'.
Proof.
  induction l as [|a|a b l IH] using pair_ind; intros H; cbn [app le_sum]; [lia|discriminate H|].
  rewrite IH; [lia|]. revert H. rewrite !zlen_cons. rewrite !Z.even_add. now destruct (Z.even (zlen l)).
Qed.

Lemma range_sum_step p o len : 2 <= len ->
  range_sum p o len = ld16 p o + range_sum p (o + 2) (len - 2).
Proof.
  intros H. unfold range_sum. replace (Z.to_nat (len / 2)) with (S (Z.to_nat ((len - 2) / 2)))
    by (Z.to_euclidean_division_equations; lia).
  cbn [word_sum]. replace (Z.odd (len - 2)) with (Z.odd len) by (rewrite Z.odd_sub; now destruct (Z.odd len)).
  replace (o + 2 + (len - 2 - 1)) with (o + (len - 1)) by lia. lia.
Qed.

Lemma byte_at_middle pre a l : byte_at (pre ++ a :: l) (zlen pre) = a.
Proof. rewrite byte_at_app_r by lia. now rewrite Z.sub_diag. Qed.

Lemma range_sum_list post : forall l pre, range_sum (pre ++ l ++ post) (zlen pre) (zlen l) = le_sum l.
Proof.
  induction l as [|a|a b l IH] using pair_ind; intros pre.
  - reflexivity.
  - unfold range_sum. change (zlen [a]) with 1. cbn [Z.div Z.to_nat word_sum Z.odd].
    change (Z.to_nat (1 / 2)) with 0%nat. cbn [word_sum]. rewrite Z.add_0_r. apply byte_at_middle.
  - rewrite !zlen_cons. pose proof (zlen_nonneg l). rewrite range_sum_step by lia. unfold ld16.
    cbn [app le_sum]. rewrite byte_at_middle.
    replace (pre ++ a :: b :: l ++ post) with ((pre ++ [a]) ++ b :: l ++ post) at 1 by (now rewrite <- app_assoc).
    replace (zlen pre + 1) with (zlen (pre ++ [a])) by (rewrite zlen_app; reflexivity). rewrite byte_at_middle.
    replace (pre ++ a :: b :: l ++ post) with ((pre ++ [a; b]) ++ l ++ post) by (now rewrite <- app_assoc).
    replace (zlen pre + 2) with (zlen (pre ++ [a; b])) by (rewrite zlen_app; reflexivity).
    replace (1 + (1 + zlen l) - 2) with (zlen l) by lia. now rewrite IH.
Qed.

Lemma range_sum_slice p o len : 0 <= o -> 0 <= len -> o + len <= zlen p ->
  range_sum p o len = le_sum (slice p o len).
Proof.
  intros Ho Hl Hz. rewrite <- (range_sum_list (skipn (Z.to_nat (o + len)) p) (slice p o len) (firstn (Z.to_nat o) p)).
  rewrite zlen_slice by lia. unfold slice.
  replace (skipn (Z.to_nat (o + len)) p) with (skipn (Z.to_nat len) (skipn (Z.to_nat o) p))
    by (rewrite skipn_skipn; f_equal; lia).
  rewrite !firstn_skipn. f_equal. unfold zlen in *. rewrite length_firstn. lia.
Qed.

Lemma le_sum_nonneg l : bytes l -> 0 <= le_sum l.
Proof.
  induction l as [|a|a b l IH] using pair_ind; intros H; cbn [le_sum]; [lia| |].
  - apply Forall_inv in H. unfold is_byte in H. lia.
  - pose proof (Forall_inv H) as Ha. pose proof (Forall_inv (Forall_inv_tail H)) as Hb.
    apply Forall_inv_tail, Forall_inv_tail, IH in H. unfold is_byte in *. lia.
Qed.

(** The sum of the RFC is the other one with the bytes of the words swapped:
    256 times as much modulo [0xFFFF], and zero only for zero bytes. *)
Lemma rfc1071_le l : bytes l ->
  0 <= rfc1071 l <= 0xFFFF /\ (exists k, rfc1071 l = 256 * le_sum l - k * 0xFFFF) /\
  (rfc1071 l = 0 -> le_sum l = 0).
Proof.
  induction l as [|a|a b l IH] using pair_ind; intros H; cbn [rfc1071 le_sum].
  - repeat split; try lia. exists 0. lia.
  - apply Forall_inv in H. unfold is_byte in H. repeat split; try lia. exists 0. lia.
  - pose proof (Forall_inv H) as Ha. pose proof (Forall_inv (Forall_inv_tail H)) as Hb.
    apply Forall_inv_tail, Forall_inv_tail in H. destruct (IH H) as (R & [k E] & N). unfold is_byte in *.
    unfold oc_add. split; [case_if; lia|]. split.
    + case_if; [exists (k + b + 1)|exists (k + b)]; lia.
    + pose proof (le_sum_nonneg l H). case_if; b2p; [lia|]. intros Q. rewrite N; lia.
Qed.

(** ** Checksums that verify *)

Lemma sum_verifies pseudo q h len : bytes pseudo -> bytes q -> Z.even (zlen pseudo) = true ->
  0 <= h -> 0 <= len -> h + len <= zlen q -> sum_ok pseudo q h len ->
  0 < range_sum pseudo 0 (zlen pseudo) + range_sum q h len ->
  rfc1071 (pseudo ++ slice q h len) = 0xFFFF.
Proof.
  intros Hs Hq He Hh Hl Hz S P. unfold sum_ok in S.
  rewrite (range_sum_slice q) in S, P by assumption.
  pose proof (range_sum_list [] pseudo []) as E. rewrite app_nil_r in E. cbn [app] in E. change (zlen []) with 0 in E.
  rewrite E, <- le_sum_app in S, P by assumption.
  destruct (rfc1071_le (pseudo ++ slice q h len)) as (R & [k K] & N); [auto with divert|].
  set (r := rfc1071 _) in *. set (s := le_sum _) in *. clearbody r s.
  assert (r <> 0) by (intros ->; lia). apply Z.mod_divide in S; [|lia]. destruct S as [m ->].
  assert (exists n, r = n * 0xFFFF) as [n ->] by (exists (256 * m - k); lia). nia.
Qed.

(** The bytes of the length fields. *)
Lemma htons_bytes n : 0 <= n < 2 ^ 16 -> le16 (htons (u16 n)) = [n / 256; n mod 256].
Proof.
  intros H. unfold u16. rewrite Z.mod_small by lia.
  assert (B : bytes [n mod 256; n / 256]).
  { unfold bytes, is_byte. repeat constructor; Z.to_euclidean_division_equations; lia. }
  assert (E : ld16 [n mod 256; n / 256] 0 = n)
    by (unfold ld16; cbn [byte_at]; change (byte_at [n mod 256; n / 256] 0) with (n mod 256);
        change (byte_at [n mod 256; n / 256] (0 + 1)) with (n / 256); Z.to_euclidean_division_equations; lia).
  change htons with ntohs. rewrite <- E at 1. rewrite ntohs_ld16 by exact B. unfold be16.
  change (byte_at [n mod 256; n / 256] 0) with (n mod 256). change (byte_at [n mod 256; n / 256] (0 + 1)) with (n / 256).
  unfold le16. f_equal; [|f_equal]; Z.to_euclidean_division_equations; lia.
Qed.

Lemma word_digits n : 0 <= n < 2 ^ 32 -> exists a b c d, is_byte a /\ is_byte b /\ is_byte c /\ is_byte d /\
  n = a + 2 ^ 8 * b + 2 ^ 16 * c + 2 ^ 24 * d.
Proof.
  intros H. pose proof (Z.div_mod n 256 ltac:(lia)). pose proof (Z.mod_pos_bound n 256 ltac:(lia)).
  set (q := n / 256) in *. pose proof (Z.div_mod q 256 ltac:(lia)). pose proof (Z.mod_pos_bound q 256 ltac:(lia)).
  set (r := q / 256) in *. pose proof (Z.div_mod r 256 ltac:(lia)). pose proof (Z.mod_pos_bound r 256 ltac:(lia)).
  exists (n mod 256), (q mod 256), (r mod 256), (r / 256). unfold is_byte. lia.
Qed.

(** A digit in base 256 of [low + 2^k * (x + 256 * high)]. *)
Lemma digit_eq n k low x high : 0 <= k -> 0 <= low < 2 ^ k -> is_byte x -> n = low + (x + 256 * high) * 2 ^ k ->
  n / 2 ^ k mod 2 ^ 8 = x.
Proof.
  unfold is_byte. intros Hk Hl Hx ->. rewrite Z.div_add, Z.div_small by lia. change (2 ^ 8) with 256.
  rewrite Z.add_0_l, Z.mul_comm, Z.mod_add by lia. apply Z.mod_small. lia.
Qed.

Lemma htonl_bytes n : 0 <= n < 2 ^ 32 ->
  le32 (htonl (u32 n)) = [n / 2 ^ 24; n / 2 ^ 16 mod 256; n / 2 ^ 8 mod 256; n mod 256].
Proof.
  intros H. unfold u32. rewrite Z.mod_small by lia.
  destruct (word_digits n H) as (a & b & c & d & A & B & C & D & E).
  assert (L : bytes [a; b; c; d]) by (repeat (apply Forall_cons; [assumption|]); apply Forall_nil).
  assert (W : htonl n = 2 ^ 24 * a + 2 ^ 16 * b + 2 ^ 8 * c + d).
  { rewrite E. change (a + 2 ^ 8 * b + 2 ^ 16 * c + 2 ^ 24 * d) with (ld32 [a; b; c; d] 0).
    change htonl with ntohl. now rewrite ntohl_ld32. }
  unfold le32. rewrite W. unfold is_byte in *. change 256 with (2 ^ 8).
  rewrite <- (Z.div_1_r n) at 4. change 1 with (2 ^ 0) at 1.
  rewrite <- (Z.div_1_r (_ + d)) at 1. change 1 with (2 ^ 0) at 1.
  assert (N24 : n / 2 ^ 24 = d) by (symmetry; apply (Z.div_unique _ _ _ (a + 2 ^ 8 * b + 2 ^ 16 * c)); lia).
  rewrite N24, (digit_eq n 16 (a + 2 ^ 8 * b) c d), (digit_eq n 8 a b (c + 2 ^ 8 * d)),
    (digit_eq n 0 0 a (b + 2 ^ 8 * c + 2 ^ 16 * d)) by (unfold is_byte; lia).
  rewrite (digit_eq _ 0 0 d (c + 2 ^ 8 * b + 2 ^ 16 * a)), (digit_eq _ 8 d c (b + 2 ^ 8 * a)),
    (digit_eq _ 16 (d + 2 ^ 8 * c) b a), (digit_eq _ 24 (d + 2 ^ 8 * c + 2 ^ 16 * b) a 0) by (unfold is_byte; lia).
  reflexivity.
Qed.

(** The packet length the helper works with is that of the IP header. *)
Lemma ipv4_lengths p i : bytes p -> parse_ipv4 p = Some i ->
  ip_total_len i = be16 p 2 /\ ip_packet_len i = Z.min (ip_total_len i) (zlen p).
Proof.
  intros Hp. unfold parse_ipv4, ip_Length. rewrite ntohs_ld16 by exact Hp. change (0 + 2) with 2.
  do 2 (case_if; [discriminate|]). intros [= <-]. cbn [ip_total_len ip_packet_len].
  split; [reflexivity|]. case_if; b2p; lia.
Qed.

Lemma ipv6_lengths p i : bytes p -> parse_ipv6 p = Some i ->
  ip_total_len i = be16 p 4 + 40 /\ ip_packet_len i = Z.min (ip_total_len i) (zlen p).
Proof.
  intros Hp. unfold parse_ipv6, ipv6_Length. rewrite ntohs_ld16 by exact Hp. change (0 + 4) with 4.
  case_if; [discriminate|]. intros [= <-]. cbn [ip_total_len ip_packet_len].
  split; [reflexivity|]. case_if; b2p; lia.
Qed.

Lemma total_len p info : bytes p -> WinDivertHelperParsePacketEx p = Some info -> Truncated info = false ->
  packet_len info = rfc_total p /\ non_null (IPHeader info) = (byte_at p 0 / 16 =? 4).
Proof.
  intros Hp H. destruct (parse_inv _ _ H) as (i & Hi & ->).
  destruct (parse_stage_ok p i Hp Hi) as [(Hl & Hd & H0) Hf Hpl Hdl Hh].
  destruct (parse_transport_bounds p (ip_v4 i) (ip_ext i) Hl) as (Ht & _).
  unfold packet_len. cbn -[byte_at]. set (t := t_header_len _) in *. clearbody t. clear H.
  rewrite !Z.mod_small by (destruct (ip_v4 i); lia). intros T. b2p. unfold rfc_total.
  revert Hi. unfold ip_Version. rewrite Z.shiftr_div_pow2 by lia. change (2 ^ 4) with 16.
  destruct (Z.eqb_spec (byte_at p 0 / 16) 4) as [V|V].
  - intros Hi. destruct (parse_ipv4_ok p i Hp Hi) as [_ ->]. split; [|reflexivity].
    destruct (ipv4_lengths p i Hp Hi). lia.
  - case_if; [|discriminate]. intros Hi. destruct (parse_ipv6_ok p i Hp Hi) as [_ ->]. split; [|reflexivity].
    destruct (ipv6_lengths p i Hp Hi). lia.
Qed.

(** The pseudo header of the code is that of the RFCs. *)
Lemma pseudo_is_rfc p info h o : bytes p -> WinDivertHelperParsePacketEx p = Some info -> Truncated info = false ->
  transport_field info = Some (h, o) -> pseudo_header p info h = rfc_pseudo p info h.
Proof.
  intros Hp Hi Ht Hf. pose proof (parse_layout p info Hp Hi) as L. destruct (total_len p info Hp Hi Ht) as [Q V].
  destruct (ly_transport _ _ L h o Hf) as (H1 & H2 & _ & H3). pose proof (proj2 (ly_len _ _ L)) as H4.
  unfold pseudo_header, rfc_pseudo, WinDivertInitPseudoHeader. rewrite Q, <- V.
  destruct (ICMPHeader info) eqn:E0; [reflexivity|]. cbn [non_null].
  assert (P : PktProtocol info = if non_null (TCPHeader info) then 6 else if non_null (UDPHeader info) then 17 else 58).
  { destruct (ly_proto _ _ L) as (P1 & P2 & P3). unfold transport_field in Hf. rewrite E0 in Hf.
    destruct (TCPHeader info); [now rewrite P2 by discriminate|]. destruct (UDPHeader info); [now rewrite P3 by discriminate|].
    destruct (ICMPv6Header info); [now destruct P1 as [-> _]|discriminate]. }
  rewrite P. destruct (IPHeader info) as [a|] eqn:E; cbn [non_null] in *.
  - destruct (ly_ip _ _ L a E) as (-> & _ & _). assert (rfc_total p < 2 ^ 16).
    { unfold rfc_total. rewrite <- V. pose proof (be16_range p 2 Hp). lia. }
    rewrite htons_bytes by lia. reflexivity.
  - destruct (ly_ipv6 _ _ L E) as (-> & _). rewrite htonl_bytes by lia. reflexivity.
Qed.

(** A sum with its checksum is not zero. *)
Lemma transport_positive p info h o : bytes p -> layout p info -> transport_field info = Some (h, o) ->
  0 < range_sum (pseudo_header p info h) 0 (zlen (pseudo_header p info h)) +
      range_sum (transport_stage p info) h (packet_len info - h).
Proof.
  intros Hp L E. destruct (transport_args p info L h o E) as ((H1 & H2 & H3 & H4) & H5 & _).
  pose proof (transport_csum_range p info Hp L h o E) as R. unfold transport_stage. rewrite E.
  pose proof (pseudo_header_ok p info h o Hp L E) as (B & _ & _).
  pose proof (range_sum_range _ 0 (zlen (pseudo_header p info h)) B (zlen_nonneg _)) as A. unfold csum in *.
  assert (Hz : bytes (st16 p (h + o) 0)) by (apply bytes_st16; [exact Hp|lia]).
  pose proof (range_sum_range _ h (packet_len info - h) Hz ltac:(lia)) as Z0.
  rewrite range_sum_st16 by (assumption || lia || (case_if; lia)).
  rewrite range_sum_st16 in R, Z0 by (assumption || lia). rewrite range_sum_st16 by (assumption || lia).
  set (s := range_sum (pseudo_header p info h) 0 _ + (_ - _ + 0)) in *.
  assert (V : 0 < s \/ s = 0) by lia. destruct V as [V|V].
  - set (v := if (o =? 6) && _ then 0xFFFF else fold_sum s). assert (0 <= v) by (subst v; case_if; lia). lia.
  - rewrite V. change (fold_sum 0) with 0xFFFF. rewrite andb_false_r. lia.
Qed.

Lemma zeros_not_udp p info h : bytes p -> layout p info -> UDPHeader info = Some h ->
  udp_Checksum (transport_stage p info) h <> 0.
Proof.
  intros Hp L U. pose proof (proj2 (ly_field _ _ L h) U) as E. unfold transport_stage. rewrite E.
  destruct (transport_args p info L h 6 E) as ((H1 & H2 & H3 & H4) & H5 & _).
  pose proof (transport_csum_range p info Hp L h 6 E) as R. set (c := csum _ _ _ _ _) in *.
  unfold udp_Checksum. rewrite ld16_st16, Z.eqb_refl by (try case_if; lia). change (6 =? 6) with true. cbn [andb].
  case_if; b2p; lia.
Qed.

(** ** Properties *)

(** C35. Recalculated checksums verify.  For a whole packet (bytes that parse,
    not truncated, no fragment, the TCP header inside the packet),
    [WinDivertHelperCalcChecksums] without flags succeeds and changes only
    checksum fields; then the one's complement sum of RFC 1071 is [0xFFFF]
    over the IPv4 header, and over the transport segment with its pseudo
    header of RFC 768, 793 or 8200 (none for ICMP), and a UDP checksum is
    never 0, which would mean that there is none. *)
Theorem calc_checksums_valid p info addr : whole p info ->
  exists out, WinDivertHelperCalcChecksums p addr 0 = Some out /\ c_ok out = true /\
    let q := c_packet out in
    same_but info p q /\
    (byte_at q 0 / 16 = 4 -> rfc1071 (slice q 0 (byte_at q 0 mod 16 * 4)) = 0xFFFF) /\
    (forall h o, transport_field info = Some (h, o) ->
       rfc1071 (rfc_pseudo q info h ++ slice q h (rfc_total q - h)) = 0xFFFF) /\
    (forall h, UDPHeader info = Some h -> be16 q (h + 6) <> 0).
Proof.
  intros W. destruct (calc_eq p info addr W) as [addr' E]. destruct W as [Hp Hi Ht _ _].
  exists (mkCalc true (transport_stage (ip_stage p info) info) addr').
  split; [exact E|]. split; [reflexivity|]. cbn [c_packet].
  pose proof (parse_layout p info Hp Hi) as L. pose proof (ip_stage_bytes p info Hp L) as Hb.
  pose proof (layout_same info p _ L (ip_stage_same p info Hp L)) as L1.
  pose proof (transport_stage_bytes _ info Hb L1) as Hq. destruct (stages_ok p info Hp L) as (S & S4 & ST).
  pose proof (parse_same p _ info Hp Hi S) as Hi'. pose proof (parse_layout _ info Hq Hi') as L'.
  pose proof (transport_stage_same _ info Hb L1) as S2.
  pose proof (transport_positive (ip_stage p info) info) as Pos. pose proof (zeros_not_udp (ip_stage p info) info) as Udp.
  cbv zeta. set (q := transport_stage (ip_stage p info) info) in *. destruct (total_len q info Hq Hi' Ht) as [Q V].
  split; [exact S|]. split; [|split].
  - intros V4. rewrite V4 in V. cbn [Z.eqb Pos.eqb] in V. destruct (IPHeader info) as [a|] eqn:I; [|discriminate V].
    destruct (ly_ip _ _ L' a I) as (_ & _ & R). unfold ip_HdrLength in R, S4.
    rewrite (land_mask_mod _ 4) in R, S4 by (lia || reflexivity). change (2 ^ 4) with 16 in R, S4.
    change (slice q 0 ?n) with ([] ++ slice q 0 n).
    apply sum_verifies; [constructor|exact Hq|reflexivity|lia|lia|lia|apply S4; discriminate|].
    rewrite (range_sum_step q) by lia. pose proof (range_sum_range q (0 + 2) (byte_at q 0 mod 16 * 4 - 2) Hq ltac:(lia)).
    pose proof (range_sum_range [] 0 0 (Forall_nil _) ltac:(lia)). change (zlen (@nil Z)) with 0.
    unfold ld16. pose proof (byte_at_range q (0 + 1) Hq) as B1. unfold is_byte in B1.
    assert (16 <= byte_at q 0) by (Z.to_euclidean_division_equations; lia). lia.
  - intros h o T. rewrite <- (pseudo_is_rfc q info h o Hq Hi' Ht T), <- Q.
    destruct (transport_args q info L' h o T) as ((H1 & H2 & H3 & H4) & H5 & _).
    destruct (pseudo_header_ok q info h o Hq L' T) as (B & _ & Ev).
    apply sum_verifies; try assumption; try lia; [now apply (ST h o)|].
    rewrite (same_pseudo info _ _ L1 S2). exact (Pos h o Hb L1 T).
  - intros h U. pose proof (proj2 (ly_field _ _ L' h) U) as T. specialize (Udp h Hb L1 U). unfold udp_Checksum in Udp.
    unfold ld16 in Udp. unfold be16. pose proof (byte_at_range q (h + 6) Hq). pose proof (byte_at_range q (h + 6 + 1) Hq).
    unfold is_byte in *. fold q in Udp. lia.
Qed.

Lemma calc_checksums_valid_witness : exists info out,
  whole ex_udp info /\ WinDivertHelperCalcChecksums ex_udp None 0 = Some out /\
  rfc1071 (rfc_pseudo (c_packet out) info 20 ++ slice (c_packet out) 20 12) = 0xFFFF.
Proof.
  destruct ex_udp_whole as (info & W & T).
  destruct (calc_checksums_valid ex_udp info None W) as (out & E & _ & _ & _ & H & _).
  exists info, out. split; [exact W|]. split; [exact E|]. specialize (H 20 6 T).
  vm_compute in E. injection E as <-. exact H.
Defined.
