(* ===== verification/WdSerial.v ===== *)
(** * Serialized filters

    The textual form of a filter object: [WinDivertSerializeFilter] of
    [src/wd/windivert_shared.c] and [wd_filter_serialize] of
    [src/wd/wd_port.c] write it, [WinDivertDeserializeFilter] of
    [src/wd/windivert_helper.c] reads it back.  Characters are their codes. *)

From Stdlib Require Import Ascii String ZArith List Bool Lia.
From S2P Require Import Prelude WdTypes WdExec WdHelper.
Import ListNotations.
#[local] Open Scope list_scope.
#[local] Open Scope Z_scope.

(** The characters of a string literal. *)
Fixpoint chars (s : string) : list Z :=
  match s with
  | EmptyString => []
  | String c s => Z.of_N (N_of_ascii c) :: chars s
  end.

Definition EOF : Z := -1.
Definition NUL : Z := 0.

(** ** Writing *)

(** [WINDIVERT_STREAM] for output: [data[0 .. pos-1]], [max], [overflow]. *)
Record WINDIVERT_STREAM : Set := mkStream {
  s_out : list Z;
  s_max : Z;
  s_overflow : bool
}.

Definition WinDivertPutChar (s : WINDIVERT_STREAM) (c : Z) : WINDIVERT_STREAM :=
  if zlen (s_out s) >=? s_max s then mkStream (s_out s) (s_max s) true
  else mkStream (s_out s ++ [c]) (s_max s) (s_overflow s).

Definition WinDivertPutString (s : WINDIVERT_STREAM) (str : list Z) : WINDIVERT_STREAM :=
  fold_left WinDivertPutChar str s.

Definition WinDivertPutNul (s : WINDIVERT_STREAM) : WINDIVERT_STREAM :=
  if (zlen (s_out s) >=? s_max s) && (s_max s >? 0) then
    mkStream (set_nth (Z.to_nat (s_max s - 1)) NUL (s_out s)) (s_max s) (s_overflow s)
  else WinDivertPutChar s NUL.

Definition windivert_digits : list Z :=
  Eval vm_compute in chars "0123456789ABCDEFGHIJKLMNOPQRSTUVWXYZabcdefghijklmnopqrstuvwxyz+=".

Definition WinDivertEncodeDigit (dig : Z) (final : bool) : Z :=
  nth (Z.to_nat ((dig &&& 0x1F) + (if final then 32 else 0))) windivert_digits 0.

(** The mask of the digit after digit [dig]. *)
Definition next_mask (dig : nat) (mask : Z) : Z := if Nat.eqb dig 6 then 0x3E000000 else mask >>> 5.

(** The two loops of [WinDivertSerializeNumber]: skip the leading zeros,
    write the digits. *)
Fixpoint number_skip (dig : nat) (mask val : Z) : nat * Z :=
  match dig with
  | O => (O, mask)
  | S d => if (mask &&& val) =? 0 then number_skip d (next_mask dig mask) val else (dig, mask)
  end.

Fixpoint number_put (s : WINDIVERT_STREAM) (dig : nat) (mask val : Z) : WINDIVERT_STREAM :=
  let digit := u8 ((mask &&& val) >>> (5 * Z.of_nat dig)) in
  match dig with
  | O => WinDivertPutChar s (WinDivertEncodeDigit digit true)
  | S d => number_put (WinDivertPutChar s (WinDivertEncodeDigit digit false)) d (next_mask dig mask) val
  end.

Definition WinDivertSerializeNumber (s : WINDIVERT_STREAM) (val : Z) : WINDIVERT_STREAM :=
  let '(dig, mask) := number_skip 6 0xC0000000 val in number_put s dig mask val.

Definition WinDivertSerializeLabel (s : WINDIVERT_STREAM) (label : Z) : WINDIVERT_STREAM :=
  if label =? WINDIVERT_FILTER_RESULT_ACCEPT then WinDivertPutChar s 65        (* 'A' *)
  else if label =? WINDIVERT_FILTER_RESULT_REJECT then WinDivertPutChar s 88   (* 'X' *)
  else WinDivertSerializeNumber (WinDivertPutChar s 76) label.                 (* 'L' *)

(** How the words 1 to 3 of an argument are written. *)
Inductive arg_class : Set := ArgAddr | ArgWide | ArgIndex | ArgPlain.

Definition serial_class (f : FIELD) : arg_class :=
  match f with
  | FIELD_IPV6_SRCADDR | FIELD_IPV6_DSTADDR | FIELD_LOCALADDR | FIELD_REMOTEADDR => ArgAddr
  | FIELD_ENDPOINTID | FIELD_PARENTENDPOINTID | FIELD_TIMESTAMP => ArgWide
  | FIELD_PACKET | FIELD_PACKET16 | FIELD_PACKET32 | FIELD_TCP_PAYLOAD | FIELD_TCP_PAYLOAD16
  | FIELD_TCP_PAYLOAD32 | FIELD_UDP_PAYLOAD | FIELD_UDP_PAYLOAD16 | FIELD_UDP_PAYLOAD32 => ArgIndex
  | _ => ArgPlain
  end.

Definition UINT16_MAX : Z := 65535.

(** [idx += UINT16_MAX] on a signed 32-bit [idx] does not overflow. *)
Definition index_fits (i : WINDIVERT_FILTER) : bool :=
  match serial_class (field i) with
  | ArgIndex => i32 (w1 (arg i)) + UINT16_MAX <? 2 ^ 31
  | _ => true
  end.

(** [None] is the signed overflow of an array index. *)
Definition WinDivertSerializeTest (s : WINDIVERT_STREAM) (i : WINDIVERT_FILTER) : option WINDIVERT_STREAM :=
  let s := WinDivertPutChar s 95 in                                            (* '_' *)
  let s := WinDivertSerializeNumber s (field_code (field i)) in
  let s := WinDivertSerializeNumber s (test_code (test i)) in
  let s := WinDivertSerializeNumber s (b2z (neg i)) in
  let s := WinDivertSerializeNumber s (w0 (arg i)) in
  let s :=
    match serial_class (field i) with
    | ArgAddr =>
      WinDivertSerializeNumber
        (WinDivertSerializeNumber (WinDivertSerializeNumber s (w1 (arg i))) (w2 (arg i))) (w3 (arg i))
    | ArgWide => WinDivertSerializeNumber s (w1 (arg i))
    | ArgIndex => WinDivertSerializeNumber s (u32 (i32 (w1 (arg i)) + UINT16_MAX))
    | ArgPlain => s
    end in
  if index_fits i then
    Some (WinDivertSerializeLabel (WinDivertSerializeLabel s (u16 (success i))) (u16 (failure i)))
  else None.

Fixpoint serialize_each (s : WINDIVERT_STREAM) (filter : list WINDIVERT_FILTER) : option WINDIVERT_STREAM :=
  match filter with
  | [] => Some s
  | i :: filter => match WinDivertSerializeTest s i with Some s => serialize_each s filter | None => None end
  end.

(** The length is passed as a [UINT8]. *)
Definition WinDivertSerializeFilter (s : WINDIVERT_STREAM) (filter : list WINDIVERT_FILTER)
    : option WINDIVERT_STREAM :=
  let length := u8 (zlen filter) in
  let s := WinDivertPutString s (chars "@WinDiv_") in
  let s := WinDivertSerializeNumber s 0 in
  let s := WinDivertSerializeNumber s length in
  option_map WinDivertPutNul (serialize_each s (firstn (Z.to_nat length) filter)).

(** Return value and the bytes written; [None] is undefined behaviour. *)
Definition wd_filter_serialize (f : wd_filter) (buflen : Z) : option (Z * list Z) :=
  match WinDivertSerializeFilter (mkStream [] buflen false) (wf_object f) with
  | None => None
  | Some s => Some (if s_overflow s then - ENOSPC else zlen (s_out s), s_out s)
  end.

(** ** Reading *)

(** The characters left; past the end every read gives [EOF]. *)
Definition WinDivertGetChar (s : list Z) : Z * list Z :=
  match s with [] => (EOF, []) | c :: s => (c, s) end.

Definition between (lo c hi : Z) : bool := (lo <=? c) && (c <=? hi).

(** Digit and [final]. *)
Definition WinDivertDecodeDigit (c : Z) : option (Z * bool) :=
  if between 48 c 57 then Some (c - 48, false)              (* '0'..'9' *)
  else if between 65 c 86 then Some (c - 65 + 10, false)    (* 'A'..'V' *)
  else if between 87 c 90 then Some (c - 87, true)          (* 'W'..'Z' *)
  else if between 97 c 122 then Some (c - 97 + 4, true)     (* 'a'..'z' *)
  else if c =? 43 then Some (30, true)                      (* '+' *)
  else if c =? 61 then Some (31, true)                      (* '=' *)
  else None.

(** The loop with the value so far, at most [max_len] digits. *)
Fixpoint number_get (max_len : nat) (val : Z) (s : list Z) : option (Z * list Z) :=
  match max_len with
  | O => None
  | S max_len =>
    if has val 0xF8000000 then None
    else
      let '(c, s) := WinDivertGetChar s in
      match WinDivertDecodeDigit c with
      | None => None
      | Some (digit, final) =>
        let val := u32 (u32 (val <<< 5) + digit) in
        if final then Some (val, s) else number_get max_len val s
      end
  end.

Definition WinDivertDeserializeNumber (max_len : nat) (s : list Z) : option (Z * list Z) :=
  number_get max_len 0 s.

Definition WinDivertDeserializeLabel (s : list Z) : option (Z * list Z) :=
  let '(c, s) := WinDivertGetChar s in
  if c =? 65 then Some (WINDIVERT_FILTER_RESULT_ACCEPT, s)
  else if c =? 88 then Some (WINDIVERT_FILTER_RESULT_REJECT, s)
  else if c =? 76 then
    match WinDivertDeserializeNumber 2 s with
    | Some (val, s) => if val >? WINDIVERT_FILTER_MAXLEN then None else Some (u16 val, s)
    | None => None
    end
  else None.

(** What reading a test or a filter comes to: a value, [FALSE], or a signed
    overflow. *)
Inductive reading (A : Type) : Type := ReadVal (a : A) | ReadFalse | ReadUndef.
Arguments ReadVal {A} a.
Arguments ReadFalse {A}.
Arguments ReadUndef {A}.

#[local] Notation "'let?' p := e 'in' k" :=
  (match e with Some p => k | None => ReadFalse end) (at level 10, p pattern, k at level 200).
#[local] Notation "'let!' p := e 'in' k" :=
  (match e with ReadVal p => k | ReadFalse => ReadFalse | ReadUndef => ReadUndef end) (at level 10, p pattern, k at level 200).

(** The words 1 to 3 of the argument; [(INT)val - UINT16_MAX] can overflow. *)
Definition deserialize_words (f : FIELD) (a0 : Z) (s : list Z) : reading (u128 * list Z) :=
  match f with
  | FIELD_IP_SRCADDR | FIELD_IP_DSTADDR => ReadVal (W128 a0 0x0000FFFF 0 0, s)
  | _ =>
    match serial_class f with
    | ArgAddr =>
      let? (a1, s) := WinDivertDeserializeNumber 7 s in
      let? (a2, s) := WinDivertDeserializeNumber 7 s in
      let? (a3, s) := WinDivertDeserializeNumber 7 s in
      ReadVal (W128 a0 a1 a2 a3, s)
    | ArgWide => let? (a1, s) := WinDivertDeserializeNumber 7 s in ReadVal (W128 a0 a1 0 0, s)
    | ArgIndex =>
      let? (val, s) := WinDivertDeserializeNumber 7 s in
      let idx := i32 val - UINT16_MAX in
      if idx <? - 2 ^ 31 then ReadUndef else ReadVal (W128 a0 (u32 idx) 0 0, s)
    | ArgPlain => ReadVal (W128 a0 0 0 0, s)
    end
  end.

Definition WinDivertDeserializeTest (s : list Z) : reading (WINDIVERT_FILTER * list Z) :=
  let '(c, s) := WinDivertGetChar s in
  if negb (c =? 95) then ReadFalse
  else
    let? (val, s) := WinDivertDeserializeNumber 2 s in
    let? f := field_of_code val in
    let? (val, s) := WinDivertDeserializeNumber 2 s in
    let? t := test_of_code val in
    let? (val, s) := WinDivertDeserializeNumber 1 s in
    if val >? 1 then ReadFalse
    else
      let? (a0, s) := WinDivertDeserializeNumber 7 s in
      let! (a, s) := deserialize_words f a0 s in
      let? (succ, s) := WinDivertDeserializeLabel s in
      let? (fail, s) := WinDivertDeserializeLabel s in
      ReadVal (mkFilter f t succ fail (negb (val =? 0)) a, s).

(** One character after the other, up to the first that differs. *)
Fixpoint expect (str : list Z) (s : list Z) : option (list Z) :=
  match str with
  | [] => Some s
  | x :: str => let '(c, s) := WinDivertGetChar s in if c =? x then expect str s else None
  end.

Definition WinDivertDeserializeFilterHeader (s : list Z) : reading (Z * list Z) :=
  let? s := expect (chars "@WinDiv_") s in
  let? (version, s) := WinDivertDeserializeNumber 4 s in
  if negb (version =? 0) then ReadFalse
  else
    let? (len, s) := WinDivertDeserializeNumber 2 s in
    if (len =? 0) || (len >? WINDIVERT_FILTER_MAXLEN) then ReadFalse else ReadVal (len, s).

(** The loop over the tests: [n] left, the next is number [i]. *)
Fixpoint deserialize_tests (n : nat) (i len : Z) (s : list Z) : reading (list WINDIVERT_FILTER * list Z) :=
  match n with
  | O => ReadVal ([], s)
  | S n =>
    let! (x, s) := WinDivertDeserializeTest s in
    if negb (jump_ok len i (success x)) || negb (jump_ok len i (failure x)) then ReadFalse
    else let! (l, s) := deserialize_tests n (i + 1) len s in ReadVal (x :: l, s)
  end.

Definition WinDivertDeserializeFilter (s : list Z) : reading (list WINDIVERT_FILTER) :=
  let! (len, s) := WinDivertDeserializeFilterHeader s in
  let! (l, s) := deserialize_tests (Z.to_nat len) 0 len s in
  let '(c, _) := WinDivertGetChar s in
  if c =? NUL then ReadVal l else ReadFalse.

(** ** What is written

    Each serializer appends a text that does not depend on the stream. *)

(** Digit number [d] of a value in base 32. *)
Definition digit_at (val : Z) (d : nat) : Z := (val / 32 ^ Z.of_nat d) mod 32.

(** The digits [d], .., 0. *)
Fixpoint digits_text (d : nat) (val : Z) : list Z :=
  match d with
  | O => [WinDivertEncodeDigit (digit_at val 0) true]
  | S d' => WinDivertEncodeDigit (digit_at val d) false :: digits_text d' val
  end.

Fixpoint top_digit (d : nat) (val : Z) : nat :=
  match d with
  | O => O
  | S d' => if digit_at val d =? 0 then top_digit d' val else d
  end.

Definition number_text (val : Z) : list Z := digits_text (top_digit 6 val) val.

Definition label_text (label : Z) : list Z :=
  if label =? WINDIVERT_FILTER_RESULT_ACCEPT then [65]
  else if label =? WINDIVERT_FILTER_RESULT_REJECT then [88]
  else 76 :: number_text label.

Definition words_text (i : WINDIVERT_FILTER) : list Z :=
  match serial_class (field i) with
  | ArgAddr => number_text (w1 (arg i)) ++ number_text (w2 (arg i)) ++ number_text (w3 (arg i))
  | ArgWide => number_text (w1 (arg i))
  | ArgIndex => number_text (u32 (i32 (w1 (arg i)) + UINT16_MAX))
  | ArgPlain => []
  end.

Definition test_text (i : WINDIVERT_FILTER) : list Z :=
  95 :: number_text (field_code (field i)) ++ number_text (test_code (test i)) ++
  number_text (b2z (neg i)) ++ number_text (w0 (arg i)) ++ words_text i ++
  label_text (success i) ++ label_text (failure i).

Definition filter_text (f : list WINDIVERT_FILTER) : list Z :=
  chars "@WinDiv_" ++ number_text 0 ++ number_text (zlen f) ++ concat (map test_text f).

(** Arguments as the reader restores them: the words a field does not write
    have their fixed value, and an index can be written. *)
Definition canonical_arg (f : FIELD) (a : u128) : bool :=
  match f with
  | FIELD_IP_SRCADDR | FIELD_IP_DSTADDR => (w1 a =? 0xFFFF) && (w2 a =? 0) && (w3 a =? 0)
  | _ =>
    match serial_class f with
    | ArgAddr => true
    | ArgWide | ArgIndex => (w2 a =? 0) && (w3 a =? 0)
    | ArgPlain => (w1 a =? 0) && (w2 a =? 0) && (w3 a =? 0)
    end
  end.

Definition canonical (i : WINDIVERT_FILTER) : bool := canonical_arg (field i) (arg i) && index_fits i.

(** *** Digits *)

Definition mask_of (d : nat) : Z := if Nat.eqb d 6 then 0xC0000000 else 31 <<< (5 * Z.of_nat d).

Lemma next_mask_of d : (d < 6)%nat -> next_mask (S d) (mask_of (S d)) = mask_of d.
Proof. intros H. do 6 (destruct d as [|d]; [reflexivity|]). lia. Qed.

Lemma land_shiftl_l m v k : 0 <= k -> (m <<< k) &&& v = (m &&& (v >>> k)) <<< k.
Proof.
  intros Hk. apply Z.bits_inj'. intros n Hn. rewrite Z.land_spec, !Z.shiftl_spec by assumption.
  destruct (Z.ltb_spec n k).
  - now rewrite (Z.testbit_neg_r m), (Z.testbit_neg_r (m &&& _)) by lia.
  - rewrite Z.land_spec, Z.shiftr_spec by lia. now rewrite Z.sub_add.
Qed.

(** The masked word is the digit at its place. *)
Lemma masked_word d val : (d <= 6)%nat -> 0 <= val < 2 ^ 32 ->
  mask_of d &&& val = digit_at val d <<< (5 * Z.of_nat d).
Proof.
  intros Hd Hv. unfold digit_at, mask_of.
  replace (32 ^ Z.of_nat d) with (2 ^ (5 * Z.of_nat d))
    by (rewrite Z.pow_mul_r by lia; reflexivity).
  destruct (Nat.eqb d 6) eqn:E.
  - apply Nat.eqb_eq in E. subst d. change (5 * Z.of_nat 6) with 30.
    change 0xC0000000 with (Z.ones 2 <<< 30).
    assert (0 <= val / 2 ^ 30 < 4)
      by (split; [apply Z.div_pos|apply Z.div_lt_upper_bound]; lia).
    rewrite land_shiftl_l, Z.land_comm, Z.land_ones, Z.shiftr_div_pow2 by lia.
    now rewrite !Z.mod_small by lia.
  - change 31 with (Z.ones 5).
    now rewrite land_shiftl_l, Z.land_comm, Z.land_ones, Z.shiftr_div_pow2 by lia.
Qed.

Lemma masked_digit d val : (d <= 6)%nat -> 0 <= val < 2 ^ 32 ->
  (mask_of d &&& val) >>> (5 * Z.of_nat d) = digit_at val d.
Proof.
  intros Hd Hv. rewrite masked_word by assumption.
  rewrite Z.shiftr_shiftl_l by lia. now rewrite Z.sub_diag.
Qed.

Lemma masked_zero d val : (d <= 6)%nat -> 0 <= val < 2 ^ 32 ->
  ((mask_of d &&& val) =? 0) = (digit_at val d =? 0).
Proof.
  intros Hd Hv. rewrite masked_word by assumption. rewrite Z.shiftl_mul_pow2 by lia.
  apply eq_true_iff_eq. rewrite !Z.eqb_eq. split; [|intros ->; lia].
  pose proof (Z.pow_pos_nonneg 2 (5 * Z.of_nat d)). nia.
Qed.

Lemma number_skip_spec val : 0 <= val < 2 ^ 32 -> forall d, (d <= 6)%nat ->
  number_skip d (mask_of d) val = (top_digit d val, mask_of (top_digit d val)).
Proof.
  intros Hv. induction d as [|d IH]; intros Hd; cbn [number_skip top_digit]; [reflexivity|].
  rewrite masked_zero by (assumption || lia). case_if; [|reflexivity].
  rewrite next_mask_of by lia. apply IH. lia.
Qed.

Lemma digit_at_range val d : 0 <= digit_at val d < 32.
Proof. unfold digit_at. apply Z.mod_pos_bound. lia. Qed.

Lemma number_put_spec val : 0 <= val < 2 ^ 32 -> forall d s, (d <= 6)%nat ->
  number_put s d (mask_of d) val = WinDivertPutString s (digits_text d val).
Proof.
  intros Hv. unfold WinDivertPutString.
  induction d as [|d IH]; intros s Hd; cbn [number_put digits_text fold_left];
    rewrite masked_digit by (assumption || lia);
    pose proof (digit_at_range val) as Hr; unfold u8.
  - now rewrite Z.mod_small by (specialize (Hr 0%nat); lia).
  - rewrite Z.mod_small by (specialize (Hr (S d)); lia).
    rewrite next_mask_of by lia. apply IH. lia.
Qed.

Lemma top_digit_le val : forall d, (top_digit d val <= d)%nat.
Proof. induction d as [|d IH]; cbn [top_digit]; [lia|]. case_if; lia. Qed.

Lemma serialize_number s val : 0 <= val < 2 ^ 32 ->
  WinDivertSerializeNumber s val = WinDivertPutString s (number_text val).
Proof.
  intros Hv. unfold WinDivertSerializeNumber. change 0xC0000000 with (mask_of 6).
  rewrite number_skip_spec by (assumption || lia).
  apply number_put_spec; [assumption|]. apply top_digit_le.
Qed.

(** *** Texts *)

Lemma put_string_app s a b : WinDivertPutString s (a ++ b) = WinDivertPutString (WinDivertPutString s a) b.
Proof. apply fold_left_app. Qed.

Lemma put_char s c : WinDivertPutChar s c = WinDivertPutString s [c].
Proof. reflexivity. Qed.

Lemma serialize_label s t : 0 <= t < 2 ^ 16 ->
  WinDivertSerializeLabel s t = WinDivertPutString s (label_text t).
Proof.
  intros Ht. unfold WinDivertSerializeLabel, label_text.
  case_if; [reflexivity|]. case_if; [reflexivity|].
  rewrite serialize_number by lia. reflexivity.
Qed.

Lemma codes_range f t : 0 <= field_code f < 1024 /\ 0 <= test_code t < 1024.
Proof. split; [destruct f|destruct t]; vm_compute; split; congruence. Qed.

Lemma jump_range n i t : jump_ok n i t = true -> n <= WINDIVERT_FILTER_MAXLEN -> 0 <= i ->
  u16 t = t /\ 0 <= t < 2 ^ 16.
Proof.
  intros H Hn Hi. destruct (jump_ok_cases _ _ _ H Hn Hi) as [E _].
  split; [exact E|]. rewrite <- E. unfold u16. apply Z.mod_pos_bound. lia.
Qed.

Section Insn.
Variables (l : WINDIVERT_LAYER) (n k : Z) (i : WINDIVERT_FILTER).
Hypothesis Hok : insn_ok l n k i = true.
Hypothesis Hn : n <= WINDIVERT_FILTER_MAXLEN.
Hypothesis Hk : 0 <= k.

Lemma insn_words : 0 <= w0 (arg i) < 2 ^ 32 /\ 0 <= w1 (arg i) < 2 ^ 32 /\
  0 <= w2 (arg i) < 2 ^ 32 /\ 0 <= w3 (arg i) < 2 ^ 32.
Proof using Hok. unfold insn_ok, arg_ok, word_ok in Hok. b2p. lia. Qed.

Lemma insn_jumps : jump_ok n k (success i) = true /\ jump_ok n k (failure i) = true.
Proof using Hok. unfold insn_ok in Hok. rewrite !andb_true_iff in Hok. tauto. Qed.

Lemma serialize_test s : index_fits i = true -> WinDivertSerializeTest s i = Some (WinDivertPutString s (test_text i)).
Proof using Hok Hn Hk.
  intros Hx.
  destruct insn_words as (H0 & H1 & H2 & H3). destruct insn_jumps as [Hs Hf].
  destruct (jump_range _ _ _ Hs Hn Hk) as [Es Rs]. destruct (jump_range _ _ _ Hf Hn Hk) as [Ef Rf].
  pose proof (codes_range (field i) (test i)). pose proof (b2z_range (neg i)).
  unfold WinDivertSerializeTest, test_text, words_text. cbv zeta. rewrite Hx. f_equal.
  rewrite Es, Ef, !serialize_label by assumption.
  change (95 :: ?t) with ([95] ++ t). rewrite !put_string_app, <- put_char.
  rewrite !(serialize_number _ (field_code _)), !(serialize_number _ (test_code _)),
    !(serialize_number _ (b2z _)), !(serialize_number _ (w0 _)) by lia.
  destruct (serial_class (field i)); rewrite ?put_string_app, ?serialize_number; try reflexivity;
    try assumption.
  apply Z.mod_pos_bound. lia.
Qed.

End Insn.

Lemma serialize_tests l n : n <= WINDIVERT_FILTER_MAXLEN -> forall f k s, 0 <= k -> insns_ok l n k f = true ->
  forallb index_fits f = true ->
  serialize_each s f = Some (WinDivertPutString s (concat (map test_text f))).
Proof.
  intros Hn. induction f as [|x f IH]; intros k s Hk H Hi; [reflexivity|].
  cbn [insns_ok forallb] in H, Hi. apply andb_true_iff in H, Hi. destruct H as [Hx Hf], Hi as [Ix If].
  cbn [serialize_each map concat]. rewrite put_string_app, (serialize_test _ _ _ _ Hx) by assumption.
  apply (IH (k + 1)); [lia|assumption..].
Qed.

Lemma canonical_fits f : forallb canonical f = true -> forallb index_fits f = true.
Proof.
  rewrite !forallb_forall. intros H x Hx. specialize (H x Hx). unfold canonical in H.
  apply andb_true_iff in H. apply H.
Qed.

Lemma serialize_filter l f s : wf_filter l f = true -> zlen f <= 255 -> forallb index_fits f = true ->
  WinDivertSerializeFilter s f = Some (WinDivertPutNul (WinDivertPutString s (filter_text f))).
Proof.
  intros Hf Hl Hi. unfold wf_filter in Hf. rewrite !andb_true_iff in Hf. destruct Hf as [[H1 H2] Hf].
  b2p. unfold WinDivertSerializeFilter, filter_text, u8. rewrite Z.mod_small by lia.
  rewrite firstn_all2 by (unfold zlen; lia).
  rewrite !serialize_number by lia. rewrite !put_string_app.
  now rewrite (serialize_tests l (zlen f) H2 f 0 _ ltac:(lia) Hf Hi).
Qed.

(** A string goes in up to the end of the buffer. *)
Lemma put_string_spec : forall str out max o, zlen out <= max ->
  WinDivertPutString (mkStream out max o) str =
  mkStream (out ++ firstn (Z.to_nat (max - zlen out)) str) max (o || (zlen out + zlen str >? max)).
Proof.
  unfold WinDivertPutString.
  induction str as [|c str IH]; intros out max o H; cbn [fold_left].
  - rewrite firstn_nil, app_nil_r. rewrite zlen_nil, Z.add_0_r.
    replace (zlen out >? max) with false by lia. now rewrite orb_false_r.
  - unfold WinDivertPutChar at 2. cbn [s_out s_max s_overflow]. rewrite zlen_cons. case_if.
    + replace (max - zlen out) with 0 by lia. cbn [Z.to_nat firstn]. rewrite app_nil_r.
      rewrite IH by assumption. replace (max - zlen out) with 0 by lia. cbn [Z.to_nat firstn].
      rewrite app_nil_r. pose proof (zlen_nonneg str).
      replace (zlen out + (1 + zlen str) >? max) with true by lia. now rewrite orb_true_r.
    + rewrite IH by (rewrite zlen_app, zlen_cons, zlen_nil; lia).
      rewrite zlen_app, zlen_cons, zlen_nil. rewrite <- app_assoc.
      replace (Z.to_nat (max - zlen out)) with (S (Z.to_nat (max - (zlen out + (1 + 0))))) by lia.
      cbn [firstn app]. do 2 f_equal. lia.
Qed.

(** *** Reading what was written *)

Lemma decode_encode dig final : 0 <= dig < 32 ->
  WinDivertDecodeDigit (WinDivertEncodeDigit dig final) = Some (dig, final).
Proof.
  intros H. replace dig with (Z.of_nat (Z.to_nat dig)) by lia.
  assert (Hn : (Z.to_nat dig < 32)%nat) by lia. revert Hn. generalize (Z.to_nat dig) as n. intros n Hn.
  do 32 (destruct n as [|n]; [destruct final; reflexivity|]). lia.
Qed.

Lemma digit_step val d : 0 <= val ->
  val / 32 ^ Z.of_nat (S d) * 32 + digit_at val d = val / 32 ^ Z.of_nat d.
Proof.
  intros Hv. unfold digit_at. rewrite Nat2Z.inj_succ, Z.pow_succ_r by lia.
  pose proof (Z.pow_pos_nonneg 32 (Z.of_nat d) ltac:(lia) ltac:(lia)).
  rewrite (Z.mul_comm 32), <- Z.div_div by lia.
  pose proof (Z.div_mod (val / 32 ^ Z.of_nat d) 32 ltac:(lia)). lia.
Qed.

Lemma no_overflow_bits val : 0 <= val < 2 ^ 27 -> has val 0xF8000000 = false.
Proof.
  intros H. unfold has. change 0xF8000000 with (Z.ones 5 <<< 27).
  rewrite Z.land_comm, land_shiftl_l by lia.
  rewrite (Z.shiftr_div_pow2 val), Z.div_small by lia.
  now rewrite Z.land_0_r.
Qed.

(** One round reads one digit. *)
Lemma number_get_digit val d final max s : 0 <= val < 2 ^ 32 ->
  number_get (S max) (val / 32 ^ Z.of_nat (S d)) (WinDivertEncodeDigit (digit_at val d) final :: s) =
  if final then Some (val / 32 ^ Z.of_nat d, s) else number_get max (val / 32 ^ Z.of_nat d) s.
Proof.
  intros Hv. cbn [number_get WinDivertGetChar].
  pose proof (digit_at_range val d) as Hr. rewrite decode_encode by exact Hr.
  pose proof (digit_step val d ltac:(lia)) as Hs.
  assert (Hb : 0 <= val / 32 ^ Z.of_nat d < 2 ^ 32).
  { pose proof (Z.pow_pos_nonneg 32 (Z.of_nat d) ltac:(lia) ltac:(lia)).
    split; [apply Z.div_pos; lia|]. apply Z.div_lt_upper_bound; [lia|]. nia. }
  rewrite no_overflow_bits by lia.
  rewrite Z.shiftl_mul_pow2 by lia. change (2 ^ 5) with 32. unfold u32.
  rewrite (Z.mod_small (_ * 32)) by lia. rewrite Hs, Z.mod_small by exact Hb.
  reflexivity.
Qed.

(** The loop from digit [d] on, the digits before it read. *)
Lemma number_get_digits val rest : 0 <= val < 2 ^ 32 -> forall d max, (d < max)%nat ->
  number_get max (val / 32 ^ Z.of_nat (S d)) (digits_text d val ++ rest) = Some (val, rest).
Proof.
  intros Hv. induction d as [|d IH]; intros max Hd; (destruct max as [|max]; [lia|]);
    cbn [digits_text app]; rewrite number_get_digit by exact Hv.
  - change (32 ^ Z.of_nat 0) with 1. now rewrite Z.div_1_r.
  - apply IH. lia.
Qed.

(** The digits above the first one written are zero; it is not, unless it is
    the last. *)
Lemma top_digit_spec val : 0 <= val -> forall d, val < 32 ^ Z.of_nat (S d) ->
  val / 32 ^ Z.of_nat (S (top_digit d val)) = 0 /\
  (top_digit d val = O \/ 32 ^ Z.of_nat (top_digit d val) <= val).
Proof.
  intros Hv. induction d as [|d IH]; intros Hd; cbn [top_digit].
  - split; [apply Z.div_small; lia|now left].
  - pose proof (digit_step val (S d) Hv) as Hs. rewrite (Z.div_small val _ (conj Hv Hd)) in Hs.
    pose proof (Z.pow_pos_nonneg 32 (Z.of_nat (S d)) ltac:(lia) ltac:(lia)).
    case_if; b2p.
    + apply IH. assert (Hz : val / 32 ^ Z.of_nat (S d) = 0) by lia.
      apply Z.div_small_iff in Hz as [?|?]; lia.
    + split; [apply Z.div_small; lia|right].
      destruct (Z.le_gt_cases (32 ^ Z.of_nat (S d)) val) as [Hc|Hc]; [exact Hc|].
      rewrite (Z.div_small val (32 ^ Z.of_nat (S d))) in Hs by lia. lia.
Qed.

Lemma deserialize_number val max rest : (1 <= max <= 7)%nat -> 0 <= val < 2 ^ 32 ->
  val < 32 ^ Z.of_nat max ->
  WinDivertDeserializeNumber max (number_text val ++ rest) = Some (val, rest).
Proof.
  intros Hm Hv Hs. unfold WinDivertDeserializeNumber, number_text.
  destruct (top_digit_spec val ltac:(lia) 6) as [E T];
    [change (32 ^ Z.of_nat 7) with (2 ^ 35); lia|].
  rewrite <- E at 1. apply number_get_digits; [exact Hv|].
  destruct T as [->|T]; [lia|].
  destruct (Nat.ltb_spec (top_digit 6 val) max) as [Hl|Hl]; [exact Hl|].
  pose proof (Z.pow_le_mono_r 32 (Z.of_nat max) (Z.of_nat (top_digit 6 val)) ltac:(lia) ltac:(lia)). lia.
Qed.

Lemma deserialize_label n i t rest : jump_ok n i t = true -> n <= WINDIVERT_FILTER_MAXLEN -> 0 <= i ->
  WinDivertDeserializeLabel (label_text t ++ rest) = Some (t, rest).
Proof.
  intros H Hn Hi. destruct (jump_ok_cases _ _ _ H Hn Hi) as [Et Hc].
  unfold WINDIVERT_FILTER_MAXLEN in Hn. unfold label_text.
  case_if; [b2p; subst; reflexivity|]. case_if; [b2p; subst; reflexivity|]. b2p.
  destruct Hc as [?|[?|(_ & _ & Hc)]]; [congruence..|].
  unfold WinDivertDeserializeLabel. cbn [app WinDivertGetChar Z.eqb Pos.eqb].
  rewrite deserialize_number by (try change (32 ^ Z.of_nat 2) with 1024; lia).
  unfold WINDIVERT_FILTER_MAXLEN. replace (t >? 256) with false by lia. now rewrite Et.
Qed.

(** An index comes back, without overflow. *)
Lemma index_back w : 0 <= w < 2 ^ 32 -> i32 w + UINT16_MAX < 2 ^ 31 ->
  let idx := i32 (u32 (i32 w + UINT16_MAX)) - UINT16_MAX in (idx <? - 2 ^ 31) = false /\ u32 idx = w.
Proof.
  unfold i32, u32, UINT16_MAX. intros H F.
  repeat match goal with |- context [if ?b then _ else _] => destruct b eqn:?
         | H : context [if ?b then _ else _] |- _ => destruct b eqn:? end; b2p;
    Z.to_euclidean_division_equations; lia.
Qed.

Lemma deserialize_words_text i rest : canonical i = true -> arg_ok (arg i) = true ->
  deserialize_words (field i) (w0 (arg i)) (words_text i ++ rest) = ReadVal (arg i, rest).
Proof.
  destruct i as [f t sc fl ng [a0 a1 a2 a3]].
  unfold canonical, canonical_arg, index_fits, arg_ok, word_ok, words_text, deserialize_words.
  cbn [field arg w0 w1 w2 w3]. intros Hc Ha. apply andb_true_iff in Hc. destruct Hc as [Hc Hi]. rewrite !andb_true_iff, !Z.leb_le, !Z.ltb_lt in Ha.
  assert (N : forall v s, 0 <= v < 2 ^ 32 ->
    WinDivertDeserializeNumber 7 (number_text v ++ s) = Some (v, s)).
  { intros v s Hv. apply deserialize_number; [lia|exact Hv|]. change (32 ^ Z.of_nat 7) with (2 ^ 35). lia. }
  destruct f; cbn [serial_class] in Hc, Hi |- *; b2p; subst; cbn [app];
    rewrite <- ?app_assoc, ?N by (try apply Z.mod_pos_bound; lia); try reflexivity.
  all: destruct (index_back a1) as [-> ->]; [lia|lia|reflexivity].
Qed.

Lemma deserialize_test l n k i rest : insn_ok l n k i = true -> canonical i = true ->
  n <= WINDIVERT_FILTER_MAXLEN -> 0 <= k ->
  WinDivertDeserializeTest (test_text i ++ rest) = ReadVal (i, rest).
Proof.
  intros Hok Hc Hn Hk. destruct (insn_words _ _ _ _ Hok) as (H0 & _).
  destruct (insn_jumps _ _ _ _ Hok) as [Hs Hf].
  pose proof (codes_range (field i) (test i)). pose proof (b2z_range (neg i)).
  unfold WinDivertDeserializeTest, test_text. cbn [app WinDivertGetChar Z.eqb Pos.eqb negb].
  rewrite <- !app_assoc.
  rewrite deserialize_number by (try change (32 ^ Z.of_nat 2) with 1024; lia).
  rewrite field_of_code_code.
  rewrite deserialize_number by (try change (32 ^ Z.of_nat 2) with 1024; lia).
  rewrite test_of_code_code.
  rewrite deserialize_number by (try change (32 ^ Z.of_nat 1) with 32; lia).
  replace (b2z (neg i) >? 1) with false by lia.
  rewrite deserialize_number by (try change (32 ^ Z.of_nat 7) with (2 ^ 35); lia).
  rewrite deserialize_words_text; [|exact Hc|unfold insn_ok in Hok; b2p; assumption].
  rewrite (deserialize_label n k), (deserialize_label n k) by assumption.
  destruct i as [f t s fl [|] a]; reflexivity.
Qed.

Lemma deserialize_tests_text l n rest : n <= WINDIVERT_FILTER_MAXLEN -> forall f k, 0 <= k ->
  insns_ok l n k f = true -> forallb canonical f = true ->
  deserialize_tests (List.length f) k n (concat (map test_text f) ++ rest) = ReadVal (f, rest).
Proof.
  intros Hn. induction f as [|x f IH]; intros k Hk Hok Hc; [reflexivity|].
  cbn [insns_ok forallb] in Hok, Hc. apply andb_true_iff in Hok, Hc.
  destruct Hok as [Hx Hf]. destruct Hc as [Hcx Hcf]. destruct (insn_jumps _ _ _ _ Hx) as [Hs Hl].
  cbn [List.length deserialize_tests map concat]. rewrite <- app_assoc.
  rewrite (deserialize_test l n k) by assumption. rewrite Hs, Hl. cbn [negb orb].
  now rewrite IH by (lia || assumption).
Qed.

Lemma expect_app str rest : expect str (str ++ rest) = Some rest.
Proof.
  induction str as [|c str IH]; [reflexivity|]. cbn [expect app WinDivertGetChar].
  now rewrite Z.eqb_refl.
Qed.

Lemma deserialize_filter_text l f : wf_filter l f = true -> forallb canonical f = true ->
  WinDivertDeserializeFilter (filter_text f ++ [NUL]) = ReadVal f.
Proof.
  intros Hf Hc. unfold wf_filter in Hf. rewrite !andb_true_iff in Hf. destruct Hf as [[H1 H2] Hf].
  b2p. unfold WinDivertDeserializeFilter, WinDivertDeserializeFilterHeader, filter_text.
  rewrite <- !app_assoc, expect_app.
  pose proof H2 as H2'. unfold WINDIVERT_FILTER_MAXLEN in H2'.
  rewrite deserialize_number by (try change (32 ^ Z.of_nat 4) with (2 ^ 20); lia). cbn [Z.eqb negb].
  rewrite deserialize_number by (try change (32 ^ Z.of_nat 2) with 1024; lia).
  unfold WINDIVERT_FILTER_MAXLEN. replace ((zlen f =? 0) || (zlen f >? 256)) with false by lia.
  unfold zlen at 1. rewrite Nat2Z.id.
  now rewrite (deserialize_tests_text l) by (lia || assumption).
Qed.

(** *** What the reader accepts *)

Lemma number_get_range max : forall val s r s', number_get max val s = Some (r, s') -> 0 <= r < 2 ^ 32.
Proof.
  induction max as [|max IH]; intros val s r s'; cbn [number_get]; [discriminate|].
  case_if; [discriminate|]. destruct (WinDivertGetChar s) as [c s1].
  destruct (WinDivertDecodeDigit c) as [[dig [|]]|]; [|apply IH|discriminate].
  intros [= <- _]. apply Z.mod_pos_bound. lia.
Qed.

(** Takes the reading of one number, label or word list in [H] apart. *)
Ltac read_step H :=
  match type of H with
  | match WinDivertDeserializeNumber ?m ?s with _ => _ end = ReadVal _ =>
    let E := fresh "E" in
    destruct (WinDivertDeserializeNumber m s) as [[? ?]|] eqn:E; [|discriminate H];
    apply number_get_range in E
  | match deserialize_words ?f ?a ?s with _ => _ end = ReadVal _ =>
    destruct (deserialize_words f a s) as [[? ?]| |] eqn:?; [|discriminate H..]
  | match ?e with _ => _ end = ReadVal _ =>
    lazymatch type of e with option _ => destruct e as [[? ?]|] eqn:?; [|discriminate H] end
  end.

Lemma index_read v : 0 <= v < 2 ^ 32 -> (i32 v - UINT16_MAX <? - 2 ^ 31) = false ->
  i32 (u32 (i32 v - UINT16_MAX)) + UINT16_MAX < 2 ^ 31.
Proof.
  unfold i32, u32, UINT16_MAX. intros H F.
  repeat match goal with |- context [if ?b then _ else _] => destruct b eqn:?
         | H : context [if ?b then _ else _] |- _ => destruct b eqn:? end; b2p;
    Z.to_euclidean_division_equations; lia.
Qed.

Lemma deserialize_words_ok f a0 s a s' : word_ok a0 = true -> deserialize_words f a0 s = ReadVal (a, s') ->
  arg_ok a = true /\ canonical_arg f a = true /\ forall t sc fl ng, index_fits (mkFilter f t sc fl ng a) = true.
Proof.
  intros H0 H.
  assert (W : forall z, 0 <= z < 2 ^ 32 -> word_ok z = true) by (intros z Hz; unfold word_ok; lia).
  assert (U : forall z, word_ok (u32 z) = true) by (intros z; apply W, Z.mod_pos_bound; lia).
  destruct f; cbn [serial_class deserialize_words] in H; repeat read_step H; cbv zeta in H;
    try (case_if_in H; [discriminate H|]); injection H as <- _;
    unfold arg_ok, index_fits; cbn [w0 w1 w2 w3 canonical_arg serial_class field arg]; rewrite H0, ?U, ?W by assumption;
    repeat split; intros; apply Z.ltb_lt, index_read; assumption.
Qed.

Lemma deserialize_test_ok s i s' : WinDivertDeserializeTest s = ReadVal (i, s') ->
  arg_ok (arg i) = true /\ canonical i = true.
Proof.
  unfold WinDivertDeserializeTest. destruct (WinDivertGetChar s) as [c s0]. case_if; [discriminate|].
  intros H. read_step H. destruct (field_of_code z) as [f|]; [|discriminate H].
  read_step H. destruct (test_of_code z0) as [t|]; [|discriminate H].
  read_step H. case_if_in H; [discriminate H|]. read_step H. read_step H.
  do 2 read_step H. injection H as <- _. unfold canonical. cbn [arg field].
  match goal with D : deserialize_words _ _ _ = _ |- _ => apply deserialize_words_ok in D; [|unfold word_ok; lia] end.
  rewrite andb_true_iff. intuition auto.
Qed.

Lemma deserialize_tests_ok l len : forall n k s f s', deserialize_tests n k len s = ReadVal (f, s') ->
  forallb (fun i => WinDivertValidateField l (field i)) f = true ->
  List.length f = n /\ insns_ok l len k f = true /\ forallb canonical f = true.
Proof.
  induction n as [|n IH]; intros k s f s' H Hv; cbn [deserialize_tests] in H.
  - injection H as <- _. auto.
  - destruct (WinDivertDeserializeTest s) as [[x s1]| |] eqn:Ex; [|discriminate H..].
    destruct (negb (jump_ok len k (success x))) eqn:Es; cbn [orb] in H; [discriminate H|].
    destruct (negb (jump_ok len k (failure x))) eqn:Ef; [discriminate H|].
    destruct (deserialize_tests n (k + 1) len s1) as [[r s2]| |] eqn:Er; [|discriminate H..].
    injection H as <- _. cbn [forallb] in Hv. apply andb_true_iff in Hv. destruct Hv as [Hx Hr].
    destruct (IH _ _ _ _ Er Hr) as (H1 & H2 & H3). destruct (deserialize_test_ok _ _ _ Ex) as [H4 H5].
    apply negb_false_iff in Es, Ef. cbn [List.length insns_ok forallb]. unfold insn_ok.
    rewrite Hx, Es, Ef, H2, H3, H4, H5, H1. auto.
Qed.

Lemma deserialize_tests_fit len : forall n k s f s', deserialize_tests n k len s = ReadVal (f, s') ->
  forallb index_fits f = true.
Proof.
  induction n as [|n IH]; intros k s f s' H; cbn [deserialize_tests] in H; [now injection H as <- _|].
  destruct (WinDivertDeserializeTest s) as [[x s1]| |] eqn:Ex; [|discriminate H..].
  case_if_in H; [discriminate H|].
  destruct (deserialize_tests n (k + 1) len s1) as [[r s2]| |] eqn:Er; [|discriminate H..].
  injection H as <- _. cbn [forallb]. rewrite (IH _ _ _ _ Er), andb_true_r.
  destruct (deserialize_test_ok _ _ _ Ex) as [_ C]. unfold canonical in C. b2p. assumption.
Qed.

(** The text in a buffer with room for it. *)
Lemma serialize_fits f buflen : wf_filter (wf_layer f) (wf_object f) = true ->
  forallb index_fits (wf_object f) = true ->
  zlen (wf_object f) <= 255 -> zlen (filter_text (wf_object f)) < buflen ->
  wd_filter_serialize f buflen =
  Some (zlen (filter_text (wf_object f)) + 1, filter_text (wf_object f) ++ [NUL]).
Proof.
  intros Hf Hi Hl Hb. unfold wd_filter_serialize.
  rewrite (serialize_filter (wf_layer f)) by assumption.
  pose proof (zlen_nonneg (filter_text (wf_object f))).
  rewrite put_string_spec by (rewrite zlen_nil; lia). rewrite zlen_nil. cbn [app orb].
  rewrite firstn_all2 by (unfold zlen in *; lia).
  unfold WinDivertPutNul, WinDivertPutChar. cbn [s_out s_max s_overflow].
  replace (zlen (filter_text (wf_object f)) >=? buflen) with false by lia. cbn [andb].
  replace (0 + zlen (filter_text (wf_object f)) >? buflen) with false by lia.
  cbn [s_overflow s_out]. rewrite zlen_app. reflexivity.
Qed.

(** ** Theorems *)

(** C33. Serialization round trip: [wd_filter_serialize] writes a text for a
    well-formed filter of at most 255 tests into a buffer with room for it,
    without signed overflow, and [WinDivertDeserializeFilter] reads it back
    as the same object, again without overflow; the value returned is the
    number of bytes written, the terminating NUL included.  The arguments
    must be canonical: the words the text does not carry have their fixed
    values, and an array index is at most 2^31 - 65536. *)
Theorem serialize_roundtrip f buflen :
  wf_filter (wf_layer f) (wf_object f) = true -> forallb canonical (wf_object f) = true ->
  zlen (wf_object f) <= 255 -> zlen (filter_text (wf_object f)) < buflen ->
  exists r text, wd_filter_serialize f buflen = Some (r, text) /\
  r = zlen text /\ WinDivertDeserializeFilter text = ReadVal (wf_object f).
Proof.
  intros Hf Hc Hl Hb. rewrite serialize_fits by (try assumption; now apply canonical_fits). do 2 eexists.
  split; [reflexivity|]. split; [now rewrite zlen_app|]. now apply (deserialize_filter_text (wf_layer f)).
Qed.

(** A text longer than the buffer is reported: [wd_filter_serialize]
    returns [-ENOSPC], and never writes past [buflen] bytes. *)
Theorem serialize_overflow f buflen :
  wf_filter (wf_layer f) (wf_object f) = true -> forallb index_fits (wf_object f) = true ->
  zlen (wf_object f) <= 255 -> 0 <= buflen < zlen (filter_text (wf_object f)) ->
  exists text, wd_filter_serialize f buflen = Some (- ENOSPC, text) /\ zlen text <= buflen.
Proof.
  intros Hf Hi Hl Hb. unfold wd_filter_serialize.
  rewrite (serialize_filter (wf_layer f)) by assumption.
  rewrite put_string_spec by (rewrite zlen_nil; lia). rewrite zlen_nil. cbn [app orb].
  replace (0 + zlen (filter_text (wf_object f)) >? buflen) with true by lia.
  unfold WinDivertPutNul, WinDivertPutChar. cbn [s_out s_max s_overflow].
  assert (E : zlen (firstn (Z.to_nat (buflen - 0)) (filter_text (wf_object f))) = buflen).
  { unfold zlen in *. rewrite length_firstn. lia. }
  rewrite E. replace (buflen >=? buflen) with true by lia. cbn [andb].
  destruct (buflen >? 0); cbn [s_overflow s_out]; (eexists; split; [reflexivity|]).
  - unfold zlen in *. rewrite set_nth_length. lia.
  - lia.
Qed.

(** C34. Whatever the text, an object the reader accepts is a well-formed
    filter once its fields belong to the layer: 1 to 256 tests, every jump
    forward and inside the object, every word 32 bits, the argument words the
    text does not carry at their fixed values, and every array index in the
    range that can be written again. *)
Theorem deserialize_wf l s f : WinDivertDeserializeFilter s = ReadVal f ->
  forallb (fun i => WinDivertValidateField l (field i)) f = true ->
  wf_filter l f = true /\ forallb canonical f = true.
Proof.
  unfold WinDivertDeserializeFilter, WinDivertDeserializeFilterHeader. intros H Hv.
  destruct (expect _ s) as [s0|]; [|discriminate H].
  destruct (WinDivertDeserializeNumber 4 s0) as [[v s1]|]; [|discriminate H].
  destruct (negb (v =? 0)); [discriminate H|].
  destruct (WinDivertDeserializeNumber 2 s1) as [[len s2]|] eqn:E2; [|discriminate H].
  apply number_get_range in E2.
  destruct ((len =? 0) || (len >? WINDIVERT_FILTER_MAXLEN)) eqn:El; [discriminate H|].
  destruct (deserialize_tests (Z.to_nat len) 0 len s2) as [[r s3]| |] eqn:Er; [|discriminate H..].
  destruct (WinDivertGetChar s3) as [c s4]. destruct (c =? NUL); [|discriminate H].
  injection H as ->. destruct (deserialize_tests_ok l _ _ _ _ _ _ Er Hv) as (Hn & Hi & Hc).
  split; [|exact Hc]. unfold wf_filter. apply orb_false_iff in El. destruct El as [El1 El2].
  assert (E : zlen f = len) by (unfold zlen; lia). rewrite E, Hi.
  rewrite !andb_true_iff, !Z.leb_le. repeat split; lia.
Qed.

(** A filter for [ip.SrcAddr == 10.0.0.1 and tcp.Payload[-2] == 7]. *)
Definition sample : wd_filter :=
  mkWdFilter LAYER_NETWORK 0
    [mkFilter FIELD_IP_SRCADDR TEST_EQ 1 WINDIVERT_FILTER_RESULT_REJECT false (W128 0x0A000001 0xFFFF 0 0);
     mkFilter FIELD_TCP_PAYLOAD TEST_EQ WINDIVERT_FILTER_RESULT_ACCEPT
       WINDIVERT_FILTER_RESULT_REJECT false (W128 7 0xFFFFFFFE 0 0)].

Lemma serialize_roundtrip_witness :
  exists r text, wd_filter_serialize sample 4096 = Some (r, text) /\
  r = zlen text /\ WinDivertDeserializeFilter text = ReadVal (wf_object sample).
Proof. apply (serialize_roundtrip sample 4096); [reflexivity|reflexivity|vm_compute; congruence|reflexivity]. Defined.

Lemma serialize_overflow_witness :
  exists text, wd_filter_serialize sample 20 = Some (- ENOSPC, text) /\ zlen text <= 20.
Proof.
  apply (serialize_overflow sample 20); [reflexivity|reflexivity|vm_compute; congruence|].
  vm_compute. split; congruence.
Defined.

Lemma deserialize_wf_witness : wf_filter LAYER_NETWORK (wf_object sample) = true /\
  forallb canonical (wf_object sample) = true.
Proof.
  apply (deserialize_wf LAYER_NETWORK (filter_text (wf_object sample) ++ [NUL]) (wf_object sample));
    vm_compute; reflexivity.
Defined.
