(* ===== verification/WdAddr.v ===== *)
(** * Numbers and addresses in text

    The character and number routines of [src/wd/wd_port.c] ([WinDivertAToI],
    [WinDivertAToX], [WinDivertMul128], [WinDivertAdd128],
    [WinDivertDivTen128]) and the address routines of
    [src/wd/windivert_helper.c] ([WinDivertHelperParseIPv4Address],
    [WinDivertHelperParseIPv6Address], [WinDivertFormatDecNumber],
    [WinDivertFormatHexNumber], [WinDivertFormatIPv4Addr]).

    A C string is the list of its characters before the NUL; the character
    at its end reads as 0. *)

From Stdlib Require Import Ascii String ZArith List Bool Lia.
From S2P Require Import Prelude WdTypes WdSerial.
Import ListNotations.
#[local] Open Scope list_scope.
#[local] Open Scope Z_scope.

(** ** Characters *)

Definition WinDivertIsDigit (c : Z) : bool := between 48 c 57.
Definition WinDivertIsXDigit (c : Z) : bool := between 48 c 57 || between 97 c 102 || between 65 c 70.
Definition WinDivertIsSpace (c : Z) : bool :=
  (c =? 32) || (c =? 9) || (c =? 10) || (c =? 13) || (c =? 12) || (c =? 11).
Definition WinDivertIsAlNum (c : Z) : bool := between 97 c 122 || between 65 c 90 || between 48 c 57.
Definition WinDivertToLower (c : Z) : Z := if between 65 c 90 then 97 + (c - 65) else c.

(** [*str]. *)
Definition char0 (s : list Z) : Z := hd 0 s.

Fixpoint WinDivertStrCmp (s t : list Z) : Z :=
  match s, t with
  | [], [] => 0
  | x :: s, y :: t => if x - y =? 0 then WinDivertStrCmp s t else x - y
  | x :: _, [] => x - 0
  | [], y :: _ => 0 - y
  end.

(** ** 128-bit arithmetic *)

(** The four 64-bit steps; the result is [FALSE] when a carry is left. *)
Definition WinDivertMul128 (n : u128) (m : Z) : bool * u128 :=
  let p0 := u64 (w0 n * m) in
  let p1 := u64 (w1 n * m + (p0 >>> 32)) in
  let p2 := u64 (w2 n * m + (p1 >>> 32)) in
  let p3 := u64 (w3 n * m + (p2 >>> 32)) in
  ((p3 >>> 32) =? 0, W128 (u32 p0) (u32 p1) (u32 p2) (u32 p3)).

Definition WinDivertAdd128 (n : u128) (a : Z) : bool * u128 :=
  let p0 := u64 (w0 n + a) in
  let p1 := u64 (w1 n + (p0 >>> 32)) in
  let p2 := u64 (w2 n + (p1 >>> 32)) in
  let p3 := u64 (w3 n + (p2 >>> 32)) in
  ((p3 >>> 32) =? 0, W128 (u32 p0) (u32 p1) (u32 p2) (u32 p3)).

(** [n := n * base + dig], as in the two conversion loops. *)
Definition mul_add (n : u128) (base dig : Z) : option u128 :=
  let '(ok, n) := WinDivertMul128 n base in
  if negb ok then None
  else let '(ok, n) := WinDivertAdd128 n dig in if negb ok then None else Some n.

Fixpoint atoi_loop (n : u128) (s : list Z) : option (u128 * list Z) :=
  match s with
  | [] => Some (n, [])
  | c :: s' =>
    if WinDivertIsDigit c then
      match mul_add n 10 (c - 48) with None => None | Some n => atoi_loop n s' end
    else Some (n, s)
  end.

(** The number and [*endptr].  A caller with [size] words takes the low ones:
    the loop over the rest starts at [size] and never runs. *)
Definition WinDivertAToI (s : list Z) : option (u128 * list Z) :=
  match atoi_loop zero128 s with
  | None => None
  | Some (n, rest) => if zlen rest =? zlen s then None else Some (n, rest)
  end.

Definition xdigit (c : Z) : Z :=
  if WinDivertIsDigit c then c - 48 else WinDivertToLower c - 97 + 0x0A.

Fixpoint atox_loop (n : u128) (s : list Z) : option (u128 * list Z) :=
  match s with
  | [] => Some (n, [])
  | c :: s' =>
    if WinDivertIsXDigit c then
      match mul_add n 16 (xdigit c) with None => None | Some n => atox_loop n s' end
    else Some (n, s)
  end.

(** With [prefix] the index starts after "0x", so no digit is needed. *)
Definition WinDivertAToX (s : list Z) (prefix : bool) : option (u128 * list Z) :=
  if prefix then
    match s with
    | c0 :: c1 :: s => if (c0 =? 48) && (c1 =? 120) then atox_loop zero128 s else None
    | _ => None
    end
  else
    match atox_loop zero128 s with
    | None => None
    | Some (n, rest) => if zlen rest =? zlen s then None else Some (n, rest)
    end.

(** [WINDIVERT_BIG_MUL_ROUND]: add [t] to the words of [r] from [k] on while
    [k < 9] and [t != 0].  [None] is a write outside [r]. *)
Fixpoint big_round (n : nat) (k : nat) (t : Z) (r : list Z) : option (list Z) :=
  match n with
  | O => Some r
  | S n =>
    if t =? 0 then Some r
    else
      match nth_error r k with
      | None => None
      | Some x =>
        let s := u64 (x + (t &&& 0xFFFFFFFF)) in
        big_round n (S k) (u64 ((t >>> 32) + (s >>> 32))) (set_nth k (u32 s) r)
      end
  end.

Definition WINDIVERT_BIG_MUL_ROUND (a c : Z) (r : list Z) (i : nat) : option (list Z) :=
  big_round (9 - i) i (u64 (a * c)) r.

Definition div_ten_c : list Z := [0x9999999A; 0x99999999; 0x99999999; 0x99999999; 0x19999999].

(** A loop over the words of [l] that starts at word [k] of [r]. *)
Fixpoint for_words (step : Z -> nat -> list Z -> option (list Z)) (l : list Z) (k : nat) (r : list Z)
    : option (list Z) :=
  match l with
  | [] => Some r
  | x :: l => match step x k r with None => None | Some r => for_words step l (S k) r end
  end.

(** The loop over [j]. *)
Definition mul_row (a : Z) (k : nat) (r : list Z) : option (list Z) :=
  for_words (fun c k r => WINDIVERT_BIG_MUL_ROUND a c r k) div_ten_c k r.

(** Quotient and remainder. *)
Definition WinDivertDivTen128 (a : u128) : option (u128 * Z) :=
  match for_words mul_row [w0 a; w1 a; w2 a; w3 a] 0 (repeat 0 9) with
  | None => None
  | Some r =>
    match for_words (fun x k m => WINDIVERT_BIG_MUL_ROUND x 10 m k) (firstn 5 r) 0 (repeat 0 6) with
    | None => None
    | Some m => Some (W128 (nth 5 r 0) (nth 6 r 0) (nth 7 r 0) (nth 8 r 0), nth 5 m 0)
    end
  end.

(** ** Addresses *)

(** The loop with [n] parts left: the part, the dot, the sum. *)
Fixpoint ipv4_loop (n : nat) (addr : Z) (s : list Z) : option Z :=
  match n with
  | O => match s with [] => Some addr | _ => None end
  | S n =>
    match WinDivertAToI s with
    | None => None
    | Some (v, s) =>
      let part := w0 v in
      if part >? 255 then None
      else
        let addr := addr ||| u32 (part <<< (8 * Z.of_nat n)) in
        match n, s with
        | O, _ => ipv4_loop n addr s
        | _, c :: s => if c =? 46 then ipv4_loop n addr s else None
        | _, [] => None
        end
    end
  end.

Definition WinDivertHelperParseIPv4Address (s : list Z) : option Z := ipv4_loop 4 0 s.

(** The state of [WinDivertHelperParseIPv6Address]. *)
Record v6_state : Set := mkV6 {
  v6_left : bool;
  v6_i : Z;
  v6_j : Z;
  v6_laddr : list Z;
  v6_raddr : list Z
}.

(** Up to four hexadecimal digits and what follows. *)
Fixpoint hex_part (l : nat) (s : list Z) : list Z * list Z :=
  match l, s with
  | S l, c :: s' => if WinDivertIsXDigit c then let '(p, r) := hex_part l s' in (c :: p, r) else ([], s)
  | _, _ => ([], s)
  end.

(** How the loop ends: an error, the state, or the state and an IPv4 tail. *)
Inductive v6_end : Set := V6Bad | V6Ok (st : v6_state) | V6Tail (st : v6_state) (ipv4_addr : Z).

(** One group, from the IPv4 test on; [next] is the rest of the loop and
    [last] tells [k == 7]. *)
Definition v6_group (last : bool) (next : v6_state -> list Z -> v6_end) (st : v6_state) (s : list Z) : v6_end :=
  match (if v6_i st <? 6 then WinDivertHelperParseIPv4Address s else None) with
  | Some addr => V6Tail (mkV6 (v6_left st) (v6_i st) (v6_j st + 2) (v6_laddr st) (v6_raddr st)) addr
  | None =>
    let '(part_str, s) := hex_part 4 s in
    if zlen part_str =? 0 then V6Bad
    else if negb (char0 s =? 58) && negb (char0 s =? 0) then V6Bad
    else
      let part := match WinDivertAToX part_str false with Some (n, _) => u16 (w0 n) | None => 0 end in
      let st := if v6_left st
                then mkV6 true (v6_i st + 1) (v6_j st) (set_nth (Z.to_nat (v6_i st)) part (v6_laddr st)) (v6_raddr st)
                else mkV6 false (v6_i st) (v6_j st + 1) (v6_laddr st)
                       (set_nth (Z.to_nat (v6_j st)) part (v6_raddr st)) in
      match s with
      | [] => if negb (v6_left st) || last then V6Ok st else V6Bad
      | _ :: s => next st s
      end
  end.

(** [for (i = 0, k = 0; k < 8; k++)] with [8 - k] rounds left. *)
Fixpoint v6_loop (n : nat) (st : v6_state) (s : list Z) : v6_end :=
  match n with
  | O => V6Ok st
  | S n =>
    if char0 s =? 58 then
      let s := tl s in
      if negb (v6_left st) then V6Bad
      else
        let st := mkV6 false (v6_i st) (v6_j st) (v6_laddr st) (v6_raddr st) in
        match s with [] => V6Ok st | _ => v6_group (Nat.eqb n 0) (v6_loop n) st s end
    else v6_group (Nat.eqb n 0) (v6_loop n) st s
  end.

(** [addr[3 - i]]; [None] is a read outside [raddr]. *)
Definition v6_word (st : v6_state) (i : Z) : option Z :=
  let k := 2 * i + v6_j st in
  let l := k + 1 in
  let k := if k >=? 8 then k - 8 else k in
  let l := if l >=? 8 then l - 8 else l in
  match nth_error (v6_raddr st) (Z.to_nat l), nth_error (v6_raddr st) (Z.to_nat k) with
  | Some rl, Some rk =>
    Some (nth (Z.to_nat (2 * i + 1)) (v6_laddr st) 0 ||| (nth (Z.to_nat (2 * i)) (v6_laddr st) 0 <<< 16) |||
          rl ||| (rk <<< 16))
  | _, _ => None
  end.

Definition v6_assemble (st : v6_state) : option u128 :=
  match v6_word st 3, v6_word st 2, v6_word st 1, v6_word st 0 with
  | Some a0, Some a1, Some a2, Some a3 => Some (W128 a0 a1 a2 a3)
  | _, _, _, _ => None
  end.

(** The outcome: undefined, [FALSE], or the address. *)
Inductive v6_result : Set := V6Undef | V6False | V6True (addr : u128).

Definition v6_finish (e : v6_end) : v6_result :=
  match e with
  | V6Bad => V6False
  | V6Ok st => match v6_assemble st with None => V6Undef | Some a => V6True a end
  | V6Tail st ipv4_addr =>
    match v6_assemble st with
    | None => V6Undef
    | Some a =>
      if negb (w3 a =? 0) || negb (w2 a =? 0) || negb (w0 a =? 0) ||
         (negb (w1 a =? 0xFFFF) && negb (w1 a =? 0))
      then V6False else V6True (W128 ipv4_addr (w1 a) (w2 a) (w3 a))
    end
  end.

Definition WinDivertHelperParseIPv6Address (s : list Z) : v6_result :=
  let st := mkV6 true 0 0 (repeat 0 8) (repeat 0 8) in
  if char0 s =? 58 then
    let s := tl s in
    if negb (char0 s =? 58) then V6False
    else
      let st := mkV6 false 0 0 (repeat 0 8) (repeat 0 8) in
      match tl s with [] => v6_finish (V6Ok st) | s => v6_finish (v6_loop 8 st s) end
  else v6_finish (v6_loop 8 st s).

(** ** Formatting *)

(** The loop of [WinDivertFormatDecNumber32]: [r] runs through the powers of
    ten below [10^n]. *)
Fixpoint dec32_loop (n : nat) (s : WINDIVERT_STREAM) (val r : Z) (zeroes : bool) : WINDIVERT_STREAM :=
  match n with
  | O => s
  | S n =>
    if r =? 0 then s
    else
      let dig := val / r in
      let val := val mod r in
      let r := r / 10 in
      if (dig =? 0) && negb zeroes && negb (r =? 0) then dec32_loop n s val r zeroes
      else dec32_loop n (WinDivertPutChar s (48 + dig)) val r true
  end.

Definition WinDivertFormatDecNumber32 (s : WINDIVERT_STREAM) (val : Z) : WINDIVERT_STREAM :=
  dec32_loop 11 s val 1000000000 false.

(** The digits of [buf], most significant first; [n] is the room left. *)
Fixpoint dec_digits (n : nat) (val : u128) (buf : list Z) : option (list Z) :=
  match n with
  | O => Some buf
  | S n =>
    if (w0 val =? 0) && (w1 val =? 0) && (w2 val =? 0) && (w3 val =? 0) then Some buf
    else match WinDivertDivTen128 val with
         | None => None
         | Some (val, r) => dec_digits n val ((48 + r) :: buf)
         end
  end.

Definition WinDivertFormatDecNumber (s : WINDIVERT_STREAM) (val : u128) : option WINDIVERT_STREAM :=
  if (w0 val =? 0) && (w1 val =? 0) && (w2 val =? 0) && (w3 val =? 0) then Some (WinDivertPutChar s 48)
  else match dec_digits 40 val [] with None => None | Some buf => Some (WinDivertPutString s buf) end.

Definition WinDivertFormatIPv4Addr (s : WINDIVERT_STREAM) (addr : Z) : WINDIVERT_STREAM :=
  let s := WinDivertFormatDecNumber32 s ((addr &&& 0xFF000000) >>> 24) in
  let s := WinDivertPutChar s 46 in
  let s := WinDivertFormatDecNumber32 s ((addr &&& 0x00FF0000) >>> 16) in
  let s := WinDivertPutChar s 46 in
  let s := WinDivertFormatDecNumber32 s ((addr &&& 0x0000FF00) >>> 8) in
  let s := WinDivertPutChar s 46 in
  WinDivertFormatDecNumber32 s ((addr &&& 0x000000FF) >>> 0).

(** [TRUE] or [FALSE], and the buffer. *)
Definition WinDivertHelperFormatIPv4Address (addr bufLen : Z) : bool * list Z :=
  let s := WinDivertPutNul (WinDivertFormatIPv4Addr (mkStream [] bufLen false) addr) in
  (negb (s_overflow s), s_out s).

(** ** Multiplication and addition *)

Lemma carry_split a : a = u32 a + 2 ^ 32 * (a >>> 32).
Proof. unfold u32. rewrite Z.shiftr_div_pow2 by lia. pose proof (Z.div_mod a (2 ^ 32)). lia. Qed.

Lemma u32_is_u32 z : is_u32 (u32 z).
Proof. unfold is_u32, u32. apply Z.mod_pos_bound. lia. Qed.

Lemma carry_small a : 0 <= a < 2 ^ 64 -> 0 <= a >>> 32 < 2 ^ 32.
Proof.
  intros H. rewrite Z.shiftr_div_pow2 by lia.
  split; [apply Z.div_pos|apply Z.div_lt_upper_bound]; lia.
Qed.

(** Four columns with carries. *)
Lemma carry_chain x0 x1 x2 x3 : 0 <= x0 < 2 ^ 64 ->
  0 <= x1 <= 2 ^ 64 - 2 ^ 32 -> 0 <= x2 <= 2 ^ 64 - 2 ^ 32 -> 0 <= x3 <= 2 ^ 64 - 2 ^ 32 ->
  let p0 := u64 x0 in
  let p1 := u64 (x1 + (p0 >>> 32)) in
  let p2 := u64 (x2 + (p1 >>> 32)) in
  let p3 := u64 (x3 + (p2 >>> 32)) in
  0 <= p3 >>> 32 /\
  x0 + 2 ^ 32 * x1 + 2 ^ 64 * x2 + 2 ^ 96 * x3 =
  val128 (W128 (u32 p0) (u32 p1) (u32 p2) (u32 p3)) + 2 ^ 128 * (p3 >>> 32).
Proof.
  intros H0 H1 H2 H3. unfold u64. cbv zeta.
  rewrite (Z.mod_small x0) by exact H0.
  pose proof (carry_small _ H0) as C0. pose proof (carry_split x0) as E0.
  assert (S1 : 0 <= x1 + (x0 >>> 32) < 2 ^ 64) by lia. rewrite (Z.mod_small (x1 + _)) by exact S1.
  pose proof (carry_small _ S1) as C1. pose proof (carry_split (x1 + (x0 >>> 32))) as E1.
  set (p1 := x1 + _) in *.
  assert (S2 : 0 <= x2 + (p1 >>> 32) < 2 ^ 64) by lia. rewrite (Z.mod_small (x2 + _)) by exact S2.
  pose proof (carry_small _ S2) as C2. pose proof (carry_split (x2 + (p1 >>> 32))) as E2.
  set (p2 := x2 + _) in *.
  assert (S3 : 0 <= x3 + (p2 >>> 32) < 2 ^ 64) by lia. rewrite (Z.mod_small (x3 + _)) by exact S3.
  pose proof (carry_small _ S3) as C3. pose proof (carry_split (x3 + (p2 >>> 32))) as E3.
  set (p3 := x3 + _) in *. split; [apply C3|].
  unfold val128. cbn [w0 w1 w2 w3]. subst p1 p2 p3. lia.
Qed.

(** The flag of both operations tells whether the result fits. *)
Lemma fits_flag hi v w : 0 <= hi -> wf128 w -> v = val128 w + 2 ^ 128 * hi -> (hi =? 0) = (v <? 2 ^ 128).
Proof.
  intros Hh Hw E. pose proof (val128_bound w Hw). apply eq_true_iff_eq. rewrite Z.eqb_eq, Z.ltb_lt. lia.
Qed.

(** [mul_add] is exact, and fails when the value does not fit. *)
Lemma mul_add_spec n b d : wf128 n -> 0 < b < 2 ^ 32 -> 0 <= d < 2 ^ 32 ->
  if val128 n * b + d <? 2 ^ 128
  then exists r, mul_add n b d = Some r /\ wf128 r /\ val128 r = val128 n * b + d
  else mul_add n b d = None.
Proof.
  intros Hn Hb Hd. pose proof Hn as (H0 & H1 & H2 & H3). unfold is_u32 in *.
  pose proof (val128_bound n Hn) as Hv. unfold mul_add, WinDivertMul128.
  destruct (carry_chain (w0 n * b) (w1 n * b) (w2 n * b) (w3 n * b)) as [P E]; [nia..|].
  cbv zeta in P, E. set (p3 := u64 (w3 n * b + _)) in *. set (r := W128 _ _ _ _) in *.
  assert (Hr : wf128 r) by (repeat split; apply u32_is_u32).
  assert (Ev : val128 n * b = val128 r + 2 ^ 128 * (p3 >>> 32)) by (rewrite <- E; unfold val128; lia).
  rewrite (fits_flag _ _ _ P Hr Ev). pose proof (val128_bound r Hr).
  destruct (Z.ltb_spec (val128 n * b) (2 ^ 128)) as [F|F]; cbn [negb];
    [|replace (val128 n * b + d <? 2 ^ 128) with false by lia; reflexivity].
  assert (P0 : p3 >>> 32 = 0) by lia. clearbody r p3. pose proof Hr as (K0 & K1 & K2 & K3). unfold is_u32 in *.
  unfold WinDivertAdd128. destruct (carry_chain (w0 r + d) (w1 r) (w2 r) (w3 r)) as [P' E']; [lia..|].
  cbv zeta in P', E'. set (q3 := u64 (w3 r + _)) in *. set (q := W128 _ _ _ _) in *.
  assert (Hq : wf128 q) by (repeat split; apply u32_is_u32).
  assert (Ev' : val128 n * b + d = val128 q + 2 ^ 128 * (q3 >>> 32)) by (rewrite <- E'; unfold val128 in *; lia).
  rewrite (fits_flag _ _ _ P' Hq Ev'). pose proof (val128_bound q Hq).
  destruct (Z.ltb_spec (val128 n * b + d) (2 ^ 128)) as [G|G]; cbn [negb]; [|reflexivity].
  exists q. repeat split; try apply Hq. lia.
Qed.

(** ** Reading decimal numbers *)

Definition dec_value (s : list Z) (acc : Z) : Z := fold_left (fun a c => a * 10 + (c - 48)) s acc.

Definition no_digit (s : list Z) : bool := negb (WinDivertIsDigit (char0 s)).

Lemma dec_value_ge s : forall acc, forallb WinDivertIsDigit s = true -> 0 <= acc -> acc <= dec_value s acc.
Proof.
  induction s as [|c s IH]; intros acc H Ha; cbn [dec_value fold_left]; [lia|].
  cbn [forallb] in H. apply andb_true_iff in H. destruct H as [Hc Hs]. unfold WinDivertIsDigit, between in Hc.
  specialize (IH (acc * 10 + (c - 48)) Hs). unfold dec_value in IH. lia.
Qed.

Lemma atoi_loop_spec rest : no_digit rest = true -> forall s n, wf128 n -> forallb WinDivertIsDigit s = true ->
  if dec_value s (val128 n) <? 2 ^ 128
  then exists r, atoi_loop n (s ++ rest) = Some (r, rest) /\ wf128 r /\ val128 r = dec_value s (val128 n)
  else atoi_loop n (s ++ rest) = None.
Proof.
  intros Hr. induction s as [|c s IH]; intros n Hn Hs; pose proof (val128_bound n Hn) as Hb.
  - cbn [dec_value fold_left app]. replace (val128 n <? 2 ^ 128) with true by lia.
    exists n. repeat split; try apply Hn. destruct rest as [|x rest]; [reflexivity|].
    unfold no_digit, char0 in Hr. cbn [hd] in Hr. cbn [atoi_loop]. apply negb_true_iff in Hr. now rewrite Hr.
  - cbn [forallb] in Hs. apply andb_true_iff in Hs. destruct Hs as [Hc Hs].
    cbn [app atoi_loop dec_value fold_left]. rewrite Hc. unfold WinDivertIsDigit, between in Hc.
    pose proof (mul_add_spec n 10 (c - 48) Hn ltac:(lia) ltac:(lia)) as M.
    pose proof (dec_value_ge s (val128 n * 10 + (c - 48)) Hs ltac:(lia)) as G. unfold dec_value in G.
    destruct (Z.ltb_spec (val128 n * 10 + (c - 48)) (2 ^ 128)) as [F|F].
    + destruct M as (r & -> & Wr & Vr). specialize (IH r Wr Hs). rewrite Vr in IH. exact IH.
    + rewrite M. replace (_ <? 2 ^ 128) with false by lia. reflexivity.
Qed.

Lemma wf_zero128 : wf128 zero128.
Proof. repeat split; cbn; lia. Qed.

Lemma atoi_spec s rest : s <> [] -> forallb WinDivertIsDigit s = true -> no_digit rest = true ->
  if dec_value s 0 <? 2 ^ 128
  then exists r, WinDivertAToI (s ++ rest) = Some (r, rest) /\ wf128 r /\ val128 r = dec_value s 0
  else WinDivertAToI (s ++ rest) = None.
Proof.
  intros Hn Hs Hr. unfold WinDivertAToI.
  pose proof (atoi_loop_spec rest Hr s zero128 wf_zero128 Hs) as H. change (val128 zero128) with 0 in H.
  destruct (dec_value s 0 <? 2 ^ 128); [|now rewrite H].
  destruct H as (r & -> & W & V). exists r. rewrite zlen_app.
  destruct s as [|c s]; [congruence|]. rewrite zlen_cons. pose proof (zlen_nonneg s).
  replace (zlen rest =? 1 + zlen s + zlen rest) with false by lia. auto.
Qed.

(** ** Writing decimal numbers *)

(** The digits from [10^n] on; [z] tells that a digit was written. *)
Fixpoint dec_text (n : nat) (v : Z) (z : bool) : list Z :=
  match n with
  | O => [48 + v]
  | S n' =>
    let r := 10 ^ Z.of_nat n in
    if (v / r =? 0) && negb z then dec_text n' (v mod r) z
    else (48 + v / r) :: dec_text n' (v mod r) true
  end.

Lemma dec32_loop_text : forall n m s v z, (S n < m)%nat ->
  dec32_loop m s v (10 ^ Z.of_nat n) z = WinDivertPutString s (dec_text n v z).
Proof.
  induction n as [|n IH]; intros m s v z Hm; (destruct m as [|m]; [lia|]); cbn [dec32_loop dec_text].
  - change (10 ^ Z.of_nat 0) with 1. cbn [Z.eqb]. change (1 / 10) with 0. rewrite Z.div_1_r, Z.mod_1_r.
    cbn [Z.eqb negb]. rewrite andb_false_r. destruct m as [|m]; [lia|]. reflexivity.
  - assert (Z0 : forall k : nat, (10 ^ Z.of_nat k =? 0) = false)
      by (intros k; apply Z.eqb_neq, Z.pow_nonzero; lia).
    replace (10 ^ Z.of_nat (S n) / 10) with (10 ^ Z.of_nat n)
      by (rewrite Nat2Z.inj_succ, Z.pow_succ_r, Z.mul_comm, Z.div_mul by lia; reflexivity).
    rewrite !Z0. cbn [negb]. rewrite andb_true_r.
    destruct ((v / 10 ^ Z.of_nat (S n) =? 0) && negb z); rewrite IH by lia; reflexivity.
Qed.

(** What the text is: digits with the value of the number. *)
Lemma dec_text_spec : forall n v z a, 0 <= v < 10 ^ Z.of_nat (S n) -> (z = false -> a = 0) ->
  forallb WinDivertIsDigit (dec_text n v z) = true /\ dec_text n v z <> [] /\
  dec_value (dec_text n v z) a = a * 10 ^ Z.of_nat (S n) + v /\ (length (dec_text n v z) <= S n)%nat.
Proof.
  induction n as [|n IH]; intros v z a Hv Hz; cbn [dec_text].
  - change (10 ^ Z.of_nat 1) with 10 in *. cbn [forallb dec_value fold_left]. unfold WinDivertIsDigit, between.
    repeat split; [lia|congruence|lia|cbn; lia].
  - assert (E : 10 ^ Z.of_nat (S (S n)) = 10 * 10 ^ Z.of_nat (S n))
      by (rewrite (Nat2Z.inj_succ (S n)), Z.pow_succ_r by lia; reflexivity).
    rewrite E in *. set (r := 10 ^ Z.of_nat (S n)) in *.
    assert (P : 0 < r) by (apply Z.pow_pos_nonneg; lia).
    pose proof (Z.div_mod v r ltac:(lia)) as D. pose proof (Z.mod_pos_bound v r P) as M.
    assert (Q : 0 <= v / r < 10) by (split; [apply Z.div_pos|apply Z.div_lt_upper_bound]; lia).
    destruct ((v / r =? 0) && negb z) eqn:C.
    + apply andb_true_iff in C. destruct C as [C1 C2]. apply negb_true_iff in C2. subst z.
      specialize (Hz eq_refl). subst a.
      destruct (IH (v mod r) false 0 M) as (I1 & I2 & I3 & I4); [reflexivity|].
      split; [exact I1|]. split; [exact I2|]. split; [rewrite I3; lia|lia].
    + destruct (IH (v mod r) true (a * 10 + (48 + v / r - 48)) M) as (I1 & I2 & I3 & I4); [congruence|].
      cbn [forallb dec_value fold_left length]. rewrite I1. unfold dec_value in I3. rewrite I3.
      unfold WinDivertIsDigit, between. repeat split; [lia|congruence|nia|lia].
Qed.

(** *** Octets and IPv4 addresses *)

Definition octet_text (v : Z) : list Z := dec_text 9 v false.

Definition ipv4_text (addr : Z) : list Z :=
  octet_text (addr / 2 ^ 24) ++ [46] ++ octet_text (addr / 2 ^ 16 mod 256) ++ [46] ++
  octet_text (addr / 2 ^ 8 mod 256) ++ [46] ++ octet_text (addr mod 256).

Lemma masked_octet addr k : 0 <= k -> (addr &&& (255 <<< k)) >>> k = addr / 2 ^ k mod 256.
Proof.
  intros Hk. rewrite Z.land_comm, land_shiftl_l by exact Hk.
  rewrite Z.shiftr_shiftl_l by lia. rewrite Z.sub_diag. change 255 with (Z.ones 8).
  rewrite Z.land_comm, Z.land_ones, Z.shiftr_div_pow2 by lia. reflexivity.
Qed.

Lemma format_ipv4 s addr : 0 <= addr < 2 ^ 32 ->
  WinDivertFormatIPv4Addr s addr = WinDivertPutString s (ipv4_text addr).
Proof.
  intros H. unfold WinDivertFormatIPv4Addr, WinDivertFormatDecNumber32.
  change 1000000000 with (10 ^ Z.of_nat 9). rewrite !dec32_loop_text by lia.
  change 0xFF000000 with (255 <<< 24). change 0x00FF0000 with (255 <<< 16).
  change 0x0000FF00 with (255 <<< 8). change 0x000000FF with (255 <<< 0).
  rewrite !masked_octet by lia. unfold ipv4_text. rewrite !put_string_app, !put_char, Z.div_1_r.
  rewrite (Z.mod_small (addr / 2 ^ 24)); [reflexivity|].
  split; [apply Z.div_pos|apply Z.div_lt_upper_bound]; lia.
Qed.

(** One part is read back. *)
Lemma octet_read v rest : 0 <= v < 256 -> no_digit rest = true ->
  exists r, WinDivertAToI (octet_text v ++ rest) = Some (r, rest) /\ w0 r = v.
Proof.
  intros Hv Hr. unfold octet_text.
  destruct (dec_text_spec 9 v false 0) as (D1 & D2 & D3 & _); [lia|reflexivity|].
  pose proof (atoi_spec _ rest D2 D1 Hr) as A. rewrite D3 in A.
  replace (0 * 10 ^ Z.of_nat 10 + v) with v in A by lia.
  replace (v <? 2 ^ 128) with true in A by lia. destruct A as (r & E & W & V).
  exists r. split; [exact E|]. destruct W as (W0 & W1 & W2 & W3). unfold is_u32, val128 in *. lia.
Qed.

Lemma octet_length v : 0 <= v < 256 -> zlen (octet_text v) <= 3.
Proof.
  intros Hv. replace v with (Z.of_nat (Z.to_nat v)) by lia.
  assert (Hn : (Z.to_nat v < 256)%nat) by lia. revert Hn. generalize (Z.to_nat v) as n. intros n Hn.
  assert (A : forallb (fun n => zlen (octet_text (Z.of_nat n)) <=? 3) (seq 0 256) = true) by (vm_compute; reflexivity).
  rewrite forallb_forall in A. specialize (A n). rewrite in_seq in A. specialize (A ltac:(lia)). lia.
Qed.

Lemma ipv4_parts addr : 0 <= addr < 2 ^ 32 ->
  0 <= addr / 2 ^ 24 < 256 /\
  addr = addr / 2 ^ 24 * 2 ^ 24 + addr / 2 ^ 16 mod 256 * 2 ^ 16 + addr / 2 ^ 8 mod 256 * 2 ^ 8 + addr mod 256.
Proof.
  intros H. split; [split; [apply Z.div_pos|apply Z.div_lt_upper_bound]; lia|].
  assert (E2 : addr / 2 ^ 16 = addr / 256 / 256) by (rewrite Z.div_div by lia; reflexivity).
  assert (E3 : addr / 2 ^ 24 = addr / 256 / 256 / 256) by (rewrite !Z.div_div by lia; reflexivity).
  rewrite E2, E3. change (2 ^ 8) with 256.
  pose proof (Z.div_mod addr 256 ltac:(lia)). pose proof (Z.div_mod (addr / 256) 256 ltac:(lia)).
  pose proof (Z.div_mod (addr / 256 / 256) 256 ltac:(lia)). lia.
Qed.

(** One round of the parser; [hi] are the parts read. *)
Lemma ipv4_round n hi v rest : 0 <= v < 256 -> 0 <= v * 2 ^ (8 * Z.of_nat n) < 2 ^ 32 ->
  no_digit rest = true ->
  ipv4_loop (S n) (2 ^ (8 * Z.of_nat (S n)) * hi) (octet_text v ++ rest) =
  (let addr := v * 2 ^ (8 * Z.of_nat n) + 2 ^ (8 * Z.of_nat (S n)) * hi in
   match n, rest with
   | O, _ => ipv4_loop n addr rest
   | _, c :: s => if c =? 46 then ipv4_loop n addr s else None
   | _, [] => None
   end).
Proof.
  intros Hv Hb Hr. cbn [ipv4_loop]. destruct (octet_read v rest Hv Hr) as (r & -> & ->).
  replace (v >? 255) with false by lia. unfold u32.
  rewrite Z.shiftl_mul_pow2, Z.mod_small by lia. rewrite Z.lor_comm, lor_add_disjoint; [reflexivity|lia|].
  replace (8 * Z.of_nat (S n)) with (8 * Z.of_nat n + 8) by lia. rewrite Z.pow_add_r by lia.
  change (2 ^ 8) with 256. nia.
Qed.

Lemma parse_ipv4_text addr : 0 <= addr < 2 ^ 32 ->
  WinDivertHelperParseIPv4Address (ipv4_text addr) = Some addr.
Proof.
  intros H. destruct (ipv4_parts addr H) as [Ht E].
  pose proof (Z.mod_pos_bound (addr / 2 ^ 16) 256 ltac:(lia)) as H2.
  pose proof (Z.mod_pos_bound (addr / 2 ^ 8) 256 ltac:(lia)) as H1.
  pose proof (Z.mod_pos_bound addr 256 ltac:(lia)) as H0.
  unfold WinDivertHelperParseIPv4Address, ipv4_text. change 0 with (2 ^ (8 * Z.of_nat 4) * 0) at 1.
  revert E Ht H2 H1 H0. generalize (addr / 2 ^ 24) as a, (addr / 2 ^ 16 mod 256) as b,
    (addr / 2 ^ 8 mod 256) as c, (addr mod 256) as d. intros a b c d -> Ha Hb Hc Hd.
  rewrite ipv4_round by (reflexivity || cbn -[Z.mul]; lia). cbn [app Z.eqb Pos.eqb]. cbv zeta.
  replace (a * 2 ^ (8 * Z.of_nat 3) + 2 ^ (8 * Z.of_nat 4) * 0) with (2 ^ (8 * Z.of_nat 3) * a) by lia.
  rewrite ipv4_round by (reflexivity || cbn -[Z.mul]; lia). cbn [app Z.eqb Pos.eqb]. cbv zeta.
  replace (b * 2 ^ (8 * Z.of_nat 2) + 2 ^ (8 * Z.of_nat 3) * a) with (2 ^ (8 * Z.of_nat 2) * (a * 256 + b)) by lia.
  rewrite ipv4_round by (reflexivity || cbn -[Z.mul]; lia). cbn [app Z.eqb Pos.eqb]. cbv zeta.
  replace (c * 2 ^ (8 * Z.of_nat 1) + 2 ^ (8 * Z.of_nat 2) * (a * 256 + b))
    with (2 ^ (8 * Z.of_nat 1) * ((a * 256 + b) * 256 + c)) by lia.
  rewrite <- (app_nil_r (octet_text d)).
  rewrite ipv4_round by (reflexivity || cbn -[Z.mul]; lia). cbv zeta. cbn [ipv4_loop].
  f_equal. lia.
Qed.

Lemma ipv4_text_length addr : 0 <= addr < 2 ^ 32 -> zlen (ipv4_text addr) <= 15.
Proof.
  intros H. destruct (ipv4_parts addr H) as [Ht _]. unfold ipv4_text. rewrite !zlen_app.
  pose proof (octet_length _ Ht).
  pose proof (octet_length _ (Z.mod_pos_bound (addr / 2 ^ 16) 256 ltac:(lia))).
  pose proof (octet_length _ (Z.mod_pos_bound (addr / 2 ^ 8) 256 ltac:(lia))).
  pose proof (octet_length _ (Z.mod_pos_bound addr 256 ltac:(lia))).
  change (zlen [46]) with 1. lia.
Qed.

(** A text shorter than the buffer is written whole and terminated. *)
Lemma put_terminated text bufLen : zlen text < bufLen ->
  WinDivertPutNul (WinDivertPutString (mkStream [] bufLen false) text) = mkStream (text ++ [NUL]) bufLen false.
Proof.
  intros H. pose proof (zlen_nonneg text). rewrite put_string_spec by (rewrite zlen_nil; lia). rewrite zlen_nil. cbn [app orb].
  rewrite firstn_all2 by (unfold zlen in *; lia). unfold WinDivertPutNul, WinDivertPutChar.
  cbn [s_out s_max s_overflow].
  replace (zlen text >=? bufLen) with false by lia. replace (0 + zlen text >? bufLen) with false by lia. reflexivity.
Qed.

(** IPv4 addresses round trip: into a buffer of at least 16 bytes
    [WinDivertHelperFormatIPv4Address] writes a terminated text, and
    [WinDivertHelperParseIPv4Address] reads the same address from it. *)
Theorem ipv4_roundtrip addr bufLen : 0 <= addr < 2 ^ 32 -> 16 <= bufLen ->
  exists text, WinDivertHelperFormatIPv4Address addr bufLen = (true, text ++ [NUL]) /\
    WinDivertHelperParseIPv4Address text = Some addr.
Proof.
  intros H Hb. exists (ipv4_text addr). split; [|now apply parse_ipv4_text].
  unfold WinDivertHelperFormatIPv4Address. pose proof (ipv4_text_length addr H).
  rewrite format_ipv4, put_terminated by (exact H || lia). reflexivity.
Qed.

Lemma ipv4_roundtrip_witness : exists text,
  WinDivertHelperFormatIPv4Address 0xC0A80001 16 = (true, text ++ [NUL]) /\
  WinDivertHelperParseIPv4Address text = Some 0xC0A80001.
Proof. apply (ipv4_roundtrip 0xC0A80001 16); lia. Defined.

(** ** Division by ten *)

(** The value of words, least significant first. *)
Fixpoint words_value (r : list Z) : Z :=
  match r with [] => 0 | x :: r => x + 2 ^ 32 * words_value r end.

Definition words_ok (r : list Z) : Prop := Forall is_u32 r.

Lemma words_value_bound r : words_ok r -> 0 <= words_value r < 2 ^ (32 * zlen r).
Proof.
  induction 1 as [|x r Hx _ IH]; cbn [words_value]; [split; [lia|reflexivity]|].
  rewrite zlen_cons. replace (32 * (1 + zlen r)) with (32 + 32 * zlen r) by lia.
  pose proof (zlen_nonneg r). rewrite Z.pow_add_r by lia. revert IH.
  generalize (2 ^ (32 * zlen r)) as p. unfold is_u32 in Hx. lia.
Qed.

Lemma words_value_set : forall k x r, nth_error r k = Some x -> forall y,
  words_value (set_nth k y r) = words_value r + (y - x) * 2 ^ (32 * Z.of_nat k).
Proof.
  induction k as [|k IH]; intros x [|z r] H y; try discriminate; cbn [set_nth words_value].
  - injection H as ->. change (2 ^ (32 * Z.of_nat 0)) with 1. lia.
  - rewrite (IH x r H y). replace (32 * Z.of_nat (S k)) with (32 + 32 * Z.of_nat k) by lia.
    rewrite Z.pow_add_r by lia. ring.
Qed.

Lemma set_nth_forall {A} (P : A -> Prop) : forall k y l, P y -> Forall P l -> Forall P (set_nth k y l).
Proof.
  induction k as [|k IH]; intros y [|x l] Hy Hl; cbn [set_nth]; auto; inversion Hl; subst; constructor; auto.
Qed.

Lemma no_room r k t : words_ok r -> 0 <= t -> Z.of_nat k = zlen r ->
  words_value r + t * 2 ^ (32 * Z.of_nat k) < 2 ^ (32 * zlen r) -> t = 0.
Proof.
  intros Hr Ht -> Hb. pose proof (words_value_bound r Hr) as Hv. revert Hv Hb.
  generalize (words_value r) as v, (2 ^ (32 * zlen r)) as p. intros v p Hv Hb. nia.
Qed.

(** A round adds [t] at word [k] when the sum fits, and stays inside. *)
Lemma big_round_spec : forall n k t r, words_ok r -> 0 <= t < 2 ^ 64 -> zlen r <= Z.of_nat (n + k) ->
  Z.of_nat k <= zlen r ->
  words_value r + t * 2 ^ (32 * Z.of_nat k) < 2 ^ (32 * zlen r) ->
  exists r', big_round n k t r = Some r' /\ words_ok r' /\ zlen r' = zlen r /\
    words_value r' = words_value r + t * 2 ^ (32 * Z.of_nat k).
Proof.
  induction n as [|n IH]; intros k t r Hr Ht Hn Hk Hb; cbn [big_round];
    pose proof (words_value_bound r Hr) as Hv.
  - rewrite (no_room r k t Hr) in * by (lia || exact Hb). exists r. repeat split; auto; lia.
  - destruct (Z.eqb_spec t 0) as [->|Nt]; [exists r; repeat split; auto; lia|].
    destruct (nth_error r k) as [x|] eqn:Ex.
    2: { apply nth_error_None in Ex. elim Nt. apply (no_room r k t Hr); [lia|unfold zlen in *; lia|exact Hb]. }
    assert (Hx : is_u32 x) by (apply (Forall_forall is_u32 r); [exact Hr|eapply nth_error_In; exact Ex]).
    unfold is_u32 in Hx. change 0xFFFFFFFF with (Z.ones 32). rewrite Z.land_ones by lia. fold (u32 t).
    pose proof (u32_is_u32 t) as Hu. unfold is_u32 in Hu.
    set (s := u64 (x + u32 t)). assert (Es : s = x + u32 t) by (apply Z.mod_small; lia).
    pose proof (carry_split s) as Cs. pose proof (carry_split t) as Ct.
    pose proof (carry_small t Ht) as Bt. pose proof (carry_small s ltac:(lia)) as Bs.
    unfold u64. rewrite (Z.mod_small (_ + _)) by lia.
    assert (Hk' : (k < length r)%nat) by (apply nth_error_Some; congruence).
    assert (Ev : words_value (set_nth k (u32 s) r) + ((t >>> 32) + (s >>> 32)) * 2 ^ (32 * Z.of_nat (S k)) =
      words_value r + t * 2 ^ (32 * Z.of_nat k)).
    { rewrite (words_value_set k x r Ex). replace (32 * Z.of_nat (S k)) with (32 + 32 * Z.of_nat k) by lia.
      rewrite Z.pow_add_r by lia.
      assert (F : t = u32 s - x + 2 ^ 32 * ((t >>> 32) + (s >>> 32))) by lia.
      transitivity (words_value r + (u32 s - x + 2 ^ 32 * ((t >>> 32) + (s >>> 32))) * 2 ^ (32 * Z.of_nat k));
        [ring|now rewrite <- F]. }
    destruct (IH (S k) ((t >>> 32) + (s >>> 32)) (set_nth k (u32 s) r)) as (r' & E & W & L & V).
    + apply set_nth_forall; [apply u32_is_u32|exact Hr].
    + lia.
    + unfold zlen in *. rewrite set_nth_length. lia.
    + unfold zlen in *. rewrite set_nth_length. lia.
    + rewrite Ev. unfold zlen in *. rewrite set_nth_length. exact Hb.
    + exists r'. split; [exact E|]. split; [exact W|]. unfold zlen in *. rewrite set_nth_length in L.
      split; [exact L|]. now rewrite V, Ev.
Qed.

Lemma round_spec a c r i : words_ok r -> is_u32 a -> is_u32 c -> zlen r <= 9 -> Z.of_nat i <= zlen r ->
  words_value r + a * c * 2 ^ (32 * Z.of_nat i) < 2 ^ (32 * zlen r) ->
  exists r', WINDIVERT_BIG_MUL_ROUND a c r i = Some r' /\ words_ok r' /\ zlen r' = zlen r /\
    words_value r' = words_value r + a * c * 2 ^ (32 * Z.of_nat i).
Proof.
  intros Hr Ha Hc Hl Hi Hb. unfold WINDIVERT_BIG_MUL_ROUND, is_u32 in *.
  assert (B : 0 <= a * c < 2 ^ 64) by nia. unfold u64. rewrite Z.mod_small by exact B.
  apply big_round_spec; auto; lia.
Qed.

(** [step] adds [w] times a word, when the sum fits; it needs [slack] words
    above the first. *)
Definition adds (w slack : Z) (step : Z -> nat -> list Z -> option (list Z)) : Prop :=
  forall x k r, is_u32 x -> words_ok r -> zlen r <= 9 -> Z.of_nat k + slack <= zlen r ->
  words_value r + x * w * 2 ^ (32 * Z.of_nat k) < 2 ^ (32 * zlen r) ->
  exists r', step x k r = Some r' /\ words_ok r' /\ zlen r' = zlen r /\
    words_value r' = words_value r + x * w * 2 ^ (32 * Z.of_nat k).

(** A loop over such steps adds [w] times the whole number. *)
Lemma for_words_adds w slack step : 0 <= w -> adds w slack step -> forall l k r, words_ok l ->
  words_ok r -> zlen r <= 9 -> Z.of_nat k + zlen l + slack <= zlen r + 1 -> 0 <= slack ->
  words_value r + words_value l * w * 2 ^ (32 * Z.of_nat k) < 2 ^ (32 * zlen r) ->
  exists r', for_words step l k r = Some r' /\ words_ok r' /\ zlen r' = zlen r /\
    words_value r' = words_value r + words_value l * w * 2 ^ (32 * Z.of_nat k).
Proof.
  intros Hw Hstep. induction l as [|x l IH]; intros k r Hl Hr H9 Hk Hs Hb; cbn [for_words words_value] in *.
  - exists r. repeat split; auto. lia.
  - inversion Hl as [|? ? Hx Hl']; subst. rewrite zlen_cons in Hk. pose proof (zlen_nonneg l).
    pose proof (words_value_bound l Hl') as Vl. pose proof Hx as Hx'. unfold is_u32 in Hx'.
    assert (P : 0 < 2 ^ (32 * Z.of_nat k)) by (apply Z.pow_pos_nonneg; lia).
    assert (P32 : 2 ^ (32 * Z.of_nat (S k)) = 2 ^ 32 * 2 ^ (32 * Z.of_nat k))
      by (rewrite <- Z.pow_add_r by lia; f_equal; lia).
    assert (E : words_value r + (x + 2 ^ 32 * words_value l) * w * 2 ^ (32 * Z.of_nat k) =
      words_value r + x * w * 2 ^ (32 * Z.of_nat k) + words_value l * w * 2 ^ (32 * Z.of_nat (S k)))
      by (rewrite P32; ring).
    assert (0 <= words_value l * w * 2 ^ (32 * Z.of_nat (S k))).
    { rewrite P32. apply Z.mul_nonneg_nonneg; [apply Z.mul_nonneg_nonneg|]; lia. }
    destruct (Hstep x k r) as (r1 & E1 & W1 & L1 & V1); auto; [lia|lia|].
    rewrite E1. destruct (IH (S k) r1) as (r2 & E2 & W2 & L2 & V2); auto; [lia|lia|rewrite V1, L1; lia|].
    exists r2. rewrite V2, V1, L2, L1. auto.
Qed.

Definition C10 : Z := words_value div_ten_c.

Lemma div_ten_c_ok : words_ok div_ten_c.
Proof. repeat constructor; unfold is_u32; lia. Qed.

Lemma round_adds_l a : is_u32 a -> adds a 0 (fun c k r => WINDIVERT_BIG_MUL_ROUND a c r k).
Proof. intros Ha c k r Hc Hr H9 Hk Hb. rewrite (Z.mul_comm c a) in *. apply round_spec; auto. lia. Qed.

Lemma round_adds_ten : adds 10 0 (fun x k m => WINDIVERT_BIG_MUL_ROUND x 10 m k).
Proof. intros x k r Hx Hr H9 Hk Hb. apply round_spec; auto; [split; reflexivity || lia|lia]. Qed.

Lemma mul_row_adds : adds C10 5 mul_row.
Proof.
  intros a k r Ha Hr H9 Hk Hb. unfold mul_row. rewrite (Z.mul_comm a C10) in *.
  apply (for_words_adds a 0); auto; [apply Ha|now apply round_adds_l|apply div_ten_c_ok| |lia].
  change (zlen div_ten_c) with 5. lia.
Qed.

(** [C10] is [2^160 / 10] rounded up: quotient and remainder of [v / 10] are
    read off [v * C10]. *)
Lemma div_ten_arith v q lo d e : 0 <= v < 2 ^ 128 -> v * C10 = lo + 2 ^ 160 * q -> 0 <= lo < 2 ^ 160 ->
  lo * 10 = e + 2 ^ 160 * d -> 0 <= e < 2 ^ 160 -> q = v / 10 /\ d = v mod 10.
Proof.
  intros Hv Hq Hl Hd He. assert (C : 10 * C10 = 2 ^ 160 + 4) by (vm_compute; reflexivity).
  assert (E : v * 2 ^ 160 + 4 * v = 2 ^ 160 * (d + 10 * q) + e) by nia.
  assert (A : v = d + 10 * q) by lia.
  assert (0 <= d < 10) by lia.
  split; [apply (Z.div_unique_pos v 10 q d)|apply (Z.mod_unique_pos v 10 q d)]; lia.
Qed.

Lemma nine_words (r : list Z) : zlen r = 9 -> exists a b c d e f g h i, r = [a; b; c; d; e; f; g; h; i].
Proof.
  unfold zlen. intros H. do 9 (destruct r as [|? r]; [cbn in H; lia|]).
  destruct r; [now repeat eexists|cbn in H; lia].
Qed.

Lemma six_words (r : list Z) : zlen r = 6 -> exists a b c d e f, r = [a; b; c; d; e; f].
Proof.
  unfold zlen. intros H. do 6 (destruct r as [|? r]; [cbn in H; lia|]).
  destruct r; [now repeat eexists|cbn in H; lia].
Qed.

Lemma zeros_ok n : words_ok (repeat 0 n) /\ words_value (repeat 0 n) = 0.
Proof.
  induction n as [|n [IH1 IH2]]; cbn [repeat words_value]; [split; [constructor|reflexivity]|].
  split; [constructor; [unfold is_u32; lia|exact IH1]|]. rewrite IH2. lia.
Qed.

(** The quotient and the remainder, with every write inside its array. *)
Lemma div_ten_spec a : wf128 a ->
  exists q, WinDivertDivTen128 a = Some (q, val128 a mod 10) /\ wf128 q /\ val128 q = val128 a / 10.
Proof.
  intros Ha. pose proof (val128_bound a Ha) as Hb. destruct Ha as (H0 & H1 & H2 & H3).
  assert (Va : words_value [w0 a; w1 a; w2 a; w3 a] = val128 a) by (cbn [words_value]; unfold val128; lia).
  destruct (zeros_ok 9) as [O9 V9]. destruct (zeros_ok 6) as [O6 V6].
  destruct (for_words_adds C10 5 mul_row ltac:(vm_compute; congruence) mul_row_adds
    [w0 a; w1 a; w2 a; w3 a] 0 (repeat 0 9)) as (r & Er & Wr & Lr & Vr); auto;
    [unfold words_ok; auto 6|vm_compute; congruence..|lia| |].
  { rewrite Va, V9. change (zlen (repeat 0 9)) with 9. change (2 ^ (32 * Z.of_nat 0)) with 1.
    assert (C : 0 < C10 < 2 ^ 157) by (vm_compute; split; reflexivity).
    change (2 ^ (32 * 9)) with (2 ^ 128 * 2 ^ 160). nia. }
  unfold WinDivertDivTen128. rewrite Er. change (zlen (repeat 0 9)) with 9 in Lr.
  destruct (nine_words r Lr) as (r0 & r1 & r2 & r3 & r4 & r5 & r6 & r7 & r8 & ->).
  cbn [firstn nth]. rewrite Va, V9 in Vr. change (2 ^ (32 * Z.of_nat 0)) with 1 in Vr.
  apply (Forall_app is_u32 [r0; r1; r2; r3; r4] [r5; r6; r7; r8]) in Wr. destruct Wr as [Wl Wh].
  pose proof (words_value_bound _ Wl) as Bl. change (2 ^ (32 * zlen [r0; r1; r2; r3; r4])) with (2 ^ 160) in Bl.
  destruct (for_words_adds 10 0 _ ltac:(lia) round_adds_ten [r0; r1; r2; r3; r4] 0 (repeat 0 6))
    as (m & Em & Wm & Lm & Vm); auto; [vm_compute; congruence..|lia| |].
  { rewrite V6. change (2 ^ (32 * Z.of_nat 0)) with 1. change (2 ^ (32 * zlen (repeat 0 6))) with (2 ^ 192). lia. }
  rewrite Em. change (zlen (repeat 0 6)) with 6 in Lm.
  destruct (six_words m Lm) as (m0 & m1 & m2 & m3 & m4 & m5 & ->). cbn [nth].
  rewrite V6 in Vm. change (2 ^ (32 * Z.of_nat 0)) with 1 in Vm.
  apply (Forall_app is_u32 [m0; m1; m2; m3; m4] [m5]) in Wm. destruct Wm as [Wm' _].
  pose proof (words_value_bound _ Wm') as Bm. change (2 ^ (32 * zlen [m0; m1; m2; m3; m4])) with (2 ^ 160) in Bm.
  destruct (div_ten_arith (val128 a) (words_value [r5; r6; r7; r8]) (words_value [r0; r1; r2; r3; r4]) m5
    (words_value [m0; m1; m2; m3; m4])) as [Q D]; auto; [cbn [words_value] in *; lia..|].
  rewrite <- D, <- Q. eexists. split; [reflexivity|].
  inversion Wh as [|? ? X5 W5]; inversion W5 as [|? ? X6 W6]; inversion W6 as [|? ? X7 W7]; inversion W7 as [|? ? X8 _].
  subst. split; [repeat split; cbn [w0 w1 w2 w3]; apply X5 || apply X6 || apply X7 || apply X8|].
  unfold val128. cbn [w0 w1 w2 w3 words_value]. lia.
Qed.

Lemma is_zero128 v : wf128 v ->
  ((w0 v =? 0) && (w1 v =? 0) && (w2 v =? 0) && (w3 v =? 0)) = (val128 v =? 0).
Proof. intros (H0 & H1 & H2 & H3). unfold is_u32, val128 in *. lia. Qed.

(** The digits put in front of [buf]. *)
Lemma dec_digits_spec : forall n v buf, wf128 v -> val128 v < 10 ^ Z.of_nat n ->
  exists text, dec_digits n v buf = Some (text ++ buf) /\ forallb WinDivertIsDigit text = true /\
    dec_value text 0 = val128 v /\ (val128 v <> 0 -> text <> []).
Proof.
  induction n as [|n IH]; intros v buf Hv Hn; cbn [dec_digits]; pose proof (val128_bound v Hv) as Hb.
  - exists []. change (10 ^ Z.of_nat 0) with 1 in Hn. cbn. repeat split; auto; lia.
  - rewrite is_zero128 by exact Hv. destruct (Z.eqb_spec (val128 v) 0) as [E|E].
    + exists []. cbn. repeat split; auto; lia.
    + destruct (div_ten_spec v Hv) as (q & -> & Wq & Vq).
      pose proof (Z.mod_pos_bound (val128 v) 10 ltac:(lia)) as M.
      pose proof (Z.div_mod (val128 v) 10 ltac:(lia)) as D.
      rewrite Nat2Z.inj_succ, Z.pow_succ_r in Hn by lia.
      destruct (IH q ((48 + val128 v mod 10) :: buf) Wq) as (text & T1 & T2 & T3 & _).
      { rewrite Vq. apply Z.div_lt_upper_bound; lia. }
      exists (text ++ [48 + val128 v mod 10]). rewrite <- app_assoc. cbn [app]. split; [exact T1|].
      rewrite forallb_app, T2. unfold dec_value in *. rewrite fold_left_app, T3, Vq.
      cbn [forallb fold_left]. unfold WinDivertIsDigit, between.
      split; [lia|]. split; [lia|]. now destruct text.
Qed.

(** 128-bit numbers round trip through their decimal text: the division
    by ten that multiplies with a 160-bit reciprocal is exact and never
    writes outside its arrays, 40 digits are enough, and [WinDivertAToI]
    reads the number back and stops behind it. *)
Theorem decimal_roundtrip v s rest : wf128 v -> no_digit rest = true ->
  exists text, WinDivertFormatDecNumber s v = Some (WinDivertPutString s text) /\
    WinDivertAToI (text ++ rest) = Some (v, rest).
Proof.
  intros Hv Hr. pose proof (val128_bound v Hv) as Hb. unfold WinDivertFormatDecNumber.
  rewrite is_zero128 by exact Hv.
  assert (T : exists text, (if val128 v =? 0 then Some (WinDivertPutChar s 48)
      else match dec_digits 40 v [] with None => None | Some buf => Some (WinDivertPutString s buf) end) =
    Some (WinDivertPutString s text) /\ forallb WinDivertIsDigit text = true /\ dec_value text 0 = val128 v /\
    text <> []).
  { destruct (Z.eqb_spec (val128 v) 0) as [E|E].
    - exists [48]. rewrite E. repeat split; auto. congruence.
    - destruct (dec_digits_spec 40 v [] Hv) as (text & T1 & T2 & T3 & T4); [lia|].
      rewrite app_nil_r in T1. exists text. rewrite T1. auto. }
  destruct T as (text & T1 & T2 & T3 & T4). exists text. split; [exact T1|].
  pose proof (atoi_spec text rest T4 T2 Hr) as A. rewrite T3 in A.
  replace (val128 v <? 2 ^ 128) with true in A by lia. destruct A as (r & -> & W & V).
  now rewrite (val128_inj r v W Hv V).
Qed.

Lemma decimal_roundtrip_witness : exists text,
  WinDivertFormatDecNumber (mkStream [] 64 false) (W128 0xFFFFFFFF 1 2 0xFFFFFFFF) = Some (WinDivertPutString (mkStream [] 64 false) text) /\
  WinDivertAToI (text ++ [32]) = Some ((W128 0xFFFFFFFF 1 2 0xFFFFFFFF), [32]).
Proof. apply (decimal_roundtrip (W128 0xFFFFFFFF 1 2 0xFFFFFFFF) (mkStream [] 64 false) [32]); [repeat split; cbn; lia|reflexivity]. Defined.

(** ** Whatever the text, the results are well formed *)

Lemma mul_add_wf n b d r : wf128 n -> 0 < b < 2 ^ 32 -> 0 <= d < 2 ^ 32 -> mul_add n b d = Some r -> wf128 r.
Proof.
  intros Hn Hb Hd E. pose proof (mul_add_spec n b d Hn Hb Hd) as M.
  destruct (_ <? _); [destruct M as (r' & E' & W & _)|]; congruence.
Qed.

Lemma atoi_loop_wf : forall s n r rest, wf128 n -> atoi_loop n s = Some (r, rest) -> wf128 r.
Proof.
  induction s as [|c s IH]; intros n r rest Hn; cbn [atoi_loop]; [now intros [= <- <-]|].
  destruct (WinDivertIsDigit c) eqn:Ec; [|now intros [= <- <-]].
  destruct (mul_add n 10 (c - 48)) as [m|] eqn:Em; [|discriminate]. apply IH.
  unfold WinDivertIsDigit, between in Ec. apply (mul_add_wf n 10 (c - 48)); auto; lia.
Qed.

Lemma atoi_wf s r rest : WinDivertAToI s = Some (r, rest) -> wf128 r.
Proof.
  unfold WinDivertAToI. destruct (atoi_loop zero128 s) as [[n t]|] eqn:E; [|discriminate].
  destruct (_ =? _); [discriminate|]. intros [= <- <-]. exact (atoi_loop_wf _ _ _ _ wf_zero128 E).
Qed.

Lemma xdigit_range c : WinDivertIsXDigit c = true -> 0 <= xdigit c < 16.
Proof.
  unfold WinDivertIsXDigit, xdigit, WinDivertToLower, WinDivertIsDigit, between. intros H.
  destruct ((48 <=? c) && (c <=? 57)) eqn:D; [lia|].
  destruct ((65 <=? c) && (c <=? 90)) eqn:U; lia.
Qed.

Lemma atox_loop_wf : forall s n r rest, wf128 n -> atox_loop n s = Some (r, rest) -> wf128 r.
Proof.
  induction s as [|c s IH]; intros n r rest Hn; cbn [atox_loop]; [now intros [= <- <-]|].
  destruct (WinDivertIsXDigit c) eqn:Ec; [|now intros [= <- <-]].
  destruct (mul_add n 16 (xdigit c)) as [m|] eqn:Em; [|discriminate]. apply IH.
  apply xdigit_range in Ec. apply (mul_add_wf n 16 (xdigit c)); auto; lia.
Qed.

Lemma atox_wf s p r rest : WinDivertAToX s p = Some (r, rest) -> wf128 r.
Proof.
  unfold WinDivertAToX. destruct p.
  - destruct s as [|c0 [|c1 s]]; try discriminate. case_if; [|discriminate]. apply atox_loop_wf, wf_zero128.
  - destruct (atox_loop zero128 s) as [[n t]|] eqn:E; [|discriminate].
    destruct (_ =? _); [discriminate|]. intros [= <- <-]. exact (atox_loop_wf _ _ _ _ wf_zero128 E).
Qed.

Lemma ipv4_loop_u32 : forall n addr s r, is_u32 addr -> ipv4_loop n addr s = Some r -> is_u32 r.
Proof.
  induction n as [|n IH]; intros addr s r Ha; cbn [ipv4_loop].
  - destruct s; [intros [= <-]; exact Ha|discriminate].
  - destruct (WinDivertAToI s) as [[v t]|]; [|discriminate]. destruct (w0 v >? 255); [discriminate|].
    assert (Hb : is_u32 (addr ||| u32 (w0 v <<< (8 * Z.of_nat n)))) by (apply lor_bound; [lia|exact Ha|apply u32_is_u32]).
    destruct n as [|n]; [now apply IH|].
    destruct t as [|c t]; [discriminate|]. case_if; [now apply IH|discriminate].
Qed.

Lemma parse_ipv4_u32 s a : WinDivertHelperParseIPv4Address s = Some a -> is_u32 a.
Proof. apply ipv4_loop_u32. unfold is_u32. lia. Qed.

(** *** IPv6 *)

Definition u16_ok (z : Z) : Prop := 0 <= z < 2 ^ 16.

Definition v6_ok (st : v6_state) : Prop := Forall u16_ok (v6_laddr st) /\ Forall u16_ok (v6_raddr st).

Definition v6_end_ok (e : v6_end) : Prop :=
  match e with V6Bad => True | V6Ok st => v6_ok st | V6Tail st a => v6_ok st /\ is_u32 a end.

Lemma v6_group_ok last next st s : v6_ok st -> (forall st s, v6_ok st -> v6_end_ok (next st s)) ->
  v6_end_ok (v6_group last next st s).
Proof.
  intros [Hl Hr] Hn. unfold v6_group.
  destruct (if v6_i st <? 6 then _ else None) as [a|] eqn:E4.
  - destruct (v6_i st <? 6); [|discriminate]. split; [split; assumption|]. exact (parse_ipv4_u32 _ _ E4).
  - destruct (hex_part 4 s) as [p t]. case_if; [exact I|]. case_if; [exact I|].
    set (part := match WinDivertAToX p false with Some _ => _ | None => _ end).
    assert (Hp : u16_ok part).
    { unfold part. destruct (WinDivertAToX p false) as [[n r]|]; [|unfold u16_ok; lia].
      unfold u16_ok, u16. apply Z.mod_pos_bound. lia. }
    clearbody part.
    assert (Hs : v6_ok (if v6_left st
      then mkV6 true (v6_i st + 1) (v6_j st) (set_nth (Z.to_nat (v6_i st)) part (v6_laddr st)) (v6_raddr st)
      else mkV6 false (v6_i st) (v6_j st + 1) (v6_laddr st) (set_nth (Z.to_nat (v6_j st)) part (v6_raddr st))))
      by (destruct (v6_left st); split; cbn [v6_laddr v6_raddr]; auto using set_nth_forall).
    destruct t as [|c t]; [case_if; [exact Hs|exact I]|]. apply Hn, Hs.
Qed.

Lemma v6_loop_ok : forall n st s, v6_ok st -> v6_end_ok (v6_loop n st s).
Proof.
  induction n as [|n IH]; intros st s H; cbn [v6_loop]; [exact H|].
  case_if; [|now apply v6_group_ok]. case_if; [exact I|].
  destruct (tl s); [exact H|]. now apply v6_group_ok.
Qed.

Lemma nth_u16 l k : Forall u16_ok l -> u16_ok (nth k l 0).
Proof.
  intros H. destruct (nth_in_or_default k l 0) as [I|E]; [|rewrite E; unfold u16_ok; lia].
  exact (proj1 (Forall_forall _ _) H _ I).
Qed.

Lemma v6_word_u32 st i w : v6_ok st -> v6_word st i = Some w -> is_u32 w.
Proof.
  intros [Hl Hr]. unfold v6_word. cbv zeta.
  generalize (Z.to_nat (if 2 * i + v6_j st + 1 >=? 8 then 2 * i + v6_j st + 1 - 8 else 2 * i + v6_j st + 1)) as l.
  intros l. destruct (nth_error (v6_raddr st) l) as [x|] eqn:Ex; [|discriminate].
  generalize (Z.to_nat (if 2 * i + v6_j st >=? 8 then 2 * i + v6_j st - 8 else 2 * i + v6_j st)) as k.
  intros k. destruct (nth_error (v6_raddr st) k) as [y|] eqn:Ey; [|discriminate].
  intros [= <-]. apply nth_error_In in Ex, Ey. pose proof (proj1 (Forall_forall _ _) Hr _ Ex) as Bx. pose proof (proj1 (Forall_forall _ _) Hr _ Ey) as By.
  assert (S : forall z, u16_ok z -> is_u32 (z <<< 16))
    by (unfold u16_ok, is_u32; intros z Hz; rewrite Z.shiftl_mul_pow2 by lia; lia).
  assert (T : forall z, u16_ok z -> is_u32 z) by (unfold u16_ok, is_u32; lia).
  repeat apply lor_bound; try lia; try apply S; try apply T; auto using nth_u16.
Qed.

Lemma v6_assemble_wf st a : v6_ok st -> v6_assemble st = Some a -> wf128 a.
Proof.
  intros H. unfold v6_assemble.
  destruct (v6_word st 3) eqn:E3; [|discriminate]. destruct (v6_word st 2) eqn:E2; [|discriminate].
  destruct (v6_word st 1) eqn:E1; [|discriminate]. destruct (v6_word st 0) eqn:E0; [|discriminate].
  intros [= <-]. repeat split; cbn [w0 w1 w2 w3]; eapply v6_word_u32; eassumption.
Qed.

Lemma parse_ipv6_wf s a : WinDivertHelperParseIPv6Address s = V6True a -> wf128 a.
Proof.
  assert (Z : Forall u16_ok (repeat 0 8)) by (repeat constructor; unfold u16_ok; lia).
  assert (F : forall e, v6_end_ok e -> v6_finish e = V6True a -> wf128 a).
  { intros [|st|st x] He; cbn [v6_finish]; [discriminate|..].
    - destruct (v6_assemble st) eqn:E; [|discriminate]. intros [= <-]. exact (v6_assemble_wf _ _ He E).
    - destruct He as [He Hx]. destruct (v6_assemble st) eqn:E; [|discriminate]. case_if; [discriminate|].
      intros [= <-]. destruct (v6_assemble_wf _ _ He E) as (_ & H1 & H2 & H3). exact (conj Hx (conj H1 (conj H2 H3))). }
  unfold WinDivertHelperParseIPv6Address.
  assert (G : forall b s, v6_finish (v6_loop 8 (mkV6 b 0 0 (repeat 0 8) (repeat 0 8)) s) = V6True a -> wf128 a)
    by (intros b t; apply F, v6_loop_ok; split; exact Z).
  case_if; [|apply G]. case_if; [discriminate|].
  destruct (tl (tl s)); [apply F; split; exact Z|apply G].
Qed.
