(* ===== verification/CString.v ===== *)
(** * The C string functions the library uses

    A C string is the list of its characters before the NUL.  [strchr],
    [strcmp], [strcasecmp], [strtok], [snprintf] of one string, [atoi] and
    [strtol] of the C library as [src/ebpfdivert.c], [src/handle.c] and
    [src/ebpfdivert-cli.c] call them, in the "C" locale. *)

From Stdlib Require Import Ascii String ZArith List Bool Lia ZifyBool.
From S2P Require Import Prelude WdTypes WdSerial WdAddr.
Import ListNotations.
#[local] Open Scope list_scope.
#[local] Open Scope Z_scope.

(** [strchr(s, c)] *)
Fixpoint strchr (c : Z) (s : list Z) : option (list Z) :=
  match s with
  | [] => None
  | x :: tl => if x =? c then Some s else strchr c tl
  end.

(** [*strchr(s, c) = '\0']: what is left of [s] in front of the [c]. *)
Fixpoint before (c : Z) (s : list Z) : list Z :=
  match s with
  | [] => []
  | x :: tl => if x =? c then [] else x :: before c tl
  end.

(** [snprintf(buf, n, "%s", s)] *)
Definition snprintf (n : Z) (s : list Z) : list Z := firstn (Z.to_nat (n - 1)) s.

(** [strcmp(s, t) == 0] *)
Fixpoint streq (s t : list Z) : bool :=
  match s, t with
  | [], [] => true
  | x :: s, y :: t => (x =? y) && streq s t
  | _, _ => false
  end.

Definition tolower (c : Z) : Z := if between 65 c 90 then c + 32 else c.

(** [strcasecmp(s, t) == 0] *)
Definition strcaseeq (s t : list Z) : bool := streq (map tolower s) (map tolower t).

(** [strstr(s, t) != NULL] *)
Fixpoint starts_with (t s : list Z) : bool :=
  match t, s with
  | [], _ => true
  | x :: t, y :: s => (x =? y) && starts_with t s
  | _ :: _, [] => false
  end.

Fixpoint strstr (s t : list Z) : bool :=
  starts_with t s || match s with [] => false | _ :: s => strstr s t end.

(** The tokens that successive calls of [strtok] return: the maximal runs of
    characters that are not delimiters.  [cur] is the run read so far, in
    reverse. *)
Fixpoint strtok_loop (delim cur s : list Z) : list (list Z) :=
  let flush := match cur with [] => [] | _ => [rev cur] end in
  match s with
  | [] => flush
  | x :: tl =>
    if existsb (Z.eqb x) delim then flush ++ strtok_loop delim [] tl
    else strtok_loop delim (x :: cur) tl
  end.

Definition strtok (delim s : list Z) : list (list Z) := strtok_loop delim [] s.

(** ** Numbers *)

Definition isspace (c : Z) : bool := (c =? 32) || between 9 c 13.

Fixpoint skip_space (s : list Z) : list Z :=
  match s with
  | x :: tl => if isspace x then skip_space tl else s
  | [] => []
  end.

(** The sign and what follows it. *)
Definition sign_of (s : list Z) : Z * list Z :=
  match s with
  | x :: tl => if x =? 45 then (-1, tl) else if x =? 43 then (1, tl) else (1, s)
  | [] => (1, [])
  end.

Definition digit_of (c : Z) : Z :=
  if between 48 c 57 then c - 48
  else if between 97 c 122 then c - 97 + 10
  else if between 65 c 90 then c - 65 + 10
  else 36.

Fixpoint digits_loop (base acc : Z) (s : list Z) : Z * list Z :=
  match s with
  | x :: tl => if digit_of x <? base then digits_loop base (acc * base + digit_of x) tl else (acc, s)
  | [] => (acc, [])
  end.

(** In base 16 a [0x] in front of a digit is skipped. *)
Definition skip_prefix (base : Z) (s : list Z) : list Z :=
  match s with
  | z :: x :: d :: _ =>
    if (base =? 16) && (z =? 48) && (tolower x =? 120) && (digit_of d <? 16) then skipn 2 s else s
  | _ => s
  end.

(** The exact value and the text behind it; without a digit nothing is read. *)
Definition number (base : Z) (s : list Z) : Z * list Z :=
  let '(sg, t) := sign_of (skip_space s) in
  let t := skip_prefix base t in
  match t with
  | x :: _ =>
    if digit_of x <? base then let '(v, rest) := digits_loop base 0 t in (sg * v, rest) else (0, s)
  | [] => (0, s)
  end.

Definition LONG_MAX : Z := 2 ^ 63 - 1.
Definition LONG_MIN : Z := - 2 ^ 63.

(** [strtol(s, &endptr, base)]: the value, saturated, and the text at
    [endptr]. *)
Definition strtol (base : Z) (s : list Z) : Z * list Z :=
  let '(v, rest) := number base s in (Z.max LONG_MIN (Z.min LONG_MAX v), rest).

(** [atoi(s)]; undefined when the value is no [int]. *)
Definition atoi (s : list Z) : option Z :=
  let v := fst (number 10 s) in
  if (- 2 ^ 31 <=? v) && (v <? 2 ^ 31) then Some v else None.

(** ** Searching *)

Lemma strchr_app c a b : ~ In c a -> strchr c (a ++ b) = strchr c b.
Proof.
  induction a as [|x a IH]; cbn; [reflexivity|]. intros H. destruct (Z.eqb_spec x c); [tauto|]. apply IH. tauto.
Qed.

Lemma strchr_at c a b : ~ In c a -> strchr c (a ++ c :: b) = Some (c :: b).
Proof. intros H. rewrite strchr_app by exact H. cbn. now rewrite Z.eqb_refl. Qed.

Lemma before_at c a b : ~ In c a -> before c (a ++ c :: b) = a.
Proof.
  induction a as [|x a IH]; cbn; [now rewrite Z.eqb_refl|]. intros H.
  destruct (Z.eqb_spec x c); [tauto|]. rewrite IH by tauto. reflexivity.
Qed.

Lemma snprintf_fits n s : zlen s < n -> snprintf n s = s.
Proof. unfold zlen, snprintf. intros H. apply firstn_all2. lia. Qed.

(** ** Comparing *)

Lemma streq_spec s : forall t, streq s t = true <-> s = t.
Proof.
  induction s as [|x s IH]; intros [|y t]; cbn; try easy.
  rewrite andb_true_iff, Z.eqb_eq, IH. split; [intros [-> ->]; reflexivity|intros [= -> ->]; auto].
Qed.

Lemma streq_refl s : streq s s = true.
Proof. now apply streq_spec. Qed.

Lemma streq_first x s y t : x <> y -> streq (x :: s) (y :: t) = false.
Proof. intros H. cbn. destruct (Z.eqb_spec x y); tauto. Qed.

(** ** Reading numbers *)

Lemma digit_decimal c : WinDivertIsDigit c = true -> digit_of c = c - 48 /\ c - 48 < 10.
Proof. unfold WinDivertIsDigit, digit_of, between. intros H. rewrite H. lia. Qed.

Lemma digits_loop_spec rest : digit_of (hd 0 rest) >= 10 -> forall s acc, forallb WinDivertIsDigit s = true ->
  digits_loop 10 acc (s ++ rest) = (dec_value s acc, rest).
Proof.
  intros Hr. induction s as [|c s IH]; intros acc H.
  - destruct rest as [|x rest]; [reflexivity|]. cbn [app digits_loop hd] in *.
    now replace (digit_of x <? 10) with false by lia.
  - cbn [forallb] in H. apply andb_true_iff in H. destruct H as [Hc Hs].
    destruct (digit_decimal c Hc) as [E L]. cbn [app digits_loop]. rewrite E.
    replace (c - 48 <? 10) with true by lia. rewrite IH by exact Hs. reflexivity.
Qed.

Lemma number_decimal s rest : s <> [] -> forallb WinDivertIsDigit s = true -> digit_of (hd 0 rest) >= 10 ->
  number 10 (s ++ rest) = (dec_value s 0, rest).
Proof.
  intros Hn Hs Hr. destruct s as [|c s]; [congruence|].
  pose proof Hs as Hc. cbn [forallb] in Hc. apply andb_true_iff in Hc. destruct Hc as [Hc _].
  destruct (digit_decimal c Hc) as [E L]. unfold WinDivertIsDigit, between in Hc.
  unfold number. cbn [app skip_space]. unfold isspace, between.
  replace ((c =? 32) || ((9 <=? c) && (c <=? 13))) with false by lia.
  cbn [sign_of]. replace (c =? 45) with false by lia. replace (c =? 43) with false by lia.
  assert (P : forall l, skip_prefix 10 l = l) by (intros [|? [|? [|? ?]]]; reflexivity).
  rewrite P, E. replace (c - 48 <? 10) with true by lia.
  change (c :: s ++ rest) with ((c :: s) ++ rest). rewrite digits_loop_spec by assumption.
  f_equal. lia.
Qed.

(** [printf("%u", v)] *)
Definition decimal (v : Z) : list Z := dec_text 9 v false.

Lemma decimal_digits v : 0 <= v < 2 ^ 32 ->
  forallb WinDivertIsDigit (decimal v) = true /\ decimal v <> [] /\ dec_value (decimal v) 0 = v.
Proof.
  intros H. destruct (dec_text_spec 9 v false 0) as (D1 & D2 & D3 & _); [lia|reflexivity|].
  split; [exact D1|]. split; [exact D2|]. unfold decimal. rewrite D3. lia.
Qed.

Lemma digit_bounds s c : forallb WinDivertIsDigit s = true -> In c s -> 48 <= c <= 57.
Proof.
  intros H Hc. rewrite forallb_forall in H. specialize (H c Hc). unfold WinDivertIsDigit, between in H. lia.
Qed.

Lemma decimal_no v c : 0 <= v < 2 ^ 32 -> c < 48 \/ 57 < c -> ~ In c (decimal v).
Proof. intros H Hc Hi. destruct (decimal_digits v H) as [D _]. pose proof (digit_bounds _ _ D Hi). lia. Qed.

Lemma atoi_decimal v rest : 0 <= v < 2 ^ 31 -> digit_of (hd 0 rest) >= 10 ->
  atoi (decimal v ++ rest) = Some v.
Proof.
  intros H Hr. destruct (decimal_digits v) as (D1 & D2 & D3); [lia|].
  unfold atoi. rewrite number_decimal by assumption. cbn [fst]. rewrite D3.
  now replace ((- 2 ^ 31 <=? v) && (v <? 2 ^ 31)) with true by lia.
Qed.

Lemma atoi_plain v : 0 <= v < 2 ^ 31 -> atoi (decimal v) = Some v.
Proof. intros H. rewrite <- (app_nil_r (decimal v)). apply atoi_decimal; [exact H|cbn; lia]. Qed.

(** A decimal text is no name. *)
Lemma decimal_not_name v name : 0 <= v < 2 ^ 32 -> hd 0 name < 48 \/ 57 < hd 0 name ->
  streq (decimal v) name = false.
Proof.
  intros H Hc. destruct (decimal_digits v H) as (D1 & D2 & _).
  destruct (decimal v) as [|x d] eqn:E; [congruence|]. destruct name as [|c name]; [reflexivity|].
  apply streq_first. intros ->. cbn [hd] in Hc. pose proof (digit_bounds _ c D1 (or_introl eq_refl)). lia.
Qed.

Lemma tolower_digit c : 48 <= c <= 57 -> tolower c = c.
Proof. unfold tolower, between. intros H. now replace ((65 <=? c) && (c <=? 90)) with false by lia. Qed.

Lemma decimal_lower v : 0 <= v < 2 ^ 32 -> map tolower (decimal v) = decimal v.
Proof.
  intros H. destruct (decimal_digits v H) as (D1 & _). rewrite <- (map_id (decimal v)) at 2.
  apply map_ext_in. intros c Hc. apply tolower_digit. now apply (digit_bounds (decimal v)).
Qed.

Lemma decimal_not_case_name v name : 0 <= v < 2 ^ 32 -> 57 < tolower (hd 0 name) ->
  strcaseeq (decimal v) name = false.
Proof.
  intros H Hc. unfold strcaseeq. rewrite decimal_lower by exact H. apply decimal_not_name; [exact H|].
  destruct name; [now left|]. now right.
Qed.

(** How long the text of a number is. *)
Lemma decimal_length n v : 0 <= v < 10 ^ Z.of_nat (S n) -> (n <= 9)%nat -> zlen (decimal v) <= Z.of_nat (S n).
Proof.
  unfold decimal. intros H Hn.
  assert (G : forall k, (n <= k)%nat -> dec_text k v false = dec_text n v false).
  { induction k as [|k IH]; intros Hk; [now replace n with 0%nat by lia|].
    destruct (Nat.eq_dec n (S k)) as [->|]; [reflexivity|]. cbn [dec_text].
    assert (B : 0 <= v < 10 ^ Z.of_nat (S k)) by (split; [lia|]; eapply Z.lt_le_trans; [apply H|]; apply Z.pow_le_mono_r; lia).
    rewrite Z.div_small, Z.mod_small by exact B. cbn. apply IH. lia. }
  rewrite (G 9%nat Hn). destruct (dec_text_spec n v false 0 H) as (_ & _ & _ & L); [reflexivity|].
  unfold zlen. lia.
Qed.

(** What holds of every byte, checked for each. *)
Lemma byte_cases (P : Z -> bool) : forallb (fun n => P (Z.of_nat n)) (seq 0 256) = true ->
  forall b, 0 <= b < 256 -> P b = true.
Proof.
  intros H b Hb. rewrite forallb_forall in H. replace b with (Z.of_nat (Z.to_nat b)) by lia.
  apply H, in_seq. lia.
Qed.
