(* ===== verification/WdLex.v ===== *)
(** * Tokenizer of the filter language

    [WinDivertTokenizeFilter] of [src/wd/windivert_helper.c] with its tables:
    the tokens [KIND], the names [token_info] with the binary search
    [WinDivertTokenLookup], the fields of [WinDivertKindToField] and the
    macros of [WinDivertExpandMacro].  The loop runs on the characters left;
    [fuel] bounds its rounds, each of which reads a character or ends. *)

From Stdlib Require Import Ascii String ZArith List Bool Lia.
From S2P Require Import Prelude WdTypes WdSerial WdAddr.
Import ListNotations.
#[local] Open Scope list_scope.
#[local] Open Scope Z_scope.

(** ** Tokens *)

Inductive KIND : Set :=
| TOKEN_ICMP | TOKEN_ICMP_BODY | TOKEN_ICMP_CHECKSUM | TOKEN_ICMP_CODE | TOKEN_ICMP_TYPE
| TOKEN_ICMPV6 | TOKEN_ICMPV6_BODY | TOKEN_ICMPV6_CHECKSUM | TOKEN_ICMPV6_CODE | TOKEN_ICMPV6_TYPE
| TOKEN_IP | TOKEN_IP_CHECKSUM | TOKEN_IP_DF | TOKEN_IP_DST_ADDR | TOKEN_IP_FRAG_OFF
| TOKEN_IP_HDR_LENGTH | TOKEN_IP_ID | TOKEN_IP_LENGTH | TOKEN_IP_MF | TOKEN_IP_PROTOCOL
| TOKEN_IP_SRC_ADDR | TOKEN_IP_TOS | TOKEN_IP_TTL | TOKEN_IPV6 | TOKEN_IPV6_DST_ADDR
| TOKEN_IPV6_FLOW_LABEL | TOKEN_IPV6_HOP_LIMIT | TOKEN_IPV6_LENGTH | TOKEN_IPV6_NEXT_HDR
| TOKEN_IPV6_SRC_ADDR | TOKEN_IPV6_TRAFFIC_CLASS | TOKEN_TCP | TOKEN_TCP_ACK | TOKEN_TCP_ACK_NUM
| TOKEN_TCP_CHECKSUM | TOKEN_TCP_DST_PORT | TOKEN_TCP_FIN | TOKEN_TCP_HDR_LENGTH
| TOKEN_TCP_PAYLOAD | TOKEN_TCP_PAYLOAD16 | TOKEN_TCP_PAYLOAD32 | TOKEN_TCP_PAYLOAD_LENGTH
| TOKEN_TCP_PSH | TOKEN_TCP_RST | TOKEN_TCP_SEQ_NUM | TOKEN_TCP_SRC_PORT | TOKEN_TCP_SYN
| TOKEN_TCP_URG | TOKEN_TCP_URG_PTR | TOKEN_TCP_WINDOW | TOKEN_UDP | TOKEN_UDP_CHECKSUM
| TOKEN_UDP_DST_PORT | TOKEN_UDP_LENGTH | TOKEN_UDP_PAYLOAD | TOKEN_UDP_PAYLOAD16
| TOKEN_UDP_PAYLOAD32 | TOKEN_UDP_PAYLOAD_LENGTH | TOKEN_UDP_SRC_PORT | TOKEN_ZERO | TOKEN_EVENT
| TOKEN_RANDOM8 | TOKEN_RANDOM16 | TOKEN_RANDOM32 | TOKEN_PACKET | TOKEN_PACKET16 | TOKEN_PACKET32
| TOKEN_LENGTH | TOKEN_TIMESTAMP | TOKEN_TRUE | TOKEN_FALSE | TOKEN_INBOUND | TOKEN_OUTBOUND
| TOKEN_FRAGMENT | TOKEN_IF_IDX | TOKEN_SUB_IF_IDX | TOKEN_LOOPBACK | TOKEN_IMPOSTOR
| TOKEN_PROCESS_ID | TOKEN_LOCAL_ADDR | TOKEN_REMOTE_ADDR | TOKEN_LOCAL_PORT | TOKEN_REMOTE_PORT
| TOKEN_PROTOCOL | TOKEN_ENDPOINT_ID | TOKEN_PARENT_ENDPOINT_ID | TOKEN_LAYER | TOKEN_PRIORITY
| TOKEN_FLOW | TOKEN_SOCKET | TOKEN_NETWORK | TOKEN_NETWORK_FORWARD | TOKEN_REFLECT
| TOKEN_EVENT_PACKET | TOKEN_EVENT_ESTABLISHED | TOKEN_EVENT_DELETED | TOKEN_EVENT_BIND
| TOKEN_EVENT_CONNECT | TOKEN_EVENT_LISTEN | TOKEN_EVENT_ACCEPT | TOKEN_EVENT_OPEN
| TOKEN_EVENT_CLOSE | TOKEN_MACRO_TRUE | TOKEN_MACRO_FALSE | TOKEN_MACRO_TCP | TOKEN_MACRO_UDP
| TOKEN_MACRO_ICMP | TOKEN_MACRO_ICMPV6 | TOKEN_OPEN | TOKEN_CLOSE | TOKEN_SQUARE_OPEN
| TOKEN_SQUARE_CLOSE | TOKEN_MINUS | TOKEN_BYTES | TOKEN_EQ | TOKEN_NEQ | TOKEN_LT | TOKEN_LEQ
| TOKEN_GT | TOKEN_GEQ | TOKEN_NOT | TOKEN_AND | TOKEN_OR | TOKEN_COLON | TOKEN_QUESTION
| TOKEN_NUMBER | TOKEN_END.

Definition all_kinds : list KIND :=
  [TOKEN_ICMP; TOKEN_ICMP_BODY; TOKEN_ICMP_CHECKSUM; TOKEN_ICMP_CODE; TOKEN_ICMP_TYPE;
   TOKEN_ICMPV6; TOKEN_ICMPV6_BODY; TOKEN_ICMPV6_CHECKSUM; TOKEN_ICMPV6_CODE; TOKEN_ICMPV6_TYPE;
   TOKEN_IP; TOKEN_IP_CHECKSUM; TOKEN_IP_DF; TOKEN_IP_DST_ADDR; TOKEN_IP_FRAG_OFF;
   TOKEN_IP_HDR_LENGTH; TOKEN_IP_ID; TOKEN_IP_LENGTH; TOKEN_IP_MF; TOKEN_IP_PROTOCOL;
   TOKEN_IP_SRC_ADDR; TOKEN_IP_TOS; TOKEN_IP_TTL; TOKEN_IPV6; TOKEN_IPV6_DST_ADDR;
   TOKEN_IPV6_FLOW_LABEL; TOKEN_IPV6_HOP_LIMIT; TOKEN_IPV6_LENGTH; TOKEN_IPV6_NEXT_HDR;
   TOKEN_IPV6_SRC_ADDR; TOKEN_IPV6_TRAFFIC_CLASS; TOKEN_TCP; TOKEN_TCP_ACK; TOKEN_TCP_ACK_NUM;
   TOKEN_TCP_CHECKSUM; TOKEN_TCP_DST_PORT; TOKEN_TCP_FIN; TOKEN_TCP_HDR_LENGTH; TOKEN_TCP_PAYLOAD;
   TOKEN_TCP_PAYLOAD16; TOKEN_TCP_PAYLOAD32; TOKEN_TCP_PAYLOAD_LENGTH; TOKEN_TCP_PSH;
   TOKEN_TCP_RST; TOKEN_TCP_SEQ_NUM; TOKEN_TCP_SRC_PORT; TOKEN_TCP_SYN; TOKEN_TCP_URG;
   TOKEN_TCP_URG_PTR; TOKEN_TCP_WINDOW; TOKEN_UDP; TOKEN_UDP_CHECKSUM; TOKEN_UDP_DST_PORT;
   TOKEN_UDP_LENGTH; TOKEN_UDP_PAYLOAD; TOKEN_UDP_PAYLOAD16; TOKEN_UDP_PAYLOAD32;
   TOKEN_UDP_PAYLOAD_LENGTH; TOKEN_UDP_SRC_PORT; TOKEN_ZERO; TOKEN_EVENT; TOKEN_RANDOM8;
   TOKEN_RANDOM16; TOKEN_RANDOM32; TOKEN_PACKET; TOKEN_PACKET16; TOKEN_PACKET32; TOKEN_LENGTH;
   TOKEN_TIMESTAMP; TOKEN_TRUE; TOKEN_FALSE; TOKEN_INBOUND; TOKEN_OUTBOUND; TOKEN_FRAGMENT;
   TOKEN_IF_IDX; TOKEN_SUB_IF_IDX; TOKEN_LOOPBACK; TOKEN_IMPOSTOR; TOKEN_PROCESS_ID;
   TOKEN_LOCAL_ADDR; TOKEN_REMOTE_ADDR; TOKEN_LOCAL_PORT; TOKEN_REMOTE_PORT; TOKEN_PROTOCOL;
   TOKEN_ENDPOINT_ID; TOKEN_PARENT_ENDPOINT_ID; TOKEN_LAYER; TOKEN_PRIORITY; TOKEN_FLOW;
   TOKEN_SOCKET; TOKEN_NETWORK; TOKEN_NETWORK_FORWARD; TOKEN_REFLECT; TOKEN_EVENT_PACKET;
   TOKEN_EVENT_ESTABLISHED; TOKEN_EVENT_DELETED; TOKEN_EVENT_BIND; TOKEN_EVENT_CONNECT;
   TOKEN_EVENT_LISTEN; TOKEN_EVENT_ACCEPT; TOKEN_EVENT_OPEN; TOKEN_EVENT_CLOSE; TOKEN_MACRO_TRUE;
   TOKEN_MACRO_FALSE; TOKEN_MACRO_TCP; TOKEN_MACRO_UDP; TOKEN_MACRO_ICMP; TOKEN_MACRO_ICMPV6;
   TOKEN_OPEN; TOKEN_CLOSE; TOKEN_SQUARE_OPEN; TOKEN_SQUARE_CLOSE; TOKEN_MINUS; TOKEN_BYTES;
   TOKEN_EQ; TOKEN_NEQ; TOKEN_LT; TOKEN_LEQ; TOKEN_GT; TOKEN_GEQ; TOKEN_NOT; TOKEN_AND; TOKEN_OR;
   TOKEN_COLON; TOKEN_QUESTION; TOKEN_NUMBER; TOKEN_END].

Definition kind_code (k : KIND) : Z :=
  match k with
  | TOKEN_ICMP => 0 | TOKEN_ICMP_BODY => 1 | TOKEN_ICMP_CHECKSUM => 2 | TOKEN_ICMP_CODE => 3
  | TOKEN_ICMP_TYPE => 4 | TOKEN_ICMPV6 => 5 | TOKEN_ICMPV6_BODY => 6 | TOKEN_ICMPV6_CHECKSUM => 7
  | TOKEN_ICMPV6_CODE => 8 | TOKEN_ICMPV6_TYPE => 9 | TOKEN_IP => 10 | TOKEN_IP_CHECKSUM => 11
  | TOKEN_IP_DF => 12 | TOKEN_IP_DST_ADDR => 13 | TOKEN_IP_FRAG_OFF => 14 | TOKEN_IP_HDR_LENGTH => 15
  | TOKEN_IP_ID => 16 | TOKEN_IP_LENGTH => 17 | TOKEN_IP_MF => 18 | TOKEN_IP_PROTOCOL => 19
  | TOKEN_IP_SRC_ADDR => 20 | TOKEN_IP_TOS => 21 | TOKEN_IP_TTL => 22 | TOKEN_IPV6 => 23
  | TOKEN_IPV6_DST_ADDR => 24 | TOKEN_IPV6_FLOW_LABEL => 25 | TOKEN_IPV6_HOP_LIMIT => 26
  | TOKEN_IPV6_LENGTH => 27 | TOKEN_IPV6_NEXT_HDR => 28 | TOKEN_IPV6_SRC_ADDR => 29
  | TOKEN_IPV6_TRAFFIC_CLASS => 30 | TOKEN_TCP => 31 | TOKEN_TCP_ACK => 32 | TOKEN_TCP_ACK_NUM => 33
  | TOKEN_TCP_CHECKSUM => 34 | TOKEN_TCP_DST_PORT => 35 | TOKEN_TCP_FIN => 36
  | TOKEN_TCP_HDR_LENGTH => 37 | TOKEN_TCP_PAYLOAD => 38 | TOKEN_TCP_PAYLOAD16 => 39
  | TOKEN_TCP_PAYLOAD32 => 40 | TOKEN_TCP_PAYLOAD_LENGTH => 41 | TOKEN_TCP_PSH => 42
  | TOKEN_TCP_RST => 43 | TOKEN_TCP_SEQ_NUM => 44 | TOKEN_TCP_SRC_PORT => 45 | TOKEN_TCP_SYN => 46
  | TOKEN_TCP_URG => 47 | TOKEN_TCP_URG_PTR => 48 | TOKEN_TCP_WINDOW => 49 | TOKEN_UDP => 50
  | TOKEN_UDP_CHECKSUM => 51 | TOKEN_UDP_DST_PORT => 52 | TOKEN_UDP_LENGTH => 53
  | TOKEN_UDP_PAYLOAD => 54 | TOKEN_UDP_PAYLOAD16 => 55 | TOKEN_UDP_PAYLOAD32 => 56
  | TOKEN_UDP_PAYLOAD_LENGTH => 57 | TOKEN_UDP_SRC_PORT => 58 | TOKEN_ZERO => 59 | TOKEN_EVENT => 60
  | TOKEN_RANDOM8 => 61 | TOKEN_RANDOM16 => 62 | TOKEN_RANDOM32 => 63 | TOKEN_PACKET => 64
  | TOKEN_PACKET16 => 65 | TOKEN_PACKET32 => 66 | TOKEN_LENGTH => 67 | TOKEN_TIMESTAMP => 68
  | TOKEN_TRUE => 69 | TOKEN_FALSE => 70 | TOKEN_INBOUND => 71 | TOKEN_OUTBOUND => 72
  | TOKEN_FRAGMENT => 73 | TOKEN_IF_IDX => 74 | TOKEN_SUB_IF_IDX => 75 | TOKEN_LOOPBACK => 76
  | TOKEN_IMPOSTOR => 77 | TOKEN_PROCESS_ID => 78 | TOKEN_LOCAL_ADDR => 79 | TOKEN_REMOTE_ADDR => 80
  | TOKEN_LOCAL_PORT => 81 | TOKEN_REMOTE_PORT => 82 | TOKEN_PROTOCOL => 83 | TOKEN_ENDPOINT_ID => 84
  | TOKEN_PARENT_ENDPOINT_ID => 85 | TOKEN_LAYER => 86 | TOKEN_PRIORITY => 87 | TOKEN_FLOW => 88
  | TOKEN_SOCKET => 89 | TOKEN_NETWORK => 90 | TOKEN_NETWORK_FORWARD => 91 | TOKEN_REFLECT => 92
  | TOKEN_EVENT_PACKET => 93 | TOKEN_EVENT_ESTABLISHED => 94 | TOKEN_EVENT_DELETED => 95
  | TOKEN_EVENT_BIND => 96 | TOKEN_EVENT_CONNECT => 97 | TOKEN_EVENT_LISTEN => 98
  | TOKEN_EVENT_ACCEPT => 99 | TOKEN_EVENT_OPEN => 100 | TOKEN_EVENT_CLOSE => 101
  | TOKEN_MACRO_TRUE => 102 | TOKEN_MACRO_FALSE => 103 | TOKEN_MACRO_TCP => 104
  | TOKEN_MACRO_UDP => 105 | TOKEN_MACRO_ICMP => 106 | TOKEN_MACRO_ICMPV6 => 107 | TOKEN_OPEN => 108
  | TOKEN_CLOSE => 109 | TOKEN_SQUARE_OPEN => 110 | TOKEN_SQUARE_CLOSE => 111 | TOKEN_MINUS => 112
  | TOKEN_BYTES => 113 | TOKEN_EQ => 114 | TOKEN_NEQ => 115 | TOKEN_LT => 116 | TOKEN_LEQ => 117
  | TOKEN_GT => 118 | TOKEN_GEQ => 119 | TOKEN_NOT => 120 | TOKEN_AND => 121 | TOKEN_OR => 122
  | TOKEN_COLON => 123 | TOKEN_QUESTION => 124 | TOKEN_NUMBER => 125 | TOKEN_END => 126
  end.

Definition kind_eqb (a b : KIND) : bool := kind_code a =? kind_code b.

(** A token; [pos] is not set for the [b] of a number like [3b]. *)
Record TOKEN : Set := mkToken {
  kind : KIND;
  pos : option Z;
  val : u128
}.

Definition TOKEN_MAXLEN : Z := 40.

(** [None] is [UINT32_MAX]. *)
Definition WinDivertKindToField (kind : KIND) : option FIELD :=
  match kind with
  | TOKEN_ZERO => Some FIELD_ZERO | TOKEN_EVENT => Some FIELD_EVENT
  | TOKEN_RANDOM8 => Some FIELD_RANDOM8 | TOKEN_RANDOM16 => Some FIELD_RANDOM16
  | TOKEN_RANDOM32 => Some FIELD_RANDOM32 | TOKEN_PACKET => Some FIELD_PACKET
  | TOKEN_PACKET16 => Some FIELD_PACKET16 | TOKEN_PACKET32 => Some FIELD_PACKET32
  | TOKEN_LENGTH => Some FIELD_LENGTH | TOKEN_TIMESTAMP => Some FIELD_TIMESTAMP
  | TOKEN_TCP_PAYLOAD => Some FIELD_TCP_PAYLOAD | TOKEN_TCP_PAYLOAD16 => Some FIELD_TCP_PAYLOAD16
  | TOKEN_TCP_PAYLOAD32 => Some FIELD_TCP_PAYLOAD32 | TOKEN_UDP_PAYLOAD => Some FIELD_UDP_PAYLOAD
  | TOKEN_UDP_PAYLOAD16 => Some FIELD_UDP_PAYLOAD16 | TOKEN_UDP_PAYLOAD32 => Some FIELD_UDP_PAYLOAD32
  | TOKEN_OUTBOUND => Some FIELD_OUTBOUND | TOKEN_INBOUND => Some FIELD_INBOUND
  | TOKEN_FRAGMENT => Some FIELD_FRAGMENT | TOKEN_IF_IDX => Some FIELD_IFIDX
  | TOKEN_SUB_IF_IDX => Some FIELD_SUBIFIDX | TOKEN_LOOPBACK => Some FIELD_LOOPBACK
  | TOKEN_IMPOSTOR => Some FIELD_IMPOSTOR | TOKEN_PROCESS_ID => Some FIELD_PROCESSID
  | TOKEN_LOCAL_ADDR => Some FIELD_LOCALADDR | TOKEN_REMOTE_ADDR => Some FIELD_REMOTEADDR
  | TOKEN_LOCAL_PORT => Some FIELD_LOCALPORT | TOKEN_REMOTE_PORT => Some FIELD_REMOTEPORT
  | TOKEN_PROTOCOL => Some FIELD_PROTOCOL | TOKEN_ENDPOINT_ID => Some FIELD_ENDPOINTID
  | TOKEN_PARENT_ENDPOINT_ID => Some FIELD_PARENTENDPOINTID | TOKEN_LAYER => Some FIELD_LAYER
  | TOKEN_PRIORITY => Some FIELD_PRIORITY | TOKEN_IP => Some FIELD_IP | TOKEN_IPV6 => Some FIELD_IPV6
  | TOKEN_ICMP => Some FIELD_ICMP | TOKEN_ICMPV6 => Some FIELD_ICMPV6 | TOKEN_TCP => Some FIELD_TCP
  | TOKEN_UDP => Some FIELD_UDP | TOKEN_IP_HDR_LENGTH => Some FIELD_IP_HDRLENGTH
  | TOKEN_IP_TOS => Some FIELD_IP_TOS | TOKEN_IP_LENGTH => Some FIELD_IP_LENGTH
  | TOKEN_IP_ID => Some FIELD_IP_ID | TOKEN_IP_DF => Some FIELD_IP_DF
  | TOKEN_IP_MF => Some FIELD_IP_MF | TOKEN_IP_FRAG_OFF => Some FIELD_IP_FRAGOFF
  | TOKEN_IP_TTL => Some FIELD_IP_TTL | TOKEN_IP_PROTOCOL => Some FIELD_IP_PROTOCOL
  | TOKEN_IP_CHECKSUM => Some FIELD_IP_CHECKSUM | TOKEN_IP_SRC_ADDR => Some FIELD_IP_SRCADDR
  | TOKEN_IP_DST_ADDR => Some FIELD_IP_DSTADDR
  | TOKEN_IPV6_TRAFFIC_CLASS => Some FIELD_IPV6_TRAFFICCLASS
  | TOKEN_IPV6_FLOW_LABEL => Some FIELD_IPV6_FLOWLABEL | TOKEN_IPV6_LENGTH => Some FIELD_IPV6_LENGTH
  | TOKEN_IPV6_NEXT_HDR => Some FIELD_IPV6_NEXTHDR | TOKEN_IPV6_HOP_LIMIT => Some FIELD_IPV6_HOPLIMIT
  | TOKEN_IPV6_SRC_ADDR => Some FIELD_IPV6_SRCADDR | TOKEN_IPV6_DST_ADDR => Some FIELD_IPV6_DSTADDR
  | TOKEN_ICMP_TYPE => Some FIELD_ICMP_TYPE | TOKEN_ICMP_CODE => Some FIELD_ICMP_CODE
  | TOKEN_ICMP_CHECKSUM => Some FIELD_ICMP_CHECKSUM | TOKEN_ICMP_BODY => Some FIELD_ICMP_BODY
  | TOKEN_ICMPV6_TYPE => Some FIELD_ICMPV6_TYPE | TOKEN_ICMPV6_CODE => Some FIELD_ICMPV6_CODE
  | TOKEN_ICMPV6_CHECKSUM => Some FIELD_ICMPV6_CHECKSUM | TOKEN_ICMPV6_BODY => Some FIELD_ICMPV6_BODY
  | TOKEN_TCP_SRC_PORT => Some FIELD_TCP_SRCPORT | TOKEN_TCP_DST_PORT => Some FIELD_TCP_DSTPORT
  | TOKEN_TCP_SEQ_NUM => Some FIELD_TCP_SEQNUM | TOKEN_TCP_ACK_NUM => Some FIELD_TCP_ACKNUM
  | TOKEN_TCP_HDR_LENGTH => Some FIELD_TCP_HDRLENGTH | TOKEN_TCP_URG => Some FIELD_TCP_URG
  | TOKEN_TCP_ACK => Some FIELD_TCP_ACK | TOKEN_TCP_PSH => Some FIELD_TCP_PSH
  | TOKEN_TCP_RST => Some FIELD_TCP_RST | TOKEN_TCP_SYN => Some FIELD_TCP_SYN
  | TOKEN_TCP_FIN => Some FIELD_TCP_FIN | TOKEN_TCP_WINDOW => Some FIELD_TCP_WINDOW
  | TOKEN_TCP_CHECKSUM => Some FIELD_TCP_CHECKSUM | TOKEN_TCP_URG_PTR => Some FIELD_TCP_URGPTR
  | TOKEN_TCP_PAYLOAD_LENGTH => Some FIELD_TCP_PAYLOADLENGTH
  | TOKEN_UDP_SRC_PORT => Some FIELD_UDP_SRCPORT | TOKEN_UDP_DST_PORT => Some FIELD_UDP_DSTPORT
  | TOKEN_UDP_LENGTH => Some FIELD_UDP_LENGTH | TOKEN_UDP_CHECKSUM => Some FIELD_UDP_CHECKSUM
  | TOKEN_UDP_PAYLOAD_LENGTH => Some FIELD_UDP_PAYLOADLENGTH | _ => None
  end.

Definition token_info : list (list Z * KIND) := Eval vm_compute in map (fun x => (chars (fst x), snd x))
  ([("ACCEPT", TOKEN_EVENT_ACCEPT); ("BIND", TOKEN_EVENT_BIND); ("CLOSE", TOKEN_EVENT_CLOSE);
    ("CONNECT", TOKEN_EVENT_CONNECT); ("DELETED", TOKEN_EVENT_DELETED);
    ("ESTABLISHED", TOKEN_EVENT_ESTABLISHED); ("FALSE", TOKEN_MACRO_FALSE); ("FLOW", TOKEN_FLOW);
    ("ICMP", TOKEN_MACRO_ICMP); ("ICMPV6", TOKEN_MACRO_ICMPV6); ("LISTEN", TOKEN_EVENT_LISTEN);
    ("NETWORK", TOKEN_NETWORK); ("NETWORK_FORWARD", TOKEN_NETWORK_FORWARD);
    ("OPEN", TOKEN_EVENT_OPEN); ("PACKET", TOKEN_EVENT_PACKET); ("REFLECT", TOKEN_REFLECT);
    ("SOCKET", TOKEN_SOCKET); ("TCP", TOKEN_MACRO_TCP); ("TRUE", TOKEN_MACRO_TRUE);
    ("UDP", TOKEN_MACRO_UDP); ("and", TOKEN_AND); ("endpointId", TOKEN_ENDPOINT_ID);
    ("event", TOKEN_EVENT); ("false", TOKEN_FALSE); ("fragment", TOKEN_FRAGMENT);
    ("icmp", TOKEN_ICMP); ("icmp.Body", TOKEN_ICMP_BODY); ("icmp.Checksum", TOKEN_ICMP_CHECKSUM);
    ("icmp.Code", TOKEN_ICMP_CODE); ("icmp.Type", TOKEN_ICMP_TYPE); ("icmpv6", TOKEN_ICMPV6);
    ("icmpv6.Body", TOKEN_ICMPV6_BODY); ("icmpv6.Checksum", TOKEN_ICMPV6_CHECKSUM);
    ("icmpv6.Code", TOKEN_ICMPV6_CODE); ("icmpv6.Type", TOKEN_ICMPV6_TYPE);
    ("ifIdx", TOKEN_IF_IDX); ("impostor", TOKEN_IMPOSTOR); ("inbound", TOKEN_INBOUND);
    ("ip", TOKEN_IP); ("ip.Checksum", TOKEN_IP_CHECKSUM); ("ip.DF", TOKEN_IP_DF);
    ("ip.DstAddr", TOKEN_IP_DST_ADDR); ("ip.FragOff", TOKEN_IP_FRAG_OFF);
    ("ip.HdrLength", TOKEN_IP_HDR_LENGTH); ("ip.Id", TOKEN_IP_ID); ("ip.Length", TOKEN_IP_LENGTH);
    ("ip.MF", TOKEN_IP_MF); ("ip.Protocol", TOKEN_IP_PROTOCOL); ("ip.SrcAddr", TOKEN_IP_SRC_ADDR);
    ("ip.TOS", TOKEN_IP_TOS); ("ip.TTL", TOKEN_IP_TTL); ("ipv6", TOKEN_IPV6);
    ("ipv6.DstAddr", TOKEN_IPV6_DST_ADDR); ("ipv6.FlowLabel", TOKEN_IPV6_FLOW_LABEL);
    ("ipv6.HopLimit", TOKEN_IPV6_HOP_LIMIT); ("ipv6.Length", TOKEN_IPV6_LENGTH);
    ("ipv6.NextHdr", TOKEN_IPV6_NEXT_HDR); ("ipv6.SrcAddr", TOKEN_IPV6_SRC_ADDR);
    ("ipv6.TrafficClass", TOKEN_IPV6_TRAFFIC_CLASS); ("layer", TOKEN_LAYER);
    ("length", TOKEN_LENGTH); ("localAddr", TOKEN_LOCAL_ADDR); ("localPort", TOKEN_LOCAL_PORT);
    ("loopback", TOKEN_LOOPBACK); ("not", TOKEN_NOT); ("or", TOKEN_OR);
    ("outbound", TOKEN_OUTBOUND); ("packet", TOKEN_PACKET); ("packet16", TOKEN_PACKET16);
    ("packet32", TOKEN_PACKET32); ("parentEndpointId", TOKEN_PARENT_ENDPOINT_ID);
    ("priority", TOKEN_PRIORITY); ("processId", TOKEN_PROCESS_ID); ("protocol", TOKEN_PROTOCOL);
    ("random16", TOKEN_RANDOM16); ("random32", TOKEN_RANDOM32); ("random8", TOKEN_RANDOM8);
    ("remoteAddr", TOKEN_REMOTE_ADDR); ("remotePort", TOKEN_REMOTE_PORT);
    ("subIfIdx", TOKEN_SUB_IF_IDX); ("tcp", TOKEN_TCP); ("tcp.Ack", TOKEN_TCP_ACK);
    ("tcp.AckNum", TOKEN_TCP_ACK_NUM); ("tcp.Checksum", TOKEN_TCP_CHECKSUM);
    ("tcp.DstPort", TOKEN_TCP_DST_PORT); ("tcp.Fin", TOKEN_TCP_FIN);
    ("tcp.HdrLength", TOKEN_TCP_HDR_LENGTH); ("tcp.Payload", TOKEN_TCP_PAYLOAD);
    ("tcp.Payload16", TOKEN_TCP_PAYLOAD16); ("tcp.Payload32", TOKEN_TCP_PAYLOAD32);
    ("tcp.PayloadLength", TOKEN_TCP_PAYLOAD_LENGTH); ("tcp.Psh", TOKEN_TCP_PSH);
    ("tcp.Rst", TOKEN_TCP_RST); ("tcp.SeqNum", TOKEN_TCP_SEQ_NUM);
    ("tcp.SrcPort", TOKEN_TCP_SRC_PORT); ("tcp.Syn", TOKEN_TCP_SYN); ("tcp.Urg", TOKEN_TCP_URG);
    ("tcp.UrgPtr", TOKEN_TCP_URG_PTR); ("tcp.Window", TOKEN_TCP_WINDOW);
    ("timestamp", TOKEN_TIMESTAMP); ("true", TOKEN_TRUE); ("udp", TOKEN_UDP);
    ("udp.Checksum", TOKEN_UDP_CHECKSUM); ("udp.DstPort", TOKEN_UDP_DST_PORT);
    ("udp.Length", TOKEN_UDP_LENGTH); ("udp.Payload", TOKEN_UDP_PAYLOAD);
    ("udp.Payload16", TOKEN_UDP_PAYLOAD16); ("udp.Payload32", TOKEN_UDP_PAYLOAD32);
    ("udp.PayloadLength", TOKEN_UDP_PAYLOAD_LENGTH); ("udp.SrcPort", TOKEN_UDP_SRC_PORT);
    ("zero", TOKEN_ZERO)]%string).

(** The binary search; [lo] and [hi] are signed. *)
Fixpoint lookup_loop (fuel : nat) (table : list (list Z * KIND)) (name : list Z) (lo hi : Z) : option KIND :=
  match fuel with
  | O => None
  | S fuel =>
    if hi <? lo then None
    else
      let mid := (lo + hi) / 2 in
      match nth_error table (Z.to_nat mid) with
      | None => None
      | Some (s, k) =>
        let cmp := WinDivertStrCmp s name in
        if cmp <? 0 then lookup_loop fuel table name (mid + 1) hi
        else if cmp >? 0 then lookup_loop fuel table name lo (mid - 1)
        else Some k
      end
  end.

Definition WinDivertTokenLookup (table : list (list Z * KIND)) (name : list Z) : option KIND :=
  lookup_loop (S (length table)) table name 0 (zlen table - 1).

Definition WINDIVERT_EVENT_NETWORK_PACKET : Z := 0.
Definition WINDIVERT_EVENT_FLOW_ESTABLISHED : Z := 1.
Definition WINDIVERT_EVENT_FLOW_DELETED : Z := 2.
Definition WINDIVERT_EVENT_SOCKET_BIND : Z := 3.
Definition WINDIVERT_EVENT_SOCKET_CONNECT : Z := 4.
Definition WINDIVERT_EVENT_SOCKET_LISTEN : Z := 5.
Definition WINDIVERT_EVENT_SOCKET_ACCEPT : Z := 6.
Definition WINDIVERT_EVENT_SOCKET_CLOSE : Z := 7.
Definition WINDIVERT_EVENT_REFLECT_OPEN : Z := 8.
Definition WINDIVERT_EVENT_REFLECT_CLOSE : Z := 9.

Definition only (c : bool) (v : Z) : option Z := if c then Some v else None.

Definition WinDivertExpandMacro (kind : KIND) (layer : WINDIVERT_LAYER) : option Z :=
  match kind with
  | TOKEN_NETWORK => Some (layer_code LAYER_NETWORK)
  | TOKEN_NETWORK_FORWARD => Some (layer_code LAYER_NETWORK_FORWARD)
  | TOKEN_FLOW => Some (layer_code LAYER_FLOW)
  | TOKEN_SOCKET => Some (layer_code LAYER_SOCKET)
  | TOKEN_REFLECT => Some (layer_code LAYER_REFLECT)
  | TOKEN_EVENT_PACKET =>
    only (layer_eqb layer LAYER_NETWORK || layer_eqb layer LAYER_NETWORK_FORWARD) WINDIVERT_EVENT_NETWORK_PACKET
  | TOKEN_EVENT_ESTABLISHED => only (layer_eqb layer LAYER_FLOW) WINDIVERT_EVENT_FLOW_ESTABLISHED
  | TOKEN_EVENT_DELETED => only (layer_eqb layer LAYER_FLOW) WINDIVERT_EVENT_FLOW_DELETED
  | TOKEN_EVENT_BIND => only (layer_eqb layer LAYER_SOCKET) WINDIVERT_EVENT_SOCKET_BIND
  | TOKEN_EVENT_CONNECT => only (layer_eqb layer LAYER_SOCKET) WINDIVERT_EVENT_SOCKET_CONNECT
  | TOKEN_EVENT_LISTEN => only (layer_eqb layer LAYER_SOCKET) WINDIVERT_EVENT_SOCKET_LISTEN
  | TOKEN_EVENT_ACCEPT => only (layer_eqb layer LAYER_SOCKET) WINDIVERT_EVENT_SOCKET_ACCEPT
  | TOKEN_EVENT_OPEN => only (layer_eqb layer LAYER_REFLECT) WINDIVERT_EVENT_REFLECT_OPEN
  | TOKEN_EVENT_CLOSE =>
    match layer with
    | LAYER_SOCKET => Some WINDIVERT_EVENT_SOCKET_CLOSE
    | LAYER_REFLECT => Some WINDIVERT_EVENT_REFLECT_CLOSE
    | _ => None
    end
  | TOKEN_MACRO_TRUE => Some 1
  | TOKEN_MACRO_FALSE => Some 0
  | TOKEN_MACRO_TCP => Some IPPROTO_TCP
  | TOKEN_MACRO_UDP => Some IPPROTO_UDP
  | TOKEN_MACRO_ICMP => Some IPPROTO_ICMP
  | TOKEN_MACRO_ICMPV6 => Some IPPROTO_ICMPV6
  | _ => None
  end.

(** ** Errors: code and position *)

Inductive ERROR_CODE : Set :=
| WINDIVERT_ERROR_NO_MEMORY | WINDIVERT_ERROR_TOO_DEEP | WINDIVERT_ERROR_TOO_LONG
| WINDIVERT_ERROR_BAD_TOKEN | WINDIVERT_ERROR_BAD_TOKEN_FOR_LAYER | WINDIVERT_ERROR_UNEXPECTED_TOKEN
| WINDIVERT_ERROR_INDEX_OOB | WINDIVERT_ERROR_OUTPUT_TOO_SHORT | WINDIVERT_ERROR_BAD_OBJECT
| WINDIVERT_ERROR_ASSERTION_FAILED.

(** The position is [None] when it was never set. *)
Record ERROR : Set := MAKE_ERROR { GET_CODE : ERROR_CODE; GET_POS : option Z }.

Definition bad_token (i : Z) : ERROR := MAKE_ERROR WINDIVERT_ERROR_BAD_TOKEN (Some i).

(** ** One token *)

Definition is_token_char (c : Z) : bool := WinDivertIsAlNum c || (c =? 46) || (c =? 58) || (c =? 95).

(** The characters of a word after the first, at most [n] of them. *)
Fixpoint word_chars (n : nat) (s : list Z) : list Z * list Z :=
  match n, s with
  | S n, c :: s' => if is_token_char c then let '(w, r) := word_chars n s' in (c :: w, r) else ([], s)
  | _, _ => ([], s)
  end.

(** "Handle trailing colons": one colon at the end is not part of the word. *)
Definition trailing_colon (w : list Z) : bool :=
  match rev w with
  | c :: r => (c =? 58) && negb (char0 r =? 58)
  | [] => false
  end.

(** What a word is: tokens without position, or an error. *)
Inductive word : Set :=
| WTokens (l : list (KIND * u128))     (* pushed in this order *)
| WBytes                               (* a [b] of its own: no token is pushed *)
| WBadLayer
| WBad
| WUndef.

(** "Check for base 10 number", with a [b] behind it. *)
Definition decimal (token : list Z) : option (list (KIND * u128)) :=
  match WinDivertAToI token with
  | Some (n, rest) =>
    if zlen rest =? 0 then Some [(TOKEN_NUMBER, n)]
    else if (zlen rest =? 1) && (char0 rest =? 98) then Some [(TOKEN_NUMBER, n); (TOKEN_BYTES, zero128)]
    else None
  | None => None
  end.

(** "Check for base 16 number". *)
Definition hexadecimal (token : list Z) : option (list (KIND * u128)) :=
  match WinDivertAToX token true with
  | Some (n, rest) => if zlen rest =? 0 then Some [(TOKEN_NUMBER, n)] else None
  | None => None
  end.

(** "Check for IPv4 address", "Check for IPv6 address". *)
Definition address (token : list Z) : word :=
  match WinDivertHelperParseIPv4Address token with
  | Some a => WTokens [(TOKEN_NUMBER, W128 a 0x0000FFFF 0 0)]
  | None =>
    match WinDivertHelperParseIPv6Address token with
    | V6Undef => WUndef
    | V6True a => WTokens [(TOKEN_NUMBER, a)]
    | V6False => WBad
    end
  end.

(** "Check for symbol". *)
Definition symbol (layer : WINDIVERT_LAYER) (k : KIND) : word :=
  match WinDivertKindToField k with
  | Some f => if negb (WinDivertValidateField layer f) then WBadLayer else WTokens [(k, zero128)]
  | None =>
    match WinDivertExpandMacro k layer with
    | Some v => WTokens [(TOKEN_NUMBER, W128 v 0 0 0)]
    | None => WTokens [(k, zero128)]
    end
  end.

Definition classify (layer : WINDIVERT_LAYER) (token : list Z) : word :=
  match WinDivertTokenLookup token_info token with
  | Some k => symbol layer k
  | None =>
    if (char0 token =? 98) && (zlen token =? 1) then WBytes
    else
      match decimal token with
      | Some l => WTokens l
      | None => match hexadecimal token with Some l => WTokens l | None => address token end
      end
  end.

(** The tokens of one word: the first has the position of the word. *)
Definition place (p : Z) (l : list (KIND * u128)) : list TOKEN :=
  match l with
  | [] => []
  | (k, v) :: l => mkToken k (Some p) v :: map (fun x => mkToken (fst x) None (snd x)) l
  end.

(** ** The loop *)

(** What one round does: stop, fail, or push tokens and go on. *)
Inductive round_result : Set :=
| REnd
| RErr (e : ERROR)
| RUndef
| RPush (l : list TOKEN) (i : Z) (s : list Z).

Definition push1 (k : KIND) (p i : Z) (s : list Z) : round_result := RPush [mkToken k (Some p) zero128] i s.

(** A two-character operator when [=] follows. *)
Definition push_eq (with_eq without : KIND) (p i : Z) (s : list Z) : round_result :=
  if char0 s =? 61 then push1 with_eq p (i + 1) (tl s) else push1 without p i s.

(** [&&] and [||]. *)
Definition push_double (c : Z) (k : KIND) (p i : Z) (s : list Z) : round_result :=
  if char0 s =? c then push1 k p (i + 1) (tl s) else RErr (bad_token i).

(** The part after the switch: [c] is the first character, [i] the index
    after it. *)
Definition scan_word (layer : WINDIVERT_LAYER) (c p i : Z) (s : list Z) : round_result :=
  if is_token_char c then
    let '(w, s') := word_chars (Z.to_nat TOKEN_MAXLEN - 1) s in
    let j := 1 + zlen w in
    let i := i + zlen w in
    if j >=? TOKEN_MAXLEN then RErr (bad_token (i - j))
    else
      let '(token, i, s') :=
        if trailing_colon (c :: w) then (removelast (c :: w), i - 1, 58 :: s') else (c :: w, i, s') in
      match classify layer token with
      | WTokens l => RPush (place p l) i s'
      | WBytes => RPush [] i s'
      | WBadLayer => RErr (MAKE_ERROR WINDIVERT_ERROR_BAD_TOKEN_FOR_LAYER (Some (i - j)))
      | WBad => RErr (bad_token (i - j))
      | WUndef => RUndef
      end
  else RErr (bad_token i).

Fixpoint skip_space (i : Z) (s : list Z) : Z * list Z :=
  match s with
  | c :: s' => if WinDivertIsSpace c then skip_space (i + 1) s' else (i, s)
  | [] => (i, s)
  end.

Definition scan (layer : WINDIVERT_LAYER) (i : Z) (s : list Z) : round_result :=
  let '(p, s) := skip_space i s in
  match s with
  | [] => REnd
  | c :: s =>
    let i := p + 1 in
    if c =? 0 then REnd
    else if c =? 40 then push1 TOKEN_OPEN p i s
    else if c =? 41 then push1 TOKEN_CLOSE p i s
    else if c =? 91 then push1 TOKEN_SQUARE_OPEN p i s
    else if c =? 93 then push1 TOKEN_SQUARE_CLOSE p i s
    else if c =? 45 then push1 TOKEN_MINUS p i s
    else if c =? 33 then push_eq TOKEN_NEQ TOKEN_NOT p i s
    else if c =? 61 then push_eq TOKEN_EQ TOKEN_EQ p i s
    else if c =? 60 then push_eq TOKEN_LEQ TOKEN_LT p i s
    else if c =? 62 then push_eq TOKEN_GEQ TOKEN_GT p i s
    else if (c =? 58) && negb (char0 s =? 58) then push1 TOKEN_COLON p i s
    else if c =? 63 then push1 TOKEN_QUESTION p i s
    else if c =? 38 then push_double 38 TOKEN_AND p i s
    else if c =? 124 then push_double 124 TOKEN_OR p i s
    else scan_word layer c p i s
  end.

(** The position the END token gets. *)
Definition end_token (i : Z) (s : list Z) : TOKEN := mkToken TOKEN_END (Some (fst (skip_space i s))) zero128.

(** Result of the tokenizer: the tokens with the final END, an error, or
    undefined behaviour. *)
Inductive lexed : Set := LTokens (l : list TOKEN) | LErr (e : ERROR) | LUndef.

Definition lex_cons (l : list TOKEN) (r : lexed) : lexed :=
  match r with LTokens m => LTokens (l ++ m) | _ => r end.

(** [tp] tokens are stored. *)
Fixpoint lex_loop (fuel : nat) (layer : WINDIVERT_LAYER) (tokensmax tp i : Z) (s : list Z) : lexed :=
  match fuel with
  | O => LUndef
  | S fuel =>
    if tp >=? tokensmax - 1 then LErr (MAKE_ERROR WINDIVERT_ERROR_TOO_LONG (Some i))
    else
      match scan layer i s with
      | REnd => LTokens [end_token i s]
      | RErr e => LErr e
      | RUndef => LUndef
      | RPush l i s => lex_cons l (lex_loop fuel layer tokensmax (tp + zlen l) i s)
      end
  end.

Definition WinDivertTokenizeFilter (filter : list Z) (layer : WINDIVERT_LAYER) (tokensmax : Z) : lexed :=
  lex_loop (S (length filter)) layer tokensmax 0 0 filter.

(** ** The search *)

Lemma kind_eqb_eq a b : kind_eqb a b = true -> a = b.
Proof.
  unfold kind_eqb. intros H. apply Z.eqb_eq in H.
  assert (E : forall k, nth_error all_kinds (Z.to_nat (kind_code k)) = Some k) by (intros []; reflexivity).
  pose proof (E a) as Ea. rewrite H, E in Ea. congruence.
Qed.

Lemma strcmp_eq : forall s t, WinDivertStrCmp s t = 0 -> Forall (fun c => c <> 0) s -> Forall (fun c => c <> 0) t -> s = t.
Proof.
  induction s as [|x s IH]; intros [|y t]; cbn [WinDivertStrCmp]; intros H Hs Ht; try reflexivity.
  - inversion Ht; subst. lia.
  - inversion Hs; subst. lia.
  - inversion Hs; inversion Ht; subst. destruct (Z.eqb_spec (x - y) 0) as [E|E]; [|lia].
    f_equal; [lia|]. now apply IH.
Qed.

Lemma lookup_loop_sound table name k : Forall (fun c => c <> 0) name ->
  Forall (fun x => Forall (fun c => c <> 0) (fst x)) table ->
  forall fuel lo hi, lookup_loop fuel table name lo hi = Some k -> In (name, k) table.
Proof.
  intros Hn Ht. induction fuel as [|fuel IH]; intros lo hi; cbn [lookup_loop]; [discriminate|].
  case_if; [discriminate|]. destruct (nth_error table _) as [[s j]|] eqn:E; [|discriminate].
  case_if; [apply IH|]. case_if; [apply IH|]. intros [= ->]. b2p.
  apply nth_error_In in E. rewrite <- (strcmp_eq s name); [exact E|lia| |exact Hn].
  exact (proj1 (Forall_forall _ _) Ht _ E).
Qed.

Definition no_nul (s : list Z) : bool := forallb (fun c => negb (c =? 0)) s.

Lemma no_nul_forall s : no_nul s = true -> Forall (fun c => c <> 0) s.
Proof.
  unfold no_nul. intros H. apply Forall_forall. intros c Hc. rewrite forallb_forall in H.
  specialize (H c Hc). b2p. lia.
Qed.

Lemma token_info_no_nul : Forall (fun x => Forall (fun c => c <> 0) (fst x)) token_info.
Proof.
  assert (H : forallb (fun x => no_nul (fst x)) token_info = true) by (vm_compute; reflexivity).
  apply Forall_forall. intros x Hx. apply no_nul_forall. exact (proj1 (forallb_forall _ _) H x Hx).
Qed.

Lemma lookup_complete name k : In (name, k) token_info -> WinDivertTokenLookup token_info name = Some k.
Proof.
  assert (H : forallb (fun x => match WinDivertTokenLookup token_info (fst x) with
    | Some k => kind_eqb k (snd x) | None => false end) token_info = true) by (vm_compute; reflexivity).
  intros Hi. pose proof (proj1 (forallb_forall _ _) H _ Hi) as E. cbn [fst snd] in E.
  destruct (WinDivertTokenLookup token_info name) as [j|]; [|discriminate].
  f_equal. now apply kind_eqb_eq.
Qed.

(** ** Rounds *)

Lemma skip_space_length : forall s i, (length (snd (skip_space i s)) <= length s)%nat.
Proof.
  induction s as [|c s IH]; intros i; cbn [skip_space]; [reflexivity|].
  case_if; [|reflexivity]. etransitivity; [apply IH|]. cbn [length]. lia.
Qed.

Lemma word_chars_length : forall n s, (length (fst (word_chars n s)) + length (snd (word_chars n s)) = length s)%nat /\
  Forall (fun c => is_token_char c = true) (fst (word_chars n s)).
Proof.
  induction n as [|n IH]; intros [|c s]; cbn [word_chars]; auto.
  destruct (is_token_char c) eqn:Ec; [|auto]. specialize (IH s). destruct (word_chars n s) as [w r].
  cbn [fst snd length] in *. destruct IH as [E F]. split; [lia|now constructor].
Qed.

Lemma word_chars_colon n s : char0 s = 58 -> fst (word_chars (S n) s) <> [].
Proof.
  destruct s as [|c s]; unfold char0; cbn [hd]; [lia|]. intros ->. cbn [word_chars].
  change (is_token_char 58) with true. cbn iota. now destruct (word_chars n s).
Qed.

Lemma scan_word_progress layer c p i s l i' s' : (c = 58 -> char0 s = 58) ->
  scan_word layer c p i s = RPush l i' s' -> (length s' <= length s)%nat.
Proof.
  intros Hc. unfold scan_word. case_if; [|discriminate].
  change (Z.to_nat TOKEN_MAXLEN - 1)%nat with 39%nat.
  pose proof (word_chars_length 39 s) as [W _]. pose proof (word_chars_colon 38 s) as Wc.
  destruct (word_chars 39 s) as [w r]. cbn [fst snd] in W, Wc. case_if; [discriminate|].
  assert (L : trailing_colon (c :: w) = true -> (S (length r) <= length s)%nat).
  { intros C. destruct w as [|x w]; [|cbn [length] in W; lia].
    unfold trailing_colon in C. cbn [rev app] in C. b2p. now elim Wc; auto. }
  destruct (trailing_colon (c :: w)).
  - specialize (L eq_refl). destruct (classify layer (removelast (c :: w))); try discriminate;
      intros [= _ _ <-]; cbn [length]; lia.
  - destruct (classify layer (c :: w)); try discriminate; intros [= _ _ <-]; lia.
Qed.

(** Every round that goes on has read a character. *)
Lemma scan_progress layer i s l i' s' : scan layer i s = RPush l i' s' -> (length s' < length s)%nat.
Proof.
  unfold scan. pose proof (skip_space_length s i) as L. destruct (skip_space i s) as [p t]. cbn [snd] in L.
  destruct t as [|c t]; [discriminate|]. cbn [length] in L.
  assert (P : forall k q j r, push1 k q j r = RPush l i' s' -> (length r <= length t)%nat -> (length s' < length s)%nat)
    by (unfold push1; intros k q j r [= _ _ <-] H; lia).
  assert (T : (length (tl t) <= length t)%nat) by (destruct t; cbn; lia).
  assert (Q : forall a b q j, push_eq a b q j t = RPush l i' s' -> (length s' < length s)%nat)
    by (unfold push_eq; intros a b q j; case_if; intros E; eapply P; try exact E; lia).
  assert (D : forall a b q j, push_double a b q j t = RPush l i' s' -> (length s' < length s)%nat)
    by (unfold push_double; intros a b q j; case_if; [intros E; eapply P; [exact E|lia]|discriminate]).
  repeat (case_if; [discriminate || exact (Q _ _ _ _) || exact (D _ _ _ _) ||
    (intros E; eapply P; [exact E|lia])|]).
  intros E. apply scan_word_progress in E; [lia|]. intros ->. b2p. lia.
Qed.

(** The fuel of [WinDivertTokenizeFilter] is enough: more changes nothing. *)
Lemma lex_loop_fuel : forall fuel fuel' layer tm tp i s, (length s < fuel)%nat -> (length s < fuel')%nat ->
  lex_loop fuel layer tm tp i s = lex_loop fuel' layer tm tp i s.
Proof.
  induction fuel as [|fuel IH]; intros fuel' layer tm tp i s H H'; [lia|]. destruct fuel' as [|fuel']; [lia|].
  cbn [lex_loop]. case_if; [reflexivity|]. destruct (scan layer i s) as [| | |l i' s'] eqn:E; auto.
  apply scan_progress in E. f_equal. apply IH; lia.
Qed.

(** ** Tokens *)

(** Numbers have 32-bit words, fields belong to the layer. *)
Definition token_ok (layer : WINDIVERT_LAYER) (k : KIND) (v : u128) : Prop :=
  k <> TOKEN_END /\ wf128 v /\
  match WinDivertKindToField k with Some f => WinDivertValidateField layer f = true | None => True end.

Lemma number_ok layer v : wf128 v -> token_ok layer TOKEN_NUMBER v.
Proof. intros H. split; [congruence|]. now split. Qed.

Lemma macro_wf k layer v : WinDivertExpandMacro k layer = Some v -> wf128 (W128 v 0 0 0).
Proof.
  intros H. assert (B : is_u32 v).
  { unfold is_u32. destruct k; try discriminate; destruct layer; cbn in H; try discriminate; injection H as <-; vm_compute; split; congruence. }
  unfold wf128, is_u32 in *. cbn [w0 w1 w2 w3]. lia.
Qed.

Lemma symbol_ok layer k l : k <> TOKEN_END -> symbol layer k = WTokens l ->
  Forall (fun x => token_ok layer (fst x) (snd x)) l.
Proof.
  intros Hk. unfold symbol. destruct (WinDivertKindToField k) as [f|] eqn:Ef.
  - destruct (WinDivertValidateField layer f) eqn:Ev; [|discriminate]. intros [= <-]. constructor; [|constructor].
    split; [exact Hk|]. split; [apply wf_zero128|]. cbn [fst]. now rewrite Ef.
  - destruct (WinDivertExpandMacro k layer) eqn:Em; intros [= <-]; constructor; auto.
    + apply number_ok. exact (macro_wf _ _ _ Em).
    + split; [exact Hk|]. split; [apply wf_zero128|]. cbn [fst]. now rewrite Ef.
Qed.

Lemma lookup_not_end name k : WinDivertTokenLookup token_info name = Some k -> k <> TOKEN_END.
Proof.
  intros H E. subst k. unfold WinDivertTokenLookup in H. revert H. generalize 0 as lo, (zlen token_info - 1) as hi.
  induction (S (length token_info)) as [|fuel IH]; intros lo hi; cbn [lookup_loop]; [discriminate|].
  case_if; [discriminate|]. destruct (nth_error token_info _) as [[s j]|] eqn:E; [|discriminate].
  case_if; [apply IH|]. case_if; [apply IH|]. intros [= ->]. apply nth_error_In in E.
  assert (H : forallb (fun x => negb (kind_eqb (snd x) TOKEN_END)) token_info = true) by (vm_compute; reflexivity).
  now specialize (proj1 (forallb_forall _ _) H _ E).
Qed.

Lemma address_ok layer token l : address token = WTokens l -> Forall (fun x => token_ok layer (fst x) (snd x)) l.
Proof.
  unfold address. destruct (WinDivertHelperParseIPv4Address token) as [a|] eqn:E4.
  - intros [= <-]. constructor; [|constructor]. apply number_ok. apply parse_ipv4_u32 in E4.
    unfold wf128, is_u32 in *. cbn [snd w0 w1 w2 w3]. lia.
  - destruct (WinDivertHelperParseIPv6Address token) eqn:E6; try discriminate.
    intros [= <-]. constructor; [|constructor]. apply number_ok. exact (parse_ipv6_wf _ _ E6).
Qed.

Lemma classify_ok layer token l : classify layer token = WTokens l ->
  Forall (fun x => token_ok layer (fst x) (snd x)) l.
Proof.
  assert (bytes_ok : token_ok layer TOKEN_BYTES zero128) by (split; [congruence|split; [apply wf_zero128|exact I]]).
  unfold classify. destruct (WinDivertTokenLookup token_info token) as [k|] eqn:Ek.
  - apply symbol_ok. exact (lookup_not_end _ _ Ek).
  - case_if; [discriminate|]. unfold decimal, hexadecimal.
    destruct (WinDivertAToI token) as [[n r]|] eqn:Ei.
    + apply atoi_wf in Ei. case_if; [intros [= <-]; constructor; auto; now apply number_ok|].
      case_if; [intros [= <-]; constructor; [now apply number_ok|]; constructor; [exact bytes_ok|constructor]|].
      destruct (WinDivertAToX token true) as [[m t]|] eqn:Ex; [|apply address_ok].
      case_if; [|apply address_ok]. intros [= <-]. constructor; auto. apply number_ok. exact (atox_wf _ _ _ _ Ex).
    + destruct (WinDivertAToX token true) as [[m t]|] eqn:Ex; [|apply address_ok].
      case_if; [|apply address_ok]. intros [= <-]. constructor; auto. apply number_ok. exact (atox_wf _ _ _ _ Ex).
Qed.

Definition placed_ok (layer : WINDIVERT_LAYER) (t : TOKEN) : Prop := token_ok layer (kind t) (val t).

Lemma place_ok layer p l : Forall (fun x => token_ok layer (fst x) (snd x)) l -> Forall (placed_ok layer) (place p l).
Proof.
  intros H. destruct H as [|[k v] l Hx Hl]; cbn [place]; constructor; [exact Hx|].
  apply Forall_map. exact Hl.
Qed.

Lemma push1_ok layer k p i s l i' s' : push1 k p i s = RPush l i' s' ->
  k <> TOKEN_END -> WinDivertKindToField k = None -> Forall (placed_ok layer) l.
Proof.
  unfold push1. intros [= <- _ _] Hk Hf. constructor; [|constructor].
  split; [exact Hk|]. split; [apply wf_zero128|]. cbn [kind]. now rewrite Hf.
Qed.

Lemma scan_ok layer i s l i' s' : scan layer i s = RPush l i' s' -> Forall (placed_ok layer) l.
Proof.
  unfold scan. destruct (skip_space i s) as [p [|c t]]; [discriminate|]. unfold push_eq, push_double.
  repeat (case_if; [discriminate || (intros E; eapply push1_ok; [exact E|congruence|reflexivity]) ||
    (case_if; intros E; [eapply push1_ok; [exact E|congruence|reflexivity]|
      discriminate E || (eapply push1_ok; [exact E|congruence|reflexivity])])|]).
  unfold scan_word. case_if; [|discriminate]. destruct (word_chars _ t) as [w r]. case_if; [discriminate|].
  destruct (if trailing_colon (c :: w) then _ else _) as [[token j] r'].
  destruct (classify layer token) as [m| | | |] eqn:Em; try discriminate.
  - intros [= <- _ _]. apply place_ok. exact (classify_ok _ _ _ Em).
  - intros [= <- _ _]. constructor.
Qed.

Lemma lex_loop_ok layer tm : forall fuel tp i s l, lex_loop fuel layer tm tp i s = LTokens l ->
  exists toks e, l = toks ++ [e] /\ kind e = TOKEN_END /\ wf128 (val e) /\ Forall (placed_ok layer) toks /\
    tp + zlen l <= tm - 1.
Proof.
  induction fuel as [|fuel IH]; intros tp i s l; cbn [lex_loop]; [discriminate|].
  case_if; [discriminate|]. destruct (scan layer i s) as [| | |m i' s'] eqn:E; try discriminate.
  - intros [= <-]. exists [], (end_token i s). b2p. change (zlen [end_token i s]) with 1.
    split; [reflexivity|]. split; [reflexivity|]. split; [apply wf_zero128|]. split; [constructor|lia].
  - destruct (lex_loop fuel layer tm (tp + zlen m) i' s') as [r| |] eqn:R; try discriminate.
    intros [= <-]. destruct (IH _ _ _ _ R) as (toks & e & -> & He & Hv & Ht & Hz).
    exists (m ++ toks), e. rewrite app_assoc. split; [reflexivity|]. split; [exact He|]. split; [exact Hv|]. split.
    + apply Forall_app. split; [exact (scan_ok _ _ _ _ _ _ E)|exact Ht].
    + rewrite <- app_assoc, (zlen_app m). lia.
Qed.

(** ** Theorems *)

(** The binary search over the names finds a token exactly when the name
    is in the table, and then the table's token. *)
Theorem lookup_exact name k : no_nul name = true ->
  WinDivertTokenLookup token_info name = Some k <-> In (name, k) token_info.
Proof.
  intros Hn. split; [|apply lookup_complete].
  apply lookup_loop_sound; [now apply no_nul_forall|exact token_info_no_nul].
Qed.

Lemma lookup_exact_witness :
  WinDivertTokenLookup token_info (chars "tcp.DstPort") = Some TOKEN_TCP_DST_PORT <->
  In (chars "tcp.DstPort", TOKEN_TCP_DST_PORT) token_info.
Proof. apply (lookup_exact (chars "tcp.DstPort")). reflexivity. Defined.

(** The tokenizer ends and its tokens fit: the rounds given are enough,
    whatever the text (more change nothing), and tokens it returns fill at
    most [tokensmax - 1] places, end with the only END, name only fields of
    the layer, and carry numbers of four 32-bit words. *)
Theorem tokenize_wf filter layer tokensmax :
  (forall fuel, (length filter < fuel)%nat ->
     lex_loop fuel layer tokensmax 0 0 filter = WinDivertTokenizeFilter filter layer tokensmax) /\
  (forall l, WinDivertTokenizeFilter filter layer tokensmax = LTokens l ->
     exists toks e, l = toks ++ [e] /\ kind e = TOKEN_END /\ wf128 (val e) /\
       Forall (placed_ok layer) toks /\ zlen l <= tokensmax - 1).
Proof.
  split.
  - intros fuel H. apply lex_loop_fuel; lia.
  - intros l H. destruct (lex_loop_ok _ _ _ _ _ _ _ H) as (toks & e & E & K & V & F & Z).
    exists toks, e. auto.
Qed.
