(* ===== verification/WdParse.v ===== *)
(** * Parser of the filter language

    [WinDivertParseTest], [WinDivertParseAndOrArg] and [WinDivertParseFilter]
    of [src/wd/windivert_helper.c], on the tokens left.  The functions return
    the expression ([None] is NULL), the tokens left and [*error].  The
    allocations of the pool succeed: every expression is made for a token of
    its own, and the pool has room for more expressions than there are tokens
    (proved with the model of the pool, in [WdHeap]). *)

From Stdlib Require Import ZArith List Bool Lia.
From S2P Require Import Prelude WdTypes WdSerial WdAddr WdLex.
Import ListNotations.
#[local] Open Scope Z_scope.

(** ** Expressions *)

(** A variable; [val[0]] is the index of an array variable. *)
Record VAR : Set := mkVar { v_kind : KIND; v_idx : Z }.

(** A number and its sign. *)
Record NUM : Set := mkNum { n_neg : bool; n_val : u128 }.

Record TEST_EXPR : Set := mkTest { t_kind : KIND; t_var : VAR; t_val : NUM }.

(** [struct EXPR]: a test, the operators, and the NULL pointer, which can be
    the condition of an if-then-else. *)
Inductive EXPR : Set :=
| ETest (t : TEST_EXPR)
| EAnd (a b : EXPR)
| EOr (a b : EXPR)
| EQuestion (c t e : EXPR)
| ENull.

(** The table of [WinDivertMakeVar], "in order of kind". *)
Definition vars : list KIND :=
  [TOKEN_ICMP; TOKEN_ICMP_BODY; TOKEN_ICMP_CHECKSUM; TOKEN_ICMP_CODE; TOKEN_ICMP_TYPE;
   TOKEN_ICMPV6; TOKEN_ICMPV6_BODY; TOKEN_ICMPV6_CHECKSUM; TOKEN_ICMPV6_CODE; TOKEN_ICMPV6_TYPE;
   TOKEN_IP; TOKEN_IP_CHECKSUM; TOKEN_IP_DF; TOKEN_IP_DST_ADDR; TOKEN_IP_FRAG_OFF;
   TOKEN_IP_HDR_LENGTH; TOKEN_IP_ID; TOKEN_IP_LENGTH; TOKEN_IP_MF; TOKEN_IP_PROTOCOL;
   TOKEN_IP_SRC_ADDR; TOKEN_IP_TOS; TOKEN_IP_TTL; TOKEN_IPV6; TOKEN_IPV6_DST_ADDR;
   TOKEN_IPV6_FLOW_LABEL; TOKEN_IPV6_HOP_LIMIT; TOKEN_IPV6_LENGTH; TOKEN_IPV6_NEXT_HDR;
   TOKEN_IPV6_SRC_ADDR; TOKEN_IPV6_TRAFFIC_CLASS; TOKEN_TCP; TOKEN_TCP_ACK; TOKEN_TCP_ACK_NUM;
   TOKEN_TCP_CHECKSUM; TOKEN_TCP_DST_PORT; TOKEN_TCP_FIN; TOKEN_TCP_HDR_LENGTH;
   TOKEN_TCP_PAYLOAD_LENGTH; TOKEN_TCP_PSH; TOKEN_TCP_RST; TOKEN_TCP_SEQ_NUM; TOKEN_TCP_SRC_PORT;
   TOKEN_TCP_SYN; TOKEN_TCP_URG; TOKEN_TCP_URG_PTR; TOKEN_TCP_WINDOW; TOKEN_UDP;
   TOKEN_UDP_CHECKSUM; TOKEN_UDP_DST_PORT; TOKEN_UDP_LENGTH; TOKEN_UDP_PAYLOAD_LENGTH;
   TOKEN_UDP_SRC_PORT; TOKEN_ZERO; TOKEN_EVENT; TOKEN_RANDOM8; TOKEN_RANDOM16; TOKEN_RANDOM32;
   TOKEN_LENGTH; TOKEN_TIMESTAMP; TOKEN_TRUE; TOKEN_FALSE; TOKEN_INBOUND; TOKEN_OUTBOUND;
   TOKEN_FRAGMENT; TOKEN_IF_IDX; TOKEN_SUB_IF_IDX; TOKEN_LOOPBACK; TOKEN_IMPOSTOR;
   TOKEN_PROCESS_ID; TOKEN_LOCAL_ADDR; TOKEN_REMOTE_ADDR; TOKEN_LOCAL_PORT; TOKEN_REMOTE_PORT;
   TOKEN_PROTOCOL; TOKEN_ENDPOINT_ID; TOKEN_PARENT_ENDPOINT_ID; TOKEN_LAYER; TOKEN_PRIORITY].

(** Its binary search; [lo] and [hi] are unsigned, but [hi] never goes below
    the first entry. *)
Fixpoint make_var_loop (fuel : nat) (kind : KIND) (lo hi : Z) : option VAR :=
  match fuel with
  | O => None
  | S fuel =>
    if hi <? lo then None
    else
      let mid := (hi + lo) / 2 in
      match nth_error vars (Z.to_nat mid) with
      | None => None
      | Some k =>
        if kind_code k <? kind_code kind then make_var_loop fuel kind (mid + 1) hi
        else if kind_code kind <? kind_code k then make_var_loop fuel kind lo (u32 (mid - 1))
        else Some (mkVar k 0)
      end
  end.

Definition WinDivertMakeVar (kind : KIND) : option VAR := make_var_loop 8 kind 0 (zlen vars - 1).

Definition WinDivertMakeZero : NUM := mkNum false zero128.
Definition WinDivertMakeOne : NUM := mkNum false (W128 1 0 0 0).

(** ** Tests *)

(** The first [switch] of [WinDivertParseTest]: variables without index. *)
Definition is_var (kind : KIND) : bool :=
  match kind with
  | TOKEN_TIMESTAMP | TOKEN_PRIORITY | TOKEN_ZERO | TOKEN_EVENT | TOKEN_RANDOM8 | TOKEN_RANDOM16
  | TOKEN_RANDOM32 | TOKEN_TRUE | TOKEN_FALSE | TOKEN_OUTBOUND | TOKEN_INBOUND | TOKEN_FRAGMENT
  | TOKEN_IF_IDX | TOKEN_SUB_IF_IDX | TOKEN_LOOPBACK | TOKEN_IMPOSTOR | TOKEN_IP | TOKEN_IPV6
  | TOKEN_ICMP | TOKEN_ICMPV6 | TOKEN_TCP | TOKEN_UDP | TOKEN_PROCESS_ID | TOKEN_LOCAL_ADDR
  | TOKEN_REMOTE_ADDR | TOKEN_LOCAL_PORT | TOKEN_REMOTE_PORT | TOKEN_PROTOCOL | TOKEN_ENDPOINT_ID
  | TOKEN_PARENT_ENDPOINT_ID | TOKEN_LENGTH | TOKEN_LAYER | TOKEN_IP_HDR_LENGTH | TOKEN_IP_TOS
  | TOKEN_IP_LENGTH | TOKEN_IP_ID | TOKEN_IP_DF | TOKEN_IP_MF | TOKEN_IP_FRAG_OFF | TOKEN_IP_TTL
  | TOKEN_IP_PROTOCOL | TOKEN_IP_CHECKSUM | TOKEN_IP_SRC_ADDR | TOKEN_IP_DST_ADDR
  | TOKEN_IPV6_TRAFFIC_CLASS | TOKEN_IPV6_FLOW_LABEL | TOKEN_IPV6_LENGTH | TOKEN_IPV6_NEXT_HDR
  | TOKEN_IPV6_HOP_LIMIT | TOKEN_IPV6_SRC_ADDR | TOKEN_IPV6_DST_ADDR | TOKEN_ICMP_TYPE
  | TOKEN_ICMP_CODE | TOKEN_ICMP_CHECKSUM | TOKEN_ICMP_BODY | TOKEN_ICMPV6_TYPE | TOKEN_ICMPV6_CODE
  | TOKEN_ICMPV6_CHECKSUM | TOKEN_ICMPV6_BODY | TOKEN_TCP_SRC_PORT | TOKEN_TCP_DST_PORT
  | TOKEN_TCP_SEQ_NUM | TOKEN_TCP_ACK_NUM | TOKEN_TCP_HDR_LENGTH | TOKEN_TCP_URG | TOKEN_TCP_ACK
  | TOKEN_TCP_PSH | TOKEN_TCP_RST | TOKEN_TCP_SYN | TOKEN_TCP_FIN | TOKEN_TCP_WINDOW
  | TOKEN_TCP_CHECKSUM | TOKEN_TCP_URG_PTR | TOKEN_TCP_PAYLOAD_LENGTH | TOKEN_UDP_SRC_PORT
  | TOKEN_UDP_DST_PORT | TOKEN_UDP_LENGTH | TOKEN_UDP_CHECKSUM | TOKEN_UDP_PAYLOAD_LENGTH => true
  | _ => false
  end.

(** Array variables and the size of an element. *)
Definition array_size (kind : KIND) : option Z :=
  match kind with
  | TOKEN_PACKET | TOKEN_TCP_PAYLOAD | TOKEN_UDP_PAYLOAD => Some 1
  | TOKEN_PACKET16 | TOKEN_TCP_PAYLOAD16 | TOKEN_UDP_PAYLOAD16 => Some 2
  | TOKEN_PACKET32 | TOKEN_TCP_PAYLOAD32 | TOKEN_UDP_PAYLOAD32 => Some 4
  | _ => None
  end.

Definition is_comparison (kind : KIND) : bool :=
  match kind with
  | TOKEN_EQ | TOKEN_NEQ | TOKEN_LT | TOKEN_LEQ | TOKEN_GT | TOKEN_GEQ => true
  | _ => false
  end.

Definition negate (kind : KIND) : KIND :=
  match kind with
  | TOKEN_EQ => TOKEN_NEQ
  | TOKEN_NEQ => TOKEN_EQ
  | TOKEN_LT => TOKEN_GEQ
  | TOKEN_LEQ => TOKEN_GT
  | TOKEN_GT => TOKEN_LEQ
  | TOKEN_GEQ => TOKEN_LT
  | k => k
  end.

(** A result: the value or an error, with the tokens left.  [PUndef] is a read
    behind the tokens. *)
Inductive parsed (A : Type) : Type :=
| PUndef
| PErr (e : ERROR) (toks : list TOKEN)
| POk (a : A) (toks : list TOKEN).
Arguments PUndef {A}. Arguments PErr {A}. Arguments POk {A}.

(** [toks[*i]]. *)
Definition with_tok {A} (toks : list TOKEN) (f : TOKEN -> list TOKEN -> parsed A) : parsed A :=
  match toks with [] => PUndef | t :: rest => f t rest end.

Definition pbind {A B} (r : parsed A) (f : A -> list TOKEN -> parsed B) : parsed B :=
  match r with PUndef => PUndef | PErr e toks => PErr e toks | POk a toks => f a toks end.

Definition unexpected {A} (t : TOKEN) (toks : list TOKEN) : parsed A :=
  PErr (MAKE_ERROR WINDIVERT_ERROR_UNEXPECTED_TOKEN (pos t)) toks.

(** One token of the given kind. *)
Definition expect_kind {A} (k : KIND) (toks : list TOKEN) (f : TOKEN -> list TOKEN -> parsed A) : parsed A :=
  with_tok toks (fun t rest => if kind_eqb (kind t) k then f t rest else unexpected t toks).

(** [while (toks[*i].kind == TOKEN_NOT)]. *)
Fixpoint skip_not (toks : list TOKEN) (neg : bool) : bool * list TOKEN :=
  match toks with
  | t :: rest => if kind_eqb (kind t) TOKEN_NOT then skip_not rest (negb neg) else (neg, toks)
  | [] => (neg, toks)
  end.

(** An optional minus. *)
Definition skip_minus {A} (toks : list TOKEN) (f : bool -> list TOKEN -> parsed A) : parsed A :=
  with_tok toks (fun t rest => if kind_eqb (kind t) TOKEN_MINUS then f true rest else f false toks).

Definition WINDIVERT_MTU_MAX : Z := 40 + 0xFFFF.

(** From the bracket on: [\[ -? number b? \]]. *)
Definition parse_index (kind0 : KIND) (size : Z) (toks : list TOKEN) : parsed VAR :=
  expect_kind TOKEN_SQUARE_OPEN toks (fun _ toks =>
  skip_minus toks (fun neg toks =>
  expect_kind TOKEN_NUMBER toks (fun t toks' =>
    if negb (w3 (val t) =? 0) || negb (w2 (val t) =? 0) || negb (w1 (val t) =? 0) ||
       (w0 (val t) >? WINDIVERT_MTU_MAX)
    then PErr (MAKE_ERROR WINDIVERT_ERROR_INDEX_OOB (pos t)) toks
    else
      let idx := w0 (val t) in
      with_tok toks' (fun t rest =>
        let bytes := kind_eqb (kind t) TOKEN_BYTES in
        let toks := if bytes then rest else toks' in
        let idx := if bytes then idx else u32 (idx * size) in
        with_tok toks (fun t _ =>
          if (negb neg && (idx >? UINT16_MAX - size)) || (neg && (idx >? UINT16_MAX)) || (neg && (idx <? size))
          then PErr (MAKE_ERROR WINDIVERT_ERROR_INDEX_OOB (pos t)) toks
          else
            let var := mkVar kind0 (u32 (if neg then - idx else idx)) in
            expect_kind TOKEN_SQUARE_CLOSE toks (fun _ toks => POk var toks)))))).

(** The variable of a test. *)
Definition parse_var (toks : list TOKEN) : parsed VAR :=
  with_tok toks (fun t rest =>
    if is_var (kind t) then
      match WinDivertMakeVar (kind t) with
      | Some v => POk v rest
      | None => PErr (MAKE_ERROR WINDIVERT_ERROR_ASSERTION_FAILED (Some 0)) rest
      end
    else
      match array_size (kind t) with
      | Some size => parse_index (kind t) size rest
      | None => unexpected t toks
      end).

Definition WinDivertParseTest (toks : list TOKEN) : parsed EXPR :=
  let '(not, toks) := skip_not toks false in
  pbind (parse_var toks) (fun var toks =>
  with_tok toks (fun t rest =>
    if is_comparison (kind t) then
      let k := if not then negate (kind t) else kind t in
      skip_minus rest (fun neg toks =>
      expect_kind TOKEN_NUMBER toks (fun t rest => POk (ETest (mkTest k var (mkNum neg (val t)))) rest))
    else POk (ETest (mkTest (if not then TOKEN_EQ else TOKEN_NEQ) var WinDivertMakeZero)) toks)).

(** ** Expressions *)

(** The loop of [WinDivertParseFilter]: [arg] parses the operand of an [and],
    [right] that of an [or]. *)
Fixpoint parse_loop (fuel : nat) (arg right : list TOKEN -> parsed EXPR) (expr : EXPR) (toks : list TOKEN)
    : parsed EXPR :=
  match fuel with
  | O => PUndef
  | S fuel =>
    with_tok toks (fun t rest =>
      match kind t with
      | TOKEN_AND => pbind (arg rest) (fun a toks => parse_loop fuel arg right (EAnd expr a) toks)
      | TOKEN_OR => pbind (right rest) (fun a toks => parse_loop fuel arg right (EOr expr a) toks)
      | _ => POk expr toks
      end)
  end.

(** What follows the condition in parentheses.  A condition that failed to
    parse is not looked at: [arg] is NULL and [*error] is set. *)
Definition after_open (filter : list TOKEN -> parsed EXPR) (arg : EXPR) (err : option ERROR) (toks : list TOKEN)
    : parsed EXPR :=
  with_tok toks (fun t rest =>
    match kind t with
    | TOKEN_CLOSE => match err with Some e => PErr e rest | None => POk arg rest end
    | TOKEN_QUESTION =>
      pbind (filter rest) (fun th toks =>
      expect_kind TOKEN_COLON toks (fun _ toks =>
      pbind (filter toks) (fun el toks =>
      expect_kind TOKEN_CLOSE toks (fun _ toks => POk (EQuestion arg th el) toks))))
    | _ => unexpected t toks
    end).

Definition too_deep {A} (toks : list TOKEN) : parsed A :=
  with_tok toks (fun t _ => PErr (MAKE_ERROR WINDIVERT_ERROR_TOO_DEEP (pos t)) toks).

(** [depth] is one more than the source's. *)
Fixpoint WinDivertParseFilter (depth : nat) (and : bool) (toks : list TOKEN) {struct depth} : parsed EXPR :=
  match depth with
  | O => too_deep toks
  | S depth =>
    pbind (if and then WinDivertParseAndOrArg depth toks else WinDivertParseFilter depth true toks)
      (fun expr toks => parse_loop (S (length toks)) (WinDivertParseAndOrArg depth)
        (WinDivertParseFilter depth true) expr toks)
  end
with WinDivertParseAndOrArg (depth : nat) (toks : list TOKEN) {struct depth} : parsed EXPR :=
  match depth with
  | O => too_deep toks
  | S depth =>
    with_tok toks (fun t rest =>
      match kind t with
      | TOKEN_OPEN =>
        match WinDivertParseFilter depth false rest with
        | PUndef => PUndef
        | PErr e toks => after_open (WinDivertParseFilter depth false) ENull (Some e) toks
        | POk arg toks => after_open (WinDivertParseFilter depth false) arg None toks
        end
      | _ => WinDivertParseTest toks
      end)
  end.

(** ** Grammar

    What the parser is meant to accept, as derivations over token lists.
    [gor], [gand] and [garg] follow the precedence of the operators; their
    index is the depth a derivation needs. *)

Definition is_kind (k : KIND) (t : TOKEN) : Prop := kind t = k.

(** An optional token. *)
Inductive gopt (k : KIND) : bool -> list TOKEN -> Prop :=
| gopt_no : gopt k false []
| gopt_yes t : is_kind k t -> gopt k true [t].

(** The byte offset of an index. *)
Definition index_of (bytes : bool) (size n : Z) : Z := if bytes then n else n * size.

Definition index_ok (neg : bool) (size idx : Z) : bool :=
  if neg then (size <=? idx) && (idx <=? UINT16_MAX) else idx <=? UINT16_MAX - size.

Inductive gvar : list TOKEN -> VAR -> Prop :=
| gvar_plain t : is_var (kind t) = true -> gvar [t] (mkVar (kind t) 0)
| gvar_array t o m neg n b bytes c size : array_size (kind t) = Some size ->
    is_kind TOKEN_SQUARE_OPEN o -> gopt TOKEN_MINUS neg m -> is_kind TOKEN_NUMBER n ->
    w1 (val n) = 0 -> w2 (val n) = 0 -> w3 (val n) = 0 -> w0 (val n) <= WINDIVERT_MTU_MAX ->
    gopt TOKEN_BYTES bytes b -> is_kind TOKEN_SQUARE_CLOSE c ->
    index_ok neg size (index_of bytes size (w0 (val n))) = true ->
    gvar (t :: o :: m ++ n :: b ++ [c])
      (mkVar (kind t) (u32 (if neg then - index_of bytes size (w0 (val n)) else index_of bytes size (w0 (val n))))).

(** Any number of [not]s and their parity. *)
Inductive gnots : list TOKEN -> bool -> Prop :=
| gnots_nil : gnots [] false
| gnots_cons t l b : is_kind TOKEN_NOT t -> gnots l b -> gnots (t :: l) (negb b).

Inductive gtest : list TOKEN -> TEST_EXPR -> Prop :=
| gtest_flag l not v var : gnots l not -> gvar v var ->
    gtest (l ++ v) (mkTest (if not then TOKEN_EQ else TOKEN_NEQ) var WinDivertMakeZero)
| gtest_cmp l not v var c m neg n : gnots l not -> gvar v var -> is_comparison (kind c) = true ->
    gopt TOKEN_MINUS neg m -> is_kind TOKEN_NUMBER n ->
    gtest (l ++ v ++ c :: m ++ [n]) (mkTest (if not then negate (kind c) else kind c) var (mkNum neg (val n))).

Inductive garg : nat -> list TOKEN -> EXPR -> Prop :=
| garg_test d l t : gtest l t -> garg (S d) l (ETest t)
| garg_paren d o l c e : is_kind TOKEN_OPEN o -> gor d l e -> is_kind TOKEN_CLOSE c ->
    garg (S (S d)) (o :: l ++ [c]) e
| garg_if d o l q m n r c x y z : is_kind TOKEN_OPEN o -> gor d l x -> is_kind TOKEN_QUESTION q ->
    gor d m y -> is_kind TOKEN_COLON n -> gor d r z -> is_kind TOKEN_CLOSE c ->
    garg (S (S d)) (o :: l ++ q :: m ++ n :: r ++ [c]) (EQuestion x y z)
with gand : nat -> list TOKEN -> EXPR -> Prop :=
| gand_one d l e : garg d l e -> gand d l e
| gand_and d l o r a b : gand d l a -> is_kind TOKEN_AND o -> garg d r b -> gand d (l ++ o :: r) (EAnd a b)
with gor : nat -> list TOKEN -> EXPR -> Prop :=
| gor_one d l e : gand d l e -> gor (S d) l e
| gor_or d l o r a b : gand d l a -> is_kind TOKEN_OR o -> gor d r b -> gor (S d) (l ++ o :: r) (EOr a b).

Scheme garg_ind' := Induction for garg Sort Prop
  with gand_ind' := Induction for gand Sort Prop
  with gor_ind' := Induction for gor Sort Prop.
Combined Scheme grammar_ind from garg_ind', gand_ind', gor_ind'.

(** ** Reading a derivation *)

Lemma make_var_ok k : is_var k = true -> WinDivertMakeVar k = Some (mkVar k 0).
Proof. destruct k; intros H; try discriminate H; vm_compute; reflexivity. Qed.

Lemma kind_eqb_refl k : kind_eqb k k = true.
Proof. unfold kind_eqb. apply Z.eqb_refl. Qed.

Lemma expect_kind_ok {A} k t rest (f : TOKEN -> list TOKEN -> parsed A) : is_kind k t ->
  expect_kind k (t :: rest) f = f t rest.
Proof. unfold is_kind, expect_kind, with_tok. intros ->. now rewrite kind_eqb_refl. Qed.

(** The tokens that can follow a variable or a test. *)
Definition head_kind (toks : list TOKEN) : option KIND :=
  match toks with [] => None | t :: _ => Some (kind t) end.

Lemma skip_minus_ok {A} neg m n rest (f : bool -> list TOKEN -> parsed A) : gopt TOKEN_MINUS neg m ->
  is_kind TOKEN_NUMBER n -> skip_minus (m ++ n :: rest) f = f neg (n :: rest).
Proof.
  intros H Hn. unfold skip_minus, with_tok. destruct H as [|t Ht]; cbn [app].
  - unfold is_kind in Hn. now rewrite Hn.
  - unfold is_kind in Ht. now rewrite Ht.
Qed.

Lemma index_cond neg size idx : 0 <= idx ->
  (negb neg && (idx >? UINT16_MAX - size)) || (neg && (idx >? UINT16_MAX)) || (neg && (idx <? size)) =
  negb (index_ok neg size idx).
Proof. unfold index_ok. destruct neg; cbn [negb andb orb]; lia. Qed.

Lemma array_size_range k size : array_size k = Some size -> size = 1 \/ size = 2 \/ size = 4.
Proof. destruct k; intros H; try discriminate H; injection H as <-; auto. Qed.

Lemma parse_var_ok l v rest : gvar l v -> Forall (fun t => wf128 (val t)) l -> parse_var (l ++ rest) = POk v rest.
Proof.
  intros H W. destruct H as [t Ht|t o m neg n b bytes c size Hs Ho Hm Hn H1 H2 H3 H0 Hb Hc Hi].
  - unfold parse_var, with_tok. cbn [app]. now rewrite Ht, make_var_ok.
  - unfold parse_var, with_tok. cbn [app].
    assert (V : is_var (kind t) = false) by (destruct (kind t); try discriminate Hs; reflexivity).
    rewrite V, Hs. unfold parse_index. rewrite <- app_assoc. cbn [app]. rewrite <- app_assoc. cbn [app].
    rewrite expect_kind_ok, (skip_minus_ok neg), expect_kind_ok by assumption.
    rewrite H1, H2, H3. cbn [Z.eqb negb orb]. replace (w0 (val n) >? WINDIVERT_MTU_MAX) with false by lia.
    assert (Wn : wf128 (val n)).
    { apply (proj1 (Forall_forall _ _) W). right. right. apply in_or_app. right. now left. }
    destruct Wn as [Wn _]. unfold is_u32 in Wn. unfold WINDIVERT_MTU_MAX in H0.
    assert (Hz : 0 < size <= 4) by (destruct (array_size_range _ _ Hs) as [?|[?|?]]; lia).
    assert (U : u32 (w0 (val n) * size) = w0 (val n) * size) by (apply Z.mod_small; nia).
    destruct Hb as [|x Hx]; cbn [app with_tok].
    + unfold is_kind in Hc. rewrite Hc. cbn [kind_eqb kind_code Z.eqb Pos.eqb]. rewrite U. cbn [index_of] in *.
      rewrite index_cond, Hi by nia. cbn [negb]. now rewrite expect_kind_ok.
    + unfold is_kind in Hx. rewrite Hx. cbn [kind_eqb kind_code Z.eqb Pos.eqb with_tok]. cbn [index_of] in *.
      rewrite index_cond, Hi by lia. cbn [negb]. now rewrite expect_kind_ok.
Qed.

Lemma skip_not_ok l b : gnots l b -> forall rest x, head_kind rest <> Some TOKEN_NOT ->
  skip_not (l ++ rest) x = (xorb b x, rest).
Proof.
  induction 1 as [|t l b Ht _ IH]; intros rest x Hr; cbn [app].
  - destruct rest as [|t rest]; [reflexivity|]. cbn [skip_not head_kind] in *.
    destruct (kind_eqb (kind t) TOKEN_NOT) eqn:E; [|reflexivity]. apply kind_eqb_eq in E. congruence.
  - cbn [skip_not]. unfold is_kind in Ht. rewrite Ht, kind_eqb_refl, IH by exact Hr.
    now destruct b, x.
Qed.

Lemma gvar_head l v rest : gvar l v -> head_kind (l ++ rest) <> Some TOKEN_NOT.
Proof.
  intros []; cbn [app head_kind]; intros [= E]; rewrite E in *; discriminate.
Qed.

Lemma parse_test_ok l t rest : gtest l t -> Forall (fun t => wf128 (val t)) l ->
  (forall k, head_kind rest = Some k -> is_comparison k = false) -> rest <> [] ->
  WinDivertParseTest (l ++ rest) = POk (ETest t) rest.
Proof.
  intros H W Hf Hr. unfold WinDivertParseTest.
  destruct H as [l not v var Hn Hv|l not v var c m neg n Hn Hv Hc Hm Hx].
  - apply Forall_app in W. destruct W as [_ W]. rewrite <- app_assoc.
    rewrite (skip_not_ok _ _ Hn) by exact (gvar_head _ _ _ Hv). rewrite xorb_false_r.
    rewrite (parse_var_ok _ _ _ Hv W). cbn [pbind]. destruct rest as [|t rest]; [congruence|]. cbn [with_tok].
    now rewrite (Hf (kind t) eq_refl).
  - apply Forall_app in W. destruct W as [_ W]. apply Forall_app in W. destruct W as [W _].
    rewrite <- !app_assoc. rewrite (skip_not_ok _ _ Hn) by exact (gvar_head _ _ _ Hv). rewrite xorb_false_r.
    rewrite (parse_var_ok _ _ _ Hv W). cbn [pbind app with_tok]. rewrite Hc, <- app_assoc. cbn [app].
    rewrite (skip_minus_ok neg) by assumption. now rewrite expect_kind_ok.
Qed.

(** ** The parser reads a prefix *)

(** The tokens left, of a success and of an error. *)
Definition rest_of {A} (x : parsed A) : option (list TOKEN) :=
  match x with PUndef => None | PErr _ r => Some r | POk _ r => Some r end.

Definition reads {A} (toks : list TOKEN) (x : parsed A) : Prop :=
  forall r, rest_of x = Some r -> exists l, toks = l ++ r.

Lemma reads_here {A} toks (a : A) : reads toks (POk a toks).
Proof. intros r [= <-]. now exists []. Qed.

Lemma reads_err {A} toks e : reads toks (@PErr A e toks).
Proof. intros r [= <-]. now exists []. Qed.

Lemma reads_undef {A} toks : reads toks (@PUndef A).
Proof. intros r [=]. Qed.

Lemma reads_pre {A} toks pre r (x : parsed A) : toks = pre ++ r -> reads r x -> reads toks x.
Proof. intros -> H s E. destruct (H s E) as [l ->]. exists (pre ++ l). now rewrite app_assoc. Qed.

Lemma reads_bind {A B} toks (x : parsed A) (f : A -> list TOKEN -> parsed B) :
  reads toks x -> (forall a r, reads r (f a r)) -> reads toks (pbind x f).
Proof.
  intros Hx Hf. destruct x as [|e r|a r]; [apply reads_undef|exact Hx|].
  destruct (Hx r eq_refl) as [l E]. exact (reads_pre _ _ _ _ E (Hf a r)).
Qed.

Lemma reads_with_tok {A} toks (f : TOKEN -> list TOKEN -> parsed A) :
  (forall t rest, toks = t :: rest -> reads toks (f t rest)) -> reads toks (with_tok toks f).
Proof. intros H. destruct toks as [|t rest]; [apply reads_undef|]. now apply H. Qed.

Lemma reads_tail {A} t rest (x : parsed A) : reads rest x -> reads (t :: rest) x.
Proof. apply (reads_pre _ [t]). reflexivity. Qed.

Lemma reads_expect {A} k toks (f : TOKEN -> list TOKEN -> parsed A) :
  (forall t rest, reads rest (f t rest)) -> reads toks (expect_kind k toks f).
Proof.
  intros H. apply reads_with_tok. intros t rest ->. case_if; [apply reads_tail, H|apply reads_err].
Qed.

Lemma reads_minus {A} toks (f : bool -> list TOKEN -> parsed A) :
  (forall b r, reads r (f b r)) -> reads toks (skip_minus toks f).
Proof. intros H. apply reads_with_tok. intros t rest ->. case_if; [apply reads_tail, H|apply H]. Qed.

Lemma reads_index k size toks : reads toks (parse_index k size toks).
Proof.
  unfold parse_index. apply reads_expect. intros _ t1. apply reads_minus. intros b t2. apply reads_with_tok.
  intros t r ->. case_if; [|apply reads_err]. case_if; [apply reads_err|]. apply reads_tail, reads_with_tok.
  intros x r' ->. cbv zeta. assert (G : forall l i, reads l (with_tok l (fun t0 _ =>
      if (negb b && (i >? UINT16_MAX - size)) || (b && (i >? UINT16_MAX)) || (b && (i <? size))
      then PErr (MAKE_ERROR WINDIVERT_ERROR_INDEX_OOB (pos t0)) l
      else expect_kind TOKEN_SQUARE_CLOSE l
        (fun _ toks0 => POk (mkVar k (u32 (if b then - i else i))) toks0)))).
  { intros l i. apply reads_with_tok. intros y l' ->. case_if; [apply reads_err|].
    apply reads_expect. intros. apply reads_here. }
  destruct (kind_eqb (kind x) TOKEN_BYTES); [apply reads_tail|]; apply G.
Qed.

Lemma reads_var toks : reads toks (parse_var toks).
Proof.
  unfold parse_var. apply reads_with_tok. intros t r ->. case_if.
  - apply reads_tail. destruct (WinDivertMakeVar (kind t)); [apply reads_here|apply reads_err].
  - destruct (array_size (kind t)); [apply reads_tail, reads_index|apply reads_err].
Qed.

Lemma skip_not_reads : forall toks b, exists l, toks = l ++ snd (skip_not toks b).
Proof.
  induction toks as [|t toks IH]; intros b; cbn [skip_not]; [now exists []|].
  case_if; [|now exists []]. destruct (IH (negb b)) as [l E]. exists (t :: l). cbn [app]. now f_equal.
Qed.

Lemma reads_test toks : reads toks (WinDivertParseTest toks).
Proof.
  unfold WinDivertParseTest. destruct (skip_not_reads toks false) as [l E].
  destruct (skip_not toks false) as [not r]. cbn [snd] in E. apply (reads_pre _ l r _ E).
  apply reads_bind; [apply reads_var|]. intros v r'. apply reads_with_tok. intros t r'' ->. case_if.
  - apply reads_tail, reads_minus. intros b r3. apply reads_expect. intros. apply reads_here.
  - apply reads_here.
Qed.

Lemma reads_loop arg right : (forall t, reads t (arg t)) -> (forall t, reads t (right t)) ->
  forall fuel e toks, reads toks (parse_loop fuel arg right e toks).
Proof.
  intros Ha Hr. induction fuel as [|fuel IH]; intros e toks; cbn [parse_loop]; [apply reads_undef|].
  apply reads_with_tok. intros t r ->.
  destruct (kind t); try apply reads_here; apply reads_tail, reads_bind; auto.
Qed.

Lemma reads_open f : (forall t, reads t (f t)) -> forall a err toks, reads toks (after_open f a err toks).
Proof.
  intros Hf a err toks. unfold after_open. apply reads_with_tok. intros t r ->.
  destruct (kind t); try apply reads_err.
  - apply reads_tail. destruct err; [apply reads_err|apply reads_here].
  - apply reads_tail, reads_bind; [apply Hf|]. intros th r1. apply reads_expect. intros _ r2.
    apply reads_bind; [apply Hf|]. intros el r3. apply reads_expect. intros. apply reads_here.
Qed.

Lemma reads_filter : forall d, (forall and toks, reads toks (WinDivertParseFilter d and toks)) /\
  (forall toks, reads toks (WinDivertParseAndOrArg d toks)).
Proof.
  assert (T : forall toks, reads toks (@too_deep EXPR toks))
    by (intros toks; apply reads_with_tok; intros; apply reads_err).
  induction d as [|d [IHf IHa]]; split; intros; cbn [WinDivertParseFilter WinDivertParseAndOrArg]; try apply T.
  - apply reads_bind; [destruct and; auto|]. intros e r. apply reads_loop; auto.
  - apply reads_with_tok. intros t r ->. destruct (kind t); try apply reads_test.
    apply reads_tail. specialize (IHf false) as G. specialize (G r).
    destruct (WinDivertParseFilter d false r) as [|e r1|a r1]; [apply reads_undef|..];
      destruct (G r1 eq_refl) as [l ->]; apply (reads_pre _ l r1); auto using reads_open.
Qed.

(** Fuel above the tokens left changes nothing. *)
Lemma parse_loop_fuel arg right : (forall t, reads t (arg t)) -> (forall t, reads t (right t)) ->
  forall fuel fuel' e toks, (length toks < fuel)%nat -> (length toks < fuel')%nat ->
  parse_loop fuel arg right e toks = parse_loop fuel' arg right e toks.
Proof.
  intros Ha Hr. induction fuel as [|fuel IH]; intros fuel' e toks H H'; [lia|]. destruct fuel' as [|fuel']; [lia|].
  cbn [parse_loop]. destruct toks as [|t r]; [reflexivity|]. cbn [with_tok length] in *.
  assert (G : forall (f : list TOKEN -> parsed EXPR) g, (forall t, reads t (f t)) ->
    pbind (f r) (fun a toks => parse_loop fuel arg right (g a) toks) =
    pbind (f r) (fun a toks => parse_loop fuel' arg right (g a) toks)).
  { intros f g Hf. specialize (Hf r). destruct (f r) as [|x s|a s]; [reflexivity..|]. cbn [pbind].
    destruct (Hf s eq_refl) as [l E]. apply (f_equal (@length _)) in E. rewrite length_app in E. apply IH; lia. }
  destruct (kind t); try reflexivity; apply G; assumption.
Qed.

(** ** The parser reads what the grammar derives *)

(** What can follow an operand, and what ends an expression. *)
Definition stops (k : KIND) : bool :=
  match k with TOKEN_CLOSE | TOKEN_QUESTION | TOKEN_COLON | TOKEN_END => true | _ => false end.

Definition follows (k : KIND) : bool :=
  match k with TOKEN_AND | TOKEN_OR => true | k => stops k end.

Definition next_is (p : KIND -> bool) (rest : list TOKEN) : Prop :=
  match rest with [] => False | t :: _ => p (kind t) = true end.

Definition numbers_ok (l : list TOKEN) : Prop := Forall (fun t => wf128 (val t)) l.

Lemma stop_loop fuel arg right e rest : next_is stops rest -> parse_loop (S fuel) arg right e rest = POk e rest.
Proof.
  destruct rest as [|t r]; [easy|]. cbn [next_is parse_loop with_tok]. now destruct (kind t).
Qed.

Lemma stop_follow rest : next_is stops rest -> next_is follows rest.
Proof. destruct rest as [|t r]; [easy|]. cbn [next_is]. now destruct (kind t). Qed.

Lemma kind_next k p t r : is_kind k t -> p k = true -> next_is p (t :: r).
Proof. unfold is_kind. intros <-. auto. Qed.

Lemma follow_no_comparison rest : next_is follows rest ->
  (forall k, head_kind rest = Some k -> is_comparison k = false) /\ rest <> [].
Proof.
  destruct rest as [|t r]; [easy|]. cbn [next_is head_kind]. intros H. split; [|congruence].
  intros k [= <-]. now destruct (kind t).
Qed.

(** A variable or [not] never opens a parenthesis. *)
Lemma gtest_head l t rest : gtest l t -> exists x r, l ++ rest = x :: r /\ kind x <> TOKEN_OPEN.
Proof.
  assert (N : forall l b, gnots l b -> forall r, (exists x s, r = x :: s /\ kind x <> TOKEN_OPEN) ->
    exists x s, l ++ r = x :: s /\ kind x <> TOKEN_OPEN).
  { intros m b [|x m' b' Hx _] r Hr; [exact Hr|]. exists x, (m' ++ r). split; [reflexivity|].
    unfold is_kind in Hx. congruence. }
  assert (V : forall v var r, gvar v var -> exists x s, v ++ r = x :: s /\ kind x <> TOKEN_OPEN).
  { intros v var r []; cbn [app]; eexists _, _; (split; [reflexivity|]); intros E; rewrite E in *; discriminate. }
  intros []; rewrite <- app_assoc; eapply N; eauto. rewrite <- app_assoc. eauto.
Qed.

Lemma filter_false d toks e rest : WinDivertParseFilter d true toks = POk e rest -> next_is stops rest ->
  WinDivertParseFilter (S d) false toks = POk e rest.
Proof. intros E H. cbn [WinDivertParseFilter]. rewrite E. cbn [pbind]. now apply stop_loop. Qed.

(** One operator and its operand in the loop of depth [d]. *)
Lemma loop_and d e t l b rest : is_kind TOKEN_AND t -> WinDivertParseAndOrArg d (l ++ rest) = POk b rest ->
  parse_loop (S (length (t :: l ++ rest))) (WinDivertParseAndOrArg d) (WinDivertParseFilter d true) e (t :: l ++ rest) =
  parse_loop (S (length rest)) (WinDivertParseAndOrArg d) (WinDivertParseFilter d true) (EAnd e b) rest.
Proof.
  intros Ht E. change (parse_loop (S ?n) ?a ?r ?e (t :: ?m)) with
    (match kind t with
     | TOKEN_AND => pbind (a m) (fun x toks => parse_loop n a r (EAnd e x) toks)
     | TOKEN_OR => pbind (r m) (fun x toks => parse_loop n a r (EOr e x) toks)
     | _ => POk e (t :: m) end).
  unfold is_kind in Ht. rewrite Ht, E. cbn [pbind].
  apply parse_loop_fuel; try apply reads_filter; cbn [length]; rewrite ?length_app; lia.
Qed.

Lemma loop_or d e t l b rest : is_kind TOKEN_OR t -> WinDivertParseFilter d true (l ++ rest) = POk b rest ->
  parse_loop (S (length (t :: l ++ rest))) (WinDivertParseAndOrArg d) (WinDivertParseFilter d true) e (t :: l ++ rest) =
  parse_loop (S (length rest)) (WinDivertParseAndOrArg d) (WinDivertParseFilter d true) (EOr e b) rest.
Proof.
  intros Ht E. change (parse_loop (S ?n) ?a ?r ?e (t :: ?m)) with
    (match kind t with
     | TOKEN_AND => pbind (a m) (fun x toks => parse_loop n a r (EAnd e x) toks)
     | TOKEN_OR => pbind (r m) (fun x toks => parse_loop n a r (EOr e x) toks)
     | _ => POk e (t :: m) end).
  unfold is_kind in Ht. rewrite Ht, E. cbn [pbind].
  apply parse_loop_fuel; try apply reads_filter; cbn [length]; rewrite ?length_app; lia.
Qed.

Lemma parser_complete :
  (forall d l e, garg d l e -> numbers_ok l -> forall rest, next_is follows rest ->
     WinDivertParseAndOrArg d (l ++ rest) = POk e rest) /\
  (forall d l e, gand d l e -> numbers_ok l -> forall rest, next_is follows rest ->
     pbind (WinDivertParseAndOrArg d (l ++ rest)) (fun x toks => parse_loop (S (length toks))
       (WinDivertParseAndOrArg d) (WinDivertParseFilter d true) x toks) =
     parse_loop (S (length rest)) (WinDivertParseAndOrArg d) (WinDivertParseFilter d true) e rest) /\
  (forall d l e, gor d l e -> numbers_ok l -> forall rest, next_is stops rest ->
     WinDivertParseFilter d true (l ++ rest) = POk e rest).
Proof.
  apply grammar_ind.
  - intros d l t H W rest F. destruct (follow_no_comparison rest F) as [F1 F2].
    cbn [WinDivertParseAndOrArg]. destruct (gtest_head l t rest H) as (x & r & E & K).
    rewrite E at 1. cbn [with_tok]. rewrite <- (parse_test_ok l t rest) by assumption.
    destruct (kind x); try reflexivity. congruence.
  - intros d o l c e Ho _ IH Hc W rest F. inversion W as [|? ? _ W']; subst. apply Forall_app in W'. destruct W' as [W' _].
    cbn [WinDivertParseAndOrArg app with_tok]. rewrite <- app_assoc. cbn [app]. unfold is_kind in Ho. rewrite Ho.
    rewrite (filter_false d _ e (c :: rest)); [|apply IH; [exact W'|]|]; try (eapply kind_next; [exact Hc|reflexivity]).
    unfold after_open. cbn [with_tok]. unfold is_kind in Hc. now rewrite Hc.
  - intros d o l q m n r c x y z Ho _ IHx Hq _ IHy Hn _ IHz Hc W rest F.
    inversion W as [|? ? _ W1]; subst. apply Forall_app in W1. destruct W1 as [Wl W1].
    inversion W1 as [|? ? _ W2]; subst. apply Forall_app in W2. destruct W2 as [Wm W2].
    inversion W2 as [|? ? _ W3]; subst. apply Forall_app in W3. destruct W3 as [Wr _].
    cbn [WinDivertParseAndOrArg app with_tok]. repeat (rewrite <- app_assoc; cbn [app]). unfold is_kind in Ho. rewrite Ho.
    rewrite (filter_false d _ x (q :: m ++ n :: r ++ c :: rest));
      [|apply IHx; [exact Wl|]|]; try (eapply kind_next; [exact Hq|reflexivity]).
    unfold after_open. cbn [with_tok]. unfold is_kind in Hq. rewrite Hq.
    rewrite (filter_false d _ y (n :: r ++ c :: rest));
      [|apply IHy; [exact Wm|]|]; try (eapply kind_next; [exact Hn|reflexivity]).
    cbn [pbind]. rewrite expect_kind_ok by exact Hn.
    rewrite (filter_false d _ z (c :: rest));
      [|apply IHz; [exact Wr|]|]; try (eapply kind_next; [exact Hc|reflexivity]).
    cbn [pbind]. now rewrite expect_kind_ok.
  - intros d l e _ IH W rest F. now rewrite IH.
  - intros d l o r a b _ IHa Ho _ IHb W rest F. apply Forall_app in W. destruct W as [Wl W].
    inversion W as [|? ? _ Wr]; subst. rewrite <- app_assoc. cbn [app].
    rewrite IHa; [|exact Wl|eapply kind_next; [exact Ho|reflexivity]]. apply loop_and; auto.
  - intros d l e _ IH W rest F. cbn [WinDivertParseFilter]. rewrite IH by auto using stop_follow. now apply stop_loop.
  - intros d l o r a b _ IHa Ho _ IHb W rest F. apply Forall_app in W. destruct W as [Wl W].
    inversion W as [|? ? _ Wr]; subst. rewrite <- app_assoc. cbn [app WinDivertParseFilter].
    rewrite IHa; [|exact Wl|eapply kind_next; [exact Ho|reflexivity]].
    rewrite (loop_or d a o r b rest) by auto. now apply stop_loop.
Qed.

(** ** The grammar derives what the parser reads *)

Fixpoint null_free (e : EXPR) : bool :=
  match e with
  | ETest _ => true
  | EAnd a b | EOr a b => null_free a && null_free b
  | EQuestion a b c => null_free a && null_free b && null_free c
  | ENull => false
  end.

Lemma with_tok_inv {A} toks (f : TOKEN -> list TOKEN -> parsed A) a r : with_tok toks f = POk a r ->
  exists t rest, toks = t :: rest /\ f t rest = POk a r.
Proof. destruct toks as [|t rest]; [discriminate|]. eauto. Qed.

Lemma expect_kind_inv {A} k toks (f : TOKEN -> list TOKEN -> parsed A) a r : expect_kind k toks f = POk a r ->
  exists t rest, toks = t :: rest /\ is_kind k t /\ f t rest = POk a r.
Proof.
  intros H. apply with_tok_inv in H as (t & rest & -> & H). destruct (kind_eqb (kind t) k) eqn:E; [|discriminate].
  apply kind_eqb_eq in E. now exists t, rest.
Qed.

Lemma skip_minus_inv {A} toks (f : bool -> list TOKEN -> parsed A) a r : skip_minus toks f = POk a r ->
  exists m neg rest, toks = m ++ rest /\ gopt TOKEN_MINUS neg m /\ f neg rest = POk a r.
Proof.
  intros H. apply with_tok_inv in H as (t & rest & -> & H). destruct (kind_eqb (kind t) TOKEN_MINUS) eqn:E.
  - apply kind_eqb_eq in E. exists [t], true, rest. split; [reflexivity|]. split; [now constructor|exact H].
  - exists [], false, (t :: rest). split; [reflexivity|]. split; [constructor|exact H].
Qed.

Lemma pbind_inv {A B} (x : parsed A) (f : A -> list TOKEN -> parsed B) b r : pbind x f = POk b r ->
  exists a toks, x = POk a toks /\ f a toks = POk b r.
Proof. destruct x as [|e s|a s]; try discriminate. eauto. Qed.

Lemma parse_index_sound k size toks v rest : array_size k = Some size -> numbers_ok toks ->
  parse_index k size toks = POk v rest -> forall t, kind t = k -> exists l, toks = l ++ rest /\ gvar (t :: l) v.
Proof.
  intros Hs W H t Ht. unfold parse_index in H.
  apply expect_kind_inv in H as (o & t1 & -> & Ho & H). apply skip_minus_inv in H as (m & neg & t2 & -> & Hm & H).
  apply expect_kind_inv in H as (n & t3 & -> & Hn & H).
  assert (Wn : wf128 (val n)) by (apply (proj1 (Forall_forall _ _) W); right; apply in_or_app; right; now left).
  destruct Wn as (Wn & _). unfold is_u32 in Wn.
  destruct (_ || (w0 (val n) >? WINDIVERT_MTU_MAX)) eqn:C; [discriminate|].
  apply orb_false_iff in C. destruct C as [C C0]. apply orb_false_iff in C. destruct C as [C C1].
  apply orb_false_iff in C. destruct C as [C3 C2]. apply negb_false_iff, Z.eqb_eq in C1, C2, C3.
  apply with_tok_inv in H as (x & t4 & -> & H).
  assert (Hz : 0 < size <= 4) by (destruct (array_size_range _ _ Hs) as [?|[?|?]]; lia).
  assert (M : w0 (val n) <= WINDIVERT_MTU_MAX) by lia. pose proof M as M'. unfold WINDIVERT_MTU_MAX in M'.
  assert (U : u32 (w0 (val n) * size) = w0 (val n) * size) by (apply Z.mod_small; nia). rewrite U in H.
  set (bytes := kind_eqb (kind x) TOKEN_BYTES) in *.
  change (if bytes then w0 (val n) else w0 (val n) * size) with (index_of bytes size (w0 (val n))) in H.
  assert (I0 : 0 <= index_of bytes size (w0 (val n))) by (unfold index_of; destruct bytes; nia).
  cbv zeta in H. apply with_tok_inv in H as (y & t5 & Ey & H). rewrite index_cond in H by exact I0.
  destruct (index_ok neg size (index_of bytes size (w0 (val n)))) eqn:Hi; [|discriminate]. cbn [negb] in H.
  apply expect_kind_inv in H as (c & t6 & Ec & Hc & H). injection H as <- <-.
  assert (B : exists b, x :: t4 = b ++ c :: t6 /\ gopt TOKEN_BYTES bytes b).
  { destruct bytes eqn:Eb.
    - exists [x]. rewrite Ec. split; [reflexivity|]. constructor. now apply kind_eqb_eq.
    - exists []. split; [exact Ec|constructor]. }
  destruct B as (b & -> & Hb). exists (o :: m ++ n :: b ++ [c]). split.
  - cbn [app]. f_equal. rewrite <- !app_assoc. cbn [app]. now rewrite <- app_assoc.
  - subst k. now apply gvar_array.
Qed.

Lemma parse_var_sound toks v rest : numbers_ok toks -> parse_var toks = POk v rest ->
  exists l, toks = l ++ rest /\ gvar l v.
Proof.
  intros W H. unfold parse_var in H. apply with_tok_inv in H as (t & r & -> & H).
  destruct (is_var (kind t)) eqn:V.
  - rewrite make_var_ok in H by exact V. injection H as <- <-. exists [t]. split; [reflexivity|]. now constructor.
  - destruct (array_size (kind t)) as [size|] eqn:S; [|discriminate]. inversion W as [|? ? _ W']; subst.
    destruct (parse_index_sound _ _ _ _ _ S W' H t eq_refl) as (l & -> & G). exists (t :: l). auto.
Qed.

Lemma skip_not_sound : forall toks b, exists l c, toks = l ++ snd (skip_not toks b) /\ gnots l c /\
  fst (skip_not toks b) = xorb c b.
Proof.
  assert (E : forall toks b, exists l c, toks = l ++ snd (b, toks) /\ gnots l c /\ fst (b, toks) = xorb c b).
  { intros toks b. exists [], false. split; [reflexivity|]. split; [constructor|now destruct b]. }
  induction toks as [|t toks IH]; intros b; cbn [skip_not]; [apply E|].
  destruct (kind_eqb (kind t) TOKEN_NOT) eqn:K; [|apply E].
  apply kind_eqb_eq in K. destruct (IH (negb b)) as (l & c & El & G & Ec). exists (t :: l), (negb c).
  rewrite Ec. cbn [app]. split; [now f_equal|]. split; [now constructor|now destruct b, c].
Qed.

Lemma parse_test_sound toks e rest : numbers_ok toks -> WinDivertParseTest toks = POk e rest ->
  exists l t, toks = l ++ rest /\ e = ETest t /\ gtest l t.
Proof.
  intros W H. unfold WinDivertParseTest in H. destruct (skip_not_sound toks false) as (l & c & El & G & Ec).
  destruct (skip_not toks false) as [not r]. cbn [fst snd] in *. rewrite xorb_false_r in Ec. subst not toks.
  apply Forall_app in W. destruct W as [_ W].
  apply pbind_inv in H as (var & r1 & Hv & H). destruct (parse_var_sound _ _ _ W Hv) as (v & -> & Gv).
  apply with_tok_inv in H as (t & r2 & -> & H). destruct (is_comparison (kind t)) eqn:C.
  - apply skip_minus_inv in H as (m & neg & r3 & -> & Gm & H). apply expect_kind_inv in H as (n & r4 & -> & Hn & H).
    injection H as <- <-. exists (l ++ v ++ t :: m ++ [n]). eexists. split; [|split; [reflexivity|now constructor]].
    rewrite <- !app_assoc. cbn [app]. now rewrite <- app_assoc.
  - injection H as <- <-. exists (l ++ v). eexists. split; [now rewrite <- app_assoc|]. split; [reflexivity|now constructor].
Qed.

(** The parser stops before a token that goes on neither with [and] nor
    with [or]. *)
Definition no_more (rest : list TOKEN) : Prop := head_kind rest <> Some TOKEN_AND /\ head_kind rest <> Some TOKEN_OR.

Definition arg_sound (d : nat) (f : list TOKEN -> parsed EXPR) : Prop :=
  forall toks e rest, numbers_ok toks -> f toks = POk e rest -> null_free e = true ->
  exists l, toks = l ++ rest /\ garg d l e.

Definition or_sound (d : nat) (f : list TOKEN -> parsed EXPR) : Prop :=
  forall toks e rest, numbers_ok toks -> f toks = POk e rest -> null_free e = true ->
  exists l, toks = l ++ rest /\ gor d l e /\ no_more rest.

Lemma numbers_suffix l r : numbers_ok (l ++ r) -> numbers_ok r.
Proof. intros H. now apply Forall_app in H. Qed.

(** A result of the loop contains the expression it started with. *)
Lemma loop_null_free arg right : forall fuel e toks e' rest,
  parse_loop fuel arg right e toks = POk e' rest -> null_free e' = true -> null_free e = true.
Proof.
  induction fuel as [|fuel IH]; intros e toks e' rest; cbn [parse_loop]; [discriminate|]. intros H N.
  apply with_tok_inv in H as (t & r & -> & H).
  destruct (kind t); try (injection H as <- _; exact N); apply pbind_inv in H as (a & r1 & _ & H);
    specialize (IH _ _ _ _ H N); cbn [null_free] in IH; now apply andb_true_iff in IH.
Qed.

Lemma loop_done arg right fuel e toks e' rest : no_more toks -> parse_loop fuel arg right e toks = POk e' rest ->
  e' = e /\ rest = toks.
Proof.
  intros [N1 N2]. destruct fuel as [|fuel]; cbn [parse_loop]; [discriminate|]. intros H.
  apply with_tok_inv in H as (t & r & -> & H). cbn [head_kind] in *.
  destruct (kind t); try congruence; now injection H.
Qed.

Lemma loop_sound d arg right : arg_sound d arg -> or_sound d right -> forall fuel pre e toks e' rest,
  numbers_ok toks -> gand d pre e -> parse_loop fuel arg right e toks = POk e' rest -> null_free e' = true ->
  exists l, toks = l ++ rest /\ gor (S d) (pre ++ l) e' /\ no_more rest.
Proof.
  intros Ha Hr. induction fuel as [|fuel IH]; intros pre e toks e' rest W G H N; [discriminate|].
  cbn [parse_loop] in H. apply with_tok_inv in H as (t & r & -> & H).
  inversion W as [|? ? _ Wr]; subst.
  assert (D : kind t <> TOKEN_AND -> kind t <> TOKEN_OR -> e' = e -> rest = t :: r ->
    exists l, t :: r = l ++ rest /\ gor (S d) (pre ++ l) e' /\ no_more rest).
  { intros N1 N2 -> ->. exists []. rewrite app_nil_r. split; [reflexivity|]. split; [now constructor|].
    split; cbn [head_kind]; congruence. }
  destruct (kind t) eqn:K; try (injection H as <- <-; apply D; congruence).
  - apply pbind_inv in H as (b & r1 & Hb & H). pose proof (loop_null_free _ _ _ _ _ _ _ H N) as Nb.
    cbn [null_free] in Nb. apply andb_true_iff in Nb. destruct Nb as [_ Nb].
    destruct (Ha _ _ _ Wr Hb Nb) as (l & -> & Gb).
    destruct (IH (pre ++ t :: l) (EAnd e b) r1 e' rest) as (m & -> & Gm & Hm);
      [exact (numbers_suffix _ _ Wr)|now apply gand_and|exact H|exact N|].
    exists (t :: l ++ m). cbn [app]. rewrite <- !app_assoc in *. auto.
  - apply pbind_inv in H as (b & r1 & Hb & H). pose proof (loop_null_free _ _ _ _ _ _ _ H N) as Nb.
    cbn [null_free] in Nb. apply andb_true_iff in Nb. destruct Nb as [_ Nb].
    destruct (Hr _ _ _ Wr Hb Nb) as (l & -> & Gb & Hm).
    destruct (loop_done _ _ _ _ _ _ _ Hm H) as [-> ->]. exists (t :: l). split; [reflexivity|]. split; [now apply gor_or|exact Hm].
Qed.

(** At the top of an expression: one level of depth more. *)
Definition top_sound (d : nat) (f : list TOKEN -> parsed EXPR) : Prop :=
  match d with O => forall toks e rest, f toks <> POk e rest | S d => or_sound d f end.

Lemma after_open_null f e toks x rest : after_open f ENull (Some e) toks = POk x rest -> null_free x = false.
Proof.
  intros H. unfold after_open in H. apply with_tok_inv in H as (t & r & -> & H).
  destruct (kind t); try discriminate. apply pbind_inv in H as (th & r1 & _ & H).
  apply expect_kind_inv in H as (? & r2 & _ & _ & H). apply pbind_inv in H as (el & r3 & _ & H).
  apply expect_kind_inv in H as (? & r4 & _ & _ & H). now injection H as <- _.
Qed.

Lemma after_open_sound d f o pre x toks e rest : or_sound d f -> is_kind TOKEN_OPEN o -> gor d pre x ->
  numbers_ok toks -> after_open f x None toks = POk e rest -> null_free e = true ->
  exists l, toks = l ++ rest /\ garg (S (S d)) (o :: pre ++ l) e.
Proof.
  intros Hf Ho G W H N. unfold after_open in H. apply with_tok_inv in H as (t & r & -> & H).
  inversion W as [|? ? _ Wr]; subst. destruct (kind t) eqn:K; try discriminate.
  - injection H as <- <-. exists [t]. split; [reflexivity|]. now apply garg_paren.
  - apply pbind_inv in H as (th & r1 & Hth & H). apply expect_kind_inv in H as (n & r2 & -> & Hn & H).
    apply pbind_inv in H as (el & r3 & Hel & H). apply expect_kind_inv in H as (c & r4 & -> & Hc & H).
    injection H as <- <-. cbn [null_free] in N. apply andb_true_iff in N. destruct N as [N Nz].
    apply andb_true_iff in N. destruct N as [Nx Ny].
    destruct (Hf _ _ _ Wr Hth Ny) as (m & -> & Gm & _). apply numbers_suffix in Wr. inversion Wr as [|? ? _ Wr']; subst.
    destruct (Hf _ _ _ Wr' Hel Nz) as (r & -> & Gr & _).
    exists (t :: m ++ n :: r ++ [c]). split.
    + cbn [app]. f_equal. rewrite <- !app_assoc. cbn [app]. now rewrite <- app_assoc.
    + now apply garg_if.
Qed.

Lemma parser_sound : forall d, or_sound d (WinDivertParseFilter d true) /\ arg_sound d (WinDivertParseAndOrArg d) /\
  top_sound d (WinDivertParseFilter d false).
Proof.
  assert (T : forall toks e rest, @too_deep EXPR toks <> POk e rest) by (intros [|t r] e rest; discriminate).
  induction d as [|d (IHo & IHa & IHt)].
  - repeat split; try (intros toks e rest W H; now elim (T toks e rest)). exact T.
  - assert (F : or_sound (S d) (WinDivertParseFilter (S d) true)).
    { intros toks e rest W H N. cbn [WinDivertParseFilter] in H. apply pbind_inv in H as (a & r & Ha & H).
      destruct (IHa _ _ _ W Ha (loop_null_free _ _ _ _ _ _ _ H N)) as (l & -> & G).
      destruct (loop_sound d _ _ IHa IHo (S (length r)) l a r e rest) as (m & -> & Gm & Hm);
        [exact (numbers_suffix _ _ W)|now apply gand_one|exact H|exact N|].
      exists (l ++ m). now rewrite <- app_assoc. }
    split; [exact F|]. split.
    + intros toks e rest W H N. cbn [WinDivertParseAndOrArg] in H. pose proof H as H'.
      apply with_tok_inv in H as (t & r & E & H). destruct (kind t) eqn:K;
        try (destruct (parse_test_sound _ _ _ W H) as (l & x & El & -> & G); exists l; split; [exact El|now constructor]).
      subst toks. inversion W as [|? ? _ Wr]; subst.
      destruct (WinDivertParseFilter d false r) as [|err r1|x r1] eqn:P; [discriminate|..].
      * apply after_open_null in H. congruence.
      * destruct d as [|d]; [now elim (IHt r x r1)|]. cbn [top_sound] in IHt.
        assert (Nx : null_free x = true).
        { unfold after_open in H. apply with_tok_inv in H as (q & r2 & -> & H). destruct (kind q); try discriminate.
          - now injection H as -> _.
          - apply pbind_inv in H as (th & r3 & _ & H). apply expect_kind_inv in H as (? & ? & _ & _ & H).
            apply pbind_inv in H as (el & r5 & _ & H). apply expect_kind_inv in H as (? & ? & _ & _ & H).
            injection H as <- _. cbn [null_free] in N. now do 2 (apply andb_true_iff in N; destruct N as [N _]). }
        destruct (IHt _ _ _ Wr P Nx) as (l & -> & G & _).
        destruct (after_open_sound d _ t l x r1 e rest IHt K G (numbers_suffix _ _ Wr) H N) as (m & -> & Gm).
        exists (t :: l ++ m). split; [cbn [app]; now rewrite <- app_assoc|exact Gm].
    + cbn [top_sound]. intros toks e rest W H N. cbn [WinDivertParseFilter] in H.
      apply pbind_inv in H as (a & r & Ha & H).
      destruct (IHo _ _ _ W Ha (loop_null_free _ _ _ _ _ _ _ H N)) as (l & -> & G & Hm).
      destruct (loop_done _ _ _ _ _ _ _ Hm H) as [-> ->]. exists l. auto.
Qed.

(** ** The parser stays inside the tokens *)

(** The last token is END. *)
Fixpoint ended (toks : list TOKEN) : Prop :=
  match toks with
  | [] => False
  | t :: r => (kind t = TOKEN_END /\ r = []) \/ ended r
  end.

Lemma ended_tail t r : ended (t :: r) -> kind t <> TOKEN_END -> ended r.
Proof. intros [[E _]|H] N; [congruence|exact H]. Qed.

Definition safe {A} (x : parsed A) : Prop :=
  match x with PUndef => False | PErr _ r => ended r | POk _ r => ended r end.

Lemma safe_with_tok {A} toks (f : TOKEN -> list TOKEN -> parsed A) : ended toks ->
  (forall t rest, toks = t :: rest -> safe (f t rest)) -> safe (with_tok toks f).
Proof. intros He H. destruct toks as [|t rest]; [elim He|]. now apply H. Qed.

Lemma safe_bind {A B} (x : parsed A) (f : A -> list TOKEN -> parsed B) : safe x ->
  (forall a r, ended r -> safe (f a r)) -> safe (pbind x f).
Proof. intros Hx Hf. destruct x as [|e r|a r]; [exact Hx..|]. now apply Hf. Qed.

Lemma safe_expect {A} k toks (f : TOKEN -> list TOKEN -> parsed A) : k <> TOKEN_END -> ended toks ->
  (forall t r, is_kind k t -> toks = t :: r -> ended r -> safe (f t r)) -> safe (expect_kind k toks f).
Proof.
  intros Hk He H. apply safe_with_tok; [exact He|]. intros t r ->. destruct (kind_eqb (kind t) k) eqn:E; [|exact He].
  apply kind_eqb_eq in E. apply H; auto. apply (ended_tail t); [exact He|congruence].
Qed.

Lemma safe_minus {A} toks (f : bool -> list TOKEN -> parsed A) : ended toks ->
  (forall b r, ended r -> safe (f b r)) -> safe (skip_minus toks f).
Proof.
  intros He H. apply safe_with_tok; [exact He|]. intros t r ->. destruct (kind_eqb (kind t) TOKEN_MINUS) eqn:E.
  - apply kind_eqb_eq in E. apply H, (ended_tail t); [exact He|congruence].
  - now apply H.
Qed.

Lemma safe_index k size toks : ended toks -> safe (parse_index k size toks).
Proof.
  intros He. unfold parse_index. apply safe_expect; [congruence|exact He|]. intros _ t1 _ _ H1.
  apply safe_minus; [exact H1|]. intros b t2 H2. apply safe_expect; [congruence|exact H2|]. intros n t3 _ -> H3.
  case_if; [exact H2|]. apply safe_with_tok; [exact H3|]. intros x t4 ->. cbv zeta.
  assert (G : forall l i, ended l -> safe (with_tok l (fun t0 _ =>
      if (negb b && (i >? UINT16_MAX - size)) || (b && (i >? UINT16_MAX)) || (b && (i <? size))
      then PErr (MAKE_ERROR WINDIVERT_ERROR_INDEX_OOB (pos t0)) l
      else expect_kind TOKEN_SQUARE_CLOSE l
        (fun _ toks0 => POk (mkVar k (u32 (if b then - i else i))) toks0)))).
  { intros l i Hl. apply safe_with_tok; [exact Hl|]. intros y l' ->. case_if; [exact Hl|].
    apply safe_expect; [congruence|exact Hl|]. intros. assumption. }
  destruct (kind_eqb (kind x) TOKEN_BYTES) eqn:E; apply G; [|exact H3].
  apply kind_eqb_eq in E. apply (ended_tail x); [exact H3|congruence].
Qed.

Lemma safe_test toks : ended toks -> safe (WinDivertParseTest toks).
Proof.
  intros He. unfold WinDivertParseTest.
  assert (Hn : forall toks b, ended toks -> ended (snd (skip_not toks b))).
  { induction toks0 as [|t r IH]; intros b H; [elim H|]. cbn [skip_not].
    destruct (kind_eqb (kind t) TOKEN_NOT) eqn:E; [|exact H]. apply kind_eqb_eq in E.
    apply IH, (ended_tail t); [exact H|congruence]. }
  specialize (Hn toks false He). destruct (skip_not toks false) as [not r]. cbn [snd] in Hn.
  apply safe_bind.
  - unfold parse_var. apply safe_with_tok; [exact Hn|]. intros t r' ->.
    destruct (is_var (kind t)) eqn:V; [|destruct (array_size (kind t)) eqn:S; [|exact Hn]].
    + rewrite make_var_ok by exact V. apply (ended_tail t); [exact Hn|]. intros E. now rewrite E in V.
    + apply safe_index, (ended_tail t); [exact Hn|]. intros E. now rewrite E in S.
  - intros v r' Hr. apply safe_with_tok; [exact Hr|]. intros t r'' ->.
    destruct (is_comparison (kind t)) eqn:C; [|exact Hr].
    apply safe_minus; [apply (ended_tail t); [exact Hr|intros E; now rewrite E in C]|].
    intros b r3 H3. apply safe_expect; [congruence|exact H3|]. intros. assumption.
Qed.

Definition all_safe {A} (f : list TOKEN -> parsed A) : Prop := forall toks, ended toks -> safe (f toks).

Lemma safe_loop arg right : all_safe arg -> all_safe right -> (forall t, reads t (arg t)) ->
  (forall t, reads t (right t)) -> forall fuel e toks, (length toks < fuel)%nat -> ended toks ->
  safe (parse_loop fuel arg right e toks).
Proof.
  intros Sa Sr Ra Rr. induction fuel as [|fuel IH]; intros e toks L He; [lia|]. cbn [parse_loop].
  apply safe_with_tok; [exact He|]. intros t r ->. cbn [length] in L.
  assert (G : forall (f : list TOKEN -> parsed EXPR) g, all_safe f -> (forall t, reads t (f t)) ->
    kind t <> TOKEN_END -> safe (pbind (f r) (fun a toks => parse_loop fuel arg right (g a) toks))).
  { intros f g Sf Rf K. apply (ended_tail t) in He; [|exact K]. specialize (Sf r He). specialize (Rf r).
    destruct (f r) as [|x s|a s]; [exact Sf..|]. cbn [pbind]. destruct (Rf s eq_refl) as [l E].
    apply IH; [|exact Sf]. apply (f_equal (@length _)) in E. rewrite length_app in E. lia. }
  destruct (kind t); try exact He; apply G; auto; congruence.
Qed.

Lemma safe_open f : all_safe f -> forall a err toks, ended toks -> safe (after_open f a err toks).
Proof.
  intros Sf a err toks He. unfold after_open. apply safe_with_tok; [exact He|]. intros t r ->.
  destruct (kind t) eqn:K; try exact He; (apply (ended_tail t) in He; [|congruence]).
  - destruct err; exact He.
  - apply safe_bind; [now apply Sf|]. intros th r1 H1. apply safe_expect; [congruence|exact H1|]. intros _ r2 _ _ H2.
    apply safe_bind; [now apply Sf|]. intros el r3 H3. apply safe_expect; [congruence|exact H3|]. intros. assumption.
Qed.

Lemma parser_safe : forall d, (forall and, all_safe (WinDivertParseFilter d and)) /\ all_safe (WinDivertParseAndOrArg d).
Proof.
  assert (T : all_safe (@too_deep EXPR)) by (intros toks He; apply safe_with_tok; [exact He|]; now intros t r ->).
  induction d as [|d [IHf IHa]]; (split; [intros and|]; [|]); try exact T; intros toks He;
    cbn [WinDivertParseFilter WinDivertParseAndOrArg].
  - apply safe_bind; [destruct and; auto; now apply IHf|]. intros e r Hr.
    apply safe_loop; auto; try apply reads_filter.
  - apply safe_with_tok; [exact He|]. intros t r ->. destruct (kind t) eqn:K; try now apply safe_test.
    apply (ended_tail t) in He; [|congruence]. pose proof (IHf false r He) as S.
    destruct (WinDivertParseFilter d false r); [exact S|now apply safe_open..].
Qed.

(** ** Theorems *)

(** C16. The parser is the grammar: for every token list closed by END and
    every expression without NULL, the parser returns that expression exactly
    when the grammar derives it, with [and] binding tighter than [or],
    parentheses and if-then-else, within the nesting depth given. An expression
    with NULL inside, which the parser builds where the condition of an
    if-then-else fails, is derived by no grammar: see
    [FindingsLang.null_condition]. *)
Theorem parser_is_grammar d l fin e : numbers_ok (l ++ [fin]) -> kind fin = TOKEN_END ->
  null_free e = true ->
  WinDivertParseFilter (S d) false (l ++ [fin]) = POk e [fin] <-> gor d l e.
Proof.
  intros W F N. destruct (parser_sound (S d)) as (_ & _ & T). cbn [top_sound] in T. split.
  - intros H. destruct (T _ _ _ W H N) as (m & E & G & _). apply app_inj_tail in E. destruct E as [-> _]. exact G.
  - intros G. apply filter_false; [|cbn [next_is]; now rewrite F].
    apply parser_complete; [exact G|now apply Forall_app in W|cbn [next_is]; now rewrite F].
Qed.

(** The parser never reads behind the END token and its loops end: on any
    tokens whose last is END, well formed or not, it returns an expression or
    an error, at any depth. *)
Theorem parser_total d and toks : ended toks ->
  match WinDivertParseFilter d and toks with PUndef => False | PErr _ r | POk _ r => ended r end.
Proof.
  intros H. destruct (parser_safe d) as [S _]. specialize (S and toks H). unfold safe in S.
  destruct (WinDivertParseFilter d and toks); exact S.
Qed.

(** [tcp.DstPort == 80 or not udp]. *)
Module ExParse.
Definition tok (k : KIND) (v : Z) : TOKEN := mkToken k (Some 0) (W128 v 0 0 0).
Definition toks : list TOKEN :=
  [tok TOKEN_TCP_DST_PORT 0; tok TOKEN_EQ 0; tok TOKEN_NUMBER 80; tok TOKEN_OR 0; tok TOKEN_NOT 0; tok TOKEN_UDP 0].
Definition expr : EXPR :=
  EOr (ETest (mkTest TOKEN_EQ (mkVar TOKEN_TCP_DST_PORT 0) (mkNum false (W128 80 0 0 0))))
      (ETest (mkTest TOKEN_EQ (mkVar TOKEN_UDP 0) WinDivertMakeZero)).
End ExParse.

Lemma parser_is_grammar_witness : gor 1024 ExParse.toks ExParse.expr.
Proof.
  apply (parser_is_grammar 1024 ExParse.toks (ExParse.tok TOKEN_END 0) ExParse.expr).
  - repeat constructor; cbn; lia.
  - reflexivity.
  - reflexivity.
  - vm_compute. reflexivity.
Defined.

Lemma parser_total_witness :
  match WinDivertParseFilter 5 false [ExParse.tok TOKEN_OPEN 0; ExParse.tok TOKEN_END 0] with
  | PUndef => False | PErr _ r | POk _ r => ended r end.
Proof.
  apply (parser_total 5 false [ExParse.tok TOKEN_OPEN 0; ExParse.tok TOKEN_END 0]). cbn. auto.
Defined.
