(* ===== verification/WdAnalyze.v ===== *)
(** * Filter analysis

    [WinDivertCondExecFilter] and [WinDivertAnalyzeFilter] of
    [src/wd/windivert_helper.c]: the flags that tell which directions, IP
    versions and events a filter can accept. *)

From Stdlib Require Import ZArith List Bool Lia.
From S2P Require Import Prelude WdTypes WdPacket WdExec WdLex.
Import ListNotations.
#[local] Open Scope Z_scope.

(** ** Conditional execution *)

(** The result of one continuation of instruction [ip]; [results] are those
    of the instructions after it. *)
Definition cond_branch (length ip : Z) (results : list bool) (label : Z) : bool :=
  if label =? WINDIVERT_FILTER_RESULT_ACCEPT then true
  else if label =? WINDIVERT_FILTER_RESULT_REJECT then false
  else if (ip <? label) && (label <? length) then nth (Z.to_nat (label - ip - 1)) results true else true.

Definition cond_test (t : TEST) (arg v : Z) : bool :=
  match t with
  | TEST_EQ => arg =? v
  | TEST_NEQ => negb (arg =? v)
  | TEST_LT => arg <? v
  | TEST_LEQ => arg <=? v
  | TEST_GT => arg >? v
  | TEST_GEQ => arg >=? v
  end.

Definition cond_insn (length ip : Z) (results : list bool) (fld : FIELD) (v : Z) (x : WINDIVERT_FILTER) : bool :=
  let succ := cond_branch length ip results (u16 (success x)) in
  let fail := cond_branch length ip results (u16 (failure x)) in
  if succ && fail then true
  else if negb succ && negb fail then false
  else if field_eqb (field x) fld then
    if neg x || negb (w1 (arg x) =? 0) || negb (w2 (arg x) =? 0) || negb (w3 (arg x) =? 0) then true
    else if cond_test (test x) v (w0 (arg x)) then succ else fail
  else true.

(** [result[ip .. length-1]], filled from the end. *)
Fixpoint cond_results (length ip : Z) (fld : FIELD) (v : Z) (f : list WINDIVERT_FILTER) : list bool :=
  match f with
  | [] => []
  | x :: f =>
    let results := cond_results length (ip + 1) fld v f in
    cond_insn length ip results fld v x :: results
  end.

Definition WinDivertCondExecFilter (f : list WINDIVERT_FILTER) (fld : FIELD) (v : Z) : bool :=
  match cond_results (zlen f) 0 fld v f with
  | [] => true
  | r :: _ => r
  end.

(** ** Flags *)

Definition WINDIVERT_FILTER_FLAG_INBOUND : Z := 0x10.
Definition WINDIVERT_FILTER_FLAG_OUTBOUND : Z := 0x20.
Definition WINDIVERT_FILTER_FLAG_IP : Z := 0x40.
Definition WINDIVERT_FILTER_FLAG_IPV6 : Z := 0x80.
Definition WINDIVERT_FILTER_FLAG_EVENT_FLOW_DELETED : Z := 0x100.
Definition WINDIVERT_FILTER_FLAG_EVENT_SOCKET_BIND : Z := 0x200.
Definition WINDIVERT_FILTER_FLAG_EVENT_SOCKET_CONNECT : Z := 0x400.
Definition WINDIVERT_FILTER_FLAG_EVENT_SOCKET_LISTEN : Z := 0x800.
Definition WINDIVERT_FILTER_FLAG_EVENT_SOCKET_ACCEPT : Z := 0x1000.
Definition WINDIVERT_FILTER_FLAG_EVENT_SOCKET_CLOSE : Z := 0x2000.

(** Two conditions, the second only tried when the first leaves a chance. *)
Definition cond_both (f : list WINDIVERT_FILTER) (f1 : FIELD) (v1 : Z) (f2 : FIELD) (v2 : Z) : bool :=
  if WinDivertCondExecFilter f f1 v1 then WinDivertCondExecFilter f f2 v2 else false.

Definition WinDivertAnalyzeFilter (layer : WINDIVERT_LAYER) (f : list WINDIVERT_FILTER) : Z :=
  if negb (WinDivertCondExecFilter f FIELD_ZERO 0) then 0
  else
    let direction :=
      match layer with
      | LAYER_NETWORK | LAYER_NETWORK_FORWARD =>
        flag_if (cond_both f FIELD_INBOUND 1 FIELD_OUTBOUND 0) WINDIVERT_FILTER_FLAG_INBOUND |||
        flag_if (cond_both f FIELD_OUTBOUND 1 FIELD_INBOUND 0) WINDIVERT_FILTER_FLAG_OUTBOUND
      | _ => 0
      end in
    let version :=
      match layer with
      | LAYER_REFLECT => 0
      | _ =>
        flag_if (cond_both f FIELD_IP 1 FIELD_IPV6 0) WINDIVERT_FILTER_FLAG_IP |||
        flag_if (cond_both f FIELD_IPV6 1 FIELD_IP 0) WINDIVERT_FILTER_FLAG_IPV6
      end in
    let event v := WinDivertCondExecFilter f FIELD_EVENT v in
    let events :=
      match layer with
      | LAYER_FLOW =>
        flag_if (event WINDIVERT_EVENT_FLOW_DELETED) WINDIVERT_FILTER_FLAG_EVENT_FLOW_DELETED
      | LAYER_SOCKET =>
        flag_if (event WINDIVERT_EVENT_SOCKET_BIND) WINDIVERT_FILTER_FLAG_EVENT_SOCKET_BIND |||
        flag_if (event WINDIVERT_EVENT_SOCKET_CONNECT) WINDIVERT_FILTER_FLAG_EVENT_SOCKET_CONNECT |||
        flag_if (event WINDIVERT_EVENT_SOCKET_CLOSE) WINDIVERT_FILTER_FLAG_EVENT_SOCKET_CLOSE |||
        flag_if (event WINDIVERT_EVENT_SOCKET_LISTEN) WINDIVERT_FILTER_FLAG_EVENT_SOCKET_LISTEN |||
        flag_if (event WINDIVERT_EVENT_SOCKET_ACCEPT) WINDIVERT_FILTER_FLAG_EVENT_SOCKET_ACCEPT
      | _ => 0
      end in
    direction ||| version ||| events.

(** The flags an evaluation with the arguments [a] stands for. *)
Definition direction_flags (a : exec_args) : list Z :=
  match a_layer a with
  | LAYER_NETWORK | LAYER_NETWORK_FORWARD =>
    [if a_outbound a then WINDIVERT_FILTER_FLAG_OUTBOUND else WINDIVERT_FILTER_FLAG_INBOUND]
  | _ => []
  end.

Definition version_flags (a : exec_args) : list Z :=
  match a_layer a, a_ip_header a, a_ipv6_header a with
  | LAYER_REFLECT, _, _ => []
  | _, Some _, None => [WINDIVERT_FILTER_FLAG_IP]
  | _, None, Some _ => [WINDIVERT_FILTER_FLAG_IPV6]
  | _, _, _ => []
  end.

Definition event_table (l : WINDIVERT_LAYER) : list (Z * Z) :=
  match l with
  | LAYER_FLOW => [(WINDIVERT_EVENT_FLOW_DELETED, WINDIVERT_FILTER_FLAG_EVENT_FLOW_DELETED)]
  | LAYER_SOCKET =>
    [(WINDIVERT_EVENT_SOCKET_BIND, WINDIVERT_FILTER_FLAG_EVENT_SOCKET_BIND);
     (WINDIVERT_EVENT_SOCKET_CONNECT, WINDIVERT_FILTER_FLAG_EVENT_SOCKET_CONNECT);
     (WINDIVERT_EVENT_SOCKET_CLOSE, WINDIVERT_FILTER_FLAG_EVENT_SOCKET_CLOSE);
     (WINDIVERT_EVENT_SOCKET_LISTEN, WINDIVERT_FILTER_FLAG_EVENT_SOCKET_LISTEN);
     (WINDIVERT_EVENT_SOCKET_ACCEPT, WINDIVERT_FILTER_FLAG_EVENT_SOCKET_ACCEPT)]
  | _ => []
  end.

Definition event_flags (a : exec_args) : list Z :=
  map snd (filter (fun x => fst x =? a_event a) (event_table (a_layer a))).

(** ** Soundness *)

Section Cond.
Variable a : exec_args.
Variable f : list WINDIVERT_FILTER.
Variable fld : FIELD.
Variable v : Z.
Hypothesis Ha : args_ok a.
Hypothesis Hf : wf_filter (a_layer a) f = true.
Hypothesis Hv : 0 <= v < 2 ^ 32.
Hypothesis Hfld : header_present a fld = true /\ forall arg1, fetch_field a fld arg1 = small v.

(** The results of the instructions [ip..] are [FALSE] only where the
    evaluation rejects. *)
Definition results_ok (ip : Z) (results : list bool) : Prop :=
  forall k, nth_error results k = Some false -> accepts a f (ip + Z.of_nat k) = false.

Lemma cond_branch_sound ip results l : 0 <= ip -> jump_ok (zlen f) ip l = true ->
  results_ok (ip + 1) results -> cond_branch (zlen f) ip results (u16 l) = false ->
  accepts_at a f l = false.
Proof using Hf.
  intros Hip Hj R. destruct (jump_ok_cases _ _ _ Hj (wf_maxlen a f Hf) Hip) as [-> _].
  unfold cond_branch, accepts_at. destruct (l =? _); [discriminate|]. destruct (l =? _); [reflexivity|].
  case_if; [|discriminate]. b2p. intros N. specialize (R (Z.to_nat (l - ip - 1))).
  destruct (nth_error results (Z.to_nat (l - ip - 1))) as [b|] eqn:E.
  - rewrite (nth_error_nth _ _ _ E) in N. subst b.
    replace l with (ip + 1 + Z.of_nat (Z.to_nat (l - ip - 1))) by lia. now apply R.
  - rewrite nth_overflow in N by now apply nth_error_None. discriminate.
Qed.

(** The known value decides the test as the evaluator does. *)
Lemma cond_test_sound x : WinDivertValidateField (a_layer a) (field x) = true -> field x = fld ->
  arg_ok (arg x) = true -> neg x = false -> w1 (arg x) = 0 -> w2 (arg x) = 0 -> w3 (arg x) = 0 ->
  next_ip a x = if cond_test (test x) v (w0 (arg x)) then success x else failure x.
Proof using Hv Hfld.
  intros V E A N W1 W2 W3. destruct Hfld as [P F]. unfold next_ip, exec_insn. rewrite V, E, P, F. cbn [negb small].
  rewrite compare128_test; [|repeat split; cbn; lia|now apply arg_ok_wf128|discriminate|congruence].
  rewrite N. cbn [signed magnitude w0].
  assert (T : test_z (test x) v (w0 (arg x)) = cond_test (test x) v (w0 (arg x))) by (destruct (test x); cbn; lia).
  rewrite T. now destruct (cond_test _ _ _).
Qed.

Lemma cond_insn_sound ip x results : 0 <= ip -> nth_error f (Z.to_nat ip) = Some x ->
  results_ok (ip + 1) results -> cond_insn (zlen f) ip results fld v x = false -> accepts a f ip = false.
Proof using Ha Hf Hv Hfld.
  intros Hip Hx R. rewrite (accepts_step a f Ha Hf ip x Hip Hx).
  pose proof (wf_filter_nth _ _ _ _ Hf Hx) as K. unfold insn_ok in K. rewrite Z2Nat.id in K by exact Hip.
  rewrite !andb_true_iff in K. destruct K as [[[V S] X] A]. unfold cond_insn.
  pose proof (cond_branch_sound ip results (success x) Hip S R) as Bs.
  pose proof (cond_branch_sound ip results (failure x) Hip X R) as Bf.
  destruct (next_ip_ok a f Ha Hf ip x Hip Hx) as [(b & _ & Eb) _].
  destruct (cond_branch _ _ _ (u16 (success x))), (cond_branch _ _ _ (u16 (failure x))); cbn [andb negb];
    [discriminate|..|intros _; rewrite Eb; destruct b; auto];
    (destruct (field_eqb (field x) fld) eqn:E; [|discriminate]; apply field_eqb_eq in E);
    (case_if; [discriminate|]; b2p; rewrite cond_test_sound by assumption; case_if; auto; discriminate).
Qed.

Lemma cond_results_sound : forall g ip, 0 <= ip -> skipn (Z.to_nat ip) f = g ->
  results_ok ip (cond_results (zlen f) ip fld v g).
Proof using Ha Hf Hv Hfld.
  induction g as [|x g IH]; intros ip Hip E; [intros [|k] N; discriminate|]. cbn [cond_results].
  assert (Hx : nth_error f (Z.to_nat ip) = Some x).
  { rewrite <- (firstn_skipn (Z.to_nat ip) f), E. rewrite nth_error_app2; rewrite length_firstn.
    - assert (length f >= Z.to_nat ip)%nat.
      { destruct (Nat.le_gt_cases (Z.to_nat ip) (length f)); [lia|]. rewrite skipn_all2 in E by lia. discriminate. }
      rewrite Nat.min_l by lia. now rewrite Nat.sub_diag.
    - lia. }
  assert (R : results_ok (ip + 1) (cond_results (zlen f) (ip + 1) fld v g)).
  { apply IH; [lia|]. replace (Z.to_nat (ip + 1)) with (1 + Z.to_nat ip)%nat by lia.
    rewrite <- skipn_skipn, E. reflexivity. }
  intros [|k] N; cbn in N.
  - rewrite Z.add_0_r. injection N as N. now apply (cond_insn_sound ip x _ Hip Hx R).
  - replace (ip + Z.of_nat (S k)) with (ip + 1 + Z.of_nat k) by lia. now apply R.
Qed.

(** An evaluation that accepts was not ruled out. *)
Lemma cond_exec_sound : WinDivertExecuteFilter f a = VRet 1 -> WinDivertCondExecFilter f fld v = true.
Proof using Ha Hf Hv Hfld.
  intros E. rewrite (ExecuteFilter_accepts a f Ha Hf) in E. unfold WinDivertCondExecFilter.
  pose proof (cond_results_sound f 0 ltac:(lia) eq_refl) as R.
  destruct (cond_results (zlen f) 0 fld v f) as [|[] r]; [reflexivity..|].
  specialize (R O eq_refl). rewrite Z.add_0_r in R. rewrite R in E. discriminate E.
Qed.
End Cond.

(** Both conditions hold of the arguments. *)
Lemma cond_both_sound a f f1 v1 f2 v2 : args_ok a -> wf_filter (a_layer a) f = true ->
  0 <= v1 < 2 ^ 32 -> 0 <= v2 < 2 ^ 32 ->
  (header_present a f1 = true /\ forall arg1, fetch_field a f1 arg1 = small v1) ->
  (header_present a f2 = true /\ forall arg1, fetch_field a f2 arg1 = small v2) ->
  WinDivertExecuteFilter f a = VRet 1 -> cond_both f f1 v1 f2 v2 = true.
Proof.
  intros Ha Hf B1 B2 H1 H2 E. unfold cond_both.
  rewrite (cond_exec_sound a f f1 v1), (cond_exec_sound a f f2 v2) by assumption. reflexivity.
Qed.

Section Sound.
Variable a : exec_args.
Variable f : list WINDIVERT_FILTER.
Hypothesis Ha : args_ok a.
Hypothesis Hf : wf_filter (a_layer a) f = true.
Hypothesis E : WinDivertExecuteFilter f a = VRet 1.

Lemma zero_possible : WinDivertCondExecFilter f FIELD_ZERO 0 = true.
Proof using Ha Hf E. apply (cond_exec_sound a f FIELD_ZERO 0); auto; lia. Qed.

Lemma inbound_possible : a_outbound a = false -> cond_both f FIELD_INBOUND 1 FIELD_OUTBOUND 0 = true.
Proof using Ha Hf E. intros O. apply (cond_both_sound a); auto; try lia; split; cbn; rewrite ?O; reflexivity. Qed.

Lemma outbound_possible : a_outbound a = true -> cond_both f FIELD_OUTBOUND 1 FIELD_INBOUND 0 = true.
Proof using Ha Hf E. intros O. apply (cond_both_sound a); auto; try lia; split; cbn; rewrite ?O; reflexivity. Qed.

Lemma ip_possible h : a_ip_header a = Some h -> a_ipv6_header a = None ->
  cond_both f FIELD_IP 1 FIELD_IPV6 0 = true.
Proof using Ha Hf E. intros O P. apply (cond_both_sound a); auto; try lia; split; cbn; rewrite ?O, ?P; reflexivity. Qed.

Lemma ipv6_possible h : a_ip_header a = None -> a_ipv6_header a = Some h ->
  cond_both f FIELD_IPV6 1 FIELD_IP 0 = true.
Proof using Ha Hf E. intros O P. apply (cond_both_sound a); auto; try lia; split; cbn; rewrite ?O, ?P; reflexivity. Qed.

Lemma event_possible v : 0 <= v < 2 ^ 32 -> a_event a = v -> WinDivertCondExecFilter f FIELD_EVENT v = true.
Proof using Ha Hf E. intros B V. apply (cond_exec_sound a f FIELD_EVENT v); auto. split; cbn; now rewrite ?V. Qed.
End Sound.

Lemma event_table_range l v x : In (v, x) (event_table l) -> 0 <= v < 2 ^ 32.
Proof.
  destruct l; cbn [event_table In]; try contradiction; intros H;
    repeat (destruct H as [H|H]; [injection H as <- <-; vm_compute; intuition discriminate|]); contradiction.
Qed.

(** What an evaluation that accepts stands for is among the flags. *)
Lemma flags_sound a f fl : args_ok a -> wf_filter (a_layer a) f = true ->
  WinDivertExecuteFilter f a = VRet 1 -> In fl (direction_flags a ++ version_flags a ++ event_flags a) ->
  has (WinDivertAnalyzeFilter (a_layer a) f) fl = true.
Proof.
  intros Ha Hf E H. unfold WinDivertAnalyzeFilter. rewrite (zero_possible a f Ha Hf E). cbn [negb].
  rewrite !has_lor. apply in_app_or in H. destruct H as [H|H]; [|apply in_app_or in H; destruct H as [H|H]].
  - pose proof (inbound_possible a f Ha Hf E) as Pi. pose proof (outbound_possible a f Ha Hf E) as Po.
    unfold direction_flags in H.
    destruct (a_layer a); try contradiction H; destruct (a_outbound a) eqn:O; destruct H as [<-|[]];
      rewrite ?has_lor, ?has_flag_if, ?(Pi eq_refl), ?(Po eq_refl); has_consts; rewrite ?orb_true_r; reflexivity.
  - pose proof (ip_possible a f Ha Hf E) as Pi. pose proof (ipv6_possible a f Ha Hf E) as Po.
    unfold version_flags in H.
    destruct (a_layer a), (a_ip_header a) eqn:I, (a_ipv6_header a) eqn:J; try contradiction H; destruct H as [<-|[]];
      rewrite ?has_lor, ?has_flag_if, ?(Pi _ eq_refl eq_refl), ?(Po _ eq_refl eq_refl); has_consts;
      rewrite ?orb_true_r; reflexivity.
  - unfold event_flags in H. apply in_map_iff in H. destruct H as ([v x] & <- & H). apply filter_In in H.
    destruct H as [H V]. cbn [fst snd] in *. apply Z.eqb_eq in V.
    pose proof (event_possible a f Ha Hf E v (event_table_range _ _ _ H) (eq_sym V)) as P.
    destruct (a_layer a); cbn [event_table In] in H; try contradiction;
      repeat (destruct H as [H|H]; [|try contradiction]); injection H as <- <-;
      rewrite ?has_lor, ?has_flag_if, P; has_consts; rewrite ?orb_true_r; reflexivity.
Qed.

(** ** Theorems *)

(** C19. The analysis of a filter is sound: when a well-formed filter accepts
    a packet or an event, its flags contain the direction of the packet, its
    IP version, and the kind of the event.  A flag that is not set rules out
    all packets or events it stands for. *)
Theorem analyze_sound a f fl : args_ok a -> wf_filter (a_layer a) f = true ->
  WinDivertExecuteFilter f a = VRet 1 -> In fl (direction_flags a ++ version_flags a ++ event_flags a) ->
  has (WinDivertAnalyzeFilter (a_layer a) f) fl = true.
Proof. apply flags_sound. Qed.

(** [outbound and ip] on an outbound IPv4 packet. *)
Module ExAnalyze.
Definition args : exec_args :=
  mkArgs LAYER_NETWORK 0 0 true true false false false (Some (mkDataNetwork 1 0)) None None None
    (Some 0) None None None None None 0 (repeat 0 20) 20 20 0.
Definition object : list WINDIVERT_FILTER :=
  [mkFilter FIELD_OUTBOUND TEST_EQ 1 WINDIVERT_FILTER_RESULT_REJECT false (W128 1 0 0 0);
   mkFilter FIELD_IP TEST_NEQ WINDIVERT_FILTER_RESULT_ACCEPT WINDIVERT_FILTER_RESULT_REJECT false zero128].
Lemma args_fine : args_ok args.
Proof.
  split; try (cbn; intros; reflexivity || discriminate); try (vm_compute; congruence);
    intros h [= <-]; vm_compute; split; discriminate.
Qed.
End ExAnalyze.

Lemma analyze_sound_witness :
  has (WinDivertAnalyzeFilter LAYER_NETWORK ExAnalyze.object) WINDIVERT_FILTER_FLAG_OUTBOUND = true /\
  has (WinDivertAnalyzeFilter LAYER_NETWORK ExAnalyze.object) WINDIVERT_FILTER_FLAG_INBOUND = false.
Proof.
  split; [|reflexivity].
  apply (analyze_sound ExAnalyze.args ExAnalyze.object WINDIVERT_FILTER_FLAG_OUTBOUND ExAnalyze.args_fine).
  - reflexivity.
  - vm_compute. reflexivity.
  - left. reflexivity.
Defined.
