(* ===== verification/WdCompile.v ===== *)
(** * Filter compiler

    The back end of [WinDivertCompileFilter] in [src/wd/windivert_helper.c]:
    [WinDivertSimplifyTest], [WinDivertFlattenExpr], [WinDivertEmitTest],
    [WinDivertEmitFilter]; and the compilation of a filter string,
    [WinDivertCompileFilter] and [wd_filter_compile] of [src/wd/wd_port.c]. *)

From Stdlib Require Import ZArith List Bool Lia.
From S2P Require Import Prelude WdTypes WdPacket WdExec WdSerial WdAddr WdLex WdParse WdAnalyze.
Import ListNotations.
#[local] Open Scope Z_scope.

(** ** Simplification *)

Definition WINDIVERT_PRIORITY_MAX : Z := 30000.
Definition WINDIVERT_LAYER_MAX : Z := 4.
Definition WINDIVERT_EVENT_MAX : Z := 9.

(** What the first [switch] of [WinDivertSimplifyTest] sets; [neg_ub] stays
    [FALSE]. *)
Record bounds : Set := mkBounds {
  b_eq : bool;
  b_neg_lb : bool;
  b_lb : u128;
  b_ub : u128;
  b_type : KIND
}.

Definition num128 (n : Z) : u128 := W128 n 0 0 0.
Definition max128 : u128 := W128 0xFFFFFFFF 0xFFFFFFFF 0xFFFFFFFF 0xFFFFFFFF.

Definition upto (type : KIND) (n : Z) : option bounds := Some (mkBounds false false zero128 (num128 n) type).

(** [None] is the [default] case. *)
Definition test_bounds (kind : KIND) : option bounds :=
  match kind with
  | TOKEN_ZERO | TOKEN_FALSE => Some (mkBounds true false zero128 zero128 TOKEN_TRUE)
  | TOKEN_TRUE => Some (mkBounds true false (num128 1) (num128 1) TOKEN_TRUE)
  | TOKEN_LAYER => upto TOKEN_TRUE WINDIVERT_LAYER_MAX
  | TOKEN_PRIORITY =>
    Some (mkBounds false true (num128 WINDIVERT_PRIORITY_MAX) (num128 WINDIVERT_PRIORITY_MAX) TOKEN_TRUE)
  | TOKEN_EVENT => upto TOKEN_TRUE WINDIVERT_EVENT_MAX
  | TOKEN_IP_DF | TOKEN_IP_MF => upto TOKEN_IP 1
  | TOKEN_TCP_URG | TOKEN_TCP_ACK | TOKEN_TCP_PSH | TOKEN_TCP_RST | TOKEN_TCP_SYN | TOKEN_TCP_FIN =>
    upto TOKEN_TCP 1
  | TOKEN_INBOUND | TOKEN_OUTBOUND | TOKEN_FRAGMENT | TOKEN_IP | TOKEN_IPV6 | TOKEN_ICMP | TOKEN_ICMPV6
  | TOKEN_TCP | TOKEN_UDP => upto TOKEN_TRUE 1
  | TOKEN_IP_HDR_LENGTH => upto TOKEN_IP 0x0F
  | TOKEN_TCP_HDR_LENGTH => upto TOKEN_TCP 0x0F
  | TOKEN_IP_TTL | TOKEN_IP_PROTOCOL => upto TOKEN_IP 0xFF
  | TOKEN_IPV6_TRAFFIC_CLASS | TOKEN_IPV6_NEXT_HDR | TOKEN_IPV6_HOP_LIMIT => upto TOKEN_IPV6 0xFF
  | TOKEN_ICMP_TYPE | TOKEN_ICMP_CODE => upto TOKEN_ICMP 0xFF
  | TOKEN_ICMPV6_TYPE | TOKEN_ICMPV6_CODE => upto TOKEN_ICMPV6 0xFF
  | TOKEN_TCP_PAYLOAD => upto TOKEN_TCP 0xFF
  | TOKEN_UDP_PAYLOAD => upto TOKEN_UDP 0xFF
  | TOKEN_PROTOCOL | TOKEN_PACKET | TOKEN_RANDOM8 => upto TOKEN_TRUE 0xFF
  | TOKEN_IP_FRAG_OFF => upto TOKEN_IP 0x1FFF
  | TOKEN_IP_TOS | TOKEN_IP_LENGTH | TOKEN_IP_ID | TOKEN_IP_CHECKSUM => upto TOKEN_IP 0xFFFF
  | TOKEN_IPV6_LENGTH => upto TOKEN_IPV6 0xFFFF
  | TOKEN_ICMP_CHECKSUM => upto TOKEN_ICMP 0xFFFF
  | TOKEN_ICMPV6_CHECKSUM => upto TOKEN_ICMPV6 0xFFFF
  | TOKEN_TCP_SRC_PORT | TOKEN_TCP_DST_PORT | TOKEN_TCP_WINDOW | TOKEN_TCP_CHECKSUM | TOKEN_TCP_URG_PTR
  | TOKEN_TCP_PAYLOAD_LENGTH | TOKEN_TCP_PAYLOAD16 => upto TOKEN_TCP 0xFFFF
  | TOKEN_UDP_SRC_PORT | TOKEN_UDP_DST_PORT | TOKEN_UDP_LENGTH | TOKEN_UDP_CHECKSUM
  | TOKEN_UDP_PAYLOAD_LENGTH | TOKEN_UDP_PAYLOAD16 => upto TOKEN_UDP 0xFFFF
  | TOKEN_LOCAL_PORT | TOKEN_REMOTE_PORT | TOKEN_PACKET16 | TOKEN_RANDOM16 => upto TOKEN_TRUE 0xFFFF
  | TOKEN_LENGTH => Some (mkBounds false false (num128 20) (num128 WINDIVERT_MTU_MAX) TOKEN_TRUE)
  | TOKEN_IPV6_FLOW_LABEL => upto TOKEN_IPV6 0x000FFFFF
  | TOKEN_IP_SRC_ADDR | TOKEN_IP_DST_ADDR =>
    Some (mkBounds false false (W128 0 0xFFFF 0 0) (W128 0xFFFFFFFF 0xFFFF 0 0) TOKEN_IP)
  | TOKEN_IPV6_SRC_ADDR | TOKEN_IPV6_DST_ADDR => Some (mkBounds false false zero128 max128 TOKEN_IPV6)
  | TOKEN_LOCAL_ADDR | TOKEN_REMOTE_ADDR => Some (mkBounds false false zero128 max128 TOKEN_TRUE)
  | TOKEN_TIMESTAMP =>
    Some (mkBounds false true (W128 0 0x80000000 0 0) (W128 0xFFFFFFFF 0x7FFFFFFF 0 0) TOKEN_TRUE)
  | TOKEN_TCP_PAYLOAD32 => upto TOKEN_TCP 0xFFFFFFFF
  | TOKEN_UDP_PAYLOAD32 => upto TOKEN_UDP 0xFFFFFFFF
  | TOKEN_IF_IDX | TOKEN_SUB_IF_IDX | TOKEN_RANDOM32 | TOKEN_PROCESS_ID => upto TOKEN_TRUE 0xFFFFFFFF
  | TOKEN_ENDPOINT_ID | TOKEN_PARENT_ENDPOINT_ID =>
    Some (mkBounds false false zero128 (W128 0xFFFFFFFF 0xFFFFFFFF 0 0) TOKEN_TRUE)
  | _ => None
  end.

(** The second [switch]: the constant result, [None] where it returns. *)
Definition decide_test (kind : KIND) (eq : bool) (result_lb result_ub : Z) : option bool :=
  match kind with
  | TOKEN_EQ =>
    if (result_lb <? 0) || (result_ub >? 0) then Some false
    else if eq && (result_lb =? 0) then Some true else None
  | TOKEN_NEQ =>
    if (result_lb <? 0) || (result_ub >? 0) then Some true
    else if eq && (result_lb =? 0) then Some false else None
  | TOKEN_LT => if result_ub >? 0 then Some true else if result_lb <=? 0 then Some false else None
  | TOKEN_LEQ => if result_ub >=? 0 then Some true else if result_lb <? 0 then Some false else None
  | TOKEN_GT => if result_ub >=? 0 then Some false else if result_lb <? 0 then Some true else None
  | TOKEN_GEQ => if result_ub >? 0 then Some false else if result_lb <=? 0 then Some true else None
  | _ => None
  end.

(** The variable of kind [type], which is in the table. *)
Definition type_var (type : KIND) : VAR :=
  match WinDivertMakeVar type with Some v => v | None => mkVar type 0 end.

Definition WinDivertSimplifyTest (test : TEST_EXPR) : TEST_EXPR :=
  match test_bounds (v_kind (t_var test)) with
  | None => test
  | Some b =>
    let neg := n_neg (t_val test) in
    let v := n_val (t_val test) in
    match decide_test (t_kind test) (b_eq b)
            (WinDivertCompare128 neg v (b_neg_lb b) (b_lb b) true)
            (WinDivertCompare128 neg v false (b_ub b) true) with
    | None => test
    | Some result =>
      mkTest TOKEN_EQ (type_var (b_type b)) (if result then WinDivertMakeOne else WinDivertMakeZero)
    end
  end.

(** ** Flattening *)

(** An entry of [stack]: the simplified test with [succ] and [fail]. *)
Record entry : Set := mkEntry { e_test : TEST_EXPR; e_succ : Z; e_fail : Z }.

Definition constant_test (t : TEST_EXPR) : bool :=
  kind_eqb (t_kind t) TOKEN_EQ && kind_eqb (v_kind (t_var t)) TOKEN_TRUE.

(** [stack[0 .. *label - 1]] and the label returned; [None] is the use of a
    NULL expression. *)
Fixpoint WinDivertFlattenExpr (expr : EXPR) (stack : list entry) (succ fail : Z) : option (Z * list entry) :=
  if (succ <? 0) || (fail <? 0) then Some (-1, stack)
  else
    match expr with
    | ENull => None
    | EAnd a b =>
      match WinDivertFlattenExpr b stack succ fail with
      | None => None
      | Some (succ, stack) => WinDivertFlattenExpr a stack succ fail
      end
    | EOr a b =>
      match WinDivertFlattenExpr b stack succ fail with
      | None => None
      | Some (fail, stack) => WinDivertFlattenExpr a stack succ fail
      end
    | EQuestion c t e =>
      match WinDivertFlattenExpr e stack succ fail with
      | None => None
      | Some (fail1, stack) =>
        match WinDivertFlattenExpr t stack succ fail with
        | None => None
        | Some (succ1, stack) => WinDivertFlattenExpr c stack succ1 fail1
        end
      end
    | ETest test =>
      let test := WinDivertSimplifyTest test in
      if constant_test test then Some (if negb (w0 (n_val (t_val test)) =? 0) then succ else fail, stack)
      else if zlen stack >=? WINDIVERT_FILTER_MAXLEN then Some (-1, stack)
      else Some (zlen stack, stack ++ [mkEntry test succ fail])
    end.

(** ** Emission *)

Definition test_of_kind (kind : KIND) : option TEST :=
  match kind with
  | TOKEN_EQ => Some TEST_EQ
  | TOKEN_NEQ => Some TEST_NEQ
  | TOKEN_LT => Some TEST_LT
  | TOKEN_LEQ => Some TEST_LEQ
  | TOKEN_GT => Some TEST_GT
  | TOKEN_GEQ => Some TEST_GEQ
  | _ => None
  end.

Definition is_result (label : Z) : bool :=
  (label =? WINDIVERT_FILTER_RESULT_ACCEPT) || (label =? WINDIVERT_FILTER_RESULT_REJECT).

Definition emit_label (offset label : Z) : Z := if is_result label then label else offset - label.

(** The argument of an array variable carries the index. *)
Definition emit_arg (var : VAR) (v : u128) : u128 :=
  match array_size (v_kind var) with
  | Some _ => W128 (w0 v) (v_idx var) (w2 v) (w3 v)
  | None => v
  end.

(** [None] where the kind is no comparison or the variable no field: the
    object would be left without a test or get a field that does not exist. *)
Definition WinDivertEmitTest (e : entry) (offset : Z) : option WINDIVERT_FILTER :=
  let t := e_test e in
  match test_of_kind (t_kind t), WinDivertKindToField (v_kind (t_var t)) with
  | Some test, Some f =>
    Some (mkFilter f test (emit_label offset (e_succ e)) (emit_label offset (e_fail e)) (n_neg (t_val t))
            (emit_arg (t_var t) (n_val (t_val t))))
  | _, _ => None
  end.

(** [object[i] = stack[len - i]], from [stack[len]] down to [stack[0]]. *)
Fixpoint emit_tests (stack : list entry) (offset : Z) : option (list WINDIVERT_FILTER) :=
  match stack with
  | [] => Some []
  | e :: stack =>
    match WinDivertEmitTest e offset, emit_tests stack offset with
    | Some x, Some l => Some (x :: l)
    | _, _ => None
    end
  end.

Definition WinDivertEmitFilter (stack : list entry) (label : Z) : option (list WINDIVERT_FILTER) :=
  if is_result label then Some [mkFilter FIELD_ZERO TEST_EQ label label false zero128]
  else emit_tests (rev (firstn (Z.to_nat (label + 1)) stack)) label.

(** ** Filter strings *)

(** The outcome: undefined behaviour, an error, or the object. *)
Inductive compiled : Type := CUndef | CErr (e : ERROR) | COk (object : list WINDIVERT_FILTER).

Definition compile_expr (expr : EXPR) : compiled :=
  match WinDivertFlattenExpr expr [] WINDIVERT_FILTER_RESULT_ACCEPT WINDIVERT_FILTER_RESULT_REJECT with
  | None => CUndef
  | Some (label, stack) =>
    if label <? 0 then CErr (MAKE_ERROR WINDIVERT_ERROR_TOO_LONG (Some 0))
    else match WinDivertEmitFilter stack label with None => CUndef | Some object => COk object end
  end.

(** [max_depth], plus one for the counting of [WinDivertParseFilter]. *)
Definition parse_depth : nat := Eval compute in Z.to_nat (1024 + 1).

Definition WinDivertCompileFilter (filter : list Z) (layer : WINDIVERT_LAYER) : compiled :=
  if char0 filter =? 64 then
    match WinDivertDeserializeFilter (filter ++ [NUL]) with
    | ReadFalse => CErr (MAKE_ERROR WINDIVERT_ERROR_BAD_OBJECT (Some 0))
    | ReadVal object => COk object
    | ReadUndef => CUndef
    end
  else
    match WinDivertTokenizeFilter filter layer (5 * WINDIVERT_FILTER_MAXLEN - 1) with
    | LUndef => CUndef
    | LErr e => CErr e
    | LTokens tokens =>
      match WinDivertParseFilter parse_depth false tokens with
      | PUndef => CUndef
      | PErr e _ => CErr e
      | POk expr rest =>
        match rest with
        | [] => CUndef
        | t :: _ =>
          if negb (kind_eqb (kind t) TOKEN_END) then CErr (MAKE_ERROR WINDIVERT_ERROR_UNEXPECTED_TOKEN (pos t))
          else compile_expr expr
        end
      end
    end.

Definition ENOMEM : Z := 12.

(** [wd_filter_compile] for a layer in range: the error number with the error
    for the caller, or the filter; [None] is undefined behaviour. *)
Definition wd_filter_compile (filter : list Z) (layer : WINDIVERT_LAYER) : option (Z * ERROR + wd_filter) :=
  match WinDivertCompileFilter filter layer with
  | CUndef => None
  | CErr e =>
    Some (inl (match GET_CODE e with WINDIVERT_ERROR_NO_MEMORY => - ENOMEM | _ => - EINVAL end, e))
  | COk object => Some (inr (mkWdFilter layer (WinDivertAnalyzeFilter layer object) object))
  end.

(** ** Meaning of expressions

    An expression is read as a boolean formula over the outcome of its
    tests. *)

Fixpoint expr_holds (h : TEST_EXPR -> bool) (e : EXPR) : bool :=
  match e with
  | ETest t => h t
  | EAnd a b => expr_holds h a && expr_holds h b
  | EOr a b => expr_holds h a || expr_holds h b
  | EQuestion c t e => if expr_holds h c then expr_holds h t else expr_holds h e
  | ENull => false
  end.

(** The outcome of an instruction, whatever its continuations, and of the
    instruction a test is emitted as. *)
Definition insn_holds (a : exec_args) (x : WINDIVERT_FILTER) : bool :=
  match exec_insn a x with OResult b => b | _ => false end.

Definition emitted_holds (a : exec_args) (t : TEST_EXPR) : bool :=
  match WinDivertEmitTest (mkEntry t 0 0) 0 with Some x => insn_holds a x | None => false end.

Definition constant_value (t : TEST_EXPR) : bool := negb (w0 (n_val (t_val t)) =? 0).

(** The outcome of a test after its simplification. *)
Definition simplified_holds (a : exec_args) (t : TEST_EXPR) : bool :=
  let t := WinDivertSimplifyTest t in
  if constant_test t then constant_value t else emitted_holds a t.

(** The instructions an expression needs. *)
Fixpoint test_count (e : EXPR) : Z :=
  match e with
  | ETest t => if constant_test (WinDivertSimplifyTest t) then 0 else 1
  | EAnd a b | EOr a b => test_count a + test_count b
  | EQuestion c t e => test_count c + test_count t + test_count e
  | ENull => 0
  end.

(** ** Well-formed tests

    What the parser makes of tokens of the layer. *)

Definition field_ok (layer : WINDIVERT_LAYER) (k : KIND) : bool :=
  match WinDivertKindToField k with Some f => WinDivertValidateField layer f | None => false end.

Definition source_var (layer : WINDIVERT_LAYER) (k : KIND) : bool :=
  field_ok layer k || kind_eqb k TOKEN_TRUE || kind_eqb k TOKEN_FALSE.

(** Array indices: at most 65535 in magnitude, as 32-bit words. *)
Definition index_range (v : Z) : Prop := is_u32 v /\ - UINT16_MAX <= i32 v <= UINT16_MAX.

Lemma index_word z : - UINT16_MAX <= z <= UINT16_MAX -> index_range (u32 z).
Proof.
  unfold index_range, is_u32, i32, u32, UINT16_MAX. intros H.
  split; [apply Z.mod_pos_bound; lia|]. case_if; b2p; Z.to_euclidean_division_equations; lia.
Qed.

(** A test as parsed, and one that can be emitted. *)
Definition source_ok (layer : WINDIVERT_LAYER) (t : TEST_EXPR) : Prop :=
  is_comparison (t_kind t) = true /\ source_var layer (v_kind (t_var t)) = true /\
  index_range (v_idx (t_var t)) /\ wf128 (n_val (t_val t)).

Definition test_ok (layer : WINDIVERT_LAYER) (t : TEST_EXPR) : Prop :=
  is_comparison (t_kind t) = true /\ field_ok layer (v_kind (t_var t)) = true /\
  index_range (v_idx (t_var t)) /\ wf128 (n_val (t_val t)).

Fixpoint expr_ok (layer : WINDIVERT_LAYER) (e : EXPR) : Prop :=
  match e with
  | ETest t => source_ok layer t
  | EAnd a b | EOr a b => expr_ok layer a /\ expr_ok layer b
  | EQuestion c t e => expr_ok layer c /\ expr_ok layer t /\ expr_ok layer e
  | ENull => False
  end.

(** ** Simplified tests *)

Lemma comparison_test k : is_comparison k = true -> exists t, test_of_kind k = Some t.
Proof. destruct k; intros H; try discriminate H; cbn; eauto. Qed.

(** A test with one possible value is decided. *)
Lemma decide_eq k r : is_comparison k = true -> decide_test k true r r <> None.
Proof.
  destruct k; intros H; try discriminate H; cbn [decide_test andb]; case_if; try congruence;
    case_if; try congruence; b2p; exfalso; lia.
Qed.

(** The variable a decided test is replaced with belongs to the layer. *)
Lemma bounds_type layer k b : field_ok layer k = true -> test_bounds k = Some b ->
  b_type b = TOKEN_TRUE \/
  (field_ok layer (b_type b) = true /\ kind_eqb (b_type b) TOKEN_TRUE = false).
Proof.
  intros F E. destruct k; try discriminate E; injection E as <-; cbn [b_type]; auto; right;
    destruct layer; try discriminate F; vm_compute; auto.
Qed.

Lemma bounds_var k b : test_bounds k = Some b -> type_var (b_type b) = mkVar (b_type b) 0.
Proof. intros E. destruct k; try discriminate E; injection E as <-; vm_compute; reflexivity. Qed.

Lemma simplify_decided t b r : test_bounds (v_kind (t_var t)) = Some b ->
  decide_test (t_kind t) (b_eq b)
    (WinDivertCompare128 (n_neg (t_val t)) (n_val (t_val t)) (b_neg_lb b) (b_lb b) true)
    (WinDivertCompare128 (n_neg (t_val t)) (n_val (t_val t)) false (b_ub b) true) = Some r ->
  WinDivertSimplifyTest t =
  mkTest TOKEN_EQ (mkVar (b_type b) 0) (if r then WinDivertMakeOne else WinDivertMakeZero).
Proof.
  intros E D. unfold WinDivertSimplifyTest. rewrite E, D. now rewrite (bounds_var _ _ E).
Qed.

(** A test is simplified to itself, a constant or a test for its header. *)
Lemma simplify_cases t : WinDivertSimplifyTest t = t \/
  exists b (r : bool), test_bounds (v_kind (t_var t)) = Some b /\ WinDivertSimplifyTest t =
    mkTest TOKEN_EQ (mkVar (b_type b) 0) (if r then WinDivertMakeOne else WinDivertMakeZero).
Proof.
  destruct (test_bounds (v_kind (t_var t))) as [b|] eqn:E; [|left; unfold WinDivertSimplifyTest; now rewrite E].
  destruct (decide_test (t_kind t) (b_eq b)
    (WinDivertCompare128 (n_neg (t_val t)) (n_val (t_val t)) (b_neg_lb b) (b_lb b) true)
    (WinDivertCompare128 (n_neg (t_val t)) (n_val (t_val t)) false (b_ub b) true)) as [r|] eqn:D.
  - right. exists b, r. split; [reflexivity|]. now apply simplify_decided.
  - left. unfold WinDivertSimplifyTest. now rewrite E, D.
Qed.

Lemma simplify_truth layer t : source_ok layer t -> field_ok layer (v_kind (t_var t)) = false ->
  constant_test (WinDivertSimplifyTest t) = true.
Proof.
  intros (C & V & _) F. unfold source_var in V. rewrite F in V. cbn [orb] in V.
  assert (K : exists v : u128, test_bounds (v_kind (t_var t)) = Some (mkBounds true false v v TOKEN_TRUE)).
  { apply orb_true_iff in V. destruct V as [V|V]; apply kind_eqb_eq in V; rewrite V; cbn; eauto. }
  destruct K as [v E].
  pose proof (decide_eq (t_kind t) (WinDivertCompare128 (n_neg (t_val t)) (n_val (t_val t)) false v true) C) as D.
  destruct (decide_test _ _ _ _) as [r|] eqn:R in D; [|congruence].
  rewrite (simplify_decided t _ r E R). reflexivity.
Qed.

Lemma simplify_ok layer t : source_ok layer t -> constant_test (WinDivertSimplifyTest t) = false ->
  test_ok layer (WinDivertSimplifyTest t).
Proof.
  intros S N. destruct (field_ok layer (v_kind (t_var t))) eqn:F;
    [|rewrite (simplify_truth layer) in N by assumption; discriminate].
  destruct (simplify_cases t) as [->|(b & r & E & R)].
  - unfold source_ok, test_ok in *. tauto.
  - rewrite R in *. destruct (bounds_type _ _ _ F E) as [T|[T _]].
    + rewrite T in N. discriminate N.
    + split; [reflexivity|]. split; [exact T|]. split; [vm_compute; repeat split; discriminate|].
      destruct r; cbv [t_val n_val WinDivertMakeOne WinDivertMakeZero zero128 wf128 is_u32 w0 w1 w2 w3]; lia.
Qed.

(** ** Flattened stacks *)

Definition label_ok (n l : Z) : Prop := is_result l = true \/ 0 <= l < n.

Definition entry_ok (layer : WINDIVERT_LAYER) (k : nat) (e : entry) : Prop :=
  label_ok (Z.of_nat k) (e_succ e) /\ label_ok (Z.of_nat k) (e_fail e) /\ test_ok layer (e_test e).

(** Entries refer to earlier ones only. *)
Definition stack_ok (layer : WINDIVERT_LAYER) (stack : list entry) : Prop :=
  zlen stack <= WINDIVERT_FILTER_MAXLEN /\
  forall k e, nth_error stack k = Some e -> entry_ok layer k e.

(** The result the entries lead to from a label. *)
Inductive reaches (a : exec_args) (stack : list entry) : Z -> bool -> Prop :=
| reaches_accept : reaches a stack WINDIVERT_FILTER_RESULT_ACCEPT true
| reaches_reject : reaches a stack WINDIVERT_FILTER_RESULT_REJECT false
| reaches_entry k e r : nth_error stack k = Some e ->
    reaches a stack (if emitted_holds a (e_test e) then e_succ e else e_fail e) r ->
    reaches a stack (Z.of_nat k) r.

Lemma reaches_app a stack ext l r : reaches a stack l r -> reaches a (stack ++ ext) l r.
Proof.
  induction 1 as [| |k e r H _ IH]; [constructor..|]. apply (reaches_entry a (stack ++ ext) k e); [|exact IH].
  rewrite nth_error_app1; [exact H|]. apply nth_error_Some. congruence.
Qed.

Lemma label_ok_nonneg n l : label_ok n l -> 0 <= l.
Proof.
  unfold label_ok, is_result, WINDIVERT_FILTER_RESULT_ACCEPT, WINDIVERT_FILTER_RESULT_REJECT.
  rewrite orb_true_iff, !Z.eqb_eq. lia.
Qed.

Lemma label_ok_mono n m l : label_ok n l -> n <= m -> label_ok m l.
Proof. unfold label_ok. intros [H|H] L; [auto|right; lia]. Qed.

Lemma stack_ok_push layer stack t succ fail : stack_ok layer stack ->
  zlen stack < WINDIVERT_FILTER_MAXLEN -> test_ok layer t -> label_ok (zlen stack) succ ->
  label_ok (zlen stack) fail -> stack_ok layer (stack ++ [mkEntry t succ fail]).
Proof.
  intros [L F] Z T S X. split; [rewrite zlen_app, zlen_cons, zlen_nil; lia|]. intros k e H.
  destruct (Nat.lt_ge_cases k (length stack)) as [Hk|Hk]; [rewrite nth_error_app1 in H by exact Hk; auto|].
  rewrite nth_error_app2 in H by exact Hk.
  destruct (k - length stack)%nat as [|j] eqn:Ek; [|destruct j; discriminate H].
  cbn in H. injection H as <-. replace k with (length stack) by lia.
  split; [exact S|split; [exact X|exact T]].
Qed.

(** What flattening [e] does to a stack with room for its instructions: they
    are pushed, and the new label leads where [e] says. *)
Record flat_fits (layer : WINDIVERT_LAYER) (e : EXPR) (stack : list entry) (succ fail lbl : Z)
    (stack' : list entry) : Prop := {
  ff_room : zlen stack + test_count e <= WINDIVERT_FILTER_MAXLEN;
  ff_len : zlen stack' = zlen stack + test_count e;
  ff_ok : stack_ok layer stack';
  ff_label : label_ok (zlen stack') lbl;
  ff_keep a l r : reaches a stack l r -> reaches a stack' l r;
  ff_leads a rs rf : reaches a stack succ rs -> reaches a stack fail rf ->
    reaches a stack' lbl (if expr_holds (simplified_holds a) e then rs else rf)
}.

Definition flat_result (layer : WINDIVERT_LAYER) (e : EXPR) (stack : list entry) (succ fail : Z) : Prop :=
  exists lbl stack', WinDivertFlattenExpr e stack succ fail = Some (lbl, stack') /\
  (flat_fits layer e stack succ fail lbl stack' \/
   lbl = -1 /\ WINDIVERT_FILTER_MAXLEN < zlen stack + test_count e).

Lemma flatten_neg e stack succ fail : succ < 0 \/ fail < 0 ->
  WinDivertFlattenExpr e stack succ fail = Some (-1, stack).
Proof.
  intros H. assert (E : (succ <? 0) || (fail <? 0) = true) by (rewrite orb_true_iff, !Z.ltb_lt; lia).
  destruct e; cbn [WinDivertFlattenExpr]; now rewrite E.
Qed.

Lemma test_count_nonneg e : 0 <= test_count e.
Proof. induction e; cbn [test_count]; try lia. case_if; lia. Qed.

Section Flatten.
Variable layer : WINDIVERT_LAYER.

Definition flattens (e : EXPR) : Prop := forall stack succ fail, stack_ok layer stack ->
  label_ok (zlen stack) succ -> label_ok (zlen stack) fail -> flat_result layer e stack succ fail.

(** A second expression, flattened on the stack a first one left. *)
Lemma flattens_next e e1 stack succ fail lbl stack' s f : flattens e ->
  flat_fits layer e1 stack succ fail lbl stack' -> s = lbl \/ label_ok (zlen stack) s ->
  f = lbl \/ label_ok (zlen stack) f -> flat_result layer e stack' s f.
Proof using.
  intros IH F S X. pose proof (ff_len _ _ _ _ _ _ _ F). pose proof (test_count_nonneg e1).
  assert (M : forall l, l = lbl \/ label_ok (zlen stack) l -> label_ok (zlen stack') l).
  { intros l [->|Hl]; [apply F|]. apply (label_ok_mono (zlen stack)); [exact Hl|lia]. }
  apply IH; [apply F|now apply M..].
Qed.

Lemma flatten_pos e stack succ fail : label_ok (zlen stack) succ -> label_ok (zlen stack) fail ->
  WinDivertFlattenExpr e stack succ fail =
  match e with
  | ENull => None
  | ETest test =>
    let test := WinDivertSimplifyTest test in
    if constant_test test then Some (if constant_value test then succ else fail, stack)
    else if zlen stack >=? WINDIVERT_FILTER_MAXLEN then Some (-1, stack)
    else Some (zlen stack, stack ++ [mkEntry test succ fail])
  | EAnd a b =>
    match WinDivertFlattenExpr b stack succ fail with
    | None => None
    | Some (succ, stack) => WinDivertFlattenExpr a stack succ fail
    end
  | EOr a b =>
    match WinDivertFlattenExpr b stack succ fail with
    | None => None
    | Some (fail, stack) => WinDivertFlattenExpr a stack succ fail
    end
  | EQuestion c t e =>
    match WinDivertFlattenExpr e stack succ fail with
    | None => None
    | Some (fail1, stack) =>
      match WinDivertFlattenExpr t stack succ fail with
      | None => None
      | Some (succ1, stack) => WinDivertFlattenExpr c stack succ1 fail1
      end
    end
  end.
Proof.
  intros S F. apply label_ok_nonneg in S, F.
  assert (E : (succ <? 0) || (fail <? 0) = false) by (apply orb_false_iff; rewrite !Z.ltb_ge; lia).
  destruct e; cbn [WinDivertFlattenExpr]; now rewrite E.
Qed.

Lemma flattens_test t : source_ok layer t -> flattens (ETest t).
Proof.
  intros T stack succ fail K S F. unfold flat_result. rewrite flatten_pos by assumption. cbn zeta.
  destruct (constant_test (WinDivertSimplifyTest t)) eqn:C.
  - eexists _, _. split; [reflexivity|]. left. destruct K as [L K].
    assert (N : test_count (ETest t) = 0) by (cbn [test_count]; now rewrite C).
    split; rewrite ?N; auto; try lia; [split; auto|destruct (constant_value _); auto|].
    intros a rs rf Hs Hf. cbn [expr_holds]. unfold simplified_holds. rewrite C.
    destruct (constant_value _); auto.
  - assert (N : test_count (ETest t) = 1) by (cbn [test_count]; now rewrite C).
    destruct (zlen stack >=? WINDIVERT_FILTER_MAXLEN) eqn:G; eexists _, _; (split; [reflexivity|]); b2p;
      [right; split; lia|left].
    assert (Len : zlen (stack ++ [mkEntry (WinDivertSimplifyTest t) succ fail]) = zlen stack + 1)
      by (rewrite zlen_app, zlen_cons, zlen_nil; lia).
    split; rewrite ?N, ?Len; try lia; auto using reaches_app.
    + apply stack_ok_push; auto. now apply simplify_ok.
    + right. pose proof (zlen_nonneg stack). lia.
    + intros a rs rf Hs Hf. cbn [expr_holds]. unfold simplified_holds. rewrite C.
      apply reaches_entry with (e := mkEntry (WinDivertSimplifyTest t) succ fail).
      * rewrite nth_error_app2 by lia. now rewrite Nat.sub_diag.
      * cbn [e_test e_succ e_fail]. apply reaches_app. destruct (emitted_holds _ _); assumption.
Qed.

Lemma flattens_and a b : flattens a -> flattens b -> flattens (EAnd a b).
Proof using.
  intros Ha Hb stack succ fail K S F. destruct (Hb stack succ fail K S F) as (l1 & st1 & E1 & R1).
  unfold flat_result. rewrite flatten_pos, E1 by assumption. pose proof (test_count_nonneg a).
  cbn [test_count]. destruct R1 as [F1|[-> T1]].
  - destruct (flattens_next a b stack succ fail l1 st1 l1 fail Ha F1 ltac:(auto) ltac:(auto)) as (l2 & st2 & E2 & R2).
    exists l2, st2. split; [exact E2|]. destruct F1 as [A1 A2 A3 A4 A5 A6].
    destruct R2 as [[B1 B2 B3 B4 B5 B6]|[-> T2]]; [left|right; split; [reflexivity|lia]].
    split; cbn [test_count expr_holds]; auto; try lia. intros x rs rf Hs Hf.
    specialize (B6 x _ rf (A6 x rs rf Hs Hf) (A5 x _ _ Hf)). now destruct (expr_holds _ a).
  - exists (-1), st1. rewrite flatten_neg by lia. split; [reflexivity|]. right. split; [reflexivity|lia].
Qed.

Lemma flattens_or a b : flattens a -> flattens b -> flattens (EOr a b).
Proof using.
  intros Ha Hb stack succ fail K S F. destruct (Hb stack succ fail K S F) as (l1 & st1 & E1 & R1).
  unfold flat_result. rewrite flatten_pos, E1 by assumption. pose proof (test_count_nonneg a).
  cbn [test_count]. destruct R1 as [F1|[-> T1]].
  - destruct (flattens_next a b stack succ fail l1 st1 succ l1 Ha F1 ltac:(auto) ltac:(auto)) as (l2 & st2 & E2 & R2).
    exists l2, st2. split; [exact E2|]. destruct F1 as [A1 A2 A3 A4 A5 A6].
    destruct R2 as [[B1 B2 B3 B4 B5 B6]|[-> T2]]; [left|right; split; [reflexivity|lia]].
    split; cbn [test_count expr_holds]; auto; try lia. intros x rs rf Hs Hf.
    specialize (B6 x rs _ (A5 x _ _ Hs) (A6 x rs rf Hs Hf)). now destruct (expr_holds _ a).
  - exists (-1), st1. rewrite flatten_neg by lia. split; [reflexivity|]. right. split; [reflexivity|lia].
Qed.

(** Only NULL is undefined. *)
Lemma flatten_some e : null_free e = true -> forall stack succ fail,
  exists lbl stack', WinDivertFlattenExpr e stack succ fail = Some (lbl, stack').
Proof using.
  induction e; cbn [null_free WinDivertFlattenExpr]; intros N stack succ fail; b2p;
    (case_if; [eauto|]); [repeat case_if; eauto|..|discriminate].
  - destruct (IHe2 H0 stack succ fail) as (l & st & ->). auto.
  - destruct (IHe2 H0 stack succ fail) as (l & st & ->). auto.
  - destruct (IHe3 H0 stack succ fail) as (l & st & ->). destruct (IHe2 H1 st succ fail) as (l2 & st2 & ->). auto.
Qed.

Lemma flattens_question c t e : null_free t = true -> flattens c -> flattens t -> flattens e -> flattens (EQuestion c t e).
Proof using.
  intros Nt Hc Ht He stack succ fail K S F. destruct (He stack succ fail K S F) as (l1 & st1 & E1 & R1).
  unfold flat_result. rewrite flatten_pos, E1 by assumption.
  pose proof (test_count_nonneg c). pose proof (test_count_nonneg t). cbn [test_count].
  destruct R1 as [F1|[-> T1]].
  - destruct (flattens_next t e stack succ fail l1 st1 succ fail Ht F1 ltac:(auto) ltac:(auto)) as (l2 & st2 & E2 & R2).
    rewrite E2. destruct R2 as [F2|[-> T2]]; cycle 1.
    { exists (-1), st2. rewrite flatten_neg by lia. split; [reflexivity|]. right.
      split; [reflexivity|]. destruct F1. lia. }
    assert (L1 : label_ok (zlen st1) l1) by apply F1.
    destruct (flattens_next c t st1 succ fail l2 st2 l2 l1 Hc F2 ltac:(auto) ltac:(auto)) as (l3 & st3 & E3 & R3).
    exists l3, st3. split; [exact E3|]. destruct F1 as [A1 A2 A3 A4 A5 A6], F2 as [B1 B2 B3 B4 B5 B6].
    destruct R3 as [[C1 C2 C3 C4 C5 C6]|[-> T3]]; [left|right; split; [reflexivity|lia]].
    split; cbn [test_count expr_holds]; auto; try lia. intros x rs rf Hs Hf.
    specialize (C6 x _ _ (B6 x rs rf (A5 x _ _ Hs) (A5 x _ _ Hf)) (B5 x _ _ (A6 x rs rf Hs Hf))).
    now destruct (expr_holds _ c).
  - destruct (flatten_some t Nt st1 succ fail) as (l2 & st2 & E2). rewrite E2. exists (-1), st2.
    rewrite flatten_neg by lia. split; [reflexivity|]. right. split; [reflexivity|lia].
Qed.

Lemma expr_ok_null_free e : expr_ok layer e -> null_free e = true.
Proof using. induction e; cbn [expr_ok null_free]; intros H; rewrite ?andb_true_iff; tauto. Qed.

Lemma flattens_all e : expr_ok layer e -> flattens e.
Proof using.
  induction e; cbn [expr_ok]; intros H;
    [now apply flattens_test|apply flattens_and|apply flattens_or|apply flattens_question|destruct H];
    first [tauto|apply expr_ok_null_free; tauto].
Qed.
End Flatten.

(** ** Emitted objects *)

Lemma emit_ok layer e off : test_ok layer (e_test e) -> exists x, WinDivertEmitTest e off = Some x /\
  success x = emit_label off (e_succ e) /\ failure x = emit_label off (e_fail e) /\
  WinDivertValidateField layer (field x) = true /\ arg_ok (arg x) = true /\ index_fits x = true /\
  forall a, insn_holds a x = emitted_holds a (e_test e).
Proof.
  intros (C & F & [I X] & W). unfold field_ok in F. unfold emitted_holds, WinDivertEmitTest. cbn [e_test].
  destruct (comparison_test _ C) as [t ->]. destruct (WinDivertKindToField _) as [f|] eqn:K; [|discriminate F].
  eexists. split; [reflexivity|]. cbn [success failure field arg]. repeat split; [exact F|..].
  - unfold emit_arg, arg_ok, word_ok. unfold wf128, is_u32 in *.
    destruct (array_size _); cbn [w0 w1 w2 w3]; rewrite !andb_true_iff, !Z.leb_le, !Z.ltb_lt; lia.
  - unfold index_fits, emit_arg. cbn [field arg].
    destruct (v_kind (t_var (e_test e))); try discriminate K; injection K as <-; cbn [serial_class array_size w1];
      try reflexivity; unfold UINT16_MAX in *; apply Z.ltb_lt; lia.
Qed.

(** The object has one instruction for each entry. *)
Lemma emit_tests_ok layer off : forall l, Forall (fun e => test_ok layer (e_test e)) l ->
  exists obj, emit_tests l off = Some obj /\ length obj = length l /\
  forall k e, nth_error l k = Some e -> exists x, nth_error obj k = Some x /\ WinDivertEmitTest e off = Some x.
Proof.
  induction l as [|e l IH]; intros H; [exists []; repeat split; intros [|k] ? X; discriminate X|].
  inversion H as [|? ? He Hl]; subst. destruct (emit_ok layer e off He) as (x & Ex & _).
  destruct (IH Hl) as (obj & Eo & Len & N). exists (x :: obj). cbn [emit_tests]. rewrite Ex, Eo.
  split; [reflexivity|]. split; [cbn; now rewrite Len|].
  intros [|k] e' X; cbn in *; [injection X as <-; eauto|auto].
Qed.

Lemma nth_rev_firstn {A} (l : list A) n k : (n < length l)%nat -> (k <= n)%nat ->
  nth_error (rev (firstn (S n) l)) (n - k) = nth_error l k.
Proof.
  intros H K. rewrite nth_error_rev, length_firstn, Nat.min_l by lia.
  destruct (Nat.ltb_spec (n - k) (S n)); [|lia]. replace (S n - S (n - k))%nat with k by lia.
  rewrite nth_error_firstn. destruct (Nat.ltb_spec k (S n)); [reflexivity|lia].
Qed.

Lemma insns_ok_intro layer n : forall f i,
  (forall k x, nth_error f k = Some x -> insn_ok layer n (i + Z.of_nat k) x = true) -> insns_ok layer n i f = true.
Proof.
  induction f as [|x f IH]; intros i H; [reflexivity|]. cbn [insns_ok]. apply andb_true_iff. split.
  - specialize (H O x eq_refl). now rewrite Z.add_0_r in H.
  - apply IH. intros k y Hk. specialize (H (S k) y Hk). now replace (i + 1 + Z.of_nat k) with (i + Z.of_nat (S k)) by lia.
Qed.

Section Emit.
Variable layer : WINDIVERT_LAYER.
Variable stack : list entry.
Hypothesis Hs : stack_ok layer stack.

Lemma entry_no_result k : (k < length stack)%nat -> is_result (Z.of_nat k) = false.
Proof using Hs.
  intros H. destruct Hs as [L _]. unfold zlen, WINDIVERT_FILTER_MAXLEN in L.
  unfold is_result, WINDIVERT_FILTER_RESULT_ACCEPT, WINDIVERT_FILTER_RESULT_REJECT.
  apply orb_false_iff. rewrite !Z.eqb_neq. lia.
Qed.

(** The object of a label that is no result: instruction [n - k] is entry [k]. *)
Lemma emit_filter_entries n : (n < length stack)%nat -> exists obj,
  WinDivertEmitFilter stack (Z.of_nat n) = Some obj /\ length obj = S n /\
  forall k e, (k <= n)%nat -> nth_error stack k = Some e ->
    exists x, nth_error obj (n - k) = Some x /\ WinDivertEmitTest e (Z.of_nat n) = Some x.
Proof using Hs.
  intros Hn. destruct Hs as [L K]. unfold WinDivertEmitFilter.
  rewrite entry_no_result by exact Hn. replace (Z.to_nat (Z.of_nat n + 1)) with (S n) by lia.
  destruct (emit_tests_ok layer (Z.of_nat n) (rev (firstn (S n) stack))) as (obj & E & Len & N).
  { apply Forall_rev, Forall_forall. intros e He. apply In_nth_error in He. destruct He as [k Hk].
    rewrite nth_error_firstn in Hk. destruct (Nat.ltb k (S n)); [|discriminate]. apply (K _ _ Hk). }
  exists obj. split; [exact E|]. split; [rewrite Len, length_rev, length_firstn; lia|].
  intros k e Hk He. apply N. now rewrite nth_rev_firstn by assumption.
Qed.

Lemma emit_label_jump n k l : (n < length stack)%nat -> (k <= n)%nat -> label_ok (Z.of_nat k) l ->
  jump_ok (Z.of_nat (S n)) (Z.of_nat (n - k)) (emit_label (Z.of_nat n) l) = true.
Proof using.
  intros Hn Hk. unfold label_ok, emit_label, jump_ok, is_result.
  destruct ((l =? WINDIVERT_FILTER_RESULT_ACCEPT) || (l =? WINDIVERT_FILTER_RESULT_REJECT)) eqn:E;
    [now rewrite E|]. intros [H|H]; [discriminate|].
  apply orb_true_iff. right. apply andb_true_iff. rewrite !Z.ltb_lt. lia.
Qed.

Lemma emit_filter_wf n obj : (n < length stack)%nat -> WinDivertEmitFilter stack (Z.of_nat n) = Some obj ->
  wf_filter layer obj = true.
Proof using Hs.
  intros Hn E. destruct (emit_filter_entries n Hn) as (obj' & E' & Len & N). rewrite E in E'.
  injection E' as <-. destruct Hs as [L K]. unfold zlen in L.
  assert (Z : zlen obj = Z.of_nat (S n)) by (unfold zlen; lia).
  unfold wf_filter. rewrite Z, !andb_true_iff, !Z.leb_le. split; [lia|]. apply insns_ok_intro. intros k x Hk.
  assert (Hkn : (k <= n)%nat) by (assert (k < length obj)%nat by (apply nth_error_Some; congruence); lia).
  destruct (nth_error stack (n - k)) as [e|] eqn:He; [|apply nth_error_None in He; lia].
  destruct (N (n - k)%nat e ltac:(lia) He) as (x' & Hx & Ex).
  replace (n - (n - k))%nat with k in Hx by lia. rewrite Hk in Hx. injection Hx as <-.
  destruct (K _ _ He) as (Ls & Lf & T). destruct (emit_ok layer e (Z.of_nat n) T) as (y & Ey & S & F & V & A & _ & _).
  rewrite Ex in Ey. injection Ey as <-. unfold insn_ok. rewrite V, A, S, F, Z.add_0_l.
  replace k with (n - (n - k))%nat at 1 2 by lia. rewrite !emit_label_jump by (assumption || lia). reflexivity.
Qed.

Lemma emit_filter_index n obj : (n < length stack)%nat -> WinDivertEmitFilter stack (Z.of_nat n) = Some obj ->
  forallb index_fits obj = true.
Proof using Hs.
  intros Hn E. destruct (emit_filter_entries n Hn) as (obj' & E' & Len & N). rewrite E in E'.
  injection E' as <-. destruct Hs as [_ K]. apply forallb_forall. intros x Hx.
  apply In_nth_error in Hx. destruct Hx as [k Hk].
  assert (Hkn : (k <= n)%nat) by (assert (k < length obj)%nat by (apply nth_error_Some; congruence); lia).
  destruct (nth_error stack (n - k)) as [e|] eqn:He; [|apply nth_error_None in He; lia].
  destruct (N (n - k)%nat e ltac:(lia) He) as (x' & Hx & Ex).
  replace (n - (n - k))%nat with k in Hx by lia. rewrite Hk in Hx. injection Hx as <-.
  destruct (K _ _ He) as (_ & _ & T). destruct (emit_ok layer e (Z.of_nat n) T) as (y & Ey & _ & _ & _ & _ & X & _).
  congruence.
Qed.

(** The instructions decide as the entries do. *)
Lemma emit_filter_reaches a n obj : a_layer a = layer -> args_ok a -> (n < length stack)%nat ->
  WinDivertEmitFilter stack (Z.of_nat n) = Some obj -> forall l r, reaches a stack l r ->
  l <= Z.of_nat n \/ is_result l = true ->
  accepts_at a obj (emit_label (Z.of_nat n) l) = r.
Proof using Hs.
  intros La Ha Hn E l r H.
  destruct (emit_filter_entries n Hn) as (obj' & E' & Len & N). rewrite E in E'. injection E' as <-.
  assert (W : wf_filter (a_layer a) obj = true) by (rewrite La; now apply (emit_filter_wf n)).
  induction H as [| |k e r Hk _ IH]; intros Hl; [reflexivity..|].
  assert (Hkl : (k < length stack)%nat) by (apply nth_error_Some; congruence).
  destruct Hs as [L K]. unfold zlen, WINDIVERT_FILTER_MAXLEN in L.
  pose proof (entry_no_result k Hkl) as R.
  destruct Hl as [Hl|Hl]; [|congruence].
  destruct (N k e ltac:(lia) Hk) as (x & Hx & Ex). destruct (K _ _ Hk) as (Ls & Lf & T).
  destruct (emit_ok layer e (Z.of_nat n) T) as (y & Ey & S & F & V & _ & _ & X). rewrite Ex in Ey. injection Ey as <-.
  assert (G : accepts_at a obj (emit_label (Z.of_nat n) (Z.of_nat k)) = accepts_at a obj (next_ip a x)).
  { unfold emit_label. rewrite R. unfold accepts_at at 1.
    destruct (Z.eqb_spec (Z.of_nat n - Z.of_nat k) WINDIVERT_FILTER_RESULT_ACCEPT) as [B|_];
      [unfold WINDIVERT_FILTER_RESULT_ACCEPT in B; lia|].
    destruct (Z.eqb_spec (Z.of_nat n - Z.of_nat k) WINDIVERT_FILTER_RESULT_REJECT) as [B|_];
      [unfold WINDIVERT_FILTER_RESULT_REJECT in B; lia|].
    apply accepts_step; auto; [lia|]. now replace (Z.to_nat (Z.of_nat n - Z.of_nat k)) with (n - k)%nat by lia. }
  rewrite G. assert (Q : next_ip a x = emit_label (Z.of_nat n) (if emitted_holds a (e_test e) then e_succ e else e_fail e)).
  { rewrite <- X. unfold next_ip, insn_holds. rewrite <- La in V.
    destruct (exec_insn_defined a x Ha V) as [b ->]. destruct b; assumption. }
  rewrite Q. apply IH. destruct (emitted_holds a (e_test e)); [destruct Ls|destruct Lf]; auto; left; lia.
Qed.
End Emit.

(** A constant filter is one instruction, whose outcome does not matter. *)
Lemma emit_result_ok layer label : is_result label = true ->
  let obj := [mkFilter FIELD_ZERO TEST_EQ label label false zero128] in
  wf_filter layer obj = true /\
  forall a, WinDivertExecuteFilter obj a = VRet (b2z (label =? WINDIVERT_FILTER_RESULT_ACCEPT)).
Proof.
  unfold is_result. intros H. apply orb_true_iff in H. rewrite !Z.eqb_eq in H.
  destruct H as [-> | ->]; (split; [destruct layer; reflexivity|]); intros a; unfold WinDivertExecuteFilter;
    change (Z.to_nat (WINDIVERT_FILTER_MAXLEN + 1)) with (S 256); cbn [exec_loop nth_error Z.to_nat];
    unfold exec_insn; cbn [field]; destruct (a_layer a); reflexivity.
Qed.

(** What the back end makes of a well-formed expression: an object of the
    layer that decides as the simplified expression, or the error for too
    many tests. *)
Lemma compile_expr_ok layer e : expr_ok layer e ->
  match compile_expr e with
  | COk obj => test_count e <= WINDIVERT_FILTER_MAXLEN /\
      (wf_filter layer obj = true /\ forallb index_fits obj = true) /\
      forall a, a_layer a = layer -> args_ok a ->
      WinDivertExecuteFilter obj a = VRet (b2z (expr_holds (simplified_holds a) e))
  | CErr err => WINDIVERT_FILTER_MAXLEN < test_count e /\ GET_CODE err = WINDIVERT_ERROR_TOO_LONG
  | CUndef => False
  end.
Proof.
  intros H. unfold compile_expr.
  destruct (flattens_all layer e H [] WINDIVERT_FILTER_RESULT_ACCEPT WINDIVERT_FILTER_RESULT_REJECT)
    as (lbl & stack & -> & R);
    [split; [vm_compute; discriminate|intros [|k] x; discriminate]|left; reflexivity..|].
  rewrite zlen_nil in R. destruct R as [[A1 A2 A3 A4 _ A6]|[-> T]]; [|cbn; rewrite Z.add_0_l in T; auto].
  rewrite zlen_nil in A1. pose proof (label_ok_nonneg _ _ A4). destruct (Z.ltb_spec lbl 0); [lia|].
  assert (G : forall a, reaches a stack lbl (expr_holds (simplified_holds a) e)).
  { intros a. specialize (A6 a true false (reaches_accept _ _) (reaches_reject _ _)).
    now destruct (expr_holds (simplified_holds a) e). }
  destruct (is_result lbl) eqn:R.
  - unfold WinDivertEmitFilter. rewrite R. destruct (emit_result_ok layer lbl R) as [W X].
    split; [lia|]. split; [split; [exact W|reflexivity]|]. intros a La Ha. rewrite X. f_equal. f_equal.
    specialize (G a). inversion G as [E|E|k x r Hk _ E]; [reflexivity..|].
    rewrite <- E, (entry_no_result layer stack A3) in R; [discriminate|]. apply nth_error_Some. congruence.
  - destruct A4 as [A4|A4]; [congruence|]. unfold zlen in A4.
    assert (Hn : (Z.to_nat lbl < length stack)%nat) by lia.
    destruct (emit_filter_entries layer stack A3 _ Hn) as (obj & E & _). rewrite Z2Nat.id in E by lia. rewrite E.
    rewrite <- (Z2Nat.id lbl) in E by lia. pose proof (emit_filter_wf layer stack A3 _ _ Hn E) as W.
    split; [lia|]. split; [split; [exact W|exact (emit_filter_index layer stack A3 _ _ Hn E)]|].
    intros a La Ha. rewrite ExecuteFilter_accepts by (assumption || now rewrite La).
    pose proof (emit_filter_reaches layer stack A3 a _ obj La Ha Hn E lbl _ (G a) ltac:(lia)) as Q.
    unfold emit_label in Q. rewrite R, Z2Nat.id, Z.sub_diag in Q by lia. cbn in Q. now rewrite <- Q.
Qed.
