(* ===== verification/WdMeaning.v ===== *)
(** * Meaning of a filter

    A test compares the value of its variable, an integer, with a constant;
    a variable whose header is missing or whose byte cannot be read makes its
    test false.  The compiler keeps this meaning, except for tests its
    simplification gets wrong ([plain_test] names the others). *)

From Stdlib Require Import Ascii String ZArith List Bool Lia.
From S2P Require Import Prelude WdTypes WdPacket WdExec WdSerial WdAddr WdLex WdParse WdAnalyze WdCompile.
Import ListNotations.
#[local] Open Scope Z_scope.

(** ** Integer meaning *)

Definition field_value (a : exec_args) (f : FIELD) (idx : Z) : option Z :=
  if header_present a f then
    match fetch_field a f idx with
    | FVal n bg v => Some (signed n (magnitude bg v))
    | _ => None
    end
  else None.

Definition var_value (a : exec_args) (v : VAR) : option Z :=
  match v_kind v with
  | TOKEN_TRUE => Some 1
  | TOKEN_FALSE => Some 0
  | k => match WinDivertKindToField k with Some f => field_value a f (v_idx v) | None => None end
  end.

Definition num_value (n : NUM) : Z := signed (n_neg n) (val128 (n_val n)).

Definition test_means (a : exec_args) (t : TEST_EXPR) : bool :=
  match test_of_kind (t_kind t), var_value a (t_var t) with
  | Some op, Some x => test_z op x (num_value (t_val t))
  | _, _ => false
  end.

(** ** Tests the compiler keeps

    Not a negative zero.  Without bounds to check against, a constant that is
    negative or fits a word.  When the bounds decide the test: an element of
    an array can be unreadable, a missing header makes the replacement [== 0]
    true, and the flow label leaves its bounds. *)

Definition fits_word (v : u128) : bool := (w1 v =? 0) && (w2 v =? 0) && (w3 v =? 0).

Definition decided (t : TEST_EXPR) (b : bounds) : option bool :=
  decide_test (t_kind t) (b_eq b)
    (WinDivertCompare128 (n_neg (t_val t)) (n_val (t_val t)) (b_neg_lb b) (b_lb b) true)
    (WinDivertCompare128 (n_neg (t_val t)) (n_val (t_val t)) false (b_ub b) true).

Definition plain_test (t : TEST_EXPR) : bool :=
  let k := v_kind (t_var t) in
  negb (n_neg (t_val t) && (val128 (n_val (t_val t)) =? 0)) &&
  match test_bounds k with
  | None => n_neg (t_val t) || fits_word (n_val (t_val t))
  | Some b =>
    match decided t b with
    | None => true
    | Some true => negb (non_null (array_size k)) && negb (kind_eqb k TOKEN_IPV6_FLOW_LABEL)
    | Some false => kind_eqb (b_type b) TOKEN_TRUE
    end
  end.

Fixpoint plain_expr (e : EXPR) : bool :=
  match e with
  | ETest t => plain_test t
  | EAnd a b | EOr a b => plain_expr a && plain_expr b
  | EQuestion c t e => plain_expr c && plain_expr t && plain_expr e
  | ENull => true
  end.

(** ** Ranges of the fields *)

Record args_range (a : exec_args) : Prop := {
  ar_bytes : bytes (a_packet a);
  ar_event : 0 <= a_event a <= WINDIVERT_EVENT_MAX;
  ar_time : - 2 ^ 63 <= a_timestamp a < 2 ^ 63;
  ar_length : a_layer a = LAYER_NETWORK \/ a_layer a = LAYER_NETWORK_FORWARD ->
              20 <= a_packet_len a <= WINDIVERT_MTU_MAX;
  ar_payload : 0 <= a_payload_len a < 2 ^ 16;
  ar_protocol : 0 <= a_protocol a < 2 ^ 8;
  ar_network d : a_network a = Some d -> is_u32 (IfIdx d) /\ is_u32 (SubIfIdx d);
  ar_flow d : a_flow a = Some d \/ a_socket a = Some d ->
    0 <= EndpointId d < 2 ^ 64 /\ 0 <= ParentEndpointId d < 2 ^ 64 /\ is_u32 (ProcessId d) /\
    wf128 (LocalAddr d) /\ wf128 (RemoteAddr d) /\ 0 <= LocalPort d < 2 ^ 16 /\
    0 <= RemotePort d < 2 ^ 16 /\ 0 <= Protocol d < 2 ^ 8;
  ar_reflect d : a_reflect a = Some d -> is_u32 (ReflProcessId d) /\
    - WINDIVERT_PRIORITY_MAX <= ReflPriority d <= WINDIVERT_PRIORITY_MAX
}.

(** How many words a field has and the values it takes. *)
Definition field_range (f : FIELD) : bool * Z * Z :=
  match f with
  | FIELD_ZERO => (false, 0, 0)
  | FIELD_INBOUND | FIELD_OUTBOUND | FIELD_FRAGMENT | FIELD_LOOPBACK | FIELD_IMPOSTOR
  | FIELD_IP | FIELD_IPV6 | FIELD_ICMP | FIELD_ICMPV6 | FIELD_TCP | FIELD_UDP
  | FIELD_IP_DF | FIELD_IP_MF | FIELD_TCP_URG | FIELD_TCP_ACK | FIELD_TCP_PSH | FIELD_TCP_RST
  | FIELD_TCP_SYN | FIELD_TCP_FIN => (false, 0, 1)
  | FIELD_LAYER => (false, 0, WINDIVERT_LAYER_MAX)
  | FIELD_EVENT => (false, 0, WINDIVERT_EVENT_MAX)
  | FIELD_PRIORITY => (false, - WINDIVERT_PRIORITY_MAX, WINDIVERT_PRIORITY_MAX)
  | FIELD_IP_HDRLENGTH | FIELD_TCP_HDRLENGTH => (false, 0, 0xF)
  | FIELD_IP_TOS | FIELD_IP_TTL | FIELD_IP_PROTOCOL | FIELD_IPV6_TRAFFICCLASS | FIELD_IPV6_NEXTHDR
  | FIELD_IPV6_HOPLIMIT | FIELD_ICMP_TYPE | FIELD_ICMP_CODE | FIELD_ICMPV6_TYPE | FIELD_ICMPV6_CODE
  | FIELD_RANDOM8 | FIELD_PROTOCOL | FIELD_PACKET | FIELD_TCP_PAYLOAD | FIELD_UDP_PAYLOAD => (false, 0, 0xFF)
  | FIELD_IP_FRAGOFF => (false, 0, 0x1FFF)
  | FIELD_LENGTH => (false, 20, WINDIVERT_MTU_MAX)
  | FIELD_IP_LENGTH | FIELD_IP_ID | FIELD_IP_CHECKSUM | FIELD_IPV6_LENGTH | FIELD_ICMP_CHECKSUM
  | FIELD_ICMPV6_CHECKSUM | FIELD_TCP_SRCPORT | FIELD_TCP_DSTPORT | FIELD_TCP_WINDOW
  | FIELD_TCP_CHECKSUM | FIELD_TCP_URGPTR | FIELD_TCP_PAYLOADLENGTH | FIELD_UDP_SRCPORT
  | FIELD_UDP_DSTPORT | FIELD_UDP_LENGTH | FIELD_UDP_CHECKSUM | FIELD_UDP_PAYLOADLENGTH
  | FIELD_RANDOM16 | FIELD_LOCALPORT | FIELD_REMOTEPORT | FIELD_PACKET16 | FIELD_TCP_PAYLOAD16
  | FIELD_UDP_PAYLOAD16 => (false, 0, 0xFFFF)
  | FIELD_IPV6_FLOWLABEL | FIELD_ICMP_BODY | FIELD_ICMPV6_BODY | FIELD_TCP_SEQNUM | FIELD_TCP_ACKNUM
  | FIELD_RANDOM32 | FIELD_IFIDX | FIELD_SUBIFIDX | FIELD_PROCESSID | FIELD_PACKET32
  | FIELD_TCP_PAYLOAD32 | FIELD_UDP_PAYLOAD32 => (false, 0, 0xFFFFFFFF)
  | FIELD_TIMESTAMP => (true, - 2 ^ 63, 2 ^ 63 - 1)
  | FIELD_IP_SRCADDR | FIELD_IP_DSTADDR => (true, 0xFFFF * 2 ^ 32, 0xFFFF * 2 ^ 32 + 0xFFFFFFFF)
  | FIELD_ENDPOINTID | FIELD_PARENTENDPOINTID => (true, 0, 2 ^ 64 - 1)
  | FIELD_IPV6_SRCADDR | FIELD_IPV6_DSTADDR | FIELD_LOCALADDR | FIELD_REMOTEADDR => (true, 0, 2 ^ 128 - 1)
  end.

(** A value read from a field. *)
Definition value_ok (r : bool * Z * Z) (x : fetch) : Prop :=
  match x with
  | FVal n bg v => let '(bg', lo, hi) := r in
    bg = bg' /\ wf128 v /\ (n = true -> 0 < magnitude bg v) /\ lo <= signed n (magnitude bg v) <= hi
  | _ => True
  end.

Lemma small_ok v lo hi : 0 <= lo -> hi < 2 ^ 32 -> lo <= v <= hi -> value_ok (false, lo, hi) (small v).
Proof. intros L H B. cbn. unfold wf128, is_u32; cbn. repeat split; try lia; discriminate. Qed.

Lemma words_ok v : wf128 v -> value_ok (true, 0, 2 ^ 128 - 1) (words128 v).
Proof. intros W. pose proof (val128_bound v W). cbn. repeat split; try apply W; try lia; discriminate. Qed.

Lemma ntohl_range x : 0 <= ntohl x < 2 ^ 32.
Proof.
  unfold ntohl, BYTESWAP32. repeat apply lor_bound; try lia; apply land_bound; lia.
Qed.

Lemma nibble_range x : is_byte x -> 0 <= x >>> 4 <= 0xF.
Proof. intros H. unfold is_byte in H. rewrite Z.shiftr_div_pow2 by lia. Z.div_mod_to_equations. lia. Qed.

Lemma fragoff_range p h : 0 <= ntohs (WINDIVERT_IPHDR_GET_FRAGOFF p h) <= 0x1FFF.
Proof.
  unfold ntohs, BYTESWAP16, WINDIVERT_IPHDR_GET_FRAGOFF. set (x := ip_FragOff0 p h).
  assert (E : ((x &&& 0xFF1F) <<< 8) &&& 0xFF00 = (x mod 2 ^ 5) <<< 8).
  { change 0xFF00 with (0xFF <<< 8). rewrite <- Z.shiftl_land, <- Z.land_assoc.
    change (0xFF1F &&& 0xFF) with 0x1F. now rewrite (land_mask_mod x 5) by (lia || reflexivity). }
  rewrite E. assert (0 <= (((x &&& 0xFF1F) >>> 8) &&& 0xFF ||| (x mod 2 ^ 5) <<< 8) < 2 ^ 13); [|lia].
  pose proof (Z.mod_pos_bound x (2 ^ 5) ltac:(lia)).
  apply lor_bound; [lia|split; [apply Z.land_nonneg; lia|]|rewrite Z.shiftl_mul_pow2 by lia; lia].
  pose proof (land_bound 8 ((x &&& 0xFF1F) >>> 8) 0xFF ltac:(lia) ltac:(lia)). lia.
Qed.

Lemma trafficclass_range p h : bytes p -> 0 <= WINDIVERT_IPV6HDR_GET_TRAFFICCLASS p h <= 0xFF.
Proof.
  intros Hp. unfold WINDIVERT_IPV6HDR_GET_TRAFFICCLASS, ipv6_TrafficClass0, ipv6_TrafficClass1.
  pose proof (nibble_range _ (byte_at_range p (h + 1) Hp)).
  pose proof (land_bound 4 (byte_at p h) 0xF ltac:(lia) ltac:(lia)).
  assert (0 <= ((byte_at p h &&& 0xF) <<< 4 ||| byte_at p (h + 1) >>> 4) < 2 ^ 8); [|lia].
  apply lor_bound; [lia|rewrite Z.shiftl_mul_pow2 by lia; lia|lia].
Qed.

Lemma loads_value r p off n v : value_ok r v -> value_ok r (loads p off n v).
Proof. unfold loads. case_if; [auto|]. intros _. destruct r as [[? ?] ?]. exact I. Qed.

Lemma getdata_ok p lo hi idx size : bytes p -> size = 1 \/ size = 2 \/ size = 4 ->
  value_ok (false, 0, 2 ^ (8 * size) - 1) (WinDivertGetData p lo hi idx size).
Proof.
  intros Hp S. unfold WinDivertGetData. case_if; [exact I|]. apply loads_value.
  apply small_ok; [lia|destruct S as [-> |[-> | ->]]; reflexivity|].
  set (o := i32 _). pose proof (byte_at_range p o Hp). unfold is_byte in *.
  pose proof (be16_range p o Hp). pose proof (be32_range p o Hp).
  destruct S as [-> |[-> | ->]]; cbn [Z.eqb Pos.eqb]; rewrite ?ntohs_ld16, ?ntohl_ld32 by exact Hp; lia.
Qed.

Lemma deref_ok {A} r (o : option A) k : (forall x, o = Some x -> value_ok r (k x)) -> value_ok r (deref o k).
Proof. destruct o; cbn; auto. Qed.

Lemma mapped_ok p o : bytes p -> value_ok (true, 0xFFFF * 2 ^ 32, 0xFFFF * 2 ^ 32 + 0xFFFFFFFF) (mapped (ld32 p o)).
Proof.
  intros Hp. unfold mapped. rewrite ntohl_ld32 by exact Hp. pose proof (be32_range p o Hp).
  cbn -[Z.add Z.mul Z.pow]. unfold wf128, is_u32, val128; cbn [w0 w1 w2 w3]. repeat split; try lia; discriminate.
Qed.

Lemma ipv6_words_ok w : value_ok (true, 0, 2 ^ 128 - 1) (ipv6_words w).
Proof. apply words_ok. repeat split; apply ntohl_range. Qed.

(** A mapped address is an address. *)
Lemma mapped_address_ok p o : bytes p -> value_ok (true, 0, 2 ^ 128 - 1) (mapped (ld32 p o)).
Proof.
  intros Hp. pose proof (mapped_ok p o Hp) as H. unfold mapped, big in *. cbn -[Z.add Z.mul Z.pow val128] in *.
  destruct H as (H1 & H2 & H3 & H4). repeat split; auto; try apply H2; lia.
Qed.

Lemma bytes128_ok n : 0 <= n < 2 ^ 64 -> value_ok (true, 0, 2 ^ 64 - 1) (big (u32 n) (n >>> 32) 0 0).
Proof.
  intros H. unfold big. cbn -[Z.add Z.mul Z.pow val128]. unfold wf128, is_u32, val128, u32; cbn [w0 w1 w2 w3].
  rewrite Z.shiftr_div_pow2 by lia. pose proof (Z.mod_pos_bound n (2 ^ 32) ltac:(lia)).
  pose proof (Z.div_mod n (2 ^ 32) ltac:(lia)).
  assert (0 <= n / 2 ^ 32 < 2 ^ 32) by (split; [apply Z.div_pos; lia|apply Z.div_lt_upper_bound; lia]).
  repeat split; try lia; discriminate.
Qed.

Section Ranges.
Variable a : exec_args.
Hypothesis R : args_range a.

Lemma random_value r v : value_ok r (small v) -> value_ok r (random a v).
Proof using. unfold random. case_if; [auto|]. intros _. destruct r as [[? ?] ?]. exact I. Qed.

(** The values of one field: bytes, big-endian words and flags. *)
Ltac field_ok :=
  lazymatch goal with
  | |- value_ok _ (loads _ _ _ _) => apply loads_value; field_ok
  | |- value_ok _ (mapped _) => apply mapped_ok; apply R
  | |- value_ok _ (ipv6_words _) => apply ipv6_words_ok
  | |- value_ok _ (small (b2z _)) => apply small_ok; [lia..|apply b2z_range]
  | |- value_ok _ (small (ntohs (ld16 ?p ?o))) =>
    rewrite ntohs_ld16 by apply R; pose proof (be16_range p o (ar_bytes a R)); apply small_ok; lia
  | |- value_ok _ (small (ntohl ?x)) => pose proof (ntohl_range x); apply small_ok; lia
  | |- value_ok _ (small (byte_at ?p ?o)) =>
    pose proof (byte_at_range p o (ar_bytes a R)); unfold is_byte in *; apply small_ok; lia
  end.

Lemma ip_range f : value_ok (field_range f) (fetch_ip a f).
Proof using R.
  apply deref_ok. intros h _.
  destruct f; try exact I; cbn [field_range];
    unfold ip_TOS, ip_Length, ip_Id, ip_TTL, ip_Protocol, ip_Checksum, ip_SrcAddr, ip_DstAddr; try field_ok;
    (apply loads_value, small_ok; [lia..|]).
  - pose proof (ip_HdrLength_range (a_packet a) h (ar_bytes a R)). lia.
  - apply fragoff_range.
Qed.

Lemma ipv6_range f : value_ok (field_range f) (fetch_ipv6 a f).
Proof using R.
  apply deref_ok. intros h _.
  destruct f; try exact I; cbn [field_range];
    unfold ipv6_Length, ipv6_NextHdr, ipv6_HopLimit; try field_ok.
  apply loads_value, small_ok; [lia..|]. apply trafficclass_range, R.
Qed.

Lemma icmp_range f : value_ok (field_range f) (fetch_icmp a f).
Proof using R.
  unfold fetch_icmp. destruct f; try exact I; cbn [field_range]; apply deref_ok; intros h _;
    unfold icmp_Type, icmp_Code, icmp_Checksum; field_ok.
Qed.

Lemma tcp_range f : value_ok (field_range f) (fetch_tcp a f).
Proof using R.
  apply deref_ok. intros h _.
  destruct f; try exact I; cbn [field_range];
    unfold tcp_SrcPort, tcp_DstPort, tcp_Window, tcp_Checksum, tcp_UrgPtr, tcp_Fin, tcp_Syn, tcp_Rst, tcp_Psh,
      tcp_Ack, tcp_Urg, tcp_flag; try field_ok.
  apply loads_value, small_ok; [lia..|]. unfold tcp_HdrLength. apply nibble_range, byte_at_range, R.
Qed.

Lemma udp_range f : value_ok (field_range f) (fetch_udp a f).
Proof using R.
  apply deref_ok. intros h _.
  destruct f; try exact I; cbn [field_range]; unfold udp_SrcPort, udp_DstPort, udp_Length, udp_Checksum; field_ok.
Qed.

Lemma proto_range hdr fam proto : value_ok (false, 0, 1) (proto_field a hdr fam proto).
Proof using.
  unfold proto_field. destruct (a_layer a); try exact I; try apply deref_ok; intros;
    apply small_ok; try lia; apply b2z_range.
Qed.

Lemma presence_range f : value_ok (field_range f) (fetch_presence a f).
Proof using.
  unfold fetch_presence. destruct f; try exact I; cbn [field_range]; try apply proto_range;
    apply small_ok; try lia; apply b2z_range.
Qed.

Lemma addr_range side data : (forall d, a_flow a = Some d \/ a_socket a = Some d -> wf128 (data d)) ->
  value_ok (true, 0, 2 ^ 128 - 1) (fetch_addr a side data).
Proof using R.
  intros H. unfold fetch_addr. destruct (a_layer a); try exact I.
  - destruct (a_ip_header a); [destruct side; apply loads_value, mapped_address_ok, R|].
    destruct (a_ipv6_header a); [destruct side; apply loads_value, ipv6_words_ok|]. apply (words_ok zero128). apply wf_zero128.
  - apply deref_ok. intros d E. apply words_ok. auto.
  - apply deref_ok. intros d E. apply words_ok. auto.
Qed.

Lemma port_range side data : (forall d, a_flow a = Some d \/ a_socket a = Some d -> 0 <= data d < 2 ^ 16) ->
  value_ok (false, 0, 0xFFFF) (fetch_port a side data).
Proof using R.
  intros H. unfold fetch_port. destruct (a_layer a); try exact I.
  - destruct (a_tcp_header a), (a_udp_header a), (a_icmp_header a), (a_icmpv6_header a); destruct side;
      unfold tcp_SrcPort, tcp_DstPort, udp_SrcPort, udp_DstPort, icmp_Type;
      try field_ok; apply small_ok; lia.
  - apply deref_ok. intros d E. specialize (H d (or_introl E)). apply small_ok; lia.
  - apply deref_ok. intros d E. specialize (H d (or_intror E)). apply small_ok; lia.
Qed.

Lemma layer_range f : value_ok (field_range f) (fetch_layer a f).
Proof using R.
  pose proof (ar_flow a R) as F. pose proof (ar_protocol a R) as P.
  unfold fetch_layer. destruct f; try exact I; cbn [field_range].
  all: try (apply addr_range; intros d H; apply (F d H)).
  all: try (apply port_range; intros d H; apply (F d H)).
  all: unfold fetch_endpoint; destruct (a_layer a); try exact I; try (apply small_ok; lia); apply deref_ok; intros d E;
    try (destruct (F d ltac:(auto)) as (F1 & F2 & F3 & _ & _ & _ & _ & F8); unfold is_u32 in *);
    try (apply bytes128_ok; assumption); try (apply small_ok; lia).
  destruct (ar_reflect a R d E) as [Q _]. unfold is_u32 in Q. apply small_ok; lia.
Qed.

Lemma timestamp_ok : value_ok (field_range FIELD_TIMESTAMP) (fetch_meta a FIELD_TIMESTAMP 0).
Proof using R.
  pose proof (ar_time a R) as T. cbn [fetch_meta field_range]. case_if; [exact I|]. unfold u64.
  set (t := a_timestamp a) in *. rewrite (Z.mod_small _ (2 ^ 64)) by (case_if; b2p; lia).
  set (q := if t <? 0 then - t else t). assert (Q : 0 <= q <= 2 ^ 63 /\ signed (t <? 0) q = t).
  { subst q. unfold signed. destruct (Z.ltb_spec t 0); lia. }
  destruct (bytes128_ok q ltac:(lia)) as (_ & W & _ & B). cbn [signed magnitude] in B.
  assert (V : val128 (W128 (u32 q) (q >>> 32) 0 0) = q).
  { unfold val128, u32; cbn [w0 w1 w2 w3]. rewrite Z.shiftr_div_pow2 by lia.
    pose proof (Z.div_mod q (2 ^ 32) ltac:(lia)). lia. }
  unfold value_ok, magnitude. rewrite V. repeat split; try apply W; try lia.
  intros N. apply Z.ltb_lt in N. subst q. destruct (Z.ltb_spec t 0); lia.
Qed.

Lemma meta_range f idx : WinDivertValidateField (a_layer a) f = true -> value_ok (field_range f) (fetch_meta a f idx).
Proof using R.
  intros V. pose proof (ar_bytes a R) as B.
  destruct f; try exact I; try exact timestamp_ok; cbn [fetch_meta field_range];
    try (apply (getdata_ok _ _ _ _ 1); auto); try (apply (getdata_ok _ _ _ _ 2); auto);
    try (apply (getdata_ok _ _ _ _ 4); auto); try (apply small_ok; [lia..|apply b2z_range]).
  - apply small_ok; lia.
  - destruct (a_layer a); try exact I; apply deref_ok; intros d E; destruct (ar_network a R d E) as [N _];
      unfold is_u32 in N; apply small_ok; lia.
  - apply deref_ok. intros d E. destruct (ar_network a R d E) as [_ N]. unfold is_u32 in N. apply small_ok; lia.
  - pose proof (ar_payload a R). apply small_ok; lia.
  - pose proof (ar_payload a R). apply small_ok; lia.
  - apply deref_ok. intros d _. unfold WINDIVERT_LAYER_MAX. apply small_ok; destruct (ReflLayer d); cbn; lia.
  - apply deref_ok. intros d E. destruct (ar_reflect a R d E) as [_ P]. unfold WINDIVERT_PRIORITY_MAX in *.
    unfold value_ok, wf128, is_u32; cbn [w0 w1 w2 w3 magnitude].
    destruct (Z.ltb_spec (ReflPriority d) 0); cbn [signed]; repeat split; try lia; discriminate.
  - pose proof (ar_event a R). apply small_ok; unfold WINDIVERT_EVENT_MAX in *; lia.
  - assert (L : a_layer a = LAYER_NETWORK \/ a_layer a = LAYER_NETWORK_FORWARD)
      by (destruct (a_layer a); try discriminate V; auto).
    pose proof (ar_length a R L). unfold WINDIVERT_MTU_MAX in *. apply small_ok; lia.
  - apply random_value; pose proof (land_bound 8 ((random64 a >>> 32) >>> 16) 0xFF ltac:(lia) ltac:(lia)). apply small_ok; lia.
  - apply random_value; pose proof (land_bound 16 (random64 a >>> 32) 0xFFFF ltac:(lia) ltac:(lia)). apply small_ok; lia.
  - apply random_value; pose proof (Z.mod_pos_bound (random64 a) (2 ^ 32) ltac:(lia)). unfold u32. apply small_ok; lia.
Qed.

(** Every field takes values in its range. *)
Lemma fetch_range f idx : WinDivertValidateField (a_layer a) f = true -> value_ok (field_range f) (fetch_field a f idx).
Proof using R.
  intros V. destruct f; cbn [fetch_field];
    first [ now apply meta_range | apply presence_range | now apply ip_range | now apply ipv6_range
          | now apply icmp_range | now apply tcp_range | now apply udp_range | now apply layer_range ].
Qed.
End Ranges.

(** ** Bounds and constants *)

Lemma compare_sign n a m b : wf128 a -> wf128 b -> (n = true -> 0 < val128 a) -> (m = true -> 0 < val128 b) ->
  let r := WinDivertCompare128 n a m b true in
  let x := signed n (val128 a) in let y := signed m (val128 b) in
  (r < 0 <-> x < y) /\ (r = 0 <-> x = y) /\ (0 < r <-> y < x).
Proof.
  intros Ha Hb Hn Hm r x y.
  pose proof (compare128_test TEST_LT n a m b true Ha Hb Hn Hm) as L.
  pose proof (compare128_test TEST_EQ n a m b true Ha Hb Hn Hm) as E.
  pose proof (compare128_test TEST_GT n a m b true Ha Hb Hn Hm) as G.
  cbn [test_result test_z magnitude] in L, E, G. fold r x y in L, E, G. lia.
Qed.

Lemma bounds_wf k b : test_bounds k = Some b ->
  wf128 (b_lb b) /\ wf128 (b_ub b) /\ (b_neg_lb b = true -> 0 < val128 (b_lb b)).
Proof.
  intros E. destruct k; try discriminate E; injection E as <-; cbn [b_lb b_ub b_neg_lb];
    (split; [vm_compute; intuition discriminate|]); (split; [vm_compute; intuition discriminate|]);
    intros H; try discriminate H; vm_compute; reflexivity.
Qed.

Definition lower (b : bounds) : Z := signed (b_neg_lb b) (val128 (b_lb b)).
Definition upper (b : bounds) : Z := val128 (b_ub b).

(** The decision against the bounds, on integers. *)
Section Decide.
Variable t : TEST_EXPR.
Variable b : bounds.
Hypothesis Hb : test_bounds (v_kind (t_var t)) = Some b.
Hypothesis Hw : wf128 (n_val (t_val t)).
Hypothesis Hz : n_neg (t_val t) && (val128 (n_val (t_val t)) =? 0) = false.

Lemma not_negative_zero : n_neg (t_val t) = true -> 0 < val128 (n_val (t_val t)).
Proof using Hw Hz. intros N. rewrite N in Hz. pose proof (val128_bound _ Hw). cbn [andb] in Hz. b2p. lia. Qed.

Lemma decided_right op r x : test_of_kind (t_kind t) = Some op -> decided t b = Some r ->
  lower b <= x <= upper b -> test_z op x (num_value (t_val t)) = r.
Proof using Hb Hw Hz.
  intros O D X. destruct (bounds_wf _ _ Hb) as (Wl & Wu & Nl).
  pose proof (compare_sign _ _ _ _ Hw Wl not_negative_zero Nl) as L.
  pose proof (compare_sign _ _ false _ Hw Wu not_negative_zero ltac:(discriminate)) as U.
  cbv zeta in L, U. fold (num_value (t_val t)) in L, U. fold (lower b) in L.
  change (signed false (val128 (b_ub b))) with (upper b) in U.
  assert (Q : b_eq b = true -> lower b = upper b).
  { clear - Hb. destruct (v_kind (t_var t)); try discriminate Hb; injection Hb as <-; intros H;
      try discriminate H; reflexivity. }
  unfold decided in D. set (rl := WinDivertCompare128 _ _ (b_neg_lb b) _ _) in *.
  set (ru := WinDivertCompare128 _ _ false _ _) in *. clearbody rl ru. set (c := num_value (t_val t)) in *. clearbody c.
  destruct (t_kind t); try discriminate O; injection O as <-; cbn [decide_test test_z] in *;
    repeat (case_if_in D; [injection D as <-|]); try discriminate D; b2p; try specialize (Q ltac:(assumption)); lia.
Qed.

Lemma undecided_bounds op : test_of_kind (t_kind t) = Some op -> decided t b = None ->
  lower b <= num_value (t_val t) <= upper b.
Proof using Hb Hw Hz.
  intros O D. destruct (bounds_wf _ _ Hb) as (Wl & Wu & Nl).
  pose proof (compare_sign _ _ _ _ Hw Wl not_negative_zero Nl) as L.
  pose proof (compare_sign _ _ false _ Hw Wu not_negative_zero ltac:(discriminate)) as U.
  cbv zeta in L, U. fold (num_value (t_val t)) in L, U. fold (lower b) in L.
  change (signed false (val128 (b_ub b))) with (upper b) in U.
  unfold decided in D. set (rl := WinDivertCompare128 _ _ (b_neg_lb b) _ _) in *.
  set (ru := WinDivertCompare128 _ _ false _ _) in *. clearbody rl ru. set (c := num_value (t_val t)) in *. clearbody c.
  destruct (t_kind t); try discriminate O; cbn [decide_test] in D;
    repeat (case_if_in D; [discriminate D|]); b2p; lia.
Qed.
End Decide.

(** The bounds are those of the field, the flow label apart; those of a field
    of one word fit a word. *)
Lemma bounds_range k f b : WinDivertKindToField k = Some f -> test_bounds k = Some b ->
  let '(bg, lo, hi) := field_range f in
  (kind_eqb k TOKEN_IPV6_FLOW_LABEL = false -> lower b <= lo /\ hi <= upper b) /\
  (bg = false -> - 2 ^ 32 < lower b /\ upper b < 2 ^ 32).
Proof.
  intros F E. destruct k; try discriminate E; try discriminate F; injection E as <-; injection F as <-;
    cbn [field_range];
    (split; [intros H; try discriminate H; vm_compute; split; discriminate|]);
    intros H; try discriminate H; vm_compute; split; reflexivity.
Qed.

(** ** One test *)

(** Only elements of arrays depend on the index. *)
Lemma fetch_idx a k f x y : array_size k = None -> WinDivertKindToField k = Some f ->
  fetch_field a f x = fetch_field a f y.
Proof. intros A F. destruct k; try discriminate F; try discriminate A; injection F as <-; reflexivity. Qed.

Lemma array_small k f : array_size k <> None -> WinDivertKindToField k = Some f -> fst (fst (field_range f)) = false.
Proof.
  intros A F. destruct k; try discriminate F; try (elim A; reflexivity); injection F as <-; reflexivity.
Qed.

Lemma emit_arg_fetch a var v f : WinDivertKindToField (v_kind var) = Some f ->
  fetch_field a f (w1 (emit_arg var v)) = fetch_field a f (v_idx var).
Proof.
  intros F. unfold emit_arg. destruct (array_size (v_kind var)) eqn:A; [reflexivity|].
  now apply (fetch_idx a (v_kind var)).
Qed.

Lemma emit_arg_magnitude var v f bg : WinDivertKindToField (v_kind var) = Some f -> fst (fst (field_range f)) = bg ->
  magnitude bg (emit_arg var v) = magnitude bg v.
Proof.
  intros F B. unfold emit_arg. destruct (array_size (v_kind var)) eqn:A; [|reflexivity].
  rewrite (array_small (v_kind var) f) in B by (assumption || congruence). now subst bg.
Qed.

Lemma emit_arg_wf var v : is_u32 (v_idx var) -> wf128 v -> wf128 (emit_arg var v).
Proof. unfold emit_arg, wf128. intros I W. destruct (array_size _); cbn [w0 w1 w2 w3]; tauto. Qed.

(** Which constants a field can be compared with: those that fit the words
    that are compared, and the negative ones where the field is not. *)
Definition comparable (f : FIELD) (n : NUM) : Prop :=
  let '(bg, lo, hi) := field_range f in
  magnitude bg (n_val n) = val128 (n_val n) \/ (n_neg n = true /\ 0 <= lo).

Lemma var_value_field a v f : WinDivertKindToField (v_kind v) = Some f -> var_value a v = field_value a f (v_idx v).
Proof. intros F. unfold var_value. destruct (v_kind v); try discriminate F; now injection F as <-. Qed.

(** The instruction of a test computes its integer meaning. *)
Lemma emitted_means a t f : args_ok a -> args_range a -> test_ok (a_layer a) t ->
  WinDivertKindToField (v_kind (t_var t)) = Some f -> comparable f (t_val t) ->
  (n_neg (t_val t) = true -> 0 < val128 (n_val (t_val t))) ->
  emitted_holds a t = test_means a t.
Proof.
  intros Ha R (C & F & I & W) K Q N. unfold emitted_holds, WinDivertEmitTest, test_means. cbn [e_test].
  rewrite (var_value_field a _ f K), K. destruct (comparison_test _ C) as [op ->].
  unfold field_ok in F. rewrite K in F. unfold insn_holds, exec_insn, field_value. cbn [field test neg arg].
  rewrite F. cbn [negb]. destruct (header_present a f); [|reflexivity]. rewrite (emit_arg_fetch a _ _ f K).
  pose proof (fetch_range a R f (v_idx (t_var t)) F) as V.
  destruct (fetch_field a f (v_idx (t_var t))) as [n bg v| | |]; try reflexivity.
  unfold comparable in Q. unfold value_ok in V. destruct (field_range f) as [[bg' lo] hi] eqn:E.
  destruct V as (-> & Wv & Nv & B).
  assert (M : magnitude bg' (emit_arg (t_var t) (n_val (t_val t))) = magnitude bg' (n_val (t_val t)))
    by (apply (emit_arg_magnitude _ _ f); [exact K|now rewrite E]).
  destruct Q as [Q|[Q1 Q2]].
  - rewrite compare128_test; [now rewrite M, Q|exact Wv|apply emit_arg_wf; [apply I|exact W]|exact Nv|].
    intros H. rewrite M, Q. now apply N.
  - specialize (N Q1). unfold num_value. rewrite Q1. cbn [signed]. destruct n.
    + exfalso. specialize (Nv eq_refl). cbn [signed] in B. lia.
    + cbn [signed] in B |- *. unfold WinDivertCompare128. cbn [andb negb]. destruct op; cbn; lia.
Qed.

Lemma no_bounds_small k f : WinDivertKindToField k = Some f -> test_bounds k = None ->
  fst (field_range f) = (false, 0).
Proof. intros F E. destruct k; try discriminate E; try discriminate F; injection F as <-; reflexivity. Qed.

Lemma fits_word_magnitude v : fits_word v = true -> magnitude false v = val128 v.
Proof. unfold fits_word, val128. cbn [magnitude]. intros H. b2p. lia. Qed.

Lemma small_magnitude v : wf128 v -> val128 v < 2 ^ 32 -> magnitude false v = val128 v.
Proof. unfold wf128, is_u32, val128. cbn [magnitude]. lia. Qed.

(** A failed read is one of an element of an array. *)
Lemma fetch_no_fail a k f idx : array_size k = None -> WinDivertKindToField k = Some f -> fetch_field a f idx <> FFail.
Proof.
  intros A F. destruct k; try discriminate F; try discriminate A; injection F as <-; cbn -[ntohs ntohl];
    unfold fetch_ip, fetch_ipv6, fetch_icmp, fetch_tcp, fetch_udp, proto_field, fetch_addr, fetch_port,
      fetch_endpoint, mapped, ipv6_words, small, big, words128, loads, random;
    repeat match goal with
    | |- context [deref ?o _] => destruct o; cbn -[ntohs ntohl]
    | |- context [match ?o with _ => _ end] => destruct o; cbn -[ntohs ntohl]
    end; discriminate.
Qed.

(** A decided test is true only where its variable can be read. *)
Lemma field_readable a k f idx : args_ok a -> WinDivertValidateField (a_layer a) f = true ->
  array_size k = None -> WinDivertKindToField k = Some f -> header_present a f = true ->
  exists x, field_value a f idx = Some x.
Proof.
  intros Ha V A F P. unfold field_value. rewrite P. destruct (fetch_defined a f idx Ha V P) as [U E].
  pose proof (fetch_no_fail a k f idx A F). destruct (fetch_field a f idx); try congruence. eauto.
Qed.

Lemma meta_present a k f b : WinDivertKindToField k = Some f -> test_bounds k = Some b -> b_type b = TOKEN_TRUE ->
  header_present a f = true.
Proof.
  intros F E T. destruct k; try discriminate F; try discriminate E; injection F as <-; injection E as <-;
    try discriminate T; reflexivity.
Qed.

(** The test for a header tells whether the header is there. *)
Lemma header_test a k f b : args_ok a -> field_ok (a_layer a) k = true -> WinDivertKindToField k = Some f ->
  test_bounds k = Some b -> kind_eqb (b_type b) TOKEN_TRUE = false ->
  emitted_holds a (mkTest TOKEN_EQ (mkVar (b_type b) 0) WinDivertMakeOne) = header_present a f.
Proof.
  intros Ha V F E T. unfold emitted_holds, insn_holds, exec_insn.
  destruct k; try discriminate F; try discriminate E; injection F as <-; injection E as <-; try discriminate T;
    destruct (a_layer a) eqn:L; try discriminate V;
    cbn -[WinDivertCompare128]; unfold proto_field; rewrite ?L; cbn -[WinDivertCompare128];
    match goal with |- context [non_null ?o] => destruct o end; reflexivity.
Qed.

Lemma value_in_bounds a k f b idx x : args_range a -> WinDivertKindToField k = Some f -> test_bounds k = Some b ->
  WinDivertValidateField (a_layer a) f = true -> kind_eqb k TOKEN_IPV6_FLOW_LABEL = false ->
  field_value a f idx = Some x -> lower b <= x <= upper b.
Proof.
  intros R F E V K. unfold field_value. case_if; [|discriminate].
  pose proof (fetch_range a R f idx V) as G. pose proof (bounds_range k f b F E) as B.
  destruct (fetch_field a f idx) as [n bg v| | |]; try discriminate. intros [= <-]. unfold value_ok in G.
  destruct (field_range f) as [[bg' lo] hi]. destruct B as [B _]. specialize (B K). lia.
Qed.

(** ** Simplification *)

Lemma field_not_true k f : WinDivertKindToField k = Some f -> kind_eqb k TOKEN_TRUE = false.
Proof. intros K. destruct k; try discriminate K; reflexivity. Qed.

Lemma source_field l k f : source_var l k = true -> WinDivertKindToField k = Some f -> field_ok l k = true.
Proof.
  unfold source_var. intros V K. destruct (field_ok l k); [reflexivity|]. apply orb_true_iff in V.
  destruct V as [V|V]; apply kind_eqb_eq in V; rewrite V in K; discriminate K.
Qed.

Lemma source_truth l k : source_var l k = true -> WinDivertKindToField k = None -> k = TOKEN_TRUE \/ k = TOKEN_FALSE.
Proof.
  unfold source_var, field_ok. intros V K. rewrite K in V. apply orb_true_iff in V.
  destruct V as [V|V]; apply kind_eqb_eq in V; auto.
Qed.

Section Simplify.
Variable a : exec_args.
Hypothesis Ha : args_ok a.
Hypothesis R : args_range a.

(** A test that is kept. *)
Lemma kept_means t f : source_ok (a_layer a) t -> plain_test t = true ->
  WinDivertKindToField (v_kind (t_var t)) = Some f -> WinDivertSimplifyTest t = t ->
  (forall b, test_bounds (v_kind (t_var t)) = Some b -> decided t b = None) ->
  simplified_holds a t = test_means a t.
Proof using Ha R.
  intros (C & V & I & W) P K E D. unfold plain_test in P. apply andb_true_iff in P. destruct P as [Z P].
  apply negb_true_iff in Z. pose proof (source_field _ _ f V K) as F.
  unfold simplified_holds. rewrite E. unfold constant_test. rewrite (field_not_true _ f K), andb_false_r. apply (emitted_means a t f Ha R); [split; auto|exact K| |now apply not_negative_zero].
  unfold comparable. destruct (test_bounds (v_kind (t_var t))) as [b|] eqn:B.
  - pose proof (bounds_range _ f b K B) as Q. destruct (field_range f) as [[[] lo] hi]; [now left|].
    destruct (comparison_test _ C) as [op O]. destruct Q as [_ Q]. specialize (Q eq_refl).
    pose proof (undecided_bounds t b B W Z op O (D b eq_refl)) as U. unfold num_value, signed in U.
    left. apply small_magnitude; [exact W|]. destruct (n_neg (t_val t)); lia.
  - pose proof (no_bounds_small _ f K B) as Q. destruct (field_range f) as [[bg lo] hi]. injection Q as -> ->.
    apply orb_true_iff in P. destruct P as [P|P]; [right; split; [exact P|lia]|left; now apply fits_word_magnitude].
Qed.

(** A test that is decided. *)
Lemma decided_means t b r : source_ok (a_layer a) t -> plain_test t = true ->
  test_bounds (v_kind (t_var t)) = Some b -> decided t b = Some r ->
  simplified_holds a t = test_means a t.
Proof using Ha R.
  intros (C & V & I & W) P B D. unfold plain_test in P. rewrite B, D in P. apply andb_true_iff in P.
  destruct P as [Z P]. apply negb_true_iff in Z. destruct (comparison_test _ C) as [op O].
  pose proof (simplify_decided t b r B D) as S. unfold simplified_holds, test_means. rewrite S, O.
  destruct (WinDivertKindToField (v_kind (t_var t))) as [f|] eqn:K.
  - rewrite (var_value_field a _ f K). pose proof (source_field _ _ f V K) as F.
    pose proof F as G. unfold field_ok in G. rewrite K in G.
    assert (L : kind_eqb (v_kind (t_var t)) TOKEN_IPV6_FLOW_LABEL = false).
    { destruct (kind_eqb _ TOKEN_IPV6_FLOW_LABEL) eqn:L; [|reflexivity]. destruct r; [now rewrite andb_false_r in P|].
      apply kind_eqb_eq in L. rewrite L in B. injection B as <-. discriminate P. }
    assert (X : forall x, field_value a f (v_idx (t_var t)) = Some x -> test_z op x (num_value (t_val t)) = r).
    { intros x E. apply (decided_right t b B W Z op r x O D). exact (value_in_bounds a _ f b _ x R K B G L E). }
    unfold constant_test. cbn [t_kind t_var v_kind]. destruct (kind_eqb (b_type b) TOKEN_TRUE) eqn:T.
    + cbn [kind_eqb andb]. unfold constant_value. apply kind_eqb_eq in T.
      pose proof (meta_present a _ f b K B T) as H. destruct r.
      * apply andb_true_iff in P. destruct P as [A _].
        destruct (array_size (v_kind (t_var t))) eqn:A'; [discriminate A|].
        destruct (field_readable a _ f (v_idx (t_var t)) Ha G A' K H) as [x E]. rewrite E, (X x E). reflexivity.
      * destruct (field_value a f (v_idx (t_var t))) as [x|]; [now rewrite (X x eq_refl)|reflexivity].
    + rewrite andb_false_r. destruct r; [|discriminate P]. apply andb_true_iff in P. destruct P as [A _].
      destruct (array_size (v_kind (t_var t))) eqn:A'; [discriminate A|].
      rewrite (header_test a _ f b Ha F K B T). destruct (header_present a f) eqn:H.
      * destruct (field_readable a _ f (v_idx (t_var t)) Ha G A' K H) as [x E]. now rewrite E, (X x E).
      * unfold field_value. now rewrite H.
  - assert (T : exists n, var_value a (t_var t) = Some n /\ lower b = n /\ upper b = n /\ b_type b = TOKEN_TRUE).
    { unfold var_value. destruct (source_truth _ _ V K) as [E|E]; rewrite E in *; injection B as <-;
        eexists; repeat split. }
    destruct T as (n & -> & Ll & Lu & ->).
    rewrite (decided_right t b B W Z op r n O D) by lia. now destruct r.
Qed.

Lemma simplify_sound t : source_ok (a_layer a) t -> plain_test t = true ->
  simplified_holds a t = test_means a t.
Proof using Ha R.
  intros S P. destruct (test_bounds (v_kind (t_var t))) as [b|] eqn:B.
  - destruct (decided t b) as [r|] eqn:D; [now apply (decided_means t b r)|].
    destruct (WinDivertKindToField (v_kind (t_var t))) as [f|] eqn:K.
    + apply (kept_means t f); auto; [|congruence]. unfold decided in D. unfold WinDivertSimplifyTest.
      now rewrite B, D.
    + exfalso. destruct S as (C & V & _). destruct (source_truth _ _ V K) as [E|E]; rewrite E in B;
        injection B as <-; now apply (decide_eq (t_kind t)) in D.
  - destruct (WinDivertKindToField (v_kind (t_var t))) as [f|] eqn:K.
    + apply (kept_means t f); auto; [|congruence]. unfold WinDivertSimplifyTest. now rewrite B.
    + exfalso. destruct S as (C & V & _). destruct (source_truth _ _ V K) as [E|E]; rewrite E in B; discriminate B.
Qed.

Lemma expr_sound e : expr_ok (a_layer a) e -> plain_expr e = true ->
  expr_holds (simplified_holds a) e = expr_holds (test_means a) e.
Proof using Ha R.
  induction e; cbn [expr_ok plain_expr expr_holds]; intros S P; try contradiction; rewrite ?andb_true_iff in P.
  - now apply simplify_sound.
  - rewrite IHe1, IHe2 by tauto. reflexivity.
  - rewrite IHe1, IHe2 by tauto. reflexivity.
  - rewrite IHe1, IHe2, IHe3 by tauto. reflexivity.
Qed.
End Simplify.

(** ** From the text *)

(** Expressions made of tokens of the layer. *)
Lemma var_source layer k : is_var k = true \/ array_size k <> None ->
  (match WinDivertKindToField k with Some f => WinDivertValidateField layer f = true | None => True end) ->
  source_var layer k = true.
Proof.
  unfold source_var, field_ok. intros H P. destruct (WinDivertKindToField k) eqn:K; [now rewrite P|].
  destruct k; try discriminate K; try reflexivity; destruct H as [H|H]; try discriminate H; now elim H.
Qed.

Lemma gvar_ok layer l v : gvar l v -> Forall (placed_ok layer) l ->
  source_var layer (v_kind v) = true /\ index_range (v_idx v).
Proof.
  intros G F. destruct G as [t H|t o m neg n b bytes c size H Ho Hm Hn W1 W2 W3 W0 Hb Hc Hi];
    pose proof (Forall_inv F) as (_ & _ & Ft); cbn [v_kind v_idx].
  - split; [apply var_source; auto|]. vm_compute. repeat split; discriminate.
  - split; [apply var_source; [right; congruence|exact Ft]|]. apply index_word.
    apply Forall_inv_tail, Forall_inv_tail, Forall_app in F. destruct F as [_ F].
    apply Forall_inv in F. destruct F as (_ & (W & _) & _). unfold is_u32 in W.
    assert (0 < size) by (destruct (kind t); try discriminate H; injection H as <-; lia).
    assert (0 <= index_of bytes size (w0 (val n))) by (unfold index_of; destruct bytes; nia).
    unfold index_ok in Hi. destruct neg; b2p; unfold UINT16_MAX in *; lia.
Qed.

Lemma gtest_ok layer l t : gtest l t -> Forall (placed_ok layer) l -> source_ok layer t.
Proof.
  intros G F. destruct G as [l not v var N V|l not v var c m neg n N V C M K]; apply Forall_app in F; destruct F as [_ F].
  - destruct (gvar_ok layer v var V F). split; [now destruct not|]. repeat (split; [assumption|]). apply wf_zero128.
  - apply Forall_app in F. destruct F as [Fv F]. destruct (gvar_ok layer v var V Fv) as [A B].
    apply Forall_inv_tail, Forall_app in F. destruct F as [_ F]. apply Forall_inv in F. destruct F as (_ & W & _).
    split; [cbn; destruct not; [destruct (kind c); try discriminate C; reflexivity|exact C]|].
    split; [exact A|]. split; [exact B|exact W].
Qed.

Lemma grammar_ok layer :
  (forall d l e, garg d l e -> Forall (placed_ok layer) l -> expr_ok layer e) /\
  (forall d l e, gand d l e -> Forall (placed_ok layer) l -> expr_ok layer e) /\
  (forall d l e, gor d l e -> Forall (placed_ok layer) l -> expr_ok layer e).
Proof.
  apply grammar_ind; cbn [expr_ok]; intros; auto;
    repeat match goal with
    | H : Forall _ (_ :: _) |- _ => apply Forall_inv_tail in H
    | H : Forall _ (_ ++ _) |- _ => apply Forall_app in H; destruct H
    end; first [now apply (gtest_ok layer l)|repeat split; auto].
Qed.

(** An object is emitted for an expression without NULL. *)
Lemma flatten_null_free e : forall stack succ fail lbl stack',
  WinDivertFlattenExpr e stack succ fail = Some (lbl, stack') -> 0 <= lbl -> null_free e = true.
Proof.
  induction e as [t|a IHa b IHb|a IHa b IHb|c IHc t IHt e IHe|]; intros stack succ fail lbl stack';
    cbn [WinDivertFlattenExpr null_free]; (case_if; [intros [= <- _] Hl; lia|]); try discriminate; auto; b2p.
  - destruct (WinDivertFlattenExpr b stack succ fail) as [[l1 s1]|] eqn:E; [|discriminate]. intros Ea Hl.
    destruct (Z.lt_ge_cases l1 0); [rewrite flatten_neg in Ea by lia; injection Ea as <- _; lia|].
    rewrite (IHa _ _ _ _ _ Ea Hl), (IHb _ _ _ _ _ E) by assumption. reflexivity.
  - destruct (WinDivertFlattenExpr b stack succ fail) as [[l1 s1]|] eqn:E; [|discriminate]. intros Ea Hl.
    destruct (Z.lt_ge_cases l1 0); [rewrite flatten_neg in Ea by lia; injection Ea as <- _; lia|].
    rewrite (IHa _ _ _ _ _ Ea Hl), (IHb _ _ _ _ _ E) by assumption. reflexivity.
  - destruct (WinDivertFlattenExpr e stack succ fail) as [[l1 s1]|] eqn:E; [|discriminate].
    destruct (WinDivertFlattenExpr t s1 succ fail) as [[l2 s2]|] eqn:Et; [|discriminate]. intros Ec Hl.
    destruct (Z.lt_ge_cases l1 0); [rewrite flatten_neg in Ec by lia; injection Ec as <- _; lia|].
    destruct (Z.lt_ge_cases l2 0); [rewrite flatten_neg in Ec by lia; injection Ec as <- _; lia|].
    rewrite (IHc _ _ _ _ _ Ec Hl), (IHt _ _ _ _ _ Et), (IHe _ _ _ _ _ E) by assumption. reflexivity.
Qed.

Lemma compile_null_free e obj : compile_expr e = COk obj -> null_free e = true.
Proof.
  unfold compile_expr. destruct (WinDivertFlattenExpr e _ _ _) as [[lbl stack]|] eqn:E; [|discriminate].
  destruct (Z.ltb_spec lbl 0); [discriminate|]. intros _. exact (flatten_null_free _ _ _ _ _ _ E ltac:(lia)).
Qed.

Definition is_text (filter : list Z) : Prop := char0 filter <> 64.
Definition tokens_of (filter : list Z) (layer : WINDIVERT_LAYER) : lexed :=
  WinDivertTokenizeFilter filter layer (5 * WINDIVERT_FILTER_MAXLEN - 1).

Lemma tokens_shape filter layer toks : tokens_of filter layer = LTokens toks ->
  exists l fin, toks = l ++ [fin] /\ kind fin = TOKEN_END /\ Forall (placed_ok layer) l /\ numbers_ok toks /\ ended toks.
Proof.
  intros H. destruct (lex_loop_ok _ _ _ _ _ _ _ H) as (l & fin & -> & K & W & F & _). exists l, fin.
  split; [reflexivity|]. split; [exact K|]. split; [exact F|]. split.
  - apply Forall_app. split; [|constructor; [exact W|constructor]]. eapply Forall_impl; [|exact F]. intros t (_ & V & _). exact V.
  - clear - K. induction l; cbn [app ended]; auto.
Qed.

(** A parse that stops at an END token has read all the others. *)
Lemma stops_at_end layer l fin m t rest : Forall (placed_ok layer) l -> l ++ [fin] = m ++ t :: rest ->
  kind t = TOKEN_END -> m = l.
Proof.
  intros F E K. destruct rest as [|t' rest]; [apply app_inj_tail in E; now destruct E as [-> _]|]. exfalso.
  assert (I : In t l).
  { rewrite (app_removelast_last fin (l := t' :: rest)), app_comm_cons, app_assoc in E by discriminate.
    apply app_inj_tail in E. destruct E as [-> _]. apply in_or_app. right. now left. }
  rewrite Forall_forall in F. destruct (F t I) as (Q & _). now apply Q.
Qed.

(** The stages a compiled text went through. *)
Lemma compile_stages filter layer obj : is_text filter -> WinDivertCompileFilter filter layer = COk obj ->
  exists l fin e, tokens_of filter layer = LTokens (l ++ [fin]) /\ kind fin = TOKEN_END /\
    Forall (placed_ok layer) l /\ gor 1024 l e /\ compile_expr e = COk obj.
Proof.
  unfold is_text, WinDivertCompileFilter. intros T. apply Z.eqb_neq in T. rewrite T. fold (tokens_of filter layer).
  destruct (tokens_of filter layer) as [toks|e|] eqn:L; try discriminate.
  destruct (WinDivertParseFilter parse_depth false toks) as [|e r|e rest] eqn:P; try discriminate.
  destruct rest as [|t rest]; [discriminate|]. destruct (kind_eqb (kind t) TOKEN_END) eqn:K; [|discriminate].
  cbn [negb]. intros C. apply kind_eqb_eq in K.
  destruct (tokens_shape _ _ _ L) as (l & fin & -> & Kf & F & N & _). exists l, fin, e.
  destruct (parser_sound parse_depth) as (_ & _ & S).
  destruct (S _ _ _ N P (compile_null_free _ _ C)) as (m & E & G & _).
  rewrite (stops_at_end layer l fin m t rest F E K) in G. repeat split; assumption.
Qed.

(** Sentences and their expressions: the parser finds the only one. *)
Lemma sentence_parsed text layer l fin e : tokens_of text layer = LTokens (l ++ [fin]) -> gor 1024 l e ->
  WinDivertParseFilter parse_depth false (l ++ [fin]) = POk e [fin].
Proof.
  intros L G. destruct (tokens_shape _ _ _ L) as (l' & fin' & E & K & F & W & _).
  apply app_inj_tail in E. destruct E as [<- <-].
  change parse_depth with (S 1024). apply filter_false; [|cbn [next_is]; now rewrite K].
  apply parser_complete; [exact G|now apply Forall_app in W|cbn [next_is]; now rewrite K].
Qed.

Lemma sentence_unique text layer l fin e e' : tokens_of text layer = LTokens (l ++ [fin]) ->
  gor 1024 l e -> gor 1024 l e' -> e = e'.
Proof.
  intros L G G'. pose proof (sentence_parsed _ _ _ _ _ L G) as P. rewrite (sentence_parsed _ _ _ _ _ L G') in P.
  now injection P as ->.
Qed.

Lemma parsed_sentence text layer l fin e : tokens_of text layer = LTokens (l ++ [fin]) ->
  WinDivertParseFilter parse_depth false (l ++ [fin]) = POk e [fin] -> null_free e = true -> gor 1024 l e.
Proof.
  intros L P N. destruct (tokens_shape _ _ _ L) as (_ & _ & _ & _ & _ & W & _).
  destruct (parser_sound parse_depth) as (_ & _ & S). destruct (S _ _ _ W P N) as (m & E & G & _).
  apply app_inj_tail in E. now destruct E as [-> _].
Qed.

(** A sentence is compiled as its expression. *)
Lemma compile_sentence filter layer l fin e : is_text filter -> tokens_of filter layer = LTokens (l ++ [fin]) -> gor 1024 l e ->
  expr_ok layer e /\ WinDivertCompileFilter filter layer = compile_expr e.
Proof.
  intros T L G. destruct (tokens_shape _ _ _ L) as (l' & fin' & E & K & F & W & _). apply app_inj_tail in E. destruct E as [<- <-].
  destruct (grammar_ok layer) as (_ & _ & O). split; [exact (O _ _ _ G F)|].
  unfold is_text in T. unfold WinDivertCompileFilter. apply Z.eqb_neq in T. rewrite T. fold (tokens_of filter layer).
  rewrite L, (sentence_parsed _ _ _ _ _ L G), K. reflexivity.
Qed.

(** The object of a compiled text. *)
Lemma compile_executes filter layer obj : is_text filter -> WinDivertCompileFilter filter layer = COk obj ->
  wf_filter layer obj = true /\
  exists l fin e, tokens_of filter layer = LTokens (l ++ [fin]) /\ gor 1024 l e /\
    (plain_expr e = true -> forall a, a_layer a = layer -> args_ok a -> args_range a ->
     WinDivertExecuteFilter obj a = VRet (b2z (expr_holds (test_means a) e))).
Proof.
  intros T C. destruct (compile_stages _ _ _ T C) as (l & fin & e & L & _ & F & G & E).
  destruct (grammar_ok layer) as (_ & _ & O). specialize (O _ _ _ G F).
  pose proof (compile_expr_ok layer e O) as H. rewrite E in H. destruct H as (_ & [W _] & X). split; [exact W|].
  exists l, fin, e. split; [exact L|]. split; [exact G|]. intros P a <- Ha R. rewrite (X a eq_refl Ha).
  now rewrite (expr_sound a Ha R e O P).
Qed.

Lemma filter_compiled filter layer f : wd_filter_compile filter layer = Some (inr f) ->
  wf_layer f = layer /\ WinDivertCompileFilter filter layer = COk (wf_object f) /\
  wf_flags f = WinDivertAnalyzeFilter layer (wf_object f).
Proof.
  unfold wd_filter_compile. destruct (WinDivertCompileFilter filter layer); try discriminate.
  intros [= <-]. auto.
Qed.

(** The indices of a compiled filter can be serialized without overflow,
    whether it was compiled from a text or read from an object string. *)
Lemma compiled_indices filter layer obj : WinDivertCompileFilter filter layer = COk obj ->
  forallb index_fits obj = true.
Proof.
  destruct (Z.eq_dec (char0 filter) 64) as [T|T].
  - unfold WinDivertCompileFilter. rewrite T. cbn [Z.eqb Pos.eqb].
    destruct (WinDivertDeserializeFilter (filter ++ [NUL])) as [o| |] eqn:D; try discriminate. intros [= ->].
    unfold WinDivertDeserializeFilter in D.
    destruct (WinDivertDeserializeFilterHeader _) as [[len s]| |]; try discriminate D.
    destruct (deserialize_tests _ _ _ _) as [[r s']| |] eqn:E; try discriminate D.
    destruct (WinDivertGetChar s') as [c ?]. case_if_in D; [|discriminate D]. injection D as ->.
    exact (deserialize_tests_fit _ _ _ _ _ _ E).
  - intros C. destruct (compile_stages _ _ _ T C) as (l & fin & e & L & _ & F & G & E).
    destruct (grammar_ok layer) as (_ & _ & O). pose proof (compile_expr_ok layer e (O _ _ _ G F)) as H.
    rewrite E in H. apply H.
Qed.

(** ** Addresses and packets *)

(** The members of an address in the ranges of their types. *)
Record address_range (addr : WINDIVERT_ADDRESS) : Prop := {
  dr_event : 0 <= Event addr <= WINDIVERT_EVENT_MAX;
  dr_time : - 2 ^ 63 < Timestamp addr < 2 ^ 63;
  dr_network : is_u32 (IfIdx (Network addr)) /\ is_u32 (SubIfIdx (Network addr));
  dr_flow : let d := Flow addr in
    0 <= EndpointId d < 2 ^ 64 /\ 0 <= ParentEndpointId d < 2 ^ 64 /\ is_u32 (ProcessId d) /\
    wf128 (LocalAddr d) /\ wf128 (RemoteAddr d) /\ 0 <= LocalPort d < 2 ^ 16 /\
    0 <= RemotePort d < 2 ^ 16 /\ 0 <= Protocol d < 2 ^ 8;
  dr_reflect : is_u32 (ReflProcessId (Reflect addr)) /\
    - WINDIVERT_PRIORITY_MAX <= ReflPriority (Reflect addr) <= WINDIVERT_PRIORITY_MAX
}.

Lemma address_time addr : address_range addr -> Timestamp addr <> INT64_MIN.
Proof. intros []. unfold INT64_MIN. lia. Qed.

Lemma ext_loop_protocol p : bytes p -> forall fuel s, is_byte (x_protocol s) -> is_byte (x_protocol (ext_loop fuel p s)).
Proof.
  intros Hp. induction fuel as [|fuel IH]; intros s Hs; cbn [ext_loop]; [exact Hs|]. case_if; [|exact Hs].
  unfold ext_header. repeat case_if; try exact Hs; cbn [x_data_len x_data x_protocol]; try case_if;
    try exact Hs; try (apply IH; apply byte_at_range, Hp).
Qed.

Lemma parse_ranges p info : bytes p -> WinDivertHelperParsePacketEx p = Some info ->
  20 <= zlen p /\ 0 <= PktProtocol info < 2 ^ 8 /\ 0 <= PayloadLength info < 2 ^ 16.
Proof.
  intros Hp. unfold WinDivertHelperParsePacketEx. destruct (Z.ltb_spec (zlen p) 20); [discriminate|].
  destruct (if ip_Version p 0 =? 4 then _ else _) as [i|] eqn:E; [|discriminate]. intros [= <-].
  cbn [PktProtocol PayloadLength]. split; [lia|]. split; [|apply Z.mod_pos_bound; lia].
  change (is_byte (x_protocol (ip_ext i))). destruct (ip_Version p 0 =? 4).
  - unfold parse_ipv4 in E. do 2 (case_if_in E; [discriminate|]). injection E as <-. apply byte_at_range, Hp.
  - destruct (ip_Version p 0 =? 6); [|discriminate]. unfold parse_ipv6 in E. case_if_in E; [discriminate|].
    injection E as <-. apply ext_loop_protocol; [exact Hp|]. apply byte_at_range, Hp.
Qed.

Lemma eval_args_range addr p info : address_range addr -> bytes p -> zlen p <= WINDIVERT_MTU_MAX ->
  WinDivertHelperParsePacketEx p = Some info \/
  (info = no_packet /\ Layer addr <> LAYER_NETWORK /\ Layer addr <> LAYER_NETWORK_FORWARD) ->
  args_range (eval_args addr p info).
Proof.
  intros [D1 D2 D3 D4 D5] Hp Hl H.
  assert (I : (Layer addr = LAYER_NETWORK \/ Layer addr = LAYER_NETWORK_FORWARD -> 20 <= zlen p) /\
    0 <= PktProtocol info < 2 ^ 8 /\ 0 <= PayloadLength info < 2 ^ 16).
  { destruct H as [H|(-> & N1 & N2)]; [|cbn; repeat split; try lia; intros [?|?]; congruence].
    destruct (parse_ranges p info Hp H) as (A & B & C). auto. }
  destruct I as (I1 & I2 & I3). unfold eval_args. split; cbn; auto.
  - lia.
  - intros d. destruct (Layer addr); intros [= <-]; exact D3.
  - intros d. destruct (Layer addr); intros [H'|H']; try discriminate H'; injection H' as <-; exact D4.
  - intros d. destruct (Layer addr); intros [= <-]; exact D5.
Qed.

(** ** Theorems *)

(** C3. A filter text decides packets as it reads. Let [e] be what the grammar
    makes of the text. For a packet that parses and matches the address,
    [wd_filter_eval] with the compiled filter returns the truth value of [e]:
    [and], [or], [not] and if-then-else over comparisons of integers. This
    holds for texts whose tests are [plain_expr], which the simplification
    treats soundly: no constant -0, no constant beyond 32 bits for a field
    without known bounds, and no constant outside the bounds of the field that
    decides a test of an array or of a field whose header may be missing. For
    the others see [FindingsLang]. *)
Theorem text_decides_packets text layer f l fin e addr p info :
  is_text text -> wd_filter_compile text layer = Some (inr f) ->
  tokens_of text layer = LTokens (l ++ [fin]) -> gor 1024 l e -> plain_expr e = true ->
  address_range addr -> bytes p -> zlen p <= WINDIVERT_MTU_MAX -> Layer addr = layer ->
  layer = LAYER_NETWORK \/ layer = LAYER_NETWORK_FORWARD -> WinDivertHelperParsePacketEx p = Some info ->
  (if IPv6 addr then IPv6Header info <> None else IPHeader info <> None) ->
  wd_filter_eval f (Some p) addr = VRet (b2z (expr_holds (test_means (eval_args addr p info)) e)).
Proof.
  intros T C L G P D Hp Hl La Ln Hi Hv. destruct (filter_compiled _ _ _ C) as (Lf & Cf & _).
  destruct (compile_executes _ _ _ T Cf) as (W & l' & fin' & e' & L' & G' & X).
  rewrite L in L'. injection L' as E. apply app_inj_tail in E. destruct E as [<- <-].
  rewrite (sentence_unique _ _ _ _ _ _ L G' G) in X. subst layer.
  assert (Hz : zlen p < 2 ^ 31) by (unfold WINDIVERT_MTU_MAX in Hl; lia). pose proof (address_time addr D) as Ht.
  rewrite (wd_filter_eval_packet f p addr info) by (try rewrite Lf; auto).
  rewrite <- (X P (eval_args addr p info)); [|reflexivity|apply eval_args_ok; auto|apply eval_args_range; auto].
  symmetry. apply ExecuteFilter_accepts; [apply eval_args_ok; auto|exact W].
Qed.

(** C15. The compiler accepts exactly the sentences that fit: a text that
    splits into tokens is compiled to an object if and only if the grammar
    derives the tokens as an expression of at most 256 instructions, by a
    derivation within the recursion depth of 1024 that the compiler allows
    ([gor 1024]; each pair of parentheses takes three levels). *)
Theorem compile_accepts filter layer l fin : is_text filter -> tokens_of filter layer = LTokens (l ++ [fin]) ->
  (exists obj, WinDivertCompileFilter filter layer = COk obj) <->
  (exists e, gor 1024 l e /\ test_count e <= WINDIVERT_FILTER_MAXLEN).
Proof.
  intros T L. split.
  - intros [obj C]. destruct (compile_stages _ _ _ T C) as (l' & fin' & e & L' & _ & F & G & E).
    rewrite L in L'. injection L' as L'. apply app_inj_tail in L'. destruct L' as [<- _].
    destruct (grammar_ok layer) as (_ & _ & O). pose proof (compile_expr_ok layer e (O _ _ _ G F)) as H.
    rewrite E in H. exists e. split; [exact G|apply H].
  - intros (e & G & N). destruct (compile_sentence _ _ _ _ _ T L G) as [O ->]. pose proof (compile_expr_ok layer e O) as H.
    destruct (compile_expr e) as [|err|obj]; [contradiction|lia|now exists obj].
Qed.

(** Compiling is undefined in three cases only: the tokenizer reads outside
    the words of an IPv6 address, the condition of an if-then-else did not
    parse and is a NULL pointer, or an index of an object string overflows.
    Everything else is an object or an error. *)
Theorem compile_undefined filter layer : WinDivertCompileFilter filter layer = CUndef ->
  (char0 filter = 64 /\ WinDivertDeserializeFilter (filter ++ [NUL]) = ReadUndef) \/
  tokens_of filter layer = LUndef \/
  exists toks e rest, tokens_of filter layer = LTokens toks /\
    WinDivertParseFilter parse_depth false toks = POk e rest /\ null_free e = false.
Proof.
  unfold WinDivertCompileFilter. destruct (Z.eqb_spec (char0 filter) 64);
    [destruct (WinDivertDeserializeFilter _); try discriminate; auto|]. intros H. right. revert H.
  fold (tokens_of filter layer). destruct (tokens_of filter layer) as [toks|e|] eqn:L; [|discriminate|now left].
  intros H. right. destruct (tokens_shape _ _ _ L) as (l & fin & -> & K & F & N & D).
  destruct (parser_safe parse_depth) as [S _]. specialize (S false _ D).
  destruct (WinDivertParseFilter parse_depth false (l ++ [fin])) as [|e r|e rest] eqn:P; [destruct S|discriminate H|].
  exists (l ++ [fin]), e, rest. split; [reflexivity|]. split; [exact P|].
  destruct (null_free e) eqn:Nf; [|reflexivity]. exfalso. destruct rest as [|t rest]; [exact S|].
  destruct (kind_eqb (kind t) TOKEN_END) eqn:Kt; [|discriminate H]. apply kind_eqb_eq in Kt. cbn [negb] in H.
  destruct (parser_sound parse_depth) as (_ & _ & Q). destruct (Q _ _ _ N P Nf) as (m & E & G & _).
  rewrite (stops_at_end layer l fin m t rest F E Kt) in G. destruct (grammar_ok layer) as (_ & _ & O).
  pose proof (compile_expr_ok layer e (O _ _ _ G F)) as X. rewrite H in X. exact X.
Qed.

(** A filter text, and one whose condition does not parse. *)
Module ExText.
Definition text : list Z := Eval vm_compute in chars "udp.DstPort == 53 and not loopback".
Definition filter : wd_filter := Eval vm_compute in
  match wd_filter_compile text LAYER_NETWORK with Some (inr f) => f | _ => mkWdFilter LAYER_NETWORK 0 [] end.
Definition tokens : list TOKEN := Eval vm_compute in
  match tokens_of text LAYER_NETWORK with LTokens l => removelast l | _ => [] end.
Definition fin : TOKEN := Eval vm_compute in
  match tokens_of text LAYER_NETWORK with LTokens l => last l (mkToken TOKEN_END None zero128) | _ => mkToken TOKEN_END None zero128 end.
Definition expr : EXPR := Eval vm_compute in
  match WinDivertParseFilter parse_depth false (tokens ++ [fin]) with POk e _ => e | _ => ENull end.
Definition info : WINDIVERT_PACKET := Eval vm_compute in
  match WinDivertHelperParsePacketEx ex_udp with Some i => i | None => no_packet end.
Definition null_text : list Z := Eval vm_compute in chars "( ? true : true)".
End ExText.

Lemma text_decides_packets_witness :
  wd_filter_eval ExText.filter (Some ex_udp) ex_address =
  VRet (b2z (expr_holds (test_means (eval_args ex_address ex_udp ExText.info)) ExText.expr)).
Proof.
  apply (text_decides_packets ExText.text LAYER_NETWORK ExText.filter ExText.tokens ExText.fin).
  - vm_compute. discriminate.
  - vm_compute. reflexivity.
  - vm_compute. reflexivity.
  - apply (parsed_sentence ExText.text LAYER_NETWORK _ ExText.fin); vm_compute; reflexivity.
  - vm_compute. reflexivity.
  - split; vm_compute; intuition discriminate.
  - exact ex_udp_bytes.
  - vm_compute. discriminate.
  - reflexivity.
  - left. reflexivity.
  - vm_compute. reflexivity.
  - vm_compute. discriminate.
Defined.

Lemma compile_accepts_witness :
  exists e, gor 1024 ExText.tokens e /\ test_count e <= WINDIVERT_FILTER_MAXLEN.
Proof.
  apply (compile_accepts ExText.text LAYER_NETWORK ExText.tokens ExText.fin).
  - vm_compute. discriminate.
  - vm_compute. reflexivity.
  - exists (wf_object ExText.filter). vm_compute. reflexivity.
Defined.

Lemma compile_undefined_witness :
  tokens_of ExText.null_text LAYER_NETWORK = LUndef \/
  exists toks e rest, tokens_of ExText.null_text LAYER_NETWORK = LTokens toks /\
    WinDivertParseFilter parse_depth false toks = POk e rest /\ null_free e = false.
Proof.
  destruct (compile_undefined ExText.null_text LAYER_NETWORK) as [[H _]|H]; [vm_compute; reflexivity|discriminate H|exact H].
Defined.
