(* ===== verification/WdHeap.v ===== *)
(** * The memory pool of the filter compiler

    The pool of [src/wd/wd_port.c], from which the compiler and the formatter
    of filters take their memory: [HeapCreate] and [HeapAlloc] keep the sum
    of the sizes below the maximum, and [WinDivertCompileFilter] takes the
    token array, the stack and one [EXPR] after the other.  [malloc] itself
    succeeds.  Sizes are those of a 64-bit machine. *)

From Stdlib Require Import ZArith List Bool Lia ZifyBool.
From S2P Require Import Prelude WdTypes WdPacket WdExec WdSerial WdAddr WdLex WdParse WdCompile.
Import ListNotations.
#[local] Open Scope Z_scope.

(** ** The pool *)

Record wd_heap : Set := mkHeap { h_used : Z; h_maximum : Z }.

Definition HeapCreate (maximum : Z) : wd_heap := mkHeap 0 maximum.

(** Whether the allocation succeeded, and the pool. *)
Definition HeapAlloc (heap : wd_heap) (size : Z) : bool * wd_heap :=
  if negb (h_maximum heap =? 0) && (h_used heap + size >? h_maximum heap) then (false, heap)
  else (true, mkHeap (h_used heap + size) (h_maximum heap)).

Definition WINDIVERT_MAX_POOL_SIZE : Z := 131072.

Definition sizeof_EXPR : Z := 32.
Definition sizeof_PEXPR : Z := 8.
Definition sizeof_TOKEN : Z := 24.
Definition sizeof_WINDIVERT_FILTER : Z := 24.

(** The pool together with the last error, [None] while it was not set. *)
Record pool : Set := mkPool { p_heap : wd_heap; p_error : option Z }.

(** The allocation of an [EXPR]; a failure sets the last error. *)
Definition pool_expr (p : pool) : bool * pool :=
  let '(ok, heap) := HeapAlloc (p_heap p) sizeof_EXPR in
  (ok, mkPool heap (if ok then p_error p else Some ENOMEM)).

(** [n] of them, up to the first that fails. *)
Fixpoint pool_exprs (n : nat) (p : pool) : bool * pool :=
  match n with
  | O => (true, p)
  | S n => let '(ok, p) := pool_expr p in if ok then pool_exprs n p else (false, p)
  end.

(** ** What the compiler allocates *)

(** For a text that parses: the parser allocates an [EXPR] for an array
    variable ([WinDivertMakeArrayVar], counted at its bracket), for the number
    behind a comparison ([WinDivertMakeNumber], at the comparison), for a test
    ([WinDivertMakeBinOp], at its variable), for [and] and [or]
    ([WinDivertMakeBinOp]) and for an if-then-else
    ([WinDivertMakeIfThenElse]). *)
Definition token_allocs (k : KIND) : nat :=
  match k with
  | TOKEN_SQUARE_OPEN | TOKEN_AND | TOKEN_OR | TOKEN_QUESTION => 1
  | _ =>
    if is_comparison k || is_var k then 1
    else match array_size k with Some _ => 1 | None => 0 end
  end.

Definition parse_allocs (tokens : list TOKEN) : nat := list_sum (map (fun t => token_allocs (kind t)) tokens).

(** The pool when [WinDivertCompileFilter] has compiled a text. *)
Definition compile_pool (filter : list Z) (layer : WINDIVERT_LAYER) (heap : wd_heap) : bool * pool :=
  if char0 filter =? 64 then (true, mkPool heap None)
  else
    let '(tokens_ok, heap) := HeapAlloc heap (5 * WINDIVERT_FILTER_MAXLEN * sizeof_TOKEN) in
    let '(stack_ok, heap) := HeapAlloc heap (WINDIVERT_FILTER_MAXLEN * sizeof_PEXPR) in
    if negb tokens_ok || negb stack_ok then (false, mkPool heap (Some ENOMEM))
    else
      match WinDivertTokenizeFilter filter layer (5 * WINDIVERT_FILTER_MAXLEN - 1) with
      | LTokens tokens => pool_exprs (parse_allocs tokens) (mkPool heap None)
      | _ => (true, mkPool heap None)
      end.

(** The pool with the array for the object, as the helper functions make it
    before they compile. *)
Definition object_heap : wd_heap :=
  snd (HeapAlloc (HeapCreate WINDIVERT_MAX_POOL_SIZE) (WINDIVERT_FILTER_MAXLEN * sizeof_WINDIVERT_FILTER)).

(** ** The memory suffices *)

Definition pool_max (p : pool) : Z := h_maximum (p_heap p).

(** How many expressions still fit. *)
Definition room (p : pool) : Z := (pool_max p - h_used (p_heap p)) / sizeof_EXPR.

(** [p'] is [p] after at most [k] allocations, none of which failed. *)
Definition spent (k : Z) (p p' : pool) : Prop :=
  pool_max p' = pool_max p /\ p_error p' = p_error p /\ room p - k <= room p' <= room p.

Lemma spent_none p : spent 0 p p.
Proof. repeat split; lia. Qed.

Lemma spent_more k n p q : k <= n -> spent k p q -> spent n p q.
Proof. intros H (M & E & R). repeat split; auto; lia. Qed.

Lemma spent_trans k n p q r : spent k p q -> spent n q r -> spent (k + n) p r.
Proof. intros (M & E & R) (M' & E' & R'). repeat split; try congruence; lia. Qed.

Lemma pool_expr_ok p : pool_max p <> 0 -> 1 <= room p -> exists p', pool_expr p = (true, p') /\ spent 1 p p'.
Proof.
  destruct p as [[u m] e]. unfold spent, room, pool_expr, HeapAlloc, pool_max, sizeof_EXPR. cbn [p_heap p_error h_used h_maximum].
  intros M R. replace (u + 32 >? m) with false by (Z.to_euclidean_division_equations; lia). rewrite andb_false_r.
  eexists. split; [reflexivity|]. cbn [p_heap p_error h_used h_maximum]. repeat split; Z.to_euclidean_division_equations; lia.
Qed.

Lemma pool_expr_done p p' : pool_expr p = (true, p') -> p_error p' = p_error p /\ pool_max p' = pool_max p.
Proof. unfold pool_expr, HeapAlloc. destruct (_ && _); intros E; inversion E. now split. Qed.

(** Without room the last error tells. *)
Lemma pool_expr_full p p' : pool_expr p = (false, p') -> p_error p' = Some ENOMEM /\ pool_max p' = pool_max p.
Proof. unfold pool_expr, HeapAlloc. destruct (_ && _); intros E; inversion E. now split. Qed.

Lemma pool_exprs_ok : forall n p, pool_max p <> 0 -> Z.of_nat n <= room p ->
  exists p', pool_exprs n p = (true, p') /\ spent (Z.of_nat n) p p'.
Proof.
  induction n as [|n IH]; intros p M R; [exists p; split; [reflexivity|apply spent_none]|].
  cbn [pool_exprs]. destruct (pool_expr_ok p M) as (q & -> & Q); [lia|].
  destruct (IH q) as (r & E & T); [now rewrite (proj1 Q)|destruct Q as (_ & _ & Q); lia|].
  exists r. split; [exact E|]. replace (Z.of_nat (S n)) with (1 + Z.of_nat n) by lia. eapply spent_trans; eassumption.
Qed.

Lemma parse_allocs_bound tokens : Z.of_nat (parse_allocs tokens) <= zlen tokens.
Proof.
  unfold parse_allocs. induction tokens as [|t l IH]; [apply Z.le_refl|]. rewrite zlen_cons. cbn [map list_sum].
  assert (token_allocs (kind t) <= 1)%nat.
  { unfold token_allocs. destruct (kind t); try lia; destruct (_ || _); try lia; destruct (array_size _); lia. }
  unfold list_sum in *. cbn [fold_right]. lia.
Qed.

(** The pool is large enough for every filter text: whatever the text, no
    allocation of the compiler fails, and 1602 more expressions fit. *)
Theorem compile_pool_suffices filter layer : exists p, compile_pool filter layer object_heap = (true, p) /\
  pool_max p = WINDIVERT_MAX_POOL_SIZE /\ p_error p = None /\ 1602 <= room p.
Proof.
  unfold compile_pool. change object_heap with (mkHeap 6144 131072).
  case_if; [eexists; repeat split; vm_compute; discriminate|].
  change (HeapAlloc (mkHeap 6144 131072) (5 * WINDIVERT_FILTER_MAXLEN * sizeof_TOKEN)) with (true, mkHeap 36864 131072).
  cbv beta iota. change (HeapAlloc (mkHeap 36864 131072) (WINDIVERT_FILTER_MAXLEN * sizeof_PEXPR)) with (true, mkHeap 38912 131072).
  cbv beta iota. cbn [negb orb]. set (p := mkPool (mkHeap 38912 131072) None). assert (R : room p = 2880) by reflexivity.
  destruct (WinDivertTokenizeFilter filter layer (5 * WINDIVERT_FILTER_MAXLEN - 1)) as [l|e|] eqn:E.
  2,3: exists p; repeat split; rewrite R; lia.
  destruct (proj2 (tokenize_wf filter layer _) l E) as (_ & _ & _ & _ & _ & _ & Z).
  pose proof (parse_allocs_bound l) as B. change (5 * WINDIVERT_FILTER_MAXLEN - 1 - 1) with 1278 in Z.
  destruct (pool_exprs_ok (parse_allocs l) p) as (q & -> & M & X & Q); [discriminate|lia|].
  exists q. repeat split; [exact M|exact X|lia].
Qed.
