(* ===== verification/WdApi.v ===== *)
(** * The helper functions of the library

    The functions of [src/wd/windivert_helper.c] and [src/wd/wd_port.c] that
    take a filter as text: [WinDivertHelperCompileFilter],
    [WinDivertHelperEvalFilter], [wd_eval_filter_string]; the old parser
    interface [WinDivertHelperParsePacket] with [WinDivertHelperHashPacket];
    the byte order helpers; and their public wrappers of [src/ebpfdivert.c].

    A NULL pointer is [None].  What a function returns is paired with the last
    error it sets, [None] where it sets none. *)

From Stdlib Require Import Ascii String ZArith List Bool Lia ZifyBool.
From S2P Require Import Prelude WdTypes WdPacket WdHash WdExec WdHelper WdSerial WdAddr WdLex WdParse WdAnalyze WdCompile.
From S2P Require Import WdMeaning WdHeap.
Import ListNotations.
#[local] Open Scope list_scope.
#[local] Open Scope Z_scope.

(** ** Parsing *)

(** What [WinDivertHelperParsePacket] stores where it is asked to. *)
Record parse_out : Set := mkParseOut {
  o_protocol : Z;
  o_ip : option Z;
  o_ipv6 : option Z;
  o_icmp : option Z;
  o_icmpv6 : option Z;
  o_tcp : option Z;
  o_udp : option Z;
  o_data : option Z;
  o_data_len : Z;
  o_next : option Z;
  o_next_len : Z
}.

Definition WinDivertHelperParsePacket (p : list Z) : option parse_out :=
  match WinDivertHelperParsePacketEx p with
  | None => None
  | Some info =>
    if Truncated info then None
    else
      let len := HeaderLength info + PayloadLength info in
      Some (mkParseOut (PktProtocol info) (IPHeader info) (IPv6Header info) (ICMPHeader info) (ICMPv6Header info)
        (TCPHeader info) (UDPHeader info) (Payload info) (PayloadLength info)
        (if Extended info then Some len else None) (if Extended info then u32 (zlen p - len) else 0))
  end.

Definition WinDivertHelperHashPacket (p : list Z) (seed : Z) : Z :=
  match WinDivertHelperParsePacket p with
  | None => 0
  | Some o => WinDivertHashPacket p seed (o_ip o) (o_ipv6 o) (o_icmp o) (o_icmpv6 o) (o_tcp o) (o_udp o)
  end.

Definition wd_hash_packet (p : list Z) (seed : Z) : Z := WinDivertHelperHashPacket p seed.

(** ** Compiling *)

Definition WinDivertErrorString (code : option ERROR_CODE) : string :=
  match code with
  | None => "No error"
  | Some WINDIVERT_ERROR_NO_MEMORY => "Out of memory"
  | Some WINDIVERT_ERROR_TOO_DEEP => "Filter expression too deep"
  | Some WINDIVERT_ERROR_TOO_LONG => "Filter expression too long"
  | Some WINDIVERT_ERROR_BAD_TOKEN => "Filter expression contains a bad token"
  | Some WINDIVERT_ERROR_BAD_TOKEN_FOR_LAYER => "Filter expression contains a bad token for layer"
  | Some WINDIVERT_ERROR_UNEXPECTED_TOKEN => "Filter expression parse error"
  | Some WINDIVERT_ERROR_INDEX_OOB => "Filter expression array index is out-of-bounds"
  | Some WINDIVERT_ERROR_OUTPUT_TOO_SHORT => "Filter object buffer is too short"
  | Some WINDIVERT_ERROR_BAD_OBJECT => "Filter object is invalid"
  | Some WINDIVERT_ERROR_ASSERTION_FAILED => "Internal assertion failed"
  end.

(** The result, the message and its position where one is stored, and the
    buffer of the object. *)
Record compile_out : Set := mkCompileOut {
  co_ok : bool;
  co_message : option (string * option Z);
  co_object : list Z
}.

Definition compile_error (e : ERROR) (object : list Z) : compile_out :=
  mkCompileOut false (Some (WinDivertErrorString (Some (GET_CODE e)), GET_POS e)) object.

(** [object] is the size of the buffer for the object, if there is one. *)
Definition WinDivertHelperCompileFilter (filter : option (list Z)) (layer : WINDIVERT_LAYER) (object : option Z)
    : option compile_out :=
  match filter with
  | None => Some (mkCompileOut false None [])
  | Some filter =>
    match WinDivertCompileFilter filter layer with
    | CUndef => None
    | CErr e => Some (compile_error e [])
    | COk obj =>
      match object with
      | None => Some (mkCompileOut true (Some (WinDivertErrorString None, Some 0)) [])
      | Some obj_len =>
        match WinDivertSerializeFilter (mkStream [] obj_len false) obj with
        | None => None
        | Some s =>
          if s_overflow s then Some (compile_error (MAKE_ERROR WINDIVERT_ERROR_OUTPUT_TOO_SHORT (Some 0)) (s_out s))
          else Some (mkCompileOut true (Some (WinDivertErrorString None, Some 0)) (s_out s))
        end
      end
    end
  end.

(** [ebpfdivert_helper_compile_filter]: the value returned, the message, and
    the position, 0 where the compiler stored none. *)
Definition ebpfdivert_helper_compile_filter (filter : list Z) (layer : WINDIVERT_LAYER)
    : option (Z * option string * option Z) :=
  match wd_filter_compile filter layer with
  | None => None
  | Some (inl (err, e)) => Some (err, Some (WinDivertErrorString (Some (GET_CODE e))), GET_POS e)
  | Some (inr _) => Some (0, None, Some 0)
  end.

(** ** Evaluating *)

(** [TRUE], [FALSE] with the last error, or undefined behaviour. *)
Inductive evaluated : Set := EvUndef | EvTrue | EvFalse (err : Z).

(** The packet as the evaluator sees it; [None] is an invalid parameter. *)
Definition eval_packet (packet : option (list Z)) (addr : WINDIVERT_ADDRESS) : option (list Z * WINDIVERT_PACKET) :=
  match Layer addr with
  | LAYER_NETWORK | LAYER_NETWORK_FORWARD =>
    match packet with
    | None => None
    | Some p =>
      match WinDivertHelperParsePacketEx p with
      | None => None
      | Some info =>
        if (IPv6 addr && negb (non_null (IPv6Header info))) || (negb (IPv6 addr) && negb (non_null (IPHeader info)))
        then None else Some (p, info)
      end
    end
  | LAYER_FLOW | LAYER_SOCKET => match packet with Some _ => None | None => Some ([], no_packet) end
  | LAYER_REFLECT => Some (match packet with Some p => p | None => [] end, no_packet)
  end.

Definition WinDivertHelperEvalFilter (filter : option (list Z)) (packet : option (list Z))
    (addr : option WINDIVERT_ADDRESS) : evaluated :=
  match filter, addr with
  | Some filter, Some addr =>
    match eval_packet packet addr with
    | None => EvFalse ERROR_INVALID_PARAMETER
    | Some (bytes, info) =>
      match WinDivertCompileFilter filter (Layer addr) with
      | CUndef => EvUndef
      | CErr _ => EvFalse ERROR_INVALID_PARAMETER
      | COk object =>
        match WinDivertExecuteFilter object (eval_args addr bytes info) with
        | VUndef => EvUndef
        | VRet result =>
          if result <? 0 then EvFalse ERROR_INVALID_PARAMETER
          else if result =? 0 then EvFalse 0
          else EvTrue
        end
      end
    end
  | _, _ => EvFalse ERROR_INVALID_PARAMETER
  end.

Definition wd_eval_filter_string (filter : option (list Z)) (packet : option (list Z))
    (addr : option WINDIVERT_ADDRESS) : verdict :=
  match WinDivertHelperEvalFilter filter packet addr with
  | EvUndef => VUndef
  | EvTrue => VRet 1
  | EvFalse err => VRet (if err =? ERROR_SUCCESS then 0 else wd_errno err)
  end.

Definition ebpfdivert_helper_eval_filter := wd_eval_filter_string.

(** ** Byte order *)

Definition BYTESWAP64 (x : Z) : Z :=
  ((x >>> 56) &&& 0x00000000000000FF) ||| ((x >>> 40) &&& 0x000000000000FF00) |||
  ((x >>> 24) &&& 0x0000000000FF0000) ||| ((x >>> 8) &&& 0x00000000FF000000) |||
  ((x <<< 8) &&& 0x000000FF00000000) ||| ((x <<< 24) &&& 0x0000FF0000000000) |||
  ((x <<< 40) &&& 0x00FF000000000000) ||| ((x <<< 56) &&& 0xFF00000000000000).

Definition WinDivertHelperNtohs (x : Z) : Z := BYTESWAP16 x.
Definition WinDivertHelperHtons (x : Z) : Z := BYTESWAP16 x.
Definition WinDivertHelperNtohl (x : Z) : Z := BYTESWAP32 x.
Definition WinDivertHelperHtonl (x : Z) : Z := BYTESWAP32 x.
Definition WinDivertHelperNtohll (x : Z) : Z := BYTESWAP64 x.
Definition WinDivertHelperHtonll (x : Z) : Z := BYTESWAP64 x.

(** [tmp[3 - i] = BYTESWAP32(inAddr[i])]. *)
Definition WinDivertByteSwap128 (a : u128) : u128 :=
  W128 (BYTESWAP32 (w3 a)) (BYTESWAP32 (w2 a)) (BYTESWAP32 (w1 a)) (BYTESWAP32 (w0 a)).

Definition WinDivertHelperNtohIPv6Address (a : u128) : u128 := WinDivertByteSwap128 a.
Definition WinDivertHelperHtonIPv6Address (a : u128) : u128 := WinDivertByteSwap128 a.

(** ** Filter strings and filter objects *)

(** Both evaluators look at the same packet. *)
Lemma eval_packet_args packet addr f : Layer addr = wf_layer f ->
  (Layer addr = LAYER_FLOW \/ Layer addr = LAYER_SOCKET -> packet = None) ->
  wd_filter_eval f packet addr =
  match eval_packet packet addr with
  | None => VRet (- EINVAL)
  | Some (bytes, info) =>
    match WinDivertExecuteFilter (object_array (wf_object f)) (eval_args addr bytes info) with
    | VUndef => VUndef
    | VRet r => if r <? 0 then VRet (- EINVAL) else VRet (b2z (negb (r =? 0)))
    end
  end.
Proof.
  intros L P. unfold wd_filter_eval, eval_packet. rewrite <- L. unfold layer_eqb. rewrite Z.eqb_refl. cbn [negb].
  destruct (Layer addr); try (rewrite P by auto; reflexivity); try reflexivity;
    (destruct packet as [p|]; [|reflexivity]); (destruct (WinDivertHelperParsePacketEx p); [|reflexivity]);
    destruct (_ || _); reflexivity.
Qed.

Lemma eval_packet_ok packet addr b info : Timestamp addr <> INT64_MIN -> (forall p, packet = Some p -> bytes p /\ zlen p < 2 ^ 31) ->
  eval_packet packet addr = Some (b, info) -> args_ok (eval_args addr b info).
Proof.
  intros Ht P E. assert (N : bytes (@nil Z) /\ zlen (@nil Z) < 2 ^ 31) by (split; [constructor|reflexivity]).
  assert (X : bytes b /\ zlen b < 2 ^ 31 /\ (WinDivertHelperParsePacketEx b = Some info \/ info = no_packet)).
  { unfold eval_packet in E. destruct (Layer addr), packet as [p|]; try discriminate E;
      try (destruct (WinDivertHelperParsePacketEx p) eqn:X; [destruct (_ || _); [discriminate E|]|discriminate E]);
      injection E as <- <-; try destruct (P p eq_refl); try destruct N; auto. }
  destruct X as (Hb & Hl & Hi). now apply eval_args_ok.
Qed.

(** Evaluating a filter string is compiling it and evaluating the filter:
    [wd_eval_filter_string] returns what [wd_filter_eval] returns for the
    filter [wd_filter_compile] makes of the string, for every packet and
    address (the smallest time stamp apart), and [-EINVAL] for a string that does not compile.  The two differ
    only for an event of the FLOW and SOCKET layers that comes with a
    packet. *)
Theorem eval_string_agrees filter packet addr r : wd_filter_compile filter (Layer addr) = Some r ->
  Timestamp addr <> INT64_MIN ->
  (forall f, r = inr f -> wf_filter (Layer addr) (wf_object f) = true) ->
  (Layer addr = LAYER_FLOW \/ Layer addr = LAYER_SOCKET -> packet = None) ->
  (forall p, packet = Some p -> bytes p /\ zlen p < 2 ^ 31) ->
  wd_eval_filter_string (Some filter) packet (Some addr) =
  match r with inl _ => VRet (- EINVAL) | inr f => wd_filter_eval f packet addr end.
Proof.
  intros C Ht W P B. unfold wd_filter_compile in C. unfold wd_eval_filter_string, WinDivertHelperEvalFilter.
  destruct (WinDivertCompileFilter filter (Layer addr)) as [|e|obj] eqn:K; [discriminate C|injection C as <-|injection C as <-].
  { destruct (eval_packet packet addr) as [[b i]|]; reflexivity. }
  rewrite eval_packet_args by (reflexivity || exact P). cbn [wf_object].
  destruct (eval_packet packet addr) as [[b i]|] eqn:E; [|reflexivity].
  pose proof (eval_packet_ok _ _ _ _ Ht B E) as A. specialize (W _ eq_refl). cbn [wf_object] in W.
  rewrite ExecuteFilter_accepts, ExecuteFilter_object by (exact A || exact W).
  destruct (accepts _ obj 0); reflexivity.
Qed.

(** An object string is a filter: what [WinDivertHelperCompileFilter] writes
    for a text into a large enough buffer compiles, for any layer, to the
    object of the text. *)
Theorem object_string_compiles text layer layer' obj obj_len :
  WinDivertCompileFilter text layer = COk obj -> wf_filter layer obj = true -> forallb canonical obj = true ->
  zlen obj <= 255 -> zlen (filter_text obj) < obj_len ->
  exists object, WinDivertHelperCompileFilter (Some text) layer (Some obj_len) =
    Some (mkCompileOut true (Some (WinDivertErrorString None, Some 0)) (object ++ [NUL])) /\
  WinDivertCompileFilter object layer' = COk obj.
Proof.
  intros C W K L N. exists (filter_text obj). split.
  - unfold WinDivertHelperCompileFilter. rewrite C.
    pose proof (serialize_fits (mkWdFilter layer 0 obj) obj_len W (canonical_fits _ K) L N) as S.
    unfold wd_filter_serialize in S. cbn [wf_object] in S.
    destruct (WinDivertSerializeFilter _ obj) as [st|]; [|discriminate S].
    injection S as S1 S2. rewrite S2. destruct (s_overflow _); [|reflexivity].
    pose proof (zlen_nonneg (filter_text obj)). discriminate S1 || lia.
  - unfold WinDivertCompileFilter. change (char0 (filter_text obj) =? 64) with true. cbv iota.
    now rewrite (deserialize_filter_text layer).
Qed.

(** ** Byte order *)

(** A byte of [x], moved by [d] bits to bit [b]. *)
Lemma moved_right x d b n : 0 <= d -> 0 <= b -> 0 <= n ->
  Z.testbit ((x >>> d) &&& (255 <<< b)) n = ((b <=? n) && (n <? b + 8)) && Z.testbit x (n + d).
Proof.
  intros Hd Hb Hn. rewrite Z.land_spec, Z.shiftr_spec, Z.shiftl_spec by lia. change 255 with (Z.ones 8).
  rewrite Z.testbit_ones by lia. rewrite andb_comm. f_equal. lia.
Qed.

Lemma moved_left x d b n : 0 <= d -> 0 <= b -> 0 <= n ->
  Z.testbit ((x <<< d) &&& (255 <<< b)) n = ((b <=? n) && (n <? b + 8)) && Z.testbit x (n - d).
Proof.
  intros Hd Hb Hn. rewrite Z.land_spec, !Z.shiftl_spec by lia. change 255 with (Z.ones 8).
  rewrite Z.testbit_ones by lia. rewrite andb_comm. f_equal. lia.
Qed.

(** Bit [n] of a swapped word of [k] bytes. *)
Definition mirror (k n : Z) : Z := 8 * (k - 1 - n / 8) + n mod 8.

(** The bits of each byte in turn; only one of the moved bytes has them. *)
Ltac swap_byte :=
  repeat match goal with |- context [(?a <=? ?n) && (?n <? ?b)] =>
    (replace ((a <=? n) && (n <? b)) with true by lia) || (replace ((a <=? n) && (n <? b)) with false by lia) end;
  cbn [andb orb]; rewrite ?orb_false_r; f_equal; unfold mirror; Z.to_euclidean_division_equations; lia.

Ltac swap_bit n k :=
  repeat rewrite Z.lor_spec; repeat ((rewrite moved_right by lia) || (rewrite moved_left by lia));
  let rec go c := match c with
    | 0%nat => exfalso; lia
    | S ?c => let b := eval compute in (8 * (Z.of_nat k - Z.of_nat c)) in
              destruct (Z.lt_ge_cases n b); [swap_byte|go c]
    end in go k.

Lemma swap16_bit x n : 0 <= n < 16 -> Z.testbit (BYTESWAP16 x) n = Z.testbit x (mirror 2 n).
Proof.
  unfold BYTESWAP16. change 0x00FF with (255 <<< 0). change 0xFF00 with (255 <<< 8). intros Hn. swap_bit n 2%nat.
Qed.

Lemma swap32_bit x n : 0 <= n < 32 -> Z.testbit (BYTESWAP32 x) n = Z.testbit x (mirror 4 n).
Proof.
  unfold BYTESWAP32. change 0x000000FF with (255 <<< 0). change 0x0000FF00 with (255 <<< 8).
  change 0x00FF0000 with (255 <<< 16). change 0xFF000000 with (255 <<< 24). intros Hn. swap_bit n 4%nat.
Qed.

Lemma swap64_bit x n : 0 <= n < 64 -> Z.testbit (BYTESWAP64 x) n = Z.testbit x (mirror 8 n).
Proof.
  unfold BYTESWAP64. change 0x00000000000000FF with (255 <<< 0). change 0x000000000000FF00 with (255 <<< 8).
  change 0x0000000000FF0000 with (255 <<< 16). change 0x00000000FF000000 with (255 <<< 24).
  change 0x000000FF00000000 with (255 <<< 32). change 0x0000FF0000000000 with (255 <<< 40).
  change 0x00FF000000000000 with (255 <<< 48). change 0xFF00000000000000 with (255 <<< 56). intros Hn. swap_bit n 8%nat.
Qed.

Lemma mirror_twice k n : 0 <= n < 8 * k -> 0 <= mirror k n < 8 * k /\ mirror k (mirror k n) = n.
Proof. unfold mirror. intros H. split; Z.to_euclidean_division_equations; lia. Qed.

(** A function that mirrors the bits of a word is its own inverse. *)
Lemma mirrored_twice (f : Z -> Z) k x : 0 <= k -> 0 <= x < 2 ^ (8 * k) -> (forall y, 0 <= f y < 2 ^ (8 * k)) ->
  (forall y n, 0 <= n < 8 * k -> Z.testbit (f y) n = Z.testbit y (mirror k n)) -> f (f x) = x.
Proof.
  intros K R F M. apply Z.bits_inj'. intros n Hn. destruct (Z.lt_ge_cases n (8 * k)) as [H|H].
  - destruct (mirror_twice k n) as [B E]; [lia|]. now rewrite !M, E by lia.
  - assert (High : forall y, 0 <= y < 2 ^ (8 * k) -> Z.testbit y n = false).
    { intros y Hy. destruct (Z.eq_dec y 0) as [-> |]; [apply Z.testbit_0_l|]. apply Z.bits_above_log2; [lia|].
      assert (Z.log2 y < 8 * k) by (apply Z.log2_lt_pow2; lia). lia. }
    now rewrite !High.
Qed.

Ltac swap_range := repeat apply lor_bound; try apply land_bound; lia.

(** Converting the byte order twice gives the value back, at every width of
    the interface. *)
Theorem byte_order_involutive :
  (forall x, 0 <= x < 2 ^ 16 -> WinDivertHelperNtohs (WinDivertHelperHtons x) = x) /\
  (forall x, 0 <= x < 2 ^ 32 -> WinDivertHelperNtohl (WinDivertHelperHtonl x) = x) /\
  (forall x, 0 <= x < 2 ^ 64 -> WinDivertHelperNtohll (WinDivertHelperHtonll x) = x) /\
  (forall a, wf128 a -> WinDivertHelperNtohIPv6Address (WinDivertHelperHtonIPv6Address a) = a).
Proof.
  assert (S : forall x, 0 <= x < 2 ^ 32 -> BYTESWAP32 (BYTESWAP32 x) = x).
  { intros x H. apply (mirrored_twice BYTESWAP32 4); [lia|exact H| |exact swap32_bit]. intros y. unfold BYTESWAP32. swap_range. }
  split; [|split; [exact S|split]].
  - intros x H. apply (mirrored_twice BYTESWAP16 2); [lia|exact H| |exact swap16_bit]. intros y. unfold BYTESWAP16. swap_range.
  - intros x H. apply (mirrored_twice BYTESWAP64 8); [lia|exact H| |exact swap64_bit]. intros y. unfold BYTESWAP64. swap_range.
  - intros [a0 a1 a2 a3] (H0 & H1 & H2 & H3). unfold WinDivertHelperNtohIPv6Address, WinDivertHelperHtonIPv6Address, WinDivertByteSwap128.
    cbn [w0 w1 w2 w3] in *. now rewrite !S.
Qed.
