(* ===== verification/WdDecompile.v ===== *)
(** * Filter decompiler

    The first half of [WinDivertHelperFormatFilter] in
    [src/wd/windivert_helper.c]: a filter object is turned back into an
    expression.  [WinDivertDecompileTest] makes a node of every instruction,
    [WinDivertCoalesceAndOr] merges nodes into [and], [or] and [?:] patterns,
    guided by the reference counts of the nodes, and [WinDivertCoalesceExpr]
    unfolds what is left.

    An entry of [exprs] is a node or [NULL].  The nodes that a merged
    expression points to are only read for their expression, so a node is its
    expression with the continuations and the count.  [None] as the result of
    an operation is the use of a [NULL] or uninitialised entry.  Every
    expression is taken from the pool of [WdHeap], and a failed allocation
    has the effect the code gives it. *)

From Stdlib Require Import ZArith List Bool Lia ZifyBool.
From S2P Require Import Prelude WdTypes WdPacket WdExec WdHelper WdSerial WdAddr WdLex WdParse WdAnalyze WdCompile WdHeap.
Import ListNotations.
#[local] Open Scope Z_scope.

(** ** Data *)

(** The expressions the decompiler makes. *)
Inductive DEXPR : Set :=
| DTest (t : TEST_EXPR)
| DAnd (a b : DEXPR)
| DOr (a b : DEXPR)
| DQuestion (c t e : DEXPR)
| DTrue
| DFalse.

(** An [EXPR] with [succ], [fail] and its 8-bit [count]. *)
Record node : Set := mkNode {
  nd_expr : DEXPR;
  nd_succ : Z;
  nd_fail : Z;
  nd_count : Z
}.

Definition with_count (n : node) (c : Z) : node := mkNode (nd_expr n) (nd_succ n) (nd_fail n) c.

Definition exprs_array : Set := list (option node).

(** [exprs[i]] where it is a node. *)
Definition node_at (exprs : exprs_array) (i : Z) : option node :=
  if i <? 0 then None else match nth_error exprs (Z.to_nat i) with Some (Some n) => Some n | _ => None end.

Definition put (exprs : exprs_array) (i : Z) (o : option node) : exprs_array := set_nth (Z.to_nat i) o exprs.

(** ** One instruction *)

Definition field_kind (f : FIELD) : KIND :=
  match f with
  | FIELD_ZERO => TOKEN_ZERO | FIELD_EVENT => TOKEN_EVENT | FIELD_RANDOM8 => TOKEN_RANDOM8
  | FIELD_RANDOM16 => TOKEN_RANDOM16 | FIELD_RANDOM32 => TOKEN_RANDOM32 | FIELD_PACKET => TOKEN_PACKET
  | FIELD_PACKET16 => TOKEN_PACKET16 | FIELD_PACKET32 => TOKEN_PACKET32 | FIELD_LENGTH => TOKEN_LENGTH
  | FIELD_TIMESTAMP => TOKEN_TIMESTAMP | FIELD_TCP_PAYLOAD => TOKEN_TCP_PAYLOAD
  | FIELD_TCP_PAYLOAD16 => TOKEN_TCP_PAYLOAD16 | FIELD_TCP_PAYLOAD32 => TOKEN_TCP_PAYLOAD32
  | FIELD_UDP_PAYLOAD => TOKEN_UDP_PAYLOAD | FIELD_UDP_PAYLOAD16 => TOKEN_UDP_PAYLOAD16
  | FIELD_UDP_PAYLOAD32 => TOKEN_UDP_PAYLOAD32 | FIELD_INBOUND => TOKEN_INBOUND
  | FIELD_OUTBOUND => TOKEN_OUTBOUND | FIELD_FRAGMENT => TOKEN_FRAGMENT | FIELD_IFIDX => TOKEN_IF_IDX
  | FIELD_SUBIFIDX => TOKEN_SUB_IF_IDX | FIELD_IP => TOKEN_IP | FIELD_IPV6 => TOKEN_IPV6
  | FIELD_ICMP => TOKEN_ICMP | FIELD_TCP => TOKEN_TCP | FIELD_UDP => TOKEN_UDP
  | FIELD_ICMPV6 => TOKEN_ICMPV6 | FIELD_IP_HDRLENGTH => TOKEN_IP_HDR_LENGTH | FIELD_IP_TOS => TOKEN_IP_TOS
  | FIELD_IP_LENGTH => TOKEN_IP_LENGTH | FIELD_IP_ID => TOKEN_IP_ID | FIELD_IP_DF => TOKEN_IP_DF
  | FIELD_IP_MF => TOKEN_IP_MF | FIELD_IP_FRAGOFF => TOKEN_IP_FRAG_OFF | FIELD_IP_TTL => TOKEN_IP_TTL
  | FIELD_IP_PROTOCOL => TOKEN_IP_PROTOCOL | FIELD_IP_CHECKSUM => TOKEN_IP_CHECKSUM
  | FIELD_IP_SRCADDR => TOKEN_IP_SRC_ADDR | FIELD_IP_DSTADDR => TOKEN_IP_DST_ADDR
  | FIELD_IPV6_TRAFFICCLASS => TOKEN_IPV6_TRAFFIC_CLASS | FIELD_IPV6_FLOWLABEL => TOKEN_IPV6_FLOW_LABEL
  | FIELD_IPV6_LENGTH => TOKEN_IPV6_LENGTH | FIELD_IPV6_NEXTHDR => TOKEN_IPV6_NEXT_HDR
  | FIELD_IPV6_HOPLIMIT => TOKEN_IPV6_HOP_LIMIT | FIELD_IPV6_SRCADDR => TOKEN_IPV6_SRC_ADDR
  | FIELD_IPV6_DSTADDR => TOKEN_IPV6_DST_ADDR | FIELD_ICMP_TYPE => TOKEN_ICMP_TYPE
  | FIELD_ICMP_CODE => TOKEN_ICMP_CODE | FIELD_ICMP_CHECKSUM => TOKEN_ICMP_CHECKSUM
  | FIELD_ICMP_BODY => TOKEN_ICMP_BODY | FIELD_ICMPV6_TYPE => TOKEN_ICMPV6_TYPE
  | FIELD_ICMPV6_CODE => TOKEN_ICMPV6_CODE | FIELD_ICMPV6_CHECKSUM => TOKEN_ICMPV6_CHECKSUM
  | FIELD_ICMPV6_BODY => TOKEN_ICMPV6_BODY | FIELD_TCP_SRCPORT => TOKEN_TCP_SRC_PORT
  | FIELD_TCP_DSTPORT => TOKEN_TCP_DST_PORT | FIELD_TCP_SEQNUM => TOKEN_TCP_SEQ_NUM
  | FIELD_TCP_ACKNUM => TOKEN_TCP_ACK_NUM | FIELD_TCP_HDRLENGTH => TOKEN_TCP_HDR_LENGTH
  | FIELD_TCP_URG => TOKEN_TCP_URG | FIELD_TCP_ACK => TOKEN_TCP_ACK | FIELD_TCP_PSH => TOKEN_TCP_PSH
  | FIELD_TCP_RST => TOKEN_TCP_RST | FIELD_TCP_SYN => TOKEN_TCP_SYN | FIELD_TCP_FIN => TOKEN_TCP_FIN
  | FIELD_TCP_WINDOW => TOKEN_TCP_WINDOW | FIELD_TCP_CHECKSUM => TOKEN_TCP_CHECKSUM
  | FIELD_TCP_URGPTR => TOKEN_TCP_URG_PTR | FIELD_TCP_PAYLOADLENGTH => TOKEN_TCP_PAYLOAD_LENGTH
  | FIELD_UDP_SRCPORT => TOKEN_UDP_SRC_PORT | FIELD_UDP_DSTPORT => TOKEN_UDP_DST_PORT
  | FIELD_UDP_LENGTH => TOKEN_UDP_LENGTH | FIELD_UDP_CHECKSUM => TOKEN_UDP_CHECKSUM
  | FIELD_UDP_PAYLOADLENGTH => TOKEN_UDP_PAYLOAD_LENGTH | FIELD_LOOPBACK => TOKEN_LOOPBACK
  | FIELD_IMPOSTOR => TOKEN_IMPOSTOR | FIELD_PROCESSID => TOKEN_PROCESS_ID
  | FIELD_LOCALADDR => TOKEN_LOCAL_ADDR | FIELD_REMOTEADDR => TOKEN_REMOTE_ADDR
  | FIELD_LOCALPORT => TOKEN_LOCAL_PORT | FIELD_REMOTEPORT => TOKEN_REMOTE_PORT
  | FIELD_PROTOCOL => TOKEN_PROTOCOL | FIELD_ENDPOINTID => TOKEN_ENDPOINT_ID
  | FIELD_PARENTENDPOINTID => TOKEN_PARENT_ENDPOINT_ID | FIELD_LAYER => TOKEN_LAYER
  | FIELD_PRIORITY => TOKEN_PRIORITY
  end.

Definition kind_of_test (t : TEST) : KIND :=
  match t with
  | TEST_EQ => TOKEN_EQ
  | TEST_NEQ => TOKEN_NEQ
  | TEST_LT => TOKEN_LT
  | TEST_LEQ => TOKEN_LEQ
  | TEST_GT => TOKEN_GT
  | TEST_GEQ => TOKEN_GEQ
  end.

(** The variable and the number; the sign is kept only where the variable is
    no array. *)
Definition decompile_operands (test : WINDIVERT_FILTER) : option (VAR * NUM) :=
  let kind := field_kind (field test) in
  match array_size kind with
  | Some _ => Some (mkVar kind (w1 (arg test)), mkNum false (W128 (w0 (arg test)) 0 0 0))
  | None =>
    match WinDivertMakeVar kind with
    | Some var => Some (var, mkNum (neg test) (arg test))
    | None => None
    end
  end.

(** The expressions allocated for the variable, the number and the test. *)
Definition test_allocs (test : WINDIVERT_FILTER) : nat :=
  match array_size (field_kind (field test)) with Some _ => 3 | None => 2 end.

Definition WinDivertDecompileTest (p : pool) (test : WINDIVERT_FILTER) : option node * pool :=
  match decompile_operands test with
  | Some (var, val) =>
    let '(ok, p) := pool_exprs (test_allocs test) p in
    (if ok then Some (mkNode (DTest (mkTest (kind_of_test (WdTypes.test test)) var val)) (success test) (failure test) 0)
     else None, p)
  | None => (None, p)
  end.

(** ** References *)

Definition WinDivertDerefExpr (exprs : exprs_array) (i : Z) : option exprs_array :=
  if is_result i then Some exprs
  else
    match node_at exprs i with
    | None => None
    | Some n =>
      let count := u8 (nd_count n - 1) in
      Some (put exprs i (if count =? 0 then None else Some (with_count n count)))
    end.

Definition count_ref (exprs : exprs_array) (i : Z) : option exprs_array :=
  if is_result i then Some exprs
  else
    match node_at exprs i with
    | None => None
    | Some n => Some (put exprs i (Some (with_count n (u8 (nd_count n + 1)))))
    end.

Definition obind {A B} (o : option A) (f : A -> option B) : option B :=
  match o with Some x => f x | None => None end.

(** "Decompile all tests": from the last instruction to the first.  [None] as
    the array is the failure, with the last error set. *)
Fixpoint decompile_tests (object : list WINDIVERT_FILTER) (i : nat) (p : pool) (exprs : exprs_array)
    : option (pool * option exprs_array) :=
  match i with
  | O => Some (p, Some exprs)
  | S i =>
    match nth_error object i with
    | None => None
    | Some x =>
      match WinDivertDecompileTest p x with
      | (None, p) => Some (mkPool (p_heap p) (Some ERROR_INVALID_PARAMETER), None)
      | (Some n, p) =>
        obind (count_ref (put exprs (Z.of_nat i) (Some n)) (nd_succ n)) (fun exprs =>
        obind (count_ref exprs (nd_fail n)) (fun exprs =>
        decompile_tests object i p exprs))
      end
    end
  end.

(** ** Merging *)

(** The node a continuation leads to. *)
Inductive target : Set := TResult | TNode (n : node) | TUndef.

Definition target_of (exprs : exprs_array) (i : Z) : target :=
  if is_result i then TResult else match node_at exprs i with Some n => TNode n | None => TUndef end.

Definition WinDivertSimplifyAndOr (exprs : exprs_array) (expr : node) (and : bool) (next other : Z)
    : option (exprs_array * node) :=
  match node_at exprs next with
  | None => None
  | Some next_expr =>
    let new_expr := (if and then DAnd else DOr) (nd_expr expr) (nd_expr next_expr) in
    let new_node := mkNode new_expr (nd_succ next_expr) (nd_fail next_expr) (nd_count expr) in
    obind (WinDivertDerefExpr exprs next) (fun exprs =>
    obind (WinDivertDerefExpr exprs other) (fun exprs =>
    Some (exprs, new_node)))
  end.

(** A new [?:] node in place of [expr]. *)
Definition question (exprs : exprs_array) (expr : node) (arg1 arg2 : DEXPR) (succ fail : Z)
    : option (exprs_array * node) :=
  obind (WinDivertDerefExpr exprs (nd_succ expr)) (fun exprs =>
  obind (WinDivertDerefExpr exprs (nd_fail expr)) (fun exprs =>
  Some (exprs, mkNode (DQuestion (nd_expr expr) arg1 arg2) succ fail (nd_count expr)))).

(** A round of the loop: undefined, [break], [NULL] for want of memory, or
    [continue] with a new expression. *)
Inductive merged : Set := MUndef | MBreak | MNull | MNext (exprs : exprs_array) (expr : node).

(** [ok]: the pool has room for the new expression, which is allocated
    before anything is changed. *)
Definition continue (ok : bool) (o : option (exprs_array * node)) : merged :=
  if ok then match o with Some (exprs, expr) => MNext exprs expr | None => MUndef end else MNull.

(** "Both branches have count==1". *)
Definition merge_both (ok : bool) (exprs : exprs_array) (expr : node) : merged :=
  match node_at exprs (nd_succ expr), node_at exprs (nd_fail expr) with
  | Some s, Some f =>
    if negb (nd_succ s =? nd_succ f) || negb (nd_fail s =? nd_fail f) then MBreak
    else
      continue ok
        (obind (question exprs expr (nd_expr s) (nd_expr f) (nd_succ s) (nd_fail f)) (fun r =>
         obind (WinDivertDerefExpr (fst r) (nd_succ s)) (fun exprs =>
         obind (WinDivertDerefExpr exprs (nd_fail f)) (fun exprs =>
         Some (exprs, snd r)))))
  | _, _ => MUndef
  end.

(** The second [switch]; [singleton] is what the first one found. *)
Definition merge_fail (ok : bool) (exprs : exprs_array) (expr : node) (singleton : bool) : merged :=
  match target_of exprs (nd_fail expr) with
  | TUndef => MUndef
  | TResult => MBreak
  | TNode next =>
    if negb (nd_count next =? 1) then MBreak
    else if nd_succ next =? nd_succ expr then
      continue ok (WinDivertSimplifyAndOr exprs expr false (nd_fail expr) (nd_succ expr))
    else if nd_fail next =? nd_succ expr then
      continue ok (question exprs expr DFalse (nd_expr next) (nd_succ next) (nd_fail next))
    else if singleton then merge_both ok exprs expr
    else MBreak
  end.

(** The first [switch]. *)
Definition merge_round (ok : bool) (exprs : exprs_array) (expr : node) : merged :=
  match target_of exprs (nd_succ expr) with
  | TUndef => MUndef
  | TResult => merge_fail ok exprs expr false
  | TNode next =>
    if negb (nd_count next =? 1) then merge_fail ok exprs expr false
    else if nd_fail next =? nd_fail expr then
      continue ok (WinDivertSimplifyAndOr exprs expr true (nd_succ expr) (nd_fail expr))
    else if nd_succ next =? nd_fail expr then
      continue ok (question exprs expr (nd_expr next) DTrue (nd_succ next) (nd_fail next))
    else merge_fail ok exprs expr true
  end.

Fixpoint merge_loop (fuel : nat) (p : pool) (exprs : exprs_array) (i : Z) (expr : node) : option (pool * exprs_array) :=
  match fuel with
  | O => None
  | S fuel =>
    if nd_count expr =? 0 then Some (p, exprs)
    else
      let '(ok, p1) := pool_expr p in
      match merge_round ok exprs expr with
      | MUndef => None
      | MBreak => Some (p, put exprs i (Some expr))
      | MNull => Some (p1, exprs)
      | MNext exprs expr => merge_loop fuel p1 exprs i expr
      end
  end.

(** Every round frees an entry: one round more than entries is enough. *)
Definition WinDivertCoalesceAndOr (p : pool) (exprs : exprs_array) (i : Z) : option (pool * exprs_array) :=
  match nth_error exprs (Z.to_nat i) with
  | None => None
  | Some None => Some (p, exprs)
  | Some (Some expr) => merge_loop (S (length exprs)) p exprs i expr
  end.

Fixpoint coalesce_tests (i : nat) (p : pool) (exprs : exprs_array) : option (pool * exprs_array) :=
  match i with
  | O => Some (p, exprs)
  | S i => obind (WinDivertCoalesceAndOr p exprs (Z.of_nat i)) (fun '(p, exprs) => coalesce_tests i p exprs)
  end.

(** ** Unfolding the rest *)

Definition is_true (e : DEXPR) : bool := match e with DTrue => true | _ => false end.
Definition is_false (e : DEXPR) : bool := match e with DFalse => true | _ => false end.

(** The expression, [None] for [NULL]. *)
Fixpoint WinDivertCoalesceExpr (fuel : nat) (p : pool) (exprs : exprs_array) (i : Z) : option (pool * option DEXPR) :=
  if i =? WINDIVERT_FILTER_RESULT_ACCEPT then Some (p, Some DTrue)
  else if i =? WINDIVERT_FILTER_RESULT_REJECT then Some (p, Some DFalse)
  else
    match fuel with
    | O => None
    | S fuel =>
      match nth_error exprs (Z.to_nat i) with
      | None => None
      | Some None => Some (p, None)
      | Some (Some expr) =>
        if nd_succ expr =? nd_fail expr then WinDivertCoalesceExpr fuel p exprs (nd_succ expr)
        else
          obind (WinDivertCoalesceExpr fuel p exprs (nd_succ expr)) (fun '(p, s) =>
          obind (WinDivertCoalesceExpr fuel p exprs (nd_fail expr)) (fun '(p, f) =>
          match s, f with
          | Some s, Some f =>
            if is_true s && is_false f then Some (p, Some (nd_expr expr))
            else
              let '(ok, p) := pool_expr p in
              Some (p, if ok then Some (DQuestion (nd_expr expr) s f) else None)
          | _, _ => Some (p, None)
          end))
      end
    end.

(** The expression of an object, [None] for a failure. *)
Definition decompile (p : pool) (object : list WINDIVERT_FILTER) : option (pool * option DEXPR) :=
  match decompile_tests object (length object) p (repeat None (length object)) with
  | None => None
  | Some (p, None) => Some (p, None)
  | Some (p, Some exprs) =>
    obind (count_ref exprs 0) (fun exprs =>
    obind (coalesce_tests (length object) p exprs) (fun '(p, exprs) =>
    WinDivertCoalesceExpr (S (length object)) p exprs 0))
  end.

(** ** Arrays of nodes *)

Lemma node_at_range V i n : node_at V i = Some n -> 0 <= i < zlen V.
Proof.
  unfold node_at. destruct (Z.ltb_spec i 0); [discriminate|].
  destruct (nth_error V (Z.to_nat i)) eqn:E; [|discriminate]. intros _.
  assert (Z.to_nat i < length V)%nat by (apply nth_error_Some; congruence). unfold zlen. lia.
Qed.

Lemma node_at_nth V i : 0 <= i < zlen V -> nth_error V (Z.to_nat i) = Some (node_at V i).
Proof.
  intros H. unfold node_at. destruct (Z.ltb_spec i 0); [lia|].
  destruct (nth_error V (Z.to_nat i)) as [[n|]|] eqn:E; [reflexivity..|].
  apply nth_error_None in E. unfold zlen in H. lia.
Qed.

Lemma zlen_put V i o : zlen (put V i o) = zlen V.
Proof. unfold zlen, put. now rewrite set_nth_length. Qed.

Lemma node_at_same V i o : 0 <= i < zlen V -> node_at (put V i o) i = o.
Proof.
  intros H. unfold node_at, put. destruct (Z.ltb_spec i 0); [lia|].
  rewrite nth_error_set_same by (unfold zlen in H; lia). now destruct o.
Qed.

Lemma node_at_other V i j o : 0 <= i -> i <> j -> node_at (put V i o) j = node_at V j.
Proof.
  intros H N. unfold node_at, put. destruct (Z.ltb_spec j 0); [reflexivity|].
  now rewrite nth_error_set_nth by lia.
Qed.

Lemma put_comm V i j o p : 0 <= i -> 0 <= j -> i <> j -> put (put V i o) j p = put (put V j p) i o.
Proof. intros Hi Hj N. unfold put. apply set_nth_comm. lia. Qed.

Lemma put_twice V i o p : put (put V i o) i p = put V i p.
Proof. apply set_nth_twice. Qed.

Lemma put_same V i n : node_at V i = Some n -> put V i (Some n) = V.
Proof.
  intros H. pose proof (node_at_range _ _ _ H). apply set_nth_same. now rewrite node_at_nth, H.
Qed.

(** ** Counting references *)

Definition refers (n : node) (j : Z) : Z := b2z (nd_succ n =? j) + b2z (nd_fail n =? j).

Definition uses (j : Z) (o : option node) : Z := match o with Some n => refers n j | None => 0 end.

Definition refs (V : exprs_array) (j : Z) : Z := zsum (map (uses j) V).

Definition weight (o : option node) : Z := match o with Some _ => 1 | None => 0 end.

Definition live (V : exprs_array) : Z := zsum (map weight V).

Lemma sum_put (f : option node -> Z) V i o : 0 <= i < zlen V ->
  zsum (map f (put V i o)) = zsum (map f V) - f (node_at V i) + f o.
Proof.
  intros H. unfold put. rewrite map_set_nth. apply sum_set_nth. rewrite nth_error_map, node_at_nth by exact H.
  reflexivity.
Qed.

Lemma refs_put V i o j : 0 <= i < zlen V -> refs (put V i o) j = refs V j - uses j (node_at V i) + uses j o.
Proof. apply sum_put. Qed.

Lemma uses_nonneg j o : 0 <= uses j o.
Proof. destruct o as [n|]; cbn; [|lia]. unfold refers. destruct (_ =? _), (_ =? _); cbn; lia. Qed.

Lemma refs_nonneg V j : 0 <= refs V j.
Proof.
  apply zsum_nonneg, Forall_forall. intros x H. apply in_map_iff in H. destruct H as (o & <- & _). apply uses_nonneg.
Qed.

(** A node's references are among all references. *)
Lemma refs_node V i n j : node_at V i = Some n -> refers n j <= refs V j.
Proof.
  intros H. pose proof (node_at_range _ _ _ H) as R. pose proof (refs_put V i None j R) as E.
  rewrite H in E. cbn [uses] in E. pose proof (refs_nonneg (put V i None) j). lia.
Qed.

Lemma refs_two V i n k m j : node_at V i = Some n -> node_at V k = Some m -> i <> k ->
  refers n j + refers m j <= refs V j.
Proof.
  intros Hi Hk N. pose proof (node_at_range _ _ _ Hi) as R. pose proof (refs_put V i None j R) as E.
  rewrite Hi in E. cbn [uses] in E.
  pose proof (refs_node (put V i None) k m j ltac:(rewrite node_at_other by lia; exact Hk)). lia.
Qed.

(** ** What an array decides *)

Fixpoint dexpr_holds (h : TEST_EXPR -> bool) (e : DEXPR) : bool :=
  match e with
  | DTest t => h t
  | DAnd a b => dexpr_holds h a && dexpr_holds h b
  | DOr a b => dexpr_holds h a || dexpr_holds h b
  | DQuestion c t e => if dexpr_holds h c then dexpr_holds h t else dexpr_holds h e
  | DTrue => true
  | DFalse => false
  end.

Definition next (h : TEST_EXPR -> bool) (n : node) : Z :=
  if dexpr_holds h (nd_expr n) then nd_succ n else nd_fail n.

Inductive leads (h : TEST_EXPR -> bool) (V : exprs_array) : Z -> bool -> Prop :=
| leads_accept : leads h V WINDIVERT_FILTER_RESULT_ACCEPT true
| leads_reject : leads h V WINDIVERT_FILTER_RESULT_REJECT false
| leads_node i n r : node_at V i = Some n -> leads h V (next h n) r -> leads h V i r.

(** A continuation: a result, or a node further on. *)
Definition goes (V : exprs_array) (i l : Z) : Prop :=
  is_result l = true \/ (i < l /\ exists n, node_at V l = Some n).

Definition occ (P : list Z) (j : Z) : Z := zsum (map (fun p => b2z (p =? j)) P).

(** Every continuation exists, and every count is the number of references,
    plus one for the first node and one for each reference in [P] that is
    still to be dropped. *)
Record inv (V : exprs_array) (P : list Z) : Prop := {
  inv_len : zlen V <= WINDIVERT_FILTER_MAXLEN;
  inv_first : exists n, node_at V 0 = Some n;
  inv_goes i n : node_at V i = Some n -> goes V i (nd_succ n) /\ goes V i (nd_fail n);
  inv_count i n : node_at V i = Some n -> nd_count n = refs V i + b2z (i =? 0) + occ P i /\ nd_count n <= 255
}.

Lemma index_no_result (V : exprs_array) i : zlen V <= WINDIVERT_FILTER_MAXLEN -> i < zlen V -> is_result i = false.
Proof.
  unfold is_result, WINDIVERT_FILTER_MAXLEN, WINDIVERT_FILTER_RESULT_ACCEPT, WINDIVERT_FILTER_RESULT_REJECT. lia.
Qed.

Lemma node_no_result V P i n : inv V P -> node_at V i = Some n -> is_result i = false.
Proof. intros [L _ _ _] H. apply node_at_range in H. now apply (index_no_result V); [|lia]. Qed.

Lemma leads_inv h V P i n r : inv V P -> node_at V i = Some n -> leads h V i r -> leads h V (next h n) r.
Proof.
  intros I H L. pose proof (node_no_result _ _ _ _ I H) as R. destruct L as [| |i m r E L]; [discriminate R..|].
  rewrite H in E. injection E as <-. exact L.
Qed.

(** ** Changes that keep the decision *)

Definition same_node (n m : node) : Prop :=
  nd_expr n = nd_expr m /\ nd_succ n = nd_succ m /\ nd_fail n = nd_fail m.

(** The nodes of [V'] decide in [V'] as in [V]. *)
Definition follows (V V' : exprs_array) : Prop := forall j n', node_at V' j = Some n' ->
  (exists n, node_at V j = Some n) /\ forall h r, leads h V j r -> leads h V' j r.

Lemma follows_refl V : follows V V.
Proof. intros j n H. split; [eauto|auto]. Qed.

Lemma follows_trans V V' V'' : follows V V' -> follows V' V'' -> follows V V''.
Proof.
  intros A B j n H. destruct (B j n H) as [[m Hm] L]. destruct (A j m Hm) as [E L']. auto.
Qed.

(** [V'] has some of the nodes of [V], and at [i] a node that goes where [V]
    goes from [i]. *)
Lemma follows_change V V' P P' i e new : inv V P -> inv V' P' -> zlen V' = zlen V ->
  node_at V i = Some e -> node_at V' i = Some new ->
  (forall j n', j <> i -> node_at V' j = Some n' -> exists n, node_at V j = Some n /\ same_node n n') ->
  (forall h r, leads h V i r -> leads h V (next h new) r) -> follows V V'.
Proof.
  intros I I' Z Hi Hi' S N.
  assert (G : forall k j h r, (exists n', node_at V' j = Some n') \/ is_result j = true ->
    zlen V - j <= Z.of_nat k -> leads h V j r -> leads h V' j r).
  { induction k as [|k IH]; intros j h r Hj Hk L.
    - destruct Hj as [[n' Hj]|Hj]; [apply node_at_range in Hj; lia|].
      destruct L as [| |j m r E L]; [constructor..|]. rewrite (node_no_result _ _ _ _ I E) in Hj. discriminate Hj.
    - destruct Hj as [[n' Hj]|Hj].
      2:{ destruct L as [| |j m r E L]; [constructor..|]. rewrite (node_no_result _ _ _ _ I E) in Hj. discriminate Hj. }
      assert (Q : leads h V (next h n') r).
      { destruct (Z.eq_dec j i) as [->|D].
        - rewrite Hi' in Hj. injection Hj as <-. auto.
        - destruct (S j n' D Hj) as (n & E & E1 & E2 & E3). pose proof (leads_inv _ _ _ _ _ _ I E L) as Q.
          unfold next in *. now rewrite <- E1, <- E2, <- E3. }
      apply (leads_node h V' j n' r Hj).
      destruct (inv_goes _ _ I' _ _ Hj) as [G1 G2].
      assert (G : goes V' j (next h n')) by (unfold next; destruct (dexpr_holds h (nd_expr n')); assumption).
      destruct G as [G|[G (m & Hm)]]; apply IH; eauto; [|lia].
      unfold is_result, WINDIVERT_FILTER_RESULT_ACCEPT, WINDIVERT_FILTER_RESULT_REJECT in G.
      pose proof (inv_len _ _ I). unfold WINDIVERT_FILTER_MAXLEN in *. lia. }
  intros j n' Hj. split.
  - destruct (Z.eq_dec j i) as [->|D]; [eauto|]. destruct (S j n' D Hj) as (n & E & _). eauto.
  - intros h r L. apply (G (Z.to_nat (zlen V - j))); [eauto|lia|exact L].
Qed.

Lemma goes_above V P i n l : inv V P -> node_at V i = Some n -> goes V i l -> i < l.
Proof.
  intros I H [G|G]; [|tauto]. apply node_at_range in H. pose proof (inv_len _ _ I) as L.
  unfold is_result, WINDIVERT_FILTER_MAXLEN, WINDIVERT_FILTER_RESULT_ACCEPT, WINDIVERT_FILTER_RESULT_REJECT in *. lia.
Qed.

(** A node refers only to later nodes. *)
Lemma refers_above V P i n j : inv V P -> node_at V i = Some n -> j <= i -> refers n j = 0.
Proof.
  intros I H J. destruct (inv_goes _ _ I _ _ H) as [A B].
  pose proof (goes_above _ _ _ _ _ I H A). pose proof (goes_above _ _ _ _ _ I H B). unfold refers.
  destruct (Z.eqb_spec (nd_succ n) j), (Z.eqb_spec (nd_fail n) j); cbn; lia.
Qed.

Lemma occ_cons o P j : occ (o :: P) j = b2z (o =? j) + occ P j.
Proof. reflexivity. Qed.

Lemma occ_nonneg P j : 0 <= occ P j.
Proof.
  apply zsum_nonneg, Forall_forall. intros x H. apply in_map_iff in H. destruct H as (p & <- & _).
  destruct (p =? j); cbn; lia.
Qed.

(** Dropping one of several references. *)
Lemma deref_expr_ok V o P : inv V (o :: P) -> goes V (-1) o -> (is_result o = false -> 1 <= refs V o) ->
  exists V', WinDivertDerefExpr V o = Some V' /\ inv V' P /\ zlen V' = zlen V /\ live V' = live V /\
  (forall j, j <> o -> node_at V' j = node_at V j) /\ follows V V'.
Proof.
  intros I G R. unfold WinDivertDerefExpr. destruct (is_result o) eqn:Ro.
  { exists V. repeat split; try reflexivity; try (intros; reflexivity).
    - apply I.
    - apply I.
    - eapply inv_goes; eassumption.
    - eapply inv_goes; eassumption.
    - destruct (inv_count _ _ I i n H) as [C _]. rewrite C, occ_cons. destruct (Z.eqb_spec o i) as [->|_]; [|cbn [b2z]; lia].
      rewrite (node_no_result _ _ _ _ I H) in Ro. discriminate.
    - now apply (inv_count _ _ I i n).
    - eauto. - auto. }
  destruct G as [G|[_ [n Hn]]]; [congruence|]. rewrite Hn. specialize (R eq_refl).
  pose proof (node_at_range _ _ _ Hn) as Ho. destruct (inv_count _ _ I o n Hn) as [C M].
  assert (Q : nd_count n = refs V o + b2z (o =? 0) + 1 + occ P o)
    by (rewrite C, occ_cons, Z.eqb_refl; cbn [b2z]; lia).
  pose proof (occ_nonneg P o) as O.
  assert (B : 0 <= b2z (o =? 0)) by (destruct (o =? 0); cbn; lia).
  rewrite u8_small by lia. destruct (Z.eqb_spec (nd_count n - 1) 0); [lia|].
  set (n' := with_count n (nd_count n - 1)). set (V' := put V o (Some n')).
  assert (At : forall j, j <> o -> node_at V' j = node_at V j) by (intros j J; apply node_at_other; lia).
  assert (Ao : node_at V' o = Some n') by (now apply node_at_same).
  assert (Rf : forall j, refs V' j = refs V j).
  { intros j. unfold V'. rewrite refs_put, Hn by exact Ho. cbn [uses]. unfold n', refers. cbn. lia. }
  assert (Gs : forall i l, goes V i l -> goes V' i l).
  { intros i l [H|[H [m Hm]]]; [now left|]. right. split; [exact H|].
    destruct (Z.eq_dec l o) as [->|D]; [eauto|]. exists m. now rewrite At. }
  assert (I' : inv V' P).
  { split; [unfold V'; rewrite zlen_put; apply I|destruct (Z.eq_dec 0 o) as [<-|D]; [eauto|rewrite At by exact D; apply I]|..];
      intros i m Hm; destruct (Z.eq_dec i o) as [->|D].
    - rewrite Ao in Hm. injection Hm as <-. cbn. destruct (inv_goes _ _ I o n Hn). auto.
    - rewrite At in Hm by exact D. destruct (inv_goes _ _ I i m Hm). auto.
    - rewrite Ao in Hm. injection Hm as <-. cbn [nd_count with_count n']. rewrite Rf. lia.
    - rewrite At in Hm by exact D. destruct (inv_count _ _ I i m Hm) as [E M']. rewrite Rf. rewrite occ_cons in E.
      replace (o =? i) with false in E by lia. cbn [b2z] in E. lia. }
  exists V'. split; [reflexivity|]. split; [exact I'|]. split; [apply zlen_put|].
  split; [unfold live, V'; rewrite sum_put, Hn by exact Ho; cbn [weight]; lia|]. split; [exact At|].
  eapply (follows_change V V' _ P o n n' I I'); eauto using zlen_put; [|intros h r; apply (leads_inv _ _ _ _ n r I Hn)].
  intros k m D Hm. rewrite At in Hm by exact D. exists m. unfold same_node. auto.
Qed.

(** Nodes that only [e] refers to are merged into the node at [i]. *)
Lemma transfer V V' i e new P : inv V [] -> zlen V' = zlen V ->
  node_at V i = Some e -> node_at V' i = Some new -> nd_count new = nd_count e ->
  (forall j, j <> i -> node_at V' j = node_at V j \/ (node_at V' j = None /\ i < j /\ refs V j = refers e j)) ->
  (forall j n, node_at V' j = Some n -> refs V j = refs V' j + occ P j) ->
  goes V' i (nd_succ new) -> goes V' i (nd_fail new) ->
  (forall h r, leads h V i r -> leads h V (next h new) r) -> inv V' P /\ follows V V'.
Proof.
  intros I Z Hi Hi' C K R Gs Gf L.
  assert (Old : forall j n, j <> i -> node_at V' j = Some n -> node_at V j = Some n)
    by (intros j n D H; destruct (K j D) as [E|[E _]]; congruence).
  assert (Keep : forall j n l, j <> i -> node_at V j = Some n -> 0 < refers n l -> goes V j l -> goes V' j l).
  { intros j n l D H Hl [G|[G [m Hm]]]; [now left|]. right. split; [exact G|].
    destruct (Z.eq_dec l i) as [->|Dl]; [eauto|]. destruct (K l Dl) as [E|(_ & _ & E)]; [exists m; congruence|].
    pose proof (refs_two V i e j n l Hi H ltac:(congruence)). lia. }
  assert (I' : inv V' P).
  { pose proof (node_at_range _ _ _ Hi) as Ri.
    split; [rewrite Z; apply I| |intros j n H; destruct (Z.eq_dec j i) as [->|D]..].
    - destruct (Z.eq_dec 0 i) as [<-|D]; [eauto|]. destruct (K 0 D) as [->|(_ & X & _)]; [apply I|lia].
    - rewrite Hi' in H. injection H as <-. auto.
    - pose proof (Old j n D H) as H'. destruct (inv_goes _ _ I j n H') as [A B].
      assert (0 < refers n (nd_succ n) /\ 0 < refers n (nd_fail n)) as [X Y]
        by (unfold refers; rewrite !Z.eqb_refl; split; [destruct (nd_fail n =? nd_succ n)|destruct (nd_succ n =? nd_fail n)]; reflexivity).
      split; eapply Keep; eassumption.
    - rewrite Hi' in H. injection H as <-. destruct (inv_count _ _ I i e Hi) as [E M]. rewrite C, E in *.
      rewrite (R i new Hi') in *. cbn [occ map zsum fold_right] in *. lia.
    - pose proof (Old j n D H) as H'. destruct (inv_count _ _ I j n H') as [E M].
      rewrite (R j n H) in *. cbn [occ map zsum fold_right] in *. lia. }
  split; [exact I'|]. eapply follows_change; eauto. intros j n D H. exists n. unfold same_node. auto.
Qed.

Lemma live_put V i o : 0 <= i < zlen V -> live (put V i o) = live V - weight (node_at V i) + weight o.
Proof. apply sum_put. Qed.

(** [e] leads to [t], which nothing else refers to, and to [o]; so does [t]. *)
Lemma merge_chain V i e t n o new : inv V [] -> node_at V i = Some e -> node_at V t = Some n -> nd_count n = 1 ->
  (forall j, refers e j = b2z (t =? j) + b2z (o =? j)) -> 0 < refers n o ->
  same_node (mkNode (nd_expr new) (nd_succ n) (nd_fail n) 0) new -> nd_count new = nd_count e ->
  (forall h r, leads h V i r -> leads h V (next h new) r) ->
  let V1 := put (put V t None) i (Some new) in
  inv V1 [o] /\ follows V V1 /\ zlen V1 = zlen V /\ live V1 = live V - 1 /\ i < t < o /\ goes V1 (-1) o /\
  (is_result o = false -> 1 <= refs V1 o).
Proof.
  intros I Hi Ht C Re Ro (_ & Es & Ef) Cn L V1. cbn [nd_succ nd_fail] in Es, Ef.
  pose proof (node_at_range _ _ _ Hi) as Ri. pose proof (node_at_range _ _ _ Ht) as Rt.
  destruct (inv_goes _ _ I t n Ht) as [A B]. destruct (inv_count _ _ I t n Ht) as [Ct _].
  pose proof (goes_above _ _ _ _ _ I Ht A) as As. pose proof (goes_above _ _ _ _ _ I Ht B) as Bs.
  assert (Lt : i < t).
  { destruct (Z_lt_le_dec i t) as [|X]; [assumption|]. pose proof (refers_above _ _ _ _ t I Hi X) as Y.
    rewrite Re, Z.eqb_refl in Y. destruct (o =? t); cbn in Y; lia. }
  assert (Lo : t < o).
  { destruct (Z_lt_le_dec t o) as [|X]; [assumption|]. pose proof (refers_above _ _ _ _ o I Ht X). lia. }
  assert (Rn : forall j, refers new j = refers n j) by (intros j; unfold refers; now rewrite Es, Ef).
  assert (Rt1 : refs V t = 1) by (cbn [occ map zsum fold_right] in Ct; replace (t =? 0) with false in Ct by lia; cbn in Ct; lia).
  assert (At : node_at V1 t = None)
    by (unfold V1; rewrite node_at_other by lia; now apply node_at_same).
  assert (Ai : node_at V1 i = Some new) by (apply node_at_same; now rewrite zlen_put).
  assert (Aj : forall j, j <> i -> j <> t -> node_at V1 j = node_at V j)
    by (intros j D D'; unfold V1; now rewrite !node_at_other by lia).
  assert (R1 : forall j, refs V1 j = refs V j - refers e j).
  { intros j. unfold V1. rewrite refs_put by (now rewrite zlen_put).
    rewrite refs_put by exact Rt. rewrite node_at_other by lia. rewrite Hi, Ht. cbn [uses]. rewrite Rn. lia. }
  assert (Go : forall l, goes V t l -> goes V1 i l).
  { intros l [G|[G [m Hm]]]; [now left|]. right. split; [lia|]. exists m. now rewrite Aj by lia. }
  destruct (transfer V V1 i e new [o]) as [I1 F]; auto.
  - unfold V1. now rewrite !zlen_put.
  - intros j D. destruct (Z.eq_dec j t) as [->|D']; [right|left; auto]. split; [exact At|]. split; [exact Lt|].
    rewrite Rt1, Re, Z.eqb_refl. replace (o =? t) with false by lia. reflexivity.
  - intros j m Hj. rewrite R1, occ_cons, Re. cbn [occ map zsum fold_right].
    destruct (Z.eqb_spec t j) as [->|]; [congruence|]. cbn [b2z]. lia.
  - rewrite <- Es. auto.
  - rewrite <- Ef. auto.
  - split; [exact I1|]. split; [exact F|]. split; [unfold V1; now rewrite !zlen_put|].
    split. { unfold V1. rewrite live_put by (now rewrite zlen_put). rewrite live_put by exact Rt.
             rewrite node_at_other by lia. rewrite Hi, Ht. cbn [weight]. lia. }
    split; [lia|].
    assert (Oo : o = nd_succ n \/ o = nd_fail n).
    { unfold refers in Ro. destruct (Z.eqb_spec (nd_succ n) o), (Z.eqb_spec (nd_fail n) o); auto; cbn in Ro; lia. }
    split.
    { assert (G : goes V t o) by (destruct Oo; congruence). destruct (Go o G) as [G'|[G' X]]; [now left|right; split; [lia|exact X]]. }
    intros _. pose proof (refs_node V1 i new o Ai) as X. rewrite Rn in X. lia.
Qed.

(** [e] leads to [s] and [f], which nothing else refers to and which lead to
    the same continuations. *)
Lemma merge_pair V i e n m new : inv V [] -> node_at V i = Some e ->
  node_at V (nd_succ e) = Some n -> nd_count n = 1 -> node_at V (nd_fail e) = Some m -> nd_count m = 1 ->
  nd_succ n = nd_succ m -> nd_fail n = nd_fail m ->
  new = mkNode (DQuestion (nd_expr e) (nd_expr n) (nd_expr m)) (nd_succ n) (nd_fail m) (nd_count e) ->
  let V1 := put (put (put V (nd_succ e) None) (nd_fail e) None) i (Some new) in
  inv V1 [nd_succ n; nd_fail m] /\ follows V V1 /\ zlen V1 = zlen V /\ live V1 = live V - 2 /\
  i < nd_succ e /\ i < nd_fail e /\ nd_succ e <> nd_fail e /\ goes V1 i (nd_succ n) /\ goes V1 i (nd_fail m) /\
  node_at V1 i = Some new.
Proof.
  intros I Hi Hs Cs Hf Cf E1 E2 -> V1. set (s := nd_succ e) in *. set (f := nd_fail e) in *.
  set (new := mkNode _ _ _ _) in *.
  pose proof (node_at_range _ _ _ Hi) as Ri. pose proof (node_at_range _ _ _ Hs) as Rs. pose proof (node_at_range _ _ _ Hf) as Rf.
  destruct (inv_goes _ _ I i e Hi) as [Gs Gf].
  pose proof (goes_above _ _ _ _ _ I Hi Gs) as Ls. pose proof (goes_above _ _ _ _ _ I Hi Gf) as Lf. fold s in Ls. fold f in Lf.
  assert (Re : forall j, refers e j = b2z (s =? j) + b2z (f =? j)) by reflexivity.
  assert (Once : forall t x, node_at V t = Some x -> nd_count x = 1 -> i < t -> refs V t = 1).
  { intros t x Hx Cx Lx. destruct (inv_count _ _ I t x Hx) as [C _]. cbn [occ map zsum fold_right] in C.
    replace (t =? 0) with false in C by lia. cbn [b2z] in C. lia. }
  pose proof (Once s n Hs Cs Ls) as Os. pose proof (Once f m Hf Cf Lf) as Of.
  assert (D : s <> f).
  { intros X. pose proof (refs_node V i e s Hi) as Y. rewrite Re, <- X, Z.eqb_refl in Y. cbn in Y. lia. }
  assert (Rm : forall j, refers m j = refers n j /\ refers new j = refers n j)
    by (intros j; unfold refers, new; cbn [nd_succ nd_fail]; now rewrite E1, E2).
  assert (Ai : node_at V1 i = Some new) by (apply node_at_same; now rewrite !zlen_put).
  assert (Aj : forall j, j <> i -> j <> s -> j <> f -> node_at V1 j = node_at V j)
    by (intros j D1 D2 D3; unfold V1; now rewrite !node_at_other by lia).
  assert (As : node_at V1 s = None)
    by (unfold V1; rewrite node_at_other, node_at_other by lia; now apply node_at_same).
  assert (Af : node_at V1 f = None)
    by (unfold V1; rewrite node_at_other by lia; apply node_at_same; now rewrite zlen_put).
  assert (R1 : forall j, refs V1 j = refs V j - refers e j - refers n j).
  { intros j. unfold V1. rewrite refs_put by (now rewrite !zlen_put). rewrite refs_put by (now rewrite zlen_put).
    rewrite refs_put by exact Rs. rewrite !node_at_other by lia. rewrite Hi, Hs, Hf. cbn [uses].
    destruct (Rm j) as [-> ->]. lia. }
  assert (Only : forall t, t = s \/ t = f -> refs V t = refers e t).
  { intros t [-> | ->]; rewrite ?Os, ?Of, Re, Z.eqb_refl; [replace (f =? s) with false by lia|replace (s =? f) with false by lia]; reflexivity. }
  assert (Go : forall l, 0 < refers n l -> goes V s l -> goes V1 i l).
  { intros l Hl [G|[G [x Hx]]]; [now left|]. right. split; [lia|]. exists x. rewrite Aj; [exact Hx|lia..|].
    intros ->. pose proof (refs_two V i e s n f Hi Hs ltac:(lia)). rewrite (Only f) in * by auto. lia. }
  destruct (inv_goes _ _ I s n Hs) as [Gns Gnf].
  assert (P1 : 0 < refers n (nd_succ n) /\ 0 < refers n (nd_fail n))
    by (unfold refers; rewrite !Z.eqb_refl; destruct (nd_fail n =? nd_succ n), (nd_succ n =? nd_fail n); cbn; lia).
  assert (G1 : goes V1 i (nd_succ n)) by (now apply Go).
  assert (G2 : goes V1 i (nd_fail m)) by (rewrite <- E2; now apply Go).
  destruct (transfer V V1 i e new [nd_succ n; nd_fail m]) as [I1 F]; auto.
  - unfold V1. now rewrite !zlen_put.
  - intros j Dj. destruct (Z.eq_dec j s) as [->|D']; [right; auto|].
    destruct (Z.eq_dec j f) as [->|D'']; [right; auto|left; auto].
  - intros j x Hj. rewrite R1, !occ_cons, Re. cbn [occ map zsum fold_right].
    replace (s =? j) with false by (symmetry; apply Z.eqb_neq; congruence).
    replace (f =? j) with false by (symmetry; apply Z.eqb_neq; congruence). rewrite <- E2. unfold refers. cbn [b2z]. lia.
  - intros h r L. pose proof (leads_inv _ _ _ _ _ _ I Hi L) as X. unfold next in X.
    unfold next, new. cbn [nd_expr nd_succ nd_fail dexpr_holds]. fold s f in X.
    destruct (dexpr_holds h (nd_expr e)); [pose proof (leads_inv _ _ _ _ _ _ I Hs X) as Y|pose proof (leads_inv _ _ _ _ _ _ I Hf X) as Y];
      unfold next in Y; rewrite <- E2; rewrite <- ?E1, <- ?E2 in Y; exact Y.
  - repeat (split; [assumption|]). split; [unfold V1; now rewrite !zlen_put|].
    split; [|repeat (split; [assumption|]); exact Ai].
    unfold V1. rewrite !live_put by (rewrite ?zlen_put; assumption). rewrite !node_at_other by lia.
    rewrite Hi, Hs, Hf. cbn [weight]. lia.
Qed.

(** ** The loop *)

Lemma deref_put E i x o : 0 <= i -> i <> o ->
  WinDivertDerefExpr (put E i x) o = option_map (fun E' => put E' i x) (WinDivertDerefExpr E o).
Proof.
  intros Hi D. unfold WinDivertDerefExpr. destruct (is_result o); [reflexivity|].
  rewrite node_at_other by assumption. destruct (node_at E o) as [n|] eqn:Ho; [|reflexivity].
  pose proof (node_at_range _ _ _ Ho). cbn [option_map]. f_equal. apply put_comm; lia.
Qed.

Lemma deref_last_put E i x P o n : inv (put E i x) P -> 0 <= i -> i <> o -> node_at E o = Some n -> nd_count n = 1 ->
  WinDivertDerefExpr E o = Some (put E o None).
Proof.
  intros I Hi D H C. unfold WinDivertDerefExpr.
  rewrite (node_no_result (put E i x) P o n I) by (now rewrite node_at_other). now rewrite H, C.
Qed.

(** [deref_expr_ok] beside the node at [i]. *)
Lemma deref_beside E i new o P : 0 <= i < zlen E -> inv (put E i (Some new)) (o :: P) ->
  goes (put E i (Some new)) i o -> 0 < refers new o ->
  exists E', WinDivertDerefExpr E o = Some E' /\ inv (put E' i (Some new)) P /\ zlen E' = zlen E /\
  live (put E' i (Some new)) = live (put E i (Some new)) /\ follows (put E i (Some new)) (put E' i (Some new)).
Proof.
  intros Hi I G R. assert (Ai : node_at (put E i (Some new)) i = Some new) by (now apply node_at_same).
  pose proof (goes_above _ _ _ _ _ I Ai G) as D.
  destruct (deref_expr_ok (put E i (Some new)) o P I) as (V' & H & I' & Z & L & N & F).
  - destruct G as [G|[_ G]]; [now left|right; split; [lia|exact G]].
  - intros _. pose proof (refs_node _ _ _ o Ai). lia.
  - rewrite deref_put in H by lia. destruct (WinDivertDerefExpr E o) as [E'|]; [|discriminate H].
    injection H as <-. exists E'. rewrite !zlen_put in Z. auto.
Qed.

Lemma deref_swap {A} E a b (k : exprs_array -> option A) : a <> b ->
  obind (WinDivertDerefExpr E a) (fun E => obind (WinDivertDerefExpr E b) k) =
  obind (WinDivertDerefExpr E b) (fun E => obind (WinDivertDerefExpr E a) k).
Proof.
  intros D. unfold WinDivertDerefExpr.
  destruct (is_result a), (is_result b); cbn [obind]; [reflexivity|now destruct (node_at E b)|now destruct (node_at E a)|].
  destruct (node_at E a) as [n|] eqn:Ha, (node_at E b) as [m|] eqn:Hb; cbn [obind]; try reflexivity;
    repeat match goal with H : node_at _ _ = Some _ |- _ => pose proof (node_at_range _ _ _ H); revert H end; intros;
    rewrite ?node_at_other by lia;
    repeat match goal with H : node_at _ _ = _ |- _ => rewrite H end; try reflexivity.
  do 2 f_equal. apply put_comm; lia.
Qed.

(** What a round may do. *)
Definition round_ok (i : Z) (E : exprs_array) (e : node) (m : merged) : Prop :=
  match m with
  | MUndef => False
  | MBreak => True
  | MNull => False
  | MNext E' e' =>
    zlen E' = zlen E /\ inv (put E' i (Some e')) [] /\ nd_count e' = nd_count e /\
    live (put E' i (Some e')) < live (put E i (Some e)) /\ follows (put E i (Some e)) (put E' i (Some e'))
  end.

Section Round.
Variables (E : exprs_array) (i : Z) (e : node).
Hypothesis Hi : 0 <= i < zlen E.
Let W := put E i (Some e).
Hypothesis I : inv W [].

Lemma node_here : node_at W i = Some e.
Proof using Hi. now apply node_at_same. Qed.

(** The node behind a continuation. *)
Lemma target_ok l : l = nd_succ e \/ l = nd_fail e ->
  match target_of E l with
  | TUndef => False
  | TResult => is_result l = true
  | TNode n => i < l /\ node_at W l = Some n /\ node_at E l = Some n
  end.
Proof using Hi I.
  intros Hl. destruct (inv_goes _ _ I i e node_here) as [A B].
  assert (G : goes W i l) by (destruct Hl; subst; assumption). unfold target_of.
  destruct (is_result l) eqn:R; [reflexivity|]. destruct G as [G|[G [n N]]]; [congruence|].
  assert (N' : node_at E l = Some n) by (unfold W in N; now rewrite node_at_other in N by lia).
  rewrite N'. auto.
Qed.

(** The four patterns with one merged node. *)
Lemma chain_ok t n o new : node_at E t = Some n -> node_at W t = Some n -> nd_count n = 1 ->
  (forall j, refers e j = b2z (t =? j) + b2z (o =? j)) -> 0 < refers n o ->
  nd_succ new = nd_succ n -> nd_fail new = nd_fail n -> nd_count new = nd_count e ->
  (forall h r, leads h W i r -> leads h W (next h new) r) ->
  round_ok i E e (continue true (obind (WinDivertDerefExpr E t) (fun E => obind (WinDivertDerefExpr E o) (fun E => Some (E, new))))) /\
  t <> o.
Proof using Hi I.
  intros Nt Wt C R Ro S F Cn L.
  destruct (merge_chain W i e t n o new I node_here Wt C R Ro) as (I1 & F1 & Z1 & L1 & B & G & Q); auto.
  { unfold same_node. cbn. auto. }
  rewrite (deref_last_put E i (Some e) [] t n I) by (lia || assumption). cbn [obind].
  assert (X : put (put W t None) i (Some new) = put (put E t None) i (Some new))
    by (unfold W; rewrite (put_comm E i t) by lia; apply put_twice).
  rewrite X in *.
  destruct (deref_beside (put E t None) i new o []) as (E' & -> & I' & Z' & L' & F'); auto.
  - now rewrite zlen_put.
  - destruct G as [G|[_ G]]; [now left|right; split; [lia|exact G]].
  - unfold refers in *. now rewrite S, F.
  - split; [|lia]. cbn [obind continue round_ok]. rewrite zlen_put in Z'. split; [exact Z'|].
    split; [exact I'|]. split; [exact Cn|]. fold W. split; [lia|]. now apply (follows_trans _ _ _ F1).
Qed.

Lemma pair_ok n m : node_at E (nd_succ e) = Some n -> node_at W (nd_succ e) = Some n -> nd_count n = 1 ->
  node_at E (nd_fail e) = Some m -> node_at W (nd_fail e) = Some m -> nd_count m = 1 -> round_ok i E e (merge_both true E e).
Proof using Hi I.
  intros Es Ws Cs Ef Wf Cf. unfold merge_both. rewrite Es, Ef.
  destruct (Z.eqb_spec (nd_succ n) (nd_succ m)) as [X|]; [|exact Logic.I].
  destruct (Z.eqb_spec (nd_fail n) (nd_fail m)) as [Y|]; [|exact Logic.I]. cbn [negb orb].
  destruct (merge_pair W i e n m _ I node_here Ws Cs Wf Cf X Y eq_refl)
    as (I1 & F1 & Z1 & L1 & Bs & Bf & D & G1 & G2 & _).
  set (new := mkNode _ _ _ _) in *. unfold question. fold new.
  rewrite (deref_last_put E i (Some e) [] (nd_succ e) n I) by (lia || assumption). cbn [obind].
  assert (Q : WinDivertDerefExpr (put E (nd_succ e) None) (nd_fail e) = Some (put (put E (nd_succ e) None) (nd_fail e) None)).
  { rewrite deref_put, (deref_last_put E i (Some e) [] (nd_fail e) m I) by (lia || assumption).
    cbn [option_map]. f_equal. apply put_comm; lia. }
  rewrite Q. cbn [obind fst snd]. set (E2 := put (put E (nd_succ e) None) (nd_fail e) None) in *.
  assert (T : put (put (put W (nd_succ e) None) (nd_fail e) None) i (Some new) = put E2 i (Some new)).
  { unfold W, E2. rewrite (put_comm E i (nd_succ e)), (put_comm (put E (nd_succ e) None) i (nd_fail e)) by lia. apply put_twice. }
  rewrite T in *. assert (Z2 : zlen E2 = zlen E) by (unfold E2; now rewrite !zlen_put).
  destruct (deref_beside E2 i new (nd_succ n) [nd_fail m]) as (E3 & -> & I3 & Z3 & L3 & F3); auto; [lia|..].
  { unfold refers, new. cbn [nd_succ nd_fail]. rewrite Z.eqb_refl. destruct (_ =? _); cbn; lia. }
  cbn [obind]. destruct (deref_beside E3 i new (nd_fail m) []) as (E4 & -> & I4 & Z4 & L4 & F4); auto; [lia|..].
  { apply (inv_goes _ _ I3 i new). apply node_at_same. lia. }
  { unfold refers, new. cbn [nd_succ nd_fail]. rewrite Z.eqb_refl. destruct (_ =? _); cbn; lia. }
  cbn [obind continue round_ok]. fold W. split; [lia|]. split; [exact I4|]. split; [reflexivity|]. split; [lia|].
  now apply (follows_trans _ _ _ F1), (follows_trans _ _ _ F3).
Qed.

(** Where the paths of a merged node go. *)
Lemma path_ok t n new : node_at W t = Some n -> 
  (forall h, (dexpr_holds h (nd_expr e) = true -> nd_succ e = t /\ next h new = next h n \/ next h new = nd_succ e) /\
             (dexpr_holds h (nd_expr e) = false -> nd_fail e = t /\ next h new = next h n \/ next h new = nd_fail e)) ->
  forall h r, leads h W i r -> leads h W (next h new) r.
Proof using Hi I.
  intros Wt P h r L. pose proof (leads_inv _ _ _ _ _ _ I node_here L) as X. destruct (P h) as [A B]. unfold next at 1 in X.
  destruct (dexpr_holds h (nd_expr e)); [destruct (A eq_refl) as [[Et ->] | ->]|destruct (B eq_refl) as [[Et ->] | ->]]; try exact X;
    rewrite Et in X; exact (leads_inv _ _ _ _ _ _ I Wt X).
Qed.

Lemma merge_fail_ok single : (single = true -> exists n, node_at E (nd_succ e) = Some n /\ node_at W (nd_succ e) = Some n /\ nd_count n = 1) ->
  round_ok i E e (merge_fail true E e single).
Proof using Hi I.
  intros Hs. unfold merge_fail. pose proof (target_ok (nd_fail e) (or_intror eq_refl)) as T.
  destruct (target_of E (nd_fail e)) as [|n|]; [exact Logic.I| |destruct T]. destruct T as (Lt & Wt & Et).
  destruct (Z.eqb_spec (nd_count n) 1) as [C|]; [|exact Logic.I]. cbn [negb].
  destruct (Z.eqb_spec (nd_succ n) (nd_succ e)) as [X|NX].
  { unfold WinDivertSimplifyAndOr. rewrite Et. eapply (chain_ok (nd_fail e) n (nd_succ e)); auto; cbn.
    - intros j. unfold refers. lia.
    - unfold refers. rewrite X, Z.eqb_refl. destruct (_ =? _); cbn; lia.
    - apply (path_ok (nd_fail e) n _ Wt). intros h. unfold next. cbn. split; intros ->; cbn; auto. }
  destruct (Z.eqb_spec (nd_fail n) (nd_succ e)) as [X|NY].
  { unfold question.
    edestruct (chain_ok (nd_fail e) n (nd_succ e) (mkNode (DQuestion (nd_expr e) DFalse (nd_expr n)) (nd_succ n) (nd_fail n) (nd_count e)))
      as [R D]; auto; cbn.
    - intros j. unfold refers. lia.
    - unfold refers. rewrite X, Z.eqb_refl. destruct (_ =? _); cbn; lia.
    - apply (path_ok (nd_fail e) n _ Wt). intros h. unfold next. cbn. split; intros ->; cbn; auto.
    - rewrite deref_swap by congruence. exact R. }
  destruct single; [|exact Logic.I]. destruct (Hs eq_refl) as (s & Es & Ws & Cs). now apply (pair_ok s n).
Qed.

Lemma merge_round_ok : round_ok i E e (merge_round true E e).
Proof using Hi I.
  unfold merge_round. pose proof (target_ok (nd_succ e) (or_introl eq_refl)) as T.
  destruct (target_of E (nd_succ e)) as [|n|]; [now apply merge_fail_ok| |destruct T]. destruct T as (Lt & Wt & Et).
  destruct (Z.eqb_spec (nd_count n) 1) as [C|]; [|now apply merge_fail_ok]. cbn [negb].
  destruct (Z.eqb_spec (nd_fail n) (nd_fail e)) as [X|NX].
  { unfold WinDivertSimplifyAndOr. rewrite Et. eapply (chain_ok (nd_succ e) n (nd_fail e)); auto; cbn.
    - unfold refers. rewrite X, Z.eqb_refl. destruct (_ =? _); cbn; lia.
    - apply (path_ok (nd_succ e) n _ Wt). intros h. unfold next. cbn. split; intros ->; cbn; auto. }
  destruct (Z.eqb_spec (nd_succ n) (nd_fail e)) as [X|NY]; [|apply merge_fail_ok; eauto].
  unfold question. eapply (chain_ok (nd_succ e) n (nd_fail e)); auto; cbn.
  - unfold refers. rewrite X, Z.eqb_refl. destruct (_ =? _); cbn; lia.
  - apply (path_ok (nd_succ e) n _ Wt). intros h. unfold next. cbn. split; intros ->; cbn; auto.
Qed.
End Round.

Lemma live_bound V : live V <= zlen V.
Proof.
  unfold live. induction V as [|o V IH]; [apply Z.le_refl|]. rewrite zlen_cons.
  change (weight o + zsum (map weight V) <= 1 + zlen V). destruct o; cbn [weight]; lia.
Qed.

Lemma live_nonneg V : 0 <= live V.
Proof.
  apply zsum_nonneg, Forall_forall. intros x H. apply in_map_iff in H. destruct H as ([y|] & <- & _); cbn; lia.
Qed.

(** Only allocated expressions are merged. *)
Lemma merge_round_break ok E e : merge_round true E e = MBreak -> merge_round ok E e = MBreak.
Proof.
  destruct ok; [auto|]. unfold merge_round, merge_fail, merge_both, continue.
  destruct (target_of E (nd_succ e)); repeat (case_if || match goal with |- context [match ?x with _ => _ end] => destruct x end);
    try discriminate; auto.
Qed.

(** What merging leaves: [live] pays for the expressions. *)
Definition merged_to (p : pool) (V : exprs_array) (p' : pool) (V' : exprs_array) : Prop :=
  inv V' [] /\ zlen V' = zlen V /\ follows V V' /\ live V' <= live V /\ spent (live V - live V') p p'.

Lemma merged_refl p V : inv V [] -> merged_to p V p V.
Proof.
  intros I. split; [exact I|]. split; [reflexivity|]. split; [apply follows_refl|]. split; [lia|].
  rewrite Z.sub_diag. apply spent_none.
Qed.

Lemma merged_trans p V p1 V1 p2 V2 : merged_to p V p1 V1 -> merged_to p1 V1 p2 V2 -> merged_to p V p2 V2.
Proof.
  intros (_ & Z & F & L & S) (I & Z' & F' & L' & S'). split; [exact I|]. split; [lia|].
  split; [eapply follows_trans; eassumption|]. split; [lia|].
  eapply spent_more; [|exact (spent_trans _ _ _ _ _ S S')]. lia.
Qed.

(** Merging ends, and keeps what the array decides. *)
Lemma merge_loop_ok i : forall fuel p E e, 0 <= i < zlen E -> inv (put E i (Some e)) [] -> nd_count e <> 0 ->
  live (put E i (Some e)) < Z.of_nat fuel -> pool_max p <> 0 -> live (put E i (Some e)) <= room p ->
  exists p' V', merge_loop fuel p E i e = Some (p', V') /\ merged_to p (put E i (Some e)) p' V'.
Proof.
  induction fuel as [|fuel IH]; intros p E e Hi I C L M R; [pose proof (live_nonneg (put E i (Some e))); lia|].
  cbn [merge_loop]. destruct (Z.eqb_spec (nd_count e) 0); [contradiction|].
  pose proof (merge_round_ok E i e Hi I) as K. destruct (merge_round true E e) as [| | |E' e'] eqn:X; [destruct K| |destruct K|].
  - destruct (pool_expr p) as [ok p1]. rewrite (merge_round_break ok _ _ X).
    exists p, (put E i (Some e)). split; [reflexivity|]. now apply merged_refl.
  - destruct K as (Z & I' & C' & L' & F). pose proof (live_nonneg (put E' i (Some e'))).
    destruct (pool_expr_ok p M) as (p1 & -> & S); [lia|]. rewrite X. pose proof S as (M1 & _ & R1).
    destruct (IH p1 E' e') as (p' & V' & -> & T); [lia|exact I'|lia|lia|congruence|lia|].
    exists p', V'. split; [reflexivity|]. apply (merged_trans p _ p1 (put E' i (Some e'))); [|exact T].
    split; [exact I'|]. rewrite !zlen_put. split; [exact Z|]. split; [exact F|]. split; [lia|].
    eapply spent_more; [|exact S]. lia.
Qed.

Lemma coalesce_ok p V i : 0 <= i < zlen V -> inv V [] -> pool_max p <> 0 -> live V <= room p ->
  exists p' V', WinDivertCoalesceAndOr p V i = Some (p', V') /\ merged_to p V p' V'.
Proof.
  intros Hi I M R. unfold WinDivertCoalesceAndOr. rewrite node_at_nth by exact Hi.
  destruct (node_at V i) as [e|] eqn:E; [|exists p, V; auto using merged_refl].
  destruct (Z.eq_dec (nd_count e) 0) as [C|C].
  { exists p, V. cbn [merge_loop]. rewrite C. auto using merged_refl. }
  pose proof (put_same V i e E) as P. destruct (merge_loop_ok i (S (length V)) p V e Hi) as (p' & V' & H & T);
    rewrite ?P; auto; [pose proof (live_bound V); unfold zlen in *; lia|].
  exists p', V'. rewrite P in T. auto.
Qed.

Lemma coalesce_tests_ok : forall k p V, Z.of_nat k <= zlen V -> inv V [] -> pool_max p <> 0 -> live V <= room p ->
  exists p' V', coalesce_tests k p V = Some (p', V') /\ merged_to p V p' V'.
Proof.
  induction k as [|k IH]; intros p V H I M R; [exists p, V; auto using merged_refl|].
  destruct (coalesce_ok p V (Z.of_nat k)) as (p1 & V1 & E1 & T1); [lia|exact I|exact M|exact R|].
  cbn [coalesce_tests]. rewrite E1. cbn [obind]. pose proof T1 as (I1 & Z1 & _ & L1 & M1 & _ & R1).
  destruct (IH p1 V1) as (p' & V' & E' & T'); [lia|exact I1|congruence|lia|].
  exists p', V'. split; [exact E'|]. eapply merged_trans; eassumption.
Qed.

(** The expressions that unfolding from [l] can take. *)
Definition unfolds (V : exprs_array) (l : Z) : Z := if is_result l then 0 else 2 ^ (zlen V - l) - 1.

(** Unfolding gives an expression for every node, or runs out of memory; it
    does not if the pool has room for the unfolded graph. *)
Definition unfolded (V : exprs_array) (l : Z) (p : pool) (r : option (pool * option DEXPR)) : Prop :=
  exists p' o, r = Some (p', o) /\ pool_max p' = pool_max p /\
  match o with
  | Some e => (p_error p = Some ENOMEM -> p_error p' = Some ENOMEM) /\ forall h b, leads h V l b -> dexpr_holds h e = b
  | None => p_error p' = Some ENOMEM
  end /\
  (unfolds V l <= room p -> o <> None /\ spent (unfolds V l) p p').

Lemma unfolded_result V l p fuel : inv V [] -> is_result l = true -> unfolded V l p (WinDivertCoalesceExpr fuel p V l).
Proof.
  intros I R. assert (L : forall h b, leads h V l b -> b = (l =? WINDIVERT_FILTER_RESULT_ACCEPT)).
  { intros h b L. inversion L as [| |j m s M]; [reflexivity..|]. apply (node_no_result _ _ _ _ I) in M. congruence. }
  assert (S : unfolds V l = 0) by (unfold unfolds; now rewrite R). exists p. unfold is_result in R.
  destruct (Z.eqb_spec l WINDIVERT_FILTER_RESULT_ACCEPT) as [->|].
  - exists (Some DTrue). rewrite S. split; [destruct fuel; reflexivity|]. repeat split; auto; try discriminate; try lia.
    intros h b Lb. symmetry. now apply (L h).
  - apply Z.eqb_eq in R. subst l. exists (Some DFalse). rewrite S. split; [destruct fuel; reflexivity|].
    repeat split; auto; try discriminate; try lia. intros h b Lb. symmetry. now apply (L h).
Qed.

Lemma unfolds_step V l s f : 0 <= l < zlen V -> is_result l = false ->
  (is_result s = true \/ l < s < zlen V) -> (is_result f = true \/ l < f < zlen V) ->
  0 <= unfolds V s /\ 0 <= unfolds V f /\ unfolds V s + unfolds V f + 1 <= unfolds V l.
Proof.
  intros Hl R Hs Hf. assert (B : forall t, is_result t = true \/ l < t < zlen V -> 0 <= unfolds V t <= 2 ^ (zlen V - l - 1) - 1).
  { intros t Ht. unfold unfolds. assert (0 < 2 ^ (zlen V - l - 1)) by (apply Z.pow_pos_nonneg; lia).
    destruct (is_result t); [lia|]. destruct Ht as [Ht|Ht]; [discriminate Ht|].
    assert (0 < 2 ^ (zlen V - t)) by (apply Z.pow_pos_nonneg; lia).
    assert (2 ^ (zlen V - t) <= 2 ^ (zlen V - l - 1)) by (apply Z.pow_le_mono_r; lia). lia. }
  pose proof (B s Hs). pose proof (B f Hf). unfold unfolds at 5. rewrite R.
  replace (zlen V - l) with (Z.succ (zlen V - l - 1)) by lia. rewrite Z.pow_succ_r by lia. lia.
Qed.

(** The expression of a node from those of its continuations. *)
Lemma unfold_node V l n p p1 s p2 f : inv V [] -> node_at V l = Some n -> pool_max p <> 0 ->
  pool_max p1 = pool_max p -> pool_max p2 = pool_max p1 ->
  unfolds V (nd_succ n) + unfolds V (nd_fail n) + 1 <= unfolds V l -> 0 <= unfolds V (nd_fail n) ->
  match s with
  | Some e => (p_error p = Some ENOMEM -> p_error p1 = Some ENOMEM) /\ forall h b, leads h V (nd_succ n) b -> dexpr_holds h e = b
  | None => p_error p1 = Some ENOMEM end ->
  (unfolds V (nd_succ n) <= room p -> s <> None /\ spent (unfolds V (nd_succ n)) p p1) ->
  match f with
  | Some e => (p_error p1 = Some ENOMEM -> p_error p2 = Some ENOMEM) /\ forall h b, leads h V (nd_fail n) b -> dexpr_holds h e = b
  | None => p_error p2 = Some ENOMEM end ->
  (unfolds V (nd_fail n) <= room p1 -> f <> None /\ spent (unfolds V (nd_fail n)) p1 p2) ->
  unfolded V l p
    match s, f with
    | Some s, Some f =>
      if is_true s && is_false f then Some (p2, Some (nd_expr n))
      else let '(ok, p) := pool_expr p2 in Some (p, if ok then Some (DQuestion (nd_expr n) s f) else None)
    | _, _ => Some (p2, None)
    end.
Proof.
  intros I N M M1 M2 U Uf H1 T1 H2 T2.
  assert (T : unfolds V l <= room p -> s <> None /\ f <> None /\ spent (unfolds V l - 1) p p2).
  { intros Q. destruct T1 as [A S1]; [lia|]. pose proof S1 as (_ & _ & Q1). destruct T2 as [B S2]; [lia|].
    split; [exact A|]. split; [exact B|]. eapply spent_more; [|exact (spent_trans _ _ _ _ _ S1 S2)]. lia. }
  destruct s as [s|]; [destruct f as [f|]|].
  2, 3: exists p2, None; split; [reflexivity|]; split; [congruence|]; split;
    [(destruct f as [f|]; [now apply H2|exact H2]) || exact H2|intros Q; destruct (T Q) as (? & ? & _); congruence].
  assert (X : forall h b, leads h V l b -> (if dexpr_holds h (nd_expr n) then dexpr_holds h s else dexpr_holds h f) = b).
  { intros h b L. apply (leads_inv _ _ _ _ n b I N) in L. unfold next in L.
    destruct (dexpr_holds h (nd_expr n)); [now apply H1|now apply H2]. }
  destruct (is_true s && is_false f) eqn:K.
  - exists p2, (Some (nd_expr n)). split; [reflexivity|]. split; [congruence|]. split.
    + split; [intros E; now apply H2, H1|]. intros h b L. rewrite <- (X h b L). destruct s, f; try discriminate K.
      cbn. now destruct (dexpr_holds h (nd_expr n)).
    + intros Q. destruct (T Q) as (_ & _ & S). split; [discriminate|]. eapply spent_more; [|exact S]. lia.
  - destruct (pool_expr p2) as [ok p3] eqn:P. exists p3. eexists. split; [reflexivity|].
    assert (G : unfolds V l <= room p -> ok = true /\ spent (unfolds V l) p p3).
    { intros Q. destruct (T Q) as (_ & _ & S). pose proof S as (_ & _ & Q2).
      destruct (pool_expr_ok p2) as (q & Eq & Sq); [congruence|lia|]. rewrite P in Eq. injection Eq as -> ->.
      split; [reflexivity|]. eapply spent_more; [|exact (spent_trans _ _ _ _ _ S Sq)]. lia. }
    destruct ok.
    + destruct (pool_expr_done _ _ P) as [E3 M3]. split; [congruence|]. split.
      * split; [intros E; rewrite E3; now apply H2, H1|exact X].
      * intros Q. split; [discriminate|]. now apply G.
    + destruct (pool_expr_full _ _ P) as [E3 M3]. split; [congruence|]. split; [exact E3|]. intros Q. destruct (G Q) as [D _]. discriminate D.
Qed.

Lemma unfolded_ok V : inv V [] -> forall fuel p l, pool_max p <> 0 -> is_result l = true \/ (exists n, node_at V l = Some n) ->
  zlen V - l < Z.of_nat fuel -> unfolded V l p (WinDivertCoalesceExpr fuel p V l).
Proof.
  intros I. induction fuel as [|fuel IH]; intros p l M [R|[n N]] F; auto using unfolded_result; [apply node_at_range in N; lia|].
  pose proof (node_no_result _ _ _ _ I N) as R. pose proof (node_at_range _ _ _ N) as B. destruct (inv_goes _ _ I l n N) as [Gs Gf].
  assert (J : forall t, goes V l t -> is_result t = true \/ l < t < zlen V)
    by (intros t [G|[G [m Hm]]]; [now left|right; apply node_at_range in Hm; lia]).
  assert (Rec : forall q t, pool_max q <> 0 -> goes V l t -> unfolded V t q (WinDivertCoalesceExpr fuel q V t)).
  { intros q t Mq [G|[G X]]; [now apply unfolded_result|]. apply IH; [exact Mq|now right|lia]. }
  destruct (unfolds_step V l _ _ B R (J _ Gs) (J _ Gf)) as (Us & Uf & U).
  unfold is_result in R. apply orb_false_iff in R. destruct R as [R1 R2].
  cbn [WinDivertCoalesceExpr]. rewrite R1, R2, node_at_nth, N by exact B.
  destruct (Rec p _ M Gs) as (p1 & s & E1 & M1 & H1 & T1).
  destruct (Z.eqb_spec (nd_succ n) (nd_fail n)) as [E|_].
  { rewrite E1. exists p1, s. split; [reflexivity|]. split; [exact M1|]. split.
    - destruct s as [s|]; [|exact H1]. split; [apply H1|]. intros h b L. apply H1.
      apply (leads_inv _ _ _ _ n b I N) in L. unfold next in L. rewrite <- E in L. now destruct (dexpr_holds h (nd_expr n)).
    - intros Q. destruct T1 as [T1 S1]; [lia|]. split; [exact T1|]. eapply spent_more; [|exact S1]. lia. }
  rewrite E1. cbn [obind]. destruct (Rec p1 _ ltac:(congruence) Gf) as (p2 & f & -> & M2 & H2 & T2). cbn [obind].
  apply (unfold_node V l n p p1 s p2 f); auto.
Qed.

(** ** Decompiled tests *)

Definition test_of (x : WINDIVERT_FILTER) : TEST_EXPR :=
  let kind := field_kind (field x) in
  match array_size kind with
  | Some _ => mkTest (kind_of_test (test x)) (mkVar kind (w1 (arg x))) (mkNum false (W128 (w0 (arg x)) 0 0 0))
  | None => mkTest (kind_of_test (test x)) (mkVar kind 0) (mkNum (neg x) (arg x))
  end.

Lemma decompile_test_ok p x : pool_max p <> 0 -> 3 <= room p ->
  exists p', WinDivertDecompileTest p x = (Some (mkNode (DTest (test_of x)) (success x) (failure x) 0), p') /\ spent 3 p p'.
Proof.
  intros M R. assert (A : Z.of_nat (test_allocs x) <= 3) by (unfold test_allocs; destruct (array_size _); cbn; lia).
  destruct (pool_exprs_ok (test_allocs x) p M) as (p' & E & S); [lia|]. exists p'. split; [|now apply (spent_more (Z.of_nat (test_allocs x)))].
  unfold WinDivertDecompileTest, decompile_operands, test_of. rewrite E.
  destruct (array_size (field_kind (field x))) eqn:K; [reflexivity|].
  rewrite make_var_ok; [reflexivity|]. now destruct (field x).
Qed.

(** The decompiler forgets the sign of a constant compared with an array. *)
Definition sign_kept (x : WINDIVERT_FILTER) : bool :=
  match array_size (field_kind (field x)) with Some _ => negb (neg x) | None => true end.

Lemma array_value_small a f i n : array_size (field_kind f) = Some n ->
  match fetch_field a f i with FVal _ big _ => big = false | _ => True end.
Proof.
  destruct f; intros H; try discriminate H; cbn [fetch_field fetch_meta]; unfold WinDivertGetData;
    (destruct (_ || _); [exact I|unfold loads; case_if; [reflexivity|exact I]]).
Qed.

Lemma test_of_holds a x : sign_kept x = true -> emitted_holds a (test_of x) = insn_holds a x.
Proof.
  intros K. assert (F : WinDivertKindToField (field_kind (field x)) = Some (field x)) by (now destruct (field x)).
  assert (T : test_of_kind (kind_of_test (test x)) = Some (test x)) by (now destruct (test x)).
  unfold sign_kept in K. unfold emitted_holds, WinDivertEmitTest, test_of, emit_arg. cbn [e_test].
  destruct (array_size (field_kind (field x))) as [n|] eqn:A; cbn [t_kind t_var t_val v_kind v_idx n_neg n_val];
    rewrite T, F, A; unfold insn_holds, exec_insn; cbn [field test neg arg w0 w1 w2 w3]; [|reflexivity].
  destruct (negb (WinDivertValidateField _ _)); [reflexivity|]. destruct (header_present a (field x)); [|reflexivity].
  pose proof (array_value_small a (field x) (w1 (arg x)) n A) as S. apply negb_true_iff in K. rewrite K.
  destruct (fetch_field a (field x) (w1 (arg x))) as [g b v| | |]; [subst b|reflexivity..].
  unfold WinDivertCompare128. reflexivity.
Qed.

(** ** The initial array *)

Definition insn_refs (j : Z) (x : WINDIVERT_FILTER) : Z := b2z (success x =? j) + b2z (failure x =? j).

Definition obj_refs (obj : list WINDIVERT_FILTER) (j : Z) : Z := zsum (map (insn_refs j) obj).

(** No instruction has more predecessors than an 8-bit count can count. *)
Definition counts_fit (obj : list WINDIVERT_FILTER) : bool :=
  forallb (fun j => obj_refs obj (Z.of_nat j) <=? 255) (seq 0 (length obj)).

Lemma insn_refs_range j x : 0 <= insn_refs j x <= 2.
Proof. unfold insn_refs. destruct (_ =? j), (_ =? j); cbn; lia. Qed.

Lemma obj_refs_cons x obj j : obj_refs (x :: obj) j = insn_refs j x + obj_refs obj j.
Proof. reflexivity. Qed.

Lemma obj_refs_nonneg obj j : 0 <= obj_refs obj j.
Proof. induction obj as [|x obj IH]; [cbn; lia|]. rewrite obj_refs_cons. pose proof (insn_refs_range j x). lia. Qed.

Lemma obj_refs_skipn obj j : forall k, obj_refs (skipn k obj) j <= obj_refs obj j.
Proof.
  induction obj as [|x obj IH]; intros [|k]; cbn [skipn]; try lia. rewrite obj_refs_cons.
  pose proof (insn_refs_range j x). specialize (IH k). lia.
Qed.

Lemma counts_fit_nth obj j : counts_fit obj = true -> 0 <= j < zlen obj -> obj_refs obj j <= 255.
Proof.
  intros H Hj. unfold counts_fit in H. rewrite forallb_forall in H.
  specialize (H (Z.to_nat j)). rewrite Z2Nat.id in H by lia. apply Z.leb_le, H, in_seq. unfold zlen in Hj. lia.
Qed.

(** Objects of up to 127 instructions always fit. *)
Lemma small_counts_fit obj : zlen obj <= 127 -> counts_fit obj = true.
Proof.
  intros H. assert (B : forall l j, obj_refs l j <= 2 * zlen l).
  { induction l as [|x l IH]; intros j; [apply Z.le_refl|]. rewrite obj_refs_cons, zlen_cons.
    pose proof (insn_refs_range j x). specialize (IH j). lia. }
  apply forallb_forall. intros j _. apply Z.leb_le. specialize (B obj (Z.of_nat j)). lia.
Qed.

Lemma skipn_at {A} (x : A) : forall l k, nth_error l k = Some x -> skipn k l = x :: skipn (S k) l.
Proof. induction l as [|y l IH]; intros [|k] H; cbn in H; try discriminate; [injection H as ->; reflexivity|]. now apply IH. Qed.

(** Nothing behind an instruction jumps back to it. *)
Lemma refs_forward layer obj : wf_filter layer obj = true -> forall k j, j <= Z.of_nat k ->
  obj_refs (skipn k obj) j = 0.
Proof.
  intros W. assert (Len : zlen obj <= WINDIVERT_FILTER_MAXLEN) by (unfold wf_filter in W; b2p; lia).
  assert (G : forall n k j, (length obj - k <= n)%nat -> j <= Z.of_nat k -> obj_refs (skipn k obj) j = 0).
  { induction n as [|n IH]; intros k j Hn Hj; [rewrite skipn_all2 by lia; reflexivity|].
    destruct (nth_error obj k) as [x|] eqn:E; [|apply nth_error_None in E; rewrite skipn_all2 by lia; reflexivity].
    rewrite (skipn_at _ _ _ E), obj_refs_cons, IH by lia.
    pose proof (wf_filter_nth _ _ _ _ W E) as I. unfold insn_ok, jump_ok in I. b2p.
    assert (k < length obj)%nat by (apply nth_error_Some; congruence). unfold insn_refs, zlen in *.
    unfold WINDIVERT_FILTER_RESULT_ACCEPT, WINDIVERT_FILTER_RESULT_REJECT, WINDIVERT_FILTER_MAXLEN in *.
    destruct (Z.eqb_spec (success x) j), (Z.eqb_spec (failure x) j); cbn; lia. }
  intros k j. apply (G (length obj)). lia.
Qed.

Definition bump (o j : Z) (n : node) : node := with_count n (nd_count n + b2z (o =? j)).

(** Counting one reference. *)
Lemma count_ref_ok V o : zlen V <= WINDIVERT_FILTER_MAXLEN ->
  is_result o = true \/ (exists n, node_at V o = Some n /\ 0 <= nd_count n <= 254) ->
  exists V', count_ref V o = Some V' /\ zlen V' = zlen V /\ (forall j, refs V' j = refs V j) /\
  forall j, node_at V' j = option_map (bump o j) (node_at V j).
Proof.
  intros Z H. unfold count_ref.
  assert (Same : forall j n, o <> j -> Some n = Some (bump o j n)).
  { intros j n D. unfold bump, with_count. replace (o =? j) with false by lia. rewrite Z.add_0_r. now destruct n. }
  destruct (is_result o) eqn:R.
  - exists V. repeat (split; [reflexivity|]). intros j. destruct (node_at V j) as [n|] eqn:N; [|reflexivity].
    apply Same. intros ->. apply node_at_range in N. rewrite (index_no_result V j) in R by lia. discriminate R.
  - destruct H as [H|(n & N & C)]; [discriminate H|]. rewrite N. pose proof (node_at_range _ _ _ N) as B.
    rewrite u8_small by lia. eexists. split; [reflexivity|]. split; [apply zlen_put|]. split.
    + intros j. rewrite refs_put, N by exact B. cbn [uses]. unfold refers. cbn. lia.
    + intros j. destruct (Z.eq_dec o j) as [<-|D].
      * rewrite node_at_same, N by exact B. cbn [option_map]. unfold bump. now rewrite Z.eqb_refl.
      * rewrite node_at_other by lia. destruct (node_at V j); [now apply Same|reflexivity].
Qed.

Definition start_node (c : Z) (x : WINDIVERT_FILTER) : node := mkNode (DTest (test_of x)) (success x) (failure x) c.

(** The array when the instructions from [k] on are decompiled. *)
Record built (obj : list WINDIVERT_FILTER) (k : nat) (V : exprs_array) : Prop := {
  built_len : zlen V = zlen obj;
  built_refs j : refs V j = obj_refs (skipn k obj) j;
  built_node j : node_at V j =
    if (j <? Z.of_nat k) then None
    else option_map (start_node (obj_refs (skipn k obj) j)) (nth_error obj (Z.to_nat j))
}.

Section Build.
Variable layer : WINDIVERT_LAYER.
Variable obj : list WINDIVERT_FILTER.
Hypothesis W : wf_filter layer obj = true.
Hypothesis C : counts_fit obj = true.

Lemma obj_len : 1 <= zlen obj <= WINDIVERT_FILTER_MAXLEN.
Proof using W. clear C. unfold wf_filter in W. b2p. lia. Qed.

Lemma jump_cases k x : nth_error obj k = Some x ->
  (is_result (success x) = true \/ Z.of_nat k < success x < zlen obj) /\
  (is_result (failure x) = true \/ Z.of_nat k < failure x < zlen obj).
Proof using W.
  intros H. pose proof (wf_filter_nth _ _ _ _ W H) as I. unfold insn_ok, jump_ok in I. unfold is_result.
  rewrite !andb_true_iff, !orb_true_iff, !andb_true_iff, !Z.ltb_lt in I. rewrite !orb_true_iff. tauto.
Qed.

Lemma nth_in j : 0 <= j < zlen obj -> exists x, nth_error obj (Z.to_nat j) = Some x.
Proof using.
  clear W C. intros H. destruct (nth_error obj (Z.to_nat j)) eqn:E; [eauto|]. apply nth_error_None in E. unfold zlen in H. lia.
Qed.

(** The node of an instruction with the references from [k] on. *)
Lemma build_step k x V : nth_error obj k = Some x -> built obj (S k) V ->
  exists V1 V2, count_ref (put V (Z.of_nat k) (Some (start_node 0 x))) (success x) = Some V1 /\
  count_ref V1 (failure x) = Some V2 /\ built obj k V2.
Proof using W C.
  intros E [L R N]. pose proof (jump_cases k x E) as [Js Jf]. pose proof obj_len as Ol.
  assert (Kl : Z.of_nat k < zlen obj)
    by (assert (k < length obj)%nat by (apply nth_error_Some; congruence); unfold zlen; lia).
  assert (Sk : forall j, obj_refs (skipn k obj) j = insn_refs j x + obj_refs (skipn (S k) obj) j)
    by (intros j; now rewrite (skipn_at _ _ _ E)).
  set (V0 := put V (Z.of_nat k) (Some (start_node 0 x))).
  assert (L0 : zlen V0 = zlen obj) by (unfold V0; now rewrite zlen_put).
  assert (N0 : forall j, node_at V0 j = if j <? Z.of_nat k then None
    else option_map (start_node (obj_refs (skipn (S k) obj) j)) (nth_error obj (Z.to_nat j))).
  { intros j. destruct (Z.eq_dec (Z.of_nat k) j) as [<-|D].
    - unfold V0. rewrite node_at_same by lia. rewrite Nat2Z.id, E.
      rewrite (refs_forward _ _ W) by lia. now rewrite Z.ltb_irrefl.
    - unfold V0. rewrite node_at_other, N by lia. destruct (Z.ltb_spec j (Z.of_nat (S k))), (Z.ltb_spec j (Z.of_nat k)); try lia; reflexivity. }
  assert (Tgt : forall l, Z.of_nat k < l < zlen obj -> exists n, node_at V0 l = Some n /\ nd_count n = obj_refs (skipn (S k) obj) l).
  { intros l Hl. rewrite N0. destruct (Z.ltb_spec l (Z.of_nat k)); [lia|]. destruct (nth_in l) as [y ->]; [lia|].
    cbn [option_map]. eauto. }
  assert (B : forall l, Z.of_nat k < l < zlen obj -> insn_refs l x + obj_refs (skipn (S k) obj) l <= 255)
    by (intros l Hl; rewrite <- Sk; pose proof (obj_refs_skipn obj l k); pose proof (counts_fit_nth obj l C); lia).
  destruct (count_ref_ok V0 (success x)) as (V1 & -> & L1 & R1 & N1); [lia|..].
  { destruct Js as [J|J]; [now left|right]. destruct (Tgt _ J) as (n & Hn & Cn). exists n. split; [exact Hn|].
    specialize (B _ J). unfold insn_refs in B. rewrite Z.eqb_refl in B. cbn [b2z] in B.
    pose proof (obj_refs_nonneg (skipn (S k) obj) (success x)). destruct (failure x =? success x); cbn [b2z] in B; lia. }
  destruct (count_ref_ok V1 (failure x)) as (V2 & H2 & L2 & R2 & N2); [lia|..].
  { destruct Jf as [J|J]; [now left|right]. destruct (Tgt _ J) as (n & Hn & Cn). rewrite N1, Hn. cbn [option_map].
    eexists. split; [reflexivity|]. unfold bump. cbn [nd_count with_count]. rewrite Cn.
    specialize (B _ J). unfold insn_refs in B. rewrite Z.eqb_refl in B. cbn [b2z] in B.
    pose proof (obj_refs_nonneg (skipn (S k) obj) (failure x)). destruct (success x =? failure x); cbn [b2z] in *; lia. }
  exists V1, V2. split; [reflexivity|]. split; [exact H2|]. split; [lia|..].
  - intros j. rewrite R2, R1. unfold V0. rewrite refs_put by lia.
    assert (node_at V (Z.of_nat k) = None) as -> by (rewrite N; destruct (Z.ltb_spec (Z.of_nat k) (Z.of_nat (S k))); [reflexivity|lia]).
    cbn [uses]. rewrite R, Sk. unfold refers, insn_refs. cbn [nd_succ nd_fail start_node]. lia.
  - intros j. rewrite N2, N1, N0. destruct (j <? Z.of_nat k); [reflexivity|].
    destruct (nth_error obj (Z.to_nat j)) as [y|]; [|reflexivity]. cbn [option_map]. f_equal.
    unfold bump, with_count, start_node. cbn [nd_expr nd_succ nd_fail nd_count]. f_equal. rewrite Sk. unfold insn_refs. lia.
Qed.

Lemma build_ok : forall k p V, (k <= length obj)%nat -> built obj k V -> pool_max p <> 0 -> 3 * Z.of_nat k <= room p ->
  exists p' V', decompile_tests obj k p V = Some (p', Some V') /\ built obj 0 V' /\ spent (3 * Z.of_nat k) p p'.
Proof using W C.
  induction k as [|k IH]; intros p V Hk B M R; [exists p, V; auto using spent_none|]. cbn [decompile_tests].
  destruct (nth_error obj k) as [x|] eqn:E; [|apply nth_error_None in E; lia].
  destruct (decompile_test_ok p x M) as (p1 & -> & S1); [lia|]. cbn [nd_succ nd_fail]. pose proof S1 as (M1 & _ & R1).
  destruct (build_step k x V E B) as (V1 & V2 & H1 & H2 & B2). fold (start_node 0 x). rewrite H1. cbn [obind].
  rewrite H2. cbn [obind]. destruct (IH p1 V2) as (p' & V' & E' & B' & S'); [lia|exact B2|congruence|lia|].
  exists p', V'. split; [exact E'|]. split; [exact B'|]. eapply spent_more; [|exact (spent_trans _ _ _ _ _ S1 S')]. lia.
Qed.

Lemma build_start : built obj (length obj) (repeat None (length obj)).
Proof using.
  clear W C. split.
  - unfold zlen. now rewrite repeat_length.
  - intros j. rewrite skipn_all2 by lia. unfold refs. induction (length obj) as [|n IH]; [reflexivity|exact IH].
  - intros j. assert (node_at (repeat None (length obj)) j = None) as ->.
    { unfold node_at. destruct (j <? 0); [reflexivity|].
      destruct (nth_error _ _) as [o|] eqn:E; [|reflexivity]. apply nth_error_In, repeat_spec in E. now rewrite E. }
    destruct (Z.ltb_spec j (Z.of_nat (length obj))); [reflexivity|].
    assert (nth_error obj (Z.to_nat j) = None) as -> by (apply nth_error_None; lia). reflexivity.
Qed.

(** The array that is merged satisfies the invariant. *)
Lemma initial_ok p : pool_max p <> 0 -> 3 * zlen obj <= room p ->
  exists p' V, decompile_tests obj (length obj) p (repeat None (length obj)) = Some (p', Some V) /\ spent (3 * zlen obj) p p' /\
  exists V', count_ref V 0 = Some V' /\ inv V' [] /\ zlen V' = zlen obj /\
  forall j x, 0 <= j -> nth_error obj (Z.to_nat j) = Some x -> exists c, node_at V' j = Some (start_node c x).
Proof using W C.
  intros M Q. destruct (build_ok (length obj) p _ ltac:(lia) build_start M Q) as (p' & V & E & [L R N] & S).
  exists p', V. split; [exact E|]. split; [exact S|]. clear S Q M E.
  pose proof obj_len as Ol. cbn [skipn] in R, N.
  assert (Node : forall j x, 0 <= j -> nth_error obj (Z.to_nat j) = Some x -> node_at V j = Some (start_node (obj_refs obj j) x)).
  { intros j x Hj Hx. rewrite N, Hx. destruct (Z.ltb_spec j (Z.of_nat 0)); [lia|reflexivity]. }
  assert (Z0 : obj_refs obj 0 = 0) by (apply (refs_forward _ _ W 0); lia).
  destruct (nth_in 0) as [x0 H0]; [lia|].
  destruct (count_ref_ok V 0) as (V' & H & L' & R' & N'); [lia| |].
  { right. rewrite (Node 0 x0) by (exact H0 || lia). eexists. split; [reflexivity|]. cbn [nd_count start_node]. lia. }
  exists V'. split; [exact H|].
  assert (Node' : forall j n, node_at V' j = Some n -> exists x, nth_error obj (Z.to_nat j) = Some x /\
    n = start_node (obj_refs obj j + b2z (j =? 0)) x).
  { intros j n Hn. rewrite N' in Hn. pose proof Hn as Hn'. rewrite N in Hn. destruct (j <? Z.of_nat 0); [discriminate Hn|].
    destruct (nth_error obj (Z.to_nat j)) as [x|]; [|discriminate Hn]. exists x. split; [reflexivity|].
    cbn [option_map] in Hn. injection Hn as <-. unfold bump, with_count, start_node. cbn. now rewrite (Z.eqb_sym j). }
  assert (At : forall j x, 0 <= j -> nth_error obj (Z.to_nat j) = Some x -> exists c, node_at V' j = Some (start_node c x)).
  { intros j x Hj Hx. rewrite N', (Node j x Hj Hx). cbn [option_map]. eexists. reflexivity. }
  split; [|split; [lia|exact At]]. split; [lia|destruct (At 0 x0) as [c Hc]; [lia|exact H0|eauto]|..].
  - intros j n Hn. pose proof (node_at_range _ _ _ Hn) as B. destruct (Node' j n Hn) as (x & Hx & ->).
    destruct (jump_cases _ _ Hx) as [Js Jf]. rewrite Z2Nat.id in Js, Jf by lia. cbn [nd_succ nd_fail start_node].
    assert (G : forall l, is_result l = true \/ j < l < zlen obj -> goes V' j l).
    { intros l [G|G]; [now left|right]. split; [lia|]. destruct (nth_in l) as [y Hy]; [lia|].
      destruct (At l y) as [c Hc]; [lia|exact Hy|eauto]. }
    auto.
  - intros j n Hn. pose proof (node_at_range _ _ _ Hn) as B. destruct (Node' j n Hn) as (x & Hx & ->).
    cbn [nd_count start_node occ map zsum fold_right]. rewrite R', R. pose proof (counts_fit_nth obj j C ltac:(lia)).
    destruct (Z.eqb_spec j 0) as [->|]; cbn [b2z]; lia.
Qed.

(** The array decides as the object is executed. *)
Lemma initial_leads a V P : a_layer a = layer -> args_ok a -> forallb sign_kept obj = true -> inv V P -> zlen V = zlen obj ->
  (forall j x, 0 <= j -> nth_error obj (Z.to_nat j) = Some x -> exists c, node_at V j = Some (start_node c x)) ->
  forall k t, is_result t = true \/ 0 <= t < zlen obj -> zlen obj - t <= Z.of_nat k ->
  leads (emitted_holds a) V t (accepts_at a obj t).
Proof using W.
  clear C. intros La Ha S I Z At. assert (Wa : wf_filter (a_layer a) obj = true) by (now rewrite La).
  assert (Res : forall t, is_result t = true -> leads (emitted_holds a) V t (accepts_at a obj t)).
  { intros t T. unfold is_result in T. apply orb_true_iff in T. rewrite !Z.eqb_eq in T.
    destruct T as [-> | ->]; constructor. }
  induction k as [|k IH]; intros t [T|T] K; auto; [lia|].
  destruct (nth_in t T) as [x Hx]. destruct (At t x) as [c Hc]; [lia|exact Hx|].
  pose proof (node_no_result _ _ _ _ I Hc) as R. unfold is_result in R. apply orb_false_iff in R. destruct R as [R1 R2].
  unfold accepts_at. rewrite R1, R2, (accepts_step a obj Ha Wa t x) by (lia || exact Hx).
  apply (leads_node _ _ _ _ _ Hc). unfold next. cbn [nd_expr nd_succ nd_fail start_node dexpr_holds].
  rewrite test_of_holds by (rewrite forallb_forall in S; apply S; eapply nth_error_In; exact Hx).
  destruct (next_ip_ok a obj Ha Wa t x ltac:(lia) Hx) as [(b & Eb & En) _].
  unfold insn_holds. rewrite Eb, <- En. destruct (jump_cases _ _ Hx) as [Js Jf]. rewrite Z2Nat.id in Js, Jf by lia.
  assert (J : is_result (next_ip a x) = true \/ t < next_ip a x < zlen obj) by (rewrite En; destruct b; assumption).
  destruct J as [J|J]; [auto|]. apply IH; [right|]; lia.
Qed.

(** An object decompiled with a pool: the expression decides as the object,
    or the memory ran out. *)
Definition decompiled (p : pool) (r : option (pool * option DEXPR)) : Prop :=
  exists p' o, r = Some (p', o) /\
  (o = None -> p_error p' = Some ENOMEM /\ room p < 4 * zlen obj + 2 ^ zlen obj - 1) /\
  forall e, o = Some e -> forall a, a_layer a = layer -> args_ok a -> forallb sign_kept obj = true ->
  WinDivertExecuteFilter obj a = VRet (b2z (dexpr_holds (emitted_holds a) e)).

Lemma decompile_faithful p : pool_max p <> 0 -> 4 * zlen obj <= room p -> decompiled p (decompile p obj).
Proof using W C.
  intros M R. pose proof obj_len as Ol. destruct (initial_ok p M) as (p1 & V & E1 & S1 & V1 & E2 & I1 & Z1 & At); [lia|].
  pose proof S1 as (M1 & _ & R1). pose proof (live_bound V1) as Lb.
  destruct (coalesce_tests_ok (length obj) p1 V1) as (p2 & V2 & E3 & I2 & Z2 & F & L2 & S2);
    [unfold zlen in *; lia|exact I1|congruence|lia|].
  destruct (inv_first _ _ I2) as [n0 N0]. pose proof S2 as (M2 & _ & R2). pose proof (live_nonneg V2) as Ln.
  destruct (unfolded_ok V2 I2 (S (length obj)) p2 0) as (p3 & o & E4 & M3 & H & T); [congruence|eauto|unfold zlen in *; lia|].
  exists p3, o. split; [unfold decompile; rewrite E1, E2; cbn [obind]; rewrite E3; exact E4|]. split.
  - intros ->. split; [exact H|]. destruct (Z.lt_ge_cases (room p) (4 * zlen obj + 2 ^ zlen obj - 1)) as [|G]; [assumption|].
    destruct T as [T _]; [|congruence]. unfold unfolds. change (is_result 0) with false. cbv iota.
    replace (zlen V2 - 0) with (zlen obj) by lia. lia.
  - intros e -> a La Ha S. destruct (F 0 n0 N0) as [_ L].
    rewrite ExecuteFilter_accepts by (assumption || now rewrite La). do 2 f_equal. symmetry. apply H, L.
    apply (initial_leads a V1 [] La Ha S I1 Z1 At (length obj) 0); [right; lia|unfold zlen; lia].
Qed.
End Build.

(** C17. The decompiler is faithful: for every well-formed object whose
    reference counts fit in 8 bits (any object of up to 127 instructions) and a
    pool with room for four expressions per instruction, merging and unfolding
    meet no missing node and end. They yield an expression of [and], [or] and
    if-then-else that holds of a packet or event exactly when the object
    accepts it, provided no test compares an array with a negative constant
    ([sign_kept]); they give up only where the pool is full and the last error
    says so, which cannot happen when the unfolded graph, at most [2 ^ n - 1]
    expressions for [n] instructions, fits as well. *)
Theorem decompile_sound layer obj p : wf_filter layer obj = true -> counts_fit obj = true ->
  pool_max p <> 0 -> 4 * zlen obj <= room p ->
  exists p' o, decompile p obj = Some (p', o) /\
  (o = None -> p_error p' = Some ENOMEM /\ room p < 4 * zlen obj + 2 ^ zlen obj - 1) /\
  forall e, o = Some e -> forall a, a_layer a = layer -> args_ok a -> forallb sign_kept obj = true ->
  WinDivertExecuteFilter obj a = VRet (b2z (dexpr_holds (emitted_holds a) e)).
Proof. intros W C. exact (decompile_faithful layer obj W C p). Qed.

(** [inbound and (tcp or udp)] and its object. *)
Module ExDecompile.
Definition t (k : KIND) : TEST_EXPR := mkTest TOKEN_NEQ (mkVar k 0) (mkNum false zero128).
Definition obj : list WINDIVERT_FILTER :=
  [mkFilter FIELD_INBOUND TEST_NEQ 1 WINDIVERT_FILTER_RESULT_REJECT false zero128;
   mkFilter FIELD_TCP TEST_NEQ WINDIVERT_FILTER_RESULT_ACCEPT 2 false zero128;
   mkFilter FIELD_UDP TEST_NEQ WINDIVERT_FILTER_RESULT_ACCEPT WINDIVERT_FILTER_RESULT_REJECT false zero128].
End ExDecompile.

Lemma decompile_sound_witness : exists p e, decompile (mkPool object_heap None) ExDecompile.obj = Some (p, Some e) /\
  e = DAnd (DTest (ExDecompile.t TOKEN_INBOUND)) (DOr (DTest (ExDecompile.t TOKEN_TCP)) (DTest (ExDecompile.t TOKEN_UDP))) /\
  forall a, a_layer a = LAYER_NETWORK -> args_ok a ->
  WinDivertExecuteFilter ExDecompile.obj a = VRet (b2z (dexpr_holds (emitted_holds a) e)).
Proof.
  destruct (decompile_sound LAYER_NETWORK ExDecompile.obj (mkPool object_heap None)) as (p & o & E & _ & H);
    [vm_compute; reflexivity..|discriminate|vm_compute; discriminate|].
  destruct o as [e|]; [|exfalso; vm_compute in E; discriminate E]. exists p, e. split; [exact E|].
  split; [vm_compute in E; injection E as _ <-; reflexivity|]. intros a La Ha. now apply (H e eq_refl a).
Defined.
