(* ===== verification/WdFormat.v ===== *)
(** * Filter formatting

    The second half of [WinDivertHelperFormatFilter] in
    [src/wd/windivert_helper.c]: the decompiled expression is printed into the
    caller's buffer.  Hexadecimal numbers and IPv6 addresses
    ([WinDivertHelperFormatIPv6Address]), tests, expressions, and the function
    itself with its wrapper [wd_format_filter] of [src/wd/wd_port.c]. *)

From Stdlib Require Import Ascii String ZArith List Bool Lia ZifyBool.
From S2P Require Import Prelude WdTypes WdPacket WdExec WdHelper WdSerial WdAddr WdLex WdParse WdAnalyze WdCompile.
From S2P Require Import WdHeap WdDecompile.
Import ListNotations.
#[local] Open Scope list_scope.
#[local] Open Scope Z_scope.

Definition put_text (s : WINDIVERT_STREAM) (t : string) : WINDIVERT_STREAM := WinDivertPutString s (chars t).

(** ** Numbers *)

Definition hex_char (dig : Z) : Z := if dig <=? 9 then 48 + dig else 97 + (dig - 10).

(** The digits of one word, from bit [4 * n - 1] down. *)
Fixpoint hex_word (n : nat) (s : WINDIVERT_STREAM) (w : Z) (zeroes : bool) : WINDIVERT_STREAM * bool :=
  match n with
  | O => (s, zeroes)
  | S n =>
    let sh := 4 * Z.of_nat n in
    let dig := (w &&& (0xF <<< sh)) >>> sh in
    if (dig =? 0) && negb zeroes then hex_word n s w zeroes
    else hex_word n (WinDivertPutChar s (hex_char dig)) w true
  end.

(** The words from the first that is not zero, but the last in any case. *)
Fixpoint hex_words (l : list Z) (s : WINDIVERT_STREAM) (zeroes : bool) : WINDIVERT_STREAM * bool :=
  match l with
  | [] => (s, zeroes)
  | w :: l => let '(s, zeroes) := hex_word 8 s w zeroes in hex_words l s zeroes
  end.

Definition hex_start (val : u128) : list Z :=
  if negb (w3 val =? 0) then [w3 val; w2 val; w1 val; w0 val]
  else if negb (w2 val =? 0) then [w2 val; w1 val; w0 val]
  else if negb (w1 val =? 0) then [w1 val; w0 val]
  else [w0 val].

Definition WinDivertFormatHexNumber (s : WINDIVERT_STREAM) (val : u128) : WINDIVERT_STREAM :=
  let '(s, zeroes) := hex_words (hex_start val) s false in
  if zeroes then s else WinDivertPutChar s 48.

(** ** IPv6 addresses *)

(** [addr[0 .. 7]] after the [memcpy] (little endian). *)
Definition addr_groups (a : u128) : list Z :=
  [u16 (w0 a); w0 a >>> 16; u16 (w1 a); w1 a >>> 16; u16 (w2 a); w2 a >>> 16; u16 (w3 a); w3 a >>> 16].

(** "Find zeroes": from [addr[n - 1]] down. *)
Fixpoint find_zeroes (n : nat) (addr : list Z) (z_curr z_count z_start z_max : Z) : Z * Z :=
  match n with
  | O => (z_start, z_max)
  | S i =>
    if nth i addr 0 =? 0 then
      let z_count := z_count + 1 in
      find_zeroes i addr z_curr z_count (if z_count >? z_max then z_curr else z_start)
        (if z_count >? z_max then z_count else z_max)
    else find_zeroes i addr (Z.of_nat i - 1) 0 z_start z_max
  end.

(** "Format address": [n - 1] is [i]; at most eight rounds. *)
Fixpoint put_groups (fuel n : nat) (s : WINDIVERT_STREAM) (addr : list Z) (z_start z_max : Z) : WINDIVERT_STREAM :=
  match fuel, n with
  | S fuel, S i =>
    if Z.of_nat i =? z_start then
      let s := put_text s (if Z.of_nat i =? 7 then "::" else ":") in
      put_groups fuel (Z.to_nat (Z.of_nat i - (z_max - 1))) s addr z_start z_max
    else
      let s := WinDivertFormatHexNumber s (W128 (nth i addr 0) 0 0 0) in
      let s := put_text s (if negb (Z.of_nat i =? 0) then ":" else "") in
      put_groups fuel i s addr z_start z_max
  | _, _ => s
  end.

Definition WinDivertFormatIPv6Addr (s : WINDIVERT_STREAM) (addr32 : u128) : WINDIVERT_STREAM :=
  if (w3 addr32 =? 0) && (w2 addr32 =? 0) && (w1 addr32 =? 0x0000FFFF) then WinDivertFormatIPv4Addr s (w0 addr32)
  else
    let addr := addr_groups addr32 in
    let '(z_start, z_max) := find_zeroes 8 addr 7 0 (-1) (-1) in
    put_groups 8 8 s addr z_start z_max.

(** [TRUE] or [FALSE], and the buffer. *)
Definition WinDivertHelperFormatIPv6Address (addr : u128) (bufLen : Z) : bool * list Z :=
  let s := WinDivertPutNul (WinDivertFormatIPv6Addr (mkStream [] bufLen false) addr) in
  (negb (s_overflow s), s_out s).

(** ** Variables *)

Definition var_name (kind : KIND) : string :=
  match kind with
  | TOKEN_ZERO => "zero" | TOKEN_EVENT => "event" | TOKEN_RANDOM8 => "random8" | TOKEN_RANDOM16 => "random16"
  | TOKEN_RANDOM32 => "random32" | TOKEN_PACKET => "packet" | TOKEN_PACKET16 => "packet16"
  | TOKEN_PACKET32 => "packet32" | TOKEN_LENGTH => "length" | TOKEN_TIMESTAMP => "timestamp"
  | TOKEN_TCP_PAYLOAD => "tcp.Payload" | TOKEN_TCP_PAYLOAD16 => "tcp.Payload16"
  | TOKEN_TCP_PAYLOAD32 => "tcp.Payload32" | TOKEN_UDP_PAYLOAD => "udp.Payload"
  | TOKEN_UDP_PAYLOAD16 => "udp.Payload16" | TOKEN_UDP_PAYLOAD32 => "udp.Payload32"
  | TOKEN_INBOUND => "inbound" | TOKEN_OUTBOUND => "outbound" | TOKEN_FRAGMENT => "fragment"
  | TOKEN_IF_IDX => "ifIdx" | TOKEN_SUB_IF_IDX => "subIfIdx" | TOKEN_IP => "ip" | TOKEN_IPV6 => "ipv6"
  | TOKEN_ICMP => "icmp" | TOKEN_TCP => "tcp" | TOKEN_UDP => "udp" | TOKEN_ICMPV6 => "icmpv6"
  | TOKEN_IP_HDR_LENGTH => "ip.HdrLength" | TOKEN_IP_TOS => "ip.TOS" | TOKEN_IP_LENGTH => "ip.Length"
  | TOKEN_IP_ID => "ip.Id" | TOKEN_IP_DF => "ip.DF" | TOKEN_IP_MF => "ip.MF" | TOKEN_IP_FRAG_OFF => "ip.FragOff"
  | TOKEN_IP_TTL => "ip.TTL" | TOKEN_IP_PROTOCOL => "ip.Protocol" | TOKEN_IP_CHECKSUM => "ip.Checksum"
  | TOKEN_IP_SRC_ADDR => "ip.SrcAddr" | TOKEN_IP_DST_ADDR => "ip.DstAddr"
  | TOKEN_IPV6_TRAFFIC_CLASS => "ipv6.TrafficClass" | TOKEN_IPV6_FLOW_LABEL => "ipv6.FlowLabel"
  | TOKEN_IPV6_LENGTH => "ipv6.Length" | TOKEN_IPV6_NEXT_HDR => "ipv6.NextHdr"
  | TOKEN_IPV6_HOP_LIMIT => "ipv6.HopLimit" | TOKEN_IPV6_SRC_ADDR => "ipv6.SrcAddr"
  | TOKEN_IPV6_DST_ADDR => "ipv6.DstAddr" | TOKEN_ICMP_TYPE => "icmp.Type" | TOKEN_ICMP_CODE => "icmp.Code"
  | TOKEN_ICMP_CHECKSUM => "icmp.Checksum" | TOKEN_ICMP_BODY => "icmp.Body" | TOKEN_ICMPV6_TYPE => "icmpv6.Type"
  | TOKEN_ICMPV6_CODE => "icmpv6.Code" | TOKEN_ICMPV6_CHECKSUM => "icmpv6.Checksum"
  | TOKEN_ICMPV6_BODY => "icmpv6.Body" | TOKEN_TCP_SRC_PORT => "tcp.SrcPort" | TOKEN_TCP_DST_PORT => "tcp.DstPort"
  | TOKEN_TCP_SEQ_NUM => "tcp.SeqNum" | TOKEN_TCP_ACK_NUM => "tcp.AckNum" | TOKEN_TCP_HDR_LENGTH => "tcp.HdrLength"
  | TOKEN_TCP_URG => "tcp.Urg" | TOKEN_TCP_ACK => "tcp.Ack" | TOKEN_TCP_PSH => "tcp.Psh" | TOKEN_TCP_RST => "tcp.Rst"
  | TOKEN_TCP_SYN => "tcp.Syn" | TOKEN_TCP_FIN => "tcp.Fin" | TOKEN_TCP_WINDOW => "tcp.Window"
  | TOKEN_TCP_CHECKSUM => "tcp.Checksum" | TOKEN_TCP_URG_PTR => "tcp.UrgPtr"
  | TOKEN_TCP_PAYLOAD_LENGTH => "tcp.PayloadLength" | TOKEN_UDP_SRC_PORT => "udp.SrcPort"
  | TOKEN_UDP_DST_PORT => "udp.DstPort" | TOKEN_UDP_LENGTH => "udp.Length" | TOKEN_UDP_CHECKSUM => "udp.Checksum"
  | TOKEN_UDP_PAYLOAD_LENGTH => "udp.PayloadLength" | TOKEN_LOOPBACK => "loopback" | TOKEN_IMPOSTOR => "impostor"
  | TOKEN_PROCESS_ID => "processId" | TOKEN_LOCAL_ADDR => "localAddr" | TOKEN_REMOTE_ADDR => "remoteAddr"
  | TOKEN_LOCAL_PORT => "localPort" | TOKEN_REMOTE_PORT => "remotePort" | TOKEN_PROTOCOL => "protocol"
  | TOKEN_ENDPOINT_ID => "endpointId" | TOKEN_PARENT_ENDPOINT_ID => "parentEndpointId" | TOKEN_LAYER => "layer"
  | TOKEN_PRIORITY => "priority"
  | _ => ""
  end.

(** The index of an array variable; [None] is the negation of [INT_MIN]. *)
Definition put_index (s : WINDIVERT_STREAM) (val0 : Z) : option WINDIVERT_STREAM :=
  let s := WinDivertPutChar s 91 in
  let idx := i32 val0 in
  if idx =? - 2 ^ 31 then None
  else
    let s := if idx <? 0 then WinDivertPutChar s 45 else s in
    let s := WinDivertFormatDecNumber32 s (u32 (if idx <? 0 then - idx else idx)) in
    Some (put_text s "b]").

(** [WinDivertFormatExpr] for a variable. *)
Definition format_var (s : WINDIVERT_STREAM) (v : VAR) : option WINDIVERT_STREAM :=
  if zlen (s_out s) >=? s_max s then Some s
  else
    let s := put_text s (var_name (v_kind v)) in
    match array_size (v_kind v) with
    | Some _ => put_index s (v_idx v)
    | None => Some s
    end.

(** ** Tests *)

(** How the first [switch] of [WinDivertFormatTestExpr] classifies the
    variable. *)
Inductive var_class : Set := VFlag | VIPv4 | VIPv6 | VLayer | VEvent | VHex | VPlain.

Definition classify_var (kind : KIND) : var_class :=
  match kind with
  | TOKEN_ZERO | TOKEN_INBOUND | TOKEN_OUTBOUND | TOKEN_FRAGMENT | TOKEN_IP | TOKEN_IPV6 | TOKEN_ICMP | TOKEN_TCP
  | TOKEN_UDP | TOKEN_ICMPV6 | TOKEN_IP_DF | TOKEN_IP_MF | TOKEN_TCP_URG | TOKEN_TCP_ACK | TOKEN_TCP_PSH
  | TOKEN_TCP_RST | TOKEN_TCP_SYN | TOKEN_TCP_FIN | TOKEN_LOOPBACK | TOKEN_IMPOSTOR => VFlag
  | TOKEN_IP_SRC_ADDR | TOKEN_IP_DST_ADDR => VIPv4
  | TOKEN_IPV6_SRC_ADDR | TOKEN_IPV6_DST_ADDR | TOKEN_LOCAL_ADDR | TOKEN_REMOTE_ADDR => VIPv6
  | TOKEN_LAYER => VLayer
  | TOKEN_EVENT => VEvent
  | TOKEN_PACKET | TOKEN_PACKET16 | TOKEN_PACKET32 | TOKEN_IP_ID | TOKEN_IP_CHECKSUM | TOKEN_TCP_CHECKSUM
  | TOKEN_TCP_PAYLOAD | TOKEN_TCP_PAYLOAD16 | TOKEN_TCP_PAYLOAD32 | TOKEN_UDP_CHECKSUM | TOKEN_UDP_PAYLOAD
  | TOKEN_UDP_PAYLOAD16 | TOKEN_UDP_PAYLOAD32 | TOKEN_ICMP_CHECKSUM | TOKEN_ICMPV6_CHECKSUM => VHex
  | _ => VPlain
  end.

(** A test of a flag against 0 or 1 is the flag or its negation. *)
Definition flag_test (t : TEST_EXPR) : option bool :=
  let v := n_val (t_val t) in
  match classify_var (v_kind (t_var t)) with
  | VFlag =>
    if negb (w1 v =? 0) || negb (w2 v =? 0) || negb (w3 v =? 0) || (w0 v >? 1) then None
    else
      match t_kind t with
      | TOKEN_EQ => Some (w0 v =? 0)
      | TOKEN_NEQ => Some (negb (w0 v =? 0))
      | _ => None
      end
  | _ => None
  end.

Definition operator_text (kind : KIND) : string :=
  match kind with
  | TOKEN_EQ => " = "
  | TOKEN_NEQ => " != "
  | TOKEN_LT => " < "
  | TOKEN_LEQ => " <= "
  | TOKEN_GT => " > "
  | TOKEN_GEQ => " >= "
  | _ => ""
  end.

(** The name of a layer, and of an event of a layer. *)
Definition layer_name (v : Z) : option string :=
  if v =? layer_code LAYER_NETWORK then Some "NETWORK"%string
  else if v =? layer_code LAYER_NETWORK_FORWARD then Some "NETWORK_FORWARD"%string
  else if v =? layer_code LAYER_FLOW then Some "FLOW"%string
  else if v =? layer_code LAYER_SOCKET then Some "SOCKET"%string
  else if v =? layer_code LAYER_REFLECT then Some "REFLECT"%string
  else None.

Definition event_name (layer : WINDIVERT_LAYER) (v : Z) : option string :=
  match layer with
  | LAYER_NETWORK | LAYER_NETWORK_FORWARD =>
    if v =? WINDIVERT_EVENT_NETWORK_PACKET then Some "PACKET"%string else None
  | LAYER_FLOW =>
    if v =? WINDIVERT_EVENT_FLOW_ESTABLISHED then Some "ESTABLISHED"%string
    else if v =? WINDIVERT_EVENT_FLOW_DELETED then Some "DELETED"%string
    else None
  | LAYER_SOCKET =>
    if v =? WINDIVERT_EVENT_SOCKET_BIND then Some "BIND"%string
    else if v =? WINDIVERT_EVENT_SOCKET_CONNECT then Some "CONNECT"%string
    else if v =? WINDIVERT_EVENT_SOCKET_LISTEN then Some "LISTEN"%string
    else if v =? WINDIVERT_EVENT_SOCKET_ACCEPT then Some "ACCEPT"%string
    else if v =? WINDIVERT_EVENT_SOCKET_CLOSE then Some "CLOSE"%string
    else None
  | LAYER_REFLECT =>
    if v =? WINDIVERT_EVENT_REFLECT_OPEN then Some "OPEN"%string
    else if v =? WINDIVERT_EVENT_REFLECT_CLOSE then Some "CLOSE"%string
    else None
  end.

Definition put_name (s : WINDIVERT_STREAM) (name : option string) (v : Z) : WINDIVERT_STREAM :=
  match name with Some t => put_text s t | None => WinDivertFormatDecNumber32 s v end.

(** The constant of a test. *)
Definition format_value (s : WINDIVERT_STREAM) (layer : WINDIVERT_LAYER) (class : var_class) (v : u128)
    : option WINDIVERT_STREAM :=
  match class with
  | VIPv4 => Some (WinDivertFormatIPv4Addr s (w0 v))
  | VIPv6 => Some (WinDivertFormatIPv6Addr s v)
  | VLayer => Some (put_name s (layer_name (w0 v)) (w0 v))
  | VEvent => Some (put_name s (event_name layer (w0 v)) (w0 v))
  | VHex => Some (WinDivertFormatHexNumber (put_text s "0x") v)
  | VFlag | VPlain => WinDivertFormatDecNumber s v
  end.

Definition WinDivertFormatTestExpr (s : WINDIVERT_STREAM) (t : TEST_EXPR) (layer : WINDIVERT_LAYER)
    : option WINDIVERT_STREAM :=
  match flag_test t with
  | Some negated => format_var (if negated then put_text s "not " else s) (t_var t)
  | None =>
    obind (format_var s (t_var t)) (fun s =>
    let s := put_text s (operator_text (t_kind t)) in
    let s := if n_neg (t_val t) then WinDivertPutChar s 45 else s in
    format_value s layer (classify_var (v_kind (t_var t))) (n_val (t_val t)))
  end.

(** ** Expressions *)

Fixpoint WinDivertFormatExpr (s : WINDIVERT_STREAM) (e : DEXPR) (layer : WINDIVERT_LAYER) (top_level and : bool)
    : option WINDIVERT_STREAM :=
  if zlen (s_out s) >=? s_max s then Some s
  else
    match e with
    | DAnd a b =>
      let paren := negb top_level && negb and in
      let s := if paren then WinDivertPutChar s 40 else s in
      obind (WinDivertFormatExpr s a layer false true) (fun s =>
      obind (WinDivertFormatExpr (put_text s " and ") b layer false true) (fun s =>
      Some (if paren then WinDivertPutChar s 41 else s)))
    | DOr a b =>
      let paren := negb top_level && and in
      let s := if paren then WinDivertPutChar s 40 else s in
      obind (WinDivertFormatExpr s a layer false false) (fun s =>
      obind (WinDivertFormatExpr (put_text s " or ") b layer false false) (fun s =>
      Some (if paren then WinDivertPutChar s 41 else s)))
    | DQuestion c t f =>
      let s := WinDivertPutChar s 40 in
      obind (WinDivertFormatExpr s c layer true false) (fun s =>
      obind (WinDivertFormatExpr (put_text s "? ") t layer true false) (fun s =>
      obind (WinDivertFormatExpr (put_text s ": ") f layer true false) (fun s =>
      Some (WinDivertPutChar s 41))))
    | DTrue => Some (put_text s "true")
    | DFalse => Some (put_text s "false")
    | DTest t => WinDivertFormatTestExpr s t layer
    end.

(** ** The function *)

(** Undefined, [FALSE] with the error code ([None]: not set), or [TRUE] with
    the buffer. *)
Inductive formatted : Set := FmtUndef | FmtFalse (err : option Z) | FmtTrue (buffer : list Z).

Definition format_object (p : pool) (object : list WINDIVERT_FILTER) (layer : WINDIVERT_LAYER) (buflen : Z) : formatted :=
  match decompile p object with
  | None => FmtUndef
  | Some (p, None) => FmtFalse (p_error p)
  | Some (_, Some expr) =>
    match WinDivertFormatExpr (mkStream [] buflen false) expr layer true false with
    | None => FmtUndef
    | Some s =>
      let s := WinDivertPutNul s in
      if negb (s_overflow s) then FmtTrue (s_out s) else FmtFalse (Some ERROR_INSUFFICIENT_BUFFER)
    end
  end.

(** The pool has room for the compiler ([compile_pool_suffices]). *)
Definition WinDivertHelperFormatFilter (filter : list Z) (layer : WINDIVERT_LAYER) (buflen : Z) : formatted :=
  match WinDivertCompileFilter filter layer with
  | CUndef => FmtUndef
  | CErr _ => FmtFalse (Some ERROR_INVALID_PARAMETER)
  | COk object => format_object (snd (compile_pool filter layer object_heap)) object layer buflen
  end.

(** The value returned and the buffer; a failure of the decompiler itself
    leaves the last error of the thread, [last]. *)
Definition wd_format_filter (last : Z) (filter : list Z) (layer : WINDIVERT_LAYER) (buflen : Z) : option (Z * list Z) :=
  match WinDivertHelperFormatFilter filter layer buflen with
  | FmtUndef => None
  | FmtFalse (Some err) => Some (wd_errno err, [])
  | FmtFalse None => Some (wd_errno last, [])
  | FmtTrue buffer => Some (0, buffer)
  end.
