(* ===== verification/WdIPv6.v ===== *)
(** * Hexadecimal numbers and IPv6 addresses as text

    What [WinDivertFormatHexNumber] and [WinDivertFormatIPv6Addr] write is
    read back by [WinDivertAToX] and [WinDivertHelperParseIPv6Address]: the
    lemmas about hexadecimal digits, the choice of the zeroes that are left
    out, and the two sides of an address. *)

From Stdlib Require Import Ascii String ZArith List Bool Lia ZifyBool.
From S2P Require Import Prelude WdTypes WdPacket WdExec WdHelper WdSerial WdAddr WdLex WdParse WdAnalyze WdCompile.
From S2P Require Import WdDecompile WdFormat.
Import ListNotations.
#[local] Open Scope list_scope.
#[local] Open Scope Z_scope.

(** ** Streams *)

Lemma put_app s a b : WinDivertPutString (WinDivertPutString s a) b = WinDivertPutString s (a ++ b).
Proof. unfold WinDivertPutString. now rewrite fold_left_app. Qed.

Lemma put_nil s : WinDivertPutString s [] = s.
Proof. reflexivity. Qed.

(** ** Hexadecimal digits *)

Definition hex_digit_of (n : nat) (w : Z) : Z := w / 16 ^ Z.of_nat n mod 16.

(** The digits of [w] from digit [n - 1] down; [z] tells that a digit was
    written before. *)
Fixpoint hex_text (n : nat) (w : Z) (z : bool) : list Z :=
  match n with
  | O => []
  | S n =>
    if (hex_digit_of n w =? 0) && negb z then hex_text n w z
    else hex_char (hex_digit_of n w) :: hex_text n w true
  end.

Definition written {A} (l : list A) : bool := match l with [] => false | _ => true end.

Definition hex_value (s : list Z) (acc : Z) : Z := fold_left (fun a c => a * 16 + xdigit c) s acc.

Lemma masked_hex_digit w n : (w &&& (0xF <<< (4 * Z.of_nat n))) >>> (4 * Z.of_nat n) = hex_digit_of n w.
Proof.
  rewrite Z.shiftr_land, Z.shiftr_shiftl_l, Z.sub_diag by lia. rewrite Z.shiftl_0_r.
  change 0xF with (Z.ones 4). rewrite Z.land_ones, Z.shiftr_div_pow2 by lia. unfold hex_digit_of.
  rewrite Z.pow_mul_r by lia. reflexivity.
Qed.

Lemma hex_digit_range n w : 0 <= hex_digit_of n w < 16.
Proof. apply Z.mod_pos_bound. lia. Qed.

Lemma hex_word_text : forall n s w z,
  hex_word n s w z = (WinDivertPutString s (hex_text n w z), z || written (hex_text n w z)).
Proof.
  induction n as [|n IH]; intros s w z; cbn [hex_word hex_text]; [now rewrite put_nil, orb_false_r|].
  cbv zeta. rewrite masked_hex_digit. destruct ((hex_digit_of n w =? 0) && negb z); rewrite IH; [reflexivity|].
  rewrite put_char, put_app. cbn [written orb app]. now rewrite orb_true_r.
Qed.

Lemma hex_char_digit d : 0 <= d < 16 -> xdigit (hex_char d) = d /\ WinDivertIsXDigit (hex_char d) = true /\
  hex_char d <> 58 /\ is_token_char (hex_char d) = true.
Proof.
  intros H. assert (C : In d [0;1;2;3;4;5;6;7;8;9;10;11;12;13;14;15]) by (cbn; lia).
  repeat (destruct C as [<-|C]; [repeat split; (reflexivity || discriminate)|]). destruct C.
Qed.

Lemma hex_text_value : forall n w z acc, (z = false -> acc = 0) ->
  hex_value (hex_text n w z) acc = acc * 16 ^ Z.of_nat n + w mod 16 ^ Z.of_nat n.
Proof.
  induction n as [|n IH]; intros w z acc A; [cbn; rewrite Z.mod_1_r; lia|].
  assert (P : 16 ^ Z.of_nat (S n) = 16 * 16 ^ Z.of_nat n) by (rewrite Nat2Z.inj_succ, Z.pow_succ_r; lia).
  assert (M : w mod 16 ^ Z.of_nat (S n) = hex_digit_of n w * 16 ^ Z.of_nat n + w mod 16 ^ Z.of_nat n).
  { unfold hex_digit_of. rewrite P, (Z.mul_comm 16). pose proof (Z.pow_pos_nonneg 16 (Z.of_nat n)).
    rewrite Z.rem_mul_r by lia. lia. }
  cbn [hex_text]. destruct ((hex_digit_of n w =? 0) && negb z) eqn:E.
  - b2p. assert (Z0 : acc = 0) by (now apply A). rewrite IH by exact A. rewrite M, H, Z0. lia.
  - cbn [hex_value fold_left]. fold (hex_value (hex_text n w true) (acc * 16 + xdigit (hex_char (hex_digit_of n w)))).
    rewrite IH by discriminate. destruct (hex_char_digit _ (hex_digit_range n w)) as [-> _]. rewrite M, P. lia.
Qed.

Definition is_hex_text (s : list Z) : bool := forallb (fun c => WinDivertIsXDigit c && is_token_char c && negb (c =? 58)) s.

Lemma hex_text_chars : forall n w z, is_hex_text (hex_text n w z) = true.
Proof.
  induction n as [|n IH]; intros w z; [reflexivity|]. cbn [hex_text].
  destruct ((hex_digit_of n w =? 0) && negb z); [apply IH|]. cbn [is_hex_text forallb].
  destruct (hex_char_digit _ (hex_digit_range n w)) as (_ & -> & C & ->). fold (is_hex_text (hex_text n w true)).
  rewrite IH. cbn [andb]. apply Z.eqb_neq in C. now rewrite C.
Qed.

Lemma hex_text_length : forall n w z, (length (hex_text n w z) <= n)%nat.
Proof.
  induction n as [|n IH]; intros w z; [reflexivity|]. cbn [hex_text].
  destruct (_ && _); [specialize (IH w z)|specialize (IH w true)]; cbn [length]; lia.
Qed.

(** Leading zeros are left out. *)
Lemma hex_text_short k : forall n w, w mod 16 ^ Z.of_nat n < 16 ^ Z.of_nat k -> (length (hex_text n w false) <= k)%nat.
Proof.
  induction n as [|n IH]; intros w H; [cbn; lia|].
  destruct (Nat.le_gt_cases (S n) k) as [L|L]; [pose proof (hex_text_length (S n) w false); lia|].
  assert (P : 16 ^ Z.of_nat (S n) = 16 ^ Z.of_nat n * 16) by (rewrite Nat2Z.inj_succ, Z.pow_succ_r; lia).
  pose proof (Z.pow_pos_nonneg 16 (Z.of_nat n) ltac:(lia) ltac:(lia)) as Pn.
  assert (Q : 16 ^ Z.of_nat k <= 16 ^ Z.of_nat n) by (apply Z.pow_le_mono_r; lia).
  rewrite P, Z.rem_mul_r in H by lia. fold (hex_digit_of n w) in H.
  pose proof (hex_digit_range n w). pose proof (Z.mod_pos_bound w (16 ^ Z.of_nat n) Pn).
  assert (D : hex_digit_of n w = 0) by nia. cbn [hex_text]. rewrite D. cbn [Z.eqb negb andb]. apply IH. rewrite D in H. lia.
Qed.

(** ** Hexadecimal numbers *)

Fixpoint hex_words_text (l : list Z) (z : bool) : list Z :=
  match l with
  | [] => []
  | w :: l => hex_text 8 w z ++ hex_words_text l (z || written (hex_text 8 w z))
  end.

Definition hex128_text (v : u128) : list Z :=
  let t := hex_words_text (hex_start v) false in if written t then t else [48].

Lemma written_app {A} (a b : list A) : written (a ++ b) = written a || written b.
Proof. now destruct a. Qed.

Lemma hex_words_out : forall l s z,
  hex_words l s z = (WinDivertPutString s (hex_words_text l z), z || written (hex_words_text l z)).
Proof.
  induction l as [|w l IH]; intros s z; cbn [hex_words hex_words_text]; [now rewrite put_nil, orb_false_r|].
  rewrite hex_word_text, IH, put_app, written_app. now rewrite orb_assoc.
Qed.

Lemma format_hex s v : WinDivertFormatHexNumber s v = WinDivertPutString s (hex128_text v).
Proof.
  unfold WinDivertFormatHexNumber, hex128_text. rewrite hex_words_out. cbn [orb].
  destruct (hex_words_text (hex_start v) false); reflexivity.
Qed.

Definition words_of (l : list Z) (acc : Z) : Z := fold_left (fun a w => a * 2 ^ 32 + w) l acc.

Lemma hex_value_app a b acc : hex_value (a ++ b) acc = hex_value b (hex_value a acc).
Proof. unfold hex_value. now rewrite fold_left_app. Qed.

Lemma hex_words_value : forall l z acc, Forall is_u32 l -> (z = false -> acc = 0) ->
  hex_value (hex_words_text l z) acc = words_of l acc.
Proof.
  induction l as [|w l IH]; intros z acc F A; [reflexivity|]. inversion F as [|? ? Hw Hl]; subst.
  cbn [hex_words_text]. rewrite hex_value_app, hex_text_value by exact A.
  assert (M : w mod 16 ^ Z.of_nat 8 = w) by (apply Z.mod_small; unfold is_u32 in Hw; cbn; lia). rewrite M.
  rewrite IH; [reflexivity|exact Hl|]. intros Z0. apply orb_false_iff in Z0. destruct Z0 as [-> Z0].
  rewrite (A eq_refl) in *. pose proof (hex_text_value 8 w false 0 ltac:(auto)) as V. rewrite M in V.
  destruct (hex_text 8 w false); [|discriminate Z0]. cbn in V. lia.
Qed.

Lemma hex_start_words v : wf128 v -> words_of (hex_start v) 0 = val128 v /\ Forall is_u32 (hex_start v) /\
  (length (hex_start v) <= 4)%nat.
Proof.
  intros (H0 & H1 & H2 & H3). unfold hex_start, val128.
  destruct (Z.eqb_spec (w3 v) 0) as [->|]; cbn [negb]; [destruct (Z.eqb_spec (w2 v) 0) as [->|]; cbn [negb];
    [destruct (Z.eqb_spec (w1 v) 0) as [->|]; cbn [negb]|]|];
    (split; [cbn; lia|split; [repeat (apply Forall_cons; [assumption|]); apply Forall_nil|cbn; lia]]).
Qed.

Lemma hex_words_chars : forall l z, is_hex_text (hex_words_text l z) = true /\
  (length (hex_words_text l z) <= 8 * length l)%nat.
Proof.
  induction l as [|w l IH]; intros z; [split; reflexivity|]. cbn [hex_words_text length].
  destruct (IH (z || written (hex_text 8 w z))) as [C L]. unfold is_hex_text in *. rewrite forallb_app, C, length_app.
  pose proof (hex_text_chars 8 w z) as C'. unfold is_hex_text in C'. rewrite C'. pose proof (hex_text_length 8 w z). split; [reflexivity|lia].
Qed.

(** The digits have the value of the number. *)
Lemma hex128_text_spec v : wf128 v -> is_hex_text (hex128_text v) = true /\ hex_value (hex128_text v) 0 = val128 v /\
  hex128_text v <> [] /\ zlen (hex128_text v) <= 32.
Proof.
  intros W. destruct (hex_start_words v W) as (V & F & L). unfold hex128_text.
  destruct (hex_words_chars (hex_start v) false) as [C L']. pose proof (hex_words_value _ false 0 F ltac:(auto)) as E.
  rewrite V in E. destruct (hex_words_text (hex_start v) false) as [|c t] eqn:T; cbn [written].
  - cbn in E. rewrite <- E. repeat split; [discriminate|unfold zlen; cbn; lia].
  - repeat split; [exact C|exact E|discriminate|unfold zlen; lia].
Qed.

(** ** Reading hexadecimal numbers *)

Definition no_xdigit (s : list Z) : bool := negb (WinDivertIsXDigit (char0 s)).

Lemma hex_value_ge s : forall acc, is_hex_text s = true -> 0 <= acc -> acc <= hex_value s acc.
Proof.
  induction s as [|c s IH]; intros acc H A; cbn [hex_value fold_left]; [lia|].
  cbn [is_hex_text forallb] in H. apply andb_true_iff in H. destruct H as [Hc Hs]. rewrite !andb_true_iff in Hc.
  destruct Hc as [[Hc _] _]. pose proof (xdigit_range c Hc). specialize (IH (acc * 16 + xdigit c) Hs).
  unfold hex_value in IH. lia.
Qed.

Lemma atox_loop_spec rest : no_xdigit rest = true -> forall s n, wf128 n -> is_hex_text s = true ->
  hex_value s (val128 n) < 2 ^ 128 ->
  exists r, atox_loop n (s ++ rest) = Some (r, rest) /\ wf128 r /\ val128 r = hex_value s (val128 n).
Proof.
  intros Hr. induction s as [|c s IH]; intros n Hn Hs B.
  - exists n. cbn [app]. split; [|auto]. destruct rest as [|x rest]; [reflexivity|].
    unfold no_xdigit, char0 in Hr. cbn [hd] in Hr. cbn [atox_loop]. apply negb_true_iff in Hr. now rewrite Hr.
  - pose proof (val128_bound n Hn) as Hb. cbn [is_hex_text forallb] in Hs. apply andb_true_iff in Hs. destruct Hs as [Hc Hs].
    rewrite !andb_true_iff in Hc. destruct Hc as [[Hc _] _]. cbn [app atox_loop]. rewrite Hc.
    pose proof (xdigit_range c Hc) as X. pose proof (mul_add_spec n 16 (xdigit c) Hn ltac:(lia) ltac:(lia)) as M.
    cbn [hex_value fold_left] in B. fold (hex_value s (val128 n * 16 + xdigit c)) in B.
    pose proof (hex_value_ge s (val128 n * 16 + xdigit c) Hs ltac:(lia)) as G.
    replace (val128 n * 16 + xdigit c <? 2 ^ 128) with true in M by lia. destruct M as (r & -> & Wr & Vr).
    destruct (IH r Wr Hs) as (q & E & Wq & Vq); [now rewrite Vr|]. exists q. rewrite Vq, Vr. auto.
Qed.

(** A number is read back, whole. *)
Lemma hex_read v rest : wf128 v -> no_xdigit rest = true -> atox_loop zero128 (hex128_text v ++ rest) = Some (v, rest).
Proof.
  intros W R. destruct (hex128_text_spec v W) as (C & V & _). pose proof (val128_bound v W).
  destruct (atox_loop_spec rest R (hex128_text v) zero128 wf_zero128 C) as (r & -> & Wr & Vr);
    change (val128 zero128) with 0 in *; [rewrite V; lia|]. rewrite V in Vr. now rewrite (val128_inj r v Wr W Vr).
Qed.

(** ** Groups of an address *)

Definition group_text (g : Z) : list Z := hex128_text (W128 g 0 0 0).

Definition group_ok (g : Z) : Prop := 0 <= g < 2 ^ 16.

Lemma group_wf g : group_ok g -> wf128 (W128 g 0 0 0).
Proof. unfold group_ok. intros H. repeat split; cbn; lia. Qed.

Lemma group_text_spec g : group_ok g -> is_hex_text (group_text g) = true /\ group_text g <> [] /\
  (length (group_text g) <= 4)%nat /\ WinDivertAToX (group_text g) false = Some (W128 g 0 0 0, []).
Proof.
  intros H. pose proof (group_wf g H) as W. destruct (hex128_text_spec _ W) as (C & _ & N & _). fold (group_text g) in *.
  split; [exact C|]. split; [exact N|]. split.
  - unfold group_text, hex128_text, hex_start. cbn [w0 w1 w2 w3 Z.eqb negb hex_words_text].
    rewrite app_nil_r. pose proof (hex_text_short 4 8 g) as S. unfold group_ok in H.
    rewrite Z.mod_small in S by (cbn; lia). specialize (S ltac:(cbn; lia)). destruct (hex_text 8 g false); [cbn; lia|exact S].
  - pose proof (hex_read _ [] W eq_refl) as R. rewrite app_nil_r in R. fold (group_text g) in R.
    unfold WinDivertAToX. rewrite R. destruct (group_text g); [congruence|]. rewrite zlen_nil, zlen_cons.
    pose proof (zlen_nonneg l). now replace (0 =? 1 + zlen l) with false by lia.
Qed.

Lemma hex_text_in s c : is_hex_text s = true -> In c s -> WinDivertIsXDigit c = true /\ is_token_char c = true /\ c <> 58.
Proof.
  intros H I. unfold is_hex_text in H. rewrite forallb_forall in H. specialize (H c I). rewrite !andb_true_iff in H.
  destruct H as [[H1 H2] H3]. apply negb_true_iff, Z.eqb_neq in H3. auto.
Qed.

(** A group is no start of an IPv4 address: no dot follows its digits. *)
Fixpoint skip_digits (s : list Z) : list Z :=
  match s with [] => [] | c :: s' => if WinDivertIsDigit c then skip_digits s' else s end.

Lemma atoi_loop_rest : forall s n r rest, atoi_loop n s = Some (r, rest) -> rest = skip_digits s.
Proof.
  induction s as [|c s IH]; intros n r rest H; cbn [atoi_loop skip_digits] in *; [congruence|].
  destruct (WinDivertIsDigit c); [|congruence]. destruct (mul_add n 10 (c - 48)); [eauto|discriminate].
Qed.

Lemma no_ipv4 s : char0 (skip_digits s) <> 46 -> WinDivertHelperParseIPv4Address s = None.
Proof.
  intros H. unfold WinDivertHelperParseIPv4Address. cbn [ipv4_loop]. unfold WinDivertAToI.
  destruct (atoi_loop zero128 s) as [[r rest]|] eqn:E; [|reflexivity]. apply atoi_loop_rest in E. subst rest.
  destruct (zlen (skip_digits s) =? zlen s); [reflexivity|]. destruct (w0 r >? 255); [reflexivity|].
  destruct (skip_digits s) as [|c t]; [reflexivity|]. unfold char0 in H. cbn [hd] in H.
  destruct (Z.eqb_spec c 46); [contradiction|reflexivity].
Qed.

(** What follows a group. *)
Definition group_end (rest : list Z) : Prop := rest = [] \/ char0 rest = 58.

Lemma skip_group s rest : is_hex_text s = true -> group_end rest -> char0 (skip_digits (s ++ rest)) <> 46.
Proof.
  intros H E. induction s as [|c s IH]; cbn [app skip_digits].
  - destruct E as [->|E]; [cbn; lia|]. destruct rest as [|c rest]; [cbn; lia|]. unfold char0 in E. cbn [hd] in E. subst c. cbn. lia.
  - cbn [is_hex_text forallb] in H. apply andb_true_iff in H. destruct H as [Hc Hs].
    destruct (WinDivertIsDigit c); [auto|]. unfold char0. cbn [hd]. intros ->. discriminate Hc.
Qed.

Lemma hex_part_group s rest : is_hex_text s = true -> group_end rest -> forall l, (length s <= l)%nat ->
  hex_part l (s ++ rest) = (s, rest).
Proof.
  intros H E. induction s as [|c s IH]; intros l L; cbn [app].
  - destruct l as [|l]; [destruct rest; reflexivity|]. destruct rest as [|c rest]; [reflexivity|].
    destruct E as [E|E]; [discriminate E|]. unfold char0 in E. cbn [hd] in E. subst c. reflexivity.
  - destruct l as [|l]; [cbn in L; lia|]. cbn [is_hex_text forallb] in H. apply andb_true_iff in H. destruct H as [Hc Hs].
    rewrite !andb_true_iff in Hc. destruct Hc as [[Hc _] _]. cbn [hex_part]. rewrite Hc, IH; [reflexivity|exact Hs|cbn in L; lia].
Qed.

(** The states of the parser: [L] on the left, [R] on the right. *)
Definition padded (l : list Z) : list Z := l ++ repeat 0 (8 - length l).
Definition st_left (L : list Z) : v6_state := mkV6 true (zlen L) 0 (padded L) (repeat 0 8).
Definition st_right (L R : list Z) : v6_state := mkV6 false (zlen L) (zlen R) (padded L) (padded R).

Lemma set_padded l g : (length l < 8)%nat -> set_nth (Z.to_nat (zlen l)) g (padded l) = padded (l ++ [g]).
Proof.
  intros H. unfold padded, zlen. rewrite Nat2Z.id, length_app. cbn [length].
  replace (8 - length l)%nat with (S (8 - (length l + 1))) by lia. cbn [repeat]. rewrite <- app_assoc. cbn [app].
  induction l as [|x l IH]; [reflexivity|]. cbn [length app set_nth]. f_equal.
  assert (X : forall k, set_nth (length l) g (l ++ 0 :: repeat 0 k) = l ++ g :: repeat 0 k).
  { intros k. clear. induction l as [|y l IH]; [reflexivity|]. cbn. now rewrite IH. }
  apply X.
Qed.

Definition after_group (st : v6_state) (last : bool) (next : v6_state -> list Z -> v6_end) (rest : list Z) : v6_end :=
  match rest with
  | [] => if negb (v6_left st) || last then V6Ok st else V6Bad
  | _ :: s => next st s
  end.

Definition add_group (st : v6_state) (g : Z) : v6_state :=
  if v6_left st
  then mkV6 true (v6_i st + 1) (v6_j st) (set_nth (Z.to_nat (v6_i st)) g (v6_laddr st)) (v6_raddr st)
  else mkV6 false (v6_i st) (v6_j st + 1) (v6_laddr st) (set_nth (Z.to_nat (v6_j st)) g (v6_raddr st)).

Lemma v6_group_step last next st g rest : group_ok g -> group_end rest ->
  v6_group last next st (group_text g ++ rest) = after_group (add_group st g) last next rest.
Proof.
  intros G E. destruct (group_text_spec g G) as (C & NE & L4 & A). unfold v6_group.
  rewrite no_ipv4 by (now apply skip_group). rewrite hex_part_group by assumption.
  replace (if v6_i st <? 6 then None else None) with (@None Z) by (now destruct (_ <? 6)).
  destruct (group_text g) as [|c t] eqn:T; [congruence|]. rewrite zlen_cons. pose proof (zlen_nonneg t).
  replace (1 + zlen t =? 0) with false by lia.
  assert (Q : negb (char0 rest =? 58) && negb (char0 rest =? 0) = false).
  { destruct E as [->|E]; [reflexivity|]. rewrite E. reflexivity. }
  rewrite Q, A. cbn [w0]. rewrite u16_small by (unfold group_ok in G; lia). reflexivity.
Qed.

Lemma add_left L g : (length L < 8)%nat -> add_group (st_left L) g = st_left (L ++ [g]).
Proof. intros H. unfold add_group, st_left. cbn [v6_left v6_i v6_j v6_laddr v6_raddr]. now rewrite set_padded, zlen_app. Qed.

Lemma add_right L R g : (length R < 8)%nat -> add_group (st_right L R) g = st_right L (R ++ [g]).
Proof. intros H. unfold add_group, st_right. cbn [v6_left v6_i v6_j v6_laddr v6_raddr]. now rewrite set_padded, zlen_app. Qed.

(** ** Reading the sides of an address *)

Definition groups_ok (l : list Z) : Prop := Forall group_ok l.

(** Groups with a colon behind each, and with colons between them. *)
Definition colons (l : list Z) : list Z := concat (map (fun g => group_text g ++ [58]) l).

Fixpoint joined_groups (l : list Z) : list Z :=
  match l with
  | [] => []
  | [g] => group_text g
  | g :: l => group_text g ++ 58 :: joined_groups l
  end.

Lemma group_char0 g rest : group_ok g -> (char0 (group_text g ++ rest) =? 58) = false.
Proof.
  intros G. destruct (group_text_spec g G) as (C & NE & _). destruct (group_text g) as [|c t]; [congruence|].
  destruct (hex_text_in _ c C (or_introl eq_refl)) as (_ & _ & N). apply Z.eqb_neq. exact N.
Qed.

Lemma v6_loop_group n st g rest : group_ok g ->
  v6_loop (S n) st (group_text g ++ rest) = v6_group (Nat.eqb n 0) (v6_loop n) st (group_text g ++ rest).
Proof. intros G. cbn [v6_loop]. now rewrite group_char0. Qed.

Lemma read_left : forall l L n s, groups_ok l -> (length L + length l <= 8)%nat ->
  v6_loop (length l + n) (st_left L) (colons l ++ s) = v6_loop n (st_left (L ++ l)) s.
Proof.
  induction l as [|g l IH]; intros L n s G N; [now rewrite app_nil_r|]. inversion G as [|? ? Hg Hl]; subst.
  cbn [length plus colons map concat] in *. rewrite <- !app_assoc. cbn [app].
  rewrite v6_loop_group, v6_group_step by (exact Hg || now right). cbn [after_group].
  rewrite add_left by lia. fold (colons l). rewrite IH by (exact Hl || (rewrite length_app; cbn; lia)).
  now rewrite <- app_assoc.
Qed.

Lemma joined_cons g h l : joined_groups (g :: h :: l) = group_text g ++ 58 :: joined_groups (h :: l).
Proof. reflexivity. Qed.

Lemma read_right : forall l L R n last, l <> [] -> groups_ok l -> (length R + length l <= 8)%nat -> (length l <= S n)%nat ->
  v6_group last (v6_loop n) (st_right L R) (joined_groups l) = V6Ok (st_right L (R ++ l)).
Proof.
  induction l as [|g l IH]; intros L R n last NE G N Hn; [congruence|]. inversion G as [|? ? Hg Hl]; subst.
  destruct l as [|h l].
  - cbn [joined_groups]. rewrite <- (app_nil_r (group_text g)), v6_group_step by (exact Hg || now left).
    cbn [after_group]. rewrite add_right by (cbn in N; lia). reflexivity.
  - rewrite joined_cons, v6_group_step by (exact Hg || now right). cbn [after_group].
    rewrite add_right by (cbn in N; lia). destruct n as [|n]; [cbn in Hn; lia|].
    inversion Hl as [|? ? Hh _]; subst.
    assert (E : exists r, joined_groups (h :: l) = group_text h ++ r)
      by (destruct l; [exists []; now rewrite app_nil_r|rewrite joined_cons; eauto]).
    destruct E as [r E]. rewrite E, v6_loop_group by exact Hh. rewrite <- E.
    rewrite IH; [now rewrite <- app_assoc|discriminate|exact Hl|rewrite length_app; cbn in *; lia|cbn in *; lia].
Qed.

(** ** The whole address *)

Definition short_text (L R : list Z) : list Z :=
  match L with [] => [58] | _ => colons L end ++ 58 :: joined_groups R.

Lemma joined_nonempty l : groups_ok l -> l <> [] -> exists g r, joined_groups l = group_text g ++ r /\ group_ok g /\ group_text g <> [].
Proof.
  intros G NE. destruct l as [|g l]; [congruence|]. inversion G as [|? ? Hg _]; subst. exists g.
  destruct (group_text_spec g Hg) as (_ & N & _).
  destruct l; [exists []; cbn [joined_groups]; rewrite app_nil_r|rewrite joined_cons; eexists]; auto.
Qed.

Lemma read_tail L R n : groups_ok R -> (length R <= 8)%nat -> (length R <= S n)%nat ->
  match joined_groups R with [] => V6Ok (st_right L []) | _ => v6_group (Nat.eqb n 0) (v6_loop n) (st_right L []) (joined_groups R) end =
  V6Ok (st_right L R).
Proof.
  intros G N Hn. destruct R as [|g R]; [reflexivity|].
  destruct (joined_nonempty (g :: R) G ltac:(discriminate)) as (h & r & E & _ & NE).
  destruct (joined_groups (g :: R)) as [|c t] eqn:J; [destruct (group_text h); [congruence|discriminate E]|].
  rewrite <- J. now apply (read_right (g :: R) L []); try discriminate.
Qed.

Lemma parse_short L R : groups_ok L -> groups_ok R -> (length L + length R <= 7)%nat ->
  WinDivertHelperParseIPv6Address (short_text L R) = v6_finish (V6Ok (st_right L R)).
Proof.
  intros GL GR N. unfold WinDivertHelperParseIPv6Address, short_text. destruct L as [|g L].
  - cbn [app char0 hd tl Z.eqb Pos.eqb negb]. change (mkV6 false 0 0 (repeat 0 8) (repeat 0 8)) with (st_right [] []).
    rewrite <- (read_tail [] R 7 GR) by (cbn in N; lia). destruct (joined_groups R) as [|c t] eqn:J; [reflexivity|].
    f_equal. assert (X : exists g r, c :: t = group_text g ++ r /\ group_ok g /\ group_text g <> [])
      by (rewrite <- J; apply joined_nonempty; [exact GR|intros ->; discriminate J]).
    destruct X as (g & r & -> & Hg & _). now apply v6_loop_group.
  - assert (Hg : group_ok g) by (now inversion GL).
    assert (C : (char0 (colons (g :: L) ++ 58 :: joined_groups R) =? 58) = false).
    { cbn [colons map concat]. rewrite <- !app_assoc. now apply group_char0. }
    rewrite C. change (mkV6 true 0 0 (repeat 0 8) (repeat 0 8)) with (st_left []). f_equal.
    set (n := (7 - length (g :: L))%nat). replace 8%nat with (length (g :: L) + S n)%nat by (subst n; lia).
    rewrite read_left by (exact GL || (cbn [length] in N |- *; lia)). cbn [app v6_loop char0 hd Z.eqb Pos.eqb tl v6_left st_left negb].
    change (mkV6 false (v6_i (st_left (g :: L))) (v6_j (st_left (g :: L))) (v6_laddr (st_left (g :: L))) (v6_raddr (st_left (g :: L))))
      with (st_right (g :: L) []).
    rewrite <- (read_tail (g :: L) R n GR) by (subst n; lia). reflexivity.
Qed.

Lemma joined_snoc l g : joined_groups (l ++ [g]) = colons l ++ group_text g.
Proof.
  induction l as [|h l IH]; [reflexivity|]. cbn [app colons map concat]. rewrite <- !app_assoc. cbn [app].
  fold (colons l). rewrite <- IH. destruct (l ++ [g]) eqn:E; [destruct l; discriminate E|]. apply joined_cons.
Qed.

Lemma parse_full G : groups_ok G -> length G = 8%nat ->
  WinDivertHelperParseIPv6Address (joined_groups G) = v6_finish (V6Ok (st_left G)).
Proof.
  intros F N. destruct (exists_last (l := G)) as (l & g & ->); [intros ->; discriminate N|].
  rewrite length_app in N. cbn in N. apply Forall_app in F. destruct F as [Fl Fg]. inversion Fg as [|? ? Hg _]; subst.
  rewrite joined_snoc. unfold WinDivertHelperParseIPv6Address.
  assert (C : (char0 (colons l ++ group_text g) =? 58) = false).
  { destruct l as [|h l]; [rewrite <- (app_nil_r (group_text g)); now apply group_char0|].
    cbn [colons map concat]. rewrite <- !app_assoc. apply group_char0. now inversion Fl. }
  rewrite C. change (mkV6 true 0 0 (repeat 0 8) (repeat 0 8)) with (st_left []). f_equal.
  replace 8%nat with (length l + 1)%nat by lia. rewrite read_left by (exact Fl || (cbn; lia)). cbn [app].
  rewrite <- (app_nil_r (group_text g)), v6_loop_group, v6_group_step by (exact Hg || now left).
  cbn [after_group Nat.eqb]. rewrite orb_true_r, add_left by lia. reflexivity.
Qed.

(** ** Putting the words together *)

Lemma nth_padded l k : nth k (padded l) 0 = nth k l 0.
Proof.
  unfold padded. destruct (Nat.lt_ge_cases k (length l)) as [H|H]; [now rewrite app_nth1|].
  rewrite app_nth2, (nth_overflow l) by lia. apply nth_repeat.
Qed.

Lemma padded_length l : (length l <= 8)%nat -> length (padded l) = 8%nat.
Proof. intros H. unfold padded. rewrite length_app, repeat_length. lia. Qed.

(** The eight groups of the two sides of the gap. *)
Definition filled (L R : list Z) : list Z := L ++ repeat 0 (8 - length L - length R) ++ R.

Lemma nth_filled L R m : (length L + length R <= 8)%nat -> (m < 8)%nat ->
  nth m (padded L) 0 ||| nth (if (8 <=? m + length R)%nat then m + length R - 8 else m + length R) (padded R) 0 =
  nth m (filled L R) 0.
Proof.
  intros H M. rewrite !nth_padded. unfold filled. destruct (Nat.leb_spec 8 (m + length R)).
  - rewrite (nth_overflow L), Z.lor_0_l by lia. rewrite !app_nth2, repeat_length by (rewrite ?repeat_length; lia).
    f_equal. lia.
  - rewrite (nth_overflow R), Z.lor_0_r by lia. destruct (Nat.lt_ge_cases m (length L)) as [K|K].
    + now rewrite app_nth1.
    + rewrite (nth_overflow L), app_nth2, app_nth1, nth_repeat by (rewrite ?repeat_length; lia). reflexivity.
Qed.

Definition pair_word (G : list Z) (i : nat) : Z := nth (2 * i + 1) G 0 ||| (nth (2 * i) G 0 <<< 16).

Lemma v6_word_filled L R i : (length L + length R <= 8)%nat -> (i < 4)%nat ->
  v6_word (st_right L R) (Z.of_nat i) = Some (pair_word (filled L R) i).
Proof.
  intros H I. unfold v6_word, pair_word, st_right. cbn [v6_j v6_raddr v6_laddr].
  rewrite <- !nth_filled by lia.
  assert (X : forall m, (m < 8)%nat -> Z.to_nat (if Z.of_nat m + zlen R >=? 8 then Z.of_nat m + zlen R - 8 else Z.of_nat m + zlen R) =
    (if (8 <=? m + length R)%nat then m + length R - 8 else m + length R)%nat).
  { intros m M. unfold zlen. destruct (Nat.leb_spec 8 (m + length R)); case_if; b2p; lia. }
  replace (2 * Z.of_nat i + zlen R + 1) with (Z.of_nat (2 * i + 1) + zlen R) by lia.
  replace (2 * Z.of_nat i + zlen R) with (Z.of_nat (2 * i) + zlen R) by lia. rewrite !X by lia.
  replace (Z.to_nat (2 * Z.of_nat i + 1)) with (2 * i + 1)%nat by lia. replace (Z.to_nat (2 * Z.of_nat i)) with (2 * i)%nat by lia.
  assert (Y : forall k, (k < 8)%nat -> nth_error (padded R) k = Some (nth k (padded R) 0))
    by (intros k K; apply nth_error_nth'; rewrite padded_length; lia).
  rewrite !Y by (match goal with |- context [(8 <=? ?x)%nat] => destruct (Nat.leb_spec 8 x) end; lia).
  f_equal. rewrite Z.shiftl_lor, <- !Z.lor_assoc. f_equal. rewrite !Z.lor_assoc. f_equal. apply Z.lor_comm.
Qed.

(** The 128-bit value of eight groups, the leftmost first. *)
Definition of_groups (G : list Z) : u128 := W128 (pair_word G 3) (pair_word G 2) (pair_word G 1) (pair_word G 0).

Lemma assembled L R : (length L + length R <= 8)%nat -> v6_finish (V6Ok (st_right L R)) = V6True (of_groups (filled L R)).
Proof.
  intros H. cbn [v6_finish]. unfold v6_assemble. pose proof (v6_word_filled L R 3 H ltac:(lia)) as X3. pose proof (v6_word_filled L R 2 H ltac:(lia)) as X2.
  pose proof (v6_word_filled L R 1 H ltac:(lia)) as X1. pose proof (v6_word_filled L R 0 H ltac:(lia)) as X0.
  change (Z.of_nat 3) with 3 in X3. change (Z.of_nat 2) with 2 in X2. change (Z.of_nat 1) with 1 in X1.
  change (Z.of_nat 0) with 0 in X0. now rewrite X3, X2, X1, X0.
Qed.

Lemma parsed_full G : groups_ok G -> length G = 8%nat -> WinDivertHelperParseIPv6Address (joined_groups G) = V6True (of_groups G).
Proof.
  intros F N. rewrite parse_full by assumption. change (v6_finish (V6Ok (st_left G))) with (v6_finish (V6Ok (st_right G []))).
  rewrite assembled by (cbn [length]; lia). unfold filled. rewrite N. cbn [length Nat.sub repeat app]. now rewrite app_nil_r.
Qed.

Lemma parsed_short L R : groups_ok L -> groups_ok R -> (length L + length R <= 7)%nat ->
  WinDivertHelperParseIPv6Address (short_text L R) = V6True (of_groups (filled L R)).
Proof. intros GL GR N. rewrite parse_short by assumption. apply assembled. lia. Qed.

(** The groups [WinDivertFormatIPv6Addr] prints, leftmost first, are the
    address. *)
Lemma of_addr_groups a : wf128 a -> of_groups (rev (addr_groups a)) = a.
Proof.
  destruct a as [a0 a1 a2 a3]. intros (H0 & H1 & H2 & H3). cbn [w0 w1 w2 w3] in *. unfold of_groups, pair_word, addr_groups.
  assert (X : forall x, is_u32 x -> u16 x ||| ((x >>> 16) <<< 16) = x).
  { intros x Hx. unfold u16. rewrite Z.shiftr_div_pow2, Z.shiftl_mul_pow2, (Z.mul_comm (x / _)) by lia.
    rewrite lor_add_disjoint by (try lia; apply Z.mod_pos_bound; lia). pose proof (Z.div_mod x (2 ^ 16)). lia. }
  cbn [w0 w1 w2 w3 rev app nth Nat.mul Nat.add]. now rewrite !X.
Qed.

(** ** Formatting *)

(** What "find zeroes" finds: nothing, or a run of zeroes. *)
Definition zero_run (addr : list Z) (r : Z * Z) : Prop :=
  fst r = -1 \/
  (1 <= snd r <= fst r + 1 /\ fst r <= 7 /\ forall k, fst r - snd r < Z.of_nat k <= fst r -> nth k addr 0 = 0).

Lemma find_zeroes_run : forall n addr z_curr z_count z_start z_max, z_curr - z_count + 1 = Z.of_nat n -> 0 <= z_count ->
  z_curr <= 7 -> (forall k, Z.of_nat n <= Z.of_nat k <= z_curr -> nth k addr 0 = 0) -> zero_run addr (z_start, z_max) ->
  zero_run addr (find_zeroes n addr z_curr z_count z_start z_max).
Proof.
  induction n as [|n IH]; intros addr zc ct zs zm E C S K R; [exact R|]. cbn [find_zeroes]. cbv zeta. case_if.
  - b2p. assert (K' : forall k, Z.of_nat n <= Z.of_nat k <= zc -> nth k addr 0 = 0).
    { intros k Hk. destruct (Nat.eq_dec k n) as [-> |]; [assumption|apply K; lia]. }
    apply IH; try assumption; try lia. destruct (ct + 1 >? zm); [|exact R]. right. cbn [fst snd].
    split; [lia|]. split; [lia|]. intros k Hk. apply K'. lia.
  - apply IH; try assumption; try lia.
Qed.

(** The text of the address. *)
Definition ipv6_text (G : list Z) (r : Z * Z) : list Z :=
  if fst r =? -1 then joined_groups G
  else short_text (firstn (7 - Z.to_nat (fst r)) G) (skipn (7 - Z.to_nat (fst r) + Z.to_nat (snd r)) G).

Lemma firstn_snoc {A} (l : list A) n d : (n < length l)%nat -> firstn (S n) l = firstn n l ++ [nth n l d].
Proof. revert n. induction l as [|x l IH]; intros [|n] H; cbn in *; [lia..|reflexivity|]. f_equal. apply IH. lia. Qed.

(** Past the run, or without one. *)
Lemma put_rest : forall n fuel s addr z_start z_max, (n <= fuel)%nat -> (n <= length addr)%nat ->
  Z.of_nat n <= z_start \/ z_start = -1 ->
  put_groups fuel n s addr z_start z_max = WinDivertPutString s (joined_groups (rev (firstn n addr))).
Proof.
  induction n as [|n IH]; intros fuel s addr zs zm F N R; [now destruct fuel|]. destruct fuel as [|fuel]; [lia|]. cbn [put_groups].
  replace (Z.of_nat n =? zs) with false by lia. rewrite IH by lia. rewrite (firstn_snoc addr n 0), rev_app_distr by lia.
  unfold put_text. rewrite format_hex, !put_app. cbn [rev app]. fold (group_text (nth n addr 0)). f_equal.
  destruct n as [|n]; [exact (app_nil_r (group_text (nth 0 addr 0)))|].
  destruct (rev (firstn (S n) addr)) eqn:E; [apply (f_equal (@length Z)) in E; rewrite length_rev, length_firstn in E; cbn [length] in E; lia|].
  rewrite joined_cons. replace (Z.of_nat (S n) =? 0) with false by lia. reflexivity.
Qed.

(** Before the run. *)
Lemma put_before : forall m z fuel s addr z_max, (S z + m <= length addr)%nat ->
  put_groups (m + fuel) (S z + m) s addr (Z.of_nat z) z_max =
  put_groups fuel (S z) (WinDivertPutString s (colons (rev (firstn m (skipn (S z) addr))))) addr (Z.of_nat z) z_max.
Proof.
  induction m as [|m IH]; intros z fuel s addr zm N; [now rewrite Nat.add_0_r|]. rewrite Nat.add_succ_r. cbn [Nat.add put_groups].
  replace (Z.of_nat (S (z + m)) =? Z.of_nat z) with false by lia. change (S (z + m)) with (S z + m)%nat. rewrite IH by lia. f_equal.
  rewrite (firstn_snoc _ m 0), rev_app_distr by (rewrite length_skipn; lia). rewrite nth_skipn.
  unfold put_text. rewrite format_hex, !put_app. replace (Z.of_nat (S z + m) =? 0) with false by lia. cbn [negb rev app colons map concat].
  fold (group_text (nth (S z + m) addr 0)). now rewrite <- !app_assoc.
Qed.

Lemma put_groups_text s addr r : length addr = 8%nat -> zero_run addr r ->
  put_groups 8 8 s addr (fst r) (snd r) = WinDivertPutString s (ipv6_text (rev addr) r).
Proof.
  intros N. unfold ipv6_text. destruct r as [zs zm]. cbn [fst snd]. intros [H | (H & H7 & _)]; cbn [fst snd] in *.
  - subst zs. rewrite put_rest by (rewrite ?N; lia). now rewrite firstn_all2 by lia.
  - replace (zs =? -1) with false by lia. set (z := Z.to_nat zs). set (m := (7 - z)%nat).
    assert (E : 8%nat = (m + S z)%nat) by (subst m z; lia). assert (E' : 8%nat = (S z + m)%nat) by lia.
    replace (put_groups 8 8) with (put_groups (m + S z) (S z + m)) by (rewrite <- E, <- E'; reflexivity).
    replace zs with (Z.of_nat z) by (subst z; lia). rewrite put_before by lia. cbn [put_groups]. rewrite Z.eqb_refl.
    rewrite put_rest by (rewrite ?N; subst z; lia). unfold put_text. rewrite !put_app. f_equal. unfold short_text.
    rewrite firstn_rev, skipn_rev, N. rewrite (firstn_all2 (n := m)) by (rewrite length_skipn; lia).
    replace (8 - m)%nat with (S z) by lia. replace (8 - (m + Z.to_nat zm))%nat with (Z.to_nat (Z.of_nat z - (zm - 1))) by (subst m z; lia).
    destruct (Nat.eq_dec m 0) as [M|M].
    + replace z with 7%nat by lia. rewrite (skipn_all2 (n := 8)) by lia. reflexivity.
    + replace (Z.of_nat z =? 7) with false by lia. destruct (rev (skipn (S z) addr)) eqn:X;
        [apply (f_equal (@length Z)) in X; rewrite length_rev, length_skipn in X; cbn [length] in X; lia|reflexivity].
Qed.

(** ** Formatting, then parsing *)

Definition is_v4_mapped (a : u128) : bool := (w3 a =? 0) && (w2 a =? 0) && (w1 a =? 0xFFFF).

Definition v6_run (a : u128) : Z * Z := find_zeroes 8 (addr_groups a) 7 0 (-1) (-1).

Definition address_text (a : u128) : list Z :=
  if is_v4_mapped a then ipv4_text (w0 a) else ipv6_text (rev (addr_groups a)) (v6_run a).

Lemma v6_run_zeroes a : zero_run (addr_groups a) (v6_run a).
Proof. apply find_zeroes_run; try lia. now left. Qed.

Lemma format_address s a : wf128 a -> WinDivertFormatIPv6Addr s a = WinDivertPutString s (address_text a).
Proof.
  intros W. unfold WinDivertFormatIPv6Addr, address_text, is_v4_mapped. case_if; [apply format_ipv4, W|].
  pose proof (put_groups_text s (addr_groups a) (v6_run a) eq_refl (v6_run_zeroes a)) as E. fold (v6_run a).
  destruct (v6_run a). exact E.
Qed.

Lemma addr_groups_ok a : wf128 a -> groups_ok (addr_groups a).
Proof.
  intros (H0 & H1 & H2 & H3). unfold is_u32 in *.
  repeat constructor; unfold u16; rewrite ?Z.shiftr_div_pow2 by lia; try (apply Z.mod_pos_bound; lia);
    try (apply Z.div_pos; lia); apply Z.div_lt_upper_bound; lia.
Qed.

(** The groups left out are zeroes. *)
Lemma run_filled addr z_start z_max : length addr = 8%nat -> zero_run addr (z_start, z_max) -> z_start <> -1 ->
  let m := (7 - Z.to_nat z_start)%nat in
  filled (firstn m (rev addr)) (skipn (m + Z.to_nat z_max) (rev addr)) = rev addr.
Proof.
  intros N [E | (H & H7 & K)] NE; cbn [fst snd] in *; [congruence|]. cbv zeta. set (m := (7 - Z.to_nat z_start)%nat).
  set (G := rev addr). assert (NG : length G = 8%nat) by (subst G; now rewrite length_rev).
  unfold filled. rewrite length_firstn, length_skipn, NG.
  rewrite <- (firstn_skipn m G) at 3. f_equal. rewrite <- (firstn_skipn (Z.to_nat z_max) (skipn m G)), skipn_skipn.
  f_equal; [|f_equal; lia]. symmetry.
  replace (8 - Nat.min m 8 - (8 - (m + Z.to_nat z_max)))%nat with (Z.to_nat z_max) by lia.
  apply (nth_ext _ _ 0 0); [rewrite length_firstn, length_skipn, repeat_length; lia|].
  intros k Hk. rewrite length_firstn, length_skipn in Hk. rewrite nth_firstn. replace (k <? Z.to_nat z_max)%nat with true by lia.
  rewrite nth_skipn, nth_repeat. subst G. rewrite rev_nth by lia. apply K. lia.
Qed.

Lemma groups_ok_sub a n m : groups_ok a -> groups_ok (firstn n a) /\ groups_ok (skipn m a).
Proof.
  intros H. split; [rewrite <- (firstn_skipn n a) in H|rewrite <- (firstn_skipn m a) in H]; apply Forall_app in H; apply H.
Qed.

(** What is written for an address that is not an IPv4 one is read back. *)
Lemma address_read a : wf128 a -> is_v4_mapped a = false -> WinDivertHelperParseIPv6Address (address_text a) = V6True a.
Proof.
  intros W M. unfold address_text. rewrite M. pose proof (v6_run_zeroes a) as R. destruct (v6_run a) as [zs zm].
  assert (G : groups_ok (rev (addr_groups a))) by (apply Forall_rev, addr_groups_ok, W).
  unfold ipv6_text. cbn [fst snd]. case_if; [rewrite parsed_full by easy; now rewrite of_addr_groups|]. b2p.
  destruct (groups_ok_sub (rev (addr_groups a)) (7 - Z.to_nat zs) (7 - Z.to_nat zs + Z.to_nat zm) G) as [GL GR].
  rewrite parsed_short by (assumption || (destruct R as [R|R]; cbn [fst snd] in R; [lia|]; rewrite length_firstn, length_skipn, length_rev;
    change (length (addr_groups a)) with 8%nat; lia)).
  rewrite run_filled by easy. now rewrite of_addr_groups.
Qed.

Lemma colons_length l : groups_ok l -> zlen (colons l) <= 5 * zlen l.
Proof.
  induction 1 as [|g l Hg _ IH]; [apply Z.le_refl|]. cbn [colons map concat]. fold (colons l). rewrite !zlen_app, !zlen_cons, zlen_nil.
  destruct (group_text_spec g Hg) as (_ & _ & L & _). unfold zlen in *. lia.
Qed.

Lemma joined_length l : groups_ok l -> zlen (joined_groups l) <= Z.max 0 (5 * zlen l - 1).
Proof.
  intros H. destruct (rev l) as [|g r] eqn:E; [apply (f_equal (@rev Z)) in E; rewrite rev_involutive in E; subst; cbn; lia|].
  apply (f_equal (@rev Z)) in E. rewrite rev_involutive in E. cbn [rev] in E. subst l. rewrite joined_snoc.
  apply Forall_app in H. destruct H as [H Hg]. inversion Hg as [|? ? Hg' _]; subst.
  destruct (group_text_spec g Hg') as (_ & _ & L & _). pose proof (colons_length _ H). rewrite !zlen_app.
  change (zlen [g]) with 1. unfold zlen in *. lia.
Qed.

Lemma address_text_length a : wf128 a -> zlen (address_text a) <= 39.
Proof.
  intros W. unfold address_text. case_if; [pose proof (ipv4_text_length (w0 a) ltac:(apply W)); lia|].
  assert (G : groups_ok (rev (addr_groups a))) by (apply Forall_rev, addr_groups_ok, W).
  pose proof (v6_run_zeroes a) as R. destruct (v6_run a) as [zs zm]. unfold ipv6_text. cbn [fst snd]. case_if.
  - pose proof (joined_length _ G) as J. change (zlen (rev (addr_groups a))) with 8 in J. lia.
  - b2p. destruct R as [R | (R & R7 & _)]; cbn [fst snd] in *; [congruence|].
    destruct (groups_ok_sub (rev (addr_groups a)) (7 - Z.to_nat zs) (7 - Z.to_nat zs + Z.to_nat zm) G) as [GL GR].
    pose proof (colons_length _ GL) as JL. pose proof (joined_length _ GR) as JR. unfold short_text. rewrite zlen_app, zlen_cons.
    unfold zlen at 2 in JL. unfold zlen at 2 in JR.
    rewrite length_firstn in JL. rewrite length_skipn in JR. rewrite length_rev in JL, JR. change (length (addr_groups a)) with 8%nat in JL, JR.
    destruct (firstn _ _); [change (zlen [58]) with 1|]; lia.
Qed.

(** C36. IPv6 addresses round trip: into a buffer of at least 40 bytes
    [WinDivertHelperFormatIPv6Address] writes every address as a terminated
    text; of an IPv4-mapped address that is the IPv4 text, which
    [WinDivertHelperParseIPv4Address] reads, and of every other address
    [WinDivertHelperParseIPv6Address] reads the same 128 bits from it,
    wherever the run of zeroes that is left out stands. *)
Theorem ipv6_roundtrip addr bufLen : wf128 addr -> 40 <= bufLen ->
  exists text, WinDivertHelperFormatIPv6Address addr bufLen = (true, text ++ [NUL]) /\
    if is_v4_mapped addr then WinDivertHelperParseIPv4Address text = Some (w0 addr)
    else WinDivertHelperParseIPv6Address text = V6True addr.
Proof.
  intros W B. exists (address_text addr). pose proof (address_text_length addr W). split.
  - unfold WinDivertHelperFormatIPv6Address. rewrite format_address, put_terminated by (exact W || lia). reflexivity.
  - destruct (is_v4_mapped addr) eqn:M; [|now apply address_read]. unfold address_text. rewrite M. apply parse_ipv4_text, W.
Qed.

Lemma ipv6_roundtrip_witness : exists text,
  WinDivertHelperFormatIPv6Address (W128 1 0 0 0xFE800000) 40 = (true, text ++ [NUL]) /\
  WinDivertHelperParseIPv6Address text = V6True (W128 1 0 0 0xFE800000).
Proof. apply (ipv6_roundtrip (W128 1 0 0 0xFE800000) 40); [|lia]. repeat split; cbn; lia. Defined.
