(* ===== verification/WdText.v ===== *)
(** * The text of an expression

    What [WinDivertFormatExpr] of [src/wd/windivert_helper.c] prints, as a
    function from expressions to texts, and that the tokenizer splits the
    words of such a text as they were meant: names, numbers and addresses are
    read back. *)

From Stdlib Require Import Ascii String ZArith List Bool Lia ZifyBool.
From S2P Require Import Prelude WdTypes WdPacket WdExec WdHelper WdSerial WdAddr WdLex WdParse WdAnalyze WdCompile WdMeaning.
From S2P Require Import WdHeap WdDecompile WdFormat WdIPv6.
Import ListNotations.
#[local] Open Scope list_scope.
#[local] Open Scope Z_scope.

(** ** Texts *)

Definition dec32_text (v : Z) : list Z := dec_text 9 v false.

Definition index_text (val0 : Z) : list Z :=
  [91] ++ (if i32 val0 <? 0 then [45] else []) ++ (dec32_text (Z.abs (i32 val0)) ++ [98]) ++ [93].

Definition var_text (v : VAR) : list Z :=
  chars (var_name (v_kind v)) ++ match array_size (v_kind v) with Some _ => index_text (v_idx v) | None => [] end.

Definition decimal_text (v : u128) : list Z :=
  if val128 v =? 0 then [48] else match dec_digits 40 v [] with Some t => t | None => [] end.

Definition name_text (name : option string) (v : Z) : list Z :=
  match name with Some t => chars t | None => dec32_text v end.

Definition value_text (layer : WINDIVERT_LAYER) (class : var_class) (v : u128) : list Z :=
  match class with
  | VIPv4 => ipv4_text (w0 v)
  | VIPv6 => address_text v
  | VLayer => name_text (layer_name (w0 v)) (w0 v)
  | VEvent => name_text (event_name layer (w0 v)) (w0 v)
  | VHex => chars "0x" ++ hex128_text v
  | VFlag | VPlain => decimal_text v
  end.

(** The constant of a test. *)
Definition constant_text (layer : WINDIVERT_LAYER) (t : TEST_EXPR) : list Z :=
  value_text layer (classify_var (v_kind (t_var t))) (n_val (t_val t)).

Definition cond_text (layer : WINDIVERT_LAYER) (t : TEST_EXPR) : list Z :=
  match flag_test t with
  | Some negated => (if negated then chars "not " else []) ++ var_text (t_var t)
  | None =>
    var_text (t_var t) ++ chars (operator_text (t_kind t)) ++ (if n_neg (t_val t) then [45] else []) ++
    constant_text layer t
  end.

Definition in_parens (paren : bool) (s : list Z) : list Z := if paren then [40] ++ s ++ [41] else s.

Fixpoint expr_text (layer : WINDIVERT_LAYER) (e : DEXPR) (top_level and : bool) : list Z :=
  match e with
  | DAnd a b =>
    in_parens (negb top_level && negb and) (expr_text layer a false true ++ chars " and " ++ expr_text layer b false true)
  | DOr a b =>
    in_parens (negb top_level && and) (expr_text layer a false false ++ chars " or " ++ expr_text layer b false false)
  | DQuestion c t f =>
    [40] ++ expr_text layer c true false ++ chars "? " ++ expr_text layer t true false ++ chars ": " ++
    expr_text layer f true false ++ [41]
  | DTrue => chars "true"
  | DFalse => chars "false"
  | DTest t => cond_text layer t
  end.

(** ** Printing writes the text *)

(** The index of an array can be negated, and the constant is a number. *)
Definition writable_test (t : TEST_EXPR) : Prop := i32 (v_idx (t_var t)) <> - 2 ^ 31 /\ wf128 (n_val (t_val t)).

Fixpoint writable (e : DEXPR) : Prop :=
  match e with
  | DAnd a b | DOr a b => writable a /\ writable b
  | DQuestion c t f => writable c /\ writable t /\ writable f
  | DTrue | DFalse => True
  | DTest t => writable_test t
  end.

Lemma put_room s t : zlen (s_out s) + zlen t <= s_max s ->
  zlen (s_out (WinDivertPutString s t)) = zlen (s_out s) + zlen t /\ s_max (WinDivertPutString s t) = s_max s.
Proof.
  destruct s as [out m o]. cbn [s_out s_max]. intros H. pose proof (zlen_nonneg t). rewrite put_string_spec by lia. cbn [s_out s_max].
  rewrite firstn_all2 by (unfold zlen in *; lia). now rewrite zlen_app.
Qed.

Lemma parens_text p s : in_parens p s = (if p then [40] else []) ++ s ++ (if p then [41] else []).
Proof. destruct p; [reflexivity|]. cbn [in_parens app]. now rewrite app_nil_r. Qed.

Lemma put_if (p : bool) s c : (if p then WinDivertPutChar s c else s) = WinDivertPutString s (if p then [c] else []).
Proof. now destruct p. Qed.

Lemma put_dec32 s v : WinDivertFormatDecNumber32 s v = WinDivertPutString s (dec32_text v).
Proof. unfold WinDivertFormatDecNumber32. change 1000000000 with (10 ^ Z.of_nat 9). now rewrite dec32_loop_text by lia. Qed.

Lemma put_decimal s v : wf128 v -> WinDivertFormatDecNumber s v = Some (WinDivertPutString s (decimal_text v)).
Proof.
  intros W. unfold WinDivertFormatDecNumber, decimal_text. rewrite is_zero128 by exact W.
  destruct (val128 v =? 0); [reflexivity|]. pose proof (val128_bound v W).
  destruct (dec_digits_spec 40 v [] W) as (t & -> & _); [lia|reflexivity].
Qed.

Lemma i32_range v : - 2 ^ 31 <= i32 v < 2 ^ 31.
Proof. unfold i32. pose proof (Z.mod_pos_bound v (2 ^ 32) ltac:(lia)). unfold u32. case_if; b2p; lia. Qed.

Lemma put_index_text s v : i32 v <> - 2 ^ 31 -> put_index s v = Some (WinDivertPutString s (index_text v)).
Proof.
  intros H. unfold put_index, index_text. replace (i32 v =? - 2 ^ 31) with false by lia.
  assert (B : - 2 ^ 31 <= i32 v < 2 ^ 31) by apply i32_range.
  replace (u32 _) with (Z.abs (i32 v)) by (unfold u32; destruct (Z.ltb_spec (i32 v) 0); rewrite Z.mod_small by lia; lia).
  unfold put_text. rewrite put_dec32, put_if, put_char. change (chars "b]") with ([98] ++ [93]). now rewrite !put_app, <- !app_assoc.
Qed.

Lemma put_var s v : i32 (v_idx v) <> - 2 ^ 31 -> zlen (s_out s) < s_max s ->
  format_var s v = Some (WinDivertPutString s (var_text v)).
Proof.
  intros H R. unfold format_var, var_text, put_text. replace (zlen (s_out s) >=? s_max s) with false by lia.
  destruct (array_size (v_kind v)); [|now rewrite app_nil_r]. now rewrite put_index_text, put_app.
Qed.

Lemma put_value s layer class v : wf128 v -> format_value s layer class v = Some (WinDivertPutString s (value_text layer class v)).
Proof.
  intros W. destruct class; cbn [format_value value_text]; try now apply put_decimal.
  - rewrite format_ipv4 by apply W. reflexivity.
  - now rewrite format_address.
  - unfold put_name, name_text. destruct (layer_name (w0 v)); [reflexivity|now rewrite put_dec32].
  - unfold put_name, name_text. destruct (event_name layer (w0 v)); [reflexivity|now rewrite put_dec32].
  - unfold put_text. now rewrite format_hex, put_app.
Qed.

Lemma put_cond s layer t : writable_test t -> zlen (s_out s) + zlen (cond_text layer t) < s_max s ->
  WinDivertFormatTestExpr s t layer = Some (WinDivertPutString s (cond_text layer t)).
Proof.
  intros [I W] R. unfold WinDivertFormatTestExpr, cond_text in *. destruct (flag_test t) as [negated|].
  - rewrite zlen_app in R. pose proof (zlen_nonneg (var_text (t_var t))).
    set (p := if negated then chars "not " else []) in *. replace (if negated then put_text s "not " else s)
      with (WinDivertPutString s p) by (subst p; now destruct negated).
    destruct (put_room s p) as [E M]; [lia|]. rewrite put_var by (rewrite ?E, ?M; assumption || lia). now rewrite put_app.
  - rewrite zlen_app in R. pose proof (zlen_nonneg (var_text (t_var t))). pose proof (zlen_nonneg
      (chars (operator_text (t_kind t)) ++ (if n_neg (t_val t) then [45] else []) ++ constant_text layer t)).
    rewrite put_var by (assumption || lia). cbn [obind]. rewrite put_value by exact W. unfold put_text, constant_text. f_equal.
    destruct (n_neg (t_val t)); rewrite ?put_char, !put_app; now rewrite <- ?app_assoc.
Qed.

(** There is room for the rest of a text. *)
Ltac room :=
  repeat match goal with |- context [WinDivertPutString ?s ?t] =>
    let E := fresh in let M := fresh in destruct (put_room s t) as [E M]; [|rewrite E, M; clear E M] end;
  repeat match goal with H : context [zlen (?a ++ ?b)] |- _ => rewrite (zlen_app a b) in H end;
  rewrite ?zlen_app;
  repeat match goal with
  | H : context [zlen ?x] |- _ => lazymatch goal with _ : 0 <= zlen x |- _ => fail | _ => pose proof (zlen_nonneg x) end
  end; lia.

(** With room for the whole text, all of it is printed. *)
Lemma put_expr layer : forall e s top_level and, writable e -> zlen (s_out s) + zlen (expr_text layer e top_level and) < s_max s ->
  WinDivertFormatExpr s e layer top_level and = Some (WinDivertPutString s (expr_text layer e top_level and)).
Proof.
  induction e as [t|a IHa b IHb|a IHa b IHb|c IHc t IHt f IHf| |]; intros s top_level and W R; cbn [WinDivertFormatExpr writable] in *;
    (replace (zlen (s_out s) >=? s_max s) with false
      by (match type of R with _ + zlen ?x < _ => pose proof (zlen_nonneg x) end; lia)); cbn [expr_text] in *.
  - now apply put_cond.
  - destruct W as [Wa Wb]. rewrite parens_text in *. rewrite put_if, IHa by (exact Wa || room). cbn [obind].
    unfold put_text. rewrite !put_app, IHb by (exact Wb || room). cbn [obind]. rewrite put_if, !put_app. now rewrite <- !app_assoc.
  - destruct W as [Wa Wb]. rewrite parens_text in *. rewrite put_if, IHa by (exact Wa || room). cbn [obind].
    unfold put_text. rewrite !put_app, IHb by (exact Wb || room). cbn [obind]. rewrite put_if, !put_app. now rewrite <- !app_assoc.
  - destruct W as (Wc & Wt & Wf). rewrite put_char. rewrite IHc by (exact Wc || room). cbn [obind].
    unfold put_text. rewrite !put_app, IHt by (exact Wt || room). cbn [obind]. rewrite !put_app, IHf by (exact Wf || room).
    cbn [obind]. rewrite put_char, !put_app. now rewrite <- !app_assoc.
  - reflexivity.
  - reflexivity.
Qed.

(** ** Rounds of the tokenizer *)

(** Rounds that push tokens, at least one. *)
Inductive chain (layer : WINDIVERT_LAYER) : Z -> list Z -> list TOKEN -> Z -> list Z -> Prop :=
| chain_one i s l i' s' : scan layer i s = RPush l i' s' -> chain layer i s l i' s'
| chain_more i s l i1 s1 l' i2 s2 : scan layer i s = RPush l i1 s1 -> chain layer i1 s1 l' i2 s2 ->
    chain layer i s (l ++ l') i2 s2.

(** Before [r], the text [s] is read as tokens with property [Q], no more
    of them than it has characters. *)
Definition reads (layer : WINDIVERT_LAYER) (s r : list Z) (Q : list TOKEN -> Prop) : Prop :=
  forall i, exists l i', chain layer i (s ++ r) l i' r /\ zlen l <= zlen s /\ Q l.

Definition has_kind (k : KIND) (l : list TOKEN) : Prop := exists t, l = [t] /\ is_kind k t.

Definition are_tokens (ks : list (KIND * u128)) (l : list TOKEN) : Prop := map (fun t => (kind t, val t)) l = ks.

(** No word goes on in [r]. *)
Definition stops (r : list Z) : bool := negb (is_token_char (char0 r)).

(** A word the tokenizer takes whole, and one it takes whole also before a
    colon. *)
Definition plain_word (w : list Z) : bool :=
  forallb is_token_char w && (zlen w <? TOKEN_MAXLEN) && negb (trailing_colon w) &&
  match w with c :: w' => negb (c =? 58) || (char0 w' =? 58) | [] => false end.

Definition colon_word (w : list Z) : bool := (zlen w + 1 <? TOKEN_MAXLEN) && negb (char0 (rev w) =? 58).

Definition before_colon (r : list Z) : Prop := exists r', r = 58 :: 32 :: r'.

Definition may_follow (w r : list Z) : Prop := stops r = true \/ (colon_word w = true /\ before_colon r).

Lemma chain_app layer i s l i1 s1 l' i2 s2 : chain layer i s l i1 s1 -> chain layer i1 s1 l' i2 s2 -> chain layer i s (l ++ l') i2 s2.
Proof.
  induction 1 as [i s l i1 s1 H|i s l i1 s1 l1 i2' s2' H _ IH]; intros C; [now apply (chain_more _ _ _ _ i1 s1)|].
  rewrite <- app_assoc. apply (chain_more _ _ _ _ i1 s1); auto.
Qed.

Lemma reads_app layer a b r (A B Q : list TOKEN -> Prop) : reads layer a (b ++ r) A -> reads layer b r B ->
  (forall l l', A l -> B l' -> Q (l ++ l')) -> reads layer (a ++ b) r Q.
Proof.
  intros Ha Hb H i. destruct (Ha i) as (l & i1 & C & Zl & Al). destruct (Hb i1) as (l' & i2 & C' & Zl' & Bl). exists (l ++ l'), i2.
  rewrite <- app_assoc, !zlen_app. split; [now apply (chain_app _ _ _ _ i1 (b ++ r))|]. split; [lia|auto].
Qed.

Definition then_ (A B : list TOKEN -> Prop) (l : list TOKEN) : Prop := exists a b, l = a ++ b /\ A a /\ B b.

Lemma reads_seq layer a b r A B : reads layer a (b ++ r) A -> reads layer b r B -> reads layer (a ++ b) r (then_ A B).
Proof. intros Ha Hb. apply (reads_app _ a b r A B); [exact Ha|exact Hb|]. intros l l' H H'. now exists l, l'. Qed.

Lemma reads_space layer s r Q : reads layer s r Q -> reads layer (32 :: s) r Q.
Proof.
  intros H i. destruct (H (i + 1)) as (l & i' & C & Zl & q). exists l, i'. rewrite zlen_cons. split; [|split; [lia|exact q]].
  inversion C; subst; [apply chain_one|eapply chain_more]; eassumption.
Qed.

Lemma reads_impl layer s r (P Q : list TOKEN -> Prop) : (forall l, P l -> Q l) -> reads layer s r P -> reads layer s r Q.
Proof. intros I H i. destruct (H i) as (l & i' & C & Zl & p). exists l, i'. auto. Qed.

(** A round that pushes one token. *)
Lemma reads_push layer s r k : s <> [] -> (forall i, exists p i', scan layer i (s ++ r) = push1 k p i' r) -> reads layer s r (has_kind k).
Proof.
  intros N H i. destruct (H i) as (p & i' & E). eexists _, i'. split; [apply chain_one; exact E|].
  split; [destruct s; [congruence|]; rewrite !zlen_cons, zlen_nil; pose proof (zlen_nonneg s); lia|]. eexists. split; reflexivity.
Qed.

(** The tokens of a text read to its end. *)
Lemma chain_tokens layer tm : forall i s l i', chain layer i s l i' [] -> forall fuel tp, (length s < fuel)%nat ->
  tp + zlen l < tm - 1 -> lex_loop fuel layer tm tp i s = LTokens (l ++ [end_token i' []]).
Proof.
  assert (End : forall fuel tp i, (0 < fuel)%nat -> tp < tm - 1 -> lex_loop fuel layer tm tp i [] = LTokens [end_token i []]).
  { intros [|fuel] tp i Hf Ht; [lia|]. cbn [lex_loop]. now replace (tp >=? tm - 1) with false by lia. }
  intros i s l i' C. remember [] as nil eqn:N in C. induction C as [i s l i' s' H|i s l i1 s1 l' i2 s2 H _ IH]; intros fuel tp Hf Ht; subst;
    pose proof (scan_progress _ _ _ _ _ _ H); (destruct fuel as [|fuel]; [lia|]); cbn [lex_loop]; rewrite H.
  - pose proof (zlen_nonneg l). replace (tp >=? tm - 1) with false by lia. rewrite End by lia. reflexivity.
  - rewrite zlen_app in Ht. pose proof (zlen_nonneg l). pose proof (zlen_nonneg l').
    replace (tp >=? tm - 1) with false by lia. rewrite IH by (reflexivity || lia). cbn [lex_cons]. now rewrite app_assoc.
Qed.

(** *** Words *)

Lemma word_chars_whole : forall w n r, forallb is_token_char w = true -> (length w <= n)%nat -> stops r = true \/ length w = n ->
  word_chars n (w ++ r) = (w, r).
Proof.
  induction w as [|c w IH]; intros n r H L S; cbn [app].
  - destruct n as [|n]; [now destruct r|]. destruct S as [S|S]; [|discriminate S]. destruct r as [|c r]; [reflexivity|].
    unfold stops, char0 in S. cbn [hd] in S. apply negb_true_iff in S. cbn [word_chars]. now rewrite S.
  - destruct n as [|n]; [cbn [length] in L; lia|]. cbn [forallb] in H. apply andb_true_iff in H. destruct H as [Hc Hw].
    cbn [word_chars]. rewrite Hc, IH; [reflexivity|exact Hw|cbn [length] in L; lia|].
    destruct S as [S|S]; [now left|right; cbn [length] in S; lia].
Qed.

Lemma token_char_cases c : is_token_char c = true ->
  WinDivertIsSpace c = false /\ c <> 0 /\ c <> 40 /\ c <> 41 /\ c <> 91 /\ c <> 93 /\ c <> 45 /\ c <> 33 /\ c <> 61 /\
  c <> 60 /\ c <> 62 /\ c <> 63 /\ c <> 38 /\ c <> 124.
Proof. unfold is_token_char, WinDivertIsAlNum, WinDivertIsSpace, between. lia. Qed.

(** The round of a word. *)
Lemma scan_is_word layer i c s : is_token_char c = true -> (c = 58 -> char0 s = 58) ->
  scan layer i (c :: s) = scan_word layer c i (i + 1) s.
Proof.
  intros T C. destruct (token_char_cases c T) as (S & N). unfold scan. cbn [skip_space]. rewrite S.
  repeat match goal with |- context [c =? ?k] => lazymatch k with 58 => fail | _ => replace (c =? k) with false by lia end end.
  destruct (Z.eqb_spec c 58) as [E|E]; [|reflexivity]. rewrite (C E). reflexivity.
Qed.

Lemma place_tokens p ks : are_tokens ks (place p ks).
Proof.
  unfold are_tokens. destruct ks as [|[k v] ks]; [reflexivity|]. cbn [place map kind val]. f_equal.
  induction ks as [|[k' v'] ks IH]; [reflexivity|]. cbn [map fst snd kind val]. now rewrite IH.
Qed.

(** A word is classified whole. *)
Lemma reads_word layer w ks r : plain_word w = true -> classify layer w = WTokens ks -> zlen ks <= zlen w -> may_follow w r ->
  reads layer w r (are_tokens ks).
Proof.
  unfold plain_word. rewrite !andb_true_iff. intros (((T & L) & N) & B) K Zk F i. destruct w as [|c w]; [discriminate B|].
  apply negb_true_iff in N. cbn [forallb] in T. apply andb_true_iff in T. destruct T as [Tc Tw]. rewrite zlen_cons in L.
  unfold TOKEN_MAXLEN in L. exists (place i ks).
  assert (E : exists i', scan layer i ((c :: w) ++ r) = RPush (place i ks) i' r).
  { cbn [app]. rewrite scan_is_word; [|exact Tc|].
    2: { intros ->. destruct w as [|x w]; [|cbn in B |- *; lia]. destruct F as [S|(Q & _)]; [discriminate B|discriminate Q]. }
    unfold scan_word. rewrite Tc. change (Z.to_nat TOKEN_MAXLEN - 1)%nat with 39%nat. destruct F as [S|(Q & r' & ->)].
    - rewrite (word_chars_whole w 39 r) by (assumption || (unfold zlen in L; lia) || auto).
      unfold TOKEN_MAXLEN. replace (1 + zlen w >=? 40) with false by lia. rewrite N, K. eauto.
    - unfold colon_word, TOKEN_MAXLEN in Q. rewrite zlen_cons in Q. apply andb_true_iff in Q. destruct Q as [Q1 Q2].
      replace (w ++ 58 :: 32 :: r') with ((w ++ [58]) ++ 32 :: r') by (now rewrite <- app_assoc).
      rewrite word_chars_whole; [|rewrite forallb_app, Tw; reflexivity|rewrite length_app; unfold zlen in L, Q1; cbn [length]; lia|now left].
      unfold TOKEN_MAXLEN. rewrite zlen_app. change (zlen [58]) with 1. replace (1 + (zlen w + 1) >=? 40) with false by lia.
      unfold trailing_colon. cbn [rev] in *. rewrite rev_app_distr. cbn [rev app]. rewrite Z.eqb_refl, Q2. cbn [andb].
      rewrite app_comm_cons, removelast_last, K. eauto. }
  destruct E as [i' E]. exists i'. split; [now apply chain_one|]. pose proof (place_tokens i ks) as P. split; [|exact P].
  apply (f_equal (@length _)) in P. rewrite length_map in P. unfold zlen in *. lia.
Qed.

(** *** What the words are *)


Lemma lookup_absent w (P : list Z -> bool) : no_nul w = true -> P w = true ->
  forallb (fun x => negb (P (fst x))) token_info = true -> WinDivertTokenLookup token_info w = None.
Proof.
  intros N H F. destruct (WinDivertTokenLookup token_info w) as [k|] eqn:E; [|reflexivity].
  apply lookup_loop_sound in E; [|now apply no_nul_forall|exact token_info_no_nul].
  pose proof (proj1 (forallb_forall _ _) F _ E) as X. cbn [fst] in X. rewrite H in X. discriminate X.
Qed.

Lemma token_chars_no_nul w : forallb is_token_char w = true -> no_nul w = true.
Proof.
  unfold no_nul. rewrite !forallb_forall. intros H c Hc. specialize (H c Hc). destruct (token_char_cases c H) as (_ & N & _). lia.
Qed.

(** A word without colons. *)
Lemma simple_word w : forallb (fun c => is_token_char c && negb (c =? 58)) w = true -> w <> [] -> zlen w < TOKEN_MAXLEN ->
  plain_word w = true.
Proof.
  intros H N L. assert (T : forallb is_token_char w = true).
  { rewrite forallb_forall in *. intros c Hc. specialize (H c Hc). now apply andb_true_iff in H. }
  unfold plain_word. rewrite T. replace (zlen w <? TOKEN_MAXLEN) with true by lia. cbn [andb].
  assert (R : trailing_colon w = false).
  { unfold trailing_colon. destruct (rev w) as [|c r] eqn:E; [reflexivity|].
    rewrite forallb_forall in H. specialize (H c ltac:(apply in_rev; rewrite E; now left)). lia. }
  rewrite R. cbn [negb andb]. destruct w as [|c w]; [congruence|]. cbn [forallb] in H. lia.
Qed.

Lemma digits_simple w : forallb WinDivertIsDigit w = true -> forallb (fun c => is_token_char c && negb (c =? 58)) w = true.
Proof.
  rewrite !forallb_forall. intros H c Hc. specialize (H c Hc).
  unfold is_token_char, WinDivertIsAlNum, WinDivertIsDigit, between in *. lia.
Qed.

Lemma simple_no_nul w : forallb (fun c => is_token_char c && negb (c =? 58)) w = true -> no_nul w = true.
Proof.
  intros H. apply token_chars_no_nul. rewrite forallb_forall in *. intros c Hc. specialize (H c Hc). now apply andb_true_iff in H.
Qed.

(** No name starts with a digit, none contains a colon. *)
Lemma lookup_digit w : no_nul w = true -> WinDivertIsDigit (char0 w) = true -> WinDivertTokenLookup token_info w = None.
Proof. intros N D. apply (lookup_absent w (fun x => WinDivertIsDigit (char0 x))); [exact N|exact D|vm_compute; reflexivity]. Qed.

Lemma lookup_colon w : no_nul w = true -> existsb (Z.eqb 58) w = true -> WinDivertTokenLookup token_info w = None.
Proof. intros N D. apply (lookup_absent w (existsb (Z.eqb 58))); [exact N|exact D|vm_compute; reflexivity]. Qed.

Lemma digit_head w : w <> [] -> forallb WinDivertIsDigit w = true -> WinDivertIsDigit (char0 w) = true.
Proof. destruct w as [|c w]; [congruence|]. cbn [forallb]. intros _ H. now apply andb_true_iff in H. Qed.

(** Decimal numbers, alone and with the [b] of an index. *)
Section Decimal.
Variables (layer : WINDIVERT_LAYER) (w : list Z) (v : u128).
Hypotheses (D : forallb WinDivertIsDigit w = true) (N : w <> []) (W : wf128 v) (V : dec_value w 0 = val128 v).

Lemma decimal_read rest : no_digit rest = true -> WinDivertAToI (w ++ rest) = Some (v, rest).
Proof using D N W V.
  intros R. pose proof (atoi_spec w rest N D R) as A. rewrite V in A. pose proof (val128_bound v W).
  replace (val128 v <? 2 ^ 128) with true in A by lia. destruct A as (r & -> & Wr & Vr). now rewrite (val128_inj r v Wr W Vr).
Qed.

Lemma not_b : (char0 w =? 98) = false.
Proof using D N. pose proof (digit_head w N D). unfold WinDivertIsDigit, between in *. lia. Qed.

Lemma classify_decimal : classify layer w = WTokens [(TOKEN_NUMBER, v)].
Proof using D N W V.
  unfold classify. rewrite lookup_digit by (apply simple_no_nul, digits_simple, D || now apply digit_head).
  rewrite not_b. cbn [andb]. unfold decimal. rewrite <- (app_nil_r w), decimal_read by reflexivity. reflexivity.
Qed.

Lemma classify_bytes : classify layer (w ++ [98]) = WTokens [(TOKEN_NUMBER, v); (TOKEN_BYTES, zero128)].
Proof using D N W V.
  assert (H : char0 (w ++ [98]) = char0 w) by (destruct w; [congruence|reflexivity]).
  unfold classify. rewrite lookup_digit; [|apply simple_no_nul; rewrite forallb_app, digits_simple by exact D; reflexivity
    |rewrite H; now apply digit_head].
  rewrite H, not_b. cbn [andb]. unfold decimal. rewrite decimal_read by reflexivity. reflexivity.
Qed.
End Decimal.

Lemma dec_digits_length : forall n v buf t k, wf128 v -> val128 v < 10 ^ Z.of_nat k -> dec_digits n v buf = Some t ->
  (length t <= k + length buf)%nat.
Proof.
  induction n as [|n IH]; intros v buf t k W B E; cbn [dec_digits] in E; [injection E as <-; lia|].
  rewrite is_zero128 in E by exact W. destruct (Z.eqb_spec (val128 v) 0) as [Z|Z]; [injection E as <-; lia|].
  destruct (div_ten_spec v W) as (q & Q & Wq & Vq). rewrite Q in E. pose proof (val128_bound v W).
  destruct k as [|k]; [change (10 ^ Z.of_nat 0) with 1 in B; lia|]. rewrite Nat2Z.inj_succ, Z.pow_succ_r in B by lia.
  apply (IH q _ t k Wq) in E; [cbn [length] in E; lia|]. rewrite Vq. apply Z.div_lt_upper_bound; lia.
Qed.

Lemma decimal_text_spec v : wf128 v -> forallb WinDivertIsDigit (decimal_text v) = true /\ decimal_text v <> [] /\
  dec_value (decimal_text v) 0 = val128 v /\ zlen (decimal_text v) <= 39.
Proof.
  intros W. unfold decimal_text. pose proof (val128_bound v W). destruct (Z.eqb_spec (val128 v) 0) as [E|E].
  - rewrite E. repeat split; discriminate.
  - destruct (dec_digits_spec 40 v [] W) as (t & T & D & V & N); [lia|]. rewrite T. rewrite app_nil_r in *. repeat split; auto.
    pose proof (dec_digits_length 40 v [] t 39 W ltac:(lia) T) as L. unfold zlen. cbn [length] in L. lia.
Qed.

Lemma dec32_text_spec v : is_u32 v -> forallb WinDivertIsDigit (dec32_text v) = true /\ dec32_text v <> [] /\
  dec_value (dec32_text v) 0 = v /\ zlen (dec32_text v) <= 10.
Proof.
  intros U. unfold is_u32 in U. destruct (dec_text_spec 9 v false 0) as (A & B & C & L); [change (10 ^ Z.of_nat 10) with 10000000000; lia|auto|].
  unfold dec32_text, zlen. split; [exact A|]. split; [exact B|]. split; lia.
Qed.

Lemma classify_dec32 layer v : is_u32 v -> classify layer (dec32_text v) = WTokens [(TOKEN_NUMBER, W128 v 0 0 0)].
Proof.
  intros U. destruct (dec32_text_spec v U) as (A & B & C & _). apply classify_decimal; auto.
  - unfold is_u32 in *. repeat split; cbn; lia.
  - rewrite C. unfold val128. cbn [w0 w1 w2 w3]. lia.
Qed.

(** Hexadecimal numbers. *)
Lemma classify_hex layer v : wf128 v -> classify layer (chars "0x" ++ hex128_text v) = WTokens [(TOKEN_NUMBER, v)].
Proof.
  intros W. destruct (hex128_text_spec v W) as (C & _). change (chars "0x" ++ hex128_text v) with (48 :: 120 :: hex128_text v).
  assert (N : no_nul (48 :: 120 :: hex128_text v) = true).
  { apply token_chars_no_nul. cbn [forallb]. change (is_token_char 48) with true. change (is_token_char 120) with true. cbn [andb].
    apply forallb_forall. intros c Hc. now apply (hex_text_in _ c C). }
  unfold classify. rewrite lookup_digit by (exact N || reflexivity). change (char0 (48 :: _) =? 98) with false. cbn [andb].
  assert (D : decimal (48 :: 120 :: hex128_text v) = None).
  { unfold decimal, WinDivertAToI. cbn [atoi_loop]. change (WinDivertIsDigit 48) with true. change (WinDivertIsDigit 120) with false.
    cbv iota. change (mul_add zero128 10 (48 - 48)) with (Some zero128). cbv iota beta. pose proof (zlen_nonneg (hex128_text v)).
    rewrite !zlen_cons. replace (1 + zlen (hex128_text v) =? _) with false by lia. rewrite zlen_cons.
    replace (1 + zlen (hex128_text v) =? 0) with false by lia. change (char0 (120 :: _) =? 98) with false. now rewrite andb_false_r. }
  rewrite D. unfold hexadecimal, WinDivertAToX. cbn [Z.eqb Pos.eqb andb]. rewrite <- (app_nil_r (hex128_text v)), hex_read by (exact W || reflexivity).
  reflexivity.
Qed.

(** IPv4 addresses. *)
Definition dotted (w : list Z) : bool := forallb (fun c => WinDivertIsDigit c || (c =? 46)) w.

Lemma octet_text_spec v : 0 <= v < 256 -> forallb WinDivertIsDigit (octet_text v) = true /\ octet_text v <> [].
Proof. intros H. destruct (dec32_text_spec v) as (A & B & _); [unfold is_u32; lia|]. auto. Qed.

Lemma ipv4_dotted a : is_u32 a -> exists x rest, ipv4_text a = octet_text x ++ 46 :: rest /\ 0 <= x < 256 /\ dotted (ipv4_text a) = true.
Proof.
  unfold is_u32. intros U. destruct (ipv4_parts a U) as [T _].
  assert (O : forall v, 0 <= v < 256 -> dotted (octet_text v) = true).
  { intros v Hv. destruct (octet_text_spec v Hv) as [D _]. unfold dotted. rewrite forallb_forall in *. intros c Hc. now rewrite D. }
  exists (a / 2 ^ 24). eexists. split; [reflexivity|]. split; [exact T|]. unfold ipv4_text, dotted in *.
  rewrite !forallb_app, !O by (exact T || (apply Z.mod_pos_bound; lia)). reflexivity.
Qed.

Lemma classify_ipv4 layer a : is_u32 a ->
  classify layer (ipv4_text a) = WTokens [(TOKEN_NUMBER, W128 a 0x0000FFFF 0 0)] /\ plain_word (ipv4_text a) = true.
Proof.
  intros U. destruct (ipv4_dotted a U) as (x & rest & E & X & D). destruct (octet_text_spec x X) as [Dx Nx].
  assert (S : forallb (fun c => is_token_char c && negb (c =? 58)) (ipv4_text a) = true).
  { unfold dotted in D. rewrite forallb_forall in *. intros c Hc. specialize (D c Hc).
    unfold is_token_char, WinDivertIsAlNum, WinDivertIsDigit, between in *. lia. }
  assert (H : WinDivertIsDigit (char0 (ipv4_text a)) = true).
  { rewrite E. pose proof (digit_head _ Nx Dx) as Q. destruct (octet_text x); [congruence|exact Q]. }
  split.
  - unfold classify. rewrite lookup_digit by (exact H || now apply simple_no_nul).
    replace (char0 (ipv4_text a) =? 98) with false by (unfold WinDivertIsDigit, between in H; lia). cbn [andb].
    assert (Dn : decimal (ipv4_text a) = None).
    { unfold decimal. rewrite E. destruct (octet_read x (46 :: rest) X eq_refl) as (r & -> & _). rewrite zlen_cons.
      pose proof (zlen_nonneg rest). replace (1 + zlen rest =? 0) with false by lia. change (char0 (46 :: rest) =? 98) with false.
      now rewrite andb_false_r. }
    assert (Hn : hexadecimal (ipv4_text a) = None).
    { unfold hexadecimal, WinDivertAToX. destruct (ipv4_text a) as [|c0 [|c1 t]]; try reflexivity. cbn [dotted forallb] in D.
      unfold WinDivertIsDigit, between in D. now replace (c1 =? 120) with false by lia; rewrite andb_false_r. }
    rewrite Dn, Hn. unfold address. now rewrite parse_ipv4_text by exact U.
  - apply simple_word; [exact S|rewrite E; now destruct (octet_text x)|]. pose proof (ipv4_text_length a U). unfold TOKEN_MAXLEN. lia.
Qed.

(** IPv6 addresses. *)
Definition addr_char (c : Z) : bool := (WinDivertIsXDigit c && is_token_char c) || (c =? 58).

(** The word starts like a word and does not end with a single colon. *)
Definition v6_word (w : list Z) : bool :=
  forallb addr_char w && existsb (Z.eqb 58) w && negb (trailing_colon w) &&
  match w with c :: w' => negb (c =? 58) || (char0 w' =? 58) | [] => false end.

Lemma group_chars g : group_ok g -> forallb addr_char (group_text g) = true /\
  (exists c t, group_text g = c :: t /\ c <> 58) /\ (exists c t, rev (group_text g) = c :: t /\ c <> 58).
Proof.
  intros H. destruct (group_text_spec g H) as (C & N & _). split.
  - apply forallb_forall. intros c Hc. destruct (hex_text_in _ c C Hc) as (X & T & _). unfold addr_char. now rewrite X, T.
  - split.
    + destruct (group_text g) as [|c t] eqn:E; [congruence|]. exists c, t. split; [reflexivity|]. now apply (hex_text_in _ c C); left.
    + destruct (rev (group_text g)) as [|c t] eqn:E; [apply (f_equal (@rev Z)) in E; rewrite rev_involutive in E; now elim N|].
      exists c, t. split; [reflexivity|]. apply (hex_text_in _ c C). apply in_rev. rewrite E. now left.
Qed.

Lemma colons_snoc l g : colons (l ++ [g]) = (colons l ++ group_text g) ++ [58].
Proof. unfold colons. rewrite map_app, concat_app. cbn [map concat]. now rewrite app_nil_r, app_assoc. Qed.

Lemma colons_chars l : groups_ok l -> forallb addr_char (colons l) = true.
Proof.
  induction 1 as [|g l Hg _ IH]; [reflexivity|]. cbn [colons map concat]. fold (colons l).
  rewrite !forallb_app, IH. destruct (group_chars g Hg) as [-> _]. reflexivity.
Qed.

(** The last group of joined groups, if there is one. *)
Lemma joined_end l : groups_ok l -> forallb addr_char (joined_groups l) = true /\
  (l = [] \/ exists c t, rev (joined_groups l) = c :: t /\ c <> 58).
Proof.
  intros H. destruct (rev l) as [|g r] eqn:E; apply (f_equal (@rev Z)) in E; rewrite rev_involutive in E; cbn [rev] in E; subst l.
  { split; [reflexivity|now left]. }
  apply Forall_app in H. destruct H as [H Hg]. inversion Hg as [|? ? Hg' _]; subst. destruct (group_chars g Hg') as (C & _ & (c & t & R & N)).
  rewrite joined_snoc, forallb_app, colons_chars, C by exact H. split; [reflexivity|right].
  rewrite rev_app_distr, R. exists c, (t ++ rev (colons (rev r))). split; [reflexivity|exact N].
Qed.

Lemma no_trailing w c t : rev w = c :: t -> c <> 58 -> trailing_colon w = false.
Proof. intros E N. unfold trailing_colon. rewrite E. now replace (c =? 58) with false by lia. Qed.

Lemma joined_word g h l : groups_ok (g :: h :: l) -> v6_word (joined_groups (g :: h :: l)) = true.
Proof.
  intros H. destruct (joined_end _ H) as (C & [?|(c & t & E & N)]); [discriminate|]. unfold v6_word. rewrite C, (no_trailing _ c t E N).
  inversion H as [|? ? Hg _]; subst. destruct (group_chars g Hg) as (_ & (c' & t' & E' & N') & _). rewrite joined_cons, E'.
  rewrite existsb_app. cbn [existsb app]. rewrite orb_true_r. cbn [andb negb]. now replace (c' =? 58) with false by lia.
Qed.

Lemma short_start L R : groups_ok L -> exists c t, short_text L R = c :: t /\ (c <> 58 \/ char0 t = 58).
Proof.
  intros H. unfold short_text. destruct H as [|g L Hg _]; [eexists _, _; split; [reflexivity|now right]|].
  cbn [colons map concat]. destruct (group_chars g Hg) as (_ & (c & t & E & N) & _). rewrite E. eexists _, _. split; [reflexivity|now left].
Qed.

Lemma short_word L R : groups_ok L -> groups_ok R -> v6_word (short_text L R) = true.
Proof.
  intros HL HR. destruct (joined_end R HR) as (CR & ER). unfold v6_word.
  assert (C : forallb addr_char (short_text L R) = true).
  { unfold short_text. rewrite forallb_app. cbn [forallb]. rewrite CR. destruct L; [reflexivity|]. now rewrite colons_chars. }
  assert (X : existsb (Z.eqb 58) (short_text L R) = true) by (unfold short_text; rewrite existsb_app; cbn [existsb]; now rewrite orb_true_r).
  assert (T : trailing_colon (short_text L R) = false).
  { unfold short_text. destruct ER as [->|(c & t & E & N)].
    - cbn [joined_groups]. unfold trailing_colon. rewrite rev_app_distr. cbn [rev app]. rewrite Z.eqb_refl. cbn [andb].
      destruct (rev L) as [|g r] eqn:E; apply (f_equal (@rev Z)) in E; rewrite rev_involutive in E; cbn [rev] in E; subst L; [reflexivity|].
      destruct (rev r ++ [g]) eqn:E2; [now destruct (rev r)|]. rewrite <- E2, colons_snoc, rev_app_distr. reflexivity.
    - apply (no_trailing _ c (t ++ [58] ++ rev match L with [] => [58] | _ => colons L end)); [|exact N].
      rewrite rev_app_distr. cbn [rev]. rewrite E, <- !app_assoc. reflexivity. }
  rewrite C, X, T. destruct (short_start L R HL) as (c & t & -> & Q). cbn [negb andb]. lia.
Qed.

Lemma address_word a : wf128 a -> is_v4_mapped a = false -> v6_word (address_text a) = true.
Proof.
  intros W M. unfold address_text. rewrite M. assert (G : groups_ok (rev (addr_groups a))) by (apply Forall_rev, addr_groups_ok, W).
  unfold ipv6_text. case_if; [now apply joined_word|].
  destruct (groups_ok_sub (rev (addr_groups a)) (7 - Z.to_nat (fst (v6_run a))) (7 - Z.to_nat (fst (v6_run a)) + Z.to_nat (snd (v6_run a))) G) as [GL GR].
  now apply short_word.
Qed.

Lemma skip_digits_chars (P : Z -> bool) s : forallb P s = true -> forallb P (skip_digits s) = true.
Proof.
  induction s as [|c s IH]; [auto|]. cbn [forallb skip_digits]. intros H. destruct (WinDivertIsDigit c); [|exact H].
  apply andb_true_iff in H. now apply IH.
Qed.

Lemma skip_digits_colon s : existsb (Z.eqb 58) s = true -> existsb (Z.eqb 58) (skip_digits s) = true.
Proof.
  induction s as [|c s IH]; [auto|]. cbn [skip_digits]. destruct (WinDivertIsDigit c) eqn:D; [|auto]. cbn [existsb].
  unfold WinDivertIsDigit, between in D. replace (58 =? c) with false by lia. exact IH.
Qed.

(** A word with a colon is an address or nothing. *)
Lemma classify_colon layer w : v6_word w = true -> classify layer w = address w.
Proof.
  unfold v6_word. rewrite !andb_true_iff. intros (((C & X) & _) & _).
  assert (T : forallb is_token_char w = true).
  { rewrite forallb_forall in *. intros c Hc. specialize (C c Hc). unfold addr_char in C. apply orb_true_iff in C.
    destruct C as [C|C]; [now apply andb_true_iff in C|apply Z.eqb_eq in C; now subst c]. }
  unfold classify. rewrite lookup_colon by (exact X || now apply token_chars_no_nul).
  assert (B : (char0 w =? 98) && (zlen w =? 1) = false).
  { destruct w as [|c [|d t]]; [reflexivity| |rewrite !zlen_cons; pose proof (zlen_nonneg t); lia].
    unfold char0. cbn [hd existsb] in *. lia. }
  rewrite B. assert (D : decimal w = None).
  { unfold decimal, WinDivertAToI. destruct (atoi_loop zero128 w) as [[n r]|] eqn:E; [|reflexivity].
    destruct (zlen r =? zlen w); [reflexivity|]. apply atoi_loop_rest in E. subst r. apply skip_digits_colon in X.
    destruct (skip_digits w) as [|c [|d t]]; [discriminate X| |rewrite !zlen_cons; pose proof (zlen_nonneg t);
      replace (1 + (1 + zlen t) =? 0) with false by lia; now replace (1 + (1 + zlen t) =? 1) with false by lia].
    change (zlen [c] =? 0) with false. unfold char0. cbn [hd existsb] in *. now replace (c =? 98) with false by lia; rewrite andb_false_r. }
  assert (Hx : hexadecimal w = None).
  { unfold hexadecimal, WinDivertAToX. destruct w as [|c0 [|c1 t]]; try reflexivity. cbn [forallb] in C.
    unfold addr_char, WinDivertIsXDigit, between in C. now replace (c1 =? 120) with false by lia; rewrite andb_false_r. }
  now rewrite D, Hx.
Qed.

Lemma classify_address layer a : wf128 a ->
  classify layer (address_text a) = WTokens [(TOKEN_NUMBER, a)] /\ plain_word (address_text a) = true.
Proof.
  intros W. destruct (is_v4_mapped a) eqn:M.
  - unfold address_text. rewrite M. destruct (classify_ipv4 layer (w0 a)) as [E P]; [apply W|]. rewrite E. split; [|exact P].
    destruct a as [a0 a1 a2 a3]. unfold is_v4_mapped in M. cbn [w0 w1 w2 w3] in *. do 4 f_equal; lia.
  - pose proof (address_word a W M) as V. rewrite (classify_colon layer _ V). unfold v6_word in V. rewrite !andb_true_iff in V.
    destruct V as (((C & X) & N) & S). split.
    + unfold address. rewrite no_ipv4; [now rewrite address_read|].
      pose proof (skip_digits_chars addr_char _ C) as D. destruct (skip_digits (address_text a)) as [|c t]; [discriminate|].
      unfold char0. cbn [hd forallb] in *. unfold addr_char, WinDivertIsXDigit, between in D. lia.
    + pose proof (address_text_length a W). unfold plain_word. rewrite N, S. replace (zlen (address_text a) <? TOKEN_MAXLEN) with true by (unfold TOKEN_MAXLEN; lia).
      rewrite !andb_true_r. rewrite forallb_forall in *. intros c Hc. specialize (C c Hc). unfold addr_char in C. apply orb_true_iff in C.
      destruct C as [C|C]; [now apply andb_true_iff in C|apply Z.eqb_eq in C; now subst c].
Qed.

(** Names of fields, layers and events. *)
Lemma classify_field layer k : field_ok layer k = true ->
  classify layer (chars (var_name k)) = WTokens [(k, zero128)] /\ plain_word (chars (var_name k)) = true /\
  colon_word (chars (var_name k)) = true.
Proof.
  unfold field_ok. destruct (WinDivertKindToField k) as [f|] eqn:K; [|discriminate]. intros V.
  assert (L : WinDivertTokenLookup token_info (chars (var_name k)) = Some k)
    by (destruct k; try discriminate K; vm_compute; reflexivity).
  split; [|destruct k; try discriminate K; split; vm_compute; reflexivity].
  unfold classify. rewrite L. unfold symbol. now rewrite K, V.
Qed.

Lemma classify_macro layer name k v : WinDivertTokenLookup token_info name = Some k -> WinDivertKindToField k = None ->
  WinDivertExpandMacro k layer = Some v -> classify layer name = WTokens [(TOKEN_NUMBER, W128 v 0 0 0)].
Proof. intros L K E. unfold classify. rewrite L. unfold symbol. now rewrite K, E. Qed.

Ltac macro := intros [= <-]; b2p; subst; split; [eapply classify_macro; vm_compute; reflexivity|vm_compute; reflexivity].

Lemma classify_layer layer v t : layer_name v = Some t ->
  classify layer (chars t) = WTokens [(TOKEN_NUMBER, W128 v 0 0 0)] /\ plain_word (chars t) = true.
Proof. unfold layer_name. repeat (case_if; [macro|]). discriminate. Qed.

Lemma classify_event layer v t : event_name layer v = Some t ->
  classify layer (chars t) = WTokens [(TOKEN_NUMBER, W128 v 0 0 0)] /\ plain_word (chars t) = true.
Proof. unfold event_name. destruct layer; repeat (case_if; [macro|]); discriminate. Qed.

(** Constants as they are printed: every class but that of IPv4 addresses
    prints the whole number, or its only word. *)
Definition printed_whole (class : var_class) (v : u128) : bool :=
  match class with
  | VIPv4 => (w1 v =? 0xFFFF) && (w2 v =? 0) && (w3 v =? 0)
  | VLayer | VEvent => fits_word v
  | _ => true
  end.

Lemma fits_word_value v : fits_word v = true -> v = W128 (w0 v) 0 0 0.
Proof. unfold fits_word. destruct v as [a b c d]. cbn [w0 w1 w2 w3]. intros H. f_equal; lia. Qed.

Lemma classify_value layer class v : wf128 v -> printed_whole class v = true ->
  classify layer (value_text layer class v) = WTokens [(TOKEN_NUMBER, v)] /\ plain_word (value_text layer class v) = true.
Proof.
  intros W P.
  assert (D32 : classify layer (dec32_text (w0 v)) = WTokens [(TOKEN_NUMBER, W128 (w0 v) 0 0 0)] /\ plain_word (dec32_text (w0 v)) = true).
  { destruct W as (W0 & _). split; [now apply classify_dec32|]. destruct (dec32_text_spec _ W0) as (A & B & _ & L).
    apply simple_word; [now apply digits_simple|exact B|unfold TOKEN_MAXLEN; lia]. }
  assert (Dec : classify layer (decimal_text v) = WTokens [(TOKEN_NUMBER, v)] /\ plain_word (decimal_text v) = true).
  { destruct (decimal_text_spec v W) as (A & B & C & L). split; [now apply classify_decimal|].
    apply simple_word; [now apply digits_simple|exact B|unfold TOKEN_MAXLEN; lia]. }
  destruct class; cbn [value_text printed_whole] in *; try exact Dec.
  - destruct (classify_ipv4 layer (w0 v)) as [E Q]; [apply W|]. rewrite E. split; [|exact Q].
    destruct v as [a b c d]. cbn [w0 w1 w2 w3] in *. do 4 f_equal; lia.
  - now apply classify_address.
  - rewrite <- (fits_word_value v P) in D32. unfold name_text. destruct (layer_name (w0 v)) as [t|] eqn:E; [|exact D32].
    apply (classify_layer layer) in E. now rewrite <- (fits_word_value v P) in E.
  - rewrite <- (fits_word_value v P) in D32. unfold name_text. destruct (event_name layer (w0 v)) as [t|] eqn:E; [|exact D32].
    apply classify_event in E. now rewrite <- (fits_word_value v P) in E.
  - split; [now apply classify_hex|]. destruct (hex128_text_spec v W) as (C & _ & _ & L). apply simple_word.
    + rewrite forallb_app. apply andb_true_iff. split; [reflexivity|]. unfold is_hex_text in C. rewrite forallb_forall in *.
      intros c Hc. specialize (C c Hc). lia.
    + discriminate.
    + rewrite zlen_app. change (zlen (chars "0x")) with 2. unfold TOKEN_MAXLEN. lia.
Qed.
