(* ===== verification/WdReprint.v ===== *)
(** * Formatting a filter and compiling it again

    The text [WinDivertHelperFormatFilter] prints is a sentence of the filter
    language, and its object decides every packet and event as the object that
    was formatted: tokenizer, parser and compiler undo the decompiler and the
    printer. *)

From Stdlib Require Import Ascii String ZArith List Bool Lia ZifyBool.
From S2P Require Import Prelude WdTypes WdPacket WdExec WdHelper WdSerial WdAddr WdLex WdParse WdAnalyze WdCompile WdMeaning.
From S2P Require Import WdHeap WdDecompile WdFormat WdIPv6 WdText.
Import ListNotations.
#[local] Open Scope list_scope.
#[local] Open Scope Z_scope.

(** ** Tests and expressions that are read back *)

(** The test that is read from the text of a test: a flag is compared with
    zero. *)
Definition reread (t : TEST_EXPR) : TEST_EXPR :=
  match flag_test t with
  | Some negated => mkTest (if negated then TOKEN_EQ else TOKEN_NEQ) (t_var t) WinDivertMakeZero
  | None => t
  end.

(** The index of an array as an offset in bytes, within the bounds of the
    language. *)
Definition index_prints (size idx : Z) : bool :=
  (u32 (i32 idx) =? idx) && index_ok (i32 idx <? 0) size (Z.abs (i32 idx)).

Definition var_prints (layer : WINDIVERT_LAYER) (v : VAR) : bool :=
  field_ok layer (v_kind v) &&
  match array_size (v_kind v) with Some size => index_prints size (v_idx v) | None => v_idx v =? 0 end.

(** A constant that is printed whole and that the field can be compared
    with: no negative zero, no sign on a flag, one word for a field of one
    word. *)
Definition value_prints (t : TEST_EXPR) : bool :=
  let n := t_val t in
  arg_ok (n_val n) && negb (n_neg n && (val128 (n_val n) =? 0)) &&
  printed_whole (classify_var (v_kind (t_var t))) (n_val n) &&
  match flag_test t with Some _ => negb (n_neg n) | None => true end &&
  match WinDivertKindToField (v_kind (t_var t)) with
  | Some f => fst (fst (field_range f)) || fits_word (n_val n)
  | None => false
  end.

Definition test_prints (layer : WINDIVERT_LAYER) (t : TEST_EXPR) : bool :=
  is_comparison (t_kind t) && var_prints layer (t_var t) && value_prints t && plain_test (reread t).

(** The last word of a text that a colon follows must neither end with a
    colon nor be as long as words can be. *)
Fixpoint colon_safe (layer : WINDIVERT_LAYER) (e : DEXPR) (top_level and : bool) : bool :=
  match e with
  | DTest t => match flag_test t with Some _ => true | None => colon_word (constant_text layer t) end
  | DAnd _ b => (negb top_level && negb and) || colon_safe layer b false true
  | DOr _ b => (negb top_level && and) || colon_safe layer b false false
  | DQuestion _ _ _ | DTrue | DFalse => true
  end.

Fixpoint printable (layer : WINDIVERT_LAYER) (e : DEXPR) : bool :=
  match e with
  | DTest t => test_prints layer t
  | DAnd a b | DOr a b => printable layer a && printable layer b
  | DQuestion c t f => printable layer c && printable layer t && printable layer f && colon_safe layer t true false
  | DTrue | DFalse => true
  end.

(** The expression that is read, up to the nesting of [and] and [or]. *)
Definition truth (k : KIND) : EXPR := ETest (mkTest TOKEN_NEQ (mkVar k 0) WinDivertMakeZero).

Fixpoint reread_expr (e : DEXPR) : EXPR :=
  match e with
  | DTest t => ETest (reread t)
  | DAnd a b => EAnd (reread_expr a) (reread_expr b)
  | DOr a b => EOr (reread_expr a) (reread_expr b)
  | DQuestion c t f => EQuestion (reread_expr c) (reread_expr t) (reread_expr f)
  | DTrue => truth TOKEN_TRUE
  | DFalse => truth TOKEN_FALSE
  end.

Definition same (x y : EXPR) : Prop := (forall h, expr_holds h x = expr_holds h y) /\ test_count x = test_count y.

(** The depth of the parser that is enough. *)
Fixpoint cost (e : DEXPR) : nat :=
  match e with
  | DTest _ | DTrue | DFalse => 2
  | DAnd a b | DOr a b => 4 + cost a + cost b
  | DQuestion c t f => 4 + cost c + cost t + cost f
  end.

(** ** The grammar *)

Lemma same_refl x : same x x.
Proof. now split. Qed.

Lemma grammar_deeper :
  (forall d l e, garg d l e -> garg (S d) l e) /\ (forall d l e, gand d l e -> gand (S d) l e) /\
  (forall d l e, gor d l e -> gor (S d) l e).
Proof. apply grammar_ind; intros; try (econstructor; eassumption). Qed.

Lemma gand_le d d' l e : (d <= d')%nat -> gand d l e -> gand d' l e.
Proof. induction 1; [auto|]. intros G. apply grammar_deeper. auto. Qed.

Lemma gor_le d d' l e : (d <= d')%nat -> gor d l e -> gor d' l e.
Proof. induction 1; [auto|]. intros G. apply grammar_deeper. auto. Qed.

(** Chains of [and] and [or] can be read with another nesting. *)
Lemma gand_join d l a o r b : gand d l a -> is_kind TOKEN_AND o -> gand d r b ->
  exists x, gand d (l ++ o :: r) x /\ same x (EAnd a b).
Proof.
  intros A O B. revert l a A. induction B as [d r b B|d l' o' r' a' b' A' IH O' B']; intros l a A.
  - exists (EAnd a b). split; [now apply gand_and|apply same_refl].
  - destruct (IH l a A) as (x & X & S & N). exists (EAnd x b').
    split; [rewrite app_comm_cons, app_assoc; now apply gand_and|]. split; cbn [expr_holds test_count] in *.
    + intros h. rewrite S. cbn [expr_holds]. now rewrite andb_assoc.
    + lia.
Qed.

Lemma gor_join d1 d2 l a o r b : gor d1 l a -> is_kind TOKEN_OR o -> gor d2 r b ->
  exists x, gor (d1 + d2) (l ++ o :: r) x /\ same x (EOr a b).
Proof.
  intros A O B. induction A as [d l a A|d l o' l' a a' A O' _ IH].
  - exists (EOr a b). split; [|apply same_refl]. cbn [Nat.add]. apply gor_or; [apply (gand_le d); [lia|exact A]|exact O|].
    apply (gor_le d2); [lia|exact B].
  - destruct IH as (x & X & S & N). exists (EOr a x). cbn [Nat.add]. rewrite <- app_assoc, <- app_comm_cons.
    split; [apply gor_or; [apply (gand_le d); [lia|exact A]|exact O'|exact X]|]. split; cbn [expr_holds test_count] in *.
    + intros h. rewrite S. cbn [expr_holds]. now rewrite orb_assoc.
    + lia.
Qed.

(** ** Reading the pieces *)

Definition ends (r : list Z) : Prop := stops r = true \/ before_colon r.

(** Words that are one token, symbols, and the optional minus. *)
Lemma reads_token layer w k v r : plain_word w = true -> classify layer w = WTokens [(k, v)] -> may_follow w r ->
  reads layer w r (fun l => exists t, l = [t] /\ kind t = k /\ val t = v).
Proof.
  intros P C F. apply (reads_impl _ _ _ (are_tokens [(k, v)])).
  - intros [|t [|t' l]] H; try discriminate H. injection H as H1 H2. exists t. auto.
  - apply reads_word; auto. destruct w as [|c w]; [discriminate P|]. rewrite !zlen_cons, zlen_nil. pose proof (zlen_nonneg w). lia.
Qed.

Lemma reads_sign layer (neg : bool) s r Q : reads layer s r Q ->
  reads layer ((if neg then [45] else []) ++ s) r (then_ (gopt TOKEN_MINUS neg) Q).
Proof.
  intros H. destruct neg.
  - apply reads_seq; [|exact H]. apply (reads_impl _ _ _ (has_kind TOKEN_MINUS)); [intros l (t & -> & K); now constructor|].
    apply reads_push; [discriminate|]. intros i. eexists _, _. reflexivity.
  - cbn [app]. revert H. apply reads_impl. intros l q. exists [], l. repeat split; [constructor|exact q].
Qed.

Ltac symbol := apply reads_push; [discriminate|]; intros i; eexists _, _; reflexivity.

Lemma index_spec size idx : index_prints size idx = true -> 0 < size ->
  let n := Z.abs (i32 idx) in is_u32 n /\ n <= WINDIVERT_MTU_MAX /\ index_ok (i32 idx <? 0) size n = true /\
  u32 (if i32 idx <? 0 then - n else n) = idx.
Proof.
  unfold index_prints. rewrite andb_true_iff. intros [U I] P. cbv zeta. unfold is_u32, WINDIVERT_MTU_MAX.
  assert (B : Z.abs (i32 idx) <= 65535) by (unfold index_ok, UINT16_MAX in I; destruct (i32 idx <? 0); lia).
  split; [lia|]. split; [lia|]. split; [exact I|]. apply Z.eqb_eq in U.
  etransitivity; [|exact U]. f_equal. destruct (Z.ltb_spec (i32 idx) 0); lia.
Qed.

Lemma array_size_pos k size : array_size k = Some size -> 0 < size.
Proof. destruct k; intros [= <-]; lia. Qed.

(** The index behind the name of an array. *)
Lemma reads_index_text layer t size idx r : array_size (kind t) = Some size -> index_prints size idx = true ->
  reads layer (index_text idx) r (fun l => gvar (t :: l) (mkVar (kind t) idx)).
Proof.
  intros A I. destruct (index_spec size idx I (array_size_pos _ _ A)) as (U & M & K & E). cbv zeta in *.
  set (n := Z.abs (i32 idx)) in *. set (neg := i32 idx <? 0) in *. destruct (dec32_text_spec n U) as (D & N & V & L). unfold index_text. fold n neg.
  apply (reads_impl _ _ _ (then_ (has_kind TOKEN_SQUARE_OPEN) (then_ (gopt TOKEN_MINUS neg)
    (then_ (are_tokens [(TOKEN_NUMBER, W128 n 0 0 0); (TOKEN_BYTES, zero128)]) (has_kind TOKEN_SQUARE_CLOSE))))).
  - intros l (x & y & -> & (o & -> & O) & m & z & -> & G & nb & c & -> & B & (t' & -> & C)).
    destruct nb as [|num [|b [|? ?]]]; try discriminate B. injection B as B1 B2 B3 B4. cbn [app].
    replace idx with (u32 (if neg then - index_of true size (w0 (val num)) else index_of true size (w0 (val num))))
      by (rewrite B2; exact E).
    apply (gvar_array t o m neg num [b] true t'); rewrite ?B2; auto. now constructor.
  - apply (reads_seq _ [91]); [symbol|]. apply reads_sign. apply reads_seq; [|symbol].
    apply reads_word; [| |rewrite zlen_app; change (zlen [98]) with 1|left; reflexivity].
    + apply simple_word; [rewrite forallb_app, digits_simple by exact D; reflexivity|intros X; now apply app_eq_nil in X|].
      rewrite zlen_app. change (zlen [98]) with 1. unfold TOKEN_MAXLEN. lia.
    + apply (classify_bytes layer (dec32_text n) (W128 n 0 0 0) D N); [unfold is_u32 in *; repeat split; cbn; lia|].
      rewrite V. unfold val128. cbn [w0 w1 w2 w3]. lia.
    + destruct (dec32_text n) as [|c x]; [congruence|]. pose proof (zlen_nonneg x). rewrite !zlen_cons, zlen_nil. lia.
Qed.

Lemma reads_variable layer v r : var_prints layer v = true -> array_size (v_kind v) <> None \/ ends r ->
  reads layer (var_text v) r (fun l => gvar l v).
Proof.
  unfold var_prints. rewrite andb_true_iff. intros [F I] N. destruct (classify_field layer _ F) as (C & P & Q).
  destruct v as [k idx]. cbn [v_kind v_idx] in *. unfold var_text. cbn [v_kind v_idx]. destruct (array_size k) as [size|] eqn:A.
  - intros i. destruct (reads_token layer _ k zero128 (index_text idx ++ r) P C (or_introl eq_refl) i)
      as (l & i1 & C1 & Z1 & (t & -> & K & V)). subst k.
    destruct (reads_index_text layer t size idx r A I i1) as (l' & i2 & C2 & Z2 & G). exists ([t] ++ l'), i2.
    rewrite <- app_assoc, !zlen_app. split; [now apply (chain_app _ _ _ _ i1 (index_text idx ++ r))|]. split; [lia|exact G].
  - destruct N as [N|N]; [congruence|]. rewrite app_nil_r. apply Z.eqb_eq in I. subst idx.
    apply (reads_impl _ _ _ (fun l => exists t, l = [t] /\ kind t = k /\ val t = zero128)).
    + intros l (t & -> & <- & _). apply gvar_plain. unfold field_ok in F.
      destruct (kind t); try discriminate F; try discriminate A; reflexivity.
    + apply reads_token; [exact P|exact C|]. destruct N as [N|N]; [now left|now right].
Qed.

(** ** Tests *)

Definition operator_word (k : KIND) : list Z :=
  match k with
  | TOKEN_EQ => [61] | TOKEN_NEQ => [33; 61] | TOKEN_LT => [60] | TOKEN_LEQ => [60; 61] | TOKEN_GT => [62] | TOKEN_GEQ => [62; 61]
  | _ => []
  end.

Lemma reads_operator layer k r : is_comparison k = true ->
  chars (operator_text k) = 32 :: operator_word k ++ [32] /\ reads layer (operator_word k) (32 :: r) (has_kind k).
Proof. destruct k; intros C; try discriminate C; (split; [reflexivity|symbol]). Qed.

(** A test is read back. *)
Lemma reads_cond layer t r : test_prints layer t = true ->
  stops r = true \/ (colon_safe layer (DTest t) true true = true /\ before_colon r) ->
  reads layer (cond_text layer t) r (fun l => gtest l (reread t)).
Proof.
  unfold test_prints. rewrite !andb_true_iff. intros (((C & V) & N) & _) F. cbn [colon_safe] in F. unfold cond_text, reread.
  destruct (flag_test t) as [negated|] eqn:Fl.
  - assert (Rv : reads layer (var_text (t_var t)) r (fun l => gvar l (t_var t))).
    { apply reads_variable; [exact V|]. right. destruct F as [F|[_ F]]; [now left|now right]. }
    destruct negated.
    + change (chars "not " ++ var_text (t_var t)) with ((chars "not" ++ [32]) ++ var_text (t_var t)). rewrite <- app_assoc.
      eapply reads_impl; [|apply (reads_seq layer (chars "not")); [apply (reads_token layer _ TOKEN_NOT zero128); [reflexivity|reflexivity|now left]
        |apply reads_space; exact Rv]].
      intros l (a & b & -> & (x & -> & K & _) & G). apply (gtest_flag [x] true); [|exact G]. apply (gnots_cons x [] false); [exact K|constructor].
    + cbn [app]. revert Rv. apply reads_impl. intros l G. apply (gtest_flag [] false); [constructor|exact G].
  - rewrite (proj1 (reads_operator layer (t_kind t) r C)). cbn [app]. rewrite <- app_assoc. unfold value_prints in N. rewrite !andb_true_iff in N.
    destruct N as ((((Wv & _) & Pw) & _) & _).
    destruct (classify_value layer (classify_var (v_kind (t_var t))) (n_val (t_val t)) (arg_ok_wf128 _ Wv) Pw) as [Cv Pv].
    eapply reads_impl; [|apply reads_seq; [apply reads_variable; [exact V|right; left; reflexivity]|apply (reads_space _ (operator_word (t_kind t) ++ _));
      apply reads_seq; [apply (proj2 (reads_operator layer (t_kind t) _ C))|apply reads_space, reads_sign; apply (reads_token layer _ TOKEN_NUMBER (n_val (t_val t)) r Pv Cv)]]].
    2: { destruct F as [F|F]; [now left|now right]. }
    intros l (a & b & -> & Gv & o & y & -> & (c & -> & Kc) & m & z & -> & Gm & x & -> & Kx & Vx).
    destruct t as [tk var [ng vl]]. cbn [t_kind t_var t_val n_neg n_val] in *. unfold is_kind in Kc. subst tk vl.
    apply (gtest_cmp [] false a var c m ng x); auto. constructor.
Qed.

(** ** Expressions *)

(** A sentence of the operands of [and], or any. *)
Definition sentence (b : bool) (d : nat) (l : list TOKEN) (x : EXPR) : Prop := if b then gand d l x else gor d l x.

Definition reads_as (e : DEXPR) (b : bool) (d : nat) (l : list TOKEN) : Prop :=
  exists x, sentence b d l x /\ same x (reread_expr e).

Definition follows (layer : WINDIVERT_LAYER) (e : DEXPR) (top_level and : bool) (r : list Z) : Prop :=
  stops r = true \/ (colon_safe layer e top_level and = true /\ before_colon r).

Lemma same_trans x y z : same x y -> same y z -> same x z.
Proof. intros [A B] [C D]. split; [intros h; now rewrite A|congruence]. Qed.

Lemma same_and a a' b b' : same a a' -> same b b' -> same (EAnd a b) (EAnd a' b').
Proof. intros [A N] [B M]. split; cbn [expr_holds test_count]; [intros h; now rewrite A, B|congruence]. Qed.

Lemma same_or a a' b b' : same a a' -> same b b' -> same (EOr a b) (EOr a' b').
Proof. intros [A N] [B M]. split; cbn [expr_holds test_count]; [intros h; now rewrite A, B|congruence]. Qed.

Lemma same_question c c' t t' f f' : same c c' -> same t t' -> same f f' -> same (EQuestion c t f) (EQuestion c' t' f').
Proof. intros [A N] [B M] [C K]. split; cbn [expr_holds test_count]; [intros h; now rewrite A, B, C|congruence]. Qed.

Lemma garg_sentence b d d' l x : garg d l x -> (S d <= d')%nat -> sentence b d' l x.
Proof.
  intros G L. apply gand_one in G. destruct b; cbn [sentence]; [apply (gand_le d); [lia|exact G]|].
  apply (gor_le (S d)); [exact L|now apply gor_one].
Qed.

Lemma reads_parens layer s r (Q : list TOKEN -> Prop) : reads layer s (41 :: r) Q ->
  reads layer ([40] ++ s ++ [41]) r (fun l => exists o m c, l = o :: m ++ [c] /\ is_kind TOKEN_OPEN o /\ is_kind TOKEN_CLOSE c /\ Q m).
Proof.
  intros H. eapply reads_impl; [|apply reads_seq; [apply (reads_push layer [40] _ TOKEN_OPEN); [discriminate|]; intros i; eexists _, _; reflexivity
    |apply reads_seq; [exact H|apply (reads_push layer [41] r TOKEN_CLOSE); [discriminate|]; intros i; eexists _, _; reflexivity]]].
  intros l (a & b & -> & (o & -> & O) & m & z & -> & q & (c & -> & C)). exists o, m, c. auto.
Qed.

(** A sentence in parentheses is an operand. *)
Lemma reads_paren_sentence layer s r e b d : reads layer s (41 :: r) (reads_as e false d) ->
  reads layer (in_parens true s) r (reads_as e b (3 + d)).
Proof.
  intros H. eapply reads_impl; [|apply reads_parens; exact H]. intros l (o & m & c & -> & O & C & x & G & Sx). exists x. split; [|exact Sx].
  apply (garg_sentence b (S (S d))); [now apply garg_paren|lia].
Qed.

(** Words that are an expression of their own. *)
Lemma reads_truth layer k s r d b : plain_word s = true -> classify layer s = WTokens [(k, zero128)] -> is_var k = true -> colon_word s = true ->
  ends r -> (2 <= d)%nat -> reads layer s r (fun l => exists x, sentence b d l x /\ same x (truth k)).
Proof.
  intros P C V Q N D. eapply reads_impl; [|apply (reads_token layer s k zero128 r P C); destruct N as [N|N]; [now left|now right]].
  intros l (t & -> & K & _). exists (truth k). split; [|apply same_refl]. apply (garg_sentence b 1); [|exact D]. apply garg_test.
  rewrite <- K. apply (gtest_flag [] false); [constructor|]. apply gvar_plain. now rewrite K.
Qed.

Lemma word_sep layer w k r : plain_word w = true -> classify layer w = WTokens [(k, zero128)] ->
  reads layer (32 :: w) (32 :: r) (has_kind k).
Proof.
  intros P C. apply reads_space. eapply reads_impl; [|apply (reads_token layer w k zero128 _ P C); now left].
  intros l (t & -> & K & _). now exists t.
Qed.

(** Operands joined by [and] or [or]. *)
Lemma reads_and layer a b s t r d : reads layer s (chars " and " ++ t ++ r) (reads_as a true d) -> reads layer t r (reads_as b true d) ->
  reads layer (s ++ chars " and " ++ t) r (reads_as (DAnd a b) true d).
Proof.
  intros A B. change (chars " and ") with ((32 :: chars "and") ++ [32]) in *. rewrite <- !app_assoc in *.
  eapply reads_impl; [|apply reads_seq; [exact A|apply reads_seq; [apply word_sep; reflexivity|apply reads_space; exact B]]].
  intros l (x & y & -> & (u & U & Su) & z & v & -> & (o & -> & O) & w & Wd & Sw).
  destruct (gand_join d x u o v w U O Wd) as (q & Q & Sq). exists q. split; [exact Q|].
  apply (same_trans _ _ _ Sq). now apply same_and.
Qed.

Lemma reads_or layer a b s t r d d' : reads layer s (chars " or " ++ t ++ r) (reads_as a false d) -> reads layer t r (reads_as b false d') ->
  reads layer (s ++ chars " or " ++ t) r (reads_as (DOr a b) false (d + d')).
Proof.
  intros A B. change (chars " or ") with ((32 :: chars "or") ++ [32]) in *. rewrite <- !app_assoc in *.
  eapply reads_impl; [|apply reads_seq; [exact A|apply reads_seq; [apply word_sep; reflexivity|apply reads_space; exact B]]].
  intros l (x & y & -> & (u & U & Su) & z & v & -> & (o & -> & O) & w & Wd & Sw).
  destruct (gor_join d d' x u o v w U O Wd) as (q & Q & Sq). exists q. split; [exact Q|].
  apply (same_trans _ _ _ Sq). now apply same_or.
Qed.

(** An if-then-else is an operand. *)
Lemma reads_question layer c t f sc st sf r b d : reads layer sc (chars "? " ++ st ++ chars ": " ++ sf ++ [41] ++ r) (reads_as c false d) ->
  reads layer st (chars ": " ++ sf ++ [41] ++ r) (reads_as t false d) -> reads layer sf (41 :: r) (reads_as f false d) ->
  reads layer ([40] ++ sc ++ chars "? " ++ st ++ chars ": " ++ sf ++ [41]) r (reads_as (DQuestion c t f) b (3 + d)).
Proof.
  intros C T F. change (chars "? ") with ([63] ++ [32]) in *. change (chars ": ") with ([58] ++ [32]) in *. rewrite <- !app_assoc in *.
  replace ([40] ++ sc ++ [63] ++ [32] ++ st ++ [58] ++ [32] ++ sf ++ [41])
    with ([40] ++ (sc ++ [63] ++ (32 :: st) ++ [58] ++ (32 :: sf)) ++ [41]) by (cbn [app]; rewrite <- !app_assoc; cbn [app]; now rewrite <- !app_assoc).
  eapply reads_impl; [|apply reads_parens; apply reads_seq; [rewrite <- !app_assoc; cbn [app]; rewrite <- ?app_assoc; exact C|]; apply reads_seq;
    [apply (reads_push layer [63] _ TOKEN_QUESTION); [discriminate|]; intros i; eexists _, _; reflexivity|]; apply reads_seq;
    [apply reads_space; rewrite <- !app_assoc; exact T|]; apply reads_seq;
    [apply (reads_push layer [58] _ TOKEN_COLON); [discriminate|]; intros i; eexists _, _; reflexivity|apply reads_space; exact F]].
  intros l (o & m & cl & -> & O & Cl & x & y & -> & (u & U & Su) & q & z & -> & (qt & -> & Q) & v & w & -> & (a & A & Sa) & n & p & -> & (nt & -> & N) & (e & Ee & Se)).
  exists (EQuestion u a e). split; [|now apply same_question]. apply (garg_sentence b (S (S d))); [|lia]. cbn [sentence] in *.
  cbn [app]. rewrite <- !app_assoc. cbn [app]. rewrite <- app_assoc. now apply garg_if.
Qed.

Lemma reads_le layer s r e b d d' : (d <= d')%nat -> reads layer s r (reads_as e b d) -> reads layer s r (reads_as e b d').
Proof.
  intros L. apply reads_impl. intros l (x & G & Sx). exists x. split; [|exact Sx].
  destruct b; [now apply (gand_le d)|now apply (gor_le d)].
Qed.

Lemma reads_gor layer s r e d : reads layer s r (reads_as e true d) -> reads layer s r (reads_as e false (S d)).
Proof. apply reads_impl. intros l (x & G & Sx). exists x. split; [now apply gor_one|exact Sx]. Qed.

Lemma follows_ends layer e top_level and r : follows layer e top_level and r -> ends r.
Proof. intros [F|[_ F]]; [now left|now right]. Qed.

(** The text of a printable expression is a sentence with its meaning. *)
Lemma reads_expr layer : forall e top_level and r, printable layer e = true -> follows layer e top_level and r ->
  reads layer (expr_text layer e top_level and) r (reads_as e (negb top_level && and) (cost e)).
Proof.
  induction e as [t|a IHa b IHb|a IHa b IHb|c IHc t IHt f IHf| |]; intros top_level and r P F; cbn [printable expr_text cost] in *.
  - eapply reads_impl; [|apply reads_cond; [exact P|exact F]]. intros l G. exists (ETest (reread t)). split; [|apply same_refl].
    apply (garg_sentence _ 1); [now apply garg_test|lia].
  - apply andb_true_iff in P. destruct P as [Pa Pb]. set (d := (cost a + cost b)%nat).
    assert (R : forall r', follows layer b false true r' -> reads layer (expr_text layer a false true ++ chars " and " ++ expr_text layer b false true) r'
      (reads_as (DAnd a b) true d)).
    { intros r' F'. apply reads_and; [apply (reads_le _ _ _ _ _ (cost a)); [lia|apply IHa; [exact Pa|now left]]|
        apply (reads_le _ _ _ _ _ (cost b)); [lia|now apply IHb]]. }
    unfold follows in F. cbn [colon_safe] in F. destruct (negb top_level && negb and) eqn:Pn.
    + apply (reads_le _ _ _ _ _ (3 + S d)); [lia|]. apply reads_paren_sentence, reads_gor, R. now left.
    + specialize (R r F). destruct top_level, and; try discriminate Pn; cbn [in_parens negb andb];
        [apply (reads_le _ _ _ _ _ (S d)); [lia|now apply reads_gor]..|]. apply (reads_le _ _ _ _ _ d); [lia|exact R].
  - apply andb_true_iff in P. destruct P as [Pa Pb]. set (d := (cost a + cost b)%nat).
    assert (R : forall r', follows layer b false false r' -> reads layer (expr_text layer a false false ++ chars " or " ++ expr_text layer b false false) r'
      (reads_as (DOr a b) false d)).
    { intros r' F'. apply reads_or; [apply IHa; [exact Pa|now left]|now apply IHb]. }
    unfold follows in F. cbn [colon_safe] in F. destruct (negb top_level && and).
    + apply (reads_le _ _ _ _ _ (3 + d)); [lia|]. apply reads_paren_sentence, R. now left.
    + apply (reads_le _ _ _ _ _ d); [lia|]. now apply R.
  - rewrite !andb_true_iff in P. destruct P as (((Pc & Pt) & Pf) & Pq). set (d := (cost c + cost t + cost f)%nat).
    apply (reads_le _ _ _ _ _ (3 + d)); [lia|]. apply reads_question.
    + apply (reads_le _ _ _ _ _ (cost c)); [lia|]. apply (IHc true false); [exact Pc|now left].
    + apply (reads_le _ _ _ _ _ (cost t)); [lia|]. apply (IHt true false); [exact Pt|right; split; [exact Pq|]]. now eexists.
    + apply (reads_le _ _ _ _ _ (cost f)); [lia|]. apply (IHf true false); [exact Pf|now left].
  - apply reads_truth; try reflexivity. now apply (follows_ends layer DTrue top_level and).
  - apply reads_truth; try reflexivity. now apply (follows_ends layer DFalse top_level and).
Qed.

(** ** The sizes fit *)

Lemma name_length layer k : field_ok layer k = true -> 2 <= zlen (chars (var_name k)).
Proof. unfold field_ok. destruct k; intros F; try discriminate F; vm_compute; discriminate. Qed.

Lemma parens_length p s : zlen s <= zlen (in_parens p s).
Proof. destruct p; [|apply Z.le_refl]. cbn [in_parens]. rewrite !zlen_app. pose proof (zlen_nonneg s). change (zlen [40]) with 1. change (zlen [41]) with 1. lia. Qed.

Lemma cost_text layer : forall e top_level and, printable layer e = true -> Z.of_nat (cost e) <= zlen (expr_text layer e top_level and).
Proof.
  induction e as [t|a IHa b IHb|a IHa b IHb|c IHc t IHt f IHf| |]; intros top_level and P; cbn [printable expr_text cost] in *; rewrite ?andb_true_iff in P.
  - unfold test_prints, var_prints in P. rewrite !andb_true_iff in P. destruct P as (((_ & (F & _)) & _) & _). pose proof (name_length _ _ F) as N.
    unfold cond_text, var_text. destruct (flag_test t); rewrite !zlen_app;
      repeat match goal with |- context [zlen ?x] => lazymatch goal with _ : 0 <= zlen x |- _ => fail | _ => pose proof (zlen_nonneg x) end end; lia.
  - destruct P as [Pa Pb]. etransitivity; [|apply parens_length]. rewrite !zlen_app. change (zlen (chars " and ")) with 5.
    specialize (IHa false true Pa). specialize (IHb false true Pb). lia.
  - destruct P as [Pa Pb]. etransitivity; [|apply parens_length]. rewrite !zlen_app. change (zlen (chars " or ")) with 4.
    specialize (IHa false false Pa). specialize (IHb false false Pb). lia.
  - destruct P as (((Pc & Pt) & Pf) & _). rewrite !zlen_app. change (zlen [40]) with 1. change (zlen [41]) with 1.
    change (zlen (chars "? ")) with 2. change (zlen (chars ": ")) with 2. specialize (IHc true false Pc). specialize (IHt true false Pt).
    specialize (IHf true false Pf). lia.
  - discriminate.
  - discriminate.
Qed.

Lemma count_cost e : 4 * test_count (reread_expr e) <= Z.of_nat (cost e) + 2.
Proof.
  induction e; cbn [reread_expr test_count cost truth]; try lia; destruct (constant_test _); lia.
Qed.

Lemma printable_writable layer e : printable layer e = true -> writable e.
Proof.
  induction e; cbn [printable writable]; rewrite ?andb_true_iff; try tauto.
  unfold test_prints, var_prints, value_prints. rewrite !andb_true_iff. intros (((_ & (_ & I)) & ((((W & _) & _) & _) & _)) & _).
  split; [|now apply arg_ok_wf128]. destruct (array_size (v_kind (t_var t))) as [size|].
  - unfold index_prints, index_ok, UINT16_MAX in I. destruct (Z.ltb_spec (i32 (v_idx (t_var t))) 0); lia.
  - apply Z.eqb_eq in I. rewrite I. discriminate.
Qed.

(** ** The meaning is the same *)

Section Meaning.
Variables (a : exec_args).
Hypotheses (Ha : args_ok a) (R : args_range a).

Lemma prints_ok t : test_prints (a_layer a) t = true -> exists f, WinDivertKindToField (v_kind (t_var t)) = Some f /\
  test_ok (a_layer a) t /\ comparable f (t_val t) /\ (n_neg (t_val t) = true -> 0 < val128 (n_val (t_val t))).
Proof using.
  unfold test_prints, var_prints, value_prints. rewrite !andb_true_iff. intros (((C & (F & I)) & ((((W & N) & _) & _) & K)) & _).
  destruct (WinDivertKindToField (v_kind (t_var t))) as [f|] eqn:E; [|discriminate K]. exists f. split; [reflexivity|].
  apply arg_ok_wf128 in W. pose proof (val128_bound _ W). split; [|split; [|intros Q; rewrite Q in N; lia]].
  - split; [exact C|]. split; [exact F|]. split; [|exact W].
    destruct (array_size _) as [size|] eqn:Z; [|apply Z.eqb_eq in I; rewrite I; vm_compute; repeat split; discriminate].
    unfold index_prints in I. apply andb_true_iff in I. destruct I as [I Q]. apply Z.eqb_eq in I.
    split; [rewrite <- I; apply u32_is_u32|].
    assert (0 < size) by (destruct (v_kind (t_var t)); try discriminate Z; injection Z as <-; lia).
    unfold index_ok, UINT16_MAX in *. destruct (Z.ltb_spec (i32 (v_idx (t_var t))) 0); lia.
  - unfold comparable. destruct (field_range f) as [[bg lo] hi]. cbn [fst] in K. left. destruct bg; [reflexivity|]. now apply fits_word_magnitude.
Qed.

(** A flag is 0 or 1. *)
Lemma flag_value k f idx x : WinDivertKindToField k = Some f -> field_ok (a_layer a) k = true -> classify_var k = VFlag ->
  field_value a f idx = Some x -> x = 0 \/ x = 1.
Proof using R.
  intros K F C. unfold field_ok in F. rewrite K in F. unfold field_value. destruct (header_present a f); [|discriminate].
  pose proof (fetch_range a R f idx F) as V. destruct (fetch_field a f idx) as [n bg v| | |]; try discriminate. intros [= <-].
  unfold value_ok in V. assert (B : exists hi, field_range f = (false, 0, hi) /\ hi <= 1).
  { destruct k; try discriminate C; injection K as <-; eexists; split; reflexivity || lia. }
  destruct B as (hi & E & L). rewrite E in V. destruct V as (-> & _ & _ & B). lia.
Qed.

Lemma reread_means t : test_prints (a_layer a) t = true -> test_means a (reread t) = test_means a t.
Proof using R.
  intros P. destruct (prints_ok t P) as (f & K & (C & F & _ & W) & _). unfold reread. destruct (flag_test t) as [b|] eqn:Fl; [|reflexivity].
  unfold test_prints, value_prints in P. rewrite Fl, !andb_true_iff in P. destruct P as ((_ & ((_ & N) & _)) & _). apply negb_true_iff in N.
  unfold test_means. cbn [t_kind t_var t_val]. rewrite (var_value_field a _ f K).
  destruct (field_value a f (v_idx (t_var t))) as [x|] eqn:E; [|now destruct b, (test_of_kind (t_kind t))].
  unfold flag_test in Fl. destruct (classify_var (v_kind (t_var t))) eqn:Cl; try discriminate Fl.
  pose proof (flag_value _ f _ x K F Cl E) as X. unfold num_value. rewrite N. cbn [WinDivertMakeZero n_neg n_val signed].
  destruct (negb (w1 _ =? 0) || _ || _ || _) eqn:Sm; [discriminate Fl|].
  assert (V : val128 (n_val (t_val t)) = w0 (n_val (t_val t)) /\ 0 <= w0 (n_val (t_val t)) <= 1)
    by (destruct W as (W0 & _); unfold is_u32, val128 in *; lia).
  destruct V as [-> B]. change (val128 zero128) with 0. destruct (t_kind t); try discriminate Fl; injection Fl as <-;
    (destruct (Z.eqb_spec (w0 (n_val (t_val t))) 0) as [Q|Q]); cbn [negb test_of_kind test_z]; lia.
Qed.

Lemma reread_test t : test_prints (a_layer a) t = true -> simplified_holds a (reread t) = emitted_holds a t.
Proof using Ha R.
  intros P. destruct (prints_ok t P) as (f & K & T & Q & N). rewrite (emitted_means a t f Ha R T K Q N), <- (reread_means t P).
  apply (simplify_sound a Ha R); [|unfold test_prints in P; rewrite !andb_true_iff in P; apply P].
  destruct T as (C & F & I & W). unfold reread, source_ok. assert (V : source_var (a_layer a) (v_kind (t_var t)) = true)
    by (unfold source_var; now rewrite F).
  destruct (flag_test t) as [b|]; [|auto]. cbn [t_kind t_var t_val]. split; [now destruct b|]. split; [exact V|]. split; [exact I|apply wf_zero128].
Qed.

Lemma reread_holds e : printable (a_layer a) e = true -> expr_holds (simplified_holds a) (reread_expr e) = dexpr_holds (emitted_holds a) e.
Proof using Ha R.
  induction e; cbn [printable reread_expr expr_holds dexpr_holds]; rewrite ?andb_true_iff; intros P; try reflexivity.
  - now apply reread_test.
  - rewrite IHe1, IHe2 by tauto. reflexivity.
  - rewrite IHe1, IHe2 by tauto. reflexivity.
  - rewrite IHe1, IHe2, IHe3 by tauto. reflexivity.
Qed.
End Meaning.

(** ** Theorems *)

(** The text of a printable expression is compiled to an object that decides
    as the expression. *)
Lemma text_compiles layer e : printable layer e = true -> zlen (expr_text layer e true false) <= 1024 ->
  exists obj, WinDivertCompileFilter (expr_text layer e true false) layer = COk obj /\ wf_filter layer obj = true /\
  forall a, a_layer a = layer -> args_ok a -> args_range a ->
  WinDivertExecuteFilter obj a = VRet (b2z (dexpr_holds (emitted_holds a) e)).
Proof.
  intros P L. set (text := expr_text layer e true false) in *. destruct (reads_expr layer e true false [] P (or_introl eq_refl) 0)
    as (l & i & C & Zl & x & G & Sx & N). fold text in C, Zl. rewrite app_nil_r in C. cbn [negb andb sentence] in G.
  assert (T : tokens_of text layer = LTokens (l ++ [end_token i []])).
  { apply chain_tokens; [exact C|lia|]. change (5 * WINDIVERT_FILTER_MAXLEN - 1 - 1) with 1278. lia. }
  assert (I : is_text text).
  { unfold is_text. intros E. destruct text as [|c t]; [discriminate E|]. unfold char0 in E. cbn [hd] in E. subst c.
    inversion C as [? ? ? ? ? H|? ? ? ? ? ? ? ? H _]; discriminate H. }
  pose proof (cost_text layer e true false P) as Cs. fold text in Cs. pose proof (count_cost e) as Cn.
  destruct (compile_sentence text layer l _ x I T) as [O E]; [apply (gor_le (cost e)); [lia|exact G]|].
  pose proof (compile_expr_ok layer x O) as H. rewrite E. change WINDIVERT_FILTER_MAXLEN with 256 in H. destruct (compile_expr x) as [|err|obj]; [contradiction|lia|].
  destruct H as (_ & [W _] & X). exists obj. split; [reflexivity|]. split; [exact W|]. intros a La Ha R. rewrite (X a La Ha), Sx.
  subst layer. now rewrite (reread_holds a Ha R e P).
Qed.

(** C18. Formatting and compiling again: when a compiled filter, without a
    negative constant for an array and with reference counts that fit, is
    decompiled to a [printable] expression (no negative constant for a flag, no
    value whose text runs into the colon of an if-then-else) whose text has at
    most 1024 characters and fits the buffer, [WinDivertHelperFormatFilter]
    returns precisely that text, the compiler accepts the text, and the new
    object decides every packet and event as the old one. *)
Theorem format_recompiles filter layer obj p e buflen : WinDivertCompileFilter filter layer = COk obj ->
  wf_filter layer obj = true -> counts_fit obj = true -> forallb sign_kept obj = true ->
  decompile (snd (compile_pool filter layer object_heap)) obj = Some (p, Some e) -> printable layer e = true ->
  zlen (expr_text layer e true false) <= 1024 -> zlen (expr_text layer e true false) < buflen ->
  exists text obj', WinDivertHelperFormatFilter filter layer buflen = FmtTrue (text ++ [NUL]) /\
  WinDivertCompileFilter text layer = COk obj' /\ wf_filter layer obj' = true /\
  forall a, a_layer a = layer -> args_ok a -> args_range a -> WinDivertExecuteFilter obj' a = WinDivertExecuteFilter obj a.
Proof.
  intros C W F K D P L B. destruct (text_compiles layer e P L) as (obj' & C' & W' & X). exists (expr_text layer e true false), obj'.
  split; [|split; [exact C'|split; [exact W'|]]].
  - unfold WinDivertHelperFormatFilter. rewrite C. unfold format_object. rewrite D.
    rewrite put_expr by (now apply (printable_writable layer) || exact B). now rewrite put_terminated.
  - intros a La Ha R. rewrite (X a La Ha R). destruct (compile_pool_suffices filter layer) as (q & Q & M & _ & Rm). rewrite Q in D. cbn [snd] in D.
    destruct (decompile_faithful layer obj W F q) as (p' & o & E & _ & H).
    + rewrite M. discriminate.
    + pose proof (obj_len layer obj W). change WINDIVERT_FILTER_MAXLEN with 256 in *. lia.
    + rewrite D in E. injection E as <- <-. symmetry. now apply (H e eq_refl a).
Qed.

(** A filter with an if-then-else, addresses and an array. *)
Module ExReprint.
Definition filter : list Z := Eval vm_compute in
  chars "(inbound? tcp.DstPort == 443 and ip.SrcAddr != 10.0.0.1: ipv6.DstAddr == fe80::1 or udp.Payload16[-2] > 0x20)".
Definition obj : list WINDIVERT_FILTER := Eval vm_compute in
  match WinDivertCompileFilter filter LAYER_NETWORK with COk obj => obj | _ => [] end.
Definition pool : pool := snd (compile_pool filter LAYER_NETWORK object_heap).
Definition expr : DEXPR := Eval vm_compute in
  match decompile pool obj with Some (_, Some e) => e | _ => DFalse end.
Definition rest : WdHeap.pool := Eval vm_compute in match decompile pool obj with Some (p, _) => p | None => pool end.
End ExReprint.

Lemma format_recompiles_witness : exists text obj',
  WinDivertHelperFormatFilter ExReprint.filter LAYER_NETWORK 256 = FmtTrue (text ++ [NUL]) /\
  WinDivertCompileFilter text LAYER_NETWORK = COk obj' /\ wf_filter LAYER_NETWORK obj' = true /\
  forall a, a_layer a = LAYER_NETWORK -> args_ok a -> args_range a ->
  WinDivertExecuteFilter obj' a = WinDivertExecuteFilter ExReprint.obj a.
Proof.
  apply (format_recompiles ExReprint.filter LAYER_NETWORK ExReprint.obj ExReprint.rest ExReprint.expr 256);
    vm_compute; reflexivity || discriminate.
Defined.
