(* ===== verification/PfRange.v ===== *)
(** * Intervals with excluded points

    [struct pf_range] of [src/prefilter.c]: an interval of an unsigned field
    minus at most [PF_MAX_EXCL] points, and its operations.  A function that
    returns 0 for "the constraint is empty" returns [None] here: its callers
    drop the modified struct in that case. *)

From Stdlib Require Import ZArith List Bool Lia ZifyBool.
From S2P Require Import Prelude WdTypes WdExec.
Import ListNotations.

Definition PF_MAX_EXCL : Z := 4.

Record pf_range : Set := mkRange {
  r_lo : Z;
  r_hi : Z;
  r_excl : list Z        (* [excl[0 .. nexcl-1]] *)
}.

Definition range_full (max : Z) : pf_range := mkRange 0 max [].

Definition is_nil {A} (l : list A) : bool := match l with [] => true | _ => false end.

Definition range_is_full (r : pf_range) (max : Z) : bool :=
  (r_lo r =? 0) && (r_hi r =? max) && is_nil (r_excl r).

Definition range_contains (r : pf_range) (v : Z) : bool :=
  if (v <? r_lo r) || (v >? r_hi r) then false
  else negb (existsb (fun x => x =? v) (r_excl r)).

(** One [for] pass of [range_normalize] over the points [l]; [kept] are the
    points it passed over, in reverse.  [None] is the early return. *)
Fixpoint normalize_pass (lo hi : Z) (kept l : list Z) (changed : bool)
    : option (pf_range * bool) :=
  match l with
  | [] => Some (mkRange lo hi (rev kept), changed)
  | x :: l =>
    if (x <? lo) || (x >? hi) then normalize_pass lo hi kept l changed
    else if lo =? hi then None
    else if x =? lo then normalize_pass (u32 (lo + 1)) hi kept l true
    else if x =? hi then normalize_pass lo (u32 (hi - 1)) kept l true
    else normalize_pass lo hi (x :: kept) l changed
  end.

(** [while (changed)]; a pass that sets [changed] drops a point, so
    [nexcl + 1] passes are enough. *)
Fixpoint normalize_loop (fuel : nat) (r : pf_range) : pf_range :=
  match fuel with
  | O => r
  | S fuel =>
    match normalize_pass (r_lo r) (r_hi r) [] (r_excl r) false with
    | None => mkRange 1 0 []
    | Some (r, changed) => if changed then normalize_loop fuel r else r
    end
  end.

Definition range_normalize (r : pf_range) : pf_range :=
  normalize_loop (S (length (r_excl r))) r.

(** The common tail of [range_apply]: intersect with [lo..hi]. *)
Definition range_clip (r : pf_range) (lo hi : Z) (exact : bool) : option (pf_range * bool) :=
  let r := mkRange (if lo >? r_lo r then lo else r_lo r)
                   (if hi <? r_hi r then hi else r_hi r) (r_excl r) in
  if r_lo r >? r_hi r then None
  else
    let r := range_normalize r in
    if r_lo r <=? r_hi r then Some (r, exact) else None.

Definition range_apply (r : pf_range) (t : TEST) (arg max : Z) (exact : bool)
    : option (pf_range * bool) :=
  if arg >? max then
    match t with
    | TEST_EQ | TEST_GT | TEST_GEQ => None
    | _ => Some (r, exact)
    end
  else
    match t with
    | TEST_EQ => range_clip r arg arg exact
    | TEST_NEQ =>
      if negb (range_contains r arg) then Some (r, exact)
      else if zlen (r_excl r) =? PF_MAX_EXCL then Some (r, false)
      else
        let r := range_normalize (mkRange (r_lo r) (r_hi r) (r_excl r ++ [arg])) in
        if r_lo r <=? r_hi r then Some (r, exact) else None
    | TEST_LT => if arg =? 0 then None else range_clip r 0 (arg - 1) exact
    | TEST_LEQ => range_clip r 0 arg exact
    | TEST_GT => if arg =? max then None else range_clip r (arg + 1) max exact
    | TEST_GEQ => range_clip r arg max exact
    end.

Definition negate_test (t : TEST) : TEST :=
  match t with
  | TEST_EQ => TEST_NEQ
  | TEST_NEQ => TEST_EQ
  | TEST_LT => TEST_GEQ
  | TEST_LEQ => TEST_GT
  | TEST_GT => TEST_LEQ
  | TEST_GEQ => TEST_LT
  end.

#[global] Arguments range_contains : simpl never.
#[global] Arguments range_normalize : simpl never.
#[global] Arguments range_apply : simpl never.
#[global] Arguments range_is_full : simpl never.
#[global] Arguments zlen : simpl never.

(** ** Specification *)

(** Well formed: a non-empty interval inside [0..max], [max] a 32-bit value,
    and excluded points strictly inside the interval. *)
Definition range_wf (max : Z) (r : pf_range) : Prop :=
  0 <= max < 2 ^ 32 /\ 0 <= r_lo r <= r_hi r /\ r_hi r <= max /\
  zlen (r_excl r) <= PF_MAX_EXCL /\
  forall x, In x (r_excl r) -> r_lo r < x < r_hi r.

(** ** Properties *)

Lemma existsb_eqb l v : existsb (fun x => x =? v) l = true <-> In v l.
Proof.
  rewrite existsb_exists. split.
  - intros (x & Hx & E). b2p. now subst.
  - intros H. exists v. now rewrite Z.eqb_refl.
Qed.

Lemma range_contains_spec r v :
  range_contains r v = true <-> r_lo r <= v <= r_hi r /\ ~ In v (r_excl r).
Proof.
  unfold range_contains. rewrite <- existsb_eqb.
  destruct (existsb _ _); case_if; b2p; cbn; intuition (try congruence; try lia).
Qed.

Lemma negate_test_z t v a : test_z (negate_test t) v a = negb (test_z t v a).
Proof. destruct t; cbn; lia. Qed.

Lemma negate_test_result t c : test_result (negate_test t) c = negb (test_result t c).
Proof. destruct t; cbn; lia. Qed.

(** *** Normalisation *)

(** The values a pass still describes. *)
Definition in_pass (lo hi : Z) (l : list Z) (v : Z) : Prop := lo <= v <= hi /\ ~ In v l.

Lemma u32_small z : 0 <= z < 2 ^ 32 -> u32 z = z.
Proof. apply Z.mod_small. Qed.

(** What a pass does to the interval [lo..hi] with points [kept] and [l]. *)
Record pass_ok (lo hi : Z) (kept l : list Z) (ch : bool) (r : pf_range) (ch' : bool) : Prop := {
  po_mem : forall v, in_pass (r_lo r) (r_hi r) (r_excl r) v <-> in_pass lo hi (kept ++ l) v;
  po_lo : lo <= r_lo r;
  po_hi : r_hi r <= hi;
  po_order : lo <= hi -> r_lo r <= r_hi r;
  po_len : (length (r_excl r) + (if ch' then if ch then 0 else 1 else 0)
            <= length kept + length l)%nat;
  po_same : ch' = false -> ch = false /\ r_lo r = lo /\ r_hi r = hi /\
            forall x, In x (r_excl r) -> In x kept \/ lo < x < hi
}.

Ltac in_lists := repeat (rewrite in_app_iff in * || cbn [In] in * ).

Lemma normalize_pass_spec : forall l lo hi kept ch,
  0 <= lo -> hi < 2 ^ 32 ->
  match normalize_pass lo hi kept l ch with
  | None => forall v, ~ in_pass lo hi (kept ++ l) v
  | Some (r, ch') => pass_ok lo hi kept l ch r ch'
  end.
Proof.
  induction l as [|x l IH]; intros lo hi kept ch Hlo Hhi; cbn [normalize_pass].
  - split; cbn; rewrite ?length_rev; try lia.
    + intros v. unfold in_pass. now rewrite app_nil_r, <- in_rev.
    + destruct ch; lia.
    + intros ->. repeat split. intros x Hx. left. now apply in_rev.
  - case_if; [|case_if; [|case_if; [|case_if]]]; b2p.
    + specialize (IH lo hi kept ch Hlo Hhi). destruct (normalize_pass _ _ _ _ _) as [[r ch']|].
      * destruct IH as [M L U O N S]. split; auto; [|cbn; lia].
        intros v. rewrite M. unfold in_pass. in_lists. intuition (subst; lia).
      * intros v [Hv Hn]. apply (IH v). split; [exact Hv|]. in_lists. tauto.
    + subst hi. intros v [Hv Hn]. assert (v = x) by lia. subst. apply Hn. in_lists. auto.
    + subst x. rewrite u32_small by lia. specialize (IH (lo + 1) hi kept true ltac:(lia) Hhi).
      destruct (normalize_pass _ _ _ _ _) as [[r ch']|].
      * destruct IH as [M L U O N S]. split; try lia; try (cbn; destruct ch', ch; lia).
        intros v. rewrite M. unfold in_pass. in_lists. intuition lia.
      * intros v [Hv Hn]. in_lists. apply (IH v). split; [|in_lists; tauto].
        assert (lo <> v) by tauto. lia.
    + subst x. rewrite u32_small by lia. specialize (IH lo (hi - 1) kept true Hlo ltac:(lia)).
      destruct (normalize_pass _ _ _ _ _) as [[r ch']|].
      * destruct IH as [M L U O N S]. split; try lia; try (cbn; destruct ch', ch; lia).
        intros v. rewrite M. unfold in_pass. in_lists. intuition lia.
      * intros v [Hv Hn]. in_lists. apply (IH v). split; [|in_lists; tauto].
        assert (hi <> v) by tauto. lia.
    + specialize (IH lo hi (x :: kept) ch Hlo Hhi).
      destruct (normalize_pass _ _ _ _ _) as [[r ch']|].
      * destruct IH as [M L U O N S]. split; auto; [|cbn in *; lia|].
        -- intros v. rewrite M. unfold in_pass. in_lists. tauto.
        -- intros E. destruct (S E) as (E1 & E2 & E3 & E4). repeat split; auto.
           intros y Hy. destruct (E4 y Hy) as [[->|?]|?]; auto. right. lia.
      * intros v [Hv Hn]. apply (IH v). split; [exact Hv|]. in_lists. tauto.
Qed.

(** What [range_normalize] promises: the same values, no excluded point
    outside the interval or on its edge, no more points than before. *)
Record norm_ok (r r' : pf_range) : Prop := {
  no_mem : forall v, range_contains r' v = range_contains r v;
  no_inner : forall x, In x (r_excl r') -> r_lo r' < x < r_hi r';
  no_bounds : (r_lo r <= r_lo r' /\ r_hi r' <= r_hi r) \/ (r_lo r' = 1 /\ r_hi r' = 0);
  no_order : r_lo r <= r_hi r -> (exists v, range_contains r v = true) -> r_lo r' <= r_hi r';
  no_len : (length (r_excl r') <= length (r_excl r))%nat
}.

Lemma contains_in_pass r v : range_contains r v = true <-> in_pass (r_lo r) (r_hi r) (r_excl r) v.
Proof. apply range_contains_spec. Qed.

Lemma contains_ext r r' :
  (forall v, range_contains r' v = true <-> range_contains r v = true) ->
  forall v, range_contains r' v = range_contains r v.
Proof. intros H v. apply eq_true_iff_eq, H. Qed.

Lemma normalize_loop_spec : forall fuel r, (length (r_excl r) < fuel)%nat ->
  0 <= r_lo r -> r_hi r < 2 ^ 32 -> norm_ok r (normalize_loop fuel r).
Proof.
  induction fuel as [|fuel IH]; intros r Hf Hlo Hhi; [lia|]. cbn [normalize_loop].
  pose proof (normalize_pass_spec (r_excl r) (r_lo r) (r_hi r) [] false Hlo Hhi) as P.
  destruct (normalize_pass _ _ _ _ _) as [[r' ch]|].
  - destruct P as [M L U O N S]. cbn in M, N.
    assert (M' : forall v, range_contains r' v = range_contains r v).
    { apply contains_ext. intros v. rewrite !contains_in_pass. apply M. }
    destruct ch.
    + destruct (IH r') as [M2 I2 B2 O2 N2]; try lia. split; try lia; auto.
      * intros v. now rewrite M2.
      * intros H (v & Hv). rewrite <- M' in Hv. eauto.
    + destruct (S eq_refl) as (_ & E1 & E2 & I). split; auto; try lia.
      intros x Hx. destruct (I x Hx) as [[]|]; lia.
  - cbn in P. assert (E : forall v, range_contains r v = false).
    { intros v. apply not_true_iff_false. rewrite contains_in_pass. apply P. }
    split; cbn; try lia; try contradiction.
    + intros v. rewrite E. unfold range_contains. cbn. case_if; [reflexivity|lia].
    + intros _ (v & Hv). congruence.
Qed.

Lemma range_normalize_ok r : 0 <= r_lo r -> r_hi r < 2 ^ 32 -> norm_ok r (range_normalize r).
Proof. intros. apply normalize_loop_spec; lia. Qed.

Lemma range_normalize_wf max r : 0 <= max < 2 ^ 32 -> 0 <= r_lo r -> r_hi r <= max ->
  zlen (r_excl r) <= PF_MAX_EXCL -> r_lo (range_normalize r) <= r_hi (range_normalize r) ->
  range_wf max (range_normalize r).
Proof.
  intros Hm Hlo Hhi Hn Ho. destruct (range_normalize_ok r) as [_ I B _ N]; try lia.
  unfold range_wf, zlen in *. repeat split; try lia; now apply I.
Qed.

(** *** Applying a test *)

(** What [range_apply] promises about the values [0..max]: nothing that
    passes the test is lost; when the result is exact, nothing that fails it
    is kept; "empty" means no value passes. *)
Definition apply_ok (max : Z) (r : pf_range) (P : Z -> bool) (exact : bool)
    (res : option (pf_range * bool)) : Prop :=
  match res with
  | None => forall v, 0 <= v <= max -> range_contains r v = true -> P v = false
  | Some (r', exact') =>
    range_wf max r' /\
    (forall v, 0 <= v <= max -> range_contains r v = true -> P v = true ->
               range_contains r' v = true) /\
    (exact' = true -> exact = true /\
       forall v, 0 <= v <= max -> range_contains r' v = true ->
                 range_contains r v = true /\ P v = true)
  end.

Lemma range_clip_ok max r lo hi P exact :
  range_wf max r -> 0 <= lo <= max -> 0 <= hi <= max ->
  (forall v, 0 <= v <= max -> P v = true <-> lo <= v <= hi) ->
  apply_ok max r P exact (range_clip r lo hi exact).
Proof.
  intros (Hm & Hlo & Hhi & Hn & _) Hl Hh HP. unfold range_clip.
  set (q := mkRange _ _ _). assert (Hq : 0 <= r_lo q /\ r_hi q <= max /\ zlen (r_excl q) <= PF_MAX_EXCL).
  { subst q; cbn. repeat case_if; b2p; lia. }
  assert (M : forall v, range_contains q v = true <-> range_contains r v = true /\ lo <= v <= hi).
  { intros v. rewrite !range_contains_spec. subst q; cbn. repeat case_if; b2p; intuition lia. }
  case_if; b2p; cbn.
  - intros v Hv Hr. apply not_true_iff_false. rewrite HP by exact Hv. intros Hc.
    assert (Hq' : range_contains q v = true) by (apply M; auto).
    apply range_contains_spec in Hq'. lia.
  - destruct (range_normalize_ok q) as [Mn _ _ O _]; [lia..|].
    case_if; b2p; cbn.
    + split; [apply range_normalize_wf; lia|]. split; [|intros E; split; [exact E|]];
        intros v Hv; rewrite Mn, M; rewrite HP by exact Hv; tauto.
    + intros v Hv Hr. apply not_true_iff_false. rewrite HP by exact Hv. intros Hc.
      assert (range_contains q v = true) by (apply M; auto). specialize (O ltac:(lia)). 
      assert (r_lo (range_normalize q) <= r_hi (range_normalize q)) by eauto. lia.
Qed.

Lemma range_contains_add r a v :
  range_contains (mkRange (r_lo r) (r_hi r) (r_excl r ++ [a])) v = true <->
  range_contains r v = true /\ v <> a.
Proof.
  rewrite !range_contains_spec. cbn. rewrite in_app_iff. cbn. intuition congruence.
Qed.

Lemma range_apply_neq_ok max r arg exact : range_wf max r -> 0 <= arg <= max ->
  apply_ok max r (fun v => test_z TEST_NEQ v arg) exact (range_apply r TEST_NEQ arg max exact).
Proof.
  intros Hr Ha. pose proof Hr as (Hm & Hlo & Hhi & Hn & _). unfold range_apply.
  case_if; b2p; [lia|]. case_if; b2p; cbn.
  - split; [exact Hr|]. split; [auto|]. intros E. split; [exact E|].
    intros v _ Hv. split; [exact Hv|]. b2p. congruence.
  - case_if; b2p; cbn.
    + split; [exact Hr|]. split; [auto|discriminate].
    + set (q := mkRange _ _ _). assert (Hq : 0 <= r_lo q /\ r_hi q <= max /\ zlen (r_excl q) <= PF_MAX_EXCL).
      { unfold zlen in *; subst q; cbn. rewrite length_app. cbn.
        unfold PF_MAX_EXCL in *. lia. }
      assert (M : forall v, range_contains q v = true <-> range_contains r v = true /\ v <> arg)
        by (intros; apply range_contains_add).
      destruct (range_normalize_ok q) as [Mn _ _ O _]; [lia..|].
      apply range_contains_spec in Heqb0.
      case_if; b2p; cbn.
      * split; [apply range_normalize_wf; lia|]. split; [|intros E; split; [exact E|]];
          intros v Hv; rewrite Mn, M, negb_true_iff, Z.eqb_neq; tauto.
      * intros v Hv Hc. rewrite negb_false_iff. destruct (v =? arg) eqn:E; [reflexivity|]. b2p.
        assert (range_contains q v = true) by (apply M; auto).
        assert (r_lo (range_normalize q) <= r_hi (range_normalize q)) by (apply O; [cbn; lia|eauto]).
        lia.
Qed.

(** The specification of [range_apply], for every test and argument. *)
Lemma range_apply_ok max r t arg exact : range_wf max r -> 0 <= arg ->
  apply_ok max r (fun v => test_z t v arg) exact (range_apply r t arg max exact).
Proof.
  intros Hr Ha. pose proof Hr as (Hm & _). destruct (arg >? max) eqn:Hbig; b2p.
  { unfold range_apply. destruct (arg >? max) eqn:E; [|b2p; lia].
    destruct t; cbn; try (split; [exact Hr|split; [auto|]]); intros;
      try (split; [assumption|intros; split; [assumption|]]); lia. }
  destruct t; [|apply range_apply_neq_ok; [exact Hr|lia]|..]; unfold range_apply;
    (case_if; b2p; [lia|]); try (case_if; b2p);
    try (apply range_clip_ok; [exact Hr|lia..|cbn; intros; lia]); cbn; intros; lia.
Qed.

(** ** Properties *)

(** Applying a test to a range is sound, and exact unless it says
    otherwise: a rejected range has no value that passes the test; otherwise
    the new range keeps every value that passes, and when the exactness flag
    survives it has no other value.  The new range is again well formed. *)
Theorem range_apply_correct max r t arg exact : range_wf max r -> 0 <= arg ->
  match range_apply r t arg max exact with
  | None => forall v, 0 <= v <= max -> range_contains r v = true -> test_z t v arg = false
  | Some (r', exact') =>
    range_wf max r' /\
    (forall v, 0 <= v <= max -> range_contains r v = true -> test_z t v arg = true ->
       range_contains r' v = true) /\
    (exact' = true -> exact = true /\ forall v, 0 <= v <= max -> range_contains r' v = true ->
       range_contains r v = true /\ test_z t v arg = true)
  end.
Proof. intros Hr Ha. exact (range_apply_ok max r t arg exact Hr Ha). Qed.

Lemma range_apply_correct_witness :
  match range_apply (mkRange 10 20 [15]) TEST_GT 12 65535 true with
  | None => False
  | Some (r', _) => range_contains r' 14 = true
  end.
Proof.
  pose proof (range_apply_correct 65535 (mkRange 10 20 [15]) TEST_GT 12 true) as H.
  destruct (range_apply _ _ _ _ _) as [[r' e']|] eqn:E.
  - apply H; try reflexivity; [|lia|lia]. unfold range_wf, zlen, PF_MAX_EXCL; cbn. intuition lia.
  - vm_compute in E. discriminate.
Defined.

(** [range_normalize] keeps the set of values, ends with the excluded
    points strictly inside the interval, and its loop reaches that fixpoint
    within one pass per excluded point. *)
Theorem range_normalize_correct r : 0 <= r_lo r -> r_hi r < 2 ^ 32 ->
  let r' := range_normalize r in
  (forall v, range_contains r' v = range_contains r v) /\
  (forall x, In x (r_excl r') -> r_lo r' < x < r_hi r') /\
  (length (r_excl r') <= length (r_excl r))%nat.
Proof. intros H1 H2. destruct (range_normalize_ok r H1 H2). auto. Qed.

Lemma range_normalize_correct_witness :
  range_contains (range_normalize (mkRange 0 5 [0; 5; 4])) 2 = range_contains (mkRange 0 5 [0; 5; 4]) 2.
Proof. apply (range_normalize_correct (mkRange 0 5 [0; 5; 4])); cbn; lia. Defined.
