(* ===== verification/PfAddr.v ===== *)
(** * Address ranges

    [struct pf_addr] of [src/prefilter.c]: an interval of 128-bit addresses
    minus at most one point, as four 32-bit words each, and the prefix
    computation that turns an interval into an address and a mask. *)

From Stdlib Require Import ZArith List Bool Lia ZifyBool.
From S2P Require Import Prelude WdTypes WdExec PfRange.
Import ListNotations.

Record pf_addr : Set := mkAddr {
  ad_lo : u128;
  ad_hi : u128;
  ad_excl : u128;
  has_excl : bool
}.

Definition ones128 : u128 := W128 0xFFFFFFFF 0xFFFFFFFF 0xFFFFFFFF 0xFFFFFFFF.

(** [a[i]] and [a[i] = v]. *)
Definition word (a : u128) (i : Z) : Z :=
  if i =? 0 then w0 a else if i =? 1 then w1 a else if i =? 2 then w2 a else w3 a.

Definition set_word (a : u128) (i v : Z) : u128 :=
  if i =? 0 then W128 v (w1 a) (w2 a) (w3 a)
  else if i =? 1 then W128 (w0 a) v (w2 a) (w3 a)
  else if i =? 2 then W128 (w0 a) (w1 a) v (w3 a)
  else W128 (w0 a) (w1 a) (w2 a) v.

(** The loop [for (i = 3; i >= 0; i--)]; [n] is [i + 1]. *)
Fixpoint cmp_words (n : nat) (a b : u128) : Z :=
  match n with
  | O => 0
  | S i =>
    let x := word a (Z.of_nat i) in
    let y := word b (Z.of_nat i) in
    if negb (x =? y) then (if x <? y then -1 else 1) else cmp_words i a b
  end.

Definition cmp128 (a b : u128) : Z := cmp_words 4 a b.

Definition addr_full : pf_addr := mkAddr zero128 ones128 zero128 false.

Definition addr_is_full (a : pf_addr) : bool :=
  negb (has_excl a) && (cmp128 (ad_lo a) zero128 =? 0) && (cmp128 (ad_hi a) ones128 =? 0).

(** [for (i = 0; i < 4 && ++a[i] == 0; i++)]; [n] is [4 - i]. *)
Fixpoint inc_words (n : nat) (i : Z) (a : u128) : u128 :=
  match n with
  | O => a
  | S n =>
    let v := u32 (word a i + 1) in
    let a := set_word a i v in
    if v =? 0 then inc_words n (i + 1) a else a
  end.

Definition inc128 (a : u128) : u128 := inc_words 4 0 a.

(** [for (i = 0; i < 4 && a[i]-- == 0; i++)]. *)
Fixpoint dec_words (n : nat) (i : Z) (a : u128) : u128 :=
  match n with
  | O => a
  | S n =>
    let old := word a i in
    let a := set_word a i (u32 (old - 1)) in
    if old =? 0 then dec_words n (i + 1) a else a
  end.

Definition dec128 (a : u128) : u128 := dec_words 4 0 a.

(** The common tail of [addr_apply]. *)
Definition addr_clip (a : pf_addr) (exact : bool) : option (pf_addr * bool) :=
  if cmp128 (ad_lo a) (ad_hi a) >? 0 then None
  else if has_excl a && ((cmp128 (ad_excl a) (ad_lo a) <? 0) ||
                         (cmp128 (ad_excl a) (ad_hi a) >? 0))
  then Some (mkAddr (ad_lo a) (ad_hi a) (ad_excl a) false, exact)
  else Some (a, exact).

Definition addr_upper (a : pf_addr) (v : u128) (exact : bool) : option (pf_addr * bool) :=
  addr_clip (if cmp128 v (ad_hi a) <? 0 then mkAddr (ad_lo a) v (ad_excl a) (has_excl a) else a)
    exact.

Definition addr_lower (a : pf_addr) (v : u128) (exact : bool) : option (pf_addr * bool) :=
  addr_clip (if cmp128 v (ad_lo a) >? 0 then mkAddr v (ad_hi a) (ad_excl a) (has_excl a) else a)
    exact.

Definition addr_apply (a : pf_addr) (t : TEST) (v : u128) (exact : bool)
    : option (pf_addr * bool) :=
  match t with
  | TEST_EQ =>
    if (cmp128 v (ad_lo a) <? 0) || (cmp128 v (ad_hi a) >? 0) then None
    else if has_excl a && (cmp128 v (ad_excl a) =? 0) then None
    else Some (mkAddr v v (ad_excl a) false, exact)
  | TEST_NEQ =>
    if (cmp128 v (ad_lo a) <? 0) || (cmp128 v (ad_hi a) >? 0) then Some (a, exact)
    else if (cmp128 v (ad_lo a) =? 0) && (cmp128 v (ad_hi a) =? 0) then None
    else if cmp128 v (ad_lo a) =? 0 then
      Some (mkAddr (inc128 (ad_lo a)) (ad_hi a) (ad_excl a) (has_excl a), exact)
    else if cmp128 v (ad_hi a) =? 0 then
      Some (mkAddr (ad_lo a) (dec128 (ad_hi a)) (ad_excl a) (has_excl a), exact)
    else if has_excl a then Some (a, false)
    else Some (mkAddr (ad_lo a) (ad_hi a) v true, exact)
  | TEST_LT => if cmp128 v zero128 =? 0 then None else addr_upper a (dec128 v) exact
  | TEST_LEQ => addr_upper a v exact
  | TEST_GT => if cmp128 v ones128 =? 0 then None else addr_lower a (inc128 v) exact
  | TEST_GEQ => addr_lower a v exact
  end.

(** ** Prefixes *)

(** Bit [i] from the top: [(a[3 - i/32] >> (31 - i%32)) & 1]. *)
Definition top_bit (a : u128) (i : Z) : Z :=
  (word a (3 - i / 32) >>> (31 - i mod 32)) &&& 1.

(** [for (bits = 0; bits < 128; bits++)] up to the first difference; [n] is
    [128 - bits]. *)
Fixpoint first_diff (n : nat) (bits : Z) (lo hi : u128) : Z :=
  match n with
  | O => bits
  | S n => if negb (top_bit lo bits =? top_bit hi bits) then bits
           else first_diff n (bits + 1) lo hi
  end.

Definition clear_bit (a : u128) (i : Z) : u128 :=
  let w := 3 - i / 32 in
  set_word a w (word a w &&& Z.lxor 0xFFFFFFFF (1 <<< (31 - i mod 32))).

(** [for (i = bits; i < 128; i++)]; [n] is [128 - i]. *)
Fixpoint clear_from (n : nat) (i : Z) (base : u128) : u128 :=
  match n with
  | O => base
  | S n => clear_from n (i + 1) (clear_bit base i)
  end.

Fixpoint exact_from (n : nat) (i : Z) (lo hi : u128) : bool :=
  match n with
  | O => true
  | S n => if negb (top_bit lo i =? 0) || negb (top_bit hi i =? 1) then false
           else exact_from n (i + 1) lo hi
  end.

(** Prefix length, base address, exactness. *)
Definition cover_prefix (lo hi : u128) : Z * u128 * bool :=
  let bits := first_diff 128 0 lo hi in
  let n := Z.to_nat (128 - bits) in
  (bits, clear_from n bits lo, exact_from n bits lo hi).

(** [for (i = 0; i < bits; i++)]; [n] is [bits - i]. *)
Fixpoint mask_from (n : nat) (i : Z) (mask : u128) : u128 :=
  match n with
  | O => mask
  | S n =>
    let w := 3 - i / 32 in
    mask_from n (i + 1) (set_word mask w (word mask w ||| (1 <<< (31 - i mod 32))))
  end.

Definition mask128 (bits : Z) : u128 := mask_from (Z.to_nat bits) 0 zero128.

(** Result of [encode_addr]: return value and output parameters. *)
Record enc_addr : Set := mkEncAddr {
  ea_exact : bool;
  ea_ip : u128;
  ea_mask : u128;
  ea_active : bool;
  ea_invert : bool
}.

Definition lo4 : u128 := W128 0 0x0000FFFF 0 0.
Definition hi4 : u128 := W128 0xFFFFFFFF 0x0000FFFF 0 0.

Definition encode_addr (a : pf_addr) : enc_addr :=
  if addr_is_full a then mkEncAddr true zero128 zero128 false false
  else if has_excl a &&
          (((cmp128 (ad_lo a) zero128 =? 0) && (cmp128 (ad_hi a) ones128 =? 0)) ||
           ((cmp128 (ad_lo a) lo4 =? 0) && (cmp128 (ad_hi a) hi4 =? 0)))
  then mkEncAddr true (ad_excl a) (mask128 128) true true
  else
    let '(bits, ip, exact_prefix) := cover_prefix (ad_lo a) (ad_hi a) in
    mkEncAddr (exact_prefix && negb (has_excl a)) ip (mask128 bits) (bits >? 0) false.

Definition is_mapped_ipv4 (a : u128) : bool :=
  (w3 a =? 0) && (w2 a =? 0) && (w1 a =? 0x0000FFFF).

(** [to_net16]: the sixteen bytes, most significant first. *)
Definition to_net16 (v : u128) : list Z :=
  flat_map (fun i => let w := word v (3 - i) in
                     [u8 (w >>> 24); u8 (w >>> 16); u8 (w >>> 8); u8 w]) [0; 1; 2; 3].

#[global] Arguments cmp128 : simpl never.
#[global] Arguments inc128 : simpl never.
#[global] Arguments dec128 : simpl never.
#[global] Arguments cover_prefix : simpl never.
#[global] Arguments mask128 : simpl never.
#[global] Arguments addr_apply : simpl never.
#[global] Arguments val128 : simpl never.
#[global] Arguments top_bit : simpl never.

(** ** Specification *)

Definition addr_contains (a : pf_addr) (x : Z) : bool :=
  (val128 (ad_lo a) <=? x) && (x <=? val128 (ad_hi a)) &&
  negb (has_excl a && (x =? val128 (ad_excl a))).

Definition addr_wf (a : pf_addr) : Prop :=
  wf128 (ad_lo a) /\ wf128 (ad_hi a) /\ wf128 (ad_excl a).

(** What [addr_apply] promises, as [apply_ok] does for ranges. *)
Definition addr_apply_spec (a : pf_addr) (P : Z -> bool) (exact : bool)
    (res : option (pf_addr * bool)) : Prop :=
  match res with
  | None => forall x, 0 <= x < 2 ^ 128 -> addr_contains a x = true -> P x = false
  | Some (a', exact') =>
    addr_wf a' /\
    (forall x, 0 <= x < 2 ^ 128 -> addr_contains a x = true -> P x = true ->
               addr_contains a' x = true) /\
    (exact' = true -> exact = true /\
       forall x, 0 <= x < 2 ^ 128 -> addr_contains a' x = true ->
                 addr_contains a x = true /\ P x = true)
  end.

(** ** Words *)

Lemma zero128_wf : wf128 zero128.
Proof. unfold wf128, is_u32; cbn; lia. Qed.

Lemma ones128_wf : wf128 ones128.
Proof. unfold wf128, is_u32; cbn; lia. Qed.

Lemma lo4_wf : wf128 lo4.
Proof. unfold wf128, is_u32; cbn; lia. Qed.

Lemma hi4_wf : wf128 hi4.
Proof. unfold wf128, is_u32; cbn; lia. Qed.

#[export] Hint Resolve zero128_wf ones128_wf lo4_wf hi4_wf : divert.

Lemma cmp128_compare a b : wf128 a -> wf128 b ->
  cmp128 a b = match val128 a ?= val128 b with Lt => -1 | Eq => 0 | Gt => 1 end.
Proof.
  destruct a as [a0 a1 a2 a3], b as [b0 b1 b2 b3].
  unfold wf128, is_u32, val128; cbn [w0 w1 w2 w3]. intros Ha Hb.
  change (cmp128 _ _) with
    (if negb (a3 =? b3) then (if a3 <? b3 then -1 else 1) else
     if negb (a2 =? b2) then (if a2 <? b2 then -1 else 1) else
     if negb (a1 =? b1) then (if a1 <? b1 then -1 else 1) else
     if negb (a0 =? b0) then (if a0 <? b0 then -1 else 1) else 0).
  repeat case_if; b2p; symmetry;
    match goal with
    | |- _ = 0 => rewrite (proj2 (Z.compare_eq_iff _ _)) by lia; reflexivity
    | |- _ = -1 => rewrite (proj2 (Z.compare_lt_iff _ _)) by lia; reflexivity
    | |- _ = 1 => rewrite (proj2 (Z.compare_gt_iff _ _)) by lia; reflexivity
    end.
Qed.

Lemma cmp128_lt a b : wf128 a -> wf128 b -> (cmp128 a b <? 0) = (val128 a <? val128 b).
Proof. intros. rewrite cmp128_compare by assumption. destruct (Z.compare_spec (val128 a) (val128 b)); lia. Qed.

Lemma cmp128_gt a b : wf128 a -> wf128 b -> (cmp128 a b >? 0) = (val128 b <? val128 a).
Proof. intros. rewrite cmp128_compare by assumption. destruct (Z.compare_spec (val128 a) (val128 b)); lia. Qed.

Lemma cmp128_eq a b : wf128 a -> wf128 b -> (cmp128 a b =? 0) = (val128 a =? val128 b).
Proof. intros. rewrite cmp128_compare by assumption. destruct (Z.compare_spec (val128 a) (val128 b)); lia. Qed.

(** Wrap-around at the ends, for any width. *)
Lemma inc_mod x m : 0 <= x < m -> (x + 1) mod m = if x =? m - 1 then 0 else x + 1.
Proof.
  intros H. case_if; b2p.
  - subst x. replace (m - 1 + 1) with m by lia. apply Z.mod_same. lia.
  - apply Z.mod_small. lia.
Qed.

Lemma dec_mod x m : 0 <= x < m -> (x - 1) mod m = if x =? 0 then m - 1 else x - 1.
Proof.
  intros H. case_if; b2p.
  - subst x. replace (0 - 1) with (m - 1 + (-1) * m) by lia.
    rewrite Z.mod_add by lia. apply Z.mod_small. lia.
  - apply Z.mod_small. lia.
Qed.

(** [inc128] and [dec128] are addition and subtraction modulo 2^128. *)
Ltac fold_index :=
  change (0 + 1) with 1; change (1 + 1) with 2; change (2 + 1) with 3.

Lemma inc128_unfold a : inc128 a =
  if u32 (w0 a + 1) =? 0 then
    if u32 (w1 a + 1) =? 0 then
      if u32 (w2 a + 1) =? 0 then W128 (u32 (w0 a + 1)) (u32 (w1 a + 1)) (u32 (w2 a + 1)) (u32 (w3 a + 1))
      else W128 (u32 (w0 a + 1)) (u32 (w1 a + 1)) (u32 (w2 a + 1)) (w3 a)
    else W128 (u32 (w0 a + 1)) (u32 (w1 a + 1)) (w2 a) (w3 a)
  else W128 (u32 (w0 a + 1)) (w1 a) (w2 a) (w3 a).
Proof. unfold inc128; cbn. fold_index. cbn. destruct (u32 (w3 a + 1) =? 0); reflexivity. Qed.

Lemma dec128_unfold a : dec128 a =
  if w0 a =? 0 then
    if w1 a =? 0 then
      if w2 a =? 0 then W128 (u32 (w0 a - 1)) (u32 (w1 a - 1)) (u32 (w2 a - 1)) (u32 (w3 a - 1))
      else W128 (u32 (w0 a - 1)) (u32 (w1 a - 1)) (u32 (w2 a - 1)) (w3 a)
    else W128 (u32 (w0 a - 1)) (u32 (w1 a - 1)) (w2 a) (w3 a)
  else W128 (u32 (w0 a - 1)) (w1 a) (w2 a) (w3 a).
Proof. unfold dec128; cbn. fold_index. cbn. destruct (w3 a =? 0); reflexivity. Qed.

Ltac solve_carry a :=
  destruct a as [a0 a1 a2 a3]; unfold wf128, is_u32, val128, u32 in *; cbn [w0 w1 w2 w3] in *;
  split_hyps; rewrite ?inc_mod, ?dec_mod by lia;
  repeat case_if; b2p; cbn [w0 w1 w2 w3]; lia.

Lemma inc128_spec a : wf128 a ->
  wf128 (inc128 a) /\ val128 (inc128 a) = (val128 a + 1) mod 2 ^ 128.
Proof.
  intros H. pose proof (val128_bound a H). rewrite inc_mod, inc128_unfold by assumption.
  solve_carry a.
Qed.

Lemma dec128_spec a : wf128 a ->
  wf128 (dec128 a) /\ val128 (dec128 a) = (val128 a - 1) mod 2 ^ 128.
Proof.
  intros H. pose proof (val128_bound a H). rewrite dec_mod, dec128_unfold by assumption.
  solve_carry a.
Qed.

(** [inc128] and [dec128] away from the ends. *)
Lemma inc128_val a : wf128 a -> val128 a < 2 ^ 128 - 1 ->
  wf128 (inc128 a) /\ val128 (inc128 a) = val128 a + 1.
Proof.
  intros H Hb. destruct (inc128_spec a H) as [Hw E]. split; [exact Hw|].
  pose proof (val128_bound a H). rewrite E. apply Z.mod_small. lia.
Qed.

Lemma dec128_val a : wf128 a -> 0 < val128 a ->
  wf128 (dec128 a) /\ val128 (dec128 a) = val128 a - 1.
Proof.
  intros H Hb. destruct (dec128_spec a H) as [Hw E]. split; [exact Hw|].
  pose proof (val128_bound a H). rewrite E. apply Z.mod_small. lia.
Qed.

Lemma val128_zero : val128 zero128 = 0.
Proof. reflexivity. Qed.

Lemma val128_ones : val128 ones128 = 2 ^ 128 - 1.
Proof. reflexivity. Qed.

Lemma val128_lo4 : val128 lo4 = 0xFFFF * 2 ^ 32.
Proof. reflexivity. Qed.

Lemma val128_hi4 : val128 hi4 = 2 ^ 48 - 1.
Proof. reflexivity. Qed.

(** Rewrite every comparison of words into one of values. *)
Ltac cmp_val :=
  repeat first [ rewrite cmp128_lt by auto with divert | rewrite cmp128_gt by auto with divert
               | rewrite cmp128_eq by auto with divert ];
  rewrite ?val128_zero, ?val128_ones.

(** ** Applying a test *)

Lemma addr_clip_ok a P exact q : addr_wf a -> addr_wf q -> has_excl q = has_excl a ->
  ad_excl q = ad_excl a ->
  (forall x, 0 <= x < 2 ^ 128 ->
     (val128 (ad_lo q) <= x <= val128 (ad_hi q)) <->
     (val128 (ad_lo a) <= x <= val128 (ad_hi a) /\ P x = true)) ->
  addr_apply_spec a P exact (addr_clip q exact).
Proof.
  intros Ha (Hql & Hqh & Hqe) Eh Ee HQ. unfold addr_clip. cmp_val.
  case_if; [|case_if]; b2p; cbn.
  - intros x Hx. unfold addr_contains. specialize (HQ x Hx). lia.
  - split; [unfold addr_wf; cbn; auto|]. rewrite Eh in *. rewrite Ee in *.
    unfold addr_contains; cbn. split; [|intros E; split; [exact E|]]; intros x Hx;
      specialize (HQ x Hx); lia.
  - split; [unfold addr_wf; cbn; auto|]. unfold addr_contains. rewrite Eh, Ee.
    split; [|intros E; split; [exact E|]]; intros x Hx;
      specialize (HQ x Hx); lia.
Qed.

Lemma addr_upper_ok a v P exact : addr_wf a -> wf128 v ->
  (forall x, 0 <= x < 2 ^ 128 -> P x = true <-> x <= val128 v) ->
  addr_apply_spec a P exact (addr_upper a v exact).
Proof.
  intros Ha Hv HP. pose proof Ha as (Hl & Hh & He). unfold addr_upper. cmp_val.
  apply addr_clip_ok; try assumption;
    case_if; try reflexivity; try assumption; b2p; cbn; try (unfold addr_wf; cbn; auto);
    intros x Hx; specialize (HP x Hx); lia.
Qed.

Lemma addr_lower_ok a v P exact : addr_wf a -> wf128 v ->
  (forall x, 0 <= x < 2 ^ 128 -> P x = true <-> val128 v <= x) ->
  addr_apply_spec a P exact (addr_lower a v exact).
Proof.
  intros Ha Hv HP. pose proof Ha as (Hl & Hh & He). unfold addr_lower. cmp_val.
  apply addr_clip_ok; try assumption;
    case_if; try reflexivity; try assumption; b2p; cbn; try (unfold addr_wf; cbn; auto);
    intros x Hx; specialize (HP x Hx); lia.
Qed.

(** Close the branches of [addr_apply] that keep or shift a bound. *)
Ltac addr_branch :=
  cbn; unfold addr_contains; cbn;
  lazymatch goal with
  | |- addr_wf _ /\ _ =>
    split; [unfold addr_wf; cbn; auto|split; [intros; lia|
      first [discriminate | intros E'; split; [exact E'|intros; lia]]]]
  | |- _ => intros; lia
  end.

Lemma addr_apply_ok a t v exact : addr_wf a -> wf128 v ->
  addr_apply_spec a (fun x => test_z t x (val128 v)) exact (addr_apply a t v exact).
Proof.
  intros Ha Hv. pose proof Ha as (Hl & Hh & He).
  pose proof (val128_bound v Hv) as Bv. pose proof (val128_bound _ Hl) as Bl.
  pose proof (val128_bound _ Hh) as Bh. unfold addr_apply.
  destruct t; cmp_val; cbn [test_z].
  - repeat case_if; addr_branch.
  - case_if; [addr_branch|]. case_if; [addr_branch|].
    case_if; [destruct (inc128_val (ad_lo a)) as [Hw E]; [assumption|lia|]; addr_branch|].
    case_if; [destruct (dec128_val (ad_hi a)) as [Hw E]; [assumption|lia|]; addr_branch|].
    case_if; addr_branch.
  - case_if; [addr_branch|]. destruct (dec128_val v) as [Hw E]; [assumption|lia|].
    apply addr_upper_ok; [assumption..|]. intros; lia.
  - apply addr_upper_ok; [assumption..|]. intros; lia.
  - case_if; [addr_branch|]. destruct (inc128_val v) as [Hw E]; [assumption|lia|].
    apply addr_lower_ok; [assumption..|]. intros; lia.
  - apply addr_lower_ok; [assumption..|]. intros; lia.
Qed.

(** ** Bits of a 128-bit value *)

Lemma testbit_split a b n j : 0 <= n -> 0 <= a < 2 ^ n -> 0 <= j ->
  Z.testbit (a + 2 ^ n * b) j = if j <? n then Z.testbit a j else Z.testbit b (j - n).
Proof.
  intros Hn Ha Hj. rewrite <- lor_add_disjoint by assumption.
  rewrite Z.lor_spec, (Z.mul_comm (2 ^ n)). case_if; b2p.
  - rewrite Z.mul_pow2_bits_low by lia. apply orb_false_r.
  - rewrite Z.mul_pow2_bits by lia. rewrite <- (Z.mod_small a (2 ^ n)) by lia.
    now rewrite Z.mod_pow2_bits_high by lia.
Qed.

Lemma val128_testbit a j : wf128 a -> 0 <= j < 128 ->
  Z.testbit (val128 a) j = Z.testbit (word a (j / 32)) (j mod 32).
Proof.
  destruct a as [a0 a1 a2 a3]. unfold wf128, is_u32, val128, word. cbn [w0 w1 w2 w3]. intros H Hj.
  replace (a0 + 2 ^ 32 * a1 + 2 ^ 64 * a2 + 2 ^ 96 * a3)
    with (a0 + 2 ^ 32 * (a1 + 2 ^ 32 * (a2 + 2 ^ 32 * a3))) by lia.
  assert (E : j / 32 = 0 /\ j mod 32 = j /\ j < 32 \/ j / 32 = 1 /\ j mod 32 = j - 32 /\ 32 <= j < 64 \/
    j / 32 = 2 /\ j mod 32 = j - 64 /\ 64 <= j < 96 \/ j / 32 = 3 /\ j mod 32 = j - 96 /\ 96 <= j)
    by (Z.div_mod_to_equations; lia).
  destruct E as [(-> & -> & E)|[(-> & -> & E)|[(-> & -> & E)|(-> & -> & E)]]]; cbn;
    repeat (rewrite testbit_split by lia; case_if; b2p; try lia); f_equal; lia.
Qed.

Lemma val128_high a j : wf128 a -> 128 <= j -> Z.testbit (val128 a) j = false.
Proof.
  intros H Hj. pose proof (val128_bound a H). rewrite <- (Z.mod_small (val128 a) (2 ^ 128)) by lia.
  apply Z.mod_pow2_bits_high. lia.
Qed.

Lemma top_index i : 0 <= i < 128 -> 3 - i / 32 = (127 - i) / 32 /\ 31 - i mod 32 = (127 - i) mod 32.
Proof. intros H. Z.div_mod_to_equations. lia. Qed.

Lemma top_bit_spec a i : wf128 a -> 0 <= i < 128 ->
  top_bit a i = b2z (Z.testbit (val128 a) (127 - i)).
Proof.
  intros H Hi. unfold top_bit. destruct (top_index i Hi) as [-> ->].
  rewrite val128_testbit by (assumption || lia). rewrite (land_mask_mod _ 1) by (lia || reflexivity).
  change (2 ^ 1) with 2. rewrite <- Z.bit0_mod, Z.shiftr_spec by lia. reflexivity.
Qed.

Lemma word_range a k : wf128 a -> is_u32 (word a k).
Proof. intros H. unfold word. unfold wf128 in H. repeat case_if; tauto. Qed.

Lemma set_word_spec a k v : wf128 a -> is_u32 v -> 0 <= k <= 3 ->
  wf128 (set_word a k v) /\
  forall j, 0 <= j < 128 -> Z.testbit (val128 (set_word a k v)) j =
    if j / 32 =? k then Z.testbit v (j mod 32) else Z.testbit (val128 a) j.
Proof.
  intros H Hv Hk. assert (Hw : wf128 (set_word a k v)).
  { unfold set_word, wf128 in *. repeat case_if; cbn; tauto. }
  split; [exact Hw|]. intros j Hj. rewrite !val128_testbit by assumption.
  assert (0 <= j / 32 <= 3) by (Z.div_mod_to_equations; lia).
  unfold word, set_word. repeat (case_if; cbn; b2p); try reflexivity; lia.
Qed.

Lemma u32_bits v : (forall j, 32 <= j -> Z.testbit v j = false) -> 0 <= v -> is_u32 v.
Proof.
  intros H Hv. split; [exact Hv|]. destruct (Z.eq_dec v 0) as [->|Hz]; [lia|].
  apply Z.log2_lt_pow2; [lia|]. destruct (Z.lt_ge_cases (Z.log2 v) 32); [assumption|].
  specialize (H _ H0). rewrite Z.bit_log2 in H by lia. discriminate.
Qed.

Lemma u32_high v j : is_u32 v -> 32 <= j -> Z.testbit v j = false.
Proof.
  intros H Hj. rewrite <- (Z.mod_small v (2 ^ 32)) by exact H. apply Z.mod_pow2_bits_high. lia.
Qed.

Lemma clear_bit_spec a i : wf128 a -> 0 <= i < 128 ->
  wf128 (clear_bit a i) /\ forall j, 0 <= j < 128 ->
    Z.testbit (val128 (clear_bit a i)) j = Z.testbit (val128 a) j && negb (j =? 127 - i).
Proof.
  intros H Hi. unfold clear_bit. destruct (top_index i Hi) as [-> ->].
  set (k := (127 - i) / 32). set (b := (127 - i) mod 32).
  assert (Hk : 0 <= k <= 3) by (subst k; Z.div_mod_to_equations; lia).
  assert (Hb : 0 <= b < 32) by (apply Z.mod_pos_bound; lia).
  pose proof (word_range a k H) as Hw.
  assert (Hv : is_u32 (word a k &&& Z.lxor 0xFFFFFFFF (1 <<< b))).
  { apply u32_bits; [|apply Z.land_nonneg; left; apply Hw].
    intros j Hj. now rewrite Z.land_spec, (u32_high _ j Hw). }
  destruct (set_word_spec a k _ H Hv Hk) as [W S]. split; [exact W|].
  intros j Hj. rewrite S, val128_testbit by assumption. case_if; b2p.
  - rewrite Z.land_spec, Z.lxor_spec, <- Heqb0. pose proof (Z.mod_pos_bound j 32). f_equal.
    change 0xFFFFFFFF with (Z.ones 32). rewrite Z.ones_spec_low, Z.shiftl_1_l, Z.pow2_bits_eqb by lia.
    rewrite xorb_true_l. f_equal. subst b k. Z.div_mod_to_equations. lia.
  - destruct (j =? 127 - i) eqn:E; b2p; [subst; lia|]. now rewrite andb_true_r.
Qed.

Lemma set_bit_spec a i : wf128 a -> 0 <= i < 128 ->
  let a' := set_word a (3 - i / 32) (word a (3 - i / 32) ||| (1 <<< (31 - i mod 32))) in
  wf128 a' /\ forall j, 0 <= j < 128 ->
    Z.testbit (val128 a') j = Z.testbit (val128 a) j || (j =? 127 - i).
Proof.
  intros H Hi. cbv zeta. destruct (top_index i Hi) as [-> ->].
  set (k := (127 - i) / 32). set (b := (127 - i) mod 32).
  assert (Hk : 0 <= k <= 3) by (subst k; Z.div_mod_to_equations; lia).
  assert (Hb : 0 <= b < 32) by (apply Z.mod_pos_bound; lia).
  pose proof (word_range a k H) as Hw. rewrite Z.shiftl_1_l.
  assert (Hv : is_u32 (word a k ||| 2 ^ b)).
  { apply u32_bits; [|apply Z.lor_nonneg; unfold is_u32 in Hw; lia].
    intros j Hj. rewrite Z.lor_spec, (u32_high _ j Hw Hj), Z.pow2_bits_eqb by lia. lia. }
  destruct (set_word_spec a k _ H Hv Hk) as [W S]. split; [exact W|].
  intros j Hj. rewrite S, val128_testbit by assumption. case_if; b2p.
  - rewrite Z.lor_spec, <- Heqb0, Z.pow2_bits_eqb by lia. f_equal.
    subst b k. Z.div_mod_to_equations. lia.
  - destruct (j =? 127 - i) eqn:E; b2p; [subst; lia|]. now rewrite orb_false_r.
Qed.

(** ** Prefixes *)

Lemma first_diff_spec : forall n i lo hi, wf128 lo -> wf128 hi -> 0 <= i -> i + Z.of_nat n = 128 ->
  let k := first_diff n i lo hi in
  i <= k <= 128 /\
  (forall j, 128 - k <= j < 128 - i -> Z.testbit (val128 lo) j = Z.testbit (val128 hi) j).
Proof.
  induction n as [|n IH]; intros i lo hi Hl Hh Hi Hn; cbn [first_diff].
  - split; [lia|]. intros; lia.
  - case_if; b2p.
    + split; [lia|]. intros; lia.
    + destruct (IH (i + 1) lo hi Hl Hh ltac:(lia) ltac:(lia)) as [Hk Hb]. split; [lia|].
      intros j Hj. destruct (Z.eq_dec j (127 - i)) as [->|]; [|apply Hb; lia].
      rewrite !top_bit_spec in Heqb by (assumption || lia). unfold b2z in Heqb.
      destruct (Z.testbit (val128 lo) _), (Z.testbit (val128 hi) _); congruence.
Qed.

Lemma clear_from_spec : forall n i a, wf128 a -> 0 <= i -> i + Z.of_nat n = 128 ->
  wf128 (clear_from n i a) /\ forall j, 0 <= j < 128 ->
    Z.testbit (val128 (clear_from n i a)) j = Z.testbit (val128 a) j && (128 - i <=? j).
Proof.
  induction n as [|n IH]; intros i a Ha Hi Hn; cbn [clear_from].
  - split; [exact Ha|]. intros j Hj. destruct (128 - i <=? j) eqn:E; b2p; [|lia].
    now rewrite andb_true_r.
  - destruct (clear_bit_spec a i Ha ltac:(lia)) as [W S].
    destruct (IH (i + 1) _ W ltac:(lia) ltac:(lia)) as [W' S']. split; [exact W'|].
    intros j Hj. rewrite S', S by exact Hj. rewrite <- andb_assoc. f_equal. lia.
Qed.

Lemma mask_from_spec : forall n i a, wf128 a -> 0 <= i -> i + Z.of_nat n <= 128 ->
  wf128 (mask_from n i a) /\ forall j, 0 <= j < 128 ->
    Z.testbit (val128 (mask_from n i a)) j =
    Z.testbit (val128 a) j || ((128 - i - Z.of_nat n <=? j) && (j <? 128 - i)).
Proof.
  induction n as [|n IH]; intros i a Ha Hi Hn; cbn [mask_from].
  - split; [exact Ha|]. intros j Hj.
    replace ((_ <=? j) && _) with false by lia. now rewrite orb_false_r.
  - destruct (set_bit_spec a i Ha ltac:(lia)) as [W S].
    destruct (IH (i + 1) _ W ltac:(lia) ltac:(lia)) as [W' S']. split; [exact W'|].
    intros j Hj. rewrite S', S by exact Hj. rewrite <- orb_assoc. f_equal. lia.
Qed.

Lemma exact_from_spec : forall n i lo hi, wf128 lo -> wf128 hi -> 0 <= i -> i + Z.of_nat n = 128 ->
  exact_from n i lo hi = true -> forall j, 0 <= j < 128 - i ->
    Z.testbit (val128 lo) j = false /\ Z.testbit (val128 hi) j = true.
Proof.
  induction n as [|n IH]; intros i lo hi Hl Hh Hi Hn; cbn [exact_from]; [intros; lia|].
  case_if; [discriminate|]. b2p. intros E j Hj.
  destruct (Z.eq_dec j (127 - i)) as [->|].
  - rewrite !top_bit_spec in * by (assumption || lia). unfold b2z in *.
    destruct (Z.testbit (val128 lo) _), (Z.testbit (val128 hi) _); split; congruence.
  - apply (IH (i + 1) lo hi); (assumption || lia).
Qed.

Lemma bits_above x y m : 0 <= m <= 128 -> 0 <= x < 2 ^ 128 -> 0 <= y < 2 ^ 128 ->
  (forall j, m <= j < 128 -> Z.testbit x j = Z.testbit y j) -> x / 2 ^ m = y / 2 ^ m.
Proof.
  intros Hm Hx Hy H. rewrite <- !Z.shiftr_div_pow2 by lia. apply Z.bits_inj'. intros j Hj.
  rewrite !Z.shiftr_spec by lia. destruct (Z.lt_ge_cases (j + m) 128); [apply H; lia|].
  rewrite <- (Z.mod_small x (2 ^ 128)), <- (Z.mod_small y (2 ^ 128)) by lia.
  now rewrite !Z.mod_pow2_bits_high by lia.
Qed.

(** What [cover_prefix] computes: the base is [lo] with the low bits cleared,
    the prefix covers the interval, and an exact prefix is the interval. *)
Record prefix_ok (lo hi : u128) (bits : Z) (base : u128) (exact : bool) : Prop := {
  px_bits : 0 <= bits <= 128;
  px_wf : wf128 base;
  px_base : forall j, 0 <= j < 128 ->
    Z.testbit (val128 base) j = Z.testbit (val128 lo) j && (128 - bits <=? j);
  px_cover : forall x, val128 lo <= x <= val128 hi ->
    x / 2 ^ (128 - bits) = val128 lo / 2 ^ (128 - bits);
  px_common : val128 lo / 2 ^ (128 - bits) = val128 hi / 2 ^ (128 - bits);
  px_block : exact = true -> val128 lo mod 2 ^ (128 - bits) = 0 /\
    val128 hi mod 2 ^ (128 - bits) = 2 ^ (128 - bits) - 1
}.

Lemma low_bits_zero x m : 0 <= m -> (forall j, 0 <= j < m -> Z.testbit x j = false) -> x mod 2 ^ m = 0.
Proof.
  intros Hm H. apply Z.bits_inj'. intros j Hj. rewrite Z.bits_0.
  destruct (Z.lt_ge_cases j m); [rewrite Z.mod_pow2_bits_low by lia; apply H; lia|].
  apply Z.mod_pow2_bits_high. lia.
Qed.

Lemma low_bits_ones x m : 0 <= m -> (forall j, 0 <= j < m -> Z.testbit x j = true) ->
  x mod 2 ^ m = 2 ^ m - 1.
Proof.
  intros Hm H. rewrite Z.sub_1_r, <- Z.ones_equiv. apply Z.bits_inj'. intros j Hj.
  destruct (Z.lt_ge_cases j m).
  - rewrite Z.mod_pow2_bits_low, Z.ones_spec_low by lia. apply H. lia.
  - rewrite Z.mod_pow2_bits_high, Z.ones_spec_high by lia. reflexivity.
Qed.

Lemma cover_prefix_ok lo hi : wf128 lo -> wf128 hi ->
  let '(bits, base, exact) := cover_prefix lo hi in prefix_ok lo hi bits base exact.
Proof.
  intros Hl Hh. unfold cover_prefix.
  destruct (first_diff_spec 128 0 lo hi Hl Hh ltac:(lia) ltac:(lia)) as [Hk Hb].
  set (k := first_diff 128 0 lo hi) in *. clearbody k. set (m := 128 - k).
  pose proof (val128_bound lo Hl) as Bl. pose proof (val128_bound hi Hh) as Bh.
  assert (Hm : 0 < 2 ^ m) by (apply Z.pow_pos_nonneg; subst m; lia).
  assert (E : val128 lo / 2 ^ m = val128 hi / 2 ^ m)
    by (apply bits_above; [subst m; lia|assumption..|intros; apply Hb; subst m; lia]).
  destruct (clear_from_spec (Z.to_nat m) k lo Hl ltac:(lia) ltac:(lia)) as [W S].
  split; [lia|exact W|exact S| |exact E|]; fold m.
  - intros x Hx. apply Z.le_antisymm; [rewrite E|]; apply Z.div_le_mono; lia.
  - intros Ex.
    pose proof (exact_from_spec (Z.to_nat m) k lo hi Hl Hh ltac:(lia) ltac:(lia) Ex) as Hx.
    split; [apply low_bits_zero|apply low_bits_ones]; try lia; intros; apply Hx; lia.
Qed.

Lemma prefix_exact lo hi bits base : prefix_ok lo hi bits base true ->
  forall x, x / 2 ^ (128 - bits) = val128 lo / 2 ^ (128 - bits) -> val128 lo <= x <= val128 hi.
Proof.
  intros [Hb _ _ _ E Bk] x Hx. destruct (Bk eq_refl) as [B1 B2].
  assert (Hm : 0 < 2 ^ (128 - bits)) by (apply Z.pow_pos_nonneg; lia).
  set (m := 2 ^ (128 - bits)) in *. clearbody m.
  pose proof (Z.div_mod (val128 lo) m). pose proof (Z.div_mod (val128 hi) m).
  pose proof (Z.div_mod x m). pose proof (Z.mod_pos_bound x m). nia.
Qed.

(** ** Masks *)

Lemma mask128_spec bits : 0 <= bits <= 128 ->
  wf128 (mask128 bits) /\
  forall j, 0 <= j < 128 -> Z.testbit (val128 (mask128 bits)) j = (128 - bits <=? j).
Proof.
  intros Hb. destruct (mask_from_spec (Z.to_nat bits) 0 zero128 zero128_wf ltac:(lia) ltac:(lia))
    as [W S]. split; [exact W|]. intros j Hj. unfold mask128. rewrite S by exact Hj.
  change (val128 zero128) with 0. rewrite Z.bits_0. lia.
Qed.

(** Equality under a mask, bit by bit. *)
Lemma land_eq_bits a b m : wf128 m ->
  (Z.land a (val128 m) = Z.land b (val128 m) <->
   forall j, 0 <= j < 128 -> Z.testbit (val128 m) j = true -> Z.testbit a j = Z.testbit b j).
Proof.
  intros Hm. split.
  - intros E j Hj Hb. apply (f_equal (fun z => Z.testbit z j)) in E.
    rewrite !Z.land_spec, Hb, !andb_true_r in E. exact E.
  - intros H. apply Z.bits_inj'. intros j Hj. rewrite !Z.land_spec.
    destruct (Z.testbit (val128 m) j) eqn:E; [|now rewrite !andb_false_r].
    destruct (Z.lt_ge_cases j 128); [now rewrite H by lia|].
    rewrite val128_high in E by assumption. discriminate.
Qed.

(** Matching base and mask of a prefix is having the prefix. *)
Lemma prefix_match lo hi bits base exact x : prefix_ok lo hi bits base exact ->
  wf128 lo -> 0 <= x < 2 ^ 128 ->
  (Z.land x (val128 (mask128 bits)) = Z.land (val128 base) (val128 (mask128 bits)) <->
   x / 2 ^ (128 - bits) = val128 lo / 2 ^ (128 - bits)).
Proof.
  intros [Hb W S _ _ _] Hl Hx. destruct (mask128_spec bits Hb) as [Wm Sm].
  rewrite land_eq_bits by exact Wm. pose proof (val128_bound lo Hl) as Bl. split.
  - intros H. apply bits_above; [lia|assumption..|]. intros j Hj.
    rewrite H by (rewrite ?Sm; lia). rewrite S by lia.
    replace (128 - bits <=? j) with true by lia. now rewrite andb_true_r.
  - intros E j Hj. rewrite Sm by exact Hj. intros Hm. b2p. rewrite S by lia.
    replace (128 - bits <=? j) with true by lia. rewrite andb_true_r.
    apply (f_equal (fun z => Z.testbit z (j - (128 - bits)))) in E.
    rewrite <- !Z.shiftr_div_pow2, !Z.shiftr_spec in E by lia.
    now replace (j - (128 - bits) + (128 - bits)) with j in E by lia.
Qed.

(** ** Properties *)

(** Applying a test to a 128-bit address range, word arithmetic included:
    a rejected range has no address that passes; otherwise the new range
    keeps every address that passes and, when the exactness flag survives,
    has no other. *)
Theorem addr_apply_correct a t v exact : addr_wf a -> wf128 v ->
  match addr_apply a t v exact with
  | None => forall x, 0 <= x < 2 ^ 128 -> addr_contains a x = true -> test_z t x (val128 v) = false
  | Some (a', exact') =>
    addr_wf a' /\
    (forall x, 0 <= x < 2 ^ 128 -> addr_contains a x = true -> test_z t x (val128 v) = true ->
       addr_contains a' x = true) /\
    (exact' = true -> exact = true /\ forall x, 0 <= x < 2 ^ 128 -> addr_contains a' x = true ->
       addr_contains a x = true /\ test_z t x (val128 v) = true)
  end.
Proof. intros Ha Hv. exact (addr_apply_ok a t v exact Ha Hv). Qed.

Lemma addr_apply_correct_witness :
  match addr_apply addr_full TEST_LT (W128 0 1 0 0) true with
  | None => False
  | Some (a', _) => addr_contains a' 0xFFFFFFFF = true
  end.
Proof.
  pose proof (addr_apply_correct addr_full TEST_LT (W128 0 1 0 0) true) as H.
  destruct (addr_apply _ _ _ _) as [[a' e']|] eqn:E.
  - apply H; try reflexivity; try (unfold addr_wf, wf128, is_u32; cbn; lia). 
  - vm_compute in E. discriminate.
Defined.

(** The prefix computed for an interval covers it, and an interval
    reported exact is precisely the set of addresses with that prefix: the
    masked comparison of a rule accepts an address if and only if it lies in
    the interval. *)
Theorem cover_prefix_correct lo hi x : wf128 lo -> wf128 hi -> wf128 x ->
  let '(bits, base, exact) := cover_prefix lo hi in
  let mask := val128 (mask128 bits) in
  (val128 lo <= val128 x <= val128 hi ->
   Z.land (val128 x) mask = Z.land (val128 base) mask) /\
  (exact = true -> Z.land (val128 x) mask = Z.land (val128 base) mask ->
   val128 lo <= val128 x <= val128 hi).
Proof.
  intros Hl Hh Hx. pose proof (cover_prefix_ok lo hi Hl Hh) as P.
  destruct (cover_prefix lo hi) as [[bits base] exact]. cbv zeta.
  pose proof (prefix_match lo hi bits base exact (val128 x) P Hl (val128_bound x Hx)) as M. split.
  - intros H. apply M. now apply (px_cover lo hi bits base exact P).
  - intros -> H. apply (prefix_exact lo hi bits base P). now apply M.
Qed.

Lemma cover_prefix_correct_witness :
  let '(bits, base, exact) := cover_prefix (W128 0x0A000000 0xFFFF 0 0) (W128 0x0A00FFFF 0xFFFF 0 0) in
  let mask := val128 (mask128 bits) in
  exact = true /\
  Z.land (val128 (W128 0x0A001234 0xFFFF 0 0)) mask = Z.land (val128 base) mask.
Proof.
  pose proof (cover_prefix_correct (W128 0x0A000000 0xFFFF 0 0) (W128 0x0A00FFFF 0xFFFF 0 0)
    (W128 0x0A001234 0xFFFF 0 0)) as H.
  destruct (cover_prefix _ _) as [[bits base] exact] eqn:E. cbv zeta in *.
  split; [vm_compute in E; congruence|].
  apply H; try (unfold wf128, is_u32; cbn; lia). vm_compute. split; discriminate.
Defined.
