(* ===== verification/PfCube.v ===== *)
(** * Cubes and the walk over the decision graph

    [struct pf_cube], [struct pf_ctx] and the path enumeration of
    [src/prefilter.c].  [pf_branch] and its helpers call [pf_continue] on a
    sequence of cubes, always with the same continuation; here they return
    that sequence, and [pf_walk] runs [pf_continue] over it. *)

From Stdlib Require Import ZArith List Bool Lia ZifyBool.
From S2P Require Import Prelude WdTypes WdExec PfRange PfAddr.
Import ListNotations.

Definition PF_MAX_STATES : Z := 65536.
Definition PF_MAX_CUBES : Z := 256.

Record pf_cube : Set := mkCube {
  c_exact : bool;
  c_ver : Z;                 (* 0 = any, 4, 6 *)
  c_dir : Z;                 (* 0 = any, 1 = inbound, 2 = outbound *)
  c_loopback : Z;            (* -1 = any, 0, 1 *)
  c_proto : pf_range;
  c_sport : pf_range;
  c_dport : pf_range;
  c_ttl : pf_range;
  c_src : pf_addr;
  c_dst : pf_addr;
  c_tcp_flags : Z;
  c_tcp_mask : Z;
  c_event : pf_range;
  c_pid : pf_range
}.

(** Assignments to one member. *)
Definition with_exact (c : pf_cube) (v : bool) : pf_cube :=
  mkCube v (c_ver c) (c_dir c) (c_loopback c) (c_proto c) (c_sport c) (c_dport c) (c_ttl c)
    (c_src c) (c_dst c) (c_tcp_flags c) (c_tcp_mask c) (c_event c) (c_pid c).
Definition with_ver (c : pf_cube) (v : Z) : pf_cube :=
  mkCube (c_exact c) v (c_dir c) (c_loopback c) (c_proto c) (c_sport c) (c_dport c) (c_ttl c)
    (c_src c) (c_dst c) (c_tcp_flags c) (c_tcp_mask c) (c_event c) (c_pid c).
Definition with_dir (c : pf_cube) (v : Z) : pf_cube :=
  mkCube (c_exact c) (c_ver c) v (c_loopback c) (c_proto c) (c_sport c) (c_dport c) (c_ttl c)
    (c_src c) (c_dst c) (c_tcp_flags c) (c_tcp_mask c) (c_event c) (c_pid c).
Definition with_loopback (c : pf_cube) (v : Z) : pf_cube :=
  mkCube (c_exact c) (c_ver c) (c_dir c) v (c_proto c) (c_sport c) (c_dport c) (c_ttl c)
    (c_src c) (c_dst c) (c_tcp_flags c) (c_tcp_mask c) (c_event c) (c_pid c).
Definition with_flags (c : pf_cube) (flags mask : Z) : pf_cube :=
  mkCube (c_exact c) (c_ver c) (c_dir c) (c_loopback c) (c_proto c) (c_sport c) (c_dport c)
    (c_ttl c) (c_src c) (c_dst c) flags mask (c_event c) (c_pid c).

(** A range or address member together with [exact], as [range_apply] and
    [addr_apply] write them. *)
Definition with_proto (c : pf_cube) (v : pf_range * bool) : pf_cube :=
  mkCube (snd v) (c_ver c) (c_dir c) (c_loopback c) (fst v) (c_sport c) (c_dport c) (c_ttl c)
    (c_src c) (c_dst c) (c_tcp_flags c) (c_tcp_mask c) (c_event c) (c_pid c).
Definition with_sport (c : pf_cube) (v : pf_range * bool) : pf_cube :=
  mkCube (snd v) (c_ver c) (c_dir c) (c_loopback c) (c_proto c) (fst v) (c_dport c) (c_ttl c)
    (c_src c) (c_dst c) (c_tcp_flags c) (c_tcp_mask c) (c_event c) (c_pid c).
Definition with_dport (c : pf_cube) (v : pf_range * bool) : pf_cube :=
  mkCube (snd v) (c_ver c) (c_dir c) (c_loopback c) (c_proto c) (c_sport c) (fst v) (c_ttl c)
    (c_src c) (c_dst c) (c_tcp_flags c) (c_tcp_mask c) (c_event c) (c_pid c).
Definition with_ttl (c : pf_cube) (v : pf_range * bool) : pf_cube :=
  mkCube (snd v) (c_ver c) (c_dir c) (c_loopback c) (c_proto c) (c_sport c) (c_dport c) (fst v)
    (c_src c) (c_dst c) (c_tcp_flags c) (c_tcp_mask c) (c_event c) (c_pid c).
Definition with_src (c : pf_cube) (v : pf_addr * bool) : pf_cube :=
  mkCube (snd v) (c_ver c) (c_dir c) (c_loopback c) (c_proto c) (c_sport c) (c_dport c) (c_ttl c)
    (fst v) (c_dst c) (c_tcp_flags c) (c_tcp_mask c) (c_event c) (c_pid c).
Definition with_dst (c : pf_cube) (v : pf_addr * bool) : pf_cube :=
  mkCube (snd v) (c_ver c) (c_dir c) (c_loopback c) (c_proto c) (c_sport c) (c_dport c) (c_ttl c)
    (c_src c) (fst v) (c_tcp_flags c) (c_tcp_mask c) (c_event c) (c_pid c).
Definition with_event (c : pf_cube) (v : pf_range * bool) : pf_cube :=
  mkCube (snd v) (c_ver c) (c_dir c) (c_loopback c) (c_proto c) (c_sport c) (c_dport c) (c_ttl c)
    (c_src c) (c_dst c) (c_tcp_flags c) (c_tcp_mask c) (fst v) (c_pid c).
Definition with_pid (c : pf_cube) (v : pf_range * bool) : pf_cube :=
  mkCube (snd v) (c_ver c) (c_dir c) (c_loopback c) (c_proto c) (c_sport c) (c_dport c) (c_ttl c)
    (c_src c) (c_dst c) (c_tcp_flags c) (c_tcp_mask c) (c_event c) (fst v).

Definition cube_init : pf_cube :=
  {| c_exact := true; c_ver := 0; c_dir := 0; c_loopback := -1;
     c_proto := range_full 255; c_sport := range_full 65535; c_dport := range_full 65535;
     c_ttl := range_full 255; c_src := addr_full; c_dst := addr_full;
     c_tcp_flags := 0; c_tcp_mask := 0;
     c_event := range_full 15; c_pid := range_full 0xFFFFFFFF |}.

Definition cube_set_ver (c : pf_cube) (ver : Z) : option pf_cube :=
  if negb (c_ver c =? 0) && negb (c_ver c =? ver) then None else Some (with_ver c ver).

(** The local [exact] of the C function is dropped: [TEST_EQ] never clears it. *)
Definition cube_set_proto (c : pf_cube) (proto : Z) : option pf_cube :=
  match range_apply (c_proto c) TEST_EQ proto 255 true with
  | None => None
  | Some (r, _) => Some (with_proto c (r, c_exact c))
  end.

Definition cube_proto_is (c : pf_cube) (proto : Z) : bool :=
  (r_lo (c_proto c) =? proto) && (r_hi (c_proto c) =? proto).

Definition cube_has_header (c : pf_cube) (f : FIELD) : bool :=
  match f with
  | FIELD_IP_TTL | FIELD_IP_PROTOCOL | FIELD_IP_SRCADDR | FIELD_IP_DSTADDR => c_ver c =? 4
  | FIELD_IPV6_HOPLIMIT | FIELD_IPV6_SRCADDR | FIELD_IPV6_DSTADDR => c_ver c =? 6
  | FIELD_TCP_SRCPORT | FIELD_TCP_DSTPORT | FIELD_TCP_SYN | FIELD_TCP_ACK | FIELD_TCP_FIN
  | FIELD_TCP_RST | FIELD_TCP_PSH | FIELD_TCP_URG => cube_proto_is c IPPROTO_TCP
  | FIELD_UDP_SRCPORT | FIELD_UDP_DSTPORT => cube_proto_is c IPPROTO_UDP
  | FIELD_ICMP_TYPE | FIELD_ICMP_CODE => (c_ver c =? 4) && cube_proto_is c IPPROTO_ICMP
  | FIELD_ICMPV6_TYPE | FIELD_ICMPV6_CODE => (c_ver c =? 6) && cube_proto_is c IPPROTO_ICMPV6
  | _ => false
  end.

(** [cube_set_ver(c, ver) && cube_set_proto(c, proto)]. *)
Definition set_ver_proto (c : pf_cube) (ver proto : Z) : option pf_cube :=
  match cube_set_ver c ver with None => None | Some c => cube_set_proto c proto end.

Definition cube_require_header (c : pf_cube) (f : FIELD) : option pf_cube :=
  match f with
  | FIELD_IP_HDRLENGTH | FIELD_IP_TOS | FIELD_IP_LENGTH | FIELD_IP_ID | FIELD_IP_DF
  | FIELD_IP_MF | FIELD_IP_FRAGOFF | FIELD_IP_TTL | FIELD_IP_PROTOCOL | FIELD_IP_CHECKSUM
  | FIELD_IP_SRCADDR | FIELD_IP_DSTADDR => cube_set_ver c 4
  | FIELD_IPV6_TRAFFICCLASS | FIELD_IPV6_FLOWLABEL | FIELD_IPV6_LENGTH | FIELD_IPV6_NEXTHDR
  | FIELD_IPV6_HOPLIMIT | FIELD_IPV6_SRCADDR | FIELD_IPV6_DSTADDR => cube_set_ver c 6
  | FIELD_ICMP_TYPE | FIELD_ICMP_CODE | FIELD_ICMP_CHECKSUM | FIELD_ICMP_BODY =>
    set_ver_proto c 4 IPPROTO_ICMP
  | FIELD_ICMPV6_TYPE | FIELD_ICMPV6_CODE | FIELD_ICMPV6_CHECKSUM | FIELD_ICMPV6_BODY =>
    set_ver_proto c 6 IPPROTO_ICMPV6
  | FIELD_TCP_SRCPORT | FIELD_TCP_DSTPORT | FIELD_TCP_SEQNUM | FIELD_TCP_ACKNUM
  | FIELD_TCP_HDRLENGTH | FIELD_TCP_URG | FIELD_TCP_ACK | FIELD_TCP_PSH | FIELD_TCP_RST
  | FIELD_TCP_SYN | FIELD_TCP_FIN | FIELD_TCP_WINDOW | FIELD_TCP_CHECKSUM | FIELD_TCP_URGPTR
  | FIELD_TCP_PAYLOAD | FIELD_TCP_PAYLOAD16 | FIELD_TCP_PAYLOAD32 | FIELD_TCP_PAYLOADLENGTH =>
    cube_set_proto c IPPROTO_TCP
  | FIELD_UDP_SRCPORT | FIELD_UDP_DSTPORT | FIELD_UDP_LENGTH | FIELD_UDP_CHECKSUM
  | FIELD_UDP_PAYLOAD | FIELD_UDP_PAYLOAD16 | FIELD_UDP_PAYLOAD32 | FIELD_UDP_PAYLOADLENGTH =>
    cube_set_proto c IPPROTO_UDP
  | _ => Some c
  end.

(** [apply_bool]: the new slot, or [None] when infeasible. *)
Definition apply_bool (slot : Z) (t : TEST) (arg : Z) (ng : bool) : option Z :=
  let cmp0 := if ng then 1 else if 0 <? arg then -1 else if 0 =? arg then 0 else 1 in
  let cmp1 := if ng then 1 else if 1 <? arg then -1 else if 1 =? arg then 0 else 1 in
  let can0 := test_result t cmp0 in
  let can1 := test_result t cmp1 in
  if negb can0 && negb can1 then None
  else if can0 && can1 then Some slot
  else
    let want := b2z can1 in
    if (slot >=? 0) && negb (slot =? want) then None else Some want.

Definition zero_test (t : TEST) (arg : Z) (ng : bool) : bool :=
  test_result t (if arg =? 0 then 0 else if ng then 1 else -1).

Definition opt_list {A} (o : option A) : list A := match o with Some a => [a] | None => [] end.

(** [range_apply] on one member of the cube. *)
Definition apply_proto (c : pf_cube) (t : TEST) (arg : Z) : option pf_cube :=
  option_map (with_proto c) (range_apply (c_proto c) t arg 255 (c_exact c)).
Definition apply_sport (c : pf_cube) (t : TEST) (arg : Z) : option pf_cube :=
  option_map (with_sport c) (range_apply (c_sport c) t arg 65535 (c_exact c)).
Definition apply_dport (c : pf_cube) (t : TEST) (arg : Z) : option pf_cube :=
  option_map (with_dport c) (range_apply (c_dport c) t arg 65535 (c_exact c)).
Definition apply_ttl (c : pf_cube) (t : TEST) (arg : Z) : option pf_cube :=
  option_map (with_ttl c) (range_apply (c_ttl c) t arg 255 (c_exact c)).
Definition apply_event (c : pf_cube) (t : TEST) (arg : Z) : option pf_cube :=
  option_map (with_event c) (range_apply (c_event c) t arg 15 (c_exact c)).
Definition apply_pid (c : pf_cube) (t : TEST) (arg : Z) : option pf_cube :=
  option_map (with_pid c) (range_apply (c_pid c) t arg 0xFFFFFFFF (c_exact c)).
Definition apply_src (c : pf_cube) (t : TEST) (arg : u128) : option pf_cube :=
  option_map (with_src c) (addr_apply (c_src c) t arg (c_exact c)).
Definition apply_dst (c : pf_cube) (t : TEST) (arg : u128) : option pf_cube :=
  option_map (with_dst c) (addr_apply (c_dst c) t arg (c_exact c)).

(** [ok = !neg && ...]. *)
Definition unless {A} (b : bool) (o : option A) : option A := if b then None else o.

(** [pf_absent]: the cubes meaning "the header behind the field is absent";
    [None] when there is no representable header condition. *)
Definition absent_proto (c : pf_cube) (proto : Z) : list pf_cube :=
  opt_list (apply_proto c TEST_NEQ proto).

Definition absent_ver_proto (c : pf_cube) (proto ver alt_ver : Z) : list pf_cube :=
  opt_list (cube_set_ver c alt_ver) ++
  match cube_set_ver c ver with None => [] | Some c => absent_proto c proto end.

Definition pf_absent (c : pf_cube) (f : FIELD) : option (list pf_cube) :=
  match f with
  | FIELD_IP_TTL | FIELD_IP_PROTOCOL | FIELD_IP_SRCADDR | FIELD_IP_DSTADDR =>
    Some (opt_list (cube_set_ver c 6))
  | FIELD_IPV6_HOPLIMIT | FIELD_IPV6_SRCADDR | FIELD_IPV6_DSTADDR =>
    Some (opt_list (cube_set_ver c 4))
  | FIELD_TCP_SRCPORT | FIELD_TCP_DSTPORT | FIELD_TCP_SYN | FIELD_TCP_ACK | FIELD_TCP_FIN
  | FIELD_TCP_RST | FIELD_TCP_PSH | FIELD_TCP_URG => Some (absent_proto c IPPROTO_TCP)
  | FIELD_UDP_SRCPORT | FIELD_UDP_DSTPORT => Some (absent_proto c IPPROTO_UDP)
  | FIELD_ICMP_TYPE | FIELD_ICMP_CODE => Some (absent_ver_proto c IPPROTO_ICMP 4 6)
  | FIELD_ICMPV6_TYPE | FIELD_ICMPV6_CODE => Some (absent_ver_proto c IPPROTO_ICMPV6 6 4)
  | _ => None
  end.

(** [pf_branch_event]: FLOW and SOCKET filters. *)
Definition branch_event (i : WINDIVERT_FILTER) (positive : bool) (c : pf_cube) : list pf_cube :=
  let t := if positive then test i else negate_test (test i) in
  let arg0 := w0 (arg i) in
  opt_list
    match field i with
    | FIELD_EVENT => unless (neg i) (apply_event c t arg0)
    | FIELD_PROCESSID => unless (neg i) (apply_pid c t arg0)
    | FIELD_PROTOCOL => unless (neg i) (apply_proto c t arg0)
    | FIELD_LOCALPORT => unless (neg i) (apply_sport c t arg0)
    | FIELD_REMOTEPORT => unless (neg i) (apply_dport c t arg0)
    | FIELD_LOCALADDR => unless (neg i) (apply_src c t (arg i))
    | FIELD_REMOTEADDR => unless (neg i) (apply_dst c t (arg i))
    | FIELD_IP | FIELD_IPV6 => if zero_test t arg0 (neg i) then Some c else None
    | FIELD_TCP | FIELD_UDP =>
      let proto := match field i with FIELD_TCP => IPPROTO_TCP | _ => IPPROTO_UDP end in
      match apply_bool (-1) t arg0 (neg i) with
      | None => None
      | Some slot =>
        if slot >=? 0 then
          apply_proto c (if negb (slot =? 0) then TEST_EQ else TEST_NEQ) proto
        else Some c
      end
    | _ => Some (with_exact c false)
    end.

(** *** Cases of the [switch] of [pf_branch] *)

Definition branch_dir (c : pf_cube) (want_in : bool) (t : TEST) (arg : Z) (ng : bool)
    : option pf_cube :=
  let out := if c_dir c =? 0 then -1 else b2z (c_dir c =? 2) in
  let slot := if out <? 0 then -1 else if want_in then b2z (out =? 0) else out in
  match apply_bool slot t arg ng with
  | None => None
  | Some slot =>
    if slot >=? 0 then
      Some (with_dir c (if want_in then (if slot =? 0 then 2 else 1)
                        else (if slot =? 0 then 1 else 2)))
    else Some c
  end.

Definition branch_ver (c : pf_cube) (is4 : bool) (t : TEST) (arg : Z) (ng : bool)
    : option pf_cube :=
  let slot := if c_ver c =? 0 then -1 else b2z (c_ver c =? (if is4 then 4 else 6)) in
  match apply_bool slot t arg ng with
  | None => None
  | Some slot =>
    if slot >=? 0 then cube_set_ver c (if slot =? b2z is4 then 4 else 6) else Some c
  end.

(** [tcp], [udp], [icmp], [icmpv6]; [ver] is 0 for the first two. *)
Definition branch_proto (c : pf_cube) (proto ver : Z) (t : TEST) (arg : Z) (ng : bool)
    : list pf_cube :=
  match apply_bool (-1) t arg ng with
  | None => []
  | Some slot =>
    if slot <? 0 then [c]
    else if negb (slot =? 0) then
      opt_list match cube_set_proto c proto with
               | None => None
               | Some c => if ver =? 0 then Some c else cube_set_ver c ver
               end
    else if negb (ver =? 0) then
      opt_list (cube_set_ver c (if ver =? 4 then 6 else 4)) ++
      match cube_set_ver c ver with None => [] | Some c => absent_proto c proto end
    else absent_proto c proto
  end.

Definition tcp_bit (f : FIELD) : Z :=
  match f with
  | FIELD_TCP_FIN => 0x01
  | FIELD_TCP_SYN => 0x02
  | FIELD_TCP_RST => 0x04
  | FIELD_TCP_PSH => 0x08
  | FIELD_TCP_ACK => 0x10
  | _ => 0x20
  end.

Definition branch_flag (c : pf_cube) (bit : Z) (t : TEST) (arg : Z) (ng : bool)
    : option pf_cube :=
  let slot := if has (c_tcp_mask c) bit then b2z (has (c_tcp_flags c) bit) else -1 in
  match apply_bool slot t arg ng with
  | None => None
  | Some slot =>
    if slot >=? 0 then
      Some (with_flags c (u8 (Z.ldiff (c_tcp_flags c) bit ||| (if slot =? 0 then 0 else bit)))
              (c_tcp_mask c ||| bit))
    else Some c
  end.

(** The value of an IPv4 address field is [::ffff:a.b.c.d]. *)
Definition clamp4 (a : pf_addr) : pf_addr :=
  mkAddr (if cmp128 (ad_lo a) lo4 <? 0 then lo4 else ad_lo a)
         (if cmp128 (ad_hi a) hi4 >? 0 then hi4 else ad_hi a) (ad_excl a) (has_excl a).

Definition branch_addr (c : pf_cube) (is_src is_v4 : bool) (t : TEST) (arg : u128)
    : option pf_cube :=
  if is_src then
    apply_src (if is_v4 then with_src c (clamp4 (c_src c), c_exact c) else c) t arg
  else
    apply_dst (if is_v4 then with_dst c (clamp4 (c_dst c), c_exact c) else c) t arg.

(** One direction [d] of a [local*]/[remote*] address test. *)
Definition local_addr (c : pf_cube) (positive use_src : bool) (t : TEST) (arg : u128)
    : list pf_cube :=
  if negb positive && (c_ver c =? 0) then [with_exact c false]
  else
    match (if use_src then apply_src c t arg else apply_dst c t arg) with
    | None => []
    | Some alt =>
      if c_ver c =? 0 then
        match t with
        | TEST_EQ => [with_ver alt (if is_mapped_ipv4 arg then 4 else 6)]
        | _ => [if use_src then with_src alt (addr_full, false)
                else with_dst alt (addr_full, false)]
        end
      else [alt]
    end.

Definition local_port (c : pf_cube) (use_src : bool) (t : TEST) (arg : Z) : list pf_cube :=
  opt_list (if use_src then apply_sport c t arg else apply_dport c t arg).

(** [for (d = 1; d <= 2; d++)]. *)
Definition by_direction (c : pf_cube) (local : bool) (k : pf_cube -> bool -> list pf_cube)
    : list pf_cube :=
  flat_map (fun d =>
    if negb (c_dir c =? 0) && negb (c_dir c =? d) then []
    else k (with_dir c d) (if local then d =? 2 else d =? 1)) [1; 2].

(** The split into TCP, UDP and the rest of a [local*]/[remote*] port test;
    [rec] is the recursive call. *)
Definition split_ports (c : pf_cube) (rec : pf_cube -> list pf_cube) : list pf_cube :=
  flat_map (fun proto => match cube_set_proto c proto with None => [] | Some alt => rec alt end)
    [IPPROTO_TCP; IPPROTO_UDP] ++
  match apply_proto c TEST_NEQ IPPROTO_TCP with
  | None => []
  | Some alt =>
    match apply_proto alt TEST_NEQ IPPROTO_UDP with
    | None => []
    | Some alt => [with_exact alt false]
    end
  end.

Definition branch_local (i : WINDIVERT_FILTER) (positive local is_addr : bool) (t : TEST)
    (c : pf_cube) (rec : pf_cube -> list pf_cube) : list pf_cube :=
  if neg i then []
  else if negb is_addr && negb (cube_proto_is c IPPROTO_TCP) && negb (cube_proto_is c IPPROTO_UDP)
  then split_ports c rec
  else if is_addr then
    by_direction c local (fun alt use_src => local_addr alt positive use_src t (arg i))
  else by_direction c local (fun alt use_src => local_port alt use_src t (w0 (arg i))).

(** The [switch (field)] of [pf_branch], after the header conditions. *)
Definition branch_switch (i : WINDIVERT_FILTER) (positive : bool) (t : TEST) (c : pf_cube)
    (rec : pf_cube -> list pf_cube) : list pf_cube :=
  let arg0 := w0 (arg i) in
  match field i with
  | FIELD_EVENT => if zero_test t arg0 (neg i) then [c] else []
  | FIELD_INBOUND => opt_list (branch_dir c true t arg0 (neg i))
  | FIELD_OUTBOUND => opt_list (branch_dir c false t arg0 (neg i))
  | FIELD_LOOPBACK =>
    opt_list (option_map (with_loopback c) (apply_bool (c_loopback c) t arg0 (neg i)))
  | FIELD_IP => opt_list (branch_ver c true t arg0 (neg i))
  | FIELD_IPV6 => opt_list (branch_ver c false t arg0 (neg i))
  | FIELD_TCP => branch_proto c IPPROTO_TCP 0 t arg0 (neg i)
  | FIELD_UDP => branch_proto c IPPROTO_UDP 0 t arg0 (neg i)
  | FIELD_ICMP => branch_proto c IPPROTO_ICMP 4 t arg0 (neg i)
  | FIELD_ICMPV6 => branch_proto c IPPROTO_ICMPV6 6 t arg0 (neg i)
  | FIELD_IP_PROTOCOL => opt_list (unless (neg i) (apply_proto c t arg0))
  | FIELD_IP_TTL | FIELD_IPV6_HOPLIMIT =>
    match t with
    | TEST_EQ | TEST_NEQ => opt_list (unless (neg i) (apply_ttl c t arg0))
    | _ => [with_exact c false]
    end
  | FIELD_TCP_SRCPORT | FIELD_UDP_SRCPORT | FIELD_ICMP_TYPE | FIELD_ICMPV6_TYPE =>
    opt_list (unless (neg i) (apply_sport c t arg0))
  | FIELD_TCP_DSTPORT | FIELD_UDP_DSTPORT | FIELD_ICMP_CODE | FIELD_ICMPV6_CODE =>
    opt_list (unless (neg i) (apply_dport c t arg0))
  | FIELD_TCP_URG | FIELD_TCP_ACK | FIELD_TCP_PSH | FIELD_TCP_RST | FIELD_TCP_SYN
  | FIELD_TCP_FIN => opt_list (branch_flag c (tcp_bit (field i)) t arg0 (neg i))
  | FIELD_IP_SRCADDR => opt_list (unless (neg i) (branch_addr c true true t (arg i)))
  | FIELD_IP_DSTADDR => opt_list (unless (neg i) (branch_addr c false true t (arg i)))
  | FIELD_IPV6_SRCADDR => opt_list (unless (neg i) (branch_addr c true false t (arg i)))
  | FIELD_IPV6_DSTADDR => opt_list (unless (neg i) (branch_addr c false false t (arg i)))
  | FIELD_LOCALADDR => branch_local i positive true true t c rec
  | FIELD_REMOTEADDR => branch_local i positive false true t c rec
  | FIELD_LOCALPORT => branch_local i positive true false t c rec
  | FIELD_REMOTEPORT => branch_local i positive false false t c rec
  | _ => [with_exact c false]
  end.

(** Fields that always evaluate. *)
Definition presence_field (f : FIELD) : bool :=
  match f with
  | FIELD_INBOUND | FIELD_OUTBOUND | FIELD_LOOPBACK | FIELD_IP | FIELD_IPV6 | FIELD_TCP
  | FIELD_UDP | FIELD_ICMP | FIELD_ICMPV6 | FIELD_EVENT => true
  | _ => false
  end.

(** [pf_branch] on the network layers.  It calls itself once, on cubes whose
    protocol is TCP or UDP, which do not split again: two levels of fuel. *)
Fixpoint branch_network (fuel : nat) (i : WINDIVERT_FILTER) (positive : bool) (c : pf_cube)
    : list pf_cube :=
  match fuel with
  | O => []
  | S fuel =>
    let rec := branch_network fuel i positive in
    if positive then
      match cube_require_header c (field i) with
      | None => []
      | Some c => branch_switch i positive (test i) c rec
      end
    else if negb (presence_field (field i)) && negb (cube_has_header c (field i)) then
      match pf_absent c (field i) with
      | None => [with_exact c false]
      | Some l =>
        l ++ match cube_require_header c (field i) with
             | None => []
             | Some c => branch_switch i positive (negate_test (test i)) c rec
             end
      end
    else branch_switch i positive (negate_test (test i)) c rec
  end.

Definition pf_branch (event_mode : bool) (i : WINDIVERT_FILTER) (positive : bool) (c : pf_cube)
    : list pf_cube :=
  match field i with
  | FIELD_ZERO => if Bool.eqb (zero_test (test i) (w0 (arg i)) (neg i)) positive then [c] else []
  | _ => if event_mode then branch_event i positive c else branch_network 2 i positive c
  end.

(** ** The walk *)

Record pf_ctx : Set := mkCtx {
  x_obj : list WINDIVERT_FILTER;
  x_cubes : list pf_cube;
  x_states : Z;
  x_overflow : bool;
  x_event_mode : bool
}.

Definition ctx_overflow (x : pf_ctx) (states : Z) : pf_ctx :=
  mkCtx (x_obj x) (x_cubes x) states true (x_event_mode x).

Definition pf_emit (x : pf_ctx) (c : pf_cube) : pf_ctx :=
  if zlen (x_cubes x) >=? PF_MAX_CUBES then ctx_overflow x (x_states x)
  else mkCtx (x_obj x) (x_cubes x ++ [c]) (x_states x) (x_overflow x) (x_event_mode x).

Definition pf_continue (walk : pf_ctx -> Z -> pf_cube -> pf_ctx) (next : Z) (x : pf_ctx)
    (c : pf_cube) : pf_ctx :=
  if next =? WINDIVERT_FILTER_RESULT_ACCEPT then pf_emit x c
  else if negb (next =? WINDIVERT_FILTER_RESULT_REJECT) then walk x next c
  else x.

(** Every call that goes on increments [states], so [PF_MAX_STATES + 1] nested
    calls are the most there can be: the overflow without fuel is not reached
    ([PfWalk.walk_terminates]). *)
Fixpoint pf_walk (fuel : nat) (x : pf_ctx) (ip : Z) (c : pf_cube) : pf_ctx :=
  match fuel with
  | O => ctx_overflow x (x_states x)
  | S fuel =>
    if x_overflow x then x
    else
      match nth_error (x_obj x) (Z.to_nat ip) with
      | None => ctx_overflow x (x_states x)
      | Some i =>
        let states := x_states x + 1 in
        if states >? PF_MAX_STATES then ctx_overflow x states
        else
          let x := mkCtx (x_obj x) (x_cubes x) states (x_overflow x) (x_event_mode x) in
          let x := fold_left (pf_continue (pf_walk fuel) (u16 (success i)))
                     (pf_branch (x_event_mode x) i true c) x in
          fold_left (pf_continue (pf_walk fuel) (u16 (failure i)))
            (pf_branch (x_event_mode x) i false c) x
      end
  end.

Definition walk_fuel : nat := Z.to_nat (PF_MAX_STATES + 1).

(** The walk [pf_lower] and [pf_lower_events] start from the full cube. *)
Definition pf_run (event_mode : bool) (obj : list WINDIVERT_FILTER) : pf_ctx :=
  let x := mkCtx obj [] 0 false event_mode in
  if zlen obj >? 0 then pf_walk walk_fuel x 0 cube_init else x.

(** ** Packets as the kernel sees them, [struct pf_pkt] *)
Record pf_pkt : Set := mkPkt {
  k_ver : Z;
  k_src : u128;
  k_dst : u128;
  k_sport : Z;
  k_dport : Z;
  k_proto : Z;
  k_direction : Z;
  k_loopback : Z;
  k_ttl : Z;
  k_tcp_flags : Z
}.

(** Membership of a packet in a cube of the network layers. *)
Definition cube_mem (c : pf_cube) (k : pf_pkt) : bool :=
  ((c_ver c =? 0) || (c_ver c =? k_ver k)) &&
  ((c_dir c =? 0) || (c_dir c =? k_direction k)) &&
  ((c_loopback c <? 0) || (c_loopback c =? k_loopback k)) &&
  range_contains (c_proto c) (k_proto k) && range_contains (c_sport c) (k_sport k) &&
  range_contains (c_dport c) (k_dport k) && range_contains (c_ttl c) (k_ttl k) &&
  addr_contains (c_src c) (val128 (k_src k)) && addr_contains (c_dst c) (val128 (k_dst k)) &&
  ((k_tcp_flags k &&& c_tcp_mask c) =? c_tcp_flags c).
