(* ===== verification/PfBranch.v ===== *)
(** * One instruction: what [pf_branch] does to a cube

    For a packet the kernel and the evaluator agree on, the cubes
    [pf_branch] continues with contain the packet whenever the cube did and
    the instruction takes that branch; and an exact cube among them contains
    the packet only then. *)

From Stdlib Require Import ZArith List Bool Lia ZifyBool Btauto.
From S2P Require Import Prelude WdTypes WdPacket WdHash WdExec PfRange PfAddr PfCube.
Import ListNotations.

(** ** Agreement of the two views of a packet

    [k] is the packet as the BPF program parsed it, [a] the arguments of the
    evaluator.  The record says the same headers were found and the same
    values read. *)
Record agrees (a : exec_args) (k : pf_pkt) : Prop := {
  ag_layer : a_layer a = LAYER_NETWORK \/ a_layer a = LAYER_NETWORK_FORWARD;
  ag_event : a_event a = 0;
  ag_dir : a_layer a = LAYER_NETWORK -> k_direction k = if a_outbound a then 2 else 1;
  ag_loopback : k_loopback k = b2z (a_loopback a);
  ag_family : k_ver k = 4 /\ a_ip_header a <> None /\ a_ipv6_header a = None \/
              k_ver k = 6 /\ a_ip_header a = None /\ a_ipv6_header a <> None;
  ag_tcp : non_null (a_tcp_header a) = (k_proto k =? IPPROTO_TCP);
  ag_udp : non_null (a_udp_header a) = (k_proto k =? IPPROTO_UDP);
  ag_icmp : non_null (a_icmp_header a) = (k_ver k =? 4) && (k_proto k =? IPPROTO_ICMP);
  ag_icmpv6 : non_null (a_icmpv6_header a) = (k_ver k =? 6) && (k_proto k =? IPPROTO_ICMPV6);
  ag_ip : forall h, a_ip_header a = Some h ->
    ip_TTL (a_packet a) h = k_ttl k /\ ip_Protocol (a_packet a) h = k_proto k /\
    k_src k = W128 (ntohl (ip_SrcAddr (a_packet a) h)) 0x0000FFFF 0 0 /\
    k_dst k = W128 (ntohl (ip_DstAddr (a_packet a) h)) 0x0000FFFF 0 0;
  ag_ipv6 : forall h, a_ipv6_header a = Some h ->
    ipv6_HopLimit (a_packet a) h = k_ttl k /\
    k_src k = W128 (ntohl (ipv6_SrcAddr (a_packet a) h 3)) (ntohl (ipv6_SrcAddr (a_packet a) h 2))
                (ntohl (ipv6_SrcAddr (a_packet a) h 1)) (ntohl (ipv6_SrcAddr (a_packet a) h 0)) /\
    k_dst k = W128 (ntohl (ipv6_DstAddr (a_packet a) h 3)) (ntohl (ipv6_DstAddr (a_packet a) h 2))
                (ntohl (ipv6_DstAddr (a_packet a) h 1)) (ntohl (ipv6_DstAddr (a_packet a) h 0));
  ag_tcp_ports : forall h, a_tcp_header a = Some h ->
    ntohs (tcp_SrcPort (a_packet a) h) = k_sport k /\ ntohs (tcp_DstPort (a_packet a) h) = k_dport k;
  ag_tcp_flags : forall h n, a_tcp_header a = Some h -> 0 <= n < 6 ->
    tcp_flag (a_packet a) h n = b2z (Z.testbit (k_tcp_flags k) n);
  ag_udp_ports : forall h, a_udp_header a = Some h ->
    ntohs (udp_SrcPort (a_packet a) h) = k_sport k /\ ntohs (udp_DstPort (a_packet a) h) = k_dport k;
  ag_icmp_type : forall h, a_icmp_header a = Some h \/ a_icmpv6_header a = Some h ->
    icmp_Type (a_packet a) h = k_sport k /\ icmp_Code (a_packet a) h = k_dport k;
  ag_range : 0 <= k_proto k <= 255 /\ 0 <= k_sport k <= 65535 /\ 0 <= k_dport k <= 65535 /\
             0 <= k_ttl k <= 255;
  ag_addr : wf128 (k_src k) /\ wf128 (k_dst k)
}.

(** IPv4-mapped source or destination in an IPv6 header: the lowering of
    [localAddr] and [remoteAddr] assumes there is none. *)
Definition no_mapped (k : pf_pkt) : Prop :=
  k_ver k = 6 -> is_mapped_ipv4 (k_src k) = false /\ is_mapped_ipv4 (k_dst k) = false.

Definition is_local_addr (f : FIELD) : bool :=
  match f with FIELD_LOCALADDR | FIELD_REMOTEADDR => true | _ => false end.

(** Address fields an IPv6 packet can be tested with. *)
Definition is_ipv6_addr (f : FIELD) : bool :=
  match f with
  | FIELD_IPV6_SRCADDR | FIELD_IPV6_DSTADDR | FIELD_LOCALADDR | FIELD_REMOTEADDR => true
  | _ => false
  end.

(** [::ffff:0.0.0.0] or the address before it: with such a lower bound an
    IPv6 range can look like the whole IPv4 range to [encode_addr]. *)
Definition edge4 (a : u128) : bool :=
  (val128 a =? val128 lo4) || (val128 a =? val128 lo4 - 1).

(** Fields the rules constrain with a numeric argument. *)
Definition numeric_field (f : FIELD) : bool :=
  match f with
  | FIELD_IP_PROTOCOL | FIELD_IP_TTL | FIELD_IPV6_HOPLIMIT | FIELD_TCP_SRCPORT
  | FIELD_UDP_SRCPORT | FIELD_ICMP_TYPE | FIELD_ICMPV6_TYPE | FIELD_TCP_DSTPORT
  | FIELD_UDP_DSTPORT | FIELD_ICMP_CODE | FIELD_ICMPV6_CODE | FIELD_IP_SRCADDR
  | FIELD_IP_DSTADDR | FIELD_IPV6_SRCADDR | FIELD_IPV6_DSTADDR | FIELD_LOCALADDR
  | FIELD_REMOTEADDR | FIELD_LOCALPORT | FIELD_REMOTEPORT | FIELD_ZERO | FIELD_EVENT => true
  | _ => false
  end.

(** Conditions on an instruction under which it is lowered faithfully: no
    negative argument where the field is never negative, a mapped IPv4
    argument where an IPv4 packet is tested with [localAddr]/[remoteAddr],
    and no edge of the mapped range where an IPv6 address is tested. *)
Definition lowerable (v4 : bool) (i : WINDIVERT_FILTER) : bool :=
  arg_ok (arg i) && negb (numeric_field (field i) && neg i) &&
  negb (v4 && is_local_addr (field i) && negb (is_mapped_ipv4 (arg i))) &&
  negb (negb v4 && is_ipv6_addr (field i) && edge4 (arg i)).

(** The branch the evaluator takes. *)
Definition holds (a : exec_args) (i : WINDIVERT_FILTER) : bool :=
  match exec_insn a i with OResult b => b | _ => false end.

(** ** Cube invariant *)

(** Bounds an IPv4 rule can encode: untouched, or next to the mapped range. *)
Definition addr4_ok (a : pf_addr) : Prop :=
  (val128 (ad_lo a) = 0 \/ val128 lo4 <= val128 (ad_lo a) <= val128 hi4 + 1) /\
  (val128 (ad_hi a) = 2 ^ 128 - 1 \/ val128 lo4 - 1 <= val128 (ad_hi a) <= val128 hi4) /\
  (has_excl a = true -> val128 lo4 <= val128 (ad_excl a) <= val128 hi4).

Record cube_wf (c : pf_cube) : Prop := {
  cw_ver : c_ver c = 0 \/ c_ver c = 4 \/ c_ver c = 6;
  cw_dir : c_dir c = 0 \/ c_dir c = 1 \/ c_dir c = 2;
  cw_loopback : -1 <= c_loopback c <= 1;
  cw_proto : range_wf 255 (c_proto c);
  cw_sport : range_wf 65535 (c_sport c);
  cw_dport : range_wf 65535 (c_dport c);
  cw_ttl : range_wf 255 (c_ttl c);
  cw_src : addr_wf (c_src c);
  cw_dst : addr_wf (c_dst c);
  cw_mask : 0 <= c_tcp_mask c < 64;
  cw_flags : Z.land (c_tcp_flags c) (c_tcp_mask c) = c_tcp_flags c
}.

(** Bounds [encode_addr] does not mistake for the IPv4 range. *)
Definition addr6_ok (a : pf_addr) : Prop := val128 (ad_lo a) <> val128 lo4.

Definition addr_inv (v4 : bool) (a : pf_addr) : Prop := if v4 then addr4_ok a else addr6_ok a.

(** With the part on the addresses of the packet's family. *)
Definition cube_inv (v4 : bool) (c : pf_cube) : Prop :=
  cube_wf c /\
  (c_ver c <> (if v4 then 6 else 4) -> addr_inv v4 (c_src c) /\ addr_inv v4 (c_dst c)).

(** ** Specification of a list of continuations *)

Section Covers.
Variable inv : pf_cube -> Prop.
Variable mem : pf_cube -> bool.

(** [l] are the cubes [c] continues with under the condition [P]. *)
Definition covers (c : pf_cube) (P : bool) (l : list pf_cube) : Prop :=
  (mem c = true -> P = true -> exists d, In d l /\ mem d = true) /\
  (forall d, In d l -> inv d /\
     (c_exact d = true -> mem d = true ->
      c_exact c = true /\ mem c = true /\ P = true)).

Lemma covers_nil c P : (mem c = true -> P = false) -> covers c P [].
Proof. intros H. split; [intros Hc Hp; rewrite H in Hp; [discriminate|exact Hc]|intros d []]. Qed.

Lemma covers_one c P d : inv d ->
  (mem c = true -> P = true -> mem d = true) ->
  (c_exact d = true -> mem d = true -> c_exact c = true /\ mem c = true /\ P = true) ->
  covers c P [d].
Proof.
  intros I S X. split.
  - intros Hc Hp. exists d. split; [now left|auto].
  - intros e [<-|[]]. auto.
Qed.

Lemma covers_same c P : inv c -> (mem c = true -> P = true) -> covers c P [c].
Proof. intros I H. apply covers_one; auto. Qed.

Lemma covers_ext c P Q l : covers c P l -> (mem c = true -> P = Q) -> covers c Q l.
Proof.
  intros [S X] E. split.
  - intros Hc Hq. rewrite <- E in Hq by exact Hc. auto.
  - intros d Hd. destruct (X d Hd) as [I Y]. split; [exact I|]. intros He Hm.
    destruct (Y He Hm) as (? & Hc & ?). rewrite <- E by exact Hc. auto.
Qed.

Lemma covers_app c P Q l m : covers c P l -> covers c Q m -> covers c (P || Q) (l ++ m).
Proof.
  intros [S1 X1] [S2 X2]. split.
  - intros Hc Hp. apply orb_true_iff in Hp.
    destruct Hp as [Hp|Hp]; [destruct (S1 Hc Hp) as (d & ? & ?)|destruct (S2 Hc Hp) as (d & ? & ?)];
      exists d; rewrite in_app_iff; auto.
  - intros d Hd. apply in_app_iff in Hd. destruct Hd as [Hd|Hd].
    + destruct (X1 d Hd) as [I Y]. split; [exact I|]. intros He Hm.
      destruct (Y He Hm) as (? & ? & ->). auto.
    + destruct (X2 d Hd) as [I Y]. split; [exact I|]. intros He Hm.
      destruct (Y He Hm) as (? & ? & ->). rewrite orb_true_r. auto.
Qed.

Lemma covers_bind c P Q l f : covers c P l ->
  (forall d, In d l -> inv d -> covers d Q (f d)) ->
  covers c (P && Q) (flat_map f l).
Proof.
  intros [S X] F. split.
  - intros Hc Hp. apply andb_true_iff in Hp. destruct Hp as [Hp Hq].
    destruct (S Hc Hp) as (d & Hd & Hm). destruct (F d Hd) as [S' _]; [now apply X|].
    destruct (S' Hm Hq) as (e & He & Hem). exists e. split; [|exact Hem].
    apply in_flat_map. eauto.
  - intros e He. apply in_flat_map in He. destruct He as (d & Hd & He).
    destruct (X d Hd) as [I Y]. destruct (F d Hd I) as [_ X'].
    destruct (X' e He) as [I' Y']. split; [exact I'|]. intros Hx Hm.
    destruct (Y' Hx Hm) as (Hx' & Hm' & ->). destruct (Y Hx' Hm') as (? & ? & ->). auto.
Qed.

Lemma covers_bind_opt c P Q o f : covers c P (opt_list o) ->
  (forall d, o = Some d -> inv d -> covers d Q (f d)) ->
  covers c (P && Q) (match o with None => [] | Some d => f d end).
Proof.
  intros H F. replace (match o with None => [] | Some d => f d end) with (flat_map f (opt_list o))
    by (destruct o; cbn; now rewrite ?app_nil_r).
  apply covers_bind; [exact H|]. destruct o; cbn; [|intros ? []]. intros d [->|[]]. auto.
Qed.

(** Widening: the cube, no longer exact. *)
Lemma covers_widen c P : inv (with_exact c false) -> mem (with_exact c false) = mem c ->
  covers c P [with_exact c false].
Proof. intros I M. apply covers_one; [exact I|now rewrite M|discriminate]. Qed.

(** Change a cube into one with the same members and the same exactness. *)
Lemma covers_equiv c c' P l : covers c' P l -> c_exact c' = c_exact c ->
  mem c' = mem c -> covers c P l.
Proof. intros H E M. unfold covers in *. now rewrite <- M, <- E. Qed.
(** Each cube of [l] continued on its own. *)
Lemma covers_concat c P Q l Es : covers c P l ->
  Forall2 (fun d E => covers d Q E) l Es -> covers c (P && Q) (concat Es).
Proof.
  intros [S X] F. split.
  - intros Hc Hp. apply andb_true_iff in Hp. destruct Hp as [Hp Hq].
    destruct (S Hc Hp) as (d & Hd & Hm). clear S X.
    induction F as [|d' E l Es [S' _] F IH]; [destruct Hd|]. destruct Hd as [->|Hd].
    + destruct (S' Hm Hq) as (e & He & Hem). exists e. cbn. rewrite in_app_iff. auto.
    + destruct (IH Hd) as (e & He & Hem). exists e. cbn. rewrite in_app_iff. auto.
  - intros e He. assert (G : exists d E, In d l /\ covers d Q E /\ In e E).
    { clear S X. induction F as [|d E l Es B F IH]; [destruct He|]. cbn in He.
      apply in_app_iff in He. destruct He as [He|He]; [exists d, E; cbn; auto|].
      destruct (IH He) as (d' & E' & ? & ?). exists d', E'. cbn. tauto. }
    destruct G as (d & E & Hd & [_ X'] & HeE). destruct (X' e HeE) as [I Y]. split; [exact I|].
    intros Hx Hm. destruct (Y Hx Hm) as (Hx' & Hm' & ->). destruct (X d Hd) as [_ Z].
    destruct (Z Hx' Hm') as (? & ? & ->). auto.
Qed.
End Covers.

(** For the packets of the network layers. *)
Definition branch_ok (v4 : bool) (k : pf_pkt) : pf_cube -> bool -> list pf_cube -> Prop :=
  covers (cube_inv v4) (fun c => cube_mem c k).

Section Branch.
Variable v4 : bool.
Variable k : pf_pkt.

Lemma branch_nil c P : (cube_mem c k = true -> P = false) -> branch_ok v4 k c P [].
Proof. exact (covers_nil _ _ c P). Qed.

Lemma branch_one c P d : cube_inv v4 d ->
  (cube_mem c k = true -> P = true -> cube_mem d k = true) ->
  (c_exact d = true -> cube_mem d k = true -> c_exact c = true /\ cube_mem c k = true /\ P = true) ->
  branch_ok v4 k c P [d].
Proof. exact (covers_one _ _ c P d). Qed.

Lemma branch_same c P : cube_inv v4 c -> (cube_mem c k = true -> P = true) -> branch_ok v4 k c P [c].
Proof. exact (covers_same _ _ c P). Qed.

Lemma branch_ext c P Q l : branch_ok v4 k c P l -> (cube_mem c k = true -> P = Q) -> branch_ok v4 k c Q l.
Proof. exact (covers_ext _ _ c P Q l). Qed.

Lemma branch_app c P Q l m : branch_ok v4 k c P l -> branch_ok v4 k c Q m -> branch_ok v4 k c (P || Q) (l ++ m).
Proof. exact (covers_app _ _ c P Q l m). Qed.

Lemma branch_bind c P Q l f : branch_ok v4 k c P l ->
  (forall d, In d l -> cube_inv v4 d -> branch_ok v4 k d Q (f d)) ->
  branch_ok v4 k c (P && Q) (flat_map f l).
Proof. exact (covers_bind _ _ c P Q l f). Qed.

Lemma branch_bind_opt c P Q o f : branch_ok v4 k c P (opt_list o) ->
  (forall d, o = Some d -> cube_inv v4 d -> branch_ok v4 k d Q (f d)) ->
  branch_ok v4 k c (P && Q) (match o with None => [] | Some d => f d end).
Proof. exact (covers_bind_opt _ _ c P Q o f). Qed.

Lemma branch_equiv c c' P l : branch_ok v4 k c' P l -> c_exact c' = c_exact c ->
  cube_mem c' k = cube_mem c k -> branch_ok v4 k c P l.
Proof. exact (covers_equiv _ _ c c' P l). Qed.

(** Widening: the cube, no longer exact. *)
Lemma branch_widen c P : cube_inv v4 c -> branch_ok v4 k c P [with_exact c false].
Proof. intros I. apply covers_widen; [|reflexivity]. destruct I as [[] ?]. split; [split|]; auto. Qed.
End Branch.

(** ** Members of a cube *)

#[global] Arguments cube_mem : simpl never.
#[global] Arguments test_z : simpl never.
#[global] Arguments addr_contains : simpl never.

(** Membership, conjunct by conjunct. *)
Record mem_spec (c : pf_cube) (k : pf_pkt) : Prop := {
  ms_ver : c_ver c = 0 \/ c_ver c = k_ver k;
  ms_dir : c_dir c = 0 \/ c_dir c = k_direction k;
  ms_loopback : c_loopback c < 0 \/ c_loopback c = k_loopback k;
  ms_proto : range_contains (c_proto c) (k_proto k) = true;
  ms_sport : range_contains (c_sport c) (k_sport k) = true;
  ms_dport : range_contains (c_dport c) (k_dport k) = true;
  ms_ttl : range_contains (c_ttl c) (k_ttl k) = true;
  ms_src : addr_contains (c_src c) (val128 (k_src k)) = true;
  ms_dst : addr_contains (c_dst c) (val128 (k_dst k)) = true;
  ms_flags : k_tcp_flags k &&& c_tcp_mask c = c_tcp_flags c
}.

Lemma cube_mem_spec c k : cube_mem c k = true <-> mem_spec c k.
Proof.
  unfold cube_mem. rewrite !andb_true_iff, !orb_true_iff, !Z.eqb_eq, Z.ltb_lt. split.
  - intros H. split; tauto.
  - intros []. tauto.
Qed.

(** Facts about a packet that every case below uses. *)
Record pkt_ok (v4 : bool) (k : pf_pkt) : Prop := {
  pk_range : 0 <= k_proto k <= 255 /\ 0 <= k_sport k <= 65535 /\
             0 <= k_dport k <= 65535 /\ 0 <= k_ttl k <= 255;
  pk_addr : wf128 (k_src k) /\ wf128 (k_dst k);
  pk_v4 : v4 = (k_ver k =? 4);
  pk_fam : k_ver k = 4 \/ k_ver k = 6;
  pk_mapped : is_mapped_ipv4 (k_src k) = (k_ver k =? 4) /\
              is_mapped_ipv4 (k_dst k) = (k_ver k =? 4)
}.

#[local] Set Default Proof Using "All".

Section Members.
Variable v4 : bool.
Variable k : pf_pkt.
Hypothesis Hk : pkt_ok v4 k.

(** Replace one range member; [R] is the lemma on [range_apply]. *)
Ltac member_range R :=
  let H := fresh "Hra" in let I4 := fresh "I4" in let Ha := fresh "Ha" in
  let r' := fresh "r'" in let e' := fresh "e'" in let He := fresh "He" in
  let W := fresh "W" in let Hs := fresh "Hs" in let Hx := fresh "Hx" in
  let Hy := fresh "Hy" in
  intros [[] I4] Ha; destruct (pk_range v4 k Hk) as (? & ? & ? & ?);
  match goal with
  | |- context [range_apply ?r ?t ?x ?max ?e] =>
      pose proof (fun W => R r t x e W Ha) as H; cbv beta in H;
      destruct (range_apply r t x max e) as [[r' e']|]; cbn [option_map opt_list]
  end;
  [ destruct H as (W & Hs & Hx); [assumption|]; apply branch_one;
    [ split; [split; cbn; assumption|exact I4]
    | rewrite !cube_mem_spec; intros [] ?; split; cbn; try assumption; apply Hs; assumption
    | cbn; rewrite !cube_mem_spec; intros He []; cbn in *; destruct (Hx He) as [? Hy];
      match goal with
      | M : range_contains r' ?v = true |- _ => destruct (Hy v ltac:(assumption) M)
      end; repeat split; assumption ]
  | apply branch_nil; rewrite cube_mem_spec; intros []; apply H; assumption ].

Lemma apply_proto_ok c t arg : cube_inv v4 c -> 0 <= arg ->
  branch_ok v4 k c (test_z t (k_proto k) arg) (opt_list (apply_proto c t arg)).
Proof. unfold apply_proto. member_range (range_apply_ok 255). Qed.

Lemma apply_sport_ok c t arg : cube_inv v4 c -> 0 <= arg ->
  branch_ok v4 k c (test_z t (k_sport k) arg) (opt_list (apply_sport c t arg)).
Proof. unfold apply_sport. member_range (range_apply_ok 65535). Qed.

Lemma apply_dport_ok c t arg : cube_inv v4 c -> 0 <= arg ->
  branch_ok v4 k c (test_z t (k_dport k) arg) (opt_list (apply_dport c t arg)).
Proof. unfold apply_dport. member_range (range_apply_ok 65535). Qed.

Lemma apply_ttl_ok c t arg : cube_inv v4 c -> 0 <= arg ->
  branch_ok v4 k c (test_z t (k_ttl k) arg) (opt_list (apply_ttl c t arg)).
Proof. unfold apply_ttl. member_range (range_apply_ok 255). Qed.

Lemma set_proto_ok c proto : cube_inv v4 c -> 0 <= proto ->
  branch_ok v4 k c (k_proto k =? proto) (opt_list (cube_set_proto c proto)).
Proof.
  intros Hc Hp. pose proof (apply_proto_ok c TEST_EQ proto Hc Hp) as H.
  unfold apply_proto, cube_set_proto in *. unfold test_z in H.
  assert (E : forall e, range_apply (c_proto c) TEST_EQ proto 255 e =
    option_map (fun re => (fst re, e)) (range_apply (c_proto c) TEST_EQ proto 255 true)).
  { intros e. unfold range_apply, range_clip. repeat case_if; reflexivity. }
  rewrite E in H. destruct (range_apply _ _ _ _ _) as [[r e]|]; exact H.
Qed.

(** Replace a member with two or three values: [m] and [m'] are the old and
    the new conjunct of the membership, [r] the rest of it. *)
Lemma branch_update c d P r m m' : cube_inv v4 d -> c_exact d = c_exact c ->
  cube_mem c k = r && m -> cube_mem d k = r && m' -> m && P = m' -> branch_ok v4 k c P [d].
Proof.
  intros I E Ec Ed Em. apply branch_one; [exact I| |]; rewrite ?E, Ec, Ed, <- Em;
    destruct r, m, P; cbn; auto.
Qed.

Lemma branch_empty c P r m : cube_mem c k = r && m -> m && P = false -> branch_ok v4 k c P [].
Proof. intros Ec E. apply branch_nil. rewrite Ec. destruct r, m, P; cbn in *; congruence. Qed.

Definition mem_ver (v : Z) : bool := (v =? 0) || (v =? k_ver k).
Definition mem_dir (d : Z) : bool := (d =? 0) || (d =? k_direction k).
Definition mem_loopback (l : Z) : bool := (l <? 0) || (l =? k_loopback k).
Definition mem_flags (flags mask : Z) : bool := (k_tcp_flags k &&& mask) =? flags.

(** Each conjunct taken out. *)
Lemma cube_mem_ver c : cube_mem c k = cube_mem (with_ver c 0) k && mem_ver (c_ver c).
Proof. unfold cube_mem, mem_ver; cbn -[Z.eqb]. change (0 =? 0) with true. btauto. Qed.

Lemma cube_mem_dir c : cube_mem c k = cube_mem (with_dir c 0) k && mem_dir (c_dir c).
Proof. unfold cube_mem, mem_dir; cbn -[Z.eqb]. change (0 =? 0) with true. btauto. Qed.

Lemma cube_mem_loopback c :
  cube_mem c k = cube_mem (with_loopback c (-1)) k && mem_loopback (c_loopback c).
Proof. unfold cube_mem, mem_loopback; cbn -[Z.eqb Z.ltb]. change (-1 <? 0) with true. btauto. Qed.

Lemma cube_mem_flags c :
  cube_mem c k = cube_mem (with_flags c 0 0) k && mem_flags (c_tcp_flags c) (c_tcp_mask c).
Proof.
  unfold cube_mem, mem_flags; cbn -[Z.eqb]. rewrite Z.land_0_r. change (0 =? 0) with true. btauto.
Qed.

Lemma set_ver_ok c ver : cube_inv v4 c -> ver = 4 \/ ver = 6 ->
  branch_ok v4 k c (k_ver k =? ver) (opt_list (cube_set_ver c ver)).
Proof.
  intros [W I4] Hv. unfold cube_set_ver. case_if; cbn [opt_list].
  - eapply branch_empty; [apply cube_mem_ver|]. unfold mem_ver. clear - Heqb Hv. lia.
  - eapply branch_update; [|reflexivity|apply cube_mem_ver|apply (cube_mem_ver (with_ver c ver))|].
    + split; [destruct W; split; cbn; try assumption; tauto|]. cbn. intros Hn.
      apply I4. clear - Heqb Hv Hn. destruct v4; lia.
    + unfold mem_ver; cbn. clear - Heqb Hv. lia.
Qed.

(** *** Boolean members *)

(** The evaluator's test of a field that reads 0 or 1. *)
Definition bool_test (t : TEST) (arg0 : Z) (ng b : bool) : bool :=
  test_result t (WinDivertCompare128 false (W128 (b2z b) 0 0 0) ng (W128 arg0 0 0 0) false).

(** [slot] allows the value [b]. *)
Definition slot_allows (slot : Z) (b : bool) : bool := (slot <? 0) || (slot =? b2z b).

Lemma apply_bool_spec slot t arg0 ng b : -1 <= slot <= 1 -> 0 <= arg0 ->
  match apply_bool slot t arg0 ng with
  | None => slot_allows slot b && bool_test t arg0 ng b = false
  | Some s => (-1 <= s <= 1 /\ (0 <= slot -> s = slot)) /\
              slot_allows slot b && bool_test t arg0 ng b = slot_allows s b
  end.
Proof using.
  intros Hs Ha. assert (slot = -1 \/ slot = 0 \/ slot = 1) as E by lia.
  assert (arg0 = 0 \/ arg0 = 1 \/ 1 < arg0) as A by lia.
  unfold apply_bool, bool_test, WinDivertCompare128, cmp_word, slot_allows.
  assert (A' : 1 < arg0 -> (0 <? arg0) = true /\ (1 <? arg0) = true /\
    (0 =? arg0) = false /\ (1 =? arg0) = false) by lia.
  destruct A as [->|[->|A]]; [| |destruct (A' A) as (E1 & E2 & E3 & E4)]; clear A';
    destruct E as [->|[->| ->]]; destruct ng, b, t; cbn;
    try (rewrite ?E1, ?E2, ?E3, ?E4; cbn);
    try (split; [split; [split; discriminate|try reflexivity; intros X; elim X; reflexivity]|reflexivity]);
    reflexivity.
Qed.


Lemma loopback_ok c t arg0 ng b : cube_inv v4 c -> 0 <= arg0 -> k_loopback k = b2z b ->
  branch_ok v4 k c (bool_test t arg0 ng b)
    (opt_list (option_map (with_loopback c) (apply_bool (c_loopback c) t arg0 ng))).
Proof.
  intros [W I4] Ha Hkv. pose proof (apply_bool_spec _ t arg0 ng b (cw_loopback c W) Ha) as H.
  unfold slot_allows in H. rewrite <- Hkv in H.
  destruct (apply_bool _ _ _ _) as [s|]; cbn [option_map opt_list].
  - destruct H as [[Hs _] E]. eapply branch_update; [|reflexivity|apply cube_mem_loopback
      |apply (cube_mem_loopback (with_loopback c s))|exact E].
    split; [destruct W; split; cbn; assumption|exact I4].
  - eapply branch_empty; [apply cube_mem_loopback|exact H].
Qed.

Lemma branch_dir_ok c (want_in : bool) t arg0 ng (out : bool) : cube_inv v4 c -> 0 <= arg0 ->
  k_direction k = (if out then 2 else 1) ->
  branch_ok v4 k c (bool_test t arg0 ng (if want_in then negb out else out))
    (opt_list (branch_dir c want_in t arg0 ng)).
Proof.
  intros Hc Ha Hkv. pose proof Hc as [W I4]. pose proof (cw_dir c W) as Wd. unfold branch_dir.
  set (slot := if _ <? 0 then -1 else _). set (b := if want_in then negb out else out).
  assert (Hr : -1 <= slot <= 1).
  { subst slot. destruct Wd as [->|[->| ->]], want_in; cbn; clear; lia. }
  assert (Hd : slot_allows slot b = mem_dir (c_dir c)).
  { unfold mem_dir. subst slot b. rewrite Hkv. destruct Wd as [->|[->| ->]], want_in, out; reflexivity. }
  pose proof (apply_bool_spec slot t arg0 ng b Hr Ha) as H. clearbody slot. rewrite Hd in H.
  destruct (apply_bool _ _ _ _) as [s|]; cbn [opt_list];
    [|eapply branch_empty; [apply cube_mem_dir|exact H]].
  destruct H as [[Hs _] E]. destruct (s >=? 0) eqn:Es; cbn [opt_list].
  - eapply branch_update; [|reflexivity|apply cube_mem_dir|apply (cube_mem_dir (with_dir c _))|].
    + split; [destruct W; split; cbn; try assumption|exact I4]. repeat case_if; auto.
    + rewrite E. subst b. unfold slot_allows, mem_dir. rewrite Hkv; cbn [c_dir with_dir].
      assert (s = 0 \/ s = 1) as [-> | ->] by (clear - Hs Es; lia);
        destruct want_in, out; reflexivity.
  - eapply branch_update; [exact Hc|reflexivity|apply cube_mem_dir|apply cube_mem_dir|].
    rewrite E. unfold slot_allows in *. replace (s <? 0) with true in * by (clear - Es; lia).
    destruct (mem_dir (c_dir c)), (bool_test t arg0 ng b); cbn in *; congruence.
Qed.

Lemma branch_ver_ok c (is4 : bool) t arg0 ng : cube_inv v4 c -> 0 <= arg0 ->
  k_ver k = 4 \/ k_ver k = 6 ->
  branch_ok v4 k c (bool_test t arg0 ng (k_ver k =? (if is4 then 4 else 6)))
    (opt_list (branch_ver c is4 t arg0 ng)).
Proof.
  intros Hc Ha Hkv. pose proof Hc as [W I4]. pose proof (cw_ver c W) as Wv. unfold branch_ver.
  set (slot := if c_ver c =? 0 then -1 else _). set (b := k_ver k =? _).
  assert (Hr : -1 <= slot <= 1).
  { subst slot. destruct Wv as [->|[->| ->]], is4; cbn; clear; lia. }
  assert (Hd : slot_allows slot b = mem_ver (c_ver c)).
  { unfold mem_ver. subst slot b. destruct Wv as [->|[->| ->]], is4, Hkv as [-> | ->]; reflexivity. }
  pose proof (apply_bool_spec slot t arg0 ng b Hr Ha) as H. clearbody slot. rewrite Hd in H.
  destruct (apply_bool _ _ _ _) as [s|]; cbn [opt_list];
    [|eapply branch_empty; [apply cube_mem_ver|exact H]].
  destruct H as [[Hs _] E]. destruct (s >=? 0) eqn:Es; cbn [opt_list].
  - assert (D : slot_allows s b = (k_ver k =? (if s =? b2z is4 then 4 else 6))).
    { subst b. unfold slot_allows. assert (s = 0 \/ s = 1) as [-> | ->] by (clear - Hs Es; lia);
        destruct is4, Hkv as [-> | ->]; reflexivity. }
    eapply branch_ext; [apply set_ver_ok; [exact Hc|case_if; auto]|].
    rewrite cube_mem_ver, <- D, <- E. intros M. apply andb_true_iff in M. now destruct M as [_ ->].
  - eapply branch_update; [exact Hc|reflexivity|apply cube_mem_ver|apply cube_mem_ver|].
    rewrite E. unfold slot_allows in *. replace (s <? 0) with true in * by (clear - Es; lia).
    destruct (mem_ver (c_ver c)), (bool_test t arg0 ng b); cbn in *; congruence.
Qed.

(** *** Protocols *)

Lemma absent_proto_ok c proto : cube_inv v4 c -> 0 <= proto ->
  branch_ok v4 k c (negb (k_proto k =? proto)) (absent_proto c proto).
Proof. intros. apply (apply_proto_ok c TEST_NEQ proto); assumption. Qed.

Lemma absent_ver_proto_ok c proto ver alt : cube_inv v4 c -> 0 <= proto ->
  ver = 4 \/ ver = 6 -> alt = 4 \/ alt = 6 ->
  branch_ok v4 k c ((k_ver k =? alt) || ((k_ver k =? ver) && negb (k_proto k =? proto)))
    (absent_ver_proto c proto ver alt).
Proof.
  intros Hc Hp Hv Hw. apply branch_app; [now apply set_ver_ok|].
  apply branch_bind_opt; [now apply set_ver_ok|]. intros d _ Hd. now apply absent_proto_ok.
Qed.

Lemma set_ver_proto_ok c ver proto : cube_inv v4 c -> 0 <= proto -> ver = 4 \/ ver = 6 ->
  branch_ok v4 k c ((k_ver k =? ver) && (k_proto k =? proto)) (opt_list (set_ver_proto c ver proto)).
Proof.
  intros Hc Hp Hv. unfold set_ver_proto.
  pose proof (branch_bind_opt v4 k c _ (k_proto k =? proto) (cube_set_ver c ver)
    (fun d => opt_list (cube_set_proto d proto)) (set_ver_ok c ver Hc Hv)) as H.
  destruct (cube_set_ver c ver); apply H; intros d _ Hd; now apply set_proto_ok.
Qed.

(** [tcp], [udp] ([ver = 0]), [icmp] and [icmpv6]. *)
Lemma branch_proto_ok c proto ver t arg0 ng : cube_inv v4 c -> 0 <= proto -> 0 <= arg0 ->
  k_ver k = 4 \/ k_ver k = 6 -> ver = 0 \/ ver = 4 \/ ver = 6 ->
  branch_ok v4 k c (bool_test t arg0 ng (((ver =? 0) || (k_ver k =? ver)) && (k_proto k =? proto)))
    (branch_proto c proto ver t arg0 ng).
Proof.
  intros Hc Hp Ha Hkv Hv. set (b := _ && _). unfold branch_proto.
  pose proof (apply_bool_spec (-1) t arg0 ng b ltac:(lia) Ha) as H.
  destruct (apply_bool _ _ _ _) as [s|]; [|apply branch_nil; intros _; exact H].
  destruct H as [[Hs _] E]. change (slot_allows (-1) b) with true in E. cbn [andb] in E.
  rewrite E. unfold slot_allows. destruct (s <? 0) eqn:Es; [apply branch_same; auto|].
  cbn [orb]. assert (s = 0 \/ s = 1) as [-> | ->] by (clear - Hs Es; lia).
  - replace (0 =? b2z b) with (negb b) by (destruct b; reflexivity). subst b.
    change (negb (0 =? 0)) with false; cbv iota.
    destruct Hv as [->|Hv]; [apply absent_proto_ok; assumption|].
    replace (ver =? 0) with false by (clear - Hv; lia). cbn [negb orb].
    eapply branch_ext; [apply (absent_ver_proto_ok c proto ver (if ver =? 4 then 6 else 4));
      try assumption; case_if; auto|].
    intros _. destruct Hv as [-> | ->], Hkv as [-> | ->]; reflexivity.
  - replace (1 =? b2z b) with b by (destruct b; reflexivity). subst b.
    change (negb (1 =? 0)) with true; cbv iota.
    eapply branch_ext; [|intros _; apply andb_comm].
    pose proof (branch_bind_opt v4 k c _ ((ver =? 0) || (k_ver k =? ver)) (cube_set_proto c proto)
      (fun d => opt_list (if ver =? 0 then Some d else cube_set_ver d ver))
      (set_proto_ok c proto Hc Hp)) as H.
    destruct (cube_set_proto c proto); apply H; intros d _ Hd;
      (destruct (ver =? 0) eqn:Ev; [apply branch_same; auto|apply set_ver_ok; [exact Hd|lia]]).
Qed.

(** *** TCP flags *)

Lemma mem_flags_bits flags mask : mem_flags flags mask = true <->
  forall j, 0 <= j -> Z.testbit (k_tcp_flags k) j && Z.testbit mask j = Z.testbit flags j.
Proof.
  unfold mem_flags. rewrite Z.eqb_eq. split.
  - intros <- j Hj. now rewrite Z.land_spec.
  - intros H. apply Z.bits_inj'. intros j Hj. rewrite Z.land_spec. auto.
Qed.

(** Bit [n] of the flags set to [s]. *)
Lemma set_flag_bits flags n s j : 0 <= flags < 64 -> 0 <= n < 6 -> 0 <= j -> s = 0 \/ s = 1 ->
  Z.testbit (u8 (Z.ldiff flags (2 ^ n) ||| (if s =? 0 then 0 else 2 ^ n))) j =
  if j =? n then s =? 1 else Z.testbit flags j.
Proof.
  intros Hf Hn Hj Hs. unfold u8. destruct (Z.lt_ge_cases j 8) as [H8|H8].
  - rewrite Z.mod_pow2_bits_low by lia. rewrite Z.lor_spec, Z.ldiff_spec, Z.pow2_bits_eqb by lia.
    rewrite (Z.eqb_sym n j).
    destruct Hs as [-> | ->]; [change (0 =? 0) with true; change (0 =? 1) with false
      |change (1 =? 0) with false; change (1 =? 1) with true]; cbv iota;
      rewrite ?Z.bits_0, ?Z.pow2_bits_eqb, ?(Z.eqb_sym n j) by lia;
      destruct (j =? n), (Z.testbit flags j); reflexivity.
  - rewrite Z.mod_pow2_bits_high by lia. replace (j =? n) with false by lia.
    rewrite <- (Z.mod_small flags (2 ^ 6)) by lia. now rewrite Z.mod_pow2_bits_high by lia.
Qed.

Lemma has_pow2 m n : 0 <= n -> has m (2 ^ n) = Z.testbit m n.
Proof using.
  intros Hn. unfold has. destruct (Z.testbit m n) eqn:E.
  - apply negb_true_iff, Z.eqb_neq. intros Hz. apply (f_equal (fun z => Z.testbit z n)) in Hz.
    rewrite Z.land_spec, E, Z.pow2_bits_true, Z.bits_0 in Hz by lia. discriminate.
  - apply negb_false_iff, Z.eqb_eq. apply Z.bits_inj'. intros j Hj.
    rewrite Z.land_spec, Z.bits_0, Z.pow2_bits_eqb by lia.
    destruct (n =? j) eqn:Ej; [apply Z.eqb_eq in Ej; subst; now rewrite E|apply andb_false_r].
Qed.

Lemma mask_bound m n : 0 <= m < 64 -> 0 <= n < 6 -> m ||| 2 ^ n < 64.
Proof.
  intros Hm Hn. assert (0 <= m ||| 2 ^ n) by (apply Z.lor_nonneg; lia).
  rewrite <- (Z.mod_small (m ||| 2 ^ n) (2 ^ 6)); [apply Z.mod_pos_bound; lia|].
  split; [assumption|]. destruct (Z.eq_dec (m ||| 2 ^ n) 0) as [E|E]; [rewrite E; lia|].
  apply Z.log2_lt_pow2; [lia|]. rewrite Z.log2_lor, Z.log2_pow2 by lia.
  apply Z.max_lub_lt; [|lia]. destruct (Z.eq_dec m 0) as [->|]; [cbn; lia|].
  apply Z.log2_lt_pow2; lia.
Qed.

(** The flags stay a subset of the mask. *)
Lemma flags_subset flags mask n s : 0 <= flags < 64 -> 0 <= n < 6 -> s = 0 \/ s = 1 ->
  Z.land flags mask = flags ->
  Z.land (u8 (Z.ldiff flags (2 ^ n) ||| (if s =? 0 then 0 else 2 ^ n))) (mask ||| 2 ^ n) =
  u8 (Z.ldiff flags (2 ^ n) ||| (if s =? 0 then 0 else 2 ^ n)).
Proof.
  intros Hf Hn Hs E. apply Z.bits_inj'. intros j Hj.
  rewrite Z.land_spec, Z.lor_spec, Z.pow2_bits_eqb, set_flag_bits, (Z.eqb_sym n j)
    by (assumption || lia).
  destruct (j =? n); [now rewrite orb_true_r, andb_true_r|]. rewrite orb_false_r.
  rewrite <- Z.land_spec. now rewrite E.
Qed.

Lemma cube_flags_range c : cube_wf c -> 0 <= c_tcp_flags c < 64.
Proof.
  intros W. pose proof (cw_mask c W). pose proof (cw_flags c W) as E. rewrite <- E.
  assert (0 <= Z.land (c_tcp_flags c) (c_tcp_mask c)) by (apply Z.land_nonneg; lia).
  split; [assumption|]. rewrite <- (Z.mod_small (c_tcp_mask c) (2 ^ 6)) by lia.
  rewrite <- Z.land_ones, Z.land_assoc, Z.land_ones by lia. apply Z.mod_pos_bound. lia.
Qed.

Lemma flag_update_mem flags mask n s : 0 <= flags < 64 -> 0 <= n < 6 -> s = 0 \/ s = 1 ->
  Z.testbit flags n = Z.testbit mask n && (s =? 1) ->
  mem_flags (u8 (Z.ldiff flags (2 ^ n) ||| (if s =? 0 then 0 else 2 ^ n))) (mask ||| 2 ^ n) =
  mem_flags flags mask && (s =? b2z (Z.testbit (k_tcp_flags k) n)).
Proof.
  intros Hf Hn Hs Hm. set (b := Z.testbit (k_tcp_flags k) n).
  assert (Hb : (s =? b2z b) = Bool.eqb b (s =? 1)) by (destruct Hs as [-> | ->], b; reflexivity).
  rewrite Hb. apply eq_true_iff_eq. rewrite andb_true_iff, !mem_flags_bits, Bool.eqb_true_iff.
  assert (Hj : forall j, 0 <= j ->
    (Z.testbit (k_tcp_flags k) j && Z.testbit (mask ||| 2 ^ n) j =
     Z.testbit (u8 (Z.ldiff flags (2 ^ n) ||| (if s =? 0 then 0 else 2 ^ n))) j) <->
    (if j =? n then b = (s =? 1)
     else Z.testbit (k_tcp_flags k) j && Z.testbit mask j = Z.testbit flags j)).
  { intros j Hj. rewrite set_flag_bits, Z.lor_spec, Z.pow2_bits_eqb, (Z.eqb_sym n j)
      by (assumption || lia).
    destruct (j =? n) eqn:E; b2p; [subst j; now rewrite orb_true_r, andb_true_r|].
    now rewrite orb_false_r. }
  split.
  - intros H. pose proof (proj1 (Hj n ltac:(lia)) (H n ltac:(lia))) as Hn'.
    rewrite Z.eqb_refl in Hn'. split; [|exact Hn']. intros j Hj0.
    pose proof (proj1 (Hj j Hj0) (H j Hj0)) as X. destruct (j =? n) eqn:E; [|exact X].
    b2p. subst j. fold b. rewrite Hm, Hn'. apply andb_comm.
  - intros [H Hn'] j Hj0. apply Hj; [exact Hj0|]. destruct (j =? n); auto.
Qed.

Lemma branch_flag_ok c n t arg0 ng : cube_inv v4 c -> 0 <= n < 6 -> 0 <= arg0 ->
  branch_ok v4 k c (bool_test t arg0 ng (Z.testbit (k_tcp_flags k) n))
    (opt_list (branch_flag c (2 ^ n) t arg0 ng)).
Proof.
  intros Hc Hn Ha. pose proof Hc as [W I4]. pose proof (cube_flags_range c W) as Hf.
  pose proof (cw_mask c W) as Hm. unfold branch_flag. rewrite !has_pow2 by lia.
  assert (Hsub : Z.testbit (c_tcp_flags c) n =
                 Z.testbit (c_tcp_flags c) n && Z.testbit (c_tcp_mask c) n)
    by (rewrite <- Z.land_spec; now rewrite (cw_flags c W)).
  set (b := Z.testbit (k_tcp_flags k) n).
  set (slot := if Z.testbit (c_tcp_mask c) n then _ else -1).
  assert (Hr : -1 <= slot <= 1) by (subst slot; unfold b2z; repeat case_if; clear; lia).
  assert (Hd : mem_flags (c_tcp_flags c) (c_tcp_mask c) = true -> slot_allows slot b = true).
  { rewrite mem_flags_bits. intros H. specialize (H n ltac:(lia)). fold b in H. subst slot.
    destruct (Z.testbit (c_tcp_mask c) n); [|reflexivity]. rewrite andb_true_r in H. subst b.
    rewrite H. unfold slot_allows. now rewrite Z.eqb_refl, orb_true_r. }
  pose proof (apply_bool_spec slot t arg0 ng b Hr Ha) as H.
  destruct (apply_bool _ _ _ _) as [s|]; cbn [opt_list].
  - destruct H as [[Hs Hkv] E]. destruct (s >=? 0) eqn:Es; cbn [opt_list].
    + assert (Hs' : s = 0 \/ s = 1) by (clear - Hs Es; lia).
      eapply branch_update; [|reflexivity|apply cube_mem_flags|apply (cube_mem_flags (with_flags c _ _))|].
      * split; [destruct W; split; cbn; try assumption|exact I4].
        -- split; [apply Z.lor_nonneg; lia|]. now apply mask_bound.
        -- now apply flags_subset.
      * cbn [c_tcp_flags c_tcp_mask with_flags]. rewrite flag_update_mem; try assumption.
        -- fold b. destruct (mem_flags _ _); [|reflexivity]. cbn [andb]. rewrite Hd in E by reflexivity.
           cbn [andb] in E. rewrite E. unfold slot_allows. replace (s <? 0) with false by (clear - Es; lia).
           reflexivity.
        -- rewrite Hsub. subst slot. destruct (Z.testbit (c_tcp_mask c) n); [|apply andb_false_r].
           rewrite andb_true_r. specialize (Hkv ltac:(unfold b2z; case_if; clear; lia)). subst s.
           now destruct (Z.testbit (c_tcp_flags c) n).
    + eapply branch_update; [exact Hc|reflexivity|apply cube_mem_flags|apply cube_mem_flags|].
      destruct (mem_flags _ _); [|reflexivity]. rewrite Hd in E by reflexivity. cbn [andb] in *.
      rewrite E. unfold slot_allows. replace (s <? 0) with true by (clear - Es; lia). reflexivity.
  - eapply branch_empty; [apply cube_mem_flags|]. destruct (mem_flags _ _); [|reflexivity].
    now rewrite Hd in H by reflexivity.
Qed.
End Members.
