(* ===== verification/PfInsn.v ===== *)
(** * One instruction: addresses, local and remote fields, all fields

    The address cases of [pf_branch], and the theorem for a whole
    instruction: [pf_branch] is sound for both outcomes of its test. *)

From Stdlib Require Import ZArith List Bool Lia ZifyBool Btauto.
From S2P Require Import Prelude WdTypes WdPacket WdHash WdExec PfRange PfAddr PfCube PfBranch.
Import ListNotations.

(** ** Mapped addresses *)

Lemma is_mapped_val a : wf128 a ->
  is_mapped_ipv4 a = (val128 lo4 <=? val128 a) && (val128 a <=? val128 hi4).
Proof.
  rewrite val128_lo4, val128_hi4. destruct a as [a0 a1 a2 a3].
  unfold wf128, is_u32, is_mapped_ipv4, val128; cbn [w0 w1 w2 w3]. lia.
Qed.

(** The values [addr_apply] can leave in the bounds. *)
Lemma addr_clip_same q e a' e' : addr_clip q e = Some (a', e') ->
  ad_lo a' = ad_lo q /\ ad_hi a' = ad_hi q /\ ad_excl a' = ad_excl q /\
  (has_excl a' = true -> has_excl q = true) /\ (cmp128 (ad_lo q) (ad_hi q) >? 0) = false.
Proof.
  unfold addr_clip. case_if; [discriminate|].
  case_if; intros E; inversion E; subst; cbn; repeat split; auto; discriminate.
Qed.

Lemma addr_upper_addr4 a v e a' e' : addr_wf a -> wf128 v -> addr4_ok a ->
  val128 lo4 - 1 <= val128 v <= val128 hi4 \/
    (val128 lo4 <= val128 (ad_lo a) /\ val128 (ad_hi a) <= val128 hi4) ->
  addr_upper a v e = Some (a', e') -> addr4_ok a'.
Proof.
  intros (Hl & Hh & He) Hv (L & H & X) M E. unfold addr_upper in E.
  rewrite cmp128_lt in E by assumption. apply addr_clip_same in E.
  unfold addr4_ok. destruct E as (-> & -> & -> & Ex & Ec).
  destruct (val128 v <? val128 (ad_hi a)) eqn:Ev; cbn [ad_lo ad_hi ad_excl has_excl] in *;
    rewrite cmp128_gt in Ec by assumption; (split; [exact L|split; [|auto]]); [|exact H].
  rewrite val128_lo4, val128_hi4 in *. lia.
Qed.

Lemma addr_lower_addr4 a v e a' e' : addr_wf a -> wf128 v -> addr4_ok a ->
  val128 lo4 <= val128 v <= val128 hi4 + 1 \/
    (val128 lo4 <= val128 (ad_lo a) /\ val128 (ad_hi a) <= val128 hi4) ->
  addr_lower a v e = Some (a', e') -> addr4_ok a'.
Proof.
  intros (Hl & Hh & He) Hv (L & H & X) M E. unfold addr_lower in E.
  rewrite cmp128_gt in E by assumption. apply addr_clip_same in E.
  unfold addr4_ok. destruct E as (-> & -> & -> & Ex & Ec).
  destruct (val128 (ad_lo a) <? val128 v) eqn:Ev; cbn [ad_lo ad_hi ad_excl has_excl] in *;
    rewrite cmp128_gt in Ec by assumption; (split; [|split; [exact H|auto]]); [|exact L].
  rewrite val128_lo4, val128_hi4 in *. lia.
Qed.

Lemma addr_apply_addr4 a t v e a' e' : addr_wf a -> wf128 v -> addr4_ok a ->
  val128 lo4 <= val128 v <= val128 hi4 \/
    (val128 lo4 <= val128 (ad_lo a) /\ val128 (ad_hi a) <= val128 hi4) ->
  addr_apply a t v e = Some (a', e') -> addr4_ok a'.
Proof.
  intros Ha Hv H4 M. pose proof Ha as (Hl & Hh & He).
  pose proof (val128_bound v Hv) as Bv. pose proof (val128_bound _ Hl) as Bl.
  pose proof (val128_bound _ Hh) as Bh. pose proof H4 as (L & H & X).
  unfold addr_apply. destruct t; cmp_val.
  - case_if; [discriminate|]. case_if; [discriminate|]. intros E; inversion E; subst; clear E.
    unfold addr4_ok; cbn. rewrite val128_lo4, val128_hi4 in *. clear He Ha H4. lia.
  - case_if; [intros E; inversion E; subst; exact H4|]. case_if; [discriminate|].
    rewrite val128_lo4, val128_hi4 in *.
    destruct (val128 v =? val128 (ad_lo a)) eqn:E3.
    { destruct (inc128_val (ad_lo a)) as [Hw Ei]; [assumption|lia|].
      intros E; inversion E; subst; clear E. unfold addr4_ok; cbn.
      rewrite val128_lo4, val128_hi4. lia. }
    destruct (val128 v =? val128 (ad_hi a)) eqn:E4.
    { destruct (dec128_val (ad_hi a)) as [Hw Ei]; [assumption|lia|].
      intros E; inversion E; subst; clear E. unfold addr4_ok; cbn.
      rewrite val128_lo4, val128_hi4. lia. }
    case_if; intros E; inversion E; subst; clear E; [exact H4|].
    unfold addr4_ok; cbn. rewrite val128_lo4, val128_hi4. lia.
  - case_if; [discriminate|]. destruct (dec128_val v) as [Hw Ei]; [assumption|lia|].
    apply addr_upper_addr4; try assumption. rewrite Ei. lia.
  - apply addr_upper_addr4; try assumption. lia.
  - case_if; [discriminate|]. destruct (inc128_val v) as [Hw Ei]; [assumption|lia|].
    apply addr_lower_addr4; try assumption. rewrite Ei. lia.
  - apply addr_lower_addr4; try assumption. lia.
Qed.

(** An IPv6 lower bound does not reach [::ffff:0.0.0.0] by accident. *)
Lemma addr_apply_addr6 a t v e a' e' : addr_wf a -> wf128 v -> addr6_ok a -> edge4 v = false ->
  addr_apply a t v e = Some (a', e') -> addr6_ok a'.
Proof.
  intros Ha Hv H6 M. pose proof Ha as (Hl & Hh & He). unfold addr6_ok, edge4 in *.
  apply orb_false_iff in M. rewrite !Z.eqb_neq in M.
  pose proof (val128_bound v Hv) as Bv. pose proof (val128_bound _ Hl) as Bl.
  pose proof (val128_bound _ Hh) as Bh. unfold addr_apply, addr_upper, addr_lower.
  destruct t; cmp_val.
  - repeat case_if; intros E; inversion E; subst; cbn; lia.
  - case_if; [intros E; inversion E; subst; exact H6|]. case_if; [discriminate|].
    destruct (val128 v =? val128 (ad_lo a)) eqn:E3.
    { destruct (inc128_val (ad_lo a)) as [Hw Ei]; [assumption|lia|].
      intros E; inversion E; subst; clear E. cbn. lia. }
    repeat case_if; intros E; inversion E; subst; cbn; exact H6.
  - case_if; [discriminate|]. intros E. apply addr_clip_same in E. destruct E as (-> & _).
    case_if; exact H6.
  - intros E. apply addr_clip_same in E. destruct E as (-> & _). case_if; exact H6.
  - case_if; [discriminate|]. destruct (inc128_val v) as [Hw Ei]; [assumption|lia|].
    intros E. apply addr_clip_same in E. destruct E as (-> & _). case_if; cbn; lia.
  - intros E. apply addr_clip_same in E. destruct E as (-> & _). case_if; cbn; lia.
Qed.

(** The bounds after [clamp4]. *)
Lemma clamp4_bounds a : addr_wf a ->
  addr_wf (clamp4 a) /\
  val128 (ad_lo (clamp4 a)) = Z.max (val128 lo4) (val128 (ad_lo a)) /\
  val128 (ad_hi (clamp4 a)) = Z.min (val128 hi4) (val128 (ad_hi a)).
Proof.
  intros (Hl & Hh & He). unfold clamp4. rewrite cmp128_lt, cmp128_gt by auto with divert.
  unfold addr_wf; cbn. pose proof lo4_wf. pose proof hi4_wf.
  split; [split; [|split]; try assumption; case_if; assumption|].
  split; case_if; lia.
Qed.

Lemma clamp4_addr4 a : addr_wf a -> addr4_ok a -> addr4_ok (clamp4 a).
Proof.
  intros Ha (L & H & X). destruct (clamp4_bounds a Ha) as (_ & El & Eh).
  unfold addr4_ok. rewrite El, Eh. cbn. rewrite val128_lo4, val128_hi4 in *. lia.
Qed.

Lemma clamp4_contains a x : addr_wf a -> val128 lo4 <= x <= val128 hi4 ->
  addr_contains (clamp4 a) x = addr_contains a x.
Proof.
  intros Ha Hx. destruct (clamp4_bounds a Ha) as (_ & El & Eh).
  unfold addr_contains. rewrite El, Eh. cbn. lia.
Qed.

Lemma addr_full_wf : addr_wf addr_full.
Proof. unfold addr_wf; cbn; auto with divert. Qed.

Lemma addr_full_addr4 : addr4_ok addr_full.
Proof. unfold addr4_ok; cbn. split; [left; reflexivity|split; [left; reflexivity|discriminate]]. Qed.

Lemma addr_full_inv v4 : addr_inv v4 addr_full.
Proof. destruct v4; [apply addr_full_addr4|]. unfold addr_inv, addr6_ok; cbn. discriminate. Qed.

Lemma addr_full_contains x : 0 <= x < 2 ^ 128 -> addr_contains addr_full x = true.
Proof. unfold addr_contains; cbn. rewrite val128_zero, val128_ones. lia. Qed.

#[local] Set Default Proof Using "All".

Section Insn.
Variable v4 : bool.
Variable k : pf_pkt.
Hypothesis Hk : pkt_ok v4 k.

(** The argument keeps the bounds encodable. *)
Definition arg_inv (a : pf_addr) (v : u128) : Prop :=
  if v4 then is_mapped_ipv4 v = true \/
             (val128 lo4 <= val128 (ad_lo a) /\ val128 (ad_hi a) <= val128 hi4)
  else edge4 v = false.

Definition arg4_ok (c : pf_cube) (a : pf_addr) (v : u128) : Prop :=
  c_ver c <> (if v4 then 6 else 4) -> arg_inv a v.

Lemma apply_addr_inv a t v e a' e' : addr_wf a -> wf128 v -> addr_inv v4 a -> arg_inv a v ->
  addr_apply a t v e = Some (a', e') -> addr_inv v4 a'.
Proof.
  unfold addr_inv, arg_inv. intros Ha Hv H4 M E. destruct v4;
    [|now apply (addr_apply_addr6 a t v e a' e')].
  apply (addr_apply_addr4 a t v e a' e'); try assumption. destruct M as [Hm|Hm]; [left|right; exact Hm].
  rewrite is_mapped_val in Hm by exact Hv. lia.
Qed.

Lemma apply_src_ok c t v : cube_inv v4 c -> wf128 v -> arg4_ok c (c_src c) v ->
  branch_ok v4 k c (test_z t (val128 (k_src k)) (val128 v)) (opt_list (apply_src c t v)).
Proof.
  intros [[] I4] Hv M. pose proof (pk_addr v4 k Hk) as [Hs Hd]. pose proof (val128_bound _ Hs) as Bs.
  unfold apply_src. pose proof (addr_apply_ok (c_src c) t v (c_exact c) cw_src Hv) as H.
  destruct (addr_apply _ _ _ _) as [[a' e']|] eqn:E; cbn [option_map opt_list].
  - destruct H as (W & S & X). apply branch_one.
    + split; [split; cbn; assumption|]. cbn. intros E6. destruct (I4 E6) as [Is Id].
      split; [|exact Id]. exact (apply_addr_inv _ _ _ _ _ _ cw_src Hv Is (M E6) E).
    + rewrite !cube_mem_spec. intros [] HP; split; cbn; try assumption. now apply S.
    + cbn. rewrite !cube_mem_spec. intros He []; cbn in *. destruct (X He) as [Hx Y].
      destruct (Y _ Bs ms_src). repeat split; assumption.
  - apply branch_nil. rewrite cube_mem_spec. intros []. now apply H.
Qed.

Lemma apply_dst_ok c t v : cube_inv v4 c -> wf128 v -> arg4_ok c (c_dst c) v ->
  branch_ok v4 k c (test_z t (val128 (k_dst k)) (val128 v)) (opt_list (apply_dst c t v)).
Proof.
  intros [[] I4] Hv M. pose proof (pk_addr v4 k Hk) as [Hs Hd]. pose proof (val128_bound _ Hd) as Bd.
  unfold apply_dst. pose proof (addr_apply_ok (c_dst c) t v (c_exact c) cw_dst Hv) as H.
  destruct (addr_apply _ _ _ _) as [[a' e']|] eqn:E; cbn [option_map opt_list].
  - destruct H as (W & S & X). apply branch_one.
    + split; [split; cbn; assumption|]. cbn. intros E6. destruct (I4 E6) as [Is Id].
      split; [exact Is|]. exact (apply_addr_inv _ _ _ _ _ _ cw_dst Hv Id (M E6) E).
    + rewrite !cube_mem_spec. intros [] HP; split; cbn; try assumption. now apply S.
    + cbn. rewrite !cube_mem_spec. intros He []; cbn in *. destruct (X He) as [Hx Y].
      destruct (Y _ Bd ms_dst). repeat split; assumption.
  - apply branch_nil. rewrite cube_mem_spec. intros []. now apply H.
Qed.

Lemma mapped_range a : wf128 a -> is_mapped_ipv4 a = true -> val128 lo4 <= val128 a <= val128 hi4.
Proof. intros H. rewrite is_mapped_val by exact H. lia. Qed.

(** [clamp4] changes nothing for the packets of an IPv4 cube. *)
Lemma clamp_src c : cube_inv v4 c -> c_ver c = 4 ->
  let c' := with_src c (clamp4 (c_src c), c_exact c) in
  cube_inv v4 c' /\ (forall v, arg4_ok c' (c_src c') v) /\ cube_mem c' k = cube_mem c k.
Proof.
  intros [W I4] Hver. destruct (clamp4_bounds _ (cw_src c W)) as (Ws & El & Eh).
  pose proof (pk_mapped v4 k Hk) as [Ms _]. pose proof (pk_addr v4 k Hk) as [Wk _].
  pose proof (clamp4_contains _ (val128 (k_src k)) (cw_src c W)) as Ec.
  cbv zeta. split; [|split].
  - split; [destruct W; split; cbn; assumption|]. cbn. intros E6. destruct (I4 E6).
    split; [|assumption]. unfold addr_inv in *.
    destruct v4; [apply clamp4_addr4; [apply W|assumption]|congruence].
  - intros v E6. cbn in E6. unfold arg_inv. destruct v4; [|congruence]. right.
    cbn [c_src with_src fst]. rewrite El, Eh. lia.
  - unfold cube_mem; cbn. rewrite Hver. destruct (pk_fam v4 k Hk) as [Ek|Ek]; [|now rewrite Ek].
    rewrite Ec; [reflexivity|]. apply mapped_range; [exact Wk|]. now rewrite Ms, Ek.
Qed.

Lemma clamp_dst c : cube_inv v4 c -> c_ver c = 4 ->
  let c' := with_dst c (clamp4 (c_dst c), c_exact c) in
  cube_inv v4 c' /\ (forall v, arg4_ok c' (c_dst c') v) /\ cube_mem c' k = cube_mem c k.
Proof.
  intros [W I4] Hver. destruct (clamp4_bounds _ (cw_dst c W)) as (Ws & El & Eh).
  pose proof (pk_mapped v4 k Hk) as [_ Ms]. pose proof (pk_addr v4 k Hk) as [_ Wk].
  pose proof (clamp4_contains _ (val128 (k_dst k)) (cw_dst c W)) as Ec.
  cbv zeta. split; [|split].
  - split; [destruct W; split; cbn; assumption|]. cbn. intros E6. destruct (I4 E6).
    split; [assumption|]. unfold addr_inv in *.
    destruct v4; [apply clamp4_addr4; [apply W|assumption]|congruence].
  - intros v E6. cbn in E6. unfold arg_inv. destruct v4; [|congruence]. right.
    cbn [c_dst with_dst fst]. rewrite El, Eh. lia.
  - unfold cube_mem; cbn. rewrite Hver. destruct (pk_fam v4 k Hk) as [Ek|Ek]; [|now rewrite Ek].
    rewrite Ec; [reflexivity|]. apply mapped_range; [exact Wk|]. now rewrite Ms, Ek.
Qed.

(** [ip.SrcAddr], [ip.DstAddr], [ipv6.SrcAddr], [ipv6.DstAddr], the version
    of the cube being the field's. *)
Lemma branch_addr_ok c (is_src is_v4 : bool) t v : cube_inv v4 c -> wf128 v ->
  c_ver c = (if is_v4 then 4 else 6) -> (v4 || is_v4 = false -> edge4 v = false) ->
  branch_ok v4 k c (test_z t (val128 (if is_src then k_src k else k_dst k)) (val128 v))
    (opt_list (branch_addr c is_src is_v4 t v)).
Proof.
  intros Hc Hv Hver He. unfold branch_addr. destruct is_v4, is_src.
  - destruct (clamp_src c Hc Hver) as (Hc' & Ha & Hm).
    eapply branch_equiv; [apply apply_src_ok; [exact Hc'|exact Hv|apply Ha]|reflexivity|exact Hm].
  - destruct (clamp_dst c Hc Hver) as (Hc' & Ha & Hm).
    eapply branch_equiv; [apply apply_dst_ok; [exact Hc'|exact Hv|apply Ha]|reflexivity|exact Hm].
  - apply apply_src_ok; [exact Hc|exact Hv|]. intros H. unfold arg_inv.
    destruct v4; [congruence|now apply He].
  - apply apply_dst_ok; [exact Hc|exact Hv|]. intros H. unfold arg_inv.
    destruct v4; [congruence|now apply He].
Qed.

(** ** Local and remote addresses and ports *)

Lemma set_dir_ok c d : cube_inv v4 c -> d = 1 \/ d = 2 -> c_dir c = 0 \/ c_dir c = d ->
  branch_ok v4 k c (k_direction k =? d) [with_dir c d].
Proof.
  intros [W I4] Hd Hc.
  eapply branch_update; [exact Hk| |reflexivity|apply (cube_mem_dir v4 k Hk)|apply (cube_mem_dir v4 k Hk (with_dir c d))|].
  - split; [destruct W; split; cbn; auto|exact I4].
  - unfold mem_dir; cbn. clear - Hd Hc. lia.
Qed.

Lemma by_direction_ok c (local : bool) f Q : cube_inv v4 c ->
  (forall d, d = 1 \/ d = 2 -> cube_inv v4 (with_dir c d) ->
     branch_ok v4 k (with_dir c d) (Q (if local then d =? 2 else d =? 1))
       (f (with_dir c d) (if local then d =? 2 else d =? 1))) ->
  k_direction k = 1 \/ k_direction k = 2 ->
  branch_ok v4 k c (Q (if local then k_direction k =? 2 else k_direction k =? 1))
    (by_direction c local f).
Proof.
  intros Hc F Hkd.
  assert (One : forall d, d = 1 \/ d = 2 ->
    branch_ok v4 k c ((k_direction k =? d) && Q (if local then d =? 2 else d =? 1))
      (if negb (c_dir c =? 0) && negb (c_dir c =? d) then []
       else f (with_dir c d) (if local then d =? 2 else d =? 1))).
  { intros d Hd. destruct (negb _ && negb _) eqn:E.
    - apply branch_nil. rewrite (cube_mem_dir v4 k Hk). unfold mem_dir. intros M.
      replace (k_direction k =? d) with false; [reflexivity|]. clear - E M. lia.
    - pose proof (set_dir_ok c d Hc Hd ltac:(clear - E; lia)) as H.
      pose proof (branch_bind v4 k c _ (Q (if local then d =? 2 else d =? 1)) _
        (fun c' => f c' (if local then d =? 2 else d =? 1)) H) as B.
      cbn [flat_map] in B. rewrite app_nil_r in B. apply B.
      intros c' [<-|[]] Hc'. now apply F. }
  unfold by_direction. cbn [flat_map]. rewrite app_nil_r.
  eapply branch_ext; [apply branch_app; apply One; auto|]. intros _.
  destruct Hkd as [-> | ->], local; cbn; now rewrite ?orb_false_r.
Qed.

Lemma with_ver_inv c ver : cube_inv v4 c -> c_ver c = 0 -> ver = 4 \/ ver = 6 ->
  cube_inv v4 (with_ver c ver).
Proof.
  intros [W I4] E Hv. split; [destruct W; split; cbn; auto|]. cbn. intros _.
  apply I4. rewrite E. destruct v4; discriminate.
Qed.

(** An address constraint dropped again. *)
Lemma widen_addr_ok c (use_src : bool) P : cube_inv v4 c ->
  branch_ok v4 k c P
    [if use_src then with_src c (addr_full, false) else with_dst c (addr_full, false)].
Proof.
  intros [[] I4]. pose proof (pk_addr v4 k Hk) as [Ws Wd]. pose proof (addr_full_inv v4).
  pose proof addr_full_wf.
  apply branch_one; [|rewrite !cube_mem_spec; intros [] _|]; destruct use_src; try discriminate.
  - split; [split; cbn; assumption|]. cbn. intros E6. now destruct (I4 E6).
  - split; [split; cbn; assumption|]. cbn. intros E6. now destruct (I4 E6).
  - split; cbn; try assumption. now apply addr_full_contains, val128_bound.
  - split; cbn; try assumption. now apply addr_full_contains, val128_bound.
Qed.

(** One direction of an address test that must hold. *)
Lemma local_addr_ok c (use_src : bool) t v : cube_inv v4 c -> wf128 v ->
  (if v4 then is_mapped_ipv4 v = true else edge4 v = false) ->
  branch_ok v4 k c (test_z t (val128 (if use_src then k_src k else k_dst k)) (val128 v))
    (local_addr c true use_src t v).
Proof.
  intros Hc Hv M. pose proof (pk_mapped v4 k Hk) as [Ms Md]. pose proof (pk_addr v4 k Hk) as [Ws Wd].
  set (x := if use_src then k_src k else k_dst k).
  set (r := if use_src then apply_src c t v else apply_dst c t v).
  assert (B : branch_ok v4 k c (test_z t (val128 x) (val128 v)) (opt_list r)).
  { subst x r. destruct use_src; [apply apply_src_ok|apply apply_dst_ok]; try assumption;
      intros _; unfold arg_inv; destruct v4; auto. }
  assert (Hx : wf128 x /\ is_mapped_ipv4 x = (k_ver k =? 4)) by (subst x; destruct use_src; auto).
  assert (Hr : forall alt, r = Some alt -> c_ver alt = c_ver c /\
    (if use_src then with_src alt (addr_full, false) else with_dst alt (addr_full, false)) =
    (if use_src then with_src c (addr_full, false) else with_dst c (addr_full, false))).
  { intros alt. subst r. unfold apply_src, apply_dst.
    destruct use_src, (addr_apply _ _ _ _); cbn; intros E; inversion E; split; reflexivity. }
  unfold local_addr. cbn [negb andb]. fold r. destruct r as [alt|] eqn:Er; [|exact B].
  destruct (c_ver c =? 0) eqn:E0; [|exact B]. apply Z.eqb_eq in E0.
  destruct (Hr alt eq_refl) as [Hr' Hw]. destruct B as [S X].
  destruct (X alt (or_introl eq_refl)) as [Ia Xa].
  destruct t; try (rewrite Hw; now apply widen_addr_ok).
  apply branch_one.
  - apply with_ver_inv; [exact Ia|congruence|case_if; auto].
  - intros Hc' HP. destruct (S Hc' HP) as (d & [<-|[]] & Hm). rewrite (cube_mem_ver v4 k Hk) in Hm |- *.
    apply andb_true_iff in Hm. destruct Hm as [Hm _]. apply andb_true_iff. split; [exact Hm|].
    unfold test_z in HP. b2p. apply val128_inj in HP; [|tauto|exact Hv]. rewrite <- HP, (proj2 Hx).
    unfold mem_ver; cbn. destruct (pk_fam v4 k Hk) as [-> | ->]; reflexivity.
  - cbn. intros He Hm. apply Xa; [exact He|]. rewrite (cube_mem_ver v4 k Hk) in Hm |- *.
    apply andb_true_iff in Hm. destruct Hm as [Hm _]. apply andb_true_iff. split; [exact Hm|].
    rewrite Hr', E0. reflexivity.
Qed.

Lemma local_port_ok c (use_src : bool) t v : cube_inv v4 c -> 0 <= v ->
  branch_ok v4 k c (test_z t (if use_src then k_sport k else k_dport k) v)
    (local_port c use_src t v).
Proof. intros. unfold local_port. destruct use_src; [now apply apply_sport_ok|now apply apply_dport_ok]. Qed.

Lemma proto_is_mem c p : cube_proto_is c p = true -> cube_mem c k = true -> k_proto k = p.
Proof.
  unfold cube_proto_is. rewrite cube_mem_spec. intros H []. apply range_contains_spec in ms_proto. lia.
Qed.

Lemma set_proto_is c p c' : cube_inv v4 c -> 0 <= p <= 255 -> cube_set_proto c p = Some c' ->
  cube_proto_is c' p = true.
Proof.
  intros [W _] Hp. pose proof (cw_proto c W) as (Hm & Hlo & Hhi & Hn & _).
  unfold cube_set_proto, range_apply, range_clip. case_if; [discriminate|].
  set (q := mkRange _ _ _). case_if; [discriminate|]. case_if; [|discriminate].
  assert (r_lo q = p /\ r_hi q = p) as [El Eh].
  { revert Heqb0. subst q; cbn. repeat case_if; lia. }
  destruct (range_normalize_ok q) as [_ _ B _ _]; [lia|lia|].
  intros E; injection E; intros <-. unfold cube_proto_is; cbn [c_proto with_proto fst]. lia.
Qed.

(** A port test that must hold: split by protocol where it is not known. *)
Section Port.
Variable i : WINDIVERT_FILTER.
Variable local : bool.
Variable P : bool.
Hypothesis k_dir : k_direction k = 1 \/ k_direction k = 2.
Hypothesis port_arg : 0 <= w0 (arg i).
Hypothesis port_value : k_proto k = IPPROTO_TCP \/ k_proto k = IPPROTO_UDP ->
  P = test_z (test i)
        (if (if local then k_direction k =? 2 else k_direction k =? 1) then k_sport k else k_dport k)
        (w0 (arg i)).

Definition port_cubes (c : pf_cube) : list pf_cube :=
  by_direction c local (fun alt use_src => local_port alt use_src (test i) (w0 (arg i))).

Lemma port_cubes_ok c : cube_inv v4 c ->
  cube_proto_is c IPPROTO_TCP = true \/ cube_proto_is c IPPROTO_UDP = true ->
  branch_ok v4 k c P (port_cubes c).
Proof.
  intros Hc Hp. eapply branch_ext;
    [apply (by_direction_ok c local _
       (fun s => test_z (test i) (if s : bool then k_sport k else k_dport k) (w0 (arg i)))); auto|].
  - intros d Hd Hc'. now apply local_port_ok.
  - intros M. symmetry. apply port_value.
    destruct Hp as [Hp|Hp]; [left|right]; exact (proto_is_mem _ _ Hp M).
Qed.

Lemma split_ports_ok c rec : cube_inv v4 c ->
  (forall d, cube_proto_is d IPPROTO_TCP = true \/ cube_proto_is d IPPROTO_UDP = true ->
     rec d = port_cubes d) ->
  branch_ok v4 k c P (split_ports c rec).
Proof.
  intros Hc Hr. unfold split_ports. cbn [flat_map]. rewrite app_nil_r, <- app_assoc.
  assert (One : forall p, p = IPPROTO_TCP \/ p = IPPROTO_UDP ->
    branch_ok v4 k c ((k_proto k =? p) && P)
      (match cube_set_proto c p with None => [] | Some d => rec d end)).
  { intros p Hp. assert (0 <= p <= 255) by (destruct Hp as [-> | ->]; compute; intuition discriminate).
    apply branch_bind_opt; [apply set_proto_ok; [exact Hk|exact Hc|lia]|].
    intros d Hd Id. pose proof (set_proto_is c p d Hc H Hd) as Hi.
    assert (Hi' : cube_proto_is d IPPROTO_TCP = true \/ cube_proto_is d IPPROTO_UDP = true)
      by (destruct Hp as [-> | ->]; auto).
    rewrite Hr by exact Hi'. now apply port_cubes_ok. }
  eapply branch_ext; [apply branch_app; [apply One; auto|apply branch_app; [apply One; auto|]]|].
  - apply branch_bind_opt; [apply apply_proto_ok; [exact Hk|exact Hc|compute; discriminate]|].
    intros d _ Id. apply branch_bind_opt; [apply apply_proto_ok; [exact Hk|exact Id|compute; discriminate]|].
    intros e _ Ie. apply (branch_widen _ _ _ P). exact Ie.
  - intros _. unfold test_z. btauto.
Qed.
End Port.
End Insn.

(** ** The evaluator on one instruction *)

(** Result of the test [t] on the value of the instruction's field. *)
Definition val_test (a : exec_args) (i : WINDIVERT_FILTER) (t : TEST) : bool :=
  match fetch_field a (field i) (w1 (arg i)) with
  | FVal n bg v => test_result t (WinDivertCompare128 n v (neg i) (arg i) bg)
  | _ => false
  end.

Lemma holds_val a i : WinDivertValidateField (a_layer a) (field i) = true ->
  holds a i = header_present a (field i) && val_test a i (test i).
Proof.
  intros Hv. unfold holds, exec_insn, val_test. rewrite Hv. cbn [negb].
  destruct (header_present a (field i)); [|reflexivity].
  now destruct (fetch_field a (field i) (w1 (arg i))).
Qed.

Lemma cmp_small t v b : 0 <= v -> 0 <= w0 b ->
  test_result t (WinDivertCompare128 false (W128 v 0 0 0) false b false) = test_z t v (w0 b).
Proof.
  intros Hv Hb. unfold WinDivertCompare128, cmp_word; cbn [andb negb w0].
  destruct t; unfold test_z; cbn; repeat case_if; lia.
Qed.

Lemma cmp_big t a b : wf128 a -> wf128 b ->
  test_result t (WinDivertCompare128 false a false b true) = test_z t (val128 a) (val128 b).
Proof. intros Ha Hb. now apply (compare128_test t false a false b true). Qed.

Section Eval.
Variable a : exec_args.
Variable k : pf_pkt.
Hypothesis Hag : agrees a k.
Hypothesis Hmap : no_mapped k.
Hypothesis Hargs : args_ok a.

Definition is_v4 : bool := k_ver k =? 4.

Lemma eval_fam : k_ver k = 4 \/ k_ver k = 6.
Proof. destruct (ag_family a k Hag) as [(? & _)|(? & _)]; auto. Qed.

Lemma eval_mapped : is_mapped_ipv4 (k_src k) = (k_ver k =? 4) /\
                    is_mapped_ipv4 (k_dst k) = (k_ver k =? 4).
Proof.
  destruct (ag_family a k Hag) as [(E & Hi & _)|(E & _)].
  - destruct (a_ip_header a) as [h|] eqn:Eh; [|congruence].
    destruct (ag_ip a k Hag h Eh) as (_ & _ & -> & ->). now rewrite E.
  - rewrite E. now apply Hmap.
Qed.

Lemma eval_headers : non_null (a_ip_header a) = (k_ver k =? 4) /\
                     non_null (a_ipv6_header a) = (k_ver k =? 6).
Proof.
  destruct (ag_family a k Hag) as [(-> & Hi & ->)|(-> & -> & Hi)]; split; try reflexivity;
    destruct (a_ip_header a), (a_ipv6_header a); try reflexivity; congruence.
Qed.

Lemma eval_dir : a_layer a = LAYER_NETWORK -> k_direction k = 1 \/ k_direction k = 2.
Proof. intros H. rewrite (ag_dir a k Hag H). destruct (a_outbound a); auto. Qed.

(** Header conditions on cubes and headers found by the evaluator. *)
Lemma header_cond f : header_present a f =
  match f with
  | FIELD_IP_HDRLENGTH | FIELD_IP_TOS | FIELD_IP_LENGTH | FIELD_IP_ID | FIELD_IP_DF
  | FIELD_IP_MF | FIELD_IP_FRAGOFF | FIELD_IP_TTL | FIELD_IP_PROTOCOL | FIELD_IP_CHECKSUM
  | FIELD_IP_SRCADDR | FIELD_IP_DSTADDR => k_ver k =? 4
  | FIELD_IPV6_TRAFFICCLASS | FIELD_IPV6_FLOWLABEL | FIELD_IPV6_LENGTH | FIELD_IPV6_NEXTHDR
  | FIELD_IPV6_HOPLIMIT | FIELD_IPV6_SRCADDR | FIELD_IPV6_DSTADDR => k_ver k =? 6
  | FIELD_ICMP_TYPE | FIELD_ICMP_CODE | FIELD_ICMP_CHECKSUM | FIELD_ICMP_BODY =>
    (k_ver k =? 4) && (k_proto k =? IPPROTO_ICMP)
  | FIELD_ICMPV6_TYPE | FIELD_ICMPV6_CODE | FIELD_ICMPV6_CHECKSUM | FIELD_ICMPV6_BODY =>
    (k_ver k =? 6) && (k_proto k =? IPPROTO_ICMPV6)
  | FIELD_TCP_SRCPORT | FIELD_TCP_DSTPORT | FIELD_TCP_SEQNUM | FIELD_TCP_ACKNUM
  | FIELD_TCP_HDRLENGTH | FIELD_TCP_URG | FIELD_TCP_ACK | FIELD_TCP_PSH | FIELD_TCP_RST
  | FIELD_TCP_SYN | FIELD_TCP_FIN | FIELD_TCP_WINDOW | FIELD_TCP_CHECKSUM | FIELD_TCP_URGPTR
  | FIELD_TCP_PAYLOAD | FIELD_TCP_PAYLOAD16 | FIELD_TCP_PAYLOAD32 | FIELD_TCP_PAYLOADLENGTH =>
    k_proto k =? IPPROTO_TCP
  | FIELD_UDP_SRCPORT | FIELD_UDP_DSTPORT | FIELD_UDP_LENGTH | FIELD_UDP_CHECKSUM
  | FIELD_UDP_PAYLOAD | FIELD_UDP_PAYLOAD16 | FIELD_UDP_PAYLOAD32 | FIELD_UDP_PAYLOADLENGTH =>
    k_proto k =? IPPROTO_UDP
  | _ => true
  end.
Proof.
  destruct eval_headers as [E4 E6]. pose proof (ag_tcp a k Hag). pose proof (ag_udp a k Hag).
  pose proof (ag_icmp a k Hag). pose proof (ag_icmpv6 a k Hag).
  destruct f; cbn [header_present]; congruence.
Qed.

Lemma eval_pkt : pkt_ok is_v4 k.
Proof.
  split; [apply (ag_range a k Hag)|apply (ag_addr a k Hag)|reflexivity|exact eval_fam|exact eval_mapped].
Qed.

Lemma require_header_ok c f : cube_inv is_v4 c ->
  branch_ok is_v4 k c (header_present a f) (opt_list (cube_require_header c f)).
Proof.
  intros Hc. pose proof eval_pkt as Hk. rewrite header_cond.
  destruct f; cbn [cube_require_header];
    first [ apply branch_same; [exact Hc|intros _; reflexivity]
          | apply set_ver_ok; [exact Hk|exact Hc|auto]
          | apply set_proto_ok; [exact Hk|exact Hc|compute; discriminate]
          | apply set_ver_proto_ok; [exact Hk|exact Hc|compute; discriminate|auto] ].
Qed.

Lemma set_ver_mem c ver c' : cube_set_ver c ver = Some c' -> ver <> 0 ->
  c_ver c' = ver /\ (cube_mem c' k = true -> k_ver k = ver).
Proof.
  unfold cube_set_ver. case_if; [discriminate|]. intros E Hz; inversion E; subst. cbn.
  split; [reflexivity|]. rewrite (cube_mem_ver _ k eval_pkt). unfold mem_ver; cbn. lia.
Qed.

(** A required header is there for every member of the cube. *)
Lemma require_header_mem c f c' : cube_inv is_v4 c -> cube_require_header c f = Some c' ->
  cube_mem c' k = true -> header_present a f = true.
Proof.
  intros Hc Hr Hm. pose proof eval_pkt as Hk. rewrite header_cond.
  assert (Sv : forall d v d', cube_set_ver d v = Some d' -> v <> 0 -> cube_mem d' k = true ->
    (k_ver k =? v) = true) by (intros; apply Z.eqb_eq; eapply set_ver_mem; eauto).
  assert (Sp : forall d p d', cube_inv is_v4 d -> 0 <= p <= 255 -> cube_set_proto d p = Some d' ->
    cube_mem d' k = true -> (k_proto k =? p) = true)
    by (intros; apply Z.eqb_eq; eapply (proto_is_mem is_v4 k Hk); [eapply (set_proto_is is_v4 k Hk)|]; eauto).
  assert (Svp : forall v p, v = 4 \/ v = 6 -> 0 <= p <= 255 -> set_ver_proto c v p = Some c' ->
    (k_ver k =? v) && (k_proto k =? p) = true).
  { intros v p Hv Hp. unfold set_ver_proto. destruct (cube_set_ver c v) as [d|] eqn:Ed; [|discriminate].
    intros E. assert (Id : cube_inv is_v4 d).
    { destruct (set_ver_ok is_v4 k Hk c v Hc Hv) as [_ X]. rewrite Ed in X. now apply (X d (or_introl eq_refl)). }
    rewrite (Sp _ _ _ Id Hp E Hm), andb_true_r. destruct (set_ver_mem _ _ _ Ed ltac:(lia)) as [Ev _].
    unfold cube_set_proto in E. destruct (range_apply _ _ _ _ _) as [[r e]|]; [|discriminate].
    inversion E; subst c'. rewrite cube_mem_spec in Hm. destruct Hm; cbn in *. lia. }
  destruct f; cbn [cube_require_header] in Hr;
    first [ reflexivity | apply (Sv _ _ _ Hr); [discriminate|exact Hm]
          | eapply Sp; [exact Hc| |exact Hr|exact Hm]; compute; intuition discriminate
          | apply Svp; [auto|compute; intuition discriminate|exact Hr] ].
Qed.

Lemma has_header_mem c f : cube_has_header c f = true -> cube_mem c k = true ->
  header_present a f = true.
Proof.
  intros Hh Hm. rewrite header_cond. pose proof eval_pkt as Hk.
  assert (Hv : forall v, (c_ver c =? v) = true -> v <> 0 -> (k_ver k =? v) = true).
  { intros v. rewrite cube_mem_spec in Hm. destruct Hm. lia. }
  assert (Hp : forall p, cube_proto_is c p = true -> (k_proto k =? p) = true)
    by (intros p Ep; apply Z.eqb_eq; exact (proto_is_mem _ _ Hk _ _ Ep Hm)).
  destruct f; cbn [cube_has_header] in Hh; try discriminate Hh; try reflexivity;
    try (apply andb_true_iff in Hh; destruct Hh as [Hh Hh2]; rewrite (Hp _ Hh2), andb_true_r);
    (apply Hp; exact Hh) || (apply Hv; [exact Hh|discriminate]).
Qed.

(** [pf_absent] covers the packets without the header. *)
Lemma absent_ok c f l : cube_inv is_v4 c -> pf_absent c f = Some l ->
  branch_ok is_v4 k c (negb (header_present a f)) l.
Proof.
  intros Hc. rewrite header_cond. pose proof eval_pkt as Hk. pose proof eval_fam as Hf.
  destruct f; cbn [pf_absent]; try discriminate; intros E; inversion E; subst; clear E;
    first [ apply absent_proto_ok; [exact Hk|exact Hc|compute; discriminate]
          | eapply branch_ext; [apply set_ver_ok; [exact Hk|exact Hc|auto]
                               |intros _; destruct Hf as [-> | ->]; reflexivity]
          | eapply branch_ext; [apply absent_ver_proto_ok; [exact Hk|exact Hc|compute; discriminate|auto..]
                               |intros _; destruct Hf as [-> | ->]; reflexivity] ].
Qed.

(** Values of the numeric fields the rules constrain. *)
Definition num_value (f : FIELD) : Z :=
  match f with
  | FIELD_IP_PROTOCOL => k_proto k
  | FIELD_IP_TTL | FIELD_IPV6_HOPLIMIT => k_ttl k
  | FIELD_TCP_SRCPORT | FIELD_UDP_SRCPORT | FIELD_ICMP_TYPE | FIELD_ICMPV6_TYPE => k_sport k
  | _ => k_dport k
  end.

Definition num_field (f : FIELD) : bool :=
  match f with
  | FIELD_IP_PROTOCOL | FIELD_IP_TTL | FIELD_IPV6_HOPLIMIT | FIELD_TCP_SRCPORT
  | FIELD_UDP_SRCPORT | FIELD_ICMP_TYPE | FIELD_ICMPV6_TYPE | FIELD_TCP_DSTPORT
  | FIELD_UDP_DSTPORT | FIELD_ICMP_CODE | FIELD_ICMPV6_CODE => true
  | _ => false
  end.

Lemma fetch_num f x : num_field f = true -> header_present a f = true ->
  fetch_field a f x = small (num_value f).
Proof.
  intros Hn Hp. destruct f; try discriminate Hn; cbn in Hp |- *;
    unfold fetch_ip, fetch_ipv6, fetch_icmp, fetch_tcp, fetch_udp;
    match goal with |- context [deref ?o _] => destruct o as [h|] eqn:E; [|discriminate Hp] end; cbn [deref];
    load_ok Hargs; cbn;
    first [ destruct (ag_ip a k Hag h E) as (E1 & E2 & _)
          | destruct (ag_ipv6 a k Hag h E) as (E1 & _); pose proof E1 as E2
          | destruct (ag_tcp_ports a k Hag h E) as (E1 & E2)
          | destruct (ag_udp_ports a k Hag h E) as (E1 & E2)
          | destruct (ag_icmp_type a k Hag h (or_introl E)) as (E1 & E2)
          | destruct (ag_icmp_type a k Hag h (or_intror E)) as (E1 & E2) ];
    rewrite ?E1, ?E2; reflexivity.
Qed.

Lemma num_value_nonneg f : 0 <= num_value f.
Proof. pose proof (ag_range a k Hag). destruct f; cbn; lia. Qed.

Definition addr_field (f : FIELD) : bool :=
  match f with
  | FIELD_IP_SRCADDR | FIELD_IP_DSTADDR | FIELD_IPV6_SRCADDR | FIELD_IPV6_DSTADDR => true
  | _ => false
  end.

Definition addr_value (f : FIELD) : u128 :=
  match f with FIELD_IP_SRCADDR | FIELD_IPV6_SRCADDR => k_src k | _ => k_dst k end.

Lemma fetch_addr_field f x : addr_field f = true -> header_present a f = true ->
  fetch_field a f x = FVal false true (addr_value f).
Proof.
  intros Hn Hp. destruct f; try discriminate Hn; cbn in Hp |- *; unfold fetch_ip, fetch_ipv6;
    match goal with |- context [deref ?o _] => destruct o as [h|] eqn:E; [|discriminate Hp] end; cbn [deref];
    load_ok Hargs; cbn;
    first [ destruct (ag_ip a k Hag h E) as (_ & _ & E1 & E2)
          | destruct (ag_ipv6 a k Hag h E) as (_ & E1 & E2) ]; rewrite ?E1, ?E2; reflexivity.
Qed.

Definition flag_index (f : FIELD) : option Z :=
  match f with
  | FIELD_TCP_FIN => Some 0 | FIELD_TCP_SYN => Some 1 | FIELD_TCP_RST => Some 2
  | FIELD_TCP_PSH => Some 3 | FIELD_TCP_ACK => Some 4 | FIELD_TCP_URG => Some 5
  | _ => None
  end.

Lemma fetch_flag f x n : flag_index f = Some n -> header_present a f = true ->
  fetch_field a f x = small (b2z (Z.testbit (k_tcp_flags k) n)) /\ tcp_bit f = 2 ^ n /\ 0 <= n < 6.
Proof.
  intros Hn Hp. destruct f; try discriminate Hn; inversion Hn; subst;
    cbn [header_present fetch_field] in Hp |- *;
    unfold fetch_tcp; destruct (a_tcp_header a) as [h|] eqn:E; try discriminate Hp; cbn [deref]; load_ok Hargs;
    (split; [|split; [reflexivity|lia]]); rewrite <- (ag_tcp_flags a k Hag h _ E) by lia; reflexivity.
Qed.

(** The fields that read 0 or 1 whatever the headers. *)
Definition bool_value (f : FIELD) : option bool :=
  match f with
  | FIELD_INBOUND => Some (negb (a_outbound a))
  | FIELD_OUTBOUND => Some (a_outbound a)
  | FIELD_LOOPBACK => Some (a_loopback a)
  | FIELD_IP => Some (k_ver k =? 4)
  | FIELD_IPV6 => Some (k_ver k =? 6)
  | FIELD_TCP => Some (k_proto k =? IPPROTO_TCP)
  | FIELD_UDP => Some (k_proto k =? IPPROTO_UDP)
  | FIELD_ICMP => Some ((k_ver k =? 4) && (k_proto k =? IPPROTO_ICMP))
  | FIELD_ICMPV6 => Some ((k_ver k =? 6) && (k_proto k =? IPPROTO_ICMPV6))
  | _ => None
  end.

Lemma fetch_bool f x b : bool_value f = Some b -> fetch_field a f x = small (b2z b).
Proof.
  intros Hb. destruct eval_headers as [E4 E6]. pose proof (ag_tcp a k Hag) as Et.
  pose proof (ag_udp a k Hag) as Eu. pose proof (ag_icmp a k Hag) as Ei.
  pose proof (ag_icmpv6 a k Hag) as Ev.
  destruct f; try discriminate Hb; injection Hb as <-;
    cbn [fetch_field fetch_meta fetch_presence]; unfold proto_field;
    destruct (ag_layer a k Hag) as [El|El]; rewrite ?El; congruence.
Qed.

(** Tests on values, through the comparisons of the evaluator. *)
Lemma val_test_bool i t b : bool_value (field i) = Some b ->
  val_test a i t = bool_test t (w0 (arg i)) (neg i) b.
Proof. intros H. unfold val_test. rewrite (fetch_bool _ _ _ H). reflexivity. Qed.

Lemma val_test_num i t v : fetch_field a (field i) (w1 (arg i)) = small v -> neg i = false ->
  0 <= v -> wf128 (arg i) -> val_test a i t = test_z t v (w0 (arg i)).
Proof.
  intros E Hn Hv Ha. unfold val_test. rewrite E, Hn. apply cmp_small; [exact Hv|apply Ha].
Qed.

Lemma val_test_big i t v : fetch_field a (field i) (w1 (arg i)) = FVal false true v ->
  neg i = false -> wf128 v -> wf128 (arg i) -> val_test a i t = test_z t (val128 v) (val128 (arg i)).
Proof. intros E Hn Hv Ha. unfold val_test. rewrite E, Hn. now apply cmp_big. Qed.

(** [local]: is the field a [local*] one; the value is read on the source
    side when that is where the local end is. *)
Lemma fetch_local_addr (local : bool) x : a_layer a = LAYER_NETWORK ->
  fetch_field a (if local then FIELD_LOCALADDR else FIELD_REMOTEADDR) x =
  FVal false true (if (if local then k_direction k =? 2 else k_direction k =? 1)
                   then k_src k else k_dst k).
Proof.
  intros El. rewrite (ag_dir a k Hag El).
  destruct local; cbn [fetch_field fetch_layer]; unfold fetch_addr; rewrite El;
    destruct (ag_family a k Hag) as [(Ev & Hi & Hn)|(Ev & Hn & Hi)]; rewrite ?Hn;
    destruct (a_ip_header a) as [h|] eqn:Eh; try congruence;
    try (destruct (a_ipv6_header a) as [h|] eqn:Eh'; [|congruence]); load_ok Hargs;
    first [ destruct (ag_ip a k Hag h Eh) as (_ & _ & -> & ->)
          | destruct (ag_ipv6 a k Hag h Eh') as (_ & -> & ->) ];
    destruct (a_outbound a); reflexivity.
Qed.

Lemma fetch_local_port (local : bool) x : a_layer a = LAYER_NETWORK ->
  k_proto k = IPPROTO_TCP \/ k_proto k = IPPROTO_UDP ->
  fetch_field a (if local then FIELD_LOCALPORT else FIELD_REMOTEPORT) x =
  small (if (if local then k_direction k =? 2 else k_direction k =? 1)
         then k_sport k else k_dport k).
Proof.
  intros El Hp. rewrite (ag_dir a k Hag El). pose proof (ag_tcp a k Hag) as Et.
  pose proof (ag_udp a k Hag) as Eu.
  destruct local; cbn [fetch_field fetch_layer]; unfold fetch_port; rewrite El;
    destruct (a_tcp_header a) as [h|] eqn:Eh; load_ok Hargs;
    try (destruct (ag_tcp_ports a k Hag h Eh) as [<- <-]; destruct (a_outbound a); reflexivity);
    destruct (a_udp_header a) as [h|] eqn:Eh'; load_ok Hargs;
    try (destruct (ag_udp_ports a k Hag h Eh') as [<- <-]; destruct (a_outbound a); reflexivity);
    exfalso; cbn in Et, Eu; lia.
Qed.

(** What [pf_branch] knows about the cube when it reaches the [switch]. *)
Definition switch_ver (c : pf_cube) (f : FIELD) : Prop :=
  match f with
  | FIELD_IP_SRCADDR | FIELD_IP_DSTADDR => c_ver c = 4
  | FIELD_IPV6_SRCADDR | FIELD_IPV6_DSTADDR => c_ver c = 6
  | _ => True
  end.

Definition is_local_field (f : FIELD) : bool :=
  match f with
  | FIELD_LOCALADDR | FIELD_REMOTEADDR | FIELD_LOCALPORT | FIELD_REMOTEPORT => true
  | _ => false
  end.

Lemma lowerable_arg i : lowerable is_v4 i = true -> wf128 (arg i).
Proof. unfold lowerable. intros H. b2p. now apply arg_ok_wf128. Qed.

Lemma lowerable_neg i : lowerable is_v4 i = true -> numeric_field (field i) = true -> neg i = false.
Proof.
  unfold lowerable. intros H Hn. rewrite Hn in H. destruct (neg i); [|reflexivity].
  cbn [andb negb] in H. rewrite andb_false_r in H. discriminate H.
Qed.

Lemma lowerable_mapped i : lowerable is_v4 i = true -> is_local_addr (field i) = true ->
  if is_v4 then is_mapped_ipv4 (arg i) = true else edge4 (arg i) = false.
Proof.
  unfold lowerable. intros H Hn. assert (is_ipv6_addr (field i) = true)
    by (destruct (field i); (reflexivity || discriminate Hn)).
  rewrite !andb_true_iff, !negb_true_iff in H. destruct H as [[_ H1] H2]. rewrite Hn in H1.
  rewrite H0 in H2. destruct is_v4; cbn [negb andb] in *; [|exact H2].
  now destruct (is_mapped_ipv4 (arg i)).
Qed.

Lemma lowerable_edge i : lowerable is_v4 i = true -> is_ipv6_addr (field i) = true ->
  is_v4 = false -> edge4 (arg i) = false.
Proof.
  unfold lowerable. intros H Hn E. rewrite !andb_true_iff, !negb_true_iff in H.
  destruct H as [_ H]. now rewrite Hn, E in H.
Qed.

(** Local and remote fields, on a branch where the test holds. *)
Lemma branch_local_ok i (local is_addr : bool) c rec : a_layer a = LAYER_NETWORK ->
  lowerable is_v4 i = true -> cube_inv is_v4 c ->
  field i = (if is_addr then (if local then FIELD_LOCALADDR else FIELD_REMOTEADDR)
             else (if local then FIELD_LOCALPORT else FIELD_REMOTEPORT)) ->
  (is_addr = false -> forall d,
     cube_proto_is d IPPROTO_TCP = true \/ cube_proto_is d IPPROTO_UDP = true ->
     rec d = port_cubes i local d) ->
  branch_ok is_v4 k c (val_test a i (test i)) (branch_local i true local is_addr (test i) c rec).
Proof.
  intros El Hl Hc Hf Hr. pose proof eval_pkt as Hk. pose proof (lowerable_arg i Hl) as Ha.
  assert (Hn : neg i = false)
    by (apply lowerable_neg; [exact Hl|rewrite Hf; destruct is_addr, local; reflexivity]).
  pose proof (eval_dir El) as Hd. pose proof (ag_addr a k Hag) as [Ws Wd].
  unfold branch_local. rewrite Hn. destruct is_addr; cbn [negb andb].
  - rewrite (val_test_big i _ _ (eq_trans (f_equal (fun f => fetch_field a f _) Hf)
      (fetch_local_addr local _ El)) Hn); [|clear - Ws Wd; repeat case_if; assumption|exact Ha].
    apply (by_direction_ok is_v4 k Hk c local _
      (fun s => test_z (test i) (val128 (if s : bool then k_src k else k_dst k)) (val128 (arg i))));
      [exact Hc| |exact Hd].
    intros d _ Hc'. apply local_addr_ok; [exact Hk|exact Hc'|exact Ha|].
    apply lowerable_mapped; [exact Hl|]. rewrite Hf. now destruct local.
  - assert (Hp : k_proto k = IPPROTO_TCP \/ k_proto k = IPPROTO_UDP -> val_test a i (test i) =
      test_z (test i) (if (if local then k_direction k =? 2 else k_direction k =? 1)
                       then k_sport k else k_dport k) (w0 (arg i))).
    { intros Hp. apply val_test_num; [rewrite Hf; now apply fetch_local_port|exact Hn| |exact Ha].
      pose proof (ag_range a k Hag) as R. clear - R. repeat case_if; lia. }
    assert (0 <= w0 (arg i)) by apply Ha.
    destruct (cube_proto_is c IPPROTO_TCP) eqn:Et; [apply port_cubes_ok; auto|].
    destruct (cube_proto_is c IPPROTO_UDP) eqn:Eu; [apply port_cubes_ok; auto|].
    apply (split_ports_ok is_v4 k Hk i local); auto.
Qed.

Lemma zero_test_num i t : neg i = false -> wf128 (arg i) ->
  zero_test t (w0 (arg i)) (neg i) = test_z t 0 (w0 (arg i)).
Proof.
  intros Hn (H0 & _). unfold is_u32 in H0. rewrite Hn. unfold zero_test.
  destruct t; unfold test_z; cbn [test_result]; case_if; lia.
Qed.

(** Tests on present fields, in terms of the packet. *)
Lemma val_num i t : lowerable is_v4 i = true -> num_field (field i) = true ->
  header_present a (field i) = true ->
  test_z t (num_value (field i)) (w0 (arg i)) = val_test a i t.
Proof.
  intros Hl Hf Hp. symmetry. apply val_test_num; [now apply fetch_num| |apply num_value_nonneg|].
  - apply lowerable_neg; [exact Hl|]. destruct (field i); (reflexivity || discriminate Hf).
  - now apply lowerable_arg.
Qed.

Lemma val_addr i t : lowerable is_v4 i = true -> addr_field (field i) = true ->
  header_present a (field i) = true ->
  test_z t (val128 (addr_value (field i))) (val128 (arg i)) = val_test a i t.
Proof.
  intros Hl Hf Hp. symmetry. pose proof (ag_addr a k Hag) as [Ws Wd].
  apply val_test_big; [now apply fetch_addr_field| | |now apply lowerable_arg].
  - apply lowerable_neg; [exact Hl|]. destruct (field i); (reflexivity || discriminate Hf).
  - destruct (field i); assumption.
Qed.

Lemma flag_ok i t c n : lowerable is_v4 i = true -> cube_inv is_v4 c ->
  flag_index (field i) = Some n -> (cube_mem c k = true -> header_present a (field i) = true) ->
  branch_ok is_v4 k c (val_test a i t)
    (opt_list (branch_flag c (tcp_bit (field i)) t (w0 (arg i)) (neg i))).
Proof.
  intros Hl Hc Hf Hp. assert (Hb : tcp_bit (field i) = 2 ^ n /\ 0 <= n < 6)
    by (clear - Hf; destruct (field i); inversion Hf; subst; cbn; split; (reflexivity || lia)).
  destruct Hb as [-> Hn]. pose proof (lowerable_arg i Hl) as Ha.
  eapply branch_ext; [apply branch_flag_ok; [exact eval_pkt|exact Hc|exact Hn|apply Ha]|].
  intros M. destruct (fetch_flag _ (w1 (arg i)) n Hf (Hp M)) as (E & _).
  unfold val_test. rewrite E. reflexivity.
Qed.

Lemma forward_field l f : WinDivertValidateField l f = true ->
  l = LAYER_NETWORK \/ l = LAYER_NETWORK_FORWARD ->
  WinDivertValidateField LAYER_NETWORK_FORWARD f = false -> l = LAYER_NETWORK.
Proof. intros Hv [->| ->] H; congruence. Qed.

(** The [switch], apart from the local and remote fields. *)
Lemma switch_ok i positive t c rec :
  WinDivertValidateField (a_layer a) (field i) = true -> lowerable is_v4 i = true ->
  cube_inv is_v4 c -> field i <> FIELD_ZERO -> is_local_field (field i) = false ->
  switch_ver c (field i) -> (cube_mem c k = true -> header_present a (field i) = true) ->
  branch_ok is_v4 k c (val_test a i t) (branch_switch i positive t c rec).
Proof.
  intros Hv Hl Hc Hz Hloc Hver Hpres. pose proof eval_pkt as Hk. pose proof eval_fam as Hfam.
  pose proof (lowerable_arg i Hl) as Ha. pose proof (lowerable_neg i Hl) as Hneg.
  assert (Ha0 : 0 <= w0 (arg i)) by apply Ha.
  pose proof (fun Hf M => val_num i t Hl Hf (Hpres M)) as Num.
  pose proof (fun Hf M => val_addr i t Hl Hf (Hpres M)) as Adr.
  pose proof (fun n Hf => flag_ok i t c n Hl Hc Hf Hpres) as Flg.
  pose proof (fun b => val_test_bool i t b) as Boo.
  pose proof (forward_field _ _ Hv (ag_layer a k Hag)) as Lay.
  pose proof (lowerable_edge i Hl) as Edg.
  unfold branch_switch.
  destruct (field i) eqn:Ef; try discriminate Hloc; try congruence;
    try (rewrite (Hneg eq_refl); cbn [unless]);
    lazymatch goal with
    | |- branch_ok _ _ _ _ [with_exact _ _] => apply branch_widen; exact Hc
    | |- branch_ok _ _ _ _ (opt_list (apply_proto _ _ _)) =>
      eapply branch_ext; [exact (apply_proto_ok _ _ Hk _ _ _ Hc Ha0)|exact (Num eq_refl)]
    | |- branch_ok _ _ _ _ (opt_list (apply_sport _ _ _)) =>
      eapply branch_ext; [exact (apply_sport_ok _ _ Hk _ _ _ Hc Ha0)|exact (Num eq_refl)]
    | |- branch_ok _ _ _ _ (opt_list (apply_dport _ _ _)) =>
      eapply branch_ext; [exact (apply_dport_ok _ _ Hk _ _ _ Hc Ha0)|exact (Num eq_refl)]
    | |- branch_ok _ _ _ _ (match t with TEST_EQ => _ | _ => _ end) =>
      destruct t; try (apply branch_widen; exact Hc);
      (eapply branch_ext; [exact (apply_ttl_ok _ _ Hk _ _ _ Hc Ha0)|exact (Num eq_refl)])
    | |- branch_ok _ _ _ _ (opt_list (branch_addr _ ?s ?v _ _)) =>
      eapply branch_ext; [apply (branch_addr_ok _ _ Hk _ s v _ _ Hc Ha Hver)|exact (Adr eq_refl)];
      rewrite ?orb_true_r, ?orb_false_r; (discriminate || exact (Edg eq_refl))
    | |- branch_ok _ _ _ _ (opt_list (branch_flag _ _ _ _ _)) => exact (Flg _ eq_refl)
    | |- branch_ok _ _ _ _ (opt_list (branch_dir _ ?w _ _ _)) => rewrite (Boo _ eq_refl);
      exact (branch_dir_ok _ _ Hk _ w _ _ _ _ Hc Ha0 (ag_dir a k Hag (Lay eq_refl)))
    | |- branch_ok _ _ _ _ (opt_list (branch_ver _ ?w _ _ _)) => rewrite (Boo _ eq_refl);
      exact (branch_ver_ok _ _ Hk _ w _ _ _ Hc Ha0 Hfam)
    | |- branch_ok _ _ _ _ (opt_list (option_map _ _)) => rewrite (Boo _ eq_refl);
      exact (loopback_ok _ _ Hk _ _ _ _ _ Hc Ha0 (ag_loopback a k Hag))
    | |- branch_ok _ _ _ _ (branch_proto _ _ _ _ _ _) => rewrite (Boo _ eq_refl);
      eapply branch_ext; [apply branch_proto_ok; auto; compute; discriminate|intros _; reflexivity]
    | |- _ => idtac
    end.
  rewrite <- (Hneg eq_refl), zero_test_num by (apply Hneg || exact Ha; reflexivity).
  rewrite (val_test_num i t 0);
    [|rewrite Ef; cbn; now rewrite (ag_event a k Hag)|now apply Hneg|apply Z.le_refl|exact Ha].
  destruct (test_z t 0 (w0 (arg i))); [apply branch_same; auto|apply branch_nil; auto].
Qed.

(** The required header's version is in the cube. *)
Lemma require_header_ver c f c' : cube_require_header c f = Some c' -> switch_ver c' f.
Proof.
  destruct f; cbn; try exact (fun _ => I); unfold cube_set_ver; case_if; try discriminate;
    intros E; inversion E; reflexivity.
Qed.

Lemma has_header_ver c f : cube_has_header c f = true -> switch_ver c f.
Proof. destruct f; cbn; try exact (fun _ => I); lia. Qed.

Lemma presence_facts f : presence_field f = true ->
  header_present a f = true /\ is_local_field f = false /\ forall c, switch_ver c f.
Proof. destruct f; cbn; try discriminate; auto. Qed.

(** Fields with a representable absence have a value when they are present. *)
Lemma val_test_negate i t c l : pf_absent c (field i) = Some l \/ cube_has_header c (field i) = true \/
    presence_field (field i) = true ->
  WinDivertValidateField (a_layer a) (field i) = true -> header_present a (field i) = true ->
  val_test a i (negate_test t) = negb (val_test a i t).
Proof.
  intros Hf Hv Hp. unfold val_test.
  assert (E : exists n b v, fetch_field a (field i) (w1 (arg i)) = FVal n b v).
  { destruct (bool_value (field i)) as [b|] eqn:Eb; [do 3 eexists; exact (fetch_bool _ _ _ Eb)|].
    destruct (num_field (field i)) eqn:En; [do 3 eexists; now apply fetch_num|].
    destruct (addr_field (field i)) eqn:Ea; [do 3 eexists; now apply fetch_addr_field|].
    destruct (flag_index (field i)) as [n|] eqn:Ef;
      [do 3 eexists; exact (proj1 (fetch_flag _ (w1 (arg i)) _ Ef Hp))|].
    destruct (field i); try discriminate; cbn in Hf;
      try (destruct Hf as [Hf|[Hf|Hf]]; discriminate Hf). do 3 eexists; reflexivity. }
  destruct E as (n & b & v & ->). apply negate_test_result.
Qed.

Section Call.
Variable i : WINDIVERT_FILTER.
Variable c : pf_cube.
Hypothesis Hv : WinDivertValidateField (a_layer a) (field i) = true.
Hypothesis Hl : lowerable is_v4 i = true.
Hypothesis Hc : cube_inv is_v4 c.
Hypothesis Hz : field i <> FIELD_ZERO.

(** [pf_branch] for the success of the test. *)
Lemma branch_positive_ok :
  branch_ok is_v4 k c (Bool.eqb (holds a i) true) (branch_network 2 i true c).
Proof.
  rewrite (holds_val a i Hv). set (rec := branch_network 1 i true).
  replace (Bool.eqb _ true) with (header_present a (field i) && val_test a i (test i))
    by (now destruct (_ && _)).
  change (branch_network 2 i true c) with
    (match cube_require_header c (field i) with
     | None => [] | Some c => branch_switch i true (test i) c rec end).
  apply branch_bind_opt; [now apply require_header_ok|]. intros d Hd Id.
  destruct (is_local_field (field i)) eqn:El.
  + assert (Lay : a_layer a = LAYER_NETWORK)
      by (apply (forward_field _ _ Hv (ag_layer a k Hag)); destruct (field i); (discriminate El || reflexivity)).
    unfold branch_switch. destruct (field i) eqn:Ef; try discriminate El;
      [ apply (branch_local_ok i true true) | apply (branch_local_ok i false true)
      | apply (branch_local_ok i true false) | apply (branch_local_ok i false false) ];
      try assumption; try discriminate;
      intros _ e He; subst rec; cbn [branch_network]; rewrite Ef; cbn [cube_require_header];
      unfold branch_switch, branch_local; rewrite Ef;
      rewrite (lowerable_neg i Hl) by (rewrite Ef; reflexivity);
      destruct He as [-> | ->]; cbn [negb andb]; try reflexivity;
      now rewrite andb_false_r.
  + apply switch_ok; auto; [now apply require_header_ver in Hd|].
    now apply (require_header_mem c).
Qed.

(** [pf_branch] for its failure. *)
Lemma branch_negative_ok :
  branch_ok is_v4 k c (Bool.eqb (holds a i) false) (branch_network 2 i false c).
Proof.
  rewrite (holds_val a i Hv). set (rec := branch_network 1 i false).
  set (t' := negate_test (test i)).
  assert (Sw : forall d, cube_inv is_v4 d -> is_local_field (field i) = false ->
    switch_ver d (field i) -> (cube_mem d k = true -> header_present a (field i) = true) ->
    branch_ok is_v4 k d (val_test a i t') (branch_switch i false t' d rec))
    by (intros; now apply switch_ok).
  change (branch_network 2 i false c) with
    (if negb (presence_field (field i)) && negb (cube_has_header c (field i)) then
       match pf_absent c (field i) with
       | None => [with_exact c false]
       | Some l => l ++ match cube_require_header c (field i) with
                        | None => [] | Some c => branch_switch i false t' c rec end
       end
     else branch_switch i false t' c rec).
  destruct (negb (presence_field _) && _) eqn:Eh.
  + destruct (pf_absent c (field i)) as [l|] eqn:El; [|now apply branch_widen].
    eapply branch_ext; [apply branch_app; [exact (absent_ok _ _ _ Hc El)|
      apply branch_bind_opt; [exact (require_header_ok c (field i) Hc)|]]|].
    * intros d Hd Id. apply Sw; [exact Id|destruct (field i); (reflexivity || discriminate El)
        |exact (require_header_ver _ _ _ Hd)|exact (require_header_mem c _ d Hc Hd)].
    * intros _. destruct (header_present a (field i)) eqn:Ep; [|reflexivity].
      subst t'. rewrite (val_test_negate i (test i) c l) by auto. now destruct (val_test a i (test i)).
  + assert (Hp : cube_mem c k = true -> header_present a (field i) = true).
    { intros M. destruct (presence_field (field i)) eqn:Ep; [now apply presence_facts|].
      apply (has_header_mem c); [now destruct (cube_has_header c (field i))|exact M]. }
    assert (Hf : cube_has_header c (field i) = true \/ presence_field (field i) = true)
      by (destruct (presence_field (field i)), (cube_has_header c (field i)); auto; discriminate).
    eapply branch_ext; [apply Sw; [exact Hc| | |exact Hp]|].
    * destruct Hf as [Hf|Hf]; destruct (field i); (reflexivity || discriminate Hf).
    * destruct Hf as [Hf|Hf]; [now apply has_header_ver|now apply presence_facts].
    * intros M. rewrite (Hp M). subst t'. rewrite (val_test_negate i (test i) c []) by auto.
      now destruct (val_test a i (test i)).
Qed.
End Call.

(** One call of [pf_branch] is sound for the outcome [positive] of the test. *)
Lemma pf_branch_ok i positive c :
  WinDivertValidateField (a_layer a) (field i) = true -> lowerable is_v4 i = true ->
  cube_inv is_v4 c ->
  branch_ok is_v4 k c (Bool.eqb (holds a i) positive) (pf_branch false i positive c).
Proof.
  intros Hv Hl Hc. unfold pf_branch. destruct (field_eqb (field i) FIELD_ZERO) eqn:Ez.
  - apply field_eqb_eq in Ez. pose proof (lowerable_arg i Hl) as Ha.
    assert (Hn : neg i = false) by (apply (lowerable_neg i Hl); now rewrite Ez).
    assert (E : zero_test (test i) (w0 (arg i)) (neg i) = holds a i).
    { rewrite (holds_val a i Hv), zero_test_num by assumption. rewrite Ez at 1. cbn [header_present andb].
      symmetry. apply val_test_num; [now rewrite Ez|exact Hn|apply Z.le_refl|exact Ha]. }
    rewrite Ez, E. destruct (Bool.eqb (holds a i) positive);
      [apply branch_same; auto|apply branch_nil; auto].
  - assert (Hz : field i <> FIELD_ZERO) by (intros E; rewrite E in Ez; discriminate).
    replace (match field i with FIELD_ZERO => _ | _ => _ end) with (branch_network 2 i positive c)
      by (destruct (field i); congruence).
    destruct positive; [now apply branch_positive_ok|now apply branch_negative_ok].
Qed.
End Eval.
