(* ===== verification/PfWalk.v ===== *)
(** * The walk over a whole filter

    [pf_walk] on a well-formed filter: it terminates within its fuel, and the
    cubes it emits cover exactly the packets the evaluator accepts, up to the
    cubes it marked inexact. *)

From Stdlib Require Import ZArith List Bool Lia ZifyBool.
From S2P Require Import Prelude WdTypes WdPacket WdHash WdExec PfRange PfAddr PfCube PfBranch PfInsn.
Import ListNotations.

(** ** Termination: the state counter bounds the recursion *)

(** The counter never decreases, and is at most [PF_MAX_STATES] unless the
    walk has overflowed. *)
Definition ctx_ok (x : pf_ctx) : Prop :=
  0 <= x_states x /\ (x_states x <= PF_MAX_STATES \/ x_overflow x = true).

Definition ctx_le (x y : pf_ctx) : Prop :=
  ctx_ok y /\ x_states x <= x_states y /\ x_obj y = x_obj x /\ x_event_mode y = x_event_mode x.

Lemma ctx_le_refl x : ctx_ok x -> ctx_le x x.
Proof. intros H. repeat split; try apply H; lia. Qed.

Lemma ctx_le_trans x y z : ctx_le x y -> ctx_le y z -> ctx_le x z.
Proof. intros (A1 & A2 & A3 & A4) (B1 & B2 & B3 & B4). repeat split; try apply B1; congruence || lia. Qed.

Lemma fold_ctx_le {A} (g : pf_ctx -> A -> pf_ctx) l : forall x, ctx_ok x ->
  (forall y b, ctx_ok y -> ctx_le y (g y b)) -> ctx_le x (fold_left g l x).
Proof.
  induction l as [|b l IH]; intros x Hx Hg; cbn [fold_left]; [now apply ctx_le_refl|].
  pose proof (Hg x b Hx) as H. eapply ctx_le_trans; [exact H|]. apply IH; [apply H|exact Hg].
Qed.

Lemma emit_le x c : ctx_ok x -> ctx_le x (pf_emit x c).
Proof. intros [H0 H]. unfold pf_emit, ctx_le, ctx_ok. case_if; cbn; repeat split; auto; lia. Qed.

Lemma continue_le walk next x c : ctx_ok x -> (forall y ip d, ctx_ok y -> ctx_le y (walk y ip d)) ->
  ctx_le x (pf_continue walk next x c).
Proof.
  intros Hx Hw. unfold pf_continue.
  case_if; [now apply emit_le|]. case_if; [now apply Hw|now apply ctx_le_refl].
Qed.

Lemma overflow_le x s : ctx_ok x -> x_states x <= s -> ctx_le x (ctx_overflow x s).
Proof. intros [H0 _] Hs. unfold ctx_le, ctx_ok; cbn. repeat split; auto; lia. Qed.

Lemma walk_le : forall fuel x ip c, ctx_ok x -> ctx_le x (pf_walk fuel x ip c).
Proof.
  induction fuel as [|fuel IH]; intros x ip c Hx; cbn [pf_walk]; [apply overflow_le; [exact Hx|lia]|].
  case_if; [now apply ctx_le_refl|].
  destruct (nth_error _ _) as [i|]; [|apply overflow_le; [exact Hx|lia]].
  case_if; b2p; [apply overflow_le; [exact Hx|lia]|].
  set (x1 := mkCtx _ _ _ _ _). assert (H1 : ctx_le x x1).
  { destruct Hx. unfold ctx_le, ctx_ok; subst x1; cbn. repeat split; auto; lia. }
  assert (Hg : forall nx y b, ctx_ok y -> ctx_le y (pf_continue (pf_walk fuel) nx y b))
    by (intros; now apply continue_le).
  set (x2 := fold_left _ (pf_branch _ i true c) x1).
  assert (H2 : ctx_le x1 x2) by (apply fold_ctx_le; [apply H1|apply Hg]).
  eapply ctx_le_trans; [exact H1|]. eapply ctx_le_trans; [exact H2|].
  apply fold_ctx_le; [apply H2|apply Hg].
Qed.

Lemma fold_left_ext {A B} (P : A -> Prop) (g h : A -> B -> A) l : forall x, P x ->
  (forall y b, P y -> g y b = h y b /\ P (g y b)) -> fold_left g l x = fold_left h l x.
Proof.
  induction l as [|b l IH]; intros x Hx H; cbn [fold_left]; [reflexivity|].
  destruct (H x b Hx) as [E Hg]. rewrite <- E. now apply IH.
Qed.

(** With more fuel than states left, fuel does not matter. *)
Lemma walk_fuel_enough : forall n m x ip c, ctx_ok x ->
  PF_MAX_STATES + 1 - x_states x <= Z.of_nat n ->
  PF_MAX_STATES + 1 - x_states x <= Z.of_nat m ->
  pf_walk n x ip c = pf_walk m x ip c.
Proof.
  induction n as [|n IH]; intros m x ip c Hx Hn Hm.
  - destruct Hx as [H0 [H|H]]; [lia|]. assert (E : ctx_overflow x (x_states x) = x)
      by (destruct x; cbn in *; subst; reflexivity).
    destruct m; cbn [pf_walk]; [reflexivity|]. now rewrite H, E.
  - destruct m as [|m].
    { destruct Hx as [H0 [H|H]]; [lia|]. assert (E : ctx_overflow x (x_states x) = x)
        by (destruct x; cbn in *; subst; reflexivity). cbn [pf_walk]. now rewrite H, E. }
    cbn [pf_walk]. destruct (x_overflow x) eqn:Eo; [reflexivity|].
    destruct (nth_error _ _) as [i|]; [|reflexivity]. case_if; [reflexivity|]. b2p.
    set (x1 := mkCtx _ _ _ _ _). set (P := fun y => ctx_ok y /\ x_states x + 1 <= x_states y).
    assert (P1 : P x1) by (destruct Hx; unfold P, ctx_ok; subst x1; cbn; lia).
    assert (St : forall nx y b, P y -> pf_continue (pf_walk n) nx y b = pf_continue (pf_walk m) nx y b /\
      P (pf_continue (pf_walk n) nx y b)).
    { intros nx y b [Hy Hs]. split.
      - unfold pf_continue. repeat case_if; try reflexivity. apply IH; [exact Hy|lia|lia].
      - destruct (continue_le (pf_walk n) nx y b Hy (walk_le n)) as (Hy' & Hs' & _).
        split; [exact Hy'|lia]. }
    rewrite (fold_left_ext P (pf_continue (pf_walk n) (u16 (success i)))
      (pf_continue (pf_walk m) (u16 (success i)))) by (exact P1 || apply St).
    apply (fold_left_ext P); [|apply St].
    destruct (fold_ctx_le (pf_continue (pf_walk m) (u16 (success i)))
      (pf_branch (x_event_mode x1) i true c) x1 (proj1 P1)) as (Hy & Hs & _);
      [intros; apply continue_le; [assumption|apply walk_le]|].
    split; [exact Hy|]. destruct P1. lia.
Qed.

(** The fuel [pf_run] starts with is enough: more changes nothing. *)
Lemma run_fuel_enough event_mode obj n : (walk_fuel <= n)%nat -> zlen obj > 0 ->
  pf_walk n (mkCtx obj [] 0 false event_mode) 0 cube_init = pf_run event_mode obj.
Proof.
  intros Hn Ho. unfold pf_run. case_if; b2p; [|lia]. unfold walk_fuel in *.
  apply walk_fuel_enough; unfold ctx_ok, PF_MAX_STATES in *; cbn [x_states]; lia.
Qed.

(** ** Soundness *)

Lemma cube_init_inv v4 : cube_inv v4 cube_init.
Proof.
  split; [|intros; split; apply addr_full_inv].
  split; cbn; auto using addr_full_wf; try lia;
    unfold range_wf, range_full, zlen, PF_MAX_EXCL; cbn; repeat split; try lia; contradiction.
Qed.

Lemma cube_init_mem a k : agrees a k -> cube_mem cube_init k = true.
Proof.
  intros H. destruct (ag_range a k H) as (? & ? & ? & ?). destruct (ag_addr a k H) as [Hs Hd].
  apply cube_mem_spec. split; cbn; auto; try lia;
    try (apply addr_full_contains; now apply val128_bound); try (apply Z.land_0_r);
    apply range_contains_spec; cbn; split; auto; lia.
Qed.

(** For any notion of membership that [pf_branch] respects in the given
    mode. *)
Section Sound.
Variable event_mode : bool.
Variable inv : pf_cube -> Prop.
Variable mem : pf_cube -> bool.
Variable a : exec_args.
Variable obj : list WINDIVERT_FILTER.
Hypothesis Hargs : args_ok a.
Hypothesis Hwf : wf_filter (a_layer a) obj = true.
Hypothesis Hbranch : forall i positive c, In i obj ->
  WinDivertValidateField (a_layer a) (field i) = true -> inv c ->
  covers inv mem c (Bool.eqb (holds a i) positive) (pf_branch event_mode i positive c).

(** What a piece of the walk adds to the emitted cubes. *)
Definition emits (c : pf_cube) (P : bool) (x x' : pf_ctx) : Prop :=
  x_overflow x' = true \/
  (x_overflow x = false /\ exists E, x_cubes x' = x_cubes x ++ E /\ covers inv mem c P E).

Definition walk_ctx (x : pf_ctx) : Prop := x_obj x = obj /\ x_event_mode x = event_mode.

Lemma overflow_sticky : forall fuel x ip c, x_overflow x = true ->
  x_overflow (pf_walk fuel x ip c) = true.
Proof using. intros [|fuel] x ip c H; cbn [pf_walk]; [reflexivity|]. now rewrite H. Qed.

Lemma continue_sticky fuel nx x c : x_overflow x = true ->
  x_overflow (pf_continue (pf_walk fuel) nx x c) = true.
Proof using.
  intros H. unfold pf_continue, pf_emit. repeat case_if; cbn; auto. now apply overflow_sticky.
Qed.

Lemma walk_ctx_fold fuel nx l : forall x, walk_ctx x -> ctx_ok x ->
  walk_ctx (fold_left (pf_continue (pf_walk fuel) nx) l x) /\
  ctx_ok (fold_left (pf_continue (pf_walk fuel) nx) l x).
Proof using.
  intros x [Ho He] Hx. destruct (fold_ctx_le (pf_continue (pf_walk fuel) nx) l x Hx) as (Hy & _ & E1 & E2).
  - intros; apply continue_le; [assumption|apply walk_le].
  - split; [split; congruence|exact Hy].
Qed.

(** A list of cubes continued at the same place. *)
Lemma fold_emits fuel nx c P Q l : covers inv mem c P l ->
  (forall x d, walk_ctx x -> ctx_ok x -> In d l -> inv d ->
     emits d Q x (pf_continue (pf_walk fuel) nx x d)) ->
  forall x, walk_ctx x -> ctx_ok x ->
  emits c (P && Q) x (fold_left (pf_continue (pf_walk fuel) nx) l x).
Proof using.
  intros B Step x Hw Hx.
  assert (F : forall m x, (forall d, In d m -> In d l) -> walk_ctx x -> ctx_ok x ->
    let x' := fold_left (pf_continue (pf_walk fuel) nx) m x in
    x_overflow x' = true \/ (x_overflow x = false /\ exists Es,
      Forall2 (fun d E => covers inv mem d Q E) m Es /\ x_cubes x' = x_cubes x ++ concat Es)).
  { clear x Hw Hx. induction m as [|d m IH]; intros x Hm Hw Hx; cbn [fold_left].
    - destruct (x_overflow x) eqn:E; [auto|]. right. split; [reflexivity|]. exists [].
      split; [constructor|cbn; now rewrite app_nil_r].
    - assert (Hd : In d l) by (apply Hm; now left). set (y := pf_continue (pf_walk fuel) nx x d).
      destruct (walk_ctx_fold fuel nx [d] x Hw Hx) as [Hwy Hy]. cbn [fold_left] in Hwy, Hy. fold y in Hwy, Hy.
      destruct (IH y (fun e He => Hm e (or_intror He)) Hwy Hy) as [Ho|(Ho & Es & HF & HE)]; [auto|].
      destruct (Step x d Hw Hx Hd (proj1 (proj2 B d Hd))) as [Ho'|(Ho' & E & HE' & HB)];
        [fold y in Ho'; congruence|].
      right. split; [exact Ho'|]. exists (E :: Es). split; [now constructor|].
      fold y in HE'. rewrite HE, HE'. cbn. now rewrite app_assoc. }
  destruct (F l x (fun d H => H) Hw Hx) as [Ho|(Ho & Es & HF & HE)]; [now left|].
  right. split; [exact Ho|]. exists (concat Es). split; [exact HE|]. now apply (covers_concat _ _ _ _ _ l).
Qed.

(** Continuing one cube at the target [t] of a jump, the walk being right
    for later instructions. *)
Lemma continue_emits fuel ip t x d :
  (forall x ip c, walk_ctx x -> ctx_ok x -> 0 <= ip -> inv c ->
     emits c (accepts a obj ip) x (pf_walk fuel x ip c)) ->
  0 <= ip -> jump_ok (zlen obj) ip t = true -> walk_ctx x -> ctx_ok x -> inv d ->
  emits d (accepts_at a obj t) x (pf_continue (pf_walk fuel) (u16 t) x d).
Proof using Hwf.
  intros IH Hip Ht Hw Hx Hd.
  destruct (jump_ok_cases _ _ _ Ht (wf_maxlen a obj Hwf) Hip) as [-> Hcase].
  unfold pf_continue, accepts_at. destruct (t =? WINDIVERT_FILTER_RESULT_ACCEPT) eqn:Ea.
  - unfold pf_emit. case_if; [now left|]. destruct (x_overflow x) eqn:Ex; [now left|].
    right. split; [exact Ex|]. exists [d]. split; [reflexivity|now apply covers_same].
  - destruct (t =? WINDIVERT_FILTER_RESULT_REJECT) eqn:Er; cbn [negb].
    + destruct (x_overflow x) eqn:Ex; [now left|]. right. split; [exact Ex|]. exists [].
      split; [now rewrite app_nil_r|now apply covers_nil].
    + apply IH; auto. clear - Ea Er Hcase Hip. lia.
Qed.

(** The walk from [ip]: it emits cubes for the packets accepted from there. *)
Lemma walk_emits : forall fuel x ip c, walk_ctx x -> ctx_ok x -> 0 <= ip -> inv c ->
  emits c (accepts a obj ip) x (pf_walk fuel x ip c).
Proof using Hargs Hwf Hbranch.
  induction fuel as [|fuel IH]; intros x ip c Hw Hx Hip Hc; cbn [pf_walk]; [now left|].
  destruct (x_overflow x) eqn:Eo; [now left|]. destruct Hw as [Eobj Eev]. rewrite Eobj.
  destruct (nth_error obj (Z.to_nat ip)) as [i|] eqn:Hi; [|now left].
  destruct (x_states x + 1 >? PF_MAX_STATES) eqn:Es; [now left|]. rewrite Eev.
  set (x1 := mkCtx _ _ _ _ _). change (x_event_mode x1) with event_mode.
  pose proof (nth_error_In _ _ Hi) as Hli. pose proof (wf_filter_nth _ _ _ _ Hwf Hi) as Hin.
  rewrite Z2Nat.id in Hin by exact Hip. unfold insn_ok in Hin. rewrite !andb_true_iff in Hin.
  destruct Hin as [[[Hv Hjs] Hjf] _]. destruct (exec_insn_defined a i Hargs Hv) as [b Eb].
  assert (Eh : holds a i = b) by (unfold holds; now rewrite Eb).
  assert (W1 : walk_ctx x1) by (split; reflexivity).
  assert (O1 : ctx_ok x1) by (destruct Hx; unfold ctx_ok; subst x1; cbn; clear - Es H; lia).
  pose proof (fold_emits fuel (u16 (success i)) c _ _ _ (Hbranch i true c Hli Hv Hc)
    (fun y d Hy Ho _ Hd => continue_emits fuel ip _ y d IH Hip Hjs Hy Ho Hd) x1 W1 O1) as F1.
  destruct (walk_ctx_fold fuel (u16 (success i)) (pf_branch event_mode i true c) x1 W1 O1) as [W2 O2].
  set (x2 := fold_left _ _ x1) in *.
  pose proof (fold_emits fuel (u16 (failure i)) c _ _ _ (Hbranch i false c Hli Hv Hc)
    (fun y d Hy Ho _ Hd => continue_emits fuel ip _ y d IH Hip Hjf Hy Ho Hd) x2 W2 O2) as F2.
  destruct W2 as [_ Ev2]. rewrite Ev2.
  destruct F2 as [Ho|(Ho2 & E2 & HE2 & B2)]; [now left|].
  destruct F1 as [Ho|(Ho1 & E1 & HE1 & B1)]; [congruence|].
  right. split; [exact Eo|]. exists (E1 ++ E2).
  split; [rewrite HE2, HE1; subst x1; cbn; now rewrite app_assoc|].
  eapply covers_ext; [apply covers_app; [exact B1|exact B2]|]. intros _.
  rewrite (accepts_step a obj Hargs Hwf ip i Hip Hi). unfold next_ip. rewrite Eb, Eh.
  destruct b; cbn; now rewrite ?orb_false_r.
Qed.

(** The whole run: either it overflowed or the cubes are sound. *)
Lemma run_covers : inv cube_init -> let x := pf_run event_mode obj in
  x_overflow x = true \/ covers inv mem cube_init (accepts a obj 0) (x_cubes x).
Proof using Hargs Hwf Hbranch.
  intros Hi. unfold pf_run. pose proof (wf_nonempty a obj Hwf) as Hne. case_if; b2p; [|lia].
  destruct (walk_emits walk_fuel (mkCtx obj [] 0 false event_mode) 0 cube_init) as [H|(_ & E & HE & HB)].
  - split; reflexivity.
  - unfold ctx_ok, PF_MAX_STATES; cbn; lia.
  - lia.
  - exact Hi.
  - now left.
  - right. rewrite HE. exact HB.
Qed.
End Sound.

(** The network layers. *)
Lemma run_sound a k obj : agrees a k -> no_mapped k -> args_ok a -> wf_filter (a_layer a) obj = true ->
  forallb (lowerable (is_v4 k)) obj = true ->
  let x := pf_run false obj in
  x_overflow x = true \/ branch_ok (is_v4 k) k cube_init (accepts a obj 0) (x_cubes x).
Proof.
  intros Hag Hmap Hargs Hwf Hlow. apply run_covers; try assumption; [|apply cube_init_inv].
  intros i positive c Hi Hv Hc. rewrite forallb_forall in Hlow. apply pf_branch_ok; auto.
Qed.

(** ** Properties *)

(** C38. The walk over a filter terminates on every instruction array, cyclic
    or not: its state counter bounds the recursion, and running it with more
    fuel than [walk_fuel] gives the same cubes and the same overflow flag. *)
Theorem walk_terminates event_mode obj n : obj <> [] -> (walk_fuel <= n)%nat ->
  pf_walk n (mkCtx obj [] 0 false event_mode) 0 cube_init = pf_run event_mode obj.
Proof.
  intros Ho Hn. apply run_fuel_enough; [exact Hn|].
  destruct obj; [contradiction|unfold zlen; cbn [length]; lia].
Qed.

(** A filter that jumps to itself on failure. *)
Lemma walk_terminates_witness :
  let loop := [mkFilter FIELD_TCP TEST_NEQ WINDIVERT_FILTER_RESULT_ACCEPT 0 false zero128] in
  pf_walk (S walk_fuel) (mkCtx loop [] 0 false false) 0 cube_init = pf_run false loop.
Proof. apply walk_terminates; [discriminate|lia]. Defined.
