(* ===== verification/PfEncode.v ===== *)
(** * Kernel rules

    [struct filter_rule], [struct filter_rule_ipv6] and the mask bits of
    [include/ebpfdivert_shared.h]; the encoding of cubes into rules,
    [pf_lower] and the reference matcher [pf_match] of [src/prefilter.c]. *)

From Stdlib Require Import ZArith List Bool Lia ZifyBool.
From S2P Require Import Prelude WdTypes WdPacket WdHash WdExec PfRange PfAddr PfCube.
Import ListNotations.

Definition MAX_RULES : Z := 64.

Definition MATCH_SRC_IP : Z := 1 <<< 0.
Definition MATCH_DST_IP : Z := 1 <<< 1.
Definition MATCH_SRC_PORT : Z := 1 <<< 2.
Definition MATCH_DST_PORT : Z := 1 <<< 3.
Definition MATCH_PROTO : Z := 1 <<< 4.
Definition MATCH_DIRECTION : Z := 1 <<< 5.
Definition MATCH_LOOPBACK : Z := 1 <<< 6.
Definition MATCH_FALSE : Z := 1 <<< 7.
Definition MATCH_ENABLED : Z := 1 <<< 8.
Definition MATCH_SNIFF : Z := 1 <<< 9.
Definition MATCH_DROP : Z := 1 <<< 10.
Definition MATCH_TTL : Z := 1 <<< 11.
Definition MATCH_TCP_FLAGS : Z := 1 <<< 12.
Definition MATCH_LPM_TRIE : Z := 1 <<< 13.

(** The members after the addresses, the same in both rule structs. *)
Record pf_rule_common : Set := mkCommon {
  match_mask : Z;
  invert_mask : Z;
  rc_proto : Z;
  rc_direction : Z;
  rc_loopback : Z;
  rc_ttl : Z;
  rc_tcp_flags : Z;
  rc_tcp_flags_mask : Z;
  src_port_start : Z;
  src_port_end : Z;
  dst_port_start : Z;
  dst_port_end : Z
}.

Record filter_rule : Set := mkRule4 {
  r4_src_ip : Z;
  r4_dst_ip : Z;
  r4_src_mask : Z;
  r4_dst_mask : Z;
  r4_common : pf_rule_common
}.

(** Addresses and masks as sixteen bytes in network order. *)
Record filter_rule_ipv6 : Set := mkRule6 {
  r6_src_ip : list Z;
  r6_dst_ip : list Z;
  r6_src_mask : list Z;
  r6_dst_mask : list Z;
  r6_common : pf_rule_common
}.

(** ** Encoding *)

(** Return value and output parameters of [encode_range]. *)
Record enc_range : Set := mkEncRange {
  er_exact : bool;
  er_start : Z;
  er_end : Z;
  er_active : bool;
  er_invert : bool
}.

Definition encode_range (r : pf_range) (max : Z) : enc_range :=
  if range_is_full r max then mkEncRange true 0 0 false false
  else
    match r_excl r with
    | [] => mkEncRange true (u16 (r_lo r)) (u16 (r_hi r)) true false
    | [x] =>
      if (r_lo r =? 0) && (r_hi r =? max) then mkEncRange true (u16 x) (u16 x) true true
      else mkEncRange false (u16 (r_lo r)) (u16 (r_hi r))
             (negb (r_lo r =? 0) || negb (r_hi r =? max)) false
    | _ => mkEncRange false (u16 (r_lo r)) (u16 (r_hi r))
             (negb (r_lo r =? 0) || negb (r_hi r =? max)) false
    end.

(** [encode_common]: the rule part and whether nothing was widened.  A
    protocol or TTL range that is not a single value is dropped. *)
Definition encode_common (c : pf_cube) : pf_rule_common * bool :=
  let p := encode_range (c_proto c) 255 in
  let s := encode_range (c_sport c) 65535 in
  let d := encode_range (c_dport c) 65535 in
  let t := encode_range (c_ttl c) 255 in
  let p_on := er_active p && (er_start p =? er_end p) in
  let t_on := er_active t && (er_start t =? er_end t) in
  ({| match_mask :=
        MATCH_ENABLED ||| flag_if p_on MATCH_PROTO ||| flag_if (er_active s) MATCH_SRC_PORT |||
        flag_if (er_active d) MATCH_DST_PORT ||| flag_if t_on MATCH_TTL |||
        flag_if (negb (c_dir c =? 0)) MATCH_DIRECTION |||
        flag_if (c_loopback c >=? 0) MATCH_LOOPBACK |||
        flag_if (negb (c_tcp_mask c =? 0)) MATCH_TCP_FLAGS;
      invert_mask :=
        flag_if (p_on && er_invert p) MATCH_PROTO |||
        flag_if (er_active s && er_invert s) MATCH_SRC_PORT |||
        flag_if (er_active d && er_invert d) MATCH_DST_PORT |||
        flag_if (t_on && er_invert t) MATCH_TTL;
      rc_proto := if p_on then u8 (er_start p) else 0;
      rc_direction := if c_dir c =? 0 then 0 else u8 (c_dir c);
      rc_loopback := if c_loopback c >=? 0 then u8 (c_loopback c) else 0;
      rc_ttl := if t_on then u8 (er_start t) else 0;
      rc_tcp_flags := if c_tcp_mask c =? 0 then 0 else c_tcp_flags c;
      rc_tcp_flags_mask := c_tcp_mask c;
      src_port_start := er_start s; src_port_end := er_end s;
      dst_port_start := er_start d; dst_port_end := er_end d |},
   er_exact p && negb (er_active p && negb p_on) && er_exact s && er_exact d &&
   er_exact t && negb (er_active t && negb t_on)).

(** Common part with the address bits added. *)
Definition add_addr (r : pf_rule_common) (s d : enc_addr) : pf_rule_common :=
  {| match_mask := flag_if (ea_active s) MATCH_SRC_IP ||| flag_if (ea_active d) MATCH_DST_IP |||
                   match_mask r;
     invert_mask := invert_mask r ||| flag_if (ea_active s && ea_invert s) MATCH_SRC_IP |||
                    flag_if (ea_active d && ea_invert d) MATCH_DST_IP;
     rc_proto := rc_proto r; rc_direction := rc_direction r; rc_loopback := rc_loopback r;
     rc_ttl := rc_ttl r; rc_tcp_flags := rc_tcp_flags r;
     rc_tcp_flags_mask := rc_tcp_flags_mask r;
     src_port_start := src_port_start r; src_port_end := src_port_end r;
     dst_port_start := dst_port_start r; dst_port_end := dst_port_end r |}.

(** [mask[1] == 0xFFFFFFFF? mask[0]: 0]. *)
Definition mask4 (m : u128) : Z := if w1 m =? 0xFFFFFFFF then w0 m else 0.

Definition emit_v4 (c : pf_cube) : filter_rule * bool :=
  let '(r, exact) := encode_common c in
  let s := encode_addr (c_src c) in
  let d := encode_addr (c_dst c) in
  (mkRule4 (if ea_active s then w0 (ea_ip s) else 0) (if ea_active d then w0 (ea_ip d) else 0)
     (if ea_active s then mask4 (ea_mask s) else 0) (if ea_active d then mask4 (ea_mask d) else 0)
     (add_addr r s d),
   exact && ea_exact s && ea_exact d).

Definition zero16 : list Z := repeat 0 16.

Definition emit_v6 (c : pf_cube) : filter_rule_ipv6 * bool :=
  let '(r, exact) := encode_common c in
  let s := encode_addr (c_src c) in
  let d := encode_addr (c_dst c) in
  (mkRule6 (if ea_active s then to_net16 (ea_ip s) else zero16)
     (if ea_active d then to_net16 (ea_ip d) else zero16)
     (if ea_active s then to_net16 (ea_mask s) else zero16)
     (if ea_active d then to_net16 (ea_mask d) else zero16)
     (add_addr r s d),
   exact && ea_exact s && ea_exact d).

(** ** [pf_lower] *)

Record pf_result : Set := mkResult {
  pr_v4 : list filter_rule;          (* [v4[0 .. n4-1]] *)
  pr_v6 : list filter_rule_ipv6;
  pr_exact : bool
}.

(** [match_mask = mask], everything else zero. *)
Definition empty_common (mask : Z) : pf_rule_common := mkCommon mask 0 0 0 0 0 0 0 0 0 0 0.

Definition match_all : pf_result :=
  mkResult [mkRule4 0 0 0 0 (empty_common MATCH_ENABLED)]
    [mkRule6 zero16 zero16 zero16 zero16 (empty_common MATCH_ENABLED)] false.

(** The two emissions of the loop body; [None] is [goto match_all]. *)
Definition lower_v4 (c : pf_cube) (out : pf_result) : option pf_result :=
  if negb (c_ver c =? 6) then
    if zlen (pr_v4 out) =? MAX_RULES then None
    else let '(r, e) := emit_v4 c in
         Some (mkResult (pr_v4 out ++ [r]) (pr_v6 out) (pr_exact out && e))
  else Some out.

Definition lower_v6 (c : pf_cube) (out : pf_result) : option pf_result :=
  if negb (c_ver c =? 4) then
    if zlen (pr_v6 out) =? MAX_RULES then None
    else let '(r, e) := emit_v6 c in
         Some (mkResult (pr_v4 out) (pr_v6 out ++ [r]) (pr_exact out && e))
  else Some out.

Fixpoint lower_cubes (cubes : list pf_cube) (out : pf_result) : option pf_result :=
  match cubes with
  | [] => Some out
  | c :: cubes =>
    let out := mkResult (pr_v4 out) (pr_v6 out) (pr_exact out && c_exact c) in
    match lower_v4 c out with
    | None => None
    | Some out =>
      match lower_v6 c out with
      | None => None
      | Some out => lower_cubes cubes out
      end
    end
  end.

(** [None] is [-EINVAL] (not a network layer).  The allocation of the
    context is assumed to succeed. *)
Definition pf_lower (layer : WINDIVERT_LAYER) (obj : list WINDIVERT_FILTER) : option pf_result :=
  match layer with
  | LAYER_NETWORK | LAYER_NETWORK_FORWARD =>
    let x := pf_run false obj in
    Some (if x_overflow x then match_all
          else match lower_cubes (x_cubes x) (mkResult [] [] true) with
               | None => match_all
               | Some out => out
               end)
  | _ => None
  end.

(** ** [pf_match] *)

(** [(mm & flag) && (cond == !!(inv & flag))]: the rule fails here. *)
Definition fails (mm inv flag : Z) (cond : bool) : bool :=
  has mm flag && Bool.eqb cond (has inv flag).

Definition pf_match_common (r : pf_rule_common) (k : pf_pkt) : bool :=
  let mm := match_mask r in
  let inv := invert_mask r in
  if fails mm inv MATCH_SRC_PORT
       ((k_sport k >=? src_port_start r) && (k_sport k <=? src_port_end r)) then false
  else if fails mm inv MATCH_DST_PORT
       ((k_dport k >=? dst_port_start r) && (k_dport k <=? dst_port_end r)) then false
  else if fails mm inv MATCH_PROTO (k_proto k =? rc_proto r) then false
  else if fails mm inv MATCH_DIRECTION (k_direction k =? rc_direction r) then false
  else if fails mm inv MATCH_TTL (k_ttl k =? rc_ttl r) then false
  else if fails mm inv MATCH_TCP_FLAGS
       ((k_tcp_flags k &&& rc_tcp_flags_mask r) =? rc_tcp_flags r) then false
  else if has mm MATCH_LOOPBACK && negb (k_loopback k =? rc_loopback r) then false
  else true.

Definition rule_off (mm : Z) : bool := negb (has mm MATCH_ENABLED) || has mm MATCH_FALSE.

Definition pf_match_v4 (r : filter_rule) (k : pf_pkt) : bool :=
  let mm := match_mask (r4_common r) in
  let inv := invert_mask (r4_common r) in
  if rule_off mm then false
  else if fails mm inv MATCH_SRC_IP
       ((w0 (k_src k) &&& r4_src_mask r) =? (r4_src_ip r &&& r4_src_mask r)) then false
  else if fails mm inv MATCH_DST_IP
       ((w0 (k_dst k) &&& r4_dst_mask r) =? (r4_dst_ip r &&& r4_dst_mask r)) then false
  else pf_match_common (r4_common r) k.

(** [for (j = 0; j < 16; j++) eq &= ...]. *)
Fixpoint bytes_eq (x ip mask : list Z) : bool :=
  match x, ip, mask with
  | b :: x, i :: ip, m :: mask => ((b &&& m) =? (i &&& m)) && bytes_eq x ip mask
  | _, _, _ => true
  end.

Definition pf_match_v6 (r : filter_rule_ipv6) (k : pf_pkt) : bool :=
  let mm := match_mask (r6_common r) in
  let inv := invert_mask (r6_common r) in
  if rule_off mm then false
  else if fails mm inv MATCH_SRC_IP
       (bytes_eq (to_net16 (k_src k)) (r6_src_ip r) (r6_src_mask r)) then false
  else if fails mm inv MATCH_DST_IP
       (bytes_eq (to_net16 (k_dst k)) (r6_dst_ip r) (r6_dst_mask r)) then false
  else pf_match_common (r6_common r) k.

Definition pf_match (res : pf_result) (k : pf_pkt) : bool :=
  if k_ver k =? 4 then existsb (fun r => pf_match_v4 r k) (pr_v4 res)
  else existsb (fun r => pf_match_v6 r k) (pr_v6 res).

(** ** Mask bits *)

Lemma if_false (x y : bool) : (if x then false else y) = negb x && y.
Proof. now destruct x. Qed.

(** ** Shape of the result *)

(** A rule mask: enabled, no LPM bit, sixteen bits. *)
Definition mask_ok (m : Z) : Prop :=
  has m MATCH_ENABLED = true /\ has m MATCH_LPM_TRIE = false /\ has m MATCH_FALSE = false /\
  0 <= m < 2 ^ 16.

(** [load_rules] adds the action later. *)
Definition no_action (m : Z) : Prop := has m MATCH_SNIFF = false /\ has m MATCH_DROP = false.

Lemma lor_u16 a b : 0 <= a < 2 ^ 16 -> 0 <= b < 2 ^ 16 -> 0 <= a ||| b < 2 ^ 16.
Proof. apply lor_bound. lia. Qed.

Lemma flag_if_u16 b m : 0 <= m < 2 ^ 16 -> 0 <= flag_if b m < 2 ^ 16.
Proof. destruct b; cbn; lia. Qed.

Lemma common_mask_ok c s d : mask_ok (match_mask (add_addr (fst (encode_common c)) s d)).
Proof.
  unfold encode_common, add_addr. cbn [fst match_mask]. split; [has_consts; reflexivity|].
  split; [has_consts; reflexivity|]. split; [has_consts; reflexivity|].
  repeat (apply lor_u16 || apply flag_if_u16); unfold MATCH_ENABLED; vm_compute; split; congruence.
Qed.

Lemma common_no_action c s d : no_action (match_mask (add_addr (fst (encode_common c)) s d)).
Proof. unfold encode_common, add_addr. cbn [fst match_mask]. split; has_consts; reflexivity. Qed.

Definition addr16_ok (b : list Z) : Prop := length b = 16%nat /\ bytes b.

Definition rule4_ok (r : filter_rule) : Prop := mask_ok (match_mask (r4_common r)).

Definition rule6_ok (r : filter_rule_ipv6) : Prop :=
  mask_ok (match_mask (r6_common r)) /\
  Forall addr16_ok [r6_src_ip r; r6_dst_ip r; r6_src_mask r; r6_dst_mask r].

Record result_ok (res : pf_result) : Prop := {
  ro_v4 : Forall (fun r => rule4_ok r /\ no_action (match_mask (r4_common r))) (pr_v4 res);
  ro_v6 : Forall (fun r => rule6_ok r /\ no_action (match_mask (r6_common r))) (pr_v6 res);
  ro_n4 : zlen (pr_v4 res) <= MAX_RULES;
  ro_n6 : zlen (pr_v6 res) <= MAX_RULES
}.

Lemma to_net16_ok v : addr16_ok (to_net16 v).
Proof.
  split; [reflexivity|]. unfold to_net16, bytes. cbn [flat_map app].
  repeat constructor; unfold is_byte, u8; apply Z.mod_pos_bound; lia.
Qed.

Lemma zero16_ok : addr16_ok zero16.
Proof. split; [reflexivity|]. apply Forall_forall. intros x H. apply repeat_spec in H. subst. red. lia. Qed.

Lemma emit_v4_rule c : rule4_ok (fst (emit_v4 c)) /\ no_action (match_mask (r4_common (fst (emit_v4 c)))).
Proof.
  unfold emit_v4. pose proof (common_mask_ok c) as H. pose proof (common_no_action c) as N.
  destruct (encode_common c). split; [apply H|apply N].
Qed.

Lemma emit_v6_rule c : rule6_ok (fst (emit_v6 c)) /\ no_action (match_mask (r6_common (fst (emit_v6 c)))).
Proof.
  unfold emit_v6. pose proof (common_mask_ok c) as H. pose proof (common_no_action c) as N.
  destruct (encode_common c). split; [|apply N]. split; [apply H|].
  cbn. repeat constructor; case_if; apply to_net16_ok || apply zero16_ok.
Qed.

Lemma zlen_snoc {A} (l : list A) x : zlen (l ++ [x]) = zlen l + 1.
Proof. unfold zlen. rewrite length_app. cbn. lia. Qed.

Lemma lower_v4_result c out out' : result_ok out -> lower_v4 c out = Some out' -> result_ok out'.
Proof.
  intros [A B C D]. unfold lower_v4. case_if; [|intros H; inversion H; subst; now split].
  case_if; [discriminate|]. pose proof (emit_v4_rule c) as R. destruct (emit_v4 c) as [r e].
  intros H; inversion H; subst; clear H. b2p. split; cbn; auto.
  - apply Forall_app. auto.
  - rewrite zlen_snoc. lia.
Qed.

Lemma lower_v6_result c out out' : result_ok out -> lower_v6 c out = Some out' -> result_ok out'.
Proof.
  intros [A B C D]. unfold lower_v6. case_if; [|intros H; inversion H; subst; now split].
  case_if; [discriminate|]. pose proof (emit_v6_rule c) as R. destruct (emit_v6 c) as [r e].
  intros H; inversion H; subst; clear H. b2p. split; cbn; auto.
  - apply Forall_app. auto.
  - rewrite zlen_snoc. lia.
Qed.

Lemma lower_cubes_result : forall cubes out out', result_ok out ->
  lower_cubes cubes out = Some out' -> result_ok out'.
Proof.
  induction cubes as [|c cubes IH]; intros out out' Ho; cbn [lower_cubes];
    [intros H; inversion H; now subst|].
  set (o := mkResult _ _ _). assert (Hr : result_ok o) by (destruct Ho; now split).
  destruct (lower_v4 c o) as [o1|] eqn:E1; [|discriminate].
  destruct (lower_v6 c o1) as [o2|] eqn:E2; [|discriminate].
  apply IH. eapply lower_v6_result; [|exact E2]. eapply lower_v4_result; [exact Hr|exact E1].
Qed.

Lemma match_all_result : result_ok match_all.
Proof.
  split; cbn; try (unfold MAX_RULES, zlen; cbn; lia); repeat constructor;
    try (vm_compute; congruence); repeat constructor; apply zero16_ok.
Qed.

(** Whatever the filter, the tables fit and every rule is well formed. *)
Lemma pf_lower_result layer obj res : pf_lower layer obj = Some res -> result_ok res.
Proof.
  assert (G : result_ok (if x_overflow (pf_run false obj) then match_all
    else match lower_cubes (x_cubes (pf_run false obj)) (mkResult [] [] true) with
         | None => match_all | Some out => out end)).
  { case_if; [apply match_all_result|].
    destruct (lower_cubes _ _) as [out|] eqn:E; [|apply match_all_result].
    eapply lower_cubes_result; [|exact E]. split; cbn; auto; unfold zlen, MAX_RULES; cbn; lia. }
  unfold pf_lower. destruct layer; intros H; inversion H; exact G.
Qed.

(** ** Properties *)

(** Whatever the filter, the rules fit the kernel tables (at most
    [MAX_RULES] per family) and every rule is one the kernel understands:
    enabled, without the LPM and never-match bits, with sixteen-bit masks
    and sixteen-byte IPv6 addresses. *)
Theorem lowered_rules_fit layer obj res : pf_lower layer obj = Some res ->
  zlen (pr_v4 res) <= MAX_RULES /\ zlen (pr_v6 res) <= MAX_RULES /\
  (forall r, In r (pr_v4 res) -> mask_ok (match_mask (r4_common r))) /\
  (forall r, In r (pr_v6 res) -> mask_ok (match_mask (r6_common r)) /\
     Forall addr16_ok [r6_src_ip r; r6_dst_ip r; r6_src_mask r; r6_dst_mask r]).
Proof.
  intros H. destruct (pf_lower_result layer obj res H) as [H4 H6 N4 N6].
  rewrite Forall_forall in H4, H6. split; [exact N4|]. split; [exact N6|].
  split; intros r Hr; [apply (H4 r Hr)|apply (H6 r Hr)].
Qed.

Lemma lowered_rules_fit_witness : exists res,
  pf_lower LAYER_NETWORK [mkFilter FIELD_TCP_DSTPORT TEST_EQ WINDIVERT_FILTER_RESULT_ACCEPT
    WINDIVERT_FILTER_RESULT_REJECT false (W128 80 0 0 0)] = Some res /\ zlen (pr_v4 res) <= MAX_RULES.
Proof.
  eexists. split; [reflexivity|]. eapply lowered_rules_fit with (layer := LAYER_NETWORK). reflexivity.
Defined.
