(* ===== verification/PfSound.v ===== *)
(** * Soundness of the lowering

    The rules emitted for a cube match the packets of the cube, exactly so
    when nothing was widened; with the soundness of the walk this gives the
    contract of [src/prefilter.c]: the kernel rules are a superset of the
    filter, and equal to it when the result is flagged exact. *)

From Stdlib Require Import ZArith List Bool Lia ZifyBool Btauto.
From S2P Require Import Prelude WdTypes WdPacket WdHash WdExec PfRange PfAddr PfCube PfBranch.
From S2P Require Import PfInsn PfWalk PfEncode.
Import ListNotations.

(** ** Ranges *)

(** The rule does not fail on the range condition. *)
Definition er_ok (e : enc_range) (v : Z) : bool :=
  negb (er_active e && Bool.eqb ((v >=? er_start e) && (v <=? er_end e)) (er_invert e)).

(** The same for a condition that must be a single value. *)
Definition ev_ok (e : enc_range) (v : Z) : bool :=
  let on := er_active e && (er_start e =? er_end e) in
  negb (on && Bool.eqb (v =? (if on then u8 (er_start e) else 0)) (on && er_invert e)).

Lemma range_full_spec r max : range_is_full r max = true ->
  r_lo r = 0 /\ r_hi r = max /\ r_excl r = [].
Proof. unfold range_is_full. intros H. b2p. now destruct (r_excl r). Qed.

(** The shape of an encoded range. *)
Lemma encode_range_cases max r : range_wf max r -> max <= 65535 ->
  let e := encode_range r max in
  (er_active e = false /\
     (er_exact e = true -> r_lo r = 0 /\ r_hi r = max /\ r_excl r = [])) \/
  (er_active e = true /\ er_invert e = false /\ er_start e = r_lo r /\ er_end e = r_hi r /\
     (er_exact e = true -> r_excl r = [])) \/
  (er_active e = true /\ er_invert e = true /\ r_lo r = 0 /\ r_hi r = max /\
     exists x, r_excl r = [x] /\ er_start e = x /\ er_end e = x).
Proof.
  intros (Hm & Hlo & Hhi & Hn & Hx) Hmax. unfold encode_range.
  destruct (range_is_full r max) eqn:Ef; [left; split; [reflexivity|intros _; now apply range_full_spec]|].
  destruct (r_excl r) as [|x [|y l]] eqn:Ex.
  - right; left. cbn. rewrite !u16_small by lia. auto.
  - specialize (Hx x (or_introl eq_refl)). destruct ((r_lo r =? 0) && (r_hi r =? max)) eqn:E; b2p.
    + right; right. cbn. rewrite !u16_small by lia. eauto 10.
    + cbn. rewrite !u16_small by lia. right; left. repeat split; try discriminate. lia.
  - cbn. rewrite !u16_small by lia. destruct (negb (r_lo r =? 0) || negb (r_hi r =? max));
      [right; left; repeat split; discriminate|left; split; [reflexivity|discriminate]].
Qed.

Lemma encode_range_ok max r v : range_wf max r -> max <= 65535 -> 0 <= v <= max ->
  let e := encode_range r max in
  (range_contains r v = true -> er_ok e v = true) /\
  (er_exact e = true -> er_ok e v = true -> range_contains r v = true).
Proof.
  intros Hr Hmax Hv. cbv zeta. unfold er_ok. rewrite range_contains_spec.
  destruct (encode_range_cases max r Hr Hmax)
    as [(-> & Hf)|[(-> & -> & -> & -> & Hf)|(-> & -> & Hl & Hh & x & Ex & -> & ->)]]; cbn [andb negb].
  - split; [reflexivity|]. intros E _. destruct (Hf E) as (-> & -> & ->). cbn. lia.
  - split; [intros [H _]; lia|]. intros E H. rewrite (Hf E). split; [lia|intros []].
  - rewrite Ex, Hl, Hh. cbn [In]. split; [|intros _]; intros H.
    + assert (x <> v) by tauto. lia.
    + split; [lia|]. intros [<-|[]]. lia.
Qed.

(** A single value: exact also says the interval was one. *)
Lemma encode_value_ok max r v : range_wf max r -> max <= 255 -> 0 <= v <= max ->
  let e := encode_range r max in
  (range_contains r v = true -> ev_ok e v = true) /\
  (er_exact e = true -> er_active e && negb (er_active e && (er_start e =? er_end e)) = false ->
   ev_ok e v = true -> range_contains r v = true).
Proof.
  intros Hr Hmax Hv. cbv zeta. unfold ev_ok. rewrite range_contains_spec.
  pose proof Hr as (Hm & Hlo & Hhi & Hn & Hx).
  destruct (encode_range_cases max r Hr ltac:(lia))
    as [(-> & Hf)|[(-> & -> & -> & -> & Hf)|(-> & -> & Hl & Hh & x & Ex & -> & ->)]]; cbn [andb negb].
  - split; [reflexivity|]. intros E _ _. destruct (Hf E) as (-> & -> & ->). cbn. lia.
  - rewrite andb_false_r. destruct (r_lo r =? r_hi r) eqn:E; cbn [andb negb];
      [|split; [reflexivity|discriminate]]. b2p. rewrite u8_small by lia.
    split; [intros [H _]; lia|]. intros Ee _ H. rewrite (Hf Ee). split; [lia|intros []].
  - rewrite Z.eqb_refl, Ex. cbn [andb negb]. specialize (Hx x). rewrite Ex in Hx.
    specialize (Hx (or_introl eq_refl)). rewrite u8_small by lia. cbn [In].
    split; [|intros _ _]; intros H.
    + assert (x <> v) by tauto. lia.
    + split; [lia|]. intros [<-|[]]. lia.
Qed.

(** The common part of a rule, condition by condition. *)
Lemma match_common_encode c k s d : let r := add_addr (fst (encode_common c)) s d in
  pf_match_common r k =
  er_ok (encode_range (c_sport c) 65535) (k_sport k) &&
  er_ok (encode_range (c_dport c) 65535) (k_dport k) &&
  ev_ok (encode_range (c_proto c) 255) (k_proto k) &&
  ((c_dir c =? 0) || (k_direction k =? u8 (c_dir c))) &&
  ev_ok (encode_range (c_ttl c) 255) (k_ttl k) &&
  ((c_tcp_mask c =? 0) || ((k_tcp_flags k &&& c_tcp_mask c) =? c_tcp_flags c)) &&
  ((c_loopback c <? 0) || (k_loopback k =? u8 (c_loopback c))).
Proof.
  cbv zeta. unfold pf_match_common, fails, encode_common, add_addr, er_ok, ev_ok.
  cbn [fst match_mask invert_mask rc_proto rc_direction rc_loopback rc_ttl rc_tcp_flags
       rc_tcp_flags_mask src_port_start src_port_end dst_port_start dst_port_end].
  has_consts.
  set (es := encode_range (c_sport c) 65535). set (ed := encode_range (c_dport c) 65535).
  set (ep := encode_range (c_proto c) 255). set (et := encode_range (c_ttl c) 255).
  rewrite !if_false, andb_true_r, !andb_assoc.
  repeat apply f_equal2; try reflexivity.
  - destruct (er_active es); reflexivity.
  - destruct (er_active ed); reflexivity.
  - destruct (c_dir c =? 0), (k_direction k =? _); reflexivity.
  - destruct (c_tcp_mask c =? 0); [reflexivity|]. cbn [negb andb orb].
    destruct (_ =? c_tcp_flags c); reflexivity.
  - replace (c_loopback c <? 0) with (negb (c_loopback c >=? 0)) by lia.
    destruct (c_loopback c >=? 0); [|reflexivity]. cbn [negb andb orb].
    destruct (k_loopback k =? _); reflexivity.
Qed.

(** What a cube says apart from version and addresses. *)
Definition mem_common (c : pf_cube) (k : pf_pkt) : bool :=
  ((c_dir c =? 0) || (c_dir c =? k_direction k)) &&
  ((c_loopback c <? 0) || (c_loopback c =? k_loopback k)) &&
  range_contains (c_proto c) (k_proto k) && range_contains (c_sport c) (k_sport k) &&
  range_contains (c_dport c) (k_dport k) && range_contains (c_ttl c) (k_ttl k) &&
  ((k_tcp_flags k &&& c_tcp_mask c) =? c_tcp_flags c).

Lemma cube_mem_common c k : cube_mem c k =
  ((c_ver c =? 0) || (c_ver c =? k_ver k)) && mem_common c k &&
  addr_contains (c_src c) (val128 (k_src k)) && addr_contains (c_dst c) (val128 (k_dst k)).
Proof. unfold cube_mem, mem_common. btauto. Qed.

Lemma flags_zero c : cube_wf c -> c_tcp_mask c = 0 -> c_tcp_flags c = 0.
Proof. intros W E. rewrite <- (cw_flags c W), E. apply Z.land_0_r. Qed.

(** The common part of the emitted rule against the cube. *)
Lemma encode_common_ok c k s d : cube_wf c ->
  0 <= k_proto k <= 255 /\ 0 <= k_sport k <= 65535 /\ 0 <= k_dport k <= 65535 /\ 0 <= k_ttl k <= 255 ->
  let r := add_addr (fst (encode_common c)) s d in
  (mem_common c k = true -> pf_match_common r k = true) /\
  (snd (encode_common c) = true -> pf_match_common r k = true -> mem_common c k = true).
Proof.
  intros W (Rp & Rs & Rd & Rt). cbv zeta. rewrite match_common_encode.
  destruct (encode_range_ok 65535 _ _ (cw_sport c W) ltac:(lia) Rs) as [S1 X1].
  destruct (encode_range_ok 65535 _ _ (cw_dport c W) ltac:(lia) Rd) as [S2 X2].
  destruct (encode_value_ok 255 _ _ (cw_proto c W) ltac:(lia) Rp) as [S3 X3].
  destruct (encode_value_ok 255 _ _ (cw_ttl c W) ltac:(lia) Rt) as [S4 X4].
  assert (Ed : ((c_dir c =? 0) || (k_direction k =? u8 (c_dir c))) =
               ((c_dir c =? 0) || (c_dir c =? k_direction k))).
  { rewrite u8_small by (destruct (cw_dir c W) as [->|[->| ->]]; clear; lia). clear. lia. }
  assert (El : ((c_loopback c <? 0) || (k_loopback k =? u8 (c_loopback c))) =
               ((c_loopback c <? 0) || (c_loopback c =? k_loopback k))).
  { pose proof (cw_loopback c W) as Wl. destruct (c_loopback c <? 0) eqn:E; [reflexivity|].
    rewrite u8_small by (clear - E Wl; lia). apply Z.eqb_sym. }
  assert (Ef : ((c_tcp_mask c =? 0) || ((k_tcp_flags k &&& c_tcp_mask c) =? c_tcp_flags c)) =
               ((k_tcp_flags k &&& c_tcp_mask c) =? c_tcp_flags c)).
  { destruct (c_tcp_mask c =? 0) eqn:E; [|reflexivity]. apply Z.eqb_eq in E.
    now rewrite E, Z.land_0_r, (flags_zero c W E). }
  rewrite Ed, El, Ef. unfold mem_common. rewrite !andb_true_iff. split.
  - tauto.
  - unfold encode_common. cbn [snd]. rewrite !andb_true_iff, !negb_true_iff. tauto.
Qed.

(** ** Addresses *)

Lemma u8_land a b : u8 (Z.land a b) = Z.land (u8 a) (u8 b).
Proof.
  unfold u8. rewrite <- !Z.land_ones by lia. apply Z.bits_inj'. intros n Hn.
  rewrite !Z.land_spec. btauto.
Qed.

Lemma land_u32 a b : is_u32 a -> is_u32 b -> is_u32 (Z.land a b).
Proof.
  intros Ha Hb. apply u32_bits.
  - intros j Hj. now rewrite Z.land_spec, (u32_high a j Ha Hj).
  - apply Z.land_nonneg. left. apply Ha.
Qed.

Lemma byte_split a : 0 <= a < 2 ^ 32 ->
  a = 2 ^ 24 * ((a / 2 ^ 24) mod 2 ^ 8) + 2 ^ 16 * ((a / 2 ^ 16) mod 2 ^ 8) +
      2 ^ 8 * ((a / 2 ^ 8) mod 2 ^ 8) + a mod 2 ^ 8.
Proof. intros H. Z.div_mod_to_equations. lia. Qed.

(** Equal bytes, equal words. *)
Lemma word_bytes a b : is_u32 a -> is_u32 b ->
  (u8 (a >>> 24) =? u8 (b >>> 24)) && ((u8 (a >>> 16) =? u8 (b >>> 16)) &&
  ((u8 (a >>> 8) =? u8 (b >>> 8)) && (u8 a =? u8 b))) = (a =? b).
Proof.
  unfold is_u32, u8. intros Ha Hb. rewrite !Z.shiftr_div_pow2 by lia.
  apply eq_true_iff_eq. rewrite !andb_true_iff, !Z.eqb_eq. split; [|intros ->; auto].
  intros (H1 & H2 & H3 & H4). rewrite (byte_split a Ha), (byte_split b Hb). congruence.
Qed.

(** Word by word conjunction. *)
Definition land128 (a b : u128) : u128 :=
  W128 (Z.land (w0 a) (w0 b)) (Z.land (w1 a) (w1 b)) (Z.land (w2 a) (w2 b)) (Z.land (w3 a) (w3 b)).

Lemma land128_wf a b : wf128 a -> wf128 b -> wf128 (land128 a b).
Proof. intros (? & ? & ? & ?) (? & ? & ? & ?). repeat split; cbn; now apply land_u32. Qed.

Lemma land128_word a b i : word (land128 a b) i = Z.land (word a i) (word b i).
Proof. unfold word, land128. cbn. now repeat case_if. Qed.

Lemma land128_val a b : wf128 a -> wf128 b -> val128 (land128 a b) = Z.land (val128 a) (val128 b).
Proof.
  intros Ha Hb. apply Z.bits_inj'. intros j Hj. pose proof (land128_wf a b Ha Hb) as Hw.
  rewrite Z.land_spec. destruct (Z.lt_ge_cases j 128) as [Hl|Hl].
  - rewrite !val128_testbit by (assumption || lia). now rewrite land128_word, Z.land_spec.
  - now rewrite !val128_high by assumption.
Qed.

(** The byte-wise comparison of [pf_match] on the whole address. *)
Lemma bytes_eq_val x ip m : wf128 x -> wf128 ip -> wf128 m ->
  bytes_eq (to_net16 x) (to_net16 ip) (to_net16 m) =
  (Z.land (val128 x) (val128 m) =? Z.land (val128 ip) (val128 m)).
Proof.
  intros Hx Hi Hm. rewrite <- !land128_val by assumption.
  assert (E : (val128 (land128 x m) =? val128 (land128 ip m)) =
    (word (land128 x m) 3 =? word (land128 ip m) 3) && ((word (land128 x m) 2 =? word (land128 ip m) 2) &&
    ((word (land128 x m) 1 =? word (land128 ip m) 1) && (word (land128 x m) 0 =? word (land128 ip m) 0)))).
  { pose proof (land128_wf x m Hx Hm) as (A0 & A1 & A2 & A3).
    pose proof (land128_wf ip m Hi Hm) as (B0 & B1 & B2 & B3).
    destruct (land128 x m), (land128 ip m). unfold val128, is_u32 in *; cbn in *.
    apply eq_true_iff_eq. rewrite !andb_true_iff, !Z.eqb_eq. split; [|intros (-> & -> & -> & ->); auto].
    intros E. repeat split; lia. }
  pose proof (fun i => word_bytes _ _ (word_range _ i (land128_wf x m Hx Hm))
    (word_range _ i (land128_wf ip m Hi Hm))) as W.
  rewrite E, <- (W 3), <- (W 2), <- (W 1), <- (W 0). clear E W.
  rewrite !land128_word. unfold to_net16. cbn [flat_map app bytes_eq].
  rewrite !Z.shiftr_land, !u8_land. change (3 - 0) with 3. change (3 - 1) with 2.
  change (3 - 2) with 1. change (3 - 3) with 0. rewrite andb_true_r, !andb_assoc.
  reflexivity.
Qed.

(** The rule does not fail on the address condition. *)
Definition ea_ok6 (e : enc_addr) (x : u128) : bool :=
  negb (ea_active e &&
        Bool.eqb (bytes_eq (to_net16 x) (to_net16 (ea_ip e)) (to_net16 (ea_mask e))) (ea_invert e)).

Definition ea_ok4 (e : enc_addr) (x : u128) : bool :=
  negb (ea_active e &&
        Bool.eqb ((w0 x &&& mask4 (ea_mask e)) =? (w0 (ea_ip e) &&& mask4 (ea_mask e))) (ea_invert e)).

(** The full mask compares whole addresses. *)
Lemma mask_full x y : wf128 x -> wf128 y ->
  (Z.land (val128 x) (val128 (mask128 128)) =? Z.land (val128 y) (val128 (mask128 128))) =
  (val128 x =? val128 y).
Proof.
  intros Hx Hy. change (val128 (mask128 128)) with (Z.ones 128).
  rewrite !Z.land_ones by lia. pose proof (val128_bound x Hx). pose proof (val128_bound y Hy).
  now rewrite !Z.mod_small by lia.
Qed.

(** The three outcomes of [encode_addr]. *)
Lemma encode_addr_cases a : addr_wf a ->
  (addr_is_full a = true /\ encode_addr a = mkEncAddr true zero128 zero128 false false /\
   has_excl a = false /\ val128 (ad_lo a) = 0 /\ val128 (ad_hi a) = 2 ^ 128 - 1) \/
  (has_excl a = true /\ encode_addr a = mkEncAddr true (ad_excl a) (mask128 128) true true /\
   (val128 (ad_lo a) = 0 /\ val128 (ad_hi a) = 2 ^ 128 - 1 \/
    val128 (ad_lo a) = val128 lo4 /\ val128 (ad_hi a) = val128 hi4)) \/
  (exists bits ip ex, prefix_ok (ad_lo a) (ad_hi a) bits ip ex /\
   encode_addr a = mkEncAddr (ex && negb (has_excl a)) ip (mask128 bits) (bits >? 0) false).
Proof.
  intros (Hl & Hh & He). pose proof (cover_prefix_ok _ _ Hl Hh) as P. unfold encode_addr.
  destruct (addr_is_full a) eqn:Ef.
  - left. unfold addr_is_full in Ef.
    rewrite !cmp128_eq, val128_zero, val128_ones in Ef by auto using zero128_wf, ones128_wf.
    b2p. auto.
  - right. rewrite !cmp128_eq, val128_zero, val128_ones
      by auto using zero128_wf, ones128_wf, lo4_wf, hi4_wf.
    match goal with |- context [if ?b then _ else _] => destruct b eqn:Eb end.
    + left. apply andb_true_iff in Eb. destruct Eb as [Eb1 Eb2]. split; [exact Eb1|].
      split; [reflexivity|]. b2p. destruct Eb2 as [Eb2|Eb2]; b2p; auto.
    + right. destruct (cover_prefix _ _) as [[bits ip] ex]. exists bits, ip, ex. auto.
Qed.

(** With zero bits every address has the prefix. *)
Lemma div_top x : 0 <= x < 2 ^ 128 -> x / 2 ^ (128 - 0) = 0.
Proof. intros H. apply Z.div_small. exact H. Qed.

Lemma encode_addr6_ok a x : addr_wf a -> addr6_ok a -> wf128 x ->
  (addr_contains a (val128 x) = true -> ea_ok6 (encode_addr a) x = true) /\
  (ea_exact (encode_addr a) = true -> ea_ok6 (encode_addr a) x = true ->
   addr_contains a (val128 x) = true).
Proof.
  intros Ha H6 Hx. pose proof (val128_bound x Hx) as Bx. pose proof Ha as (Hl & Hh & He).
  unfold ea_ok6, addr_contains.
  destruct (encode_addr_cases a Ha) as [(_ & -> & -> & -> & ->)|[(-> & -> & Hc)|(bits & ip & ex & P & ->)]].
  - cbn [ea_active andb negb ea_exact]. split; [reflexivity|intros; lia].
  - cbn [ea_active ea_ip ea_mask ea_invert ea_exact andb].
    rewrite bytes_eq_val, mask_full by (assumption || apply (mask128_spec 128); lia).
    destruct Hc as [[-> ->]|[Hc _]]; [|contradiction].
    split; [|intros _]; intros H; lia.
  - cbn [ea_active ea_ip ea_mask ea_invert ea_exact].
    rewrite bytes_eq_val by (assumption || apply P || apply (mask128_spec bits), P).
    pose proof (prefix_match _ _ _ _ _ (val128 x) P Hl Bx) as M.
    assert (E : negb ((bits >? 0) && Bool.eqb (Z.land (val128 x) (val128 (mask128 bits)) =?
        Z.land (val128 ip) (val128 (mask128 bits))) false) =
      (val128 x / 2 ^ (128 - bits) =? val128 (ad_lo a) / 2 ^ (128 - bits))).
    { destruct (bits >? 0) eqn:Eb.
      - apply eq_true_iff_eq. rewrite Z.eqb_eq, <- M. destruct (_ =? _) eqn:Eq; b2p; cbn; split; congruence.
      - assert (bits = 0) as -> by (pose proof (px_bits _ _ _ _ _ P); lia).
        rewrite !div_top by (assumption || apply val128_bound, Hl). reflexivity. }
    rewrite E. split.
    + intros H. b2p. apply (px_cover _ _ _ _ _ P). split; assumption.
    + intros Hex Hm. b2p. subst ex. destruct (has_excl a); [discriminate|]. cbn [andb negb].
      pose proof (prefix_exact _ _ _ _ P _ Hm). lia.
Qed.

(** The words of the mask an IPv4 rule uses. *)
Lemma mask4_bits bits : 0 <= bits <= 128 ->
  mask4 (mask128 bits) = if 96 <=? bits then w0 (mask128 bits) else 0.
Proof.
  intros H. assert (E : forallb (fun n => Bool.eqb (w1 (mask128 (Z.of_nat n)) =? 0xFFFFFFFF)
    (96 <=? Z.of_nat n)) (seq 0 129) = true) by (vm_compute; reflexivity).
  rewrite forallb_forall in E. specialize (E (Z.to_nat bits)).
  rewrite in_seq, Z2Nat.id in E by lia. specialize (E ltac:(lia)).
  apply eqb_prop in E. unfold mask4. now rewrite E.
Qed.

Lemma mapped_words x : is_mapped_ipv4 x = true -> w1 x = 0xFFFF /\ w2 x = 0 /\ w3 x = 0.
Proof. unfold is_mapped_ipv4. intros H. b2p. auto. Qed.

Lemma mapped_div x : wf128 x -> is_mapped_ipv4 x = (val128 x / 2 ^ 32 =? 0xFFFF).
Proof.
  intros Hx. rewrite is_mapped_val by exact Hx. rewrite val128_lo4, val128_hi4.
  Z.div_mod_to_equations. lia.
Qed.

(** Between mapped addresses the low word decides. *)
Lemma mapped_land x y m : wf128 x -> wf128 y -> wf128 m ->
  is_mapped_ipv4 x = true -> is_mapped_ipv4 y = true ->
  (Z.land (w0 x) (w0 m) =? Z.land (w0 y) (w0 m)) =
  (Z.land (val128 x) (val128 m) =? Z.land (val128 y) (val128 m)).
Proof.
  intros Hx Hy Hm Mx My. rewrite <- !land128_val by assumption.
  apply mapped_words in Mx, My. destruct Mx as (E1 & E2 & E3), My as (F1 & F2 & F3).
  unfold val128, land128; cbn [w0 w1 w2 w3]. rewrite E1, E2, E3, F1, F2, F3.
  set (u := Z.land (w0 x) _). set (v := Z.land (w0 y) _). clearbody u v. lia.
Qed.

(** A prefix of at least 96 bits between encodable bounds is a prefix of
    mapped addresses. *)
Lemma prefix_mapped a bits ip ex : addr_wf a -> addr4_ok a ->
  prefix_ok (ad_lo a) (ad_hi a) bits ip ex -> 96 <= bits -> is_mapped_ipv4 ip = true.
Proof.
  intros (Hl & Hh & _) (H1 & H2 & _) P Hb. rewrite val128_lo4, val128_hi4 in *.
  pose proof (px_bits _ _ _ _ _ P) as B. pose proof (val128_bound _ Hl) as Bl.
  assert (E : val128 ip / 2 ^ 32 = val128 (ad_lo a) / 2 ^ 32).
  { apply bits_above; [lia|apply val128_bound, (px_wf _ _ _ _ _ P)|exact Bl|].
    intros j Hj. rewrite (px_base _ _ _ _ _ P) by lia.
    replace (128 - bits <=? j) with true by lia. apply andb_true_r. }
  assert (C : val128 (ad_lo a) / 2 ^ 32 = val128 (ad_hi a) / 2 ^ 32).
  { pose proof (px_common _ _ _ _ _ P) as C. replace (2 ^ 32) with (2 ^ (128 - bits) * 2 ^ (bits - 96))
      by (rewrite <- Z.pow_add_r by lia; f_equal; lia).
    rewrite <- !Z.div_div by (apply Z.pow_nonzero || apply Z.pow_pos_nonneg; lia). now rewrite C. }
  rewrite mapped_div, E by apply P. clear E P. Z.div_mod_to_equations. lia.
Qed.

(** A shorter exact prefix contains every mapped address. *)
Lemma short_prefix_exact a bits ip : addr_wf a -> addr4_ok a ->
  prefix_ok (ad_lo a) (ad_hi a) bits ip true -> bits < 96 ->
  val128 (ad_lo a) <= val128 lo4 /\ val128 hi4 <= val128 (ad_hi a).
Proof.
  intros (Hl & Hh & _) (H1 & H2 & _) P Hb. rewrite val128_lo4, val128_hi4 in *.
  pose proof (px_bits _ _ _ _ _ P) as B. pose proof (px_common _ _ _ _ _ P) as C.
  destruct (px_block _ _ _ _ _ P eq_refl) as [Ml Mh].
  pose proof (val128_bound _ Hl) as Bl. pose proof (val128_bound _ Hh) as Bh.
  set (m := 2 ^ (128 - bits)) in *.
  assert (Hm : m = 2 ^ 33 * 2 ^ (95 - bits))
    by (subst m; rewrite <- Z.pow_add_r by lia; f_equal; lia).
  assert (Hp : 0 < 2 ^ (95 - bits)) by (apply Z.pow_pos_nonneg; lia).
  pose proof (Z.div_mod (val128 (ad_lo a)) m ltac:(lia)) as D1.
  pose proof (Z.div_mod (val128 (ad_hi a)) m ltac:(lia)) as D2.
  rewrite Ml in D1. rewrite Mh, <- C in D2. set (q := val128 (ad_lo a) / m) in *.
  set (r := 2 ^ (95 - bits)) in *. clearbody q r.
  assert (E : val128 (ad_hi a) = val128 (ad_lo a) + (m - 1)) by lia.
  assert (E33 : val128 (ad_lo a) = 2 ^ 33 * (r * q)) by (rewrite D1, Hm; ring).
  assert (Lm : 0 < val128 (ad_lo a) -> m <= val128 (ad_lo a)) .
  { assert (0 < m) by lia. clear - D1 H. clearbody m. intros Hlo. assert (1 <= q) by nia. nia. }
  set (t := r * q) in *. clearbody t m. clear - E33 E Hm Hp H1 H2 Lm.
  destruct H1 as [H1|H1]; [lia|]. exfalso. specialize (Lm ltac:(lia)). lia.
Qed.

Lemma encode_addr4_ok a x : addr_wf a -> addr4_ok a -> wf128 x -> is_mapped_ipv4 x = true ->
  (addr_contains a (val128 x) = true -> ea_ok4 (encode_addr a) x = true) /\
  (ea_exact (encode_addr a) = true -> ea_ok4 (encode_addr a) x = true ->
   addr_contains a (val128 x) = true).
Proof.
  intros Ha H4 Hx Mx. pose proof (val128_bound x Hx) as Bx. pose proof Ha as (Hl & Hh & He).
  pose proof Mx as Mx'. rewrite is_mapped_val in Mx' by exact Hx. apply andb_true_iff in Mx'.
  unfold ea_ok4, addr_contains.
  destruct (encode_addr_cases a Ha) as [(_ & -> & -> & -> & ->)|[(E & -> & Hc)|(bits & ip & ex & P & ->)]].
  - cbn [ea_active andb negb ea_exact]. split; [reflexivity|intros; lia].
  - cbn [ea_active ea_ip ea_mask ea_invert ea_exact andb]. rewrite E.
    pose proof (proj2 (proj2 H4) E) as Hm. assert (Me : is_mapped_ipv4 (ad_excl a) = true)
      by (rewrite is_mapped_val by exact He; lia).
    rewrite mask4_bits by lia. change (96 <=? 128) with true. cbn iota.
    rewrite mapped_land, mask_full by (assumption || apply (mask128_spec 128); lia).
    split; [|intros _]; intros H; lia.
  - cbn [ea_active ea_ip ea_mask ea_invert ea_exact]. pose proof (px_bits _ _ _ _ _ P) as Hb.
    rewrite mask4_bits by exact Hb. destruct (96 <=? bits) eqn:E96; b2p.
    + rewrite mapped_land by (assumption || apply P || apply (mask128_spec bits), P ||
        now apply (prefix_mapped a bits ip ex)).
      pose proof (prefix_match _ _ _ _ _ (val128 x) P Hl Bx) as M.
      replace (bits >? 0) with true by lia. cbn [andb]. split.
      * intros H. b2p. rewrite (proj2 M); [now rewrite Z.eqb_refl|].
        apply (px_cover _ _ _ _ _ P). split; assumption.
      * intros Hex Hm. b2p. subst ex. destruct (has_excl a); [discriminate|].
        destruct (_ =? _) eqn:Eq in Hm; [|discriminate]. b2p.
        pose proof (prefix_exact _ _ _ _ P _ (proj1 M Eq)). lia.
    + rewrite !Z.land_0_r. cbn. rewrite andb_false_r. split; [reflexivity|].
      intros Hex _. b2p. subst ex. destruct (has_excl a); [discriminate|].
      pose proof (short_prefix_exact a bits ip Ha H4 P E96). lia.
Qed.

(** ** Rules *)

(** The address bits are not touched by [encode_common]. *)
Lemma common_masks c f : In f [MATCH_SRC_IP; MATCH_DST_IP; MATCH_FALSE] ->
  has (match_mask (fst (encode_common c))) f = false /\
  has (invert_mask (fst (encode_common c))) f = false.
Proof.
  intros [<-|[<-|[<-|[]]]]; unfold encode_common; cbn [fst match_mask invert_mask]; split; has_consts;
    reflexivity.
Qed.

Lemma common_enabled c : has (match_mask (fst (encode_common c))) MATCH_ENABLED = true.
Proof. unfold encode_common; cbn [fst match_mask]. has_consts. reflexivity. Qed.

Lemma add_addr_masks c s d : let r := add_addr (fst (encode_common c)) s d in
  rule_off (match_mask r) = false /\
  has (match_mask r) MATCH_SRC_IP = ea_active s /\ has (match_mask r) MATCH_DST_IP = ea_active d /\
  has (invert_mask r) MATCH_SRC_IP = ea_active s && ea_invert s /\
  has (invert_mask r) MATCH_DST_IP = ea_active d && ea_invert d.
Proof.
  cbv zeta. unfold rule_off, add_addr. cbn [match_mask invert_mask]. rewrite !has_lor, common_enabled.
  repeat match goal with |- context [has (match_mask (fst (encode_common c))) ?f] =>
    rewrite (proj1 (common_masks c f ltac:(cbn; auto))) end.
  repeat match goal with |- context [has (invert_mask (fst (encode_common c))) ?f] =>
    rewrite (proj2 (common_masks c f ltac:(cbn; auto))) end.
  has_consts. repeat split.
Qed.

Lemma emit_v4_match c k : pf_match_v4 (fst (emit_v4 c)) k =
  ea_ok4 (encode_addr (c_src c)) (k_src k) && ea_ok4 (encode_addr (c_dst c)) (k_dst k) &&
  pf_match_common (add_addr (fst (encode_common c)) (encode_addr (c_src c)) (encode_addr (c_dst c))) k.
Proof.
  unfold emit_v4, pf_match_v4, fails, ea_ok4. set (s := encode_addr (c_src c)).
  set (d := encode_addr (c_dst c)). pose proof (add_addr_masks c s d) as M. cbv zeta in M.
  destruct (encode_common c) as [r e]. cbn [fst] in *.
  cbn [r4_common r4_src_ip r4_dst_ip r4_src_mask r4_dst_mask].
  destruct M as (-> & -> & -> & -> & ->). rewrite !if_false.
  destruct (ea_active s), (ea_active d); cbn [andb negb]; now rewrite ?andb_true_r, ?andb_assoc.
Qed.

Lemma emit_v6_match c k : pf_match_v6 (fst (emit_v6 c)) k =
  ea_ok6 (encode_addr (c_src c)) (k_src k) && ea_ok6 (encode_addr (c_dst c)) (k_dst k) &&
  pf_match_common (add_addr (fst (encode_common c)) (encode_addr (c_src c)) (encode_addr (c_dst c))) k.
Proof.
  unfold emit_v6, pf_match_v6, fails, ea_ok6. set (s := encode_addr (c_src c)).
  set (d := encode_addr (c_dst c)). pose proof (add_addr_masks c s d) as M. cbv zeta in M.
  destruct (encode_common c) as [r e]. cbn [fst] in *.
  cbn [r6_common r6_src_ip r6_dst_ip r6_src_mask r6_dst_mask].
  destruct M as (-> & -> & -> & -> & ->). rewrite !if_false.
  destruct (ea_active s), (ea_active d); cbn [andb negb]; now rewrite ?andb_true_r, ?andb_assoc.
Qed.

Lemma emit_exact_v4 c : snd (emit_v4 c) =
  snd (encode_common c) && ea_exact (encode_addr (c_src c)) && ea_exact (encode_addr (c_dst c)).
Proof. unfold emit_v4. now destruct (encode_common c). Qed.

Lemma emit_exact_v6 c : snd (emit_v6 c) =
  snd (encode_common c) && ea_exact (encode_addr (c_src c)) && ea_exact (encode_addr (c_dst c)).
Proof. unfold emit_v6. now destruct (encode_common c). Qed.

Section Rules.
Variable v4 : bool.
Variable k : pf_pkt.
Hypothesis Hk : pkt_ok v4 k.

(** The rule of a cube matches the packets of the cube. *)
Lemma emit_v4_ok c : cube_inv v4 c -> v4 = true -> c_ver c <> 6 ->
  (cube_mem c k = true -> pf_match_v4 (fst (emit_v4 c)) k = true) /\
  (snd (emit_v4 c) = true -> pf_match_v4 (fst (emit_v4 c)) k = true -> cube_mem c k = true).
Proof.
  intros [W I] E Hv. destruct Hk as [R [As Ad] V _ [Ms Md]]. rewrite <- V, E in Ms, Md.
  rewrite E in I, V. destruct (I Hv) as [Is Id].
  rewrite emit_v4_match, emit_exact_v4, cube_mem_common.
  destruct (encode_addr4_ok _ _ (cw_src c W) Is As Ms) as [S1 X1].
  destruct (encode_addr4_ok _ _ (cw_dst c W) Id Ad Md) as [S2 X2].
  destruct (encode_common_ok c k (encode_addr (c_src c)) (encode_addr (c_dst c)) W R) as [S3 X3].
  assert (Ev : (c_ver c =? 0) || (c_ver c =? k_ver k) = true)
    by (destruct (cw_ver c W) as [Ec|[Ec|Ec]]; rewrite Ec; [reflexivity|clear - V; lia|contradiction]).
  rewrite Ev, !andb_true_iff. clear - S1 X1 S2 X2 S3 X3. split.
  - intros [[[_ H1] H2] H3]. exact (conj (conj (S1 H2) (S2 H3)) (S3 H1)).
  - intros [[H1 H2] H3] [[G1 G2] G3].
    exact (conj (conj (conj eq_refl (X3 H1 G3)) (X1 H2 G1)) (X2 H3 G2)).
Qed.

Lemma emit_v6_ok c : cube_inv v4 c -> v4 = false -> c_ver c <> 4 ->
  (cube_mem c k = true -> pf_match_v6 (fst (emit_v6 c)) k = true) /\
  (snd (emit_v6 c) = true -> pf_match_v6 (fst (emit_v6 c)) k = true -> cube_mem c k = true).
Proof.
  intros [W I] E Hv. destruct Hk as [R [As Ad] V F _]. rewrite E in I, V.
  destruct (I Hv) as [Is Id].
  rewrite emit_v6_match, emit_exact_v6, cube_mem_common.
  destruct (encode_addr6_ok _ _ (cw_src c W) Is As) as [S1 X1].
  destruct (encode_addr6_ok _ _ (cw_dst c W) Id Ad) as [S2 X2].
  destruct (encode_common_ok c k (encode_addr (c_src c)) (encode_addr (c_dst c)) W R) as [S3 X3].
  assert (Ev : (c_ver c =? 0) || (c_ver c =? k_ver k) = true)
    by (destruct (cw_ver c W) as [Ec|[Ec|Ec]]; rewrite Ec; [reflexivity|contradiction|clear - V F; lia]).
  rewrite Ev, !andb_true_iff. clear - S1 X1 S2 X2 S3 X3. split.
  - intros [[[_ H1] H2] H3]. exact (conj (conj (S1 H2) (S2 H3)) (S3 H1)).
  - intros [[H1 H2] H3] [[G1 G2] G3].
    exact (conj (conj (conj eq_refl (X3 H1 G3)) (X1 H2 G1)) (X2 H3 G2)).
Qed.

Lemma match_v4_app l r o e : k_ver k = 4 ->
  pf_match (mkResult (l ++ [r]) o e) k = pf_match (mkResult l o e) k || pf_match_v4 r k.
Proof. intros E. unfold pf_match. rewrite E. cbn. rewrite existsb_app. cbn. now rewrite orb_false_r. Qed.

Lemma match_v6_app l r o e : k_ver k = 6 ->
  pf_match (mkResult o (l ++ [r]) e) k = pf_match (mkResult o l e) k || pf_match_v6 r k.
Proof. intros E. unfold pf_match. rewrite E. cbn. rewrite existsb_app. cbn. now rewrite orb_false_r. Qed.

(** One cube of the loop: matches of the packet are those before or in it. *)
Definition adds (c : pf_cube) (out out' : pf_result) : Prop :=
  (pf_match out k = true -> pf_match out' k = true) /\
  (cube_mem c k = true -> pf_match out' k = true) /\
  (pr_exact out' = true -> pr_exact out = true /\
   (pf_match out' k = true -> pf_match out k = true \/ cube_mem c k = true)).

(** A step that leaves the rules of the packet's family alone. *)
Definition keeps (out out' : pf_result) : Prop :=
  pf_match out' k = pf_match out k /\ (pr_exact out' = true -> pr_exact out = true).

Lemma other_version c : cube_mem c k = true -> c_ver c = 4 \/ c_ver c = 6 -> c_ver c = k_ver k.
Proof. intros H Hv. apply cube_mem_spec in H. destruct (ms_ver c k H); lia. Qed.

Lemma lower_v4_adds c out out' : cube_inv v4 c -> v4 = true -> lower_v4 c out = Some out' ->
  adds c out out'.
Proof.
  intros Hc E. assert (Ek : k_ver k = 4) by (pose proof (pk_v4 v4 k Hk); lia). unfold lower_v4.
  destruct (c_ver c =? 6) eqn:Ev; b2p; cbn [negb].
  - intros H; inversion H; subst. repeat split; auto. intros Hm.
    apply other_version in Hm; [lia|auto].
  - case_if; [discriminate|]. pose proof (emit_v4_ok c Hc E Ev) as [S X].
    destruct (emit_v4 c) as [r e]. cbn [fst snd] in *. intros H; inversion H; subst; clear H.
    unfold adds. rewrite match_v4_app by exact Ek. cbn [pr_exact].
    change (pf_match {| pr_v4 := pr_v4 out; pr_v6 := pr_v6 out; pr_exact := _ |} k) with (pf_match out k).
    rewrite orb_true_iff, andb_true_iff. clear - S X.
    split; [now left|]. split; [now right; apply S|]. intros [Hx He]. split; [exact Hx|].
    intros [H|H]; [now left|right]. now apply X.
Qed.

Lemma lower_v6_adds c out out' : cube_inv v4 c -> v4 = false -> lower_v6 c out = Some out' ->
  adds c out out'.
Proof.
  intros Hc E. assert (Ek : k_ver k = 6) by (pose proof (pk_v4 v4 k Hk); pose proof (pk_fam v4 k Hk); lia).
  unfold lower_v6. destruct (c_ver c =? 4) eqn:Ev; b2p; cbn [negb].
  - intros H; inversion H; subst. repeat split; auto. intros Hm.
    apply other_version in Hm; [lia|auto].
  - case_if; [discriminate|]. pose proof (emit_v6_ok c Hc E Ev) as [S X].
    destruct (emit_v6 c) as [r e]. cbn [fst snd] in *. intros H; inversion H; subst; clear H.
    unfold adds. rewrite match_v6_app by exact Ek. cbn [pr_exact].
    change (pf_match {| pr_v4 := pr_v4 out; pr_v6 := pr_v6 out; pr_exact := _ |} k) with (pf_match out k).
    rewrite orb_true_iff, andb_true_iff. clear - S X.
    split; [now left|]. split; [now right; apply S|]. intros [Hx He]. split; [exact Hx|].
    intros [H|H]; [now left|right]. now apply X.
Qed.

Lemma lower_v4_keeps c out out' : v4 = false -> lower_v4 c out = Some out' -> keeps out out'.
Proof.
  intros E. unfold lower_v4. pose proof (pk_v4 v4 k Hk) as V. rewrite E in V.
  destruct (negb _); [|intros H; inversion H; subst; split; auto].
  case_if; [discriminate|]. destruct (emit_v4 c) as [r e]. intros H; inversion H; subst.
  unfold keeps, pf_match. rewrite <- V. cbn. rewrite andb_true_iff. tauto.
Qed.

Lemma lower_v6_keeps c out out' : v4 = true -> lower_v6 c out = Some out' -> keeps out out'.
Proof.
  intros E. unfold lower_v6. pose proof (pk_v4 v4 k Hk) as V. rewrite E in V.
  destruct (negb _); [|intros H; inversion H; subst; split; auto].
  case_if; [discriminate|]. destruct (emit_v6 c) as [r e]. intros H; inversion H; subst.
  unfold keeps, pf_match. rewrite <- V. cbn. rewrite andb_true_iff. tauto.
Qed.

Lemma lower_step_adds c out out1 out2 : cube_inv v4 c ->
  lower_v4 c out = Some out1 -> lower_v6 c out1 = Some out2 -> adds c out out2.
Proof.
  intros Hc H1 H2. assert (D : v4 = true \/ v4 = false) by (clear; destruct v4; auto). destruct D as [E|E].
  - destruct (lower_v6_keeps c out1 out2 E H2) as [K1 K2].
    destruct (lower_v4_adds c out out1 Hc E H1) as (A1 & A2 & A3). unfold adds. rewrite K1. auto.
  - destruct (lower_v4_keeps c out out1 E H1) as [K1 K2].
    destruct (lower_v6_adds c out1 out2 Hc E H2) as (A1 & A2 & A3). unfold adds.
    rewrite K1 in *. split; [exact A1|]. split; [exact A2|]. intros Hx. destruct (A3 Hx). auto.
Qed.

(** The emission loop. *)
Lemma lower_cubes_ok : forall cubes out res, Forall (cube_inv v4) cubes ->
  lower_cubes cubes out = Some res ->
  (pf_match out k = true -> pf_match res k = true) /\
  (forall c, In c cubes -> cube_mem c k = true -> pf_match res k = true) /\
  (pr_exact res = true -> pr_exact out = true /\
   (pf_match res k = true -> pf_match out k = true \/
    exists c, In c cubes /\ c_exact c = true /\ cube_mem c k = true)).
Proof.
  induction cubes as [|c cubes IH]; intros out res HF; cbn [lower_cubes].
  - intros H; inversion H; subst. repeat split; auto; contradiction.
  - inversion HF; subst; clear HF. set (out0 := mkResult _ _ _).
    destruct (lower_v4 c out0) as [out1|] eqn:E1; [|discriminate].
    destruct (lower_v6 c out1) as [out2|] eqn:E2; [|discriminate]. intros Hl.
    destruct (IH _ _ H2 Hl) as (A1 & A2 & A3).
    destruct (lower_step_adds c _ _ _ H1 E1 E2) as (B1 & B2 & B3).
    change (pf_match out0 k) with (pf_match out k) in *.
    split; [auto|]. split; [intros d [<-|Hd]; eauto|]. intros Hx. destruct (A3 Hx) as [Hx2 C1].
    destruct (B3 Hx2) as [Hx0 C2]. cbn in Hx0. apply andb_true_iff in Hx0. destruct Hx0 as [Hx0 Hxc].
    split; [exact Hx0|]. intros Hm. destruct (C1 Hm) as [Hm2|(d & Hd & ? & ?)];
      [destruct (C2 Hm2) as [Hm0|Hmc]; [auto|]|]; right; [exists c|exists d]; cbn; auto.
Qed.
End Rules.

Lemma branch_inv v4 k c P l : branch_ok v4 k c P l -> Forall (cube_inv v4) l.
Proof. intros [_ X]. apply Forall_forall. intros d Hd. apply (X d Hd). Qed.

Lemma match_all_matches k : k_ver k = 4 \/ k_ver k = 6 -> pf_match match_all k = true.
Proof. intros [E|E]; unfold pf_match; rewrite E; reflexivity. Qed.

(** ** The contract of [pf_lower] *)

Section Lower.
Variable a : exec_args.
Variable k : pf_pkt.
Variable obj : list WINDIVERT_FILTER.
Hypothesis Hag : agrees a k.
Hypothesis Hmap : no_mapped k.
Hypothesis Hargs : args_ok a.
Hypothesis Hwf : wf_filter (a_layer a) obj = true.
Hypothesis Hlow : forallb (lowerable (is_v4 k)) obj = true.

Lemma pf_lower_network : exists res, pf_lower (a_layer a) obj = Some res.
Proof. unfold pf_lower. destruct (ag_layer a k Hag) as [-> | ->]; eauto. Qed.

Lemma lower_sound res : pf_lower (a_layer a) obj = Some res ->
  (accepts a obj 0 = true -> pf_match res k = true) /\
  (pr_exact res = true -> pf_match res k = true -> accepts a obj 0 = true).
Proof.
  pose proof (eval_pkt a k Hag Hmap Hargs) as Hk. pose proof (pk_fam _ _ Hk) as Fam.
  pose proof (cube_init_mem a k Hag) as Hi.
  pose proof (run_sound a k obj Hag Hmap Hargs Hwf Hlow) as Run. cbv zeta in Run.
  assert (All : (accepts a obj 0 = true -> pf_match match_all k = true) /\
    (pr_exact match_all = true -> pf_match match_all k = true -> accepts a obj 0 = true))
    by (split; [intros; now apply match_all_matches|discriminate]).
  unfold pf_lower. set (x := pf_run false obj) in *. clearbody x.
  assert (Main : forall r, r = (if x_overflow x then match_all
          else match lower_cubes (x_cubes x) (mkResult [] [] true) with
               | None => match_all | Some out => out end) ->
    (accepts a obj 0 = true -> pf_match r k = true) /\
    (pr_exact r = true -> pf_match r k = true -> accepts a obj 0 = true)).
  { intros r ->. destruct (x_overflow x); [exact All|]. destruct Run as [Run|Run]; [discriminate|].
    destruct (lower_cubes _ _) as [out|] eqn:E; [|exact All].
    destruct (lower_cubes_ok _ k Hk _ _ _ (branch_inv _ _ _ _ _ Run) E) as (_ & S & X).
    destruct Run as [BS BX]. split.
    - intros Hacc. destruct (BS Hi Hacc) as (d & Hd & Hm). exact (S d Hd Hm).
    - intros Hx Hm. destruct (X Hx) as [_ C]. destruct (C Hm) as [H0|(d & Hd & He & Hm')].
      + clear - H0. unfold pf_match in H0. cbn in H0. now destruct (k_ver k =? 4).
      + now destruct (BX d Hd) as [_ Y]; apply Y. }
  destruct (ag_layer a k Hag) as [-> | ->]; intros H; inversion H; now apply Main.
Qed.
End Lower.

(** ** Properties *)

(** C13. The contract of [pf_lower] for any packet both sides describe alike
    ([agrees]), without IPv4-mapped addresses, and any filter whose tests are
    [lowerable] for its IP version: the rules match every packet the filter
    accepts, and no other packet when the result is flagged exact. *)
Theorem pf_lower_contract a k obj res : agrees a k -> no_mapped k -> args_ok a ->
  wf_filter (a_layer a) obj = true -> forallb (lowerable (is_v4 k)) obj = true ->
  pf_lower (a_layer a) obj = Some res ->
  (WinDivertExecuteFilter (object_array obj) a = VRet 1 -> pf_match res k = true) /\
  (pr_exact res = true -> pf_match res k = true ->
   WinDivertExecuteFilter (object_array obj) a = VRet 1).
Proof.
  intros Hag Hm Ha Hf Hl Hr. rewrite ExecuteFilter_object by assumption.
  destruct (lower_sound a k obj Hag Hm Ha Hf Hl res Hr) as [S X]. split.
  - intros E. apply S. destruct (accepts a obj 0); [reflexivity|discriminate].
  - intros He E. now rewrite (X He E).
Qed.
