(* ===== verification/PfEvents.v ===== *)
(** * Lowering of event filters

    [encode_range32], [emit_event_rule] and [pf_lower_events] of
    [src/prefilter.c]: the filter of a SOCKET handle as rules the kernel can
    refuse an operation by.  The records of the event programs
    ([include/ebpfdivert_shared.h]) are here too.

    In event mode every field has a value, so a cube is a condition on the
    values of an event; [event_branch_ok] shows that [pf_branch] respects it
    and [event_run_sound] that the cubes of the walk are the filter. *)

From Stdlib Require Import ZArith List Bool Lia ZifyBool.
From S2P Require Import Prelude WdTypes WdPacket WdHash WdExec PfRange PfAddr PfCube PfBranch.
From S2P Require Import PfInsn PfWalk PfEncode PfSound.
Import ListNotations.

(** ** Data *)

Definition EVENT_RULES_MAX : Z := 32.

(** [struct divert_event]: addresses are sixteen bytes in network order, IPv4
    as [::ffff:a.b.c.d]; ports are in host order. *)
Record divert_event : Set := mkEvent {
  ev_timestamp : Z;
  ev_endpoint_id : Z;
  ev_parent_endpoint_id : Z;
  ev_pid : Z;
  ev_event : Z;
  ev_protocol : Z;
  ev_family : Z;
  ev_flags : Z;
  ev_local_port : Z;
  ev_remote_port : Z;
  ev_local_addr : list Z;
  ev_remote_addr : list Z
}.

Definition EVM_ENABLED : Z := 1 <<< 0.
Definition EVM_EVENT : Z := 1 <<< 1.
Definition EVM_PROTO : Z := 1 <<< 2.
Definition EVM_FAMILY : Z := 1 <<< 3.
Definition EVM_LPORT : Z := 1 <<< 4.
Definition EVM_RPORT : Z := 1 <<< 5.
Definition EVM_LADDR : Z := 1 <<< 6.
Definition EVM_RADDR : Z := 1 <<< 7.
Definition EVM_PID : Z := 1 <<< 8.
Definition EVM_LOOPBACK : Z := 1 <<< 9.

Record event_rule : Set := mkEventRule {
  er_match_mask : Z;
  er_invert_mask : Z;
  pid_lo : Z;
  pid_hi : Z;
  event_mask : Z;
  lport_lo : Z;
  lport_hi : Z;
  rport_lo : Z;
  rport_hi : Z;
  er_proto : Z;
  er_family : Z;
  er_loopback : Z;
  laddr : list Z;
  lmask : list Z;
  raddr : list Z;
  rmask : list Z
}.

(** ** Encoding *)

Definition encode_range32 (r : pf_range) (max : Z) : enc_range :=
  if range_is_full r max then mkEncRange true 0 0 false false
  else
    match r_excl r with
    | [] => mkEncRange true (r_lo r) (r_hi r) true false
    | [x] =>
      if (r_lo r =? 0) && (r_hi r =? max) then mkEncRange true x x true true
      else mkEncRange false (r_lo r) (r_hi r) true false
    | _ => mkEncRange false (r_lo r) (r_hi r) true false
    end.

(** The bits [i .. i + n - 1] of the events a range contains. *)
Fixpoint event_bits (r : pf_range) (i : Z) (n : nat) (mask : Z) : Z :=
  match n with
  | O => mask
  | S n => event_bits r (i + 1) n (if range_contains r i then mask ||| u16 (1 <<< i) else mask)
  end.

(** The rule of a cube and whether nothing was widened. *)
Definition emit_event_rule (c : pf_cube) : event_rule * bool :=
  let ev_on := negb (range_is_full (c_event c) 15) in
  let p := encode_range32 (c_proto c) 255 in
  let l := encode_range32 (c_sport c) 65535 in
  let r := encode_range32 (c_dport c) 65535 in
  let d := encode_range32 (c_pid c) 0xFFFFFFFF in
  let s := encode_addr (c_src c) in
  let t := encode_addr (c_dst c) in
  let p_on := er_active p && (er_start p =? er_end p) in
  ({| er_match_mask :=
        EVM_ENABLED ||| flag_if ev_on EVM_EVENT ||| flag_if (negb (c_ver c =? 0)) EVM_FAMILY |||
        flag_if p_on EVM_PROTO ||| flag_if (er_active l) EVM_LPORT |||
        flag_if (er_active r) EVM_RPORT ||| flag_if (er_active d) EVM_PID |||
        flag_if (ea_active s) EVM_LADDR ||| flag_if (ea_active t) EVM_RADDR;
      er_invert_mask :=
        flag_if (p_on && er_invert p) EVM_PROTO |||
        flag_if (er_active l && er_invert l) EVM_LPORT |||
        flag_if (er_active r && er_invert r) EVM_RPORT |||
        flag_if (er_active d && er_invert d) EVM_PID |||
        flag_if (ea_active s && ea_invert s) EVM_LADDR |||
        flag_if (ea_active t && ea_invert t) EVM_RADDR;
      pid_lo := if er_active d then er_start d else 0;
      pid_hi := if er_active d then er_end d else 0;
      event_mask := if ev_on then event_bits (c_event c) 0 16 0 else 0;
      lport_lo := if er_active l then u16 (er_start l) else 0;
      lport_hi := if er_active l then u16 (er_end l) else 0;
      rport_lo := if er_active r then u16 (er_start r) else 0;
      rport_hi := if er_active r then u16 (er_end r) else 0;
      er_proto := if p_on then u8 (er_start p) else 0;
      er_family := if c_ver c =? 0 then 0 else u8 (c_ver c);
      er_loopback := 0;
      laddr := if ea_active s then to_net16 (ea_ip s) else zero16;
      lmask := if ea_active s then to_net16 (ea_mask s) else zero16;
      raddr := if ea_active t then to_net16 (ea_ip t) else zero16;
      rmask := if ea_active t then to_net16 (ea_mask t) else zero16 |},
   c_exact c && er_exact p && negb (er_active p && negb p_on) && er_exact l && er_exact r &&
   er_exact d && ea_exact s && ea_exact t).

(** The rules [rules[0 .. n-1]] and [*exact]. *)
Definition pf_lower_events (obj : list WINDIVERT_FILTER) (max : Z) : list event_rule * bool :=
  let x := pf_run true obj in
  if x_overflow x || (zlen (x_cubes x) >? max) then ([], false)
  else (map (fun c => fst (emit_event_rule c)) (x_cubes x),
        forallb (fun c => snd (emit_event_rule c)) (x_cubes x)).

(** ** Events in cubes *)

(** The values a filter of the event layers reads. *)
Record ev_view : Set := mkView {
  v_event : Z;
  v_family : Z;
  v_proto : Z;
  v_lport : Z;
  v_rport : Z;
  v_pid : Z;
  v_laddr : u128;
  v_raddr : u128
}.

(** [words_from_net] of [src/handle.c]: sixteen bytes as four words, the
    least significant first. *)
Definition words_from_net (b : list Z) : u128 := W128 (be32 b 12) (be32 b 8) (be32 b 4) (be32 b 0).

Definition event_view (e : divert_event) : ev_view :=
  mkView (ev_event e) (ev_family e) (ev_protocol e) (ev_local_port e) (ev_remote_port e) (ev_pid e)
    (words_from_net (ev_local_addr e)) (words_from_net (ev_remote_addr e)).

Definition event_mem (v : ev_view) (c : pf_cube) : bool :=
  ((c_ver c =? 0) || (c_ver c =? v_family v)) &&
  range_contains (c_event c) (v_event v) && range_contains (c_proto c) (v_proto v) &&
  range_contains (c_sport c) (v_lport v) && range_contains (c_dport c) (v_rport v) &&
  range_contains (c_pid c) (v_pid v) &&
  addr_contains (c_src c) (val128 (v_laddr v)) && addr_contains (c_dst c) (val128 (v_raddr v)).

Record event_inv (c : pf_cube) : Prop := {
  ei_ver : c_ver c = 0 \/ c_ver c = 4 \/ c_ver c = 6;
  ei_event : range_wf 15 (c_event c);
  ei_proto : range_wf 255 (c_proto c);
  ei_sport : range_wf 65535 (c_sport c);
  ei_dport : range_wf 65535 (c_dport c);
  ei_pid : range_wf 0xFFFFFFFF (c_pid c);
  ei_src : addr_wf (c_src c) /\ addr6_ok (c_src c);
  ei_dst : addr_wf (c_dst c) /\ addr6_ok (c_dst c)
}.

(** The event as the evaluator gets it: FLOW or SOCKET data and no packet. *)
Record event_agrees (a : exec_args) (v : ev_view) (d : WINDIVERT_DATA_FLOW) : Prop := {
  ea_layer : a_layer a = LAYER_FLOW /\ a_flow a = Some d \/
             a_layer a = LAYER_SOCKET /\ a_socket a = Some d;
  ea_headers : a_ip_header a = None /\ a_ipv6_header a = None;
  ea_event : a_event a = v_event v;
  ea_pid : ProcessId d = v_pid v;
  ea_proto : Protocol d = v_proto v;
  ea_ports : LocalPort d = v_lport v /\ RemotePort d = v_rport v;
  ea_addrs : LocalAddr d = v_laddr v /\ RemoteAddr d = v_raddr v;
  ea_range : 0 <= v_event v <= 15 /\ 0 <= v_proto v <= 255 /\ 0 <= v_lport v <= 65535 /\
             0 <= v_rport v <= 65535 /\ 0 <= v_pid v <= 0xFFFFFFFF;
  ea_wf : wf128 (v_laddr v) /\ wf128 (v_raddr v)
}.

(** Fields compared with a number; the lowering takes no negative one. *)
Definition event_numeric (f : FIELD) : bool :=
  match f with
  | FIELD_ZERO | FIELD_EVENT | FIELD_PROCESSID | FIELD_PROTOCOL | FIELD_LOCALPORT
  | FIELD_REMOTEPORT | FIELD_LOCALADDR | FIELD_REMOTEADDR | FIELD_IP | FIELD_IPV6 => true
  | _ => false
  end.

(** An instruction [pf_branch_event] lowers faithfully. *)
Definition event_lowerable (i : WINDIVERT_FILTER) : bool :=
  arg_ok (arg i) && negb (event_numeric (field i) && neg i) &&
  negb (is_local_addr (field i) && edge4 (arg i)).

#[global] Arguments event_mem : simpl never.

(** Membership, conjunct by conjunct. *)
Record event_mem_spec (v : ev_view) (c : pf_cube) : Prop := {
  es_ver : c_ver c = 0 \/ c_ver c = v_family v;
  es_event : range_contains (c_event c) (v_event v) = true;
  es_proto : range_contains (c_proto c) (v_proto v) = true;
  es_sport : range_contains (c_sport c) (v_lport v) = true;
  es_dport : range_contains (c_dport c) (v_rport v) = true;
  es_pid : range_contains (c_pid c) (v_pid v) = true;
  es_src : addr_contains (c_src c) (val128 (v_laddr v)) = true;
  es_dst : addr_contains (c_dst c) (val128 (v_raddr v)) = true
}.

Lemma event_mem_iff v c : event_mem v c = true <-> event_mem_spec v c.
Proof.
  unfold event_mem. rewrite !andb_true_iff, !orb_true_iff, !Z.eqb_eq. split.
  - intros H. split; tauto.
  - intros []. tauto.
Qed.

Section EventBranch.
Variable a : exec_args.
Variable v : ev_view.
Variable d : WINDIVERT_DATA_FLOW.
Hypothesis Hag : event_agrees a v d.

(** Replace one range member; [R] is the lemma on [range_apply]. *)
Ltac event_range R :=
  let H := fresh "Hra" in let Ha := fresh "Ha" in let r' := fresh "r'" in let e' := fresh "e'" in
  let He := fresh "He" in let W := fresh "W" in let Hs := fresh "Hs" in let Hx := fresh "Hx" in
  let Hy := fresh "Hy" in
  intros [] Ha; destruct (ea_range a v d Hag) as (? & ? & ? & ? & ?);
  match goal with
  | |- context [range_apply ?r ?t ?x ?max ?e] =>
      pose proof (fun W => R r t x e W Ha) as H; cbv beta in H;
      destruct (range_apply r t x max e) as [[r' e']|]; cbn [option_map opt_list]
  end;
  [ destruct H as (W & Hs & Hx); [assumption|]; apply covers_one;
    [ split; cbn; assumption
    | rewrite !event_mem_iff; intros [] ?; split; cbn; try assumption; apply Hs; assumption
    | cbn; rewrite !event_mem_iff; intros He []; cbn in *; destruct (Hx He) as [? Hy];
      match goal with
      | M : range_contains r' ?v = true |- _ => destruct (Hy v ltac:(assumption) M)
      end; repeat split; assumption ]
  | apply covers_nil; rewrite event_mem_iff; intros []; apply H; assumption ].

Lemma event_event_ok c t x : event_inv c -> 0 <= x ->
  covers event_inv (event_mem v) c (test_z t (v_event v) x) (opt_list (apply_event c t x)).
Proof using Hag. unfold apply_event. event_range (range_apply_ok 15). Qed.

Lemma event_proto_ok c t x : event_inv c -> 0 <= x ->
  covers event_inv (event_mem v) c (test_z t (v_proto v) x) (opt_list (apply_proto c t x)).
Proof using Hag. unfold apply_proto. event_range (range_apply_ok 255). Qed.

Lemma event_lport_ok c t x : event_inv c -> 0 <= x ->
  covers event_inv (event_mem v) c (test_z t (v_lport v) x) (opt_list (apply_sport c t x)).
Proof using Hag. unfold apply_sport. event_range (range_apply_ok 65535). Qed.

Lemma event_rport_ok c t x : event_inv c -> 0 <= x ->
  covers event_inv (event_mem v) c (test_z t (v_rport v) x) (opt_list (apply_dport c t x)).
Proof using Hag. unfold apply_dport. event_range (range_apply_ok 65535). Qed.

Lemma event_pid_ok c t x : event_inv c -> 0 <= x ->
  covers event_inv (event_mem v) c (test_z t (v_pid v) x) (opt_list (apply_pid c t x)).
Proof using Hag. unfold apply_pid. event_range (range_apply_ok 0xFFFFFFFF). Qed.

(** Replace one address member. *)
Ltac event_addr :=
  let E := fresh "E" in let a' := fresh "a'" in let e' := fresh "e'" in
  intros [] Hv He; destruct (ea_wf a v d Hag) as [Hs Hd];
  pose proof (val128_bound _ Hs); pose proof (val128_bound _ Hd);
  let H := fresh "Hra" in
  match goal with
  | |- context [addr_apply ?r ?t ?x ?e] =>
      pose proof (fun W => addr_apply_ok r t x e W Hv) as H; cbv beta in H;
      destruct (addr_apply r t x e) as [[a' e']|] eqn:E; cbn [option_map opt_list]
  end;
  [ destruct H as (W & S & X); [tauto|]; apply covers_one;
    [ split; cbn; try assumption; split; [exact W|];
      eapply addr_apply_addr6; [..|exact E]; tauto
    | rewrite !event_mem_iff; intros [] ?; split; cbn; try assumption; apply S; assumption
    | cbn; rewrite !event_mem_iff; intros Hx []; cbn in *; destruct (X Hx) as [? Y];
      match goal with
      | M : addr_contains a' ?v = true |- _ => destruct (Y v ltac:(assumption) M)
      end; repeat split; assumption ]
  | apply covers_nil; rewrite event_mem_iff; intros []; apply H; tauto ].

Lemma event_laddr_ok c t x : event_inv c -> wf128 x -> edge4 x = false ->
  covers event_inv (event_mem v) c (test_z t (val128 (v_laddr v)) (val128 x)) (opt_list (apply_src c t x)).
Proof using Hag. unfold apply_src. event_addr. Qed.

Lemma event_raddr_ok c t x : event_inv c -> wf128 x -> edge4 x = false ->
  covers event_inv (event_mem v) c (test_z t (val128 (v_raddr v)) (val128 x)) (opt_list (apply_dst c t x)).
Proof using Hag. unfold apply_dst. event_addr. Qed.

(** [tcp] and [udp] test the protocol number. *)
Lemma event_presence_ok c t x ng p : event_inv c -> 0 <= x -> 0 <= p ->
  covers event_inv (event_mem v) c (bool_test t x ng (v_proto v =? p))
    (opt_list match apply_bool (-1) t x ng with
              | None => None
              | Some slot =>
                if slot >=? 0 then apply_proto c (if negb (slot =? 0) then TEST_EQ else TEST_NEQ) p
                else Some c
              end).
Proof using Hag.
  intros Hc Hx Hp. pose proof (apply_bool_spec (-1) t x ng (v_proto v =? p) ltac:(lia) Hx) as B.
  destruct (apply_bool (-1) t x ng) as [s|]; [|apply covers_nil; intros _; exact B].
  destruct B as [[Hs _] B]. change (slot_allows (-1) _) with true in B. cbn [andb] in B. rewrite B.
  unfold slot_allows. destruct (s >=? 0) eqn:Es.
  - eapply covers_ext; [apply event_proto_ok; assumption|]. intros _.
    unfold test_z. assert (s = 0 \/ s = 1) as [-> | ->] by lia; cbn; now destruct (v_proto v =? p).
  - apply covers_same; [exact Hc|]. intros _. lia.
Qed.

(** The evaluator on the event. *)
Lemma event_val i : WinDivertValidateField (a_layer a) (field i) = true ->
  header_present a (field i) = true -> holds a i = val_test a i (test i).
Proof using. intros Hv Hp. now rewrite (holds_val a i Hv), Hp. Qed.

(** [test] or its negation, by the branch. *)
Definition branch_test (positive : bool) (t : TEST) : TEST := if positive then t else negate_test t.

Lemma branch_test_result positive t x :
  Bool.eqb (test_result t x) positive = test_result (branch_test positive t) x.
Proof using.
  destruct positive; cbn; [now destruct (test_result t x)|]. rewrite negate_test_result.
  now destruct (test_result t x).
Qed.

(** The value of a field the rules can express. *)
Definition event_num (f : FIELD) : option Z :=
  match f with
  | FIELD_EVENT => Some (v_event v) | FIELD_PROCESSID => Some (v_pid v)
  | FIELD_PROTOCOL => Some (v_proto v) | FIELD_LOCALPORT => Some (v_lport v)
  | FIELD_REMOTEPORT => Some (v_rport v) | FIELD_IP | FIELD_IPV6 | FIELD_ZERO => Some 0
  | _ => None
  end.

Lemma event_num_fetch f n x : event_num f = Some n -> header_present a f = true /\
  fetch_field a f x = small n /\ 0 <= n.
Proof using Hag.
  destruct Hag as [L [H4 H6] He Hp Hq [Hl Hr] _ (R1 & R2 & R3 & R4 & R5) _].
  intros E. destruct f; inversion E; subst n; split; try reflexivity;
    (split; [|lia]); cbn [fetch_field fetch_meta fetch_presence fetch_layer];
    unfold fetch_port; rewrite ?H4, ?H6, ?He; try reflexivity;
    destruct L as [[-> ->]|[-> ->]]; cbn [deref]; congruence.
Qed.

Definition event_addr (f : FIELD) : option u128 :=
  match f with
  | FIELD_LOCALADDR => Some (v_laddr v) | FIELD_REMOTEADDR => Some (v_raddr v) | _ => None
  end.

Lemma event_addr_fetch f n x : event_addr f = Some n -> header_present a f = true /\
  fetch_field a f x = FVal false true n /\ wf128 n.
Proof using Hag.
  destruct Hag as [L _ _ _ _ _ [Hl Hr] _ [W1 W2]].
  intros E. destruct f; inversion E; subst n; split; try reflexivity; (split; [|assumption]);
    cbn [fetch_field fetch_layer]; unfold fetch_addr, words128;
    destruct L as [[-> ->]|[-> ->]]; cbn [deref]; congruence.
Qed.

Lemma event_num_holds i n positive : WinDivertValidateField (a_layer a) (field i) = true ->
  event_num (field i) = Some n -> neg i = false -> 0 <= w0 (arg i) ->
  Bool.eqb (holds a i) positive = test_z (branch_test positive (test i)) n (w0 (arg i)).
Proof using Hag.
  intros Hv En Hn Ha. destruct (event_num_fetch _ _ (w1 (arg i)) En) as (Hp & Hf & H0).
  rewrite event_val by assumption. unfold val_test. rewrite Hf, Hn. unfold small.
  rewrite branch_test_result. now apply cmp_small.
Qed.

Lemma event_addr_holds i n positive : WinDivertValidateField (a_layer a) (field i) = true ->
  event_addr (field i) = Some n -> neg i = false -> wf128 (arg i) ->
  Bool.eqb (holds a i) positive =
  test_z (branch_test positive (test i)) (val128 n) (val128 (arg i)).
Proof using Hag.
  intros Hv En Hn Ha. destruct (event_addr_fetch _ _ (w1 (arg i)) En) as (Hp & Hf & Hw).
  rewrite event_val by assumption. unfold val_test. rewrite Hf, Hn.
  rewrite branch_test_result. now apply cmp_big.
Qed.

Lemma event_presence_holds i positive (p : Z) : WinDivertValidateField (a_layer a) (field i) = true ->
  (field i = FIELD_TCP /\ p = IPPROTO_TCP \/ field i = FIELD_UDP /\ p = IPPROTO_UDP) ->
  Bool.eqb (holds a i) positive =
  bool_test (branch_test positive (test i)) (w0 (arg i)) (neg i) (v_proto v =? p).
Proof using Hag.
  intros Hv Hf. assert (Hp : header_present a (field i) = true)
    by (destruct Hf as [[-> _]|[-> _]]; reflexivity).
  rewrite event_val by assumption. unfold val_test, bool_test.
  assert (F : fetch_field a (field i) (w1 (arg i)) = small (b2z (v_proto v =? p))).
  { destruct Hag as [L _ _ _ Hq _ _ _ _]. rewrite <- Hq.
    destruct Hf as [[-> ->]|[-> ->]]; cbn [fetch_field fetch_presence]; unfold proto_field;
      destruct L as [[-> ->]|[-> ->]]; reflexivity. }
  rewrite F. unfold small. apply branch_test_result.
Qed.

Lemma zero_test_z t x : 0 <= x -> zero_test t x false = test_z t 0 x.
Proof using. intros H. unfold zero_test, test_z. destruct (Z.eqb_spec x 0), t; cbn [test_result]; lia. Qed.

(** One call of [pf_branch] in event mode. *)
Lemma event_branch_ok i positive c : WinDivertValidateField (a_layer a) (field i) = true ->
  event_lowerable i = true -> event_inv c ->
  covers event_inv (event_mem v) c (Bool.eqb (holds a i) positive) (pf_branch true i positive c).
Proof using Hag.
  intros Hv Hl Hc. unfold event_lowerable in Hl. rewrite !andb_true_iff in Hl.
  destruct Hl as [[Ha Hn] He]. apply arg_ok_wf128 in Ha.
  assert (H0 : 0 <= w0 (arg i)) by apply Ha.
  assert (Num : forall n, event_num (field i) = Some n -> event_numeric (field i) = true ->
    neg i = false /\ Bool.eqb (holds a i) positive = test_z (branch_test positive (test i)) n (w0 (arg i))).
  { intros n En Hf. rewrite Hf in Hn. assert (neg i = false) by (now destruct (neg i)).
    split; [assumption|]. now apply event_num_holds. }
  assert (Adr : forall n, event_addr (field i) = Some n -> is_local_addr (field i) = true ->
    event_numeric (field i) = true -> neg i = false /\ edge4 (arg i) = false /\
    Bool.eqb (holds a i) positive = test_z (branch_test positive (test i)) (val128 n) (val128 (arg i))).
  { intros n En Hf Hf'. rewrite Hf' in Hn. rewrite Hf in He. assert (neg i = false) by (now destruct (neg i)).
    split; [assumption|]. split; [now destruct (edge4 (arg i))|]. now apply event_addr_holds. }
  assert (Zer : event_num (field i) = Some 0 -> event_numeric (field i) = true ->
    zero_test (branch_test positive (test i)) (w0 (arg i)) (neg i) = Bool.eqb (holds a i) positive).
  { intros E Hf. destruct (Num 0 E Hf) as [En ->]. rewrite En. now apply zero_test_z. }
  unfold pf_branch, branch_event. fold (branch_test positive (test i)).
  destruct (field i) eqn:Ef; cbn [event_num event_addr event_numeric is_local_addr] in Num, Adr, Zer;
    try (apply covers_widen; [destruct Hc; split; assumption|reflexivity]).
  all: match type of Ef with
    | _ = FIELD_ZERO => idtac
    | _ = FIELD_IP => idtac
    | _ = FIELD_IPV6 => idtac
    | _ = FIELD_TCP => rewrite (event_presence_holds i positive IPPROTO_TCP) by (rewrite ?Ef; auto);
        apply event_presence_ok; auto; discriminate
    | _ = FIELD_UDP => rewrite (event_presence_holds i positive IPPROTO_UDP) by (rewrite ?Ef; auto);
        apply event_presence_ok; auto; discriminate
    | _ = FIELD_LOCALADDR => destruct (Adr _ eq_refl eq_refl eq_refl) as (-> & He' & ->);
        now apply event_laddr_ok
    | _ = FIELD_REMOTEADDR => destruct (Adr _ eq_refl eq_refl eq_refl) as (-> & He' & ->);
        now apply event_raddr_ok
    | _ => destruct (Num _ eq_refl eq_refl) as [-> ->];
        auto using event_event_ok, event_lport_ok, event_rport_ok, event_proto_ok, event_pid_ok
    end.
  - destruct (Num 0 eq_refl eq_refl) as [En _]. specialize (Zer eq_refl eq_refl). rewrite En in *.
    assert (Z0 : Bool.eqb (zero_test (test i) (w0 (arg i)) false) positive =
      zero_test (branch_test positive (test i)) (w0 (arg i)) false)
      by (unfold zero_test; apply branch_test_result).
    rewrite Z0, Zer. destruct (Bool.eqb (holds a i) positive); [now apply covers_same|now apply covers_nil].
  - rewrite (Zer eq_refl eq_refl). destruct (Bool.eqb (holds a i) positive);
      [now apply covers_same|now apply covers_nil].
  - rewrite (Zer eq_refl eq_refl). destruct (Bool.eqb (holds a i) positive);
      [now apply covers_same|now apply covers_nil].
Qed.
End EventBranch.

(** ** The walk *)

Lemma event_init_inv : event_inv cube_init.
Proof.
  split; cbn; auto; try (split; [apply addr_full_wf|apply (addr_full_inv false)]);
    unfold range_wf, range_full, zlen, PF_MAX_EXCL; cbn; repeat split; try lia; contradiction.
Qed.

Lemma event_init_mem a v d : event_agrees a v d -> event_mem v cube_init = true.
Proof.
  intros H. destruct (ea_range a v d H) as (? & ? & ? & ? & ?). destruct (ea_wf a v d H) as [Hs Hd].
  apply event_mem_iff. split; cbn; auto;
    try (apply addr_full_contains; now apply val128_bound);
    apply range_contains_spec; cbn; split; auto; lia.
Qed.

(** The cubes of the walk are the filter, up to those marked inexact. *)
Lemma event_run_sound a v d obj : event_agrees a v d -> args_ok a ->
  wf_filter (a_layer a) obj = true -> forallb event_lowerable obj = true ->
  let x := pf_run true obj in
  x_overflow x = true \/ covers event_inv (event_mem v) cube_init (accepts a obj 0) (x_cubes x).
Proof.
  intros Hag Hargs Hwf Hlow. apply run_covers; try assumption; [|apply event_init_inv].
  intros i positive c Hi Hv Hc. rewrite forallb_forall in Hlow. apply (event_branch_ok a v d); auto.
Qed.

(** ** Encoded ranges *)

(** The rule does not fail on a condition. *)
Lemma encode_range32_ok max r v : range_wf max r -> 0 <= v <= max ->
  let e := encode_range32 r max in
  (range_contains r v = true -> er_ok e v = true) /\
  (er_exact e = true -> er_ok e v = true -> range_contains r v = true).
Proof.
  intros (Hm & Hlo & Hhi & _ & Hx) Hv. cbv zeta. unfold er_ok, encode_range32. rewrite range_contains_spec.
  destruct (range_is_full r max) eqn:Ef.
  - apply range_full_spec in Ef as (-> & -> & ->). cbn. split; [reflexivity|intros; split; [lia|tauto]].
  - destruct (r_excl r) as [|x [|y l]]; try case_if; b2p; cbn;
      (split; [intros [Hr N]|intros E Hr; try discriminate]); try lia.
Qed.

Lemma encode_range32_range max r : range_wf max r ->
  0 <= er_start (encode_range32 r max) <= max /\ 0 <= er_end (encode_range32 r max) <= max.
Proof.
  intros (Hm & Hlo & Hhi & _ & Hx). unfold encode_range32. case_if; [cbn; lia|].
  destruct (r_excl r) as [|x [|y l]]; try case_if; cbn; try lia.
  specialize (Hx x (or_introl eq_refl)). lia.
Qed.

(** A value condition: exact also says the interval was a single value. *)
Lemma encode_value32_ok r v : range_wf 255 r -> 0 <= v <= 255 ->
  let e := encode_range32 r 255 in
  (range_contains r v = true -> ev_ok e v = true) /\
  (er_exact e = true -> er_active e && negb (er_active e && (er_start e =? er_end e)) = false ->
   ev_ok e v = true -> range_contains r v = true).
Proof.
  intros Hr Hv e. pose proof (encode_range32_ok 255 r v Hr Hv) as [S X]. fold e in S, X.
  destruct (encode_range32_range 255 r Hr) as [Rs Re]. fold e in Rs, Re.
  unfold er_ok in *. unfold ev_ok. destruct (er_active e); cbn [andb negb] in *; [|split; auto].
  destruct (er_start e =? er_end e) eqn:E; cbn [andb negb]; [|split; [reflexivity|discriminate]].
  b2p. rewrite u8_small by lia. rewrite <- E in *.
  assert (Q : (v >=? er_start e) && (v <=? er_start e) = (v =? er_start e)) by lia.
  rewrite Q in *. split; [exact S|]. intros Ex _. now apply X.
Qed.

(** The event mask has the bits of the events in the range. *)
Lemma event_bits_spec r : forall n i mask, 0 <= i -> i + Z.of_nat n <= 16 ->
  forall j, 0 <= j -> Z.testbit (event_bits r i n mask) j =
    Z.testbit mask j || ((i <=? j) && (j <? i + Z.of_nat n) && range_contains r j).
Proof.
  induction n as [|n IH]; intros i mask Hi Hn j Hj; cbn [event_bits].
  - replace ((i <=? j) && (j <? i + Z.of_nat 0)) with false by lia. now rewrite orb_false_r.
  - rewrite IH by lia. replace (i + 1 + Z.of_nat n) with (i + Z.of_nat (S n)) by lia.
    assert (B : Z.testbit (u16 (1 <<< i)) j = (i =? j)).
    { assert (2 ^ i < 2 ^ 16) by (apply Z.pow_lt_mono_r; lia). pose proof (Z.pow_pos_nonneg 2 i).
      rewrite Z.shiftl_1_l. unfold u16. rewrite Z.mod_small by lia.
      rewrite Z.pow2_bits_eqb by lia. reflexivity. }
    destruct (Z.eqb_spec i j) as [->|E].
    + replace ((j <=? j) && (j <? j + Z.of_nat (S n))) with true by lia.
      replace (j + 1 <=? j) with false by lia. cbn [andb]. rewrite orb_false_r.
      destruct (range_contains r j); [|now rewrite orb_false_r]. rewrite Z.lor_spec, B. reflexivity.
    + replace ((i <=? j) && (j <? i + Z.of_nat (S n))) with ((i + 1 <=? j) && (j <? i + Z.of_nat (S n))) by lia.
      destruct (range_contains r i); [|reflexivity]. rewrite Z.lor_spec, B. now rewrite orb_false_r.
Qed.
