(* ===== verification/BpfParse.v ===== *)
(** * Packet parsing in the kernel

    [struct parsed_packet] and [parse_packet] of [src/ebpfdivert.bpf.c].

    The program reads [data .. data_end], the linear part of the packet, as
    a list of bytes; a pointer is an offset into it, and every access is
    behind the bounds check the code makes. *)

From Stdlib Require Import ZArith List Bool Lia ZifyBool.
From S2P Require Import Prelude WdTypes.
Import ListNotations.

Record parsed_packet : Set := mkParsed {
  src_ip : Z;
  src_ip6 : list Z;
  dst_ip : Z;
  dst_ip6 : list Z;
  src_port : Z;
  dst_port : Z;
  l2_len : Z;
  p_ifindex : Z;
  proto : Z;
  ver : Z;
  ttl : Z;
  tcp_flags : Z;
  parsed_ok : bool;
  fragment : bool;
  is_lo : Z
}.

(** [pkt.is_lo = is_lo]. *)
Definition with_is_lo (pkt : parsed_packet) (lo : Z) : parsed_packet :=
  mkParsed (src_ip pkt) (src_ip6 pkt) (dst_ip pkt) (dst_ip6 pkt) (src_port pkt) (dst_port pkt)
    (l2_len pkt) (p_ifindex pkt) (proto pkt) (ver pkt) (ttl pkt) (tcp_flags pkt) (parsed_ok pkt)
    (fragment pkt) lo.

(** 16- and 32-bit loads through [bpf_ntohs] and [bpf_ntohl]. *)
Definition net16 (data : list Z) (o : Z) : Z := ntohs (ld16 data o).
Definition net32 (data : list Z) (o : Z) : Z := ntohl (ld32 data o).

(** [__builtin_memcpy(dst, data + o, 16)]. *)
Definition load16 (data : list Z) (o : Z) : list Z := firstn 16 (skipn (Z.to_nat o) data).

Definition is_ip_ethertype (t : Z) : bool := (t =? 0x0800) || (t =? 0x86DD).
Definition is_ip_version (b : Z) : bool := (b >>> 4 =? 4) || (b >>> 4 =? 6).

(** 1. Ethernet, with up to two VLAN tags. *)
Definition ethernet_len (data : list Z) : option Z :=
  if 14 <=? zlen data then
    let ethertype := net16 data 12 in
    if is_ip_ethertype ethertype then Some 14
    else if (ethertype =? 0x8100) || (ethertype =? 0x88A8) then
      if 18 <=? zlen data then
        let inner_ethertype := net16 data 16 in
        if is_ip_ethertype inner_ethertype then Some 18
        else if inner_ethertype =? 0x8100 then
          if 22 <=? zlen data then
            if is_ip_ethertype (net16 data 20) then Some 22 else None
          else None
        else None
      else None
    else None
  else None.

(** 2. Raw IP, 3. a four-byte header. *)
Definition find_l2 (data : list Z) : option Z :=
  match ethernet_len data with
  | Some l2 => Some l2
  | None =>
    if (20 <=? zlen data) && is_ip_version (byte_at data 0) then Some 0
    else if (24 <=? zlen data) && is_ip_version (byte_at data 4) then Some 4
    else None
  end.

(** Ports, flags of the transport header at [o]; zeros when it is cut off. *)
Definition parse_ports (data : list Z) (icmp : Z) (pr o : Z) : Z * Z * Z :=
  if pr =? 6 then
    if o + 20 <=? zlen data then (net16 data o, net16 data (o + 2), byte_at data (o + 13))
    else (0, 0, 0)
  else if pr =? 17 then
    if o + 8 <=? zlen data then (net16 data o, net16 data (o + 2), 0) else (0, 0, 0)
  else if pr =? icmp then
    if o + 8 <=? zlen data then (byte_at data o, byte_at data (o + 1), 0) else (0, 0, 0)
  else (0, 0, 0).

Definition is_ext_header (h : Z) : bool := (h =? 0) || (h =? 43) || (h =? 44) || (h =? 60).

(** The extension header loop; [n] iterations left.  [None] is [return 0]. *)
Fixpoint ext_headers (n : nat) (data : list Z) (nexthdr o : Z) (frag : bool)
    : option (Z * Z * bool) :=
  match n with
  | O => Some (nexthdr, o, frag)
  | S n =>
    if negb (is_ext_header nexthdr) then Some (nexthdr, o, frag)
    else if zlen data <? o + 8 then None
    else
      let frag := frag || (nexthdr =? 44) in
      let hdr_len := if nexthdr =? 44 then 8 else (byte_at data (o + 1) + 1) <<< 3 in
      let hdr_len := hdr_len &&& 0x7FF in
      if zlen data <? o + hdr_len then None
      else ext_headers n data (byte_at data o) (o + hdr_len) frag
  end.

Definition zero_addr : list Z := repeat 0 16.

Definition parse_v4 (data : list Z) (ifindex l3 : Z) : option parsed_packet :=
  if zlen data <? l3 + 20 then None
  else
    let ihl := byte_at data l3 &&& 0xF in
    if ihl <? 5 then None
    else
      let pr := byte_at data (l3 + 9) in
      let frag_off := net16 data (l3 + 6) in
      let '(sp, dp, fl) :=
        if has frag_off 0x1FFF then (0, 0, 0)
        else parse_ports data 1 pr (l3 + ihl * 4) in
      Some (mkParsed (net32 data (l3 + 12)) zero_addr (net32 data (l3 + 16)) zero_addr sp dp l3
              ifindex pr 4 (byte_at data (l3 + 8)) fl true (has frag_off 0x3FFF) 0).

Definition parse_v6 (data : list Z) (ifindex l3 : Z) : option parsed_packet :=
  if zlen data <? l3 + 40 then None
  else
    match ext_headers 4 data (byte_at data (l3 + 6)) (l3 + 40) false with
    | None => None
    | Some (pr, o, frag) =>
      let '(sp, dp, fl) := if frag then (0, 0, 0) else parse_ports data 58 pr o in
      Some (mkParsed 0 (load16 data (l3 + 8)) 0 (load16 data (l3 + 24)) sp dp l3 ifindex pr 6
              (byte_at data (l3 + 7)) fl true frag 0)
    end.

(** [None] is [return 0]. *)
Definition parse_packet (data : list Z) (ifindex : Z) : option parsed_packet :=
  match find_l2 data with
  | None => None
  | Some l2 =>
    if zlen data <? l2 + 1 then None
    else
      let v := byte_at data l2 >>> 4 in
      if v =? 4 then parse_v4 data ifindex l2
      else if v =? 6 then parse_v6 data ifindex l2
      else None
  end.
