(* ===== verification/BpfMatch.v ===== *)
(** * Rule matching in the kernel

    [matches_rule_ipv4], [matches_rule_ipv6], [match_rule_v4],
    [match_rule_v6] and the rule loop of [process_packet] in
    [src/ebpfdivert.bpf.c]; [load_rules] of [src/handle.c], which fills the
    tables.  For tables filled from [pf_lower] the loop decides as the
    reference matcher [pf_match] does. *)

From Stdlib Require Import ZArith List Bool Lia ZifyBool.
From S2P Require Import Prelude WdTypes WdPacket WdHash WdExec PfRange PfAddr PfCube PfEncode BpfParse.
Import ListNotations.

Definition DIR_INGRESS : Z := 1.
Definition DIR_EGRESS : Z := 2.

(** The two LPM tries are kernel maps: looked up with a prefix length and an
    address in network order, they give the value stored for the longest
    matching prefix. *)
Record lpm_maps : Type := mkLpm {
  ipv4_lpm_trie : Z -> Z -> option Z;
  ipv6_lpm_trie : Z -> list Z -> option Z
}.

(** The LPM condition on one address: does the rule fail here? *)
Definition lpm_fails (inv flag : Z) (val : option Z) : bool :=
  match val with
  | Some v => if has v flag then has inv flag else negb (has inv flag)
  | None => negb (has inv flag)
  end.

(** The conditions after the addresses, the same text in both functions. *)
Definition matches_common (pkt : parsed_packet) (r : pf_rule_common) (direction : Z) : bool :=
  let mm := match_mask r in
  let inv := invert_mask r in
  if fails mm inv MATCH_SRC_PORT
       ((src_port pkt >=? src_port_start r) && (src_port pkt <=? src_port_end r)) then false
  else if fails mm inv MATCH_DST_PORT
       ((dst_port pkt >=? dst_port_start r) && (dst_port pkt <=? dst_port_end r)) then false
  else if fails mm inv MATCH_PROTO (proto pkt =? rc_proto r) then false
  else if fails mm inv MATCH_DIRECTION (direction =? rc_direction r) then false
  else if fails mm inv MATCH_TTL (ttl pkt =? rc_ttl r) then false
  else if fails mm inv MATCH_TCP_FLAGS
       ((tcp_flags pkt &&& rc_tcp_flags_mask r) =? rc_tcp_flags r) then false
  else if has mm MATCH_LOOPBACK && negb (is_lo pkt =? rc_loopback r) then false
  else true.

Definition matches_rule_ipv4 (lpm : lpm_maps) (pkt : parsed_packet) (rule : filter_rule)
    (direction : Z) : bool :=
  let mm := match_mask (r4_common rule) in
  let inv := invert_mask (r4_common rule) in
  if negb (has mm MATCH_ENABLED) then false
  else if has mm MATCH_FALSE then false
  else if negb (parsed_ok pkt) || negb (ver pkt =? 4) then false
  else if has mm MATCH_LPM_TRIE then
    if has mm MATCH_SRC_IP &&
       lpm_fails inv MATCH_SRC_IP (ipv4_lpm_trie lpm 32 (htonl (src_ip pkt))) then false
    else if has mm MATCH_DST_IP &&
       lpm_fails inv MATCH_DST_IP (ipv4_lpm_trie lpm 32 (htonl (dst_ip pkt))) then false
    else matches_common pkt (r4_common rule) direction
  else if fails mm inv MATCH_SRC_IP
       ((src_ip pkt &&& r4_src_mask rule) =? (r4_src_ip rule &&& r4_src_mask rule)) then false
  else if fails mm inv MATCH_DST_IP
       ((dst_ip pkt &&& r4_dst_mask rule) =? (r4_dst_ip rule &&& r4_dst_mask rule)) then false
  else matches_common pkt (r4_common rule) direction.

(** Sixteen bytes seen as [__u64[2]]. *)
Definition eq_u64 (x ip mask : list Z) : bool :=
  ((ld64 x 0 &&& ld64 mask 0) =? (ld64 ip 0 &&& ld64 mask 0)) &&
  ((ld64 x 8 &&& ld64 mask 8) =? (ld64 ip 8 &&& ld64 mask 8)).

Definition matches_rule_ipv6 (lpm : lpm_maps) (pkt : parsed_packet) (rule : filter_rule_ipv6)
    (direction : Z) : bool :=
  let mm := match_mask (r6_common rule) in
  let inv := invert_mask (r6_common rule) in
  if negb (has mm MATCH_ENABLED) then false
  else if has mm MATCH_FALSE then false
  else if negb (parsed_ok pkt) || negb (ver pkt =? 6) then false
  else if has mm MATCH_LPM_TRIE then
    if has mm MATCH_SRC_IP &&
       lpm_fails inv MATCH_SRC_IP (ipv6_lpm_trie lpm 128 (src_ip6 pkt)) then false
    else if has mm MATCH_DST_IP &&
       lpm_fails inv MATCH_DST_IP (ipv6_lpm_trie lpm 128 (dst_ip6 pkt)) then false
    else matches_common pkt (r6_common rule) direction
  else if fails mm inv MATCH_SRC_IP
       (eq_u64 (src_ip6 pkt) (r6_src_ip rule) (r6_src_mask rule)) then false
  else if fails mm inv MATCH_DST_IP
       (eq_u64 (dst_ip6 pkt) (r6_dst_ip rule) (r6_dst_mask rule)) then false
  else matches_common pkt (r6_common rule) direction.

(** The array maps [filter_rules] and [filter_rules_ipv6]: [MAX_RULES]
    entries each, all zero until written. *)
Record rule_maps : Set := mkMaps {
  filter_rules : list filter_rule;
  filter_rules_ipv6 : list filter_rule_ipv6
}.

Definition zero_rule4 : filter_rule := mkRule4 0 0 0 0 (empty_common 0).
Definition zero_rule6 : filter_rule_ipv6 := mkRule6 zero16 zero16 zero16 zero16 (empty_common 0).

Definition empty_maps : rule_maps :=
  mkMaps (repeat zero_rule4 (Z.to_nat MAX_RULES)) (repeat zero_rule6 (Z.to_nat MAX_RULES)).

Definition match_rule_v4 (lpm : lpm_maps) (maps : rule_maps) (pkt : parsed_packet)
    (direction idx : Z) : Z :=
  match nth_error (filter_rules maps) (Z.to_nat idx) with
  | None => -1
  | Some rule =>
    if match_mask (r4_common rule) =? 0 then -1
    else if matches_rule_ipv4 lpm pkt rule (u8 direction) then match_mask (r4_common rule) else 0
  end.

Definition match_rule_v6 (lpm : lpm_maps) (maps : rule_maps) (pkt : parsed_packet)
    (direction idx : Z) : Z :=
  match nth_error (filter_rules_ipv6 maps) (Z.to_nat idx) with
  | None => -1
  | Some rule =>
    if match_mask (r6_common rule) =? 0 then -1
    else if matches_rule_ipv6 lpm pkt rule (u8 direction) then match_mask (r6_common rule) else 0
  end.

(** [for (i = 0; i < MAX_RULES; i++)]: [Some match_mask] when a rule matched;
    [n] is [MAX_RULES - i]. *)
Fixpoint rule_loop (n : nat) (i : Z) (m : Z -> Z) : option Z :=
  match n with
  | O => None
  | S n =>
    if m i <? 0 then None
    else if m i >? 0 then Some (u16 (m i))
    else rule_loop n (i + 1) m
  end.

Definition find_rule (lpm : lpm_maps) (maps : rule_maps) (pkt : parsed_packet) (direction : Z)
    : option Z :=
  rule_loop (Z.to_nat MAX_RULES) 0
    (fun i => if ver pkt =? 4 then match_rule_v4 lpm maps pkt direction i
              else match_rule_v6 lpm maps pkt direction i).

(** ** Loading the tables, [load_rules] *)

Definition EBPFDIVERT_FLAG_SNIFF : Z := 0x0001.
Definition EBPFDIVERT_FLAG_DROP : Z := 0x0002.

(** The update loop; [upd i] is 0 or the [errno] of [bpf_map_update_elem]. *)
Fixpoint write_rules {R} (add : R -> R) (upd : Z -> Z) (i : Z) (rules map : list R)
    : list R * Z :=
  match rules with
  | [] => (map, 0)
  | r :: rules =>
    if upd i =? 0 then write_rules add upd (i + 1) rules (set_nth (Z.to_nat i) (add r) map)
    else (map, - upd i)
  end.

Definition with_action (action : Z) (r : pf_rule_common) : pf_rule_common :=
  {| match_mask := match_mask r ||| action; invert_mask := invert_mask r;
     rc_proto := rc_proto r; rc_direction := rc_direction r; rc_loopback := rc_loopback r;
     rc_ttl := rc_ttl r; rc_tcp_flags := rc_tcp_flags r;
     rc_tcp_flags_mask := rc_tcp_flags_mask r;
     src_port_start := src_port_start r; src_port_end := src_port_end r;
     dst_port_start := dst_port_start r; dst_port_end := dst_port_end r |}.

Definition action4 (action : Z) (r : filter_rule) : filter_rule :=
  mkRule4 (r4_src_ip r) (r4_dst_ip r) (r4_src_mask r) (r4_dst_mask r)
    (with_action action (r4_common r)).

Definition action6 (action : Z) (r : filter_rule_ipv6) : filter_rule_ipv6 :=
  mkRule6 (r6_src_ip r) (r6_dst_ip r) (r6_src_mask r) (r6_dst_mask r)
    (with_action action (r6_common r)).

Definition rule_action (flags : Z) (exact : bool) : Z :=
  if has flags EBPFDIVERT_FLAG_SNIFF then MATCH_SNIFF
  else if has flags EBPFDIVERT_FLAG_DROP && exact then MATCH_DROP
  else 0.

(** Return value, [h->exact] and the maps.  [upd4] and [upd6] are the map
    updates, a kernel service.  [malloc] is assumed to succeed and the maps
    of the embedded object to exist. *)
Definition load_rules (upd4 upd6 : Z -> Z) (layer : WINDIVERT_LAYER) (flags : Z)
    (obj : list WINDIVERT_FILTER) (maps : rule_maps) : Z * bool * rule_maps :=
  match pf_lower layer obj with
  | None => (- EINVAL, false, maps)
  | Some res =>
    let action := rule_action flags (pr_exact res) in
    let '(m4, err4) := write_rules (action4 action) upd4 0 (pr_v4 res) (filter_rules maps) in
    let '(m6, err6) :=
      if err4 =? 0 then write_rules (action6 action) upd6 0 (pr_v6 res) (filter_rules_ipv6 maps)
      else (filter_rules_ipv6 maps, err4) in
    (err6, pr_exact res, mkMaps m4 m6)
  end.

(** The parsed packet as the reference matcher sees it. *)
Definition net_words (b : list Z) : u128 := W128 (be32 b 12) (be32 b 8) (be32 b 4) (be32 b 0).

Definition pkt_view (pkt : parsed_packet) (direction : Z) : pf_pkt :=
  mkPkt (ver pkt)
    (if ver pkt =? 4 then W128 (src_ip pkt) 0x0000FFFF 0 0 else net_words (src_ip6 pkt))
    (if ver pkt =? 4 then W128 (dst_ip pkt) 0x0000FFFF 0 0 else net_words (dst_ip6 pkt))
    (src_port pkt) (dst_port pkt) (proto pkt) direction (is_lo pkt) (ttl pkt) (tcp_flags pkt).

(** ** The loaded tables *)

Lemma set_nth_app {A} (l m : list A) v : set_nth (length l) v (l ++ m) =
  l ++ match m with [] => [] | _ :: m => v :: m end.
Proof. induction l as [|x l IH]; [now destruct m|]. cbn. now rewrite IH. Qed.

Lemma write_rules_ok {R} (add : R -> R) (z : R) : forall rules done n,
  (length rules <= n)%nat ->
  write_rules add (fun _ => 0) (Z.of_nat (length done)) rules (done ++ repeat z n) =
  (done ++ map add rules ++ repeat z (n - length rules), 0).
Proof.
  induction rules as [|r rules IH]; intros done n Hn; cbn [write_rules length map app] in *.
  - now rewrite Nat.sub_0_r.
  - rewrite Z.eqb_refl. destruct n as [|n]; [lia|]. rewrite Nat2Z.id, set_nth_app. cbn [repeat].
    specialize (IH (done ++ [add r]) n ltac:(lia)). rewrite length_app in IH. cbn in IH.
    rewrite <- app_assoc in IH. cbn in IH.
    replace (Z.of_nat (length done) + 1) with (Z.of_nat (length done + 1)) by lia.
    rewrite IH. now rewrite <- app_assoc.
Qed.

Lemma write_rules_init {R} (add : R -> R) (z : R) rules n : (length rules <= n)%nat ->
  write_rules add (fun _ => 0) 0 rules (repeat z n) = (map add rules ++ repeat z (n - length rules), 0).
Proof. exact (write_rules_ok add z rules [] n). Qed.

(** The array [loaded action res] after a successful [load_rules]. *)
Definition loaded (action : Z) (res : pf_result) : rule_maps :=
  mkMaps (map (action4 action) (pr_v4 res) ++
            repeat zero_rule4 (Z.to_nat MAX_RULES - length (pr_v4 res)))
         (map (action6 action) (pr_v6 res) ++
            repeat zero_rule6 (Z.to_nat MAX_RULES - length (pr_v6 res))).

Lemma load_rules_loaded layer flags obj res : pf_lower layer obj = Some res ->
  zlen (pr_v4 res) <= MAX_RULES -> zlen (pr_v6 res) <= MAX_RULES ->
  load_rules (fun _ => 0) (fun _ => 0) layer flags obj empty_maps =
  (0, pr_exact res, loaded (rule_action flags (pr_exact res)) res).
Proof.
  unfold zlen, MAX_RULES. intros E H4 H6. unfold load_rules, empty_maps. rewrite E.
  cbn [filter_rules filter_rules_ipv6].
  rewrite write_rules_init by (unfold MAX_RULES; lia).
  rewrite Z.eqb_refl.
  rewrite write_rules_init by (unfold MAX_RULES; lia).
  reflexivity.
Qed.

(** ** One rule *)

(** Bytes as digits in base 256. *)
Lemma land_byte a b : is_byte a -> is_byte b -> is_byte (Z.land a b).
Proof.
  unfold is_byte. intros Ha Hb. rewrite <- (Z.mod_small a (2 ^ 8)) by lia.
  rewrite <- Z.land_ones, <- Z.land_assoc, (Z.land_comm (Z.ones 8)), Z.land_assoc, Z.land_ones by lia.
  apply Z.mod_pos_bound. lia.
Qed.

Lemma land_digit a b x y : is_byte a -> is_byte b ->
  Z.land (a + 2 ^ 8 * x) (b + 2 ^ 8 * y) = Z.land a b + 2 ^ 8 * Z.land x y.
Proof.
  intros Ha Hb. pose proof (land_byte a b Ha Hb) as Hab. unfold is_byte in *.
  rewrite <- !lor_add_disjoint by lia. rewrite !(Z.mul_comm (2 ^ 8)), <- !Z.shiftl_mul_pow2 by lia.
  apply Z.bits_inj'. intros n Hn. rewrite !Z.land_spec, !Z.lor_spec, Z.land_spec, !Z.shiftl_spec by lia.
  destruct (Z.lt_ge_cases n 8).
  - rewrite !(Z.testbit_neg_r _ (n - 8)) by lia. now rewrite !orb_false_r.
  - rewrite Z.land_spec. rewrite <- (Z.mod_small a (2 ^ 8)), <- (Z.mod_small b (2 ^ 8)) by lia.
    now rewrite !Z.mod_pow2_bits_high by lia.
Qed.

Lemma eqb_digit a b x y : is_byte a -> is_byte b ->
  (a + 2 ^ 8 * x =? b + 2 ^ 8 * y) = (a =? b) && (x =? y).
Proof. unfold is_byte. intros. lia. Qed.

Lemma ld64_digits p o : ld64 p o =
  byte_at p o + 2 ^ 8 * (byte_at p (o + 1) + 2 ^ 8 * (byte_at p (o + 2) + 2 ^ 8 * (byte_at p (o + 3) +
  2 ^ 8 * (byte_at p (o + 4) + 2 ^ 8 * (byte_at p (o + 5) + 2 ^ 8 * (byte_at p (o + 6) +
  2 ^ 8 * byte_at p (o + 7))))))).
Proof.
  unfold ld64, ld32. replace (o + 4 + 1) with (o + 5) by lia. replace (o + 4 + 2) with (o + 6) by lia.
  replace (o + 4 + 3) with (o + 7) by lia. lia.
Qed.

(** One byte of the address comparison. *)
Definition byte_eq (x ip m : list Z) (o : Z) : bool :=
  (byte_at x o &&& byte_at m o) =? (byte_at ip o &&& byte_at m o).

Lemma eq_ld64 x ip m o : bytes x -> bytes ip -> bytes m ->
  ((ld64 x o &&& ld64 m o) =? (ld64 ip o &&& ld64 m o)) =
  byte_eq x ip m o && (byte_eq x ip m (o + 1) && (byte_eq x ip m (o + 2) && (byte_eq x ip m (o + 3) &&
  (byte_eq x ip m (o + 4) && (byte_eq x ip m (o + 5) && (byte_eq x ip m (o + 6) &&
   byte_eq x ip m (o + 7))))))).
Proof.
  intros Hx Hi Hm. rewrite !ld64_digits.
  rewrite !land_digit by now apply byte_at_range.
  rewrite !eqb_digit by (apply land_byte; now apply byte_at_range). reflexivity.
Qed.

Lemma list16 {A} (l : list A) : length l = 16%nat ->
  exists a b c d e f g h i j k m n o p q, l = [a; b; c; d; e; f; g; h; i; j; k; m; n; o; p; q].
Proof.
  intros H. do 16 (destruct l as [|? l]; [discriminate|]). destruct l; [|discriminate].
  repeat eexists.
Qed.

Lemma eq_u64_bytes x ip m : length x = 16%nat -> length ip = 16%nat -> length m = 16%nat ->
  bytes x -> bytes ip -> bytes m -> eq_u64 x ip m = bytes_eq x ip m.
Proof.
  intros Lx Li Lm Hx Hi Hm. unfold eq_u64. rewrite !eq_ld64 by assumption. clear Hx Hi Hm.
  apply list16 in Lx, Li, Lm. split_hyps. subst. unfold byte_eq. cbn [bytes_eq].
  rewrite andb_true_r, <- !andb_assoc. reflexivity.
Qed.

Lemma be32_bytes b o : bytes b ->
  u8 (be32 b o >>> 24) = byte_at b o /\ u8 (be32 b o >>> 16) = byte_at b (o + 1) /\
  u8 (be32 b o >>> 8) = byte_at b (o + 2) /\ u8 (be32 b o) = byte_at b (o + 3).
Proof.
  intros Hb. pose proof (byte_at_range b o Hb). pose proof (byte_at_range b (o + 1) Hb).
  pose proof (byte_at_range b (o + 2) Hb). pose proof (byte_at_range b (o + 3) Hb).
  unfold be32, u8, is_byte in *. rewrite !Z.shiftr_div_pow2 by lia.
  set (x := byte_at b o) in *. set (y := byte_at b (o + 1)) in *. set (z := byte_at b (o + 2)) in *.
  set (t := byte_at b (o + 3)) in *. clearbody x y z t.
  repeat split; Z.div_mod_to_equations; lia.
Qed.

Lemma to_net16_words b : length b = 16%nat -> bytes b -> to_net16 (net_words b) = b.
Proof.
  intros L Hb. unfold to_net16. cbn [flat_map app].
  change (word (net_words b) (3 - 0)) with (be32 b 0). change (word (net_words b) (3 - 1)) with (be32 b 4).
  change (word (net_words b) (3 - 2)) with (be32 b 8). change (word (net_words b) (3 - 3)) with (be32 b 12).
  destruct (be32_bytes b 0 Hb) as (-> & -> & -> & ->). destruct (be32_bytes b 4 Hb) as (-> & -> & -> & ->).
  destruct (be32_bytes b 8 Hb) as (-> & -> & -> & ->). destruct (be32_bytes b 12 Hb) as (-> & -> & -> & ->).
  clear Hb. apply list16 in L. split_hyps. subst. reflexivity.
Qed.

Definition parsed_wf (pkt : parsed_packet) : Prop :=
  parsed_ok pkt = true /\ length (src_ip6 pkt) = 16%nat /\ bytes (src_ip6 pkt) /\
  length (dst_ip6 pkt) = 16%nat /\ bytes (dst_ip6 pkt).

Lemma rule_off_spec mm : rule_off mm = if negb (has mm MATCH_ENABLED) then true else has mm MATCH_FALSE.
Proof. unfold rule_off. now destruct (has mm MATCH_ENABLED). Qed.

Lemma matches_v4_view lpm pkt r dir : parsed_ok pkt = true -> ver pkt = 4 -> rule4_ok r ->
  matches_rule_ipv4 lpm pkt r dir = pf_match_v4 r (pkt_view pkt dir).
Proof.
  intros Ok V (_ & L & _). unfold matches_rule_ipv4, pf_match_v4, matches_common, pf_match_common, pkt_view.
  rewrite rule_off_spec, Ok, V, L. cbn [negb orb].
  destruct (has (match_mask (r4_common r)) MATCH_ENABLED); [|reflexivity]. cbn [negb].
  destruct (has _ MATCH_FALSE); reflexivity.
Qed.

Lemma matches_v6_view lpm pkt r dir : parsed_wf pkt -> ver pkt = 6 -> rule6_ok r ->
  matches_rule_ipv6 lpm pkt r dir = pf_match_v6 r (pkt_view pkt dir).
Proof.
  intros (Ok & Ls & Bs & Ld & Bd) V [(_ & L & _) R].
  rewrite !Forall_cons_iff in R. destruct R as ([? ?] & [? ?] & [? ?] & [? ?] & _).
  unfold matches_rule_ipv6, pf_match_v6, matches_common, pf_match_common, pkt_view.
  rewrite rule_off_spec, Ok, V, L. cbn [negb orb Z.eqb Pos.eqb k_src k_dst].
  rewrite !to_net16_words, !eq_u64_bytes by assumption.
  destruct (has (match_mask (r6_common r)) MATCH_ENABLED); [|reflexivity]. cbn [negb].
  destruct (has _ MATCH_FALSE); reflexivity.
Qed.

(** ** The action bits do not change what a rule matches *)

Definition is_action (a : Z) : Prop := a = 0 \/ a = MATCH_SNIFF \/ a = MATCH_DROP.

Lemma rule_action_is flags exact : is_action (rule_action flags exact).
Proof. unfold rule_action, is_action. repeat case_if; auto. Qed.

Lemma action_has a f m : is_action a -> has MATCH_SNIFF f = false -> has MATCH_DROP f = false ->
  has (m ||| a) f = has m f.
Proof.
  intros [->|[->| ->]] H1 H2; rewrite has_lor, ?H1, ?H2; [|now rewrite orb_false_r..].
  unfold has. cbn. now rewrite orb_false_r.
Qed.

Lemma action_mask_ok a m : is_action a -> mask_ok m -> mask_ok (m ||| a).
Proof.
  intros Ha (E & L & F & R). split; [|split; [|split]].
  - now rewrite action_has.
  - now rewrite action_has.
  - now rewrite action_has.
  - apply lor_u16; [exact R|]. destruct Ha as [->|[->| ->]]; vm_compute; split; congruence.
Qed.

Lemma action_common a r k : is_action a ->
  pf_match_common (with_action a r) k = pf_match_common r k.
Proof.
  intros Ha. unfold pf_match_common, fails, with_action.
  cbn [match_mask invert_mask rc_proto rc_direction rc_loopback rc_ttl rc_tcp_flags rc_tcp_flags_mask
       src_port_start src_port_end dst_port_start dst_port_end].
  now rewrite !action_has by (assumption || reflexivity).
Qed.

Lemma action_rule_off a m : is_action a -> rule_off (m ||| a) = rule_off m.
Proof. intros Ha. unfold rule_off. now rewrite !action_has by (assumption || reflexivity). Qed.

Lemma action4_match a r k : is_action a -> pf_match_v4 (action4 a r) k = pf_match_v4 r k.
Proof.
  intros Ha. unfold pf_match_v4, fails, action4. cbn [r4_common r4_src_ip r4_dst_ip r4_src_mask r4_dst_mask].
  rewrite action_common by exact Ha. unfold with_action. cbn [match_mask invert_mask].
  rewrite action_rule_off by exact Ha. now rewrite !action_has by (assumption || reflexivity).
Qed.

Lemma action6_match a r k : is_action a -> pf_match_v6 (action6 a r) k = pf_match_v6 r k.
Proof.
  intros Ha. unfold pf_match_v6, fails, action6. cbn [r6_common r6_src_ip r6_dst_ip r6_src_mask r6_dst_mask].
  rewrite action_common by exact Ha. unfold with_action. cbn [match_mask invert_mask].
  rewrite action_rule_off by exact Ha. now rewrite !action_has by (assumption || reflexivity).
Qed.

(** ** The loop *)

Section Scan.
Context {R : Type} (mask : R -> Z) (P : R -> bool).

(** First matching rule before the first empty one. *)
Fixpoint scan (table : list R) : option Z :=
  match table with
  | [] => None
  | r :: table =>
    if mask r =? 0 then None else if P r then Some (u16 (mask r)) else scan table
  end.

Lemma rule_loop_scan : forall table i n (m : Z -> Z), Forall (fun r => 0 <= mask r) table ->
  0 <= i -> (length table <= n)%nat ->
  (forall j, i <= j -> m j = match nth_error table (Z.to_nat (j - i)) with
                             | None => -1
                             | Some r => if mask r =? 0 then -1 else if P r then mask r else 0
                             end) ->
  rule_loop n i m = scan table.
Proof.
  induction table as [|r table IH]; intros i n m Hm Hi Hn H.
  - destruct n; cbn [rule_loop scan]; [reflexivity|]. rewrite H by lia.
    replace (Z.to_nat (i - i)) with 0%nat by lia. reflexivity.
  - destruct n as [|n]; [cbn in Hn; lia|]. inversion Hm; subst. cbn [rule_loop scan length] in *.
    pose proof (H i ltac:(lia)) as H0. replace (Z.to_nat (i - i)) with 0%nat in H0 by lia. cbn in H0.
    rewrite H0. destruct (mask r =? 0) eqn:E0; [reflexivity|]. b2p. destruct (P r).
    + replace (mask r <? 0) with false by lia. now replace (mask r >? 0) with true by lia.
    + cbn. apply IH; auto; try lia. intros j Hj. rewrite H by lia.
      replace (Z.to_nat (j - i)) with (S (Z.to_nat (j - (i + 1)))) by lia. reflexivity.
Qed.

(** Enabled rules followed by empty ones. *)
Lemma scan_loaded z : mask z = 0 -> forall rules n, Forall (fun r => 0 < mask r < 2 ^ 16) rules ->
  scan (rules ++ repeat z n) = option_map mask (List.find P rules).
Proof.
  intros Hz. induction rules as [|r rules IH]; intros n H; cbn [app scan List.find].
  - destruct n; cbn; [reflexivity|]. now rewrite Hz.
  - inversion H as [|? ? H1 H2]; subst. replace (mask r =? 0) with false by lia.
    destruct (P r); [cbn; f_equal; apply Z.mod_small; lia|now apply IH].
Qed.
End Scan.

Lemma mask_ok_pos m : mask_ok m -> 0 < m < 2 ^ 16.
Proof. intros (E & _ & _ & R). destruct (Z.eq_dec m 0) as [->|]; [discriminate E|lia]. Qed.

Lemma find_map {A B} (g : A -> B) (P : B -> bool) l :
  List.find P (map g l) = option_map g (List.find (fun x => P (g x)) l).
Proof. induction l as [|x l IH]; [reflexivity|]. cbn. now destruct (P (g x)). Qed.

Lemma find_ext_in {A} (P Q : A -> bool) l : (forall x, In x l -> P x = Q x) ->
  List.find P l = List.find Q l.
Proof.
  intros H. induction l as [|x l IH]; [reflexivity|]. cbn. rewrite (H x) by now left.
  destruct (Q x); [reflexivity|]. apply IH. intros y Hy. apply H. now right.
Qed.

Section Loaded.
Variable lpm : lpm_maps.
Variable res : pf_result.
Variable a : Z.
Variable pkt : parsed_packet.
Variable dir : Z.
Hypothesis Hres : result_ok res.
Hypothesis Ha : is_action a.
Hypothesis Hpkt : parsed_wf pkt.
Hypothesis Hdir : 0 <= dir < 256.

Let k := pkt_view pkt dir.

Lemma table4_ok : Forall rule4_ok (map (action4 a) (pr_v4 res)).
Proof using Hres Ha.
  apply Forall_map, (Forall_impl _ (P := fun r => rule4_ok r /\ no_action (match_mask (r4_common r)))).
  - intros r [H _]. now apply action_mask_ok.
  - apply Hres.
Qed.

Lemma table6_ok : Forall rule6_ok (map (action6 a) (pr_v6 res)).
Proof using Hres Ha.
  apply Forall_map, (Forall_impl _ (P := fun r => rule6_ok r /\ no_action (match_mask (r6_common r)))).
  - intros r [[H1 H2] _]. split; [now apply action_mask_ok|exact H2].
  - apply Hres.
Qed.

Lemma find_rule_v4 : ver pkt = 4 ->
  find_rule lpm (loaded a res) pkt dir =
  option_map (fun r => match_mask (r4_common r) ||| a) (List.find (fun r => pf_match_v4 r k) (pr_v4 res)).
Proof using Hres Ha Hpkt Hdir.
  intros V. unfold find_rule. rewrite V, Z.eqb_refl.
  rewrite (rule_loop_scan (fun r => match_mask (r4_common r))
    (fun r => matches_rule_ipv4 lpm pkt r (u8 dir)) (filter_rules (loaded a res))).
  - unfold loaded. cbn [filter_rules]. pose proof table4_ok as T.
    rewrite scan_loaded; [|reflexivity|].
    + rewrite find_map. destruct Hpkt as (Ok & _).
      rewrite (find_ext_in _ (fun r => pf_match_v4 r k)); [now destruct (List.find _ _)|].
      intros r Hr. unfold u8. rewrite Z.mod_small by lia.
      rewrite matches_v4_view; [now apply action4_match|exact Ok|exact V|].
      rewrite Forall_forall in T. apply T. now apply in_map.
    + eapply Forall_impl; [|exact T]. intros r H. now apply mask_ok_pos.
  - apply Forall_app. split.
    + eapply Forall_impl; [|exact table4_ok]. intros r H. apply mask_ok_pos in H. lia.
    + apply Forall_forall. intros r Hr. apply repeat_spec in Hr. subst. cbn. lia.
  - lia.
  - unfold loaded. cbn [filter_rules]. rewrite length_app, length_map, repeat_length.
    pose proof (ro_n4 _ Hres). unfold zlen, MAX_RULES in *. lia.
  - intros j Hj. rewrite Z.sub_0_r. reflexivity.
Qed.

Lemma find_rule_v6 : ver pkt = 6 ->
  find_rule lpm (loaded a res) pkt dir =
  option_map (fun r => match_mask (r6_common r) ||| a) (List.find (fun r => pf_match_v6 r k) (pr_v6 res)).
Proof using Hres Ha Hpkt Hdir.
  intros V. unfold find_rule. rewrite V. change (6 =? 4) with false. cbn iota.
  rewrite (rule_loop_scan (fun r => match_mask (r6_common r))
    (fun r => matches_rule_ipv6 lpm pkt r (u8 dir)) (filter_rules_ipv6 (loaded a res))).
  - unfold loaded. cbn [filter_rules_ipv6]. pose proof table6_ok as T.
    rewrite scan_loaded; [|reflexivity|].
    + rewrite find_map.
      rewrite (find_ext_in _ (fun r => pf_match_v6 r k)); [now destruct (List.find _ _)|].
      intros r Hr. unfold u8. rewrite Z.mod_small by lia.
      rewrite matches_v6_view; [now apply action6_match|exact Hpkt|exact V|].
      rewrite Forall_forall in T. apply T. now apply in_map.
    + eapply Forall_impl; [|exact T]. intros r [H _]. now apply mask_ok_pos.
  - apply Forall_app. split.
    + eapply Forall_impl; [|exact table6_ok]. intros r [H _]. apply mask_ok_pos in H. lia.
    + apply Forall_forall. intros r Hr. apply repeat_spec in Hr. subst. cbn. lia.
  - lia.
  - unfold loaded. cbn [filter_rules_ipv6]. rewrite length_app, length_map, repeat_length.
    pose proof (ro_n6 _ Hres). unfold zlen, MAX_RULES in *. lia.
  - intros j Hj. rewrite Z.sub_0_r. reflexivity.
Qed.

(** The loop finds a rule exactly when the reference matcher says so, and
    the mask it returns carries the action. *)
Lemma find_rule_match : ver pkt = 4 \/ ver pkt = 6 ->
  match find_rule lpm (loaded a res) pkt dir with
  | None => pf_match res k = false
  | Some m => pf_match res k = true /\ mask_ok m /\
              has m MATCH_SNIFF = has a MATCH_SNIFF /\ has m MATCH_DROP = has a MATCH_DROP
  end.
Proof using Hres Ha Hpkt Hdir.
  intros V. unfold pf_match. change (k_ver k) with (ver pkt). destruct V as [V|V].
  - rewrite find_rule_v4, V by exact V. cbn [Z.eqb Pos.eqb].
    destruct (List.find _ _) as [r|] eqn:F; cbn [option_map].
    + apply List.find_some in F. destruct F as [Hr Hm].
      pose proof (ro_v4 _ Hres) as H4. rewrite Forall_forall in H4. destruct (H4 r Hr) as [H1 [H2 H3]].
      split; [apply existsb_exists; eauto|]. split; [now apply action_mask_ok|].
      now rewrite !has_lor, H2, H3.
    + apply not_true_iff_false. intros H. apply existsb_exists in H. destruct H as (r & Hr & Hm).
      pose proof (List.find_none _ _ F r Hr). cbn in *. congruence.
  - rewrite find_rule_v6, V by exact V. cbn [Z.eqb Pos.eqb].
    destruct (List.find _ _) as [r|] eqn:F; cbn [option_map].
    + apply List.find_some in F. destruct F as [Hr Hm].
      pose proof (ro_v6 _ Hres) as H4. rewrite Forall_forall in H4. destruct (H4 r Hr) as [[H1 _] [H2 H3]].
      split; [apply existsb_exists; eauto|]. split; [now apply action_mask_ok|].
      now rewrite !has_lor, H2, H3.
    + apply not_true_iff_false. intros H. apply existsb_exists in H. destruct H as (r & Hr & Hm).
      pose proof (List.find_none _ _ F r Hr). cbn in *. congruence.
Qed.
End Loaded.

(** ** Properties *)

(** C21. The BPF rule loop on the tables [load_rules] writes is the reference
    matcher: it finds a rule exactly when [pf_match] accepts the packet, and
    the mask it returns carries the action chosen from the handle's flags. *)
Theorem kernel_loop_is_pf_match lpm layer flags obj res pkt dir :
  pf_lower layer obj = Some res -> parsed_wf pkt -> ver pkt = 4 \/ ver pkt = 6 -> 0 <= dir < 256 ->
  let '(err, exact, maps) := load_rules (fun _ => 0) (fun _ => 0) layer flags obj empty_maps in
  err = 0 /\ exact = pr_exact res /\
  match find_rule lpm maps pkt dir with
  | None => pf_match res (pkt_view pkt dir) = false
  | Some m => pf_match res (pkt_view pkt dir) = true /\
      has m MATCH_SNIFF = has (rule_action flags exact) MATCH_SNIFF /\
      has m MATCH_DROP = has (rule_action flags exact) MATCH_DROP
  end.
Proof.
  intros Hl Hp Hv Hd. pose proof (pf_lower_result _ _ _ Hl) as Hr.
  rewrite (load_rules_loaded layer flags obj res Hl (ro_n4 _ Hr) (ro_n6 _ Hr)).
  split; [reflexivity|]. split; [reflexivity|].
  pose proof (find_rule_match lpm res _ pkt dir Hr (rule_action_is flags (pr_exact res)) Hp Hd Hv) as M.
  destruct (find_rule _ _ _ _); [tauto|exact M].
Qed.

Lemma kernel_loop_is_pf_match_witness :
  let obj := [mkFilter FIELD_TCP_DSTPORT TEST_EQ WINDIVERT_FILTER_RESULT_ACCEPT
    WINDIVERT_FILTER_RESULT_REJECT false (W128 80 0 0 0)] in
  let pkt := mkParsed 0x0A000001 zero_addr 0x0A000002 zero_addr 4000 80 14 2 6 4 64 2 true false 0 in
  let '(err, exact, maps) := load_rules (fun _ => 0) (fun _ => 0) LAYER_NETWORK 0 obj empty_maps in
  err = 0 /\ find_rule (mkLpm (fun _ _ => None) (fun _ _ => None)) maps pkt 2 <> None.
Proof.
  cbv zeta. set (obj := [_]). set (pkt := mkParsed _ _ _ _ _ _ _ _ _ _ _ _ _ _ _).
  destruct (pf_lower LAYER_NETWORK obj) as [res|] eqn:El; [|vm_compute in El; discriminate].
  pose proof (kernel_loop_is_pf_match (mkLpm (fun _ _ => None) (fun _ _ => None)) LAYER_NETWORK 0 obj res
    pkt 2 El) as H.
  destruct (load_rules _ _ _ _ _ _) as [[err exact] maps] eqn:Er.
  destruct H as (H1 & _ & H3); [|now left|lia|].
  - destruct zero16_ok. repeat split; assumption.
  - split; [exact H1|]. intros E. rewrite E in H3. vm_compute in El. inversion El; subst res.
    vm_compute in H3. discriminate.
Defined.
