(* ===== verification/BpfAgree.v ===== *)
(** * The two parsers agree

    For plain packets (no fragment, complete transport header, at most four
    extension headers that both parsers know) [parse_packet] of the BPF
    program and [WinDivertHelperParsePacketEx] of user space find the same
    headers and read the same fields: the parsed packet and the evaluator's
    arguments are related by [agrees]. *)

From Stdlib Require Import ZArith List Bool Lia ZifyBool.
From S2P Require Import Prelude WdTypes WdPacket WdHash WdExec PfRange PfAddr PfCube PfBranch.
From S2P Require Import PfEncode BpfParse BpfMatch.
Import ListNotations.

(** ** Plain packets

    [p] is the packet from its IP header, [lim] where its bytes end for both
    parsers: the length field, the captured bytes and the linear part. *)

Definition transport_fits (v4 : bool) (p : list Z) (pr o lim : Z) : bool :=
  if pr =? IPPROTO_TCP then (o + 20 <=? lim) && (5 <=? tcp_HdrLength p o)
  else if (pr =? IPPROTO_UDP) || (pr =? (if v4 then IPPROTO_ICMP else IPPROTO_ICMPV6))
  then o + 8 <=? lim
  else true.

Definition plain_v4 (p : list Z) (lin : Z) : bool :=
  let ihl := ip_HdrLength p 0 in
  let total := be16 p 2 in
  (20 <=? lin) && (5 <=? ihl) && (ihl * 4 <=? total) && (ihl * 4 <=? zlen p) &&
  negb (has (be16 p 6) 0x3FFF) &&
  transport_fits true p (byte_at p 9) (ihl * 4) (Z.min total lin).

(** Hop-by-hop, routing and destination options. *)
Definition is_plain_ext (h : Z) : bool :=
  (h =? IPPROTO_HOPOPTS) || (h =? IPPROTO_ROUTING) || (h =? IPPROTO_DSTOPTS).

Definition is_other_ext (h : Z) : bool :=
  (h =? IPPROTO_FRAGMENT) || (h =? IPPROTO_AH) || (h =? IPPROTO_MH).

(** Protocol and offset behind at most [n] extension headers. *)
Fixpoint header_chain (n : nat) (p : list Z) (h o lim : Z) : option (Z * Z) :=
  if is_plain_ext h then
    match n with
    | O => None
    | S n =>
      let len := (byte_at p (o + 1) + 1) * 8 in
      if (byte_at p (o + 1) <? 255) && (o + len <=? lim) && (o + 8 <=? lim)
      then header_chain n p (byte_at p o) (o + len) lim
      else None
    end
  else if is_other_ext h then None
  else Some (h, o).

Definition plain_v6 (p : list Z) (lin : Z) : bool :=
  let lim := Z.min (be16 p 4 + 40) lin in
  (40 <=? lin) &&
  match header_chain 4 p (byte_at p 6) 40 lim with
  | None => false
  | Some (pr, o) => transport_fits false p pr o lim
  end.

Definition plain (p : list Z) (lin : Z) : bool :=
  if ip_Version p 0 =? 4 then plain_v4 p lin
  else if ip_Version p 0 =? 6 then plain_v6 p lin
  else false.

(** ** Reading through the linear part *)

Lemma byte_at_firstn p n o : o < Z.of_nat n -> byte_at (firstn n p) o = byte_at p o.
Proof.
  intros H. unfold byte_at. case_if; [reflexivity|]. b2p.
  destruct (Nat.lt_ge_cases (Z.to_nat o) (length p)).
  - rewrite <- (firstn_skipn n p) at 2. rewrite app_nth1; [reflexivity|]. rewrite length_firstn. lia.
  - rewrite !nth_overflow; [reflexivity|lia|]. rewrite length_firstn. lia.
Qed.

(** Fields of the transport header at [o]. *)
Definition port_fields (p : list Z) (v4 : bool) (pr o : Z) : Z * Z * Z :=
  if pr =? IPPROTO_TCP then (be16 p o, be16 p (o + 2), byte_at p (o + 13))
  else if pr =? IPPROTO_UDP then (be16 p o, be16 p (o + 2), 0)
  else if pr =? (if v4 then IPPROTO_ICMP else IPPROTO_ICMPV6)
  then (byte_at p o, byte_at p (o + 1), 0)
  else (0, 0, 0).

Section View.
Variable frame : list Z.          (* the packet from its first L2 byte *)
Variable lin : nat.               (* bytes in the linear part *)
Variable l2 : nat.                (* length of the L2 header *)
Hypothesis Hbytes : bytes frame.
Hypothesis Hlin : (l2 <= lin <= length frame)%nat.

Let data := firstn lin frame.
Let p := skipn l2 frame.
Let avail := Z.of_nat (lin - l2).

Lemma data_len : zlen data = Z.of_nat l2 + avail.
Proof using Hlin. unfold zlen, data, avail. rewrite length_firstn. lia. Qed.

Lemma p_len : avail <= zlen p.
Proof using Hlin. unfold zlen, p, avail. rewrite length_skipn. lia. Qed.

Lemma p_bytes : bytes p.
Proof using Hbytes. now apply bytes_skipn. Qed.

Lemma data_bytes : bytes data.
Proof using Hbytes. now apply bytes_firstn. Qed.

Lemma data_byte o : 0 <= o < avail -> byte_at data (Z.of_nat l2 + o) = byte_at p o.
Proof using Hlin.
  intros H. unfold data, p, avail in *. rewrite byte_at_firstn by lia.
  rewrite byte_at_skipn by lia. f_equal. lia.
Qed.

Lemma data_net16 o : 0 <= o -> o + 2 <= avail -> net16 data (Z.of_nat l2 + o) = be16 p o.
Proof using Hlin Hbytes.
  intros H0 H. unfold net16. rewrite ntohs_ld16 by exact data_bytes. unfold be16.
  rewrite <- Z.add_assoc, !data_byte by lia. reflexivity.
Qed.

Lemma data_net32 o : 0 <= o -> o + 4 <= avail -> net32 data (Z.of_nat l2 + o) = be32 p o.
Proof using Hlin Hbytes.
  intros H0 H. unfold net32. rewrite ntohl_ld32 by exact data_bytes. unfold be32.
  rewrite <- !Z.add_assoc, !data_byte by lia. reflexivity.
Qed.

Lemma parse_ports_ok v4 pr o lim : transport_fits v4 p pr o lim = true -> lim <= avail -> 0 <= o ->
  parse_ports data (if v4 then 1 else 58) pr (Z.of_nat l2 + o) = port_fields p v4 pr o.
Proof using Hlin Hbytes.
  intros Hf Hl Ho. unfold parse_ports, port_fields, transport_fits in *. rewrite data_len.
  change IPPROTO_TCP with 6 in *. change IPPROTO_UDP with 17 in *.
  change IPPROTO_ICMP with 1 in *. change IPPROTO_ICMPV6 with 58 in *.
  destruct (pr =? 6) eqn:E6.
  { apply andb_true_iff in Hf. destruct Hf as [Hf _]. b2p.
    replace (_ <=? _) with true by lia. rewrite <- !Z.add_assoc, !data_net16, data_byte by lia. reflexivity. }
  destruct (pr =? 17) eqn:E17; cbn [orb] in Hf.
  { b2p. replace (_ <=? _) with true by lia. rewrite <- !Z.add_assoc, !data_net16 by lia. reflexivity. }
  destruct (pr =? (if v4 then 1 else 58)) eqn:Ei; [|reflexivity]. b2p. replace (_ <=? _) with true by lia.
  rewrite <- !Z.add_assoc, !data_byte by lia. reflexivity.
Qed.
End View.

(** ** The transport header in user space *)

Definition transport_at (v4 : bool) (pr o : Z) (t : transport) : Prop :=
  t_tcp t = (if pr =? IPPROTO_TCP then Some o else None) /\
  t_udp t = (if pr =? IPPROTO_UDP then Some o else None) /\
  t_icmp t = (if v4 && (pr =? IPPROTO_ICMP) then Some o else None) /\
  t_icmpv6 t = (if negb v4 && (pr =? IPPROTO_ICMPV6) then Some o else None).

Lemma parse_transport_fits p v4 pr o lim dlen mf fr :
  transport_fits v4 p pr o lim = true -> lim <= o + dlen ->
  transport_at v4 pr o (parse_transport p v4 (mkExt pr o dlen 0 mf fr)).
Proof.
  intros Hf Hl. unfold parse_transport, transport_fits, transport_at in *.
  cbn [x_frag_off x_protocol x_data x_data_len]. rewrite Z.eqb_refl. cbn [negb].
  unfold IPPROTO_TCP, IPPROTO_UDP, IPPROTO_ICMP, IPPROTO_ICMPV6 in *.
  destruct (pr =? 6) eqn:E6.
  { b2p. subst. replace (dlen <? 20) with false by lia. replace (tcp_HdrLength p o <? 5) with false by lia.
    cbn. now rewrite !andb_false_r. }
  destruct (pr =? 17) eqn:E17; cbn [orb] in Hf.
  { b2p. subst. replace (dlen <? 8) with false by lia. cbn. now rewrite !andb_false_r. }
  destruct (pr =? 1) eqn:E1.
  { b2p. subst. destruct v4; cbn in *; [|now rewrite ?orb_true_r].
    replace (dlen <? 8) with false by lia. auto. }
  destruct (pr =? 58) eqn:E58; [|destruct v4; cbn; auto].
  b2p. subst. destruct v4; cbn in *; [auto|]. replace (dlen <? 8) with false by lia. auto.
Qed.

(** ** IPv4 *)

Lemma land_sub x a b : Z.land x a = 0 -> Z.land a b = b -> Z.land x b = 0.
Proof. intros H <-. now rewrite Z.land_assoc, H. Qed.

(** No fragment for the kernel, no fragment for user space. *)
Lemma no_fragment_v4 p : bytes p -> has (be16 p 6) 0x3FFF = false ->
  ntohs (WINDIVERT_IPHDR_GET_FRAGOFF p 0) = 0 /\ WINDIVERT_IPHDR_GET_MF p 0 = false /\
  has (be16 p 6) 0x1FFF = false.
Proof.
  intros Hp H. pose proof (byte_at_range p 6 Hp) as B6. pose proof (byte_at_range p 7 Hp) as B7.
  unfold has in *. apply negb_false_iff, Z.eqb_eq in H.
  assert (E : Z.land (byte_at p 7) 0xFF = 0 /\ Z.land (byte_at p 6) 0x3F = 0).
  { unfold be16 in H. change (6 + 1) with 7 in H. rewrite Z.add_comm in H.
    change 0x3FFF with (0xFF + 2 ^ 8 * 0x3F) in H.
    rewrite land_digit in H by (assumption || (unfold is_byte; lia)).
    pose proof (land_byte (byte_at p 7) 0xFF B7 ltac:(unfold is_byte; lia)) as R. unfold is_byte in R. lia. }
  destruct E as [E7 E6]. assert (Z7 : byte_at p 7 = 0).
  { change 0xFF with (Z.ones 8) in E7. rewrite Z.land_ones in E7 by lia. unfold is_byte in B7.
    now rewrite Z.mod_small in E7 by lia. }
  split; [|split].
  - unfold WINDIVERT_IPHDR_GET_FRAGOFF, ip_FragOff0, ld16. change (0 + 6) with 6. change (6 + 1) with 7.
    rewrite Z7, Z.mul_0_r, Z.add_0_r. change 0xFF1F with (0x1F + 2 ^ 8 * 0xFF).
    rewrite <- (Z.add_0_r (byte_at p 6)). change 0 with (2 ^ 8 * 0) at 1.
    rewrite land_digit by (assumption || (unfold is_byte; lia)).
    rewrite (land_sub _ 0x3F 0x1F E6) by reflexivity. reflexivity.
  - unfold WINDIVERT_IPHDR_GET_MF, ip_FragOff0, ld16, has. change (0 + 6) with 6. change (6 + 1) with 7.
    rewrite Z7, Z.mul_0_r, Z.add_0_r. now rewrite (land_sub _ 0x3F 0x20 E6) by reflexivity.
  - now rewrite (land_sub _ 0x3FFF 0x1FFF H) by reflexivity.
Qed.

(** What both parsers find. *)
Record parsed_as (p : list Z) (v4 : bool) (pr o : Z) (info : WINDIVERT_PACKET) : Prop := {
  pa_ip : IPHeader info = if v4 then Some 0 else None;
  pa_ipv6 : IPv6Header info = if v4 then None else Some 0;
  pa_tcp : TCPHeader info = if pr =? IPPROTO_TCP then Some o else None;
  pa_udp : UDPHeader info = if pr =? IPPROTO_UDP then Some o else None;
  pa_icmp : ICMPHeader info = if v4 && (pr =? IPPROTO_ICMP) then Some o else None;
  pa_icmpv6 : ICMPv6Header info = if negb v4 && (pr =? IPPROTO_ICMPV6) then Some o else None
}.

Lemma plain_v4_user p lin : bytes p -> ip_Version p 0 = 4 -> lin <= zlen p -> plain_v4 p lin = true ->
  exists info, WinDivertHelperParsePacketEx p = Some info /\
    parsed_as p true (byte_at p 9) (ip_HdrLength p 0 * 4) info.
Proof.
  intros Hp V Hlin H. unfold plain_v4 in H. rewrite !andb_true_iff in H.
  destruct H as [[[[[H20 Hi] Ht] Hz] Hf] Htr]. apply negb_true_iff in Hf.
  destruct (no_fragment_v4 p Hp Hf) as (F1 & F2 & _). b2p.
  unfold WinDivertHelperParsePacketEx, parse_ipv4. rewrite V. cbn [Z.eqb Pos.eqb].
  replace (zlen p <? 20) with false by lia. replace (ip_HdrLength p 0 <? 5) with false by lia. cbn [orb].
  unfold ip_Length. rewrite ntohs_ld16 by exact Hp. change (0 + 2) with 2.
  replace (be16 p 2 <? ip_HdrLength p 0 * 4) with false by lia.
  replace (zlen p <? ip_HdrLength p 0 * 4) with false by lia. cbn [orb]. rewrite F1, F2.
  eexists. split; [reflexivity|]. unfold ip_Protocol. change (0 + 9) with 9.
  cbn [ip_ext ip_v4 ip_packet_len].
  set (plen := if be16 p 2 <? zlen p then _ else _).
  destruct (parse_transport_fits p true (byte_at p 9) (ip_HdrLength p 0 * 4) (Z.min (be16 p 2) lin)
    (plen - ip_HdrLength p 0 * 4) false (false || negb (0 =? 0)) Htr) as (T1 & T2 & T3 & T4).
  - subst plen. case_if; b2p; lia.
  - split; cbn [IPHeader IPv6Header TCPHeader UDPHeader ICMPHeader ICMPv6Header]; auto.
Qed.

(** ** IPv6 *)

Lemma chain_user p (Hp : bytes p) : forall n h o lim pr o', header_chain n p h o lim = Some (pr, o') ->
  forall fuel dlen, 0 <= dlen -> lim <= o + dlen -> dlen <= Z.of_nat fuel ->
  ext_loop fuel p (mkExt h o dlen 0 false false) = mkExt pr o' (o + dlen - o') 0 false false /\
  o <= o' /\ (o <= lim -> o' <= lim).
Proof.
  induction n as [|n IH]; intros h o lim pr o'; cbn [header_chain];
    (destruct (is_plain_ext h) eqn:Eh; [|destruct (is_other_ext h) eqn:Eo; [discriminate|]]).
  1: discriminate.
  2: { destruct (_ && _ && _) eqn:C; [|discriminate]. intros H fuel dlen Hd Hl Hf.
    rewrite !andb_true_iff in C. destruct C as [[C1 C2] C3].
    pose proof (byte_at_range p (o + 1) Hp) as B. unfold is_byte in B. b2p.
    set (len := (byte_at p (o + 1) + 1) * 8) in *. assert (Ln : 8 <= len) by (subst len; lia).
    destruct fuel as [|fuel]; [lia|]. cbn [ext_loop x_frag_off x_data_len].
    replace ((0 =? 0) && (2 <=? dlen)) with true by lia.
    assert (Ex : ext_header p (mkExt h o dlen 0 false false) = Some (len, mkExt h o dlen 0 false false)).
    { unfold ext_header. cbn [x_protocol x_data x_data_len x_fragment].
      unfold is_plain_ext, IPPROTO_HOPOPTS, IPPROTO_ROUTING, IPPROTO_DSTOPTS in Eh.
      unfold IPPROTO_FRAGMENT, IPPROTO_AH, IPPROTO_HOPOPTS, IPPROTO_ROUTING, IPPROTO_DSTOPTS, IPPROTO_MH.
      replace (h =? 44) with false by lia. replace (h =? 51) with false by lia.
      replace (_ || (h =? 135)) with true by lia. reflexivity. }
    rewrite Ex. cbn [x_data_len x_data x_frag_off x_MF x_fragment].
    replace (dlen <? len) with false by lia.
    destruct (IH _ _ _ _ _ H fuel (dlen - len)) as (-> & H1 & H2); [lia..|].
    split; [f_equal; lia|lia]. }
  all: intros H fuel dlen Hd Hl Hf; inversion H; subst; clear H; split; [|lia].
  all: replace (o' + dlen - o') with dlen by lia.
  all: destruct fuel as [|fuel]; cbn [ext_loop]; [reflexivity|]; case_if; [|reflexivity].
  all: unfold ext_header; cbn [x_protocol x_data x_data_len x_fragment].
  all: unfold is_plain_ext, is_other_ext in *; b2p;
    repeat match goal with E : ?x <> ?y |- context [?x =? ?y] => rewrite (proj2 (Z.eqb_neq x y) E) end;
    reflexivity.
Qed.

Lemma plain_v6_user p lin : bytes p -> ip_Version p 0 = 6 -> lin <= zlen p -> plain_v6 p lin = true ->
  exists info pr o, WinDivertHelperParsePacketEx p = Some info /\ parsed_as p false pr o info /\
    header_chain 4 p (byte_at p 6) 40 (Z.min (be16 p 4 + 40) lin) = Some (pr, o) /\
    transport_fits false p pr o (Z.min (be16 p 4 + 40) lin) = true /\ 40 <= o.
Proof.
  intros Hp V Hlin H. unfold plain_v6 in H. set (lim := Z.min (be16 p 4 + 40) lin) in *.
  apply andb_true_iff in H. destruct H as [H40 H]. b2p.
  destruct (header_chain 4 p (byte_at p 6) 40 lim) as [[pr o]|] eqn:C; [|discriminate].
  pose proof (be16_range p 4 Hp) as R.
  unfold WinDivertHelperParsePacketEx, parse_ipv6. rewrite V. cbn [Z.eqb Pos.eqb].
  replace (zlen p <? 20) with false by lia. replace (zlen p <? 40) with false by lia.
  unfold ipv6_Length. rewrite ntohs_ld16 by exact Hp. change (0 + 4) with 4.
  unfold ipv6_NextHdr. change (0 + 6) with 6.
  set (plen := if be16 p 4 + 40 <? zlen p then _ else _).
  assert (Hpl : 40 <= plen /\ lim <= plen) by (subst plen lim; case_if; b2p; lia).
  destruct (chain_user p Hp 4 _ _ _ _ _ C (Z.to_nat (plen - 40)) (plen - 40)) as (E & Ho & _); [lia..|].
  eexists _, pr, o. split; [reflexivity|]. cbn [ip_ext ip_v4 ip_packet_len]. rewrite E.
  destruct (parse_transport_fits p false pr o lim (40 + (plen - 40) - o) false false H)
    as (T1 & T2 & T3 & T4); [lia|].
  repeat split; cbn [IPHeader IPv6Header TCPHeader UDPHeader ICMPHeader ICMPv6Header]; auto.
Qed.

(** ** The kernel side *)

(** Chosen field values for a packet of one family. *)
Definition parsed_v4 (p : list Z) (ifindex l2 : Z) (f : Z * Z * Z) : parsed_packet :=
  mkParsed (be32 p 12) zero_addr (be32 p 16) zero_addr (fst (fst f)) (snd (fst f)) l2 ifindex
    (byte_at p 9) 4 (byte_at p 8) (snd f) true false 0.

Definition parsed_v6 (p : list Z) (ifindex l2 pr : Z) (f : Z * Z * Z) : parsed_packet :=
  mkParsed 0 (load16 p 8) 0 (load16 p 24) (fst (fst f)) (snd (fst f)) l2 ifindex
    pr 6 (byte_at p 7) (snd f) true false 0.

Section Kernel.
Variable frame : list Z.
Variable lin l2 : nat.
Hypothesis Hbytes : bytes frame.
Hypothesis Hlin : (l2 <= lin <= length frame)%nat.
Variable ifindex : Z.

Let data := firstn lin frame.
Let p := skipn l2 frame.
Let avail := Z.of_nat (lin - l2).
Let fields v4 := port_fields p v4.

Lemma plain_v4_kernel : plain_v4 p avail = true ->
  parse_v4 data ifindex (Z.of_nat l2) =
  Some (parsed_v4 p ifindex (Z.of_nat l2) (fields true (byte_at p 9) (ip_HdrLength p 0 * 4))).
Proof using Hlin Hbytes.
  intros H. unfold plain_v4 in H. rewrite !andb_true_iff in H.
  destruct H as [[[[[H20 Hi] Ht] Hz] Hf] Htr]. apply negb_true_iff in Hf.
  destruct (no_fragment_v4 p (p_bytes frame l2 Hbytes) Hf) as (_ & _ & F3). b2p.
  assert (D : forall o, 0 <= o < 20 -> byte_at data (Z.of_nat l2 + o) = byte_at p o)
    by (intros o Ho; apply data_byte; fold avail; lia).
  unfold parse_v4. unfold data at 1. rewrite (data_len frame lin l2 Hlin). fold avail.
  replace (_ <? _) with false by lia.
  assert (E0 : byte_at data (Z.of_nat l2) = byte_at p 0)
    by (rewrite <- (D 0) by lia; now rewrite Z.add_0_r).
  rewrite E0, !D by lia. change (byte_at p 0 &&& 0xF) with (ip_HdrLength p 0).
  replace (ip_HdrLength p 0 <? 5) with false by lia.
  unfold data. rewrite data_net16 by (assumption || fold avail; lia). fold p. rewrite F3, Hf.
  rewrite !data_net32 by (assumption || fold avail; lia). fold p.
  rewrite (parse_ports_ok frame lin l2 Hbytes Hlin true (byte_at p 9) (ip_HdrLength p 0 * 4) _ Htr)
    by (fold avail; lia).
  unfold parsed_v4, fields. now destruct (port_fields _ _ _ _) as [[sp dp] fl].
Qed.

Lemma chain_kernel : forall n h o lim pr o', header_chain n p h o lim = Some (pr, o') ->
  lim <= avail -> 0 <= o ->
  ext_headers n data h (Z.of_nat l2 + o) false = Some (pr, Z.of_nat l2 + o', false).
Proof using Hlin Hbytes.
  induction n as [|n IH]; intros h o lim pr o'; cbn [header_chain ext_headers];
    (destruct (is_plain_ext h) eqn:Eh; [|destruct (is_other_ext h) eqn:Eo; [discriminate|]]).
  1: discriminate.
  1: intros H; inversion H; reflexivity.
  2: { intros H; inversion H; subst. unfold is_plain_ext, is_other_ext, is_ext_header in *.
    unfold IPPROTO_HOPOPTS, IPPROTO_ROUTING, IPPROTO_DSTOPTS, IPPROTO_FRAGMENT in *.
    now replace (negb _) with true by lia. }
  destruct (_ && _ && _) eqn:C; [|discriminate]. intros H Hl Ho.
  rewrite !andb_true_iff in C. destruct C as [[C1 C2] C3]. b2p.
  pose proof (byte_at_range p (o + 1) (p_bytes frame l2 Hbytes)) as B. unfold is_byte in B.
  unfold is_plain_ext, IPPROTO_HOPOPTS, IPPROTO_ROUTING, IPPROTO_DSTOPTS in Eh.
  replace (negb (is_ext_header h)) with false by (unfold is_ext_header; lia).
  assert (D0 : byte_at data (Z.of_nat l2 + o) = byte_at p o)
    by (apply data_byte; [exact Hlin|fold avail; lia]).
  assert (D1 : byte_at data (Z.of_nat l2 + o + 1) = byte_at p (o + 1))
    by (rewrite <- Z.add_assoc; apply data_byte; [exact Hlin|fold avail; lia]).
  assert (Dl : zlen data = Z.of_nat l2 + avail) by now apply data_len.
  assert (E : ((byte_at p (o + 1) + 1) <<< 3) &&& 0x7FF = (byte_at p (o + 1) + 1) * 8).
  { rewrite (land_mask_mod _ 11) by (lia || reflexivity). rewrite Z.shiftl_mul_pow2 by lia.
    apply Z.mod_small. lia. }
  rewrite Dl, D0, D1. replace (h =? 44) with false by lia. cbn [orb]. rewrite E.
  replace (_ <? _ + 8) with false by lia. replace (_ <? _) with false by lia.
  rewrite <- Z.add_assoc. apply (IH _ _ lim); [exact H|exact Hl|lia].
Qed.

Lemma load16_ok o : 0 <= o -> o + 16 <= avail ->
  load16 data (Z.of_nat l2 + o) = load16 p o /\ addr16_ok (load16 p o) /\
  net_words (load16 p o) = W128 (be32 p (o + 12)) (be32 p (o + 8)) (be32 p (o + 4)) (be32 p o).
Proof using Hlin Hbytes.
  intros H0 H. unfold load16, data, p, avail in *. rewrite skipn_firstn_comm, firstn_firstn, skipn_skipn.
  replace (Nat.min 16 _) with 16%nat by lia.
  replace (Z.to_nat o + l2)%nat with (Z.to_nat (Z.of_nat l2 + o)) by lia. split; [reflexivity|].
  set (q := skipn (Z.to_nat (Z.of_nat l2 + o)) frame).
  assert (Lq : (16 <= length q)%nat) by (unfold q; rewrite length_skipn; lia).
  split; [split; [rewrite length_firstn; lia|apply bytes_firstn, bytes_skipn, Hbytes]|].
  assert (B : forall j, 0 <= j < 16 -> byte_at (firstn 16 q) j = byte_at (skipn l2 frame) (o + j)).
  { intros j Hj. rewrite byte_at_firstn by lia. unfold q. rewrite !byte_at_skipn by lia. f_equal. lia. }
  unfold net_words, be32. cbn [Z.add Pos.add Pos.succ]. rewrite !B by lia.
  rewrite <- !Z.add_assoc. cbn [Z.add Pos.add Pos.succ]. now rewrite Z.add_0_r.
Qed.

Lemma plain_v6_kernel pr o : 40 <= avail ->
  header_chain 4 p (byte_at p 6) 40 (Z.min (be16 p 4 + 40) avail) = Some (pr, o) -> 40 <= o ->
  transport_fits false p pr o (Z.min (be16 p 4 + 40) avail) = true ->
  parse_v6 data ifindex (Z.of_nat l2) =
  Some (parsed_v6 p ifindex (Z.of_nat l2) pr (fields false pr o)).
Proof using Hlin Hbytes.
  intros Ha C Ho T.
  assert (D : forall i, 0 <= i < 40 -> byte_at data (Z.of_nat l2 + i) = byte_at p i)
    by (intros i Hi; apply data_byte; [exact Hlin|fold avail; lia]).
  assert (Dl : zlen data = Z.of_nat l2 + avail) by now apply data_len.
  unfold parse_v6. rewrite Dl. replace (_ <? _) with false by lia. rewrite !D by lia.
  rewrite (chain_kernel _ _ _ _ _ _ C) by lia.
  destruct (load16_ok 8) as (-> & _); [lia..|]. destruct (load16_ok 24) as (-> & _); [lia..|].
  pose proof (parse_ports_ok frame lin l2 Hbytes Hlin false pr o _ T) as P. cbn iota in P.
  fold data in P. rewrite P by (fold avail; lia).
  unfold parsed_v6, fields. now destruct (port_fields _ _ _ _) as [[sp dp] fl].
Qed.
End Kernel.

(** ** Agreement *)

(** The address user space builds for a packet captured in direction [dir]. *)
Definition network_addr (addr : WINDIVERT_ADDRESS) (dir : Z) : Prop :=
  (Layer addr = LAYER_NETWORK \/ Layer addr = LAYER_NETWORK_FORWARD) /\ Event addr = 0 /\
  dir = if Outbound addr then DIR_EGRESS else DIR_INGRESS.

Lemma wf_mapped z : 0 <= z < 2 ^ 32 -> wf128 (W128 z 0xFFFF 0 0).
Proof. intros H. unfold wf128, is_u32; cbn. lia. Qed.

Lemma port_fields_range p v4 pr o : bytes p ->
  let f := port_fields p v4 pr o in
  0 <= fst (fst f) <= 65535 /\ 0 <= snd (fst f) <= 65535.
Proof.
  intros Hp. pose proof (be16_range p o Hp). pose proof (be16_range p (o + 2) Hp).
  pose proof (byte_at_range p o Hp). pose proof (byte_at_range p (o + 1) Hp). unfold is_byte in *.
  unfold port_fields. repeat case_if; cbn; lia.
Qed.

(** Goals [non_null (if b then Some o else None) = b]. *)
Lemma non_null_if (b : bool) (o : Z) : non_null (if b then Some o else None) = b.
Proof. now destruct b. Qed.

Lemma if_some (b : bool) (o h : Z) : (if b then Some o else None) = Some h -> b = true /\ h = o.
Proof. destruct b; [intros H; inversion H; auto|discriminate]. Qed.

Section Agree.
Variable addr : WINDIVERT_ADDRESS.
Variable p : list Z.
Variable info : WINDIVERT_PACKET.
Variable dir ifindex l2 : Z.
Hypothesis Hp : bytes p.
Hypothesis Haddr : network_addr addr dir.

Let lo := b2z (Loopback addr).

(** Transport fields, common to both families. *)
Lemma agree_tcp v4 pr o h : parsed_as p v4 pr o info -> TCPHeader info = Some h ->
  let f := port_fields p v4 pr o in
  ntohs (tcp_SrcPort p h) = fst (fst f) /\ ntohs (tcp_DstPort p h) = snd (fst f) /\
  forall n, 0 <= n < 6 -> tcp_flag p h n = b2z (Z.testbit (snd f) n).
Proof using Hp.
  intros [_ _ Ptcp _ _ _] H. rewrite Ptcp in H. apply if_some in H. destruct H as [E ->].
  unfold port_fields, tcp_SrcPort, tcp_DstPort. rewrite E, !ntohs_ld16 by exact Hp. auto.
Qed.

Lemma agree_udp v4 pr o h : parsed_as p v4 pr o info -> UDPHeader info = Some h ->
  let f := port_fields p v4 pr o in
  ntohs (udp_SrcPort p h) = fst (fst f) /\ ntohs (udp_DstPort p h) = snd (fst f).
Proof using Hp.
  intros [_ _ _ Pudp _ _] H. rewrite Pudp in H. apply if_some in H. destruct H as [E ->]. b2p. subst pr.
  unfold port_fields, udp_SrcPort, udp_DstPort. rewrite !ntohs_ld16 by exact Hp. auto.
Qed.

Lemma agree_icmp v4 pr o h : parsed_as p v4 pr o info ->
  ICMPHeader info = Some h \/ ICMPv6Header info = Some h ->
  let f := port_fields p v4 pr o in
  icmp_Type p h = fst (fst f) /\ icmp_Code p h = snd (fst f).
Proof using.
  intros [_ _ _ _ Picmp Picmp6] H. rewrite Picmp, Picmp6 in H.
  destruct H as [H|H]; apply if_some in H; destruct H as [E ->]; b2p; subst pr;
    destruct v4; try discriminate; auto.
Qed.

Lemma agrees_v4 o : parsed_as p true (byte_at p 9) o info ->
  agrees (eval_args addr p info)
    (pkt_view (with_is_lo (parsed_v4 p ifindex l2 (port_fields p true (byte_at p 9) o)) lo) dir).
Proof using Hp Haddr.
  intros P. pose proof P as [Pip Pip6 Ptcp Pudp Picmp Picmp6]. destruct Haddr as (Hl & He & Hd).
  pose proof (port_fields_range p true (byte_at p 9) o Hp) as [R1 R2].
  pose proof (byte_at_range p 9 Hp) as B9. pose proof (byte_at_range p 8 Hp) as B8. unfold is_byte in *.
  split; cbn [a_layer a_event a_outbound a_loopback a_ip_header a_ipv6_header a_tcp_header a_udp_header
    a_icmp_header a_icmpv6_header a_packet eval_args k_ver k_src k_dst k_sport k_dport k_proto k_direction
    k_loopback k_ttl k_tcp_flags pkt_view with_is_lo parsed_v4 ver proto src_ip dst_ip src_port dst_port
    is_lo ttl tcp_flags Z.eqb Pos.eqb andb].
  - exact Hl.
  - exact He.
  - intros _. exact Hd.
  - reflexivity.
  - left. rewrite Pip, Pip6. repeat split; discriminate.
  - rewrite Ptcp. apply non_null_if.
  - rewrite Pudp. apply non_null_if.
  - rewrite Picmp. apply non_null_if.
  - now rewrite Picmp6.
  - intros h H. rewrite Pip in H. inversion H; subst. unfold ip_TTL, ip_Protocol, ip_SrcAddr, ip_DstAddr.
    rewrite !ntohl_ld32 by exact Hp. auto.
  - intros h H. rewrite Pip6 in H. discriminate.
  - intros h H. destruct (agree_tcp true _ o h P H) as (-> & -> & _). auto.
  - intros h n H Hn. apply (agree_tcp true _ o h P H). exact Hn.
  - intros h H. now apply (agree_udp true _ o).
  - intros h H. now apply (agree_icmp true _ o).
  - lia.
  - split; apply wf_mapped; now apply be32_range.
Qed.

Lemma agrees_v6 pr o : parsed_as p false pr o info -> 0 <= pr <= 255 -> 40 <= zlen p ->
  agrees (eval_args addr p info)
    (pkt_view (with_is_lo (parsed_v6 p ifindex l2 pr (port_fields p false pr o)) lo) dir).
Proof using Hp Haddr.
  intros P Hpr Hlen. pose proof P as [Pip Pip6 Ptcp Pudp Picmp Picmp6]. destruct Haddr as (Hl & He & Hd).
  pose proof (port_fields_range p false pr o Hp) as [R1 R2].
  pose proof (byte_at_range p 7 Hp) as B7. unfold is_byte in *.
  assert (L : forall i, 0 <= i -> i + 16 <= 40 ->
    net_words (load16 p i) = W128 (be32 p (i + 12)) (be32 p (i + 8)) (be32 p (i + 4)) (be32 p i)).
  { intros i Hi H. destruct (load16_ok p (length p) 0 Hp ltac:(lia) i Hi) as (_ & _ & E);
      [unfold zlen in Hlen; lia|exact E]. }
  split; cbn [a_layer a_event a_outbound a_loopback a_ip_header a_ipv6_header a_tcp_header a_udp_header
    a_icmp_header a_icmpv6_header a_packet eval_args k_ver k_src k_dst k_sport k_dport k_proto k_direction
    k_loopback k_ttl k_tcp_flags pkt_view with_is_lo parsed_v6 ver proto src_ip6 dst_ip6 src_port dst_port
    is_lo ttl tcp_flags Z.eqb Pos.eqb andb].
  - exact Hl.
  - exact He.
  - intros _. exact Hd.
  - reflexivity.
  - right. rewrite Pip, Pip6. repeat split; discriminate.
  - rewrite Ptcp. apply non_null_if.
  - rewrite Pudp. apply non_null_if.
  - now rewrite Picmp.
  - rewrite Picmp6. apply non_null_if.
  - intros h H. rewrite Pip in H. discriminate.
  - intros h H. rewrite Pip6 in H. inversion H; subst. unfold ipv6_HopLimit, ipv6_SrcAddr, ipv6_DstAddr.
    rewrite !ntohl_ld32, !L by (exact Hp || lia). auto.
  - intros h H. destruct (agree_tcp false _ o h P H) as (-> & -> & _). auto.
  - intros h n H Hn. apply (agree_tcp false _ o h P H). exact Hn.
  - intros h H. now apply (agree_udp false _ o).
  - intros h H. now apply (agree_icmp false _ o).
  - lia.
  - rewrite !L by lia. split; repeat split; cbn [w0 w1 w2 w3]; apply be32_range; exact Hp.
Qed.
End Agree.

Lemma chain_proto p : bytes p -> forall n h o lim pr o', is_byte h ->
  header_chain n p h o lim = Some (pr, o') -> is_byte pr.
Proof.
  intros Hp. induction n as [|n IH]; intros h o lim pr o' Hh; cbn [header_chain];
    (case_if; [|case_if; [discriminate|intros H; inversion H; now subst]]); [discriminate|].
  case_if; [|discriminate]. apply IH. now apply byte_at_range.
Qed.

(** Both parsers on a plain packet. *)
Record both_parse (frame : list Z) (lin l2 : nat) (ifindex : Z) (addr : WINDIVERT_ADDRESS) (dir : Z)
    (pkt : parsed_packet) (info : WINDIVERT_PACKET) : Prop := {
  bp_kernel : parse_packet (firstn lin frame) ifindex = Some pkt;
  bp_user : WinDivertHelperParsePacketEx (skipn l2 frame) = Some info;
  bp_fragment : fragment pkt = false;
  bp_wf : parsed_wf pkt;
  bp_ver : ver pkt = 4 /\ IPHeader info <> None /\ ip_Version (skipn l2 frame) 0 = 4 \/
           ver pkt = 6 /\ IPv6Header info <> None /\ ip_Version (skipn l2 frame) 0 = 6;
  bp_agrees : agrees (eval_args addr (skipn l2 frame) info)
                (pkt_view (with_is_lo pkt (b2z (Loopback addr))) dir)
}.

Lemma zero_addr_ok : addr16_ok zero_addr.
Proof. exact zero16_ok. Qed.

Lemma plain_agrees frame lin l2 ifindex addr dir :
  bytes frame -> (l2 <= lin <= length frame)%nat ->
  find_l2 (firstn lin frame) = Some (Z.of_nat l2) ->
  plain (skipn l2 frame) (Z.of_nat (lin - l2)) = true -> network_addr addr dir ->
  exists pkt info, both_parse frame lin l2 ifindex addr dir pkt info.
Proof.
  intros Hb Hl H2 Hplain Haddr. pose proof (p_bytes frame l2 Hb) as Bp.
  pose proof (p_len frame lin l2 Hl) as Lp. pose proof (data_len frame lin l2 Hl) as Ld.
  set (p := skipn l2 frame) in *. set (avail := Z.of_nat (lin - l2)) in *. unfold plain in Hplain.
  assert (Hav : 20 <= avail).
  { unfold plain_v4, plain_v6 in Hplain. clear - Hplain. repeat case_if_in Hplain; b2p; try discriminate; lia. }
  assert (V : byte_at (firstn lin frame) (Z.of_nat l2) >>> 4 = ip_Version p 0).
  { pose proof (data_byte frame lin l2 Hl 0) as D. fold p avail in D.
    unfold ip_Version. rewrite <- D by lia. now rewrite Z.add_0_r. }
  assert (K : forall q, (if ip_Version p 0 =? 4 then parse_v4 (firstn lin frame) ifindex (Z.of_nat l2)
      else if ip_Version p 0 =? 6 then parse_v6 (firstn lin frame) ifindex (Z.of_nat l2) else None) = q ->
      parse_packet (firstn lin frame) ifindex = q).
  { intros q <-. unfold parse_packet. rewrite H2, V, Ld. now replace (_ <? _) with false by lia. }
  destruct (ip_Version p 0 =? 4) eqn:V4; [|destruct (ip_Version p 0 =? 6) eqn:V6; [|discriminate]]; b2p.
  - pose proof (plain_v4_kernel frame lin l2 Hb Hl ifindex Hplain) as Hk. apply K in Hk.
    destruct (plain_v4_user p avail Bp V4 Lp Hplain) as (info & Hu & P).
    eexists _, info. split; [exact Hk|exact Hu|reflexivity| |left|].
    + split; [reflexivity|]. cbn. destruct zero_addr_ok. auto.
    + rewrite (pa_ip _ _ _ _ _ P). repeat split; [discriminate|exact V4].
    + now apply agrees_v4.
  - assert (H40 : 40 <= avail) by (unfold plain_v6 in Hplain; b2p; lia).
    destruct (plain_v6_user p avail Bp V6 Lp Hplain) as (info & pr & o & Hu & P & C & T & Ho).
    pose proof (plain_v6_kernel frame lin l2 Hb Hl ifindex pr o H40 C Ho T) as Hk. apply K in Hk.
    eexists _, info. split; [exact Hk|exact Hu|reflexivity| |right|].
    + destruct (load16_ok frame lin l2 Hb Hl 8) as (_ & [? ?] & _); [lia|fold avail; lia|].
      destruct (load16_ok frame lin l2 Hb Hl 24) as (_ & [? ?] & _); [lia|fold avail; lia|].
      repeat split; assumption.
    + rewrite (pa_ipv6 _ _ _ _ _ P). repeat split; [discriminate|exact V6].
    + pose proof (chain_proto p Bp _ _ _ _ _ _ (byte_at_range p 6 Bp) C) as R. unfold is_byte in R.
      apply agrees_v6; [exact Bp|exact Haddr|exact P|lia|exact (Z.le_trans _ _ _ H40 Lp)].
Qed.

(** ** Properties *)

(** C20. The two parsers agree: on a plain packet behind a recognised L2
    header the BPF program and user space both succeed, the BPF program does
    not take the packet for a fragment, and every field a rule can test has
    the value the evaluator reads. *)
Theorem parsers_agree frame lin l2 ifindex addr dir :
  bytes frame -> (l2 <= lin <= length frame)%nat ->
  find_l2 (firstn lin frame) = Some (Z.of_nat l2) ->
  plain (skipn l2 frame) (Z.of_nat (lin - l2)) = true -> network_addr addr dir ->
  exists pkt info,
    parse_packet (firstn lin frame) ifindex = Some pkt /\
    WinDivertHelperParsePacketEx (skipn l2 frame) = Some info /\
    fragment pkt = false /\
    agrees (eval_args addr (skipn l2 frame) info)
      (pkt_view (with_is_lo pkt (b2z (Loopback addr))) dir).
Proof.
  intros Hb Hl H2 Hp Ha. destruct (plain_agrees frame lin l2 ifindex addr dir Hb Hl H2 Hp Ha)
    as (pkt & info & [K U F _ _ A]). eauto 10.
Qed.

(** An IPv6 UDP packet behind a hop-by-hop header, on a raw-IP device. *)
Definition ex_v6 : list Z :=
  [0x60; 0; 0; 0; 0; 16; 0; 64] ++ repeat 0xFD 16 ++ repeat 0xFC 16 ++
  [17; 0; 1; 4; 0; 0; 0; 0] ++ [0x30; 0x39; 0; 53; 0; 8; 0; 0].

Lemma parsers_agree_witness : exists pkt info,
  parse_packet ex_v6 2 = Some pkt /\ WinDivertHelperParsePacketEx ex_v6 = Some info /\
  agrees (eval_args ex_address ex_v6 info) (pkt_view (with_is_lo pkt 0) 2).
Proof.
  destruct (parsers_agree ex_v6 56 0 2 ex_address 2) as (pkt & info & H1 & H2 & _ & H4).
  - apply Forall_forall. intros b Hb. vm_compute in Hb. unfold is_byte.
    repeat (destruct Hb as [<-|Hb]; [lia|]). destruct Hb.
  - cbn. lia.
  - vm_compute. reflexivity.
  - vm_compute. reflexivity.
  - repeat split. now left.
  - exists pkt, info. split; [exact H1|]. split; [exact H2|exact H4].
Defined.
