(* ===== verification/BpfTc.v ===== *)
(** * The TC programs

    [process_packet], [emit_packet], [is_forwarded], [tc_divert_ingress] and
    [tc_divert_egress] of [src/ebpfdivert.bpf.c].

    Kernel helpers are members of a record of functions; the statistics map
    and the ring buffer are the state. *)

From Stdlib Require Import ZArith List Bool Lia ZifyBool.
From S2P Require Import Prelude WdTypes WdPacket WdHash WdExec PfRange PfAddr PfCube PfEncode.
From S2P Require Import BpfParse BpfMatch.
Import ListNotations.

Definition TC_ACT_UNSPEC : Z := -1.
Definition TC_ACT_OK : Z := 0.
Definition TC_ACT_SHOT : Z := 2.
Definition TC_ACT_STOLEN : Z := 4.

Definition STAT_DIVERTED : Z := 0.
Definition STAT_DROPPED : Z := 1.
Definition STAT_SNIFFED : Z := 2.
Definition STAT_PARSING_ERR : Z := 3.
Definition STAT_RINGBUF_FULL : Z := 4.
Definition STAT_QUEUE_FULL : Z := 5.
Definition STAT_TOO_BIG : Z := 6.
Definition STAT_OWNER_GONE : Z := 7.
Definition STAT_MAX : Z := 8.

Definition REDIRECT_MARK_MASK : Z := 0x4D4A0000.
Definition LOOP_PREVENTION_MARK : Z := 0x4D490000.
Definition REDIRECT_PRIO_MAGIC : Z := 0x4D4B0000.
Definition REDIRECTED_MARK : Z := 0x4D4C0000.

Definition DIVERT_MAX_PACKET : Z := 65536.

Definition PKT_F_IMPOSTOR : Z := 1 <<< 0.
Definition PKT_F_LOOPBACK : Z := 1 <<< 1.
Definition PKT_F_SNIFFED : Z := 1 <<< 2.
Definition PKT_F_FRAGMENT : Z := 1 <<< 3.
Definition PKT_F_FORWARD : Z := 1 <<< 4.

Definition CFG_F_SHUTDOWN : Z := 1 <<< 0.
Definition CFG_F_FRAGMENTS : Z := 1 <<< 1.
Definition CFG_F_FORWARD : Z := 1 <<< 2.
Definition CFG_F_FWD_CHECK : Z := 1 <<< 3.
Definition CFG_F_NO_INBOUND : Z := 1 <<< 4.
Definition CFG_F_NO_OUTBOUND : Z := 1 <<< 5.
Definition CFG_F_SKIP_LO : Z := 1 <<< 6.

Record divert_config : Set := mkConfig {
  priority : Z;
  snaplen : Z;
  loop_prevention_mark : Z;
  lo_ifindex : Z;
  cfg_flags : Z;
  heartbeat_ns : Z;
  heartbeat_timeout_ns : Z
}.

(** The members of [struct __sk_buff] the programs use; [skb_bytes] is the
    whole packet from its L2 header, [skb->len] its length. *)
Record sk_buff : Set := mkSkb {
  skb_bytes : list Z;
  skb_ifindex : Z;
  skb_ingress_ifindex : Z;
  skb_mark : Z;
  skb_priority : Z;
  skb_gso_size : Z;
  skb_gso_segs : Z
}.

Definition skb_len (skb : sk_buff) : Z := zlen (skb_bytes skb).

Record divert_pkt_header : Set := mkHeader {
  h_pkt_len : Z;
  h_ifindex : Z;
  h_direction : Z;
  h_l2_len : Z;
  h_cap_len : Z;
  h_timestamp : Z;
  h_ingress_ifindex : Z;
  h_gso_size : Z;
  h_gso_segs : Z;
  h_flags : Z
}.

(** A ring buffer record: the header and the copied bytes. *)
Record divert_packet_buffer : Set := mkBuffer {
  b_header : divert_pkt_header;
  b_data : list Z
}.

(** [struct bpf_fib_lookup] as [is_forwarded] fills it. *)
Record fib_params : Set := mkFib {
  fib_family : Z;
  fib_ifindex : Z;
  fib_l4_protocol : Z;
  fib_sport : Z;
  fib_dport : Z;
  fib_ipv4_src : Z;
  fib_ipv4_dst : Z;
  fib_ipv6_src : list Z;
  fib_ipv6_dst : list Z
}.

(** Helpers of the kernel.  [pull_data n] is [None] when
    [bpf_skb_pull_data] fails and otherwise the number of linear bytes;
    [reserve] and [load_bytes] say whether the helper succeeds. *)
Record kernel : Type := mkKernel {
  ktime_check : Z;
  ktime_emit : Z;
  pull_data : Z -> option nat;
  fib_lookup : fib_params -> Z;
  reserve : Z -> bool;
  load_bytes : Z -> bool;
  redirect : Z -> Z -> Z;
  lpm : lpm_maps
}.

Record bpf_state : Set := mkState {
  stats : list Z;
  ring : list divert_packet_buffer
}.

(** [increment_stat]: a 64-bit counter. *)
Definition increment_stat (key : Z) (st : bpf_state) : bpf_state :=
  match nth_error (stats st) (Z.to_nat key) with
  | None => st
  | Some v => mkState (set_nth (Z.to_nat key) (u64 (v + 1)) (stats st)) (ring st)
  end.

Definition BPF_FIB_LKUP_RET_SUCCESS : Z := 0.
Definition BPF_FIB_LKUP_RET_NO_NEIGH : Z := 7.
Definition BPF_FIB_LKUP_RET_FRAG_NEEDED : Z := 8.

Definition is_forwarded (k : kernel) (skb : sk_buff) (pkt : parsed_packet) : bool :=
  let params :=
    if ver pkt =? 4 then
      mkFib 2 (skb_ifindex skb) (proto pkt) (htons (src_port pkt)) (htons (dst_port pkt))
        (htonl (src_ip pkt)) (htonl (dst_ip pkt)) zero_addr zero_addr
    else
      mkFib 10 (skb_ifindex skb) (proto pkt) (htons (src_port pkt)) (htons (dst_port pkt))
        0 0 (src_ip6 pkt) (dst_ip6 pkt) in
  let ret := fib_lookup k params in
  (ret =? BPF_FIB_LKUP_RET_SUCCESS) || (ret =? BPF_FIB_LKUP_RET_NO_NEIGH) ||
  (ret =? BPF_FIB_LKUP_RET_FRAG_NEEDED).

(** [EMIT_CLASS(SIZE)]: [true] for [return 0]. *)
Definition emit_class (k : kernel) (size : Z) (skb : sk_buff) (pkt : parsed_packet)
    (direction flags len : Z) (st : bpf_state) : bool * bpf_state :=
  if negb (reserve k (40 + size)) then (false, increment_stat STAT_RINGBUF_FULL st)
  else
    let n := (u64 (len - 1) &&& (size - 1)) + 1 in
    if negb (load_bytes k n) then (false, increment_stat STAT_PARSING_ERR st)
    else
      let header :=
        {| h_pkt_len := skb_len skb; h_ifindex := skb_ifindex skb; h_direction := direction;
           h_l2_len := l2_len pkt; h_cap_len := u32 n; h_timestamp := ktime_emit k;
           h_ingress_ifindex := skb_ingress_ifindex skb; h_gso_size := u16 (skb_gso_size skb);
           h_gso_segs := u16 (skb_gso_segs skb); h_flags := flags |} in
      (true, mkState (stats st)
               (ring st ++ [mkBuffer header (firstn (Z.to_nat n) (skb_bytes skb))])).

Definition emit_packet (k : kernel) (skb : sk_buff) (pkt : parsed_packet)
    (direction flags len : Z) (st : bpf_state) : bool * bpf_state :=
  if len <=? 2048 then emit_class k 2048 skb pkt direction flags len st
  else if len <=? 16384 then emit_class k 16384 skb pkt direction flags len st
  else emit_class k DIVERT_MAX_PACKET skb pkt direction flags len st.

(** The owner stopped refreshing its heartbeat (64-bit subtraction). *)
Definition owner_gone (k : kernel) (cfg : divert_config) : bool :=
  negb (heartbeat_timeout_ns cfg =? 0) &&
  (u64 (ktime_check k - heartbeat_ns cfg) >? heartbeat_timeout_ns cfg).

Definition prevent_mark (cfg : divert_config) : Z :=
  if loop_prevention_mark cfg =? 0 then LOOP_PREVENTION_MARK else loop_prevention_mark cfg.

(** Was the packet injected with this library's mark? *)
Definition injected (cfg : divert_config) (skb : sk_buff) : bool :=
  (skb_mark skb &&& 0xFFFF0000) =? (prevent_mark cfg &&& 0xFFFF0000).

(** The part of [process_packet] before the packet is looked at: [None] when
    the packet is passed, otherwise the flags so far. *)
Definition guard_packet (cfg : divert_config) (skb : sk_buff) (direction : Z) : option Z :=
  let is_lo := skb_ifindex skb =? lo_ifindex cfg in
  let forward_layer := has (cfg_flags cfg) CFG_F_FORWARD in
  let forwarded := negb is_lo && negb (skb_ingress_ifindex skb =? 0) in
  if injected cfg skb && (priority cfg <=? (skb_mark skb &&& 0xFFFF)) then None
  else if (skb_mark skb &&& 0xFFFF0000) =? REDIRECT_MARK_MASK then None
  else if is_lo && (direction =? DIR_INGRESS) then None
  else if is_lo && has (cfg_flags cfg) CFG_F_SKIP_LO then None
  else if (direction =? DIR_INGRESS) && has (cfg_flags cfg) CFG_F_NO_INBOUND then None
  else if (direction =? DIR_EGRESS) && has (cfg_flags cfg) CFG_F_NO_OUTBOUND then None
  else if (direction =? DIR_EGRESS) && negb (Bool.eqb forwarded forward_layer) then None
  else if negb (direction =? DIR_EGRESS) && forward_layer then None
  else Some (flag_if (injected cfg skb) PKT_F_IMPOSTOR ||| flag_if is_lo PKT_F_LOOPBACK |||
             flag_if ((direction =? DIR_EGRESS) && forwarded) PKT_F_FORWARD).

(** The mask of the first rule of the packet's family. *)
Definition first_mask (maps : rule_maps) (pkt : parsed_packet) : Z :=
  if ver pkt =? 4 then
    match filter_rules maps with [] => 0 | r :: _ => match_mask (r4_common r) end
  else
    match filter_rules_ipv6 maps with [] => 0 | r :: _ => match_mask (r6_common r) end.

(** [Some match_mask] when the packet matched: fragments whenever the table
    is not empty, other packets when a rule matches. *)
Definition match_packet (k : kernel) (maps : rule_maps) (pkt : parsed_packet) (direction : Z)
    : option Z :=
  if fragment pkt then
    let mm := first_mask maps pkt in
    if negb (has mm MATCH_ENABLED) || has mm MATCH_FALSE then None
    else Some (Z.land mm (Z.lxor 0xFFFF MATCH_DROP))
  else find_rule (lpm k) maps pkt direction.

(** What happens to a packet that matched with [match_mask]. *)
Definition deliver (k : kernel) (cfg : divert_config) (skb : sk_buff) (pkt : parsed_packet)
    (direction flags match_mask : Z) (st : bpf_state) : Z * bpf_state :=
  if has match_mask MATCH_DROP then (TC_ACT_SHOT, increment_stat STAT_DROPPED st)
  else
    let sniff := has match_mask MATCH_SNIFF in
    let snap := if snaplen cfg =? 0 then DIVERT_MAX_PACKET else snaplen cfg in
    let snap := if snap >? DIVERT_MAX_PACKET then DIVERT_MAX_PACKET else snap in
    if (skb_len skb >? snap) && negb sniff then (TC_ACT_UNSPEC, increment_stat STAT_TOO_BIG st)
    else
      let len := if skb_len skb >? snap then snap else skb_len skb in
      let flags := flags ||| flag_if sniff PKT_F_SNIFFED in
      let '(ok, st) := emit_packet k skb pkt direction flags len st in
      if negb ok then (TC_ACT_UNSPEC, st)
      else if sniff then (TC_ACT_UNSPEC, increment_stat STAT_SNIFFED st)
      else (TC_ACT_STOLEN, increment_stat STAT_DIVERTED st).

Definition process_packet (k : kernel) (cfg : divert_config) (maps : rule_maps) (skb : sk_buff)
    (direction : Z) (st : bpf_state) : Z * bpf_state :=
  if has (cfg_flags cfg) CFG_F_SHUTDOWN then (TC_ACT_UNSPEC, st)
  else if owner_gone k cfg then (TC_ACT_UNSPEC, increment_stat STAT_OWNER_GONE st)
  else
    match guard_packet cfg skb direction with
    | None => (TC_ACT_UNSPEC, st)
    | Some flags =>
      match pull_data k (Z.min (skb_len skb) 128) with
      | None => (TC_ACT_UNSPEC, increment_stat STAT_PARSING_ERR st)
      | Some lin =>
        match parse_packet (firstn lin (skb_bytes skb)) (skb_ifindex skb) with
        | None => (TC_ACT_UNSPEC, st)
        | Some pkt =>
          let pkt := with_is_lo pkt (b2z (skb_ifindex skb =? lo_ifindex cfg)) in
          let flags := flags ||| flag_if (fragment pkt) PKT_F_FRAGMENT in
          if fragment pkt && (direction =? DIR_INGRESS) &&
             negb (has (cfg_flags cfg) CFG_F_FRAGMENTS)
          then (TC_ACT_UNSPEC, st)
          else if (direction =? DIR_INGRESS) && has (cfg_flags cfg) CFG_F_FWD_CHECK &&
                  is_forwarded k skb pkt
          then (TC_ACT_UNSPEC, st)
          else
            match match_packet k maps pkt direction with
            | None => (TC_ACT_UNSPEC, st)
            | Some mm => deliver k cfg skb pkt direction flags mm st
            end
        end
      end
    end.

Definition with_mark (skb : sk_buff) (mark priority : Z) : sk_buff :=
  mkSkb (skb_bytes skb) (skb_ifindex skb) (skb_ingress_ifindex skb) mark priority
    (skb_gso_size skb) (skb_gso_segs skb).

Definition BPF_F_INGRESS : Z := 1.

(** Action, packet as modified, state.  [bpf_skb_change_type] only changes
    the packet type, which nothing here reads. *)
Definition tc_divert_ingress (k : kernel) (cfg : divert_config) (maps : rule_maps)
    (skb : sk_buff) (st : bpf_state) : Z * sk_buff * bpf_state :=
  let mark := skb_mark skb in
  if (mark &&& 0xFFFF0000) =? REDIRECT_MARK_MASK then
    let prio := if (skb_priority skb &&& 0xFFFF0000) =? REDIRECT_PRIO_MAGIC
                then skb_priority skb &&& 0xFFFF else 0 in
    (redirect k (mark &&& 0xFFFF) BPF_F_INGRESS, with_mark skb (REDIRECTED_MARK ||| prio) 0, st)
  else
    let skb := if (mark &&& 0xFFFF0000) =? REDIRECTED_MARK
               then with_mark skb (LOOP_PREVENTION_MARK ||| (mark &&& 0xFFFF)) (skb_priority skb)
               else skb in
    let '(act, st) := process_packet k cfg maps skb DIR_INGRESS st in
    (act, skb, st).

Definition tc_divert_egress (k : kernel) (cfg : divert_config) (maps : rule_maps)
    (skb : sk_buff) (st : bpf_state) : Z * sk_buff * bpf_state :=
  let '(act, st) := process_packet k cfg maps skb DIR_EGRESS st in (act, skb, st).

(** ** Copying to the ring *)

Lemma increment_ring key st : ring (increment_stat key st) = ring st.
Proof. unfold increment_stat. now destruct (nth_error _ _). Qed.

(** The masked length the verifier needs is the length. *)
Lemma class_len size len : size = 2 ^ Z.log2 size -> 0 < size -> 1 <= len <= size -> size <= 2 ^ 32 ->
  (u64 (len - 1) &&& (size - 1)) + 1 = len.
Proof.
  intros Hs Hp Hl Hb. unfold u64. rewrite Z.mod_small by lia.
  rewrite (land_mask_mod _ (Z.log2 size)).
  - rewrite <- Hs, Z.mod_small by lia. lia.
  - apply Z.log2_nonneg.
  - rewrite Z.ones_equiv, <- Hs. lia.
Qed.

(** The record written for a packet of [len] bytes. *)
Definition record_of (k : kernel) (skb : sk_buff) (pkt : parsed_packet) (direction flags len : Z)
    : divert_packet_buffer :=
  mkBuffer {| h_pkt_len := skb_len skb; h_ifindex := skb_ifindex skb; h_direction := direction;
              h_l2_len := l2_len pkt; h_cap_len := len; h_timestamp := ktime_emit k;
              h_ingress_ifindex := skb_ingress_ifindex skb; h_gso_size := u16 (skb_gso_size skb);
              h_gso_segs := u16 (skb_gso_segs skb); h_flags := flags |}
    (firstn (Z.to_nat len) (skb_bytes skb)).

(** The size class chosen for [len] bytes. *)
Definition size_class (len : Z) : Z :=
  if len <=? 2048 then 2048 else if len <=? 16384 then 16384 else DIVERT_MAX_PACKET.

Lemma emit_packet_spec k skb pkt direction flags len st : 1 <= len <= DIVERT_MAX_PACKET ->
  emit_packet k skb pkt direction flags len st =
  if negb (reserve k (40 + size_class len)) then (false, increment_stat STAT_RINGBUF_FULL st)
  else if negb (load_bytes k len) then (false, increment_stat STAT_PARSING_ERR st)
  else (true, mkState (stats st) (ring st ++ [record_of k skb pkt direction flags len])).
Proof.
  unfold DIVERT_MAX_PACKET. intros H.
  assert (E : forall size, size = 2048 \/ size = 16384 \/ size = DIVERT_MAX_PACKET -> len <= size ->
    emit_class k size skb pkt direction flags len st =
    if negb (reserve k (40 + size)) then (false, increment_stat STAT_RINGBUF_FULL st)
    else if negb (load_bytes k len) then (false, increment_stat STAT_PARSING_ERR st)
    else (true, mkState (stats st) (ring st ++ [record_of k skb pkt direction flags len]))).
  { intros size Hs Hl. unfold emit_class, record_of.
    assert (Eu : u32 len = len) by (apply Z.mod_small; lia).
    destruct Hs as [->|[->| ->]]; (rewrite class_len by (reflexivity || lia || (vm_compute; congruence)));
      now rewrite Eu. }
  unfold emit_packet, size_class. destruct (len <=? 2048) eqn:E1; [|destruct (len <=? 16384) eqn:E2];
    apply E; auto; unfold DIVERT_MAX_PACKET; lia.
Qed.

(** ** Verdicts *)

Definition snap_limit (cfg : divert_config) : Z :=
  if snaplen cfg =? 0 then DIVERT_MAX_PACKET else Z.min (snaplen cfg) DIVERT_MAX_PACKET.

Lemma snap_limit_eq cfg :
  (let snap := if snaplen cfg =? 0 then DIVERT_MAX_PACKET else snaplen cfg in
   if snap >? DIVERT_MAX_PACKET then DIVERT_MAX_PACKET else snap) = snap_limit cfg.
Proof. unfold snap_limit, DIVERT_MAX_PACKET. cbv zeta. repeat case_if; b2p; lia. Qed.

(** What [deliver] does, case by case. *)
Inductive delivered (k : kernel) (cfg : divert_config) (skb : sk_buff) (pkt : parsed_packet)
    (direction flags mm : Z) (st : bpf_state) : Z * bpf_state -> Prop :=
| dv_drop : has mm MATCH_DROP = true ->
    delivered k cfg skb pkt direction flags mm st (TC_ACT_SHOT, increment_stat STAT_DROPPED st)
| dv_fail key : has mm MATCH_DROP = false ->
    key = STAT_TOO_BIG \/ key = STAT_RINGBUF_FULL \/ key = STAT_PARSING_ERR ->
    delivered k cfg skb pkt direction flags mm st (TC_ACT_UNSPEC, increment_stat key st)
| dv_sniff : has mm MATCH_DROP = false -> has mm MATCH_SNIFF = true ->
    delivered k cfg skb pkt direction flags mm st
      (TC_ACT_UNSPEC, increment_stat STAT_SNIFFED (mkState (stats st)
         (ring st ++ [record_of k skb pkt direction (flags ||| PKT_F_SNIFFED)
                        (Z.min (skb_len skb) (snap_limit cfg))])))
| dv_steal : has mm MATCH_DROP = false -> has mm MATCH_SNIFF = false ->
    skb_len skb <= snap_limit cfg ->
    delivered k cfg skb pkt direction flags mm st
      (TC_ACT_STOLEN, increment_stat STAT_DIVERTED (mkState (stats st)
         (ring st ++ [record_of k skb pkt direction flags (skb_len skb)]))).

Lemma deliver_spec k cfg skb pkt direction flags mm st :
  1 <= skb_len skb -> 0 <= snaplen cfg ->
  delivered k cfg skb pkt direction flags mm st (deliver k cfg skb pkt direction flags mm st).
Proof.
  intros Hl Hs. unfold deliver. cbv zeta in *. pose proof (snap_limit_eq cfg) as E. cbv zeta in E.
  rewrite E. assert (Hsn : 1 <= snap_limit cfg <= DIVERT_MAX_PACKET).
  { unfold snap_limit, DIVERT_MAX_PACKET. case_if; b2p; lia. } clear E.
  destruct (has mm MATCH_DROP) eqn:Ed; [now apply dv_drop|].
  destruct (has mm MATCH_SNIFF) eqn:Es; cbn [negb flag_if].
  - rewrite andb_false_r. replace (if _ >? _ then _ else _) with (Z.min (skb_len skb) (snap_limit cfg))
      by (case_if; b2p; lia).
    rewrite emit_packet_spec by lia.
    destruct (reserve _ _); cbn [negb]; [|apply dv_fail; auto].
    destruct (load_bytes _ _); cbn [negb]; [now apply dv_sniff|apply dv_fail; auto].
  - rewrite andb_true_r. destruct (skb_len skb >? snap_limit cfg) eqn:Eb; [apply dv_fail; auto|]. b2p.
    rewrite emit_packet_spec by lia. rewrite Z.lor_0_r.
    destruct (reserve _ _); cbn [negb]; [|apply dv_fail; auto].
    destruct (load_bytes _ _); cbn [negb]; [now apply dv_steal|apply dv_fail; auto].
Qed.

Lemma parse_nonempty data ifindex pkt : parse_packet data ifindex = Some pkt -> 1 <= zlen data.
Proof.
  unfold parse_packet, find_l2, ethernet_len. repeat case_if; b2p; try discriminate; lia.
Qed.

(** [process_packet] passes the packet without a copy, or delivers it. *)
Lemma process_cases k cfg maps skb direction st :
  (exists st', process_packet k cfg maps skb direction st = (TC_ACT_UNSPEC, st') /\
     ring st' = ring st) \/
  (exists flags lin pkt mm,
     has (cfg_flags cfg) CFG_F_SHUTDOWN = false /\ owner_gone k cfg = false /\
     guard_packet cfg skb direction = Some flags /\
     pull_data k (Z.min (skb_len skb) 128) = Some lin /\
     parse_packet (firstn lin (skb_bytes skb)) (skb_ifindex skb) = Some pkt /\
     let kpkt := with_is_lo pkt (b2z (skb_ifindex skb =? lo_ifindex cfg)) in
     match_packet k maps kpkt direction = Some mm /\ 1 <= skb_len skb /\
     process_packet k cfg maps skb direction st =
       deliver k cfg skb kpkt direction (flags ||| flag_if (fragment kpkt) PKT_F_FRAGMENT) mm st).
Proof.
  unfold process_packet. destruct (has (cfg_flags cfg) CFG_F_SHUTDOWN); [left; eauto|].
  destruct (owner_gone k cfg); [left; eexists; split; [reflexivity|apply increment_ring]|].
  destruct (guard_packet cfg skb direction) as [flags|]; [|left; eauto].
  destruct (pull_data k _) as [lin|] eqn:El;
    [|left; eexists; split; [reflexivity|apply increment_ring]].
  destruct (parse_packet _ _) as [pkt|] eqn:Ep; [|left; eauto].
  set (kpkt := with_is_lo pkt _). case_if; [left; eauto|]. case_if; [left; eauto|].
  destruct (match_packet k maps kpkt direction) as [mm|] eqn:Em; [|left; eauto].
  right. exists flags, lin, pkt, mm. repeat split; auto.
  apply parse_nonempty in Ep. unfold skb_len, zlen in *. rewrite length_firstn in Ep. lia.
Qed.

(** Every packet taken from the stack is in the ring, whole. *)
Lemma record_whole k skb pkt direction flags :
  b_data (record_of k skb pkt direction flags (skb_len skb)) = skb_bytes skb.
Proof. cbn. unfold skb_len, zlen. rewrite Nat2Z.id. apply firstn_all. Qed.

(** Marks. *)
Lemma mark_parts mark prio : mark &&& 0xFFFF = 0 -> 0 <= prio < 2 ^ 16 ->
  (mark ||| prio) &&& 0xFFFF0000 = mark &&& 0xFFFF0000 /\ (mark ||| prio) &&& 0xFFFF = prio.
Proof.
  intros Hm Hp. rewrite !Z.land_lor_distr_l, Hm, Z.lor_0_l. split.
  - replace (prio &&& 0xFFFF0000) with 0; [apply Z.lor_0_r|].
    rewrite <- (Z.mod_small prio (2 ^ 16)) by lia. rewrite <- Z.land_ones, <- Z.land_assoc by lia.
    change (Z.land (Z.ones 16) 0xFFFF0000) with 0. now rewrite Z.land_0_r.
  - change 0xFFFF with (Z.ones 16). rewrite Z.land_ones by lia. apply Z.mod_small. lia.
Qed.

(** A configuration with the library's own mark. *)
Definition default_mark (cfg : divert_config) : Prop :=
  loop_prevention_mark cfg = 0 \/ loop_prevention_mark cfg = LOOP_PREVENTION_MARK.

Lemma injected_default cfg skb prio : default_mark cfg -> 0 <= prio < 2 ^ 16 ->
  skb_mark skb = LOOP_PREVENTION_MARK ||| prio ->
  injected cfg skb = true /\ skb_mark skb &&& 0xFFFF = prio.
Proof.
  intros Hd Hp Hm. destruct (mark_parts LOOP_PREVENTION_MARK prio eq_refl Hp) as [H1 H2].
  unfold injected, prevent_mark. rewrite Hm, H1, H2. split; [|reflexivity].
  destruct Hd as [-> | ->]; reflexivity.
Qed.

(** An injected packet passes handles of the same or a higher priority. *)
Lemma injected_passes k cfg maps skb direction st prio : default_mark cfg -> 0 <= prio < 2 ^ 16 ->
  skb_mark skb = LOOP_PREVENTION_MARK ||| prio -> priority cfg <= prio ->
  exists st', process_packet k cfg maps skb direction st = (TC_ACT_UNSPEC, st') /\ ring st' = ring st /\
    (owner_gone k cfg = false -> st' = st).
Proof.
  intros Hd Hp Hm Hle. destruct (injected_default cfg skb prio Hd Hp Hm) as [Hi Hq].
  assert (G : guard_packet cfg skb direction = None).
  { unfold guard_packet. rewrite Hi, Hq. now replace (priority cfg <=? prio) with true by lia. }
  unfold process_packet. rewrite G. destruct (has _ CFG_F_SHUTDOWN); [eauto|].
  destruct (owner_gone k cfg); [|eauto].
  eexists. split; [reflexivity|]. split; [apply increment_ring|discriminate].
Qed.

(** [c'] acts on a packet injected by the handle of [c]: it steals it, drops
    it or copies it. *)
Definition acts_on_injected (c c' : divert_config) : Prop :=
  exists k maps skb direction st act st',
    skb_mark skb = LOOP_PREVENTION_MARK ||| priority c /\
    process_packet k c' maps skb direction st = (act, st') /\
    (act <> TC_ACT_UNSPEC \/ ring st' <> ring st).

(** A packet injected by each handle of the list after the one before it
    had acted on it. *)
Inductive injection_chain : list divert_config -> Prop :=
| ic_one c : default_mark c -> 0 <= priority c < 2 ^ 16 -> injection_chain [c]
| ic_step c c' cs : default_mark c -> 0 <= priority c < 2 ^ 16 -> acts_on_injected c c' ->
    injection_chain (c' :: cs) -> injection_chain (c :: c' :: cs).

Lemma chain_head c cs : injection_chain (c :: cs) -> default_mark c /\ 0 <= priority c < 2 ^ 16.
Proof. intros H. inversion H; auto. Qed.

Lemma acts_lower c c' : default_mark c' -> 0 <= priority c < 2 ^ 16 -> acts_on_injected c c' ->
  priority c < priority c'.
Proof.
  intros Hd Hp (k & maps & skb & direction & st & act & st' & Hm & E & Ha).
  destruct (Z.lt_ge_cases (priority c) (priority c')) as [|Hge]; [assumption|exfalso].
  destruct (injected_passes k c' maps skb direction st (priority c) Hd Hp Hm Hge) as (st2 & E2 & Hr & _).
  rewrite E in E2. inversion E2; subst. destruct Ha; contradiction.
Qed.

Lemma chain_bound : forall cs c, injection_chain (c :: cs) -> priority c + zlen cs < 2 ^ 16.
Proof.
  induction cs as [|c' cs IH]; intros c H.
  - apply chain_head in H. unfold zlen; cbn. lia.
  - inversion H; subst. match goal with H : injection_chain (c' :: cs) |- _ => pose proof (IH _ H);
      apply chain_head in H; destruct H as [Hd Hp] end.
    pose proof (acts_lower c c' Hd ltac:(assumption) ltac:(assumption)).
    unfold zlen in *; cbn [length] in *. lia.
Qed.

(** The two hops of an inbound injection. *)
Lemma hand_off k k' cfg cfg' maps maps' skb st st' target prio :
  0 <= target < 2 ^ 16 -> 0 <= prio < 2 ^ 16 ->
  skb_mark skb = REDIRECT_MARK_MASK ||| target -> skb_priority skb = REDIRECT_PRIO_MAGIC ||| prio ->
  default_mark cfg' -> priority cfg' <= prio -> owner_gone k' cfg' = false ->
  exists skb2 skb3,
    tc_divert_ingress k cfg maps skb st = (redirect k target BPF_F_INGRESS, skb2, st) /\
    skb_bytes skb2 = skb_bytes skb /\
    tc_divert_ingress k' cfg' maps' skb2 st' = (TC_ACT_UNSPEC, skb3, st') /\
    skb_bytes skb3 = skb_bytes skb /\ skb_mark skb3 = LOOP_PREVENTION_MARK ||| prio.
Proof.
  intros Ht Hp Hm Hq Hd Hle Ho.
  destruct (mark_parts REDIRECT_MARK_MASK target eq_refl Ht) as [M1 M2].
  destruct (mark_parts REDIRECT_PRIO_MAGIC prio eq_refl Hp) as [P1 P2].
  destruct (mark_parts REDIRECTED_MARK prio eq_refl Hp) as [R1 R2].
  set (skb2 := with_mark skb (REDIRECTED_MARK ||| prio) 0).
  set (skb3 := with_mark skb2 (LOOP_PREVENTION_MARK ||| prio) 0).
  exists skb2, skb3. split; [|split; [reflexivity|split; [|split; reflexivity]]].
  - unfold tc_divert_ingress. now rewrite Hm, M1, M2, Hq, P1, P2.
  - unfold tc_divert_ingress. change (skb_mark skb2) with (REDIRECTED_MARK ||| prio). rewrite R1, R2.
    change ((REDIRECTED_MARK &&& 0xFFFF0000) =? REDIRECT_MARK_MASK) with false.
    change ((REDIRECTED_MARK &&& 0xFFFF0000) =? REDIRECTED_MARK) with true. cbn iota.
    change (with_mark skb2 (LOOP_PREVENTION_MARK ||| prio) (skb_priority skb2)) with skb3.
    destruct (injected_passes k' cfg' maps' skb3 DIR_INGRESS st' prio Hd Hp eq_refl Hle) as (s & -> & _ & E).
    now rewrite (E Ho).
Qed.

(** ** Properties *)

(** C9. No packet is lost between kernel and ring: whenever the program
    steals a packet from the stack, the last record of the ring buffer is a
    complete copy of it with the capture metadata, and no other record was
    touched. *)
Theorem stolen_is_copied k cfg maps skb direction st st' :
  0 <= snaplen cfg ->
  process_packet k cfg maps skb direction st = (TC_ACT_STOLEN, st') ->
  exists hdr, ring st' = ring st ++ [mkBuffer hdr (skb_bytes skb)] /\
    h_cap_len hdr = skb_len skb /\ h_pkt_len hdr = skb_len skb /\ h_direction hdr = direction /\
    h_ifindex hdr = skb_ifindex skb.
Proof.
  intros Hs H. destruct (process_cases k cfg maps skb direction st)
    as [(st2 & E & _)|(flags & lin & pkt & mm & _ & _ & _ & _ & _ & Hrest)];
    [rewrite E in H; discriminate|]. cbv zeta in Hrest. destruct Hrest as (_ & Hl & E).
  rewrite E in H. pose proof (deliver_spec k cfg skb (with_is_lo pkt
    (b2z (skb_ifindex skb =? lo_ifindex cfg))) direction
    (flags ||| flag_if (fragment (with_is_lo pkt (b2z (skb_ifindex skb =? lo_ifindex cfg)))) PKT_F_FRAGMENT)
    mm st Hl Hs) as D.
  rewrite H in D. inversion D; subst. rewrite increment_ring. cbn [ring].
  pose proof (record_whole k skb pkt direction 0) as W. cbn in W. unfold record_of. rewrite W.
  eexists. split; [reflexivity|]. repeat split.
Qed.

(** C10. Injection cannot loop: handles act on an injected packet only if
    their TC priority is strictly larger than the injector's, so a chain of
    handles that each capture and re-inject the same packet has at most
    [2^16 - p] members from priority [p] on. *)
Theorem injection_terminates cs c :
  injection_chain (c :: cs) -> zlen (c :: cs) <= 2 ^ 16 - priority c.
Proof. intros H. pose proof (chain_bound cs c H). unfold zlen in *; cbn [length]. lia. Qed.

(** A handle whose owner stopped its heartbeat fails open: every packet
    is passed, nothing is copied and only the owner-gone counter moves. *)
Theorem owner_gone_fails_open k cfg maps skb direction st :
  has (cfg_flags cfg) CFG_F_SHUTDOWN = false -> heartbeat_timeout_ns cfg <> 0 ->
  0 <= heartbeat_ns cfg <= ktime_check k -> ktime_check k < 2 ^ 64 ->
  heartbeat_timeout_ns cfg < ktime_check k - heartbeat_ns cfg ->
  process_packet k cfg maps skb direction st = (TC_ACT_UNSPEC, increment_stat STAT_OWNER_GONE st).
Proof.
  intros Hs Ht Hb Hk Hd. unfold process_packet. rewrite Hs.
  assert (G : owner_gone k cfg = true).
  { unfold owner_gone, u64. rewrite Z.mod_small by lia. lia. }
  now rewrite G.
Qed.

(** The two hops of an inbound injection: a packet sent through [lo] with
    the redirect mark leaves for its target interface carrying the
    injector's priority, and the ingress hook of any handle of that or a
    higher priority there turns the mark into the injection mark and passes
    the packet. *)
Theorem redirect_hand_off k k' cfg cfg' maps maps' skb st st' target prio :
  0 <= target < 2 ^ 16 -> 0 <= prio < 2 ^ 16 ->
  skb_mark skb = REDIRECT_MARK_MASK ||| target -> skb_priority skb = REDIRECT_PRIO_MAGIC ||| prio ->
  default_mark cfg' -> priority cfg' <= prio -> owner_gone k' cfg' = false ->
  exists skb2 skb3,
    tc_divert_ingress k cfg maps skb st = (redirect k target BPF_F_INGRESS, skb2, st) /\
    skb_bytes skb2 = skb_bytes skb /\
    tc_divert_ingress k' cfg' maps' skb2 st' = (TC_ACT_UNSPEC, skb3, st') /\
    skb_bytes skb3 = skb_bytes skb /\ skb_mark skb3 = LOOP_PREVENTION_MARK ||| prio.
Proof. apply hand_off. Qed.
