(* ===== verification/BpfEvents.v ===== *)
(** * The event programs

    [src/ebpfdivert_events.bpf.c]: the cgroup and sockops programs of the
    FLOW and SOCKET layers.  They report events, and refuse a [bind] or a
    [connect] the lowered filter of a blocking SOCKET handle matches.

    A program takes its context and the state (socket storage, reported UDP
    flows, ring buffer) and returns the verdict and the state.  Kernel
    helpers are members of a record. *)

From Stdlib Require Import ZArith List Bool Lia ZifyBool.
From S2P Require Import Prelude WdTypes WdPacket WdHash WdExec PfRange PfAddr PfCube PfBranch.
From S2P Require Import PfInsn PfWalk PfEncode PfSound PfEvents BpfParse BpfMatch.
Import ListNotations.

(** ** Data *)

Definition DIVERT_EVENT_FLOW_ESTABLISHED : Z := 1.
Definition DIVERT_EVENT_FLOW_DELETED : Z := 2.
Definition DIVERT_EVENT_SOCKET_BIND : Z := 3.
Definition DIVERT_EVENT_SOCKET_CONNECT : Z := 4.
Definition DIVERT_EVENT_SOCKET_LISTEN : Z := 5.
Definition DIVERT_EVENT_SOCKET_ACCEPT : Z := 6.
Definition DIVERT_EVENT_SOCKET_CLOSE : Z := 7.

Definition EVF_BLOCKED : Z := 1 <<< 0.
Definition EVF_UDP_RELEASE : Z := 1 <<< 1.

Definition EVCFG_F_SOCKET : Z := 1 <<< 0.
Definition EVCFG_F_BLOCK : Z := 1 <<< 1.
Definition EVCFG_F_SHUTDOWN : Z := 1 <<< 2.

Record event_config : Set := mkEvConfig {
  evc_flags : Z;
  evc_heartbeat_ns : Z;
  evc_heartbeat_timeout_ns : Z
}.

Definition AF_INET : Z := 2.
Definition AF_INET6 : Z := 10.
Definition TCP_CLOSE : Z := 7.

(** [struct sk_info], the storage of a socket. *)
Record sk_info : Set := mkSkInfo {
  si_pid : Z;
  si_local_port : Z;
  si_remote_port : Z;
  si_family : Z;
  si_local_addr : list Z;
  si_remote_addr : list Z
}.

Record udp_flow_key : Set := mkFlowKey {
  fk_cookie : Z;
  fk_remote_addr : list Z;
  fk_remote_port : Z;
  fk_local_port : Z
}.

(** The members of [struct bpf_sock], [bpf_sock_addr], [bpf_sock_ops] and
    [__sk_buff] the programs read; [sk_id] is the identity of the socket. *)
Record bpf_sock : Set := mkBpfSock {
  sk_id : Z;
  sk_family : Z;
  sk_protocol : Z;
  sk_src_port : Z;
  sk_src_ip4 : Z;
  sk_src_ip6 : list Z
}.

Record bpf_sock_addr : Set := mkSockAddr {
  sa_protocol : Z;
  sa_user_port : Z;
  sa_user_ip4 : Z;
  sa_user_ip6 : list Z;
  sa_id : Z;
  sa_sk : option bpf_sock
}.

Record bpf_sock_ops : Set := mkSockOps {
  so_op : Z;
  so_family : Z;
  so_local_port : Z;
  so_remote_port : Z;
  so_local_ip4 : Z;
  so_remote_ip4 : Z;
  so_local_ip6 : list Z;
  so_remote_ip6 : list Z;
  so_arg1 : Z;
  so_id : Z;
  so_sk : option bpf_sock;
  so_cb_flags : Z
}.

(** A packet from its network header on, with the socket it belongs to as
    [bpf_sk_fullsock] gives it. *)
Record cgroup_skb : Set := mkCgSkb {
  cs_bytes : list Z;
  cs_id : Z;
  cs_sk : option bpf_sock
}.

(** Helpers: the clock at the two calls of a program, the current process,
    the cookie of a socket, whether storage can be created and the ring has
    room, and the LRU map's update. *)
Record ev_kernel : Type := mkEvKernel {
  ek_ktime_check : Z;
  ek_ktime : Z;
  have_pid_helper : bool;
  pid_tgid : Z;
  cookie : Z -> Z;
  storage_create : Z -> bool;
  ring_room : bool;
  lru_update : udp_flow_key -> list udp_flow_key -> list udp_flow_key
}.

Record ev_state : Set := mkEvState {
  sk_info_map : list (Z * sk_info);
  udp_flows : list udp_flow_key;
  event_ring : list divert_event
}.

(** [event_rules]: [EVENT_RULES_MAX] entries, all zero until written. *)
Definition zero_event_rule : event_rule :=
  mkEventRule 0 0 0 0 0 0 0 0 0 0 0 0 zero16 zero16 zero16 zero16.

Definition loaded_events (rules : list event_rule) : list event_rule :=
  rules ++ repeat zero_event_rule (Z.to_nat EVENT_RULES_MAX - length rules).

(** ** Helpers *)

Definition live_config (k : ev_kernel) (cfg : event_config) : bool :=
  if has (evc_flags cfg) EVCFG_F_SHUTDOWN then false
  else if negb (evc_heartbeat_timeout_ns cfg =? 0) &&
          (u64 (ek_ktime_check k - evc_heartbeat_ns cfg) >? evc_heartbeat_timeout_ns cfg)
  then false else true.

Definition v4_mapped (addr_be : Z) : list Z := repeat 0 10 ++ [0xFF; 0xFF] ++ le32 addr_be.

Definition v6_copy (words_be : list Z) : list Z :=
  le32 (nth 0 words_be 0) ++ le32 (nth 1 words_be 0) ++ le32 (nth 2 words_be 0) ++ le32 (nth 3 words_be 0).

Definition is_loopback (a : list Z) : bool :=
  if (ld64 a 0 =? 0) && (byte_at a 8 =? 0) && (byte_at a 9 =? 0) && (byte_at a 10 =? 0xFF) &&
     (byte_at a 11 =? 0xFF)
  then byte_at a 12 =? 127
  else (ld64 a 0 =? 0) && (ld64 a 8 =? 2 ^ 56).

Definition addr_match (a ip mask : list Z) : bool :=
  ((Z.lxor (ld64 a 0) (ld64 ip 0) &&& ld64 mask 0) =? 0) &&
  ((Z.lxor (ld64 a 8) (ld64 ip 8) &&& ld64 mask 8) =? 0).

Definition rule_match (r : event_rule) (e : divert_event) : bool :=
  let mm := er_match_mask r in
  let inv := er_invert_mask r in
  if negb (has mm EVM_ENABLED) then false
  else if has mm EVM_EVENT && negb (has (event_mask r) (1 <<< ev_event e)) then false
  else if has mm EVM_FAMILY && negb (ev_family e =? er_family r) then false
  else if fails mm inv EVM_PROTO (ev_protocol e =? er_proto r) then false
  else if fails mm inv EVM_LPORT
            ((ev_local_port e >=? lport_lo r) && (ev_local_port e <=? lport_hi r)) then false
  else if fails mm inv EVM_RPORT
            ((ev_remote_port e >=? rport_lo r) && (ev_remote_port e <=? rport_hi r)) then false
  else if fails mm inv EVM_PID ((ev_pid e >=? pid_lo r) && (ev_pid e <=? pid_hi r)) then false
  else if fails mm inv EVM_LADDR (addr_match (ev_local_addr e) (laddr r) (lmask r)) then false
  else if fails mm inv EVM_RADDR (addr_match (ev_remote_addr e) (raddr r) (rmask r)) then false
  else if has mm EVM_LOOPBACK &&
          negb (b2z (is_loopback (ev_remote_addr e) || is_loopback (ev_local_addr e)) =? er_loopback r)
  then false
  else true.

(** The loop of [should_block] over the table. *)
Fixpoint block_loop (rules : list event_rule) (e : divert_event) : bool :=
  match rules with
  | [] => false
  | r :: rules =>
    if negb (has (er_match_mask r) EVM_ENABLED) then false
    else if rule_match r e then true
    else block_loop rules e
  end.

Definition should_block (cfg : event_config) (rules : list event_rule) (e : divert_event) : bool :=
  if negb (has (evc_flags cfg) EVCFG_F_BLOCK) then false else block_loop rules e.

Definition submit (k : ev_kernel) (e : divert_event) (st : ev_state) : ev_state :=
  if ring_room k then mkEvState (sk_info_map st) (udp_flows st) (event_ring st ++ [e]) else st.

Definition current_pid (k : ev_kernel) : Z := if have_pid_helper k then u32 (pid_tgid k >>> 32) else 0.

(** [bpf_sk_storage_get]: the first entry of the socket. *)
Definition storage_get (st : ev_state) (id : Z) : option sk_info :=
  match find (fun x => fst x =? id) (sk_info_map st) with Some x => Some (snd x) | None => None end.

Definition storage_set (st : ev_state) (id : Z) (i : sk_info) : ev_state :=
  mkEvState ((id, i) :: filter (fun x => negb (fst x =? id)) (sk_info_map st)) (udp_flows st)
    (event_ring st).

Definition zero_sk_info : sk_info := mkSkInfo 0 0 0 0 zero16 zero16.

(** With [BPF_SK_STORAGE_GET_F_CREATE]. *)
Definition storage_get_create (k : ev_kernel) (st : ev_state) (id : Z) : option sk_info :=
  match storage_get st id with
  | Some i => Some i
  | None => if storage_create k id then Some zero_sk_info else None
  end.

Definition sk_pid (st : ev_state) (sk : option bpf_sock) : Z :=
  match sk with
  | None => 0
  | Some sk => match storage_get st (sk_id sk) with Some i => si_pid i | None => 0 end
  end.

Definition remember (k : ev_kernel) (sk : option bpf_sock) (e : divert_event) (st : ev_state)
    : ev_state :=
  match sk with
  | None => st
  | Some sk =>
    match storage_get_create k st (sk_id sk) with
    | None => st
    | Some i =>
      storage_set st (sk_id sk)
        (mkSkInfo (si_pid i)
           (if ev_local_port e =? 0 then si_local_port i else ev_local_port e)
           (if ev_remote_port e =? 0 then si_remote_port i else ev_remote_port e)
           (ev_family e) (ev_local_addr e)
           (if ev_remote_port e =? 0 then si_remote_addr i else ev_remote_addr e))
    end
  end.

Definition set_ev_flags (e : divert_event) (f : Z) : divert_event :=
  mkEvent (ev_timestamp e) (ev_endpoint_id e) (ev_parent_endpoint_id e) (ev_pid e) (ev_event e)
    (ev_protocol e) (ev_family e) (ev_flags e ||| f) (ev_local_port e) (ev_remote_port e)
    (ev_local_addr e) (ev_remote_addr e).

Definition set_ev_event (e : divert_event) (event : Z) : divert_event :=
  mkEvent (ev_timestamp e) (ev_endpoint_id e) (ev_parent_endpoint_id e) (ev_pid e) event
    (ev_protocol e) (ev_family e) (ev_flags e) (ev_local_port e) (ev_remote_port e)
    (ev_local_addr e) (ev_remote_addr e).

(** ** Programs *)

(** [ev_sock_create] *)
Definition ev_sock_create (k : ev_kernel) (sk : bpf_sock) (st : ev_state) : Z * ev_state :=
  (1, match storage_get_create k st (sk_id sk) with
      | None => st
      | Some i => storage_set st (sk_id sk)
          (mkSkInfo (current_pid k) (si_local_port i) (si_remote_port i) (si_family i)
             (si_local_addr i) (si_remote_addr i))
      end).

(** The end of [on_bind] and [on_connect]: refuse, or remember and allow. *)
Definition decide_event (k : ev_kernel) (cfg : event_config) (rules : list event_rule)
    (sk : option bpf_sock) (e : divert_event) (st : ev_state) : Z * ev_state :=
  if should_block cfg rules e then (0, submit k (set_ev_flags e EVF_BLOCKED) st)
  else (1, submit k e (remember k sk e st)).

(** The event [on_bind] builds. *)
Definition bind_event (k : ev_kernel) (sk : bpf_sock) (v6 : bool) : divert_event :=
  mkEvent (ek_ktime k) (cookie k (sk_id sk)) 0 (current_pid k) DIVERT_EVENT_SOCKET_BIND
    (u8 (sk_protocol sk)) (if v6 then 6 else 4) 0 (u16 (sk_src_port sk)) 0
    (if v6 then v6_copy (sk_src_ip6 sk) else v4_mapped (sk_src_ip4 sk)) zero16.

Definition on_bind (k : ev_kernel) (cfg : event_config) (rules : list event_rule) (sk : bpf_sock)
    (v6 : bool) (st : ev_state) : Z * ev_state :=
  if negb (live_config k cfg) || negb (has (evc_flags cfg) EVCFG_F_SOCKET) then (1, st)
  else decide_event k cfg rules (Some sk) (bind_event k sk v6) st.

Definition ev_post_bind4 k cfg rules sk st := on_bind k cfg rules sk false st.
Definition ev_post_bind6 k cfg rules sk st := on_bind k cfg rules sk true st.

(** The event [on_connect] builds: the local endpoint is that of an earlier
    event of the socket, if it was of the same family. *)
Definition connect_event (k : ev_kernel) (ctx : bpf_sock_addr) (v6 : bool) (st : ev_state)
    : divert_event :=
  let family := if v6 then 6 else 4 in
  let bound :=
    match sa_sk ctx with
    | None => None
    | Some sk =>
      match storage_get st (sk_id sk) with
      | Some i => if si_family i =? family then Some i else None
      | None => None
      end
    end in
  let local := match bound with Some i => si_local_addr i | None => zero16 end in
  mkEvent (ek_ktime k) (cookie k (sa_id ctx)) 0 (current_pid k) DIVERT_EVENT_SOCKET_CONNECT
    (u8 (sa_protocol ctx)) family 0
    (match bound with Some i => si_local_port i | None => 0 end)
    (ntohs (u16 (sa_user_port ctx)))
    (if negb v6 && (byte_at local 10 =? 0) then v4_mapped 0 else local)
    (if v6 then v6_copy (sa_user_ip6 ctx) else v4_mapped (sa_user_ip4 ctx)).

Definition on_connect (k : ev_kernel) (cfg : event_config) (rules : list event_rule)
    (ctx : bpf_sock_addr) (v6 : bool) (st : ev_state) : Z * ev_state :=
  if negb (live_config k cfg) || negb (has (evc_flags cfg) EVCFG_F_SOCKET) then (1, st)
  else decide_event k cfg rules (sa_sk ctx) (connect_event k ctx v6 st) st.

Definition ev_connect4 k cfg rules ctx st := on_connect k cfg rules ctx false st.
Definition ev_connect6 k cfg rules ctx st := on_connect k cfg rules ctx true st.

(** The endpoints of the event [ev_sock_release] builds. *)
Definition release_event (k : ev_kernel) (sk : bpf_sock) (st : ev_state) : divert_event :=
  let family := if sk_family sk =? AF_INET6 then 6 else 4 in
  let i := match storage_get st (sk_id sk) with Some i => i | None => zero_sk_info end in
  let fix4 a := if (family =? 4) && (byte_at a 10 =? 0) then v4_mapped 0 else a in
  mkEvent (ek_ktime k) (cookie k (sk_id sk)) 0 (si_pid i) 0 (u8 (sk_protocol sk)) family 0
    (si_local_port i) (si_remote_port i) (fix4 (si_local_addr i)) (fix4 (si_remote_addr i)).

Definition ev_sock_release (k : ev_kernel) (cfg : event_config) (sk : bpf_sock) (st : ev_state)
    : Z * ev_state :=
  if negb (live_config k cfg) then (1, st)
  else if negb (sk_family sk =? AF_INET) && negb (sk_family sk =? AF_INET6) then (1, st)
  else
    let e := release_event k sk st in
    if has (evc_flags cfg) EVCFG_F_SOCKET then
      (1, submit k (set_ev_event e DIVERT_EVENT_SOCKET_CLOSE) st)
    else if ev_protocol e =? IPPROTO_UDP then
      (1, submit k (set_ev_flags (set_ev_event e DIVERT_EVENT_FLOW_DELETED) EVF_UDP_RELEASE) st)
    else (1, st).

(** [fill_sockops]: the event and the state after [remember]. *)
Definition fill_sockops (k : ev_kernel) (s : bpf_sock_ops) (st : ev_state) : divert_event * ev_state :=
  let v6 := so_family s =? AF_INET6 in
  let e := mkEvent (ek_ktime k) (cookie k (so_id s)) 0 (sk_pid st (so_sk s)) 0 IPPROTO_TCP
    (if v6 then 6 else 4) 0 (u16 (so_local_port s)) (u16 (ntohl (so_remote_port s)))
    (if v6 then v6_copy (so_local_ip6 s) else v4_mapped (so_local_ip4 s))
    (if v6 then v6_copy (so_remote_ip6 s) else v4_mapped (so_remote_ip4 s)) in
  (e, remember k (so_sk s) e st).

Definition BPF_SOCK_OPS_ACTIVE_ESTABLISHED_CB : Z := 4.
Definition BPF_SOCK_OPS_PASSIVE_ESTABLISHED_CB : Z := 5.
Definition BPF_SOCK_OPS_STATE_CB : Z := 10.
Definition BPF_SOCK_OPS_TCP_LISTEN_CB : Z := 11.
Definition BPF_SOCK_OPS_STATE_CB_FLAG : Z := 1 <<< 2.

(** Verdict, callback flags of the socket, state. *)
Definition ev_sockops (k : ev_kernel) (cfg : event_config) (s : bpf_sock_ops) (st : ev_state)
    : Z * Z * ev_state :=
  let op := so_op s in
  let socket_layer := has (evc_flags cfg) EVCFG_F_SOCKET in
  if negb (live_config k cfg) || (negb (so_family s =? AF_INET) && negb (so_family s =? AF_INET6))
  then (1, so_cb_flags s, st)
  else if op =? BPF_SOCK_OPS_TCP_LISTEN_CB then
    if negb socket_layer then (1, so_cb_flags s, st)
    else
      let '(e, st) := fill_sockops k s st in
      (1, so_cb_flags s, submit k (set_ev_event e DIVERT_EVENT_SOCKET_LISTEN) st)
  else if (op =? BPF_SOCK_OPS_PASSIVE_ESTABLISHED_CB) || (op =? BPF_SOCK_OPS_ACTIVE_ESTABLISHED_CB) then
    let '(e, st) := fill_sockops k s st in
    if socket_layer then
      if negb (op =? BPF_SOCK_OPS_PASSIVE_ESTABLISHED_CB) then (1, so_cb_flags s, st)
      else (1, so_cb_flags s, submit k (set_ev_event e DIVERT_EVENT_SOCKET_ACCEPT) st)
    else
      (1, so_cb_flags s ||| BPF_SOCK_OPS_STATE_CB_FLAG,
       submit k (set_ev_event e DIVERT_EVENT_FLOW_ESTABLISHED) st)
  else if op =? BPF_SOCK_OPS_STATE_CB then
    if socket_layer || negb (so_arg1 s =? TCP_CLOSE) then (1, so_cb_flags s, st)
    else
      let '(e, st) := fill_sockops k s st in
      (1, so_cb_flags s, submit k (set_ev_event e DIVERT_EVENT_FLOW_DELETED) st)
  else (1, so_cb_flags s, st).

(** [bpf_skb_load_bytes]: all of the bytes or an error. *)
Definition skb_load (p : list Z) (o n : Z) : option (list Z) :=
  if o + n <=? zlen p then Some (slice p o n) else None.

(** The addresses and the offset of the UDP header of a packet that belongs
    to a UDP flow: family, local, remote, [thoff]. *)
Definition udp_addresses (p : list Z) (egress : bool) : option (Z * list Z * list Z * Z) :=
  match skb_load p 0 1 with
  | None => None
  | Some b =>
    let ver := byte_at b 0 >>> 4 in
    if ver =? 4 then
      match skb_load p 0 20 with
      | None => None
      | Some ip =>
        if negb (byte_at ip 9 =? IPPROTO_UDP) || negb ((ntohs (ld16 ip 6) &&& 0x1FFF) =? 0) then None
        else
          let src := v4_mapped (ld32 ip 12) in
          let dst := v4_mapped (ld32 ip 16) in
          Some (4, if egress then src else dst, if egress then dst else src,
                (byte_at ip 0 &&& 0x0F) * 4)
      end
    else if ver =? 6 then
      match skb_load p 0 40 with
      | None => None
      | Some ip6 =>
        if negb (byte_at ip6 6 =? IPPROTO_UDP) then None
        else
          let src := slice ip6 8 16 in
          let dst := slice ip6 24 16 in
          Some (6, if egress then src else dst, if egress then dst else src, 40)
      end
    else None
  end.

Fixpoint list_eqb (a b : list Z) : bool :=
  match a, b with
  | [], [] => true
  | x :: a, y :: b => (x =? y) && list_eqb a b
  | _, _ => false
  end.

Definition key_eqb (a b : udp_flow_key) : bool :=
  (fk_cookie a =? fk_cookie b) && list_eqb (fk_remote_addr a) (fk_remote_addr b) &&
  (fk_remote_port a =? fk_remote_port b) && (fk_local_port a =? fk_local_port b).

(** The event and the key of a packet of a UDP flow. *)
Definition udp_flow_event (k : ev_kernel) (skb : cgroup_skb) (egress : bool) (st : ev_state)
    : option (divert_event * udp_flow_key) :=
  match udp_addresses (cs_bytes skb) egress with
  | None => None
  | Some (family, local, remote, thoff) =>
    match skb_load (cs_bytes skb) (thoff &&& 0xFF) 4 with
    | None => None
    | Some ports =>
      let p0 := ntohs (ld16 ports 0) in
      let p1 := ntohs (ld16 ports 2) in
      let lport := if egress then p0 else p1 in
      let rport := if egress then p1 else p0 in
      let id := cookie k (cs_id skb) in
      Some (mkEvent (ek_ktime k) id 0 (sk_pid st (cs_sk skb)) 0 IPPROTO_UDP family 0 lport rport
              local remote,
            mkFlowKey id remote rport lport)
    end
  end.

Definition udp_flow (k : ev_kernel) (cfg : event_config) (skb : cgroup_skb) (egress : bool)
    (st : ev_state) : Z * ev_state :=
  if negb (live_config k cfg) || has (evc_flags cfg) EVCFG_F_SOCKET then (1, st)
  else
    match cs_sk skb with
    | None => (1, st)
    | Some sk =>
      if negb (sk_protocol sk =? IPPROTO_UDP) then (1, st)
      else
        match udp_flow_event k skb egress st with
        | None => (1, st)
        | Some (e, key) =>
          if existsb (key_eqb key) (udp_flows st) then (1, st)
          else
            let st := mkEvState (sk_info_map st) (lru_update k key (udp_flows st)) (event_ring st) in
            (1, submit k (set_ev_event e DIVERT_EVENT_FLOW_ESTABLISHED) (remember k (Some sk) e st))
        end
    end.

Definition ev_skb_egress k cfg skb st := udp_flow k cfg skb true st.
Definition ev_skb_ingress k cfg skb st := udp_flow k cfg skb false st.

(** ** Rules *)

(** An event as the programs build it. *)
Record event_ok (e : divert_event) : Prop := {
  eo_event : 0 <= ev_event e <= 15;
  eo_proto : 0 <= ev_protocol e <= 255;
  eo_ports : 0 <= ev_local_port e <= 65535 /\ 0 <= ev_remote_port e <= 65535;
  eo_pid : 0 <= ev_pid e <= 0xFFFFFFFF;
  eo_addrs : addr16_ok (ev_local_addr e) /\ addr16_ok (ev_remote_addr e)
}.

Lemma lxor_mask x i m : ((Z.lxor x i &&& m) =? 0) = ((x &&& m) =? (i &&& m)).
Proof.
  assert (E : Z.lxor x i &&& m = Z.lxor (x &&& m) (i &&& m)).
  { apply Z.bits_inj'. intros n Hn. rewrite Z.land_spec, !Z.lxor_spec, !Z.land_spec.
    destruct (Z.testbit x n), (Z.testbit i n), (Z.testbit m n); reflexivity. }
  apply eq_true_iff_eq. rewrite !Z.eqb_eq, E. apply Z.lxor_eq_0_iff.
Qed.

Lemma addr_match_bytes a ip m : addr16_ok a -> addr16_ok ip -> addr16_ok m ->
  addr_match a ip m = bytes_eq a ip m.
Proof.
  intros [La Ha] [Li Hi] [Lm Hm]. unfold addr_match. rewrite !lxor_mask. now apply eq_u64_bytes.
Qed.

(** The address condition of a rule, against the encoding. *)
Lemma addr_cond s x : addr16_ok x ->
  fails (flag_if (ea_active s) 1) (flag_if (ea_active s && ea_invert s) 1) 1
    (addr_match x (if ea_active s then to_net16 (ea_ip s) else zero16)
       (if ea_active s then to_net16 (ea_mask s) else zero16)) = negb (ea_ok6 s (words_from_net x)).
Proof.
  intros Hx. unfold ea_ok6, fails. destruct (ea_active s); [|reflexivity]. cbn [flag_if andb].
  rewrite addr_match_bytes by auto using to_net16_ok.
  destruct Hx as [L B]. change (words_from_net x) with (net_words x). rewrite to_net16_words by assumption.
  destruct (ea_invert s), (bytes_eq _ _ _); reflexivity.
Qed.

(** The port and process conditions. *)
Lemma range_cond e v lo hi : (er_active e = true -> lo = er_start e /\ hi = er_end e) ->
  fails (flag_if (er_active e) 1) (flag_if (er_active e && er_invert e) 1) 1 ((v >=? lo) && (v <=? hi)) =
  negb (er_ok e v).
Proof.
  intros H. unfold er_ok, fails. destruct (er_active e); [|reflexivity]. destruct (H eq_refl) as [-> ->].
  cbn [flag_if andb]. destruct (er_invert e), ((v >=? er_start e) && (v <=? er_end e)); reflexivity.
Qed.

Lemma fails_flag mm inv f b1 b2 x : has mm f = b1 -> has inv f = b2 ->
  fails mm inv f x = fails (flag_if b1 1) (flag_if b2 1) 1 x.
Proof. intros H1 H2. unfold fails. rewrite H1, H2. destruct b1, b2; reflexivity. Qed.

(** What the rule of a cube tests. *)
Definition rule_conds (c : pf_cube) (v : ev_view) : bool :=
  (range_is_full (c_event c) 15 || range_contains (c_event c) (v_event v)) &&
  ((c_ver c =? 0) || (c_ver c =? v_family v)) &&
  ev_ok (encode_range32 (c_proto c) 255) (v_proto v) &&
  er_ok (encode_range32 (c_sport c) 65535) (v_lport v) &&
  er_ok (encode_range32 (c_dport c) 65535) (v_rport v) &&
  er_ok (encode_range32 (c_pid c) 0xFFFFFFFF) (v_pid v) &&
  ea_ok6 (encode_addr (c_src c)) (v_laddr v) && ea_ok6 (encode_addr (c_dst c)) (v_raddr v).

Lemma event_bit r i : 0 <= i <= 15 -> has (event_bits r 0 16 0) (1 <<< i) = range_contains r i.
Proof.
  intros H. rewrite Z.shiftl_1_l, has_pow2 by lia. rewrite event_bits_spec by lia.
  rewrite Z.bits_0. replace ((0 <=? i) && (i <? 0 + Z.of_nat 16)) with true by lia. reflexivity.
Qed.

Lemma rule_match_emit c e : event_inv c -> event_ok e ->
  rule_match (fst (emit_event_rule c)) e = rule_conds c (event_view e).
Proof.
  intros [Hver Hev Hp Hl Hr Hd Hs Ht] [He Hproto [Hlp Hrp] Hpid [Hla Hra]].
  unfold rule_match, emit_event_rule, rule_conds.
  cbn [fst er_match_mask er_invert_mask pid_lo pid_hi event_mask lport_lo lport_hi rport_lo rport_hi
       er_proto er_family er_loopback laddr lmask raddr rmask
       v_event v_family v_proto v_lport v_rport v_pid v_laddr v_raddr event_view].
  set (p := encode_range32 (c_proto c) 255). set (l := encode_range32 (c_sport c) 65535).
  set (r := encode_range32 (c_dport c) 65535). set (d := encode_range32 (c_pid c) 0xFFFFFFFF).
  set (s := encode_addr (c_src c)). set (t := encode_addr (c_dst c)).
  set (p_on := er_active p && (er_start p =? er_end p)). set (on := range_is_full (c_event c) 15).
  pose proof (encode_range32_range _ _ Hp) as Rp. pose proof (encode_range32_range _ _ Hl) as Rl.
  pose proof (encode_range32_range _ _ Hr) as Rr. fold p in Rp. fold l in Rl. fold r in Rr.
  clearbody p l r d s t.
  set (mm := EVM_ENABLED ||| _ ||| _ ||| _ ||| _ ||| _ ||| _ ||| _ ||| _).
  set (inv := _ ||| _ ||| _ ||| _ ||| _ ||| _).
  assert (M : has mm EVM_ENABLED = true /\ has mm EVM_EVENT = negb on /\
    has mm EVM_FAMILY = negb (c_ver c =? 0) /\ has mm EVM_PROTO = p_on /\ has mm EVM_LPORT = er_active l /\
    has mm EVM_RPORT = er_active r /\ has mm EVM_PID = er_active d /\ has mm EVM_LADDR = ea_active s /\
    has mm EVM_RADDR = ea_active t /\ has mm EVM_LOOPBACK = false).
  { subst mm. clear. repeat split; has_consts; reflexivity. }
  assert (I : has inv EVM_PROTO = p_on && er_invert p /\ has inv EVM_LPORT = er_active l && er_invert l /\
    has inv EVM_RPORT = er_active r && er_invert r /\ has inv EVM_PID = er_active d && er_invert d /\
    has inv EVM_LADDR = ea_active s && ea_invert s /\ has inv EVM_RADDR = ea_active t && ea_invert t).
  { subst inv. clear. repeat split; has_consts; reflexivity. }
  clearbody mm inv. destruct M as (-> & -> & -> & M1 & M2 & M3 & M4 & M5 & M6 & ->).
  destruct I as (I1 & I2 & I3 & I4 & I5 & I6).
  rewrite (fails_flag _ _ _ _ _ _ M2 I2), (fails_flag _ _ _ _ _ _ M3 I3), (fails_flag _ _ _ _ _ _ M4 I4),
    (fails_flag _ _ _ _ _ _ M5 I5), (fails_flag _ _ _ _ _ _ M6 I6).
  rewrite !addr_cond by assumption.
  rewrite (range_cond l) by (intros ->; split; apply u16_small; tauto).
  rewrite (range_cond r) by (intros ->; split; apply u16_small; tauto).
  rewrite (range_cond d) by (intros ->; split; reflexivity).
  unfold fails. rewrite M1, I1. cbn [negb andb]. rewrite !if_false, !negb_involutive, andb_true_r, !andb_assoc.
  assert (E1 : negb (negb on && negb (has (if negb on then event_bits (c_event c) 0 16 0 else 0)
    (1 <<< ev_event e))) = on || range_contains (c_event c) (ev_event e)).
  { destruct on; [reflexivity|]. cbn [negb andb orb]. rewrite event_bit by exact He. apply negb_involutive. }
  assert (E2 : negb (negb (c_ver c =? 0) && negb (ev_family e =? (if c_ver c =? 0 then 0 else u8 (c_ver c)))) =
    (c_ver c =? 0) || (c_ver c =? ev_family e)).
  { destruct Hver as [->|[-> | ->]]; try reflexivity; cbn; rewrite negb_involutive; apply Z.eqb_sym. }
  rewrite E1, E2. reflexivity.
Qed.

Lemma range_full_mem max r v : range_is_full r max = true -> 0 <= v <= max -> range_contains r v = true.
Proof.
  intros H Hv. apply range_full_spec in H as (E1 & E2 & E3). apply range_contains_spec.
  rewrite E1, E2, E3. split; [lia|intros []].
Qed.

(** The conditions of a rule against the cube it was made from. *)
Lemma rule_conds_ok c e : event_inv c -> event_ok e ->
  (event_mem (event_view e) c = true -> rule_conds c (event_view e) = true) /\
  (snd (emit_event_rule c) = true -> rule_conds c (event_view e) = true ->
   c_exact c = true /\ event_mem (event_view e) c = true).
Proof.
  intros [Hver Hev Hp Hl Hr Hd [Hs Hs6] [Ht Ht6]] [He Hproto [Hlp Hrp] Hpid [[La Ba] [Lb Bb]]].
  destruct (encode_value32_ok (c_proto c) (ev_protocol e) Hp Hproto) as [P1 P2].
  destruct (encode_range32_ok _ (c_sport c) (ev_local_port e) Hl Hlp) as [L1 L2].
  destruct (encode_range32_ok _ (c_dport c) (ev_remote_port e) Hr Hrp) as [R1 R2].
  destruct (encode_range32_ok _ (c_pid c) (ev_pid e) Hd Hpid) as [D1 D2].
  assert (Wn : forall b, bytes b -> wf128 (words_from_net b))
    by (intros b Hb; unfold words_from_net; repeat split; cbn; now apply be32_range).
  destruct (encode_addr6_ok (c_src c) (words_from_net (ev_local_addr e)) Hs Hs6 (Wn _ Ba)) as [S1 S2].
  destruct (encode_addr6_ok (c_dst c) (words_from_net (ev_remote_addr e)) Ht Ht6 (Wn _ Bb)) as [T1 T2].
  pose proof (range_full_mem 15 (c_event c) (ev_event e)) as F.
  unfold rule_conds, event_mem, emit_event_rule. cbn [snd].
  cbn [v_event v_family v_proto v_lport v_rport v_pid v_laddr v_raddr event_view].
  set (p := encode_range32 (c_proto c) 255) in *. set (l := encode_range32 (c_sport c) 65535) in *.
  set (r := encode_range32 (c_dport c) 65535) in *. set (d := encode_range32 (c_pid c) 4294967295) in *.
  set (s := encode_addr (c_src c)) in *. set (t := encode_addr (c_dst c)) in *. clearbody p l r d s t.
  rewrite !andb_true_iff, !orb_true_iff, !negb_true_iff. split.
  - intros H. decompose [and] H. repeat split; auto.
  - intros X H. decompose [and] X. decompose [and] H. split; [assumption|]. repeat split; auto.
    destruct H as [[[[[[[[H|H] _] _] _] _] _] _] _]; auto.
Qed.

(** ** The table *)

Lemma emitted_enabled c : has (er_match_mask (fst (emit_event_rule c))) EVM_ENABLED = true.
Proof. unfold emit_event_rule. cbn [fst er_match_mask]. has_consts. reflexivity. Qed.

Lemma block_loop_cubes e : forall cubes pad, Forall (fun r => er_match_mask r = 0) pad ->
  block_loop (map (fun c => fst (emit_event_rule c)) cubes ++ pad) e =
  existsb (fun c => rule_match (fst (emit_event_rule c)) e) cubes.
Proof.
  induction cubes as [|c cubes IH]; intros pad Hp; cbn [map app existsb].
  - destruct Hp as [|r pad E Hp]; [reflexivity|]. cbn. now rewrite E.
  - cbn [block_loop]. rewrite emitted_enabled. cbn [negb]. rewrite IH by exact Hp.
    now destruct (rule_match _ e).
Qed.

(** The rules of an exactly lowered filter, against the evaluator. *)
Lemma block_exact a d obj rules e : event_agrees a (event_view e) d -> event_ok e -> args_ok a ->
  wf_filter (a_layer a) obj = true -> forallb event_lowerable obj = true ->
  pf_lower_events obj EVENT_RULES_MAX = (rules, true) ->
  block_loop (loaded_events rules) e = accepts a obj 0.
Proof.
  intros Hag He Hargs Hwf Hlow. unfold pf_lower_events.
  destruct (event_run_sound a _ d obj Hag Hargs Hwf Hlow) as [->|[S X]]; [discriminate|].
  destruct (_ || _); [discriminate|]. intros E. apply pair_equal_spec in E as [<- Ex].
  unfold loaded_events. rewrite block_loop_cubes by (apply Forall_forall; intros r Hr; now apply repeat_spec in Hr as ->).
  rewrite forallb_forall in Ex. apply eq_true_iff_eq. rewrite existsb_exists. split.
  - intros (c & Hc & Hm). destruct (X c Hc) as [Hi Hy]. rewrite (rule_match_emit c e Hi He) in Hm.
    destruct (proj2 (rule_conds_ok c e Hi He) (Ex c Hc) Hm) as [Hx Hmem]. now apply Hy.
  - intros Ha. destruct (S (event_init_mem a _ d Hag) Ha) as (c & Hc & Hm). exists c. split; [exact Hc|].
    destruct (X c Hc) as [Hi _]. rewrite (rule_match_emit c e Hi He). now apply (proj1 (rule_conds_ok c e Hi He)).
Qed.

(** ** What the programs do *)

Lemma submit_ring k e st : event_ring (submit k e st) =
  event_ring st ++ (if ring_room k then [e] else []).
Proof. unfold submit. destruct (ring_room k); cbn; [reflexivity|now rewrite app_nil_r]. Qed.

(** ** Steps of the system

    The programs run one after the other on the sockets of the host; the
    kernel copies the storage of a listening socket to an accepted one
    ([BPF_F_CLONE]).  The ring is the sequence of the events submitted so
    far.  [K] restricts what the helpers do. *)
Inductive ev_step (K : ev_kernel -> Prop) (cfg : event_config) (rules : list event_rule)
    : ev_state -> ev_state -> Prop :=
| step_create k sk st : K k -> ev_step K cfg rules st (snd (ev_sock_create k sk st))
| step_bind k sk v6 st : K k -> ev_step K cfg rules st (snd (on_bind k cfg rules sk v6 st))
| step_connect k ctx v6 st : K k -> ev_step K cfg rules st (snd (on_connect k cfg rules ctx v6 st))
| step_release k sk st : K k -> ev_step K cfg rules st (snd (ev_sock_release k cfg sk st))
| step_sockops k s st : K k -> ev_step K cfg rules st (snd (ev_sockops k cfg s st))
| step_udp k skb egress st : K k -> bytes (cs_bytes skb) ->
    ev_step K cfg rules st (snd (udp_flow k cfg skb egress st))
| step_clone id id' i st : storage_get st id = Some i ->
    ev_step K cfg rules st (storage_set st id' i).

Inductive ev_reachable (K : ev_kernel -> Prop) (cfg : event_config) (rules : list event_rule)
    : ev_state -> Prop :=
| er_init : ev_reachable K cfg rules (mkEvState [] [] [])
| er_step st st' : ev_reachable K cfg rules st -> ev_step K cfg rules st st' ->
    ev_reachable K cfg rules st'.

(** *** Well-formed storage and events *)

Record info_ok (i : sk_info) : Prop := {
  io_pid : 0 <= si_pid i <= 0xFFFFFFFF;
  io_ports : 0 <= si_local_port i <= 65535 /\ 0 <= si_remote_port i <= 65535;
  io_addrs : addr16_ok (si_local_addr i) /\ addr16_ok (si_remote_addr i)
}.

Definition state_ok (st : ev_state) : Prop :=
  Forall (fun x => info_ok (snd x)) (sk_info_map st) /\ Forall event_ok (event_ring st).

Lemma le32_byte v : bytes (le32 v).
Proof. unfold le32, bytes, is_byte. repeat constructor; apply Z.mod_pos_bound; lia. Qed.

Lemma v4_mapped_ok v : addr16_ok (v4_mapped v).
Proof.
  split; [reflexivity|]. unfold v4_mapped. repeat (apply bytes_app; [|]); try apply le32_byte;
    repeat constructor; unfold is_byte; lia.
Qed.

Lemma v6_copy_ok w : addr16_ok (v6_copy w).
Proof. split; [reflexivity|]. unfold v6_copy. repeat apply bytes_app; apply le32_byte. Qed.

Lemma zero_info_ok : info_ok zero_sk_info.
Proof. split; cbn; try lia. split; apply zero16_ok. Qed.

Lemma u8_bound z : 0 <= u8 z <= 255.
Proof. unfold u8. pose proof (Z.mod_pos_bound z (2 ^ 8)). lia. Qed.

Lemma u16_bound z : 0 <= u16 z <= 65535.
Proof. unfold u16. pose proof (Z.mod_pos_bound z (2 ^ 16)). lia. Qed.

Lemma land_u16 a m : 0 <= m < 2 ^ 16 -> 0 <= a &&& m < 2 ^ 16.
Proof.
  intros H. replace (a &&& m) with ((a &&& m) mod 2 ^ 16); [apply Z.mod_pos_bound; lia|].
  rewrite <- Z.land_ones, <- Z.land_assoc, Z.land_ones, Z.mod_small by lia. reflexivity.
Qed.

Lemma ntohs_bound z : 0 <= ntohs z <= 65535.
Proof.
  assert (0 <= ntohs z < 2 ^ 16) by (apply lor_u16; apply land_u16; lia). lia.
Qed.

Lemma current_pid_ok k : 0 <= current_pid k <= 0xFFFFFFFF.
Proof.
  unfold current_pid. destruct (have_pid_helper k); [|lia]. unfold u32.
  pose proof (Z.mod_pos_bound (pid_tgid k >>> 32) (2 ^ 32)). lia.
Qed.

#[local] Arguments v4_mapped : simpl never.
#[local] Arguments v6_copy : simpl never.
#[local] Arguments zero16 : simpl never.

Create HintDb ev.
#[local] Hint Resolve u8_bound u16_bound ntohs_bound current_pid_ok v4_mapped_ok v6_copy_ok zero16_ok zero_info_ok : ev.

Lemma storage_get_ok st id i : state_ok st -> storage_get st id = Some i -> info_ok i.
Proof.
  intros [H _] E. unfold storage_get in E. destruct (find _ _) as [x|] eqn:F; [|discriminate].
  inversion E; subst. apply find_some in F as [F _]. rewrite Forall_forall in H. now apply (H x).
Qed.

Lemma get_create_ok k st id i : state_ok st -> storage_get_create k st id = Some i -> info_ok i.
Proof.
  intros H. unfold storage_get_create. destruct (storage_get st id) eqn:E.
  - intros [= <-]. now apply (storage_get_ok st id).
  - destruct (storage_create k id); [|discriminate]. intros [= <-]. apply zero_info_ok.
Qed.

Lemma storage_set_ok st id i : state_ok st -> info_ok i -> state_ok (storage_set st id i).
Proof.
  intros [H1 H2] Hi. split; [|exact H2]. cbn. constructor; [exact Hi|].
  apply Forall_forall. intros x Hx. apply filter_In in Hx. rewrite Forall_forall in H1. now apply H1.
Qed.

Lemma submit_ok k e st : state_ok st -> event_ok e -> state_ok (submit k e st).
Proof.
  intros [H1 H2] He. unfold submit. destruct (ring_room k); [|split; assumption].
  split; [exact H1|]. cbn. apply Forall_app. auto.
Qed.

Lemma set_flags_ok e f : event_ok e -> event_ok (set_ev_flags e f).
Proof. intros []. split; assumption. Qed.

Lemma set_event_ok e x : event_ok e -> 0 <= x <= 15 -> event_ok (set_ev_event e x).
Proof. intros []. split; assumption. Qed.

Lemma remember_ok k sk e st : state_ok st -> event_ok e -> state_ok (remember k sk e st).
Proof.
  intros H He. unfold remember. destruct sk as [sk|]; [|exact H].
  destruct (storage_get_create k st (sk_id sk)) as [i|] eqn:E; [|exact H].
  destruct (get_create_ok _ _ _ _ H E) as [Ip [Il Ir] [Ia Ib]]. destruct He as [_ _ [El Er] _ [Ea Eb]].
  apply storage_set_ok; [exact H|]. split; cbn; auto; split; try case_if; auto.
Qed.

#[local] Hint Resolve storage_set_ok submit_ok set_flags_ok set_event_ok remember_ok : ev.

Lemma bind_event_ok k sk v6 : event_ok (bind_event k sk v6).
Proof.
  unfold bind_event. split; cbn; auto with ev; try (unfold DIVERT_EVENT_SOCKET_BIND; lia).
  - split; [auto with ev|lia].
  - split; [destruct v6|]; auto with ev.
Qed.

Lemma connect_event_ok k ctx v6 st : state_ok st -> event_ok (connect_event k ctx v6 st).
Proof.
  intros H. unfold connect_event. set (bound := match sa_sk ctx with None => None | Some _ => _ end).
  assert (B : forall i, bound = Some i -> info_ok i).
  { intros i E. subst bound. destruct (sa_sk ctx) as [sk|]; [|discriminate].
    destruct (storage_get st (sk_id sk)) as [j|] eqn:G; [|discriminate]. case_if_in E; [|discriminate].
    inversion E; subst. now apply (storage_get_ok st (sk_id sk)). }
  clearbody bound.
  destruct bound as [i|]; [destruct (B i eq_refl) as [_ [Il _] [Ia _]]|];
    (split; cbn [ev_event ev_protocol ev_local_port ev_remote_port ev_pid ev_local_addr ev_remote_addr];
     [unfold DIVERT_EVENT_SOCKET_CONNECT; lia|auto with ev|split; [lia|apply ntohs_bound]|auto with ev|]);
    (split; [case_if; auto with ev|destruct v6; auto with ev]).
Qed.

Lemma release_event_ok k sk st : state_ok st -> event_ok (release_event k sk st).
Proof.
  intros H. unfold release_event.
  assert (I : info_ok match storage_get st (sk_id sk) with Some i => i | None => zero_sk_info end)
    by (destruct (storage_get _ _) eqn:E; [now apply (storage_get_ok st (sk_id sk))|auto with ev]).
  destruct I as [Ip [Il Ir] [Ia Ib]]. split; cbn; auto with ev; try lia. split; case_if; auto with ev.
Qed.

Lemma sk_pid_ok st sk : state_ok st -> 0 <= sk_pid st sk <= 0xFFFFFFFF.
Proof.
  intros H. unfold sk_pid. destruct sk as [sk|]; [|lia].
  destruct (storage_get st (sk_id sk)) as [i|] eqn:E; [|lia]. now apply (storage_get_ok st (sk_id sk)).
Qed.

Lemma fill_sockops_ok k s st : state_ok st ->
  event_ok (fst (fill_sockops k s st)) /\ state_ok (snd (fill_sockops k s st)).
Proof.
  intros H. unfold fill_sockops. cbn [fst snd]. match goal with |- event_ok ?e /\ _ => assert (O : event_ok e) end.
  { split; cbn; auto using sk_pid_ok with ev; try (unfold IPPROTO_TCP; lia). split; case_if; auto with ev. }
  auto with ev.
Qed.

Lemma udp_event_ok k skb egress st e key : state_ok st -> bytes (cs_bytes skb) ->
  udp_flow_event k skb egress st = Some (e, key) -> event_ok e.
Proof.
  intros H Hb. unfold udp_flow_event. destruct (udp_addresses _ _) as [[[[fam local] remote] th]|] eqn:A; [|discriminate].
  assert (Aok : addr16_ok local /\ addr16_ok remote).
  { unfold udp_addresses in A. destruct (skb_load _ 0 1); [|discriminate]. case_if_in A.
    - destruct (skb_load _ 0 20); [|discriminate]. case_if_in A; [discriminate|]. inversion A; subst.
      destruct egress; auto with ev.
    - case_if_in A; [|discriminate]. destruct (skb_load _ 0 40) as [ip6|] eqn:L; [|discriminate].
      case_if_in A; [discriminate|]. unfold skb_load in L. case_if_in L; [|discriminate]. b2p.
      inversion L; subst ip6. assert (Z40 : zlen (slice (cs_bytes skb) 0 40) = 40) by (apply zlen_slice; lia).
      assert (S : forall o, 0 <= o <= 24 -> addr16_ok (slice (slice (cs_bytes skb) 0 40) o 16)).
      { intros o Ho. split; [|now apply bytes_slice, bytes_slice].
        pose proof (zlen_slice (slice (cs_bytes skb) 0 40) o 16) as Q. unfold zlen in *. lia. }
      inversion A; subst. destruct egress; split; apply S; lia. }
  destruct (skb_load _ _ 4) as [ports|]; [|discriminate]. intros [= <- <-].
  split; cbn; auto using sk_pid_ok; try (unfold IPPROTO_UDP; lia).
  split; destruct egress; auto with ev.
Qed.

Lemma decide_event_ok k cfg rules sk e st : state_ok st -> event_ok e ->
  state_ok (snd (decide_event k cfg rules sk e st)).
Proof. intros H He. unfold decide_event. case_if; cbn [snd]; auto with ev. Qed.

Lemma udp_flow_ok k cfg skb egress st : state_ok st -> bytes (cs_bytes skb) ->
  state_ok (snd (udp_flow k cfg skb egress st)).
Proof.
  intros H Hb. unfold udp_flow. case_if; [exact H|]. destruct (cs_sk skb) as [sk|]; [|exact H].
  case_if; [exact H|]. destruct (udp_flow_event k skb egress st) as [[e key]|] eqn:E; [|exact H].
  case_if; [exact H|]. cbn [snd]. pose proof (udp_event_ok _ _ _ _ _ _ H Hb E) as He.
  apply submit_ok; [apply remember_ok; [exact H|exact He]|].
  apply set_event_ok; [exact He|unfold DIVERT_EVENT_FLOW_ESTABLISHED; lia].
Qed.

Lemma sockops_ok k cfg s st : state_ok st -> state_ok (snd (ev_sockops k cfg s st)).
Proof.
  intros H. unfold ev_sockops. destruct (fill_sockops_ok k s st H) as [He Hs].
  destruct (fill_sockops k s st) as [e st']. cbn [fst snd] in *.
  unfold DIVERT_EVENT_SOCKET_LISTEN, DIVERT_EVENT_SOCKET_ACCEPT, DIVERT_EVENT_FLOW_ESTABLISHED,
    DIVERT_EVENT_FLOW_DELETED.
  repeat case_if; cbn [snd]; auto; apply submit_ok; auto; apply set_event_ok; auto; lia.
Qed.

Lemma release_ok k cfg sk st : state_ok st -> state_ok (snd (ev_sock_release k cfg sk st)).
Proof.
  intros H. pose proof (release_event_ok k sk st H) as He. unfold ev_sock_release.
  unfold DIVERT_EVENT_SOCKET_CLOSE, DIVERT_EVENT_FLOW_DELETED.
  repeat case_if; cbn [snd]; auto; apply submit_ok; auto; try apply set_flags_ok; apply set_event_ok; auto; lia.
Qed.

Lemma create_ok k sk st : state_ok st -> state_ok (snd (ev_sock_create k sk st)).
Proof.
  intros H. unfold ev_sock_create. cbn [snd]. destruct (storage_get_create _ _ _) as [i|] eqn:E; [|exact H].
  destruct (get_create_ok _ _ _ _ H E). apply storage_set_ok; [exact H|]. split; cbn; auto with ev.
Qed.

Lemma step_state_ok K cfg rules st st' : ev_step K cfg rules st st' -> state_ok st -> state_ok st'.
Proof.
  intros [k sk st0 Hk|k sk v6 st0 Hk|k ctx v6 st0 Hk|k sk st0 Hk|k s st0 Hk|k skb egress st0 Hk Hb|id id' i st0 Hi] H.
  - now apply create_ok.
  - unfold on_bind. case_if; [exact H|]. apply decide_event_ok; [exact H|apply bind_event_ok].
  - unfold on_connect. case_if; [exact H|]. apply decide_event_ok; [exact H|now apply connect_event_ok].
  - now apply release_ok.
  - now apply sockops_ok.
  - now apply udp_flow_ok.
  - apply storage_set_ok; [exact H|]. exact (storage_get_ok st0 id i H Hi).
Qed.

Lemma reachable_state_ok K cfg rules st : ev_reachable K cfg rules st -> state_ok st.
Proof. induction 1 as [|st st' _ IH S]; [split; constructor|]. exact (step_state_ok _ _ _ _ _ S IH). Qed.

(** *** UDP flows are reported once *)

(** The LRU map while it is not full. *)
Definition keeps_flows (k : ev_kernel) : Prop :=
  forall key l x, In x (lru_update k key l) <-> x = key \/ In x l.

Definition is_flow (e : divert_event) : bool :=
  (ev_event e =? DIVERT_EVENT_FLOW_ESTABLISHED) && (ev_protocol e =? IPPROTO_UDP).

Definition event_key (e : divert_event) : udp_flow_key :=
  mkFlowKey (ev_endpoint_id e) (ev_remote_addr e) (ev_remote_port e) (ev_local_port e).

Definition flows_ok (st : ev_state) : Prop :=
  NoDup (map event_key (filter is_flow (event_ring st))) /\
  forall e, In e (event_ring st) -> is_flow e = true -> In (event_key e) (udp_flows st).

Lemma list_eqb_eq : forall a b, list_eqb a b = true <-> a = b.
Proof.
  induction a as [|x a IH]; intros [|y b]; cbn; try (split; congruence).
  rewrite andb_true_iff, Z.eqb_eq, IH. split; [intros [-> ->]; reflexivity|intros [= -> ->]; auto].
Qed.

Lemma key_eqb_eq a b : key_eqb a b = true <-> a = b.
Proof.
  unfold key_eqb. rewrite !andb_true_iff, !Z.eqb_eq, list_eqb_eq. destruct a, b; cbn. split.
  - intros [[[-> ->] ->] ->]. reflexivity.
  - intros [= -> -> -> ->]. auto.
Qed.

(** Same flows and, up to events of other kinds, the same ring. *)
Definition no_flow (st st' : ev_state) : Prop :=
  udp_flows st' = udp_flows st /\
  exists l, event_ring st' = event_ring st ++ l /\ forall e, In e l -> is_flow e = false.

Lemma no_flow_refl st : no_flow st st.
Proof. split; [reflexivity|]. exists []. rewrite app_nil_r. split; [reflexivity|intros e []]. Qed.

Lemma no_flow_storage st id i : no_flow st (storage_set st id i).
Proof. exact (no_flow_refl st). Qed.

Lemma no_flow_submit k e st st' : no_flow st st' -> is_flow e = false -> no_flow st (submit k e st').
Proof.
  intros (F & l & R & N) He. unfold submit. destruct (ring_room k); [|split; eauto].
  split; [exact F|]. exists (l ++ [e]). cbn. rewrite R, app_assoc. split; [reflexivity|].
  intros x Hx. apply in_app_iff in Hx as [Hx|[<-|[]]]; auto.
Qed.

Lemma no_flow_remember k sk e st : no_flow st (remember k sk e st).
Proof.
  unfold remember. destruct sk; [|apply no_flow_refl]. destruct (storage_get_create _ _ _); [apply no_flow_storage|apply no_flow_refl].
Qed.

Lemma filter_none {A} (f : A -> bool) l : (forall x, In x l -> f x = false) -> filter f l = [].
Proof.
  induction l as [|x l IH]; intros H; [reflexivity|]. cbn. rewrite H by (now left).
  apply IH. intros y Hy. apply H. now right.
Qed.

Lemma no_flow_ok st st' : flows_ok st -> no_flow st st' -> flows_ok st'.
Proof.
  intros [N I] (F & l & R & O). unfold flows_ok. rewrite F, R, filter_app, (filter_none is_flow l O), app_nil_r.
  split; [exact N|]. intros e He Hf. apply in_app_iff in He as [He|He]; [auto|].
  rewrite (O e He) in Hf. discriminate.
Qed.

Lemma decide_no_flow k cfg rules sk e st : is_flow e = false ->
  no_flow st (snd (decide_event k cfg rules sk e st)).
Proof.
  intros H. unfold decide_event. case_if; cbn [snd]; apply no_flow_submit; auto using no_flow_refl, no_flow_remember.
Qed.

Lemma sockops_no_flow k cfg s st : no_flow st (snd (ev_sockops k cfg s st)).
Proof.
  unfold ev_sockops, fill_sockops. set (e := mkEvent _ _ _ _ _ IPPROTO_TCP _ _ _ _ _ _).
  repeat case_if; cbn [snd]; auto using no_flow_refl, no_flow_remember;
    apply no_flow_submit; auto using no_flow_remember; reflexivity.
Qed.

Lemma release_no_flow k cfg sk st : no_flow st (snd (ev_sock_release k cfg sk st)).
Proof.
  unfold ev_sock_release. repeat case_if; cbn [snd]; auto using no_flow_refl;
    apply no_flow_submit; auto using no_flow_refl.
Qed.

Lemma udp_event_key k skb egress st e key : udp_flow_event k skb egress st = Some (e, key) ->
  event_key e = key.
Proof.
  unfold udp_flow_event. destruct (udp_addresses _ _) as [[[[fam local] remote] th]|]; [|discriminate].
  destruct (skb_load _ _ 4); [|discriminate]. now intros [= <- <-].
Qed.

Lemma udp_flow_once k cfg skb egress st : keeps_flows k -> flows_ok st ->
  flows_ok (snd (udp_flow k cfg skb egress st)).
Proof.
  intros Hk H. unfold udp_flow. case_if; [exact H|]. destruct (cs_sk skb) as [sk|]; [|exact H].
  case_if; [exact H|]. destruct (udp_flow_event k skb egress st) as [[e key]|] eqn:E; [|exact H].
  pose proof (udp_event_key _ _ _ _ _ _ E) as Ek. case_if; [exact H|]. cbn [snd].
  set (st1 := mkEvState _ (lru_update _ _ _) _). destruct H as [N I].
  assert (Hn : ~ In key (udp_flows st)).
  { intros Hin. assert (X : existsb (key_eqb key) (udp_flows st) = true)
      by (apply existsb_exists; exists key; split; [exact Hin|now apply key_eqb_eq]). congruence. }
  destruct (no_flow_remember k (Some sk) e st1) as (F & l & R & O).
  unfold flows_ok. rewrite submit_ring, R, filter_app, filter_app, (filter_none is_flow l O), app_nil_r.
  assert (Fs : udp_flows (submit k (set_ev_event e DIVERT_EVENT_FLOW_ESTABLISHED) (remember k (Some sk) e st1)) =
    lru_update k key (udp_flows st)) by (unfold submit; destruct (ring_room k); exact F).
  rewrite Fs. split.
  - destruct (ring_room k); cbn [filter]; [|now rewrite app_nil_r].
    case_if; [|now rewrite app_nil_r]. rewrite map_app. apply NoDup_app; [exact N|repeat constructor; auto|].
    intros x Hx [<-|[]]. change (event_key (set_ev_event e DIVERT_EVENT_FLOW_ESTABLISHED)) with (event_key e) in Hx.
    rewrite Ek in Hx. apply in_map_iff in Hx as (y & Ey & Hy). apply filter_In in Hy as [Hy1 Hy2].
    apply Hn. rewrite <- Ey. now apply I.
  - intros x Hx Hf. apply Hk. rewrite !in_app_iff in Hx. destruct Hx as [[Hx|Hx]|Hx].
    + right. now apply I.
    + rewrite (O x Hx) in Hf. discriminate.
    + left. destruct (ring_room k); [|destruct Hx]. destruct Hx as [<-|[]]. exact Ek.
Qed.

Lemma step_flows_ok cfg rules st st' : ev_step keeps_flows cfg rules st st' -> flows_ok st -> flows_ok st'.
Proof.
  intros [k sk st0 Hk|k sk v6 st0 Hk|k ctx v6 st0 Hk|k sk st0 Hk|k s st0 Hk|k skb egress st0 Hk Hb|id id' i st0 Hi] H.
  - apply (no_flow_ok st0); [exact H|]. unfold ev_sock_create. cbn [snd].
    destruct (storage_get_create _ _ _); [apply no_flow_storage|apply no_flow_refl].
  - apply (no_flow_ok st0); [exact H|]. unfold on_bind. case_if; [apply no_flow_refl|now apply decide_no_flow].
  - apply (no_flow_ok st0); [exact H|]. unfold on_connect. case_if; [apply no_flow_refl|now apply decide_no_flow].
  - apply (no_flow_ok st0); [exact H|apply release_no_flow].
  - apply (no_flow_ok st0); [exact H|apply sockops_no_flow].
  - now apply udp_flow_once.
  - exact H.
Qed.

(** A UDP datagram, read off the bytes of the packet: the first fragment of an
    IPv4 packet with a header of [ihl] words, or an IPv6 packet without
    extension headers; family, source and destination address (IPv4-mapped
    for IPv4), source and destination port. *)
Inductive datagram (p : list Z) : Z -> list Z -> list Z -> Z -> Z -> Prop :=
| datagram4 ihl : 5 <= ihl <= 15 -> byte_at p 0 = 0x40 + ihl -> byte_at p 9 = 17 -> be16 p 6 mod 2 ^ 13 = 0 ->
    ihl * 4 + 4 <= zlen p ->
    datagram p 4 (repeat 0 10 ++ [0xFF; 0xFF] ++ slice p 12 4) (repeat 0 10 ++ [0xFF; 0xFF] ++ slice p 16 4)
      (be16 p (ihl * 4)) (be16 p (ihl * 4 + 2))
| datagram6 : 0x60 <= byte_at p 0 <= 0x6F -> byte_at p 6 = 17 -> 44 <= zlen p ->
    datagram p 6 (slice p 8 16) (slice p 24 16) (be16 p 40) (be16 p 42).

Lemma list4 (l : list Z) : zlen l = 4 -> l = [byte_at l 0; byte_at l 1; byte_at l 2; byte_at l 3].
Proof. unfold zlen. destruct l as [|a [|b [|c [|d [|e l]]]]]; cbn [length]; intros H; try lia. reflexivity. Qed.

Lemma le32_ld32 p o : bytes p -> 0 <= o -> o + 4 <= zlen p -> le32 (ld32 p o) = slice p o 4.
Proof.
  intros Hp Ho Hl. rewrite (list4 (slice p o 4)) by (apply zlen_slice; lia). rewrite !byte_at_slice by lia.
  unfold le32, ld32. rewrite Z.add_0_r. pose proof (byte_at_range p o Hp). pose proof (byte_at_range p (o + 1) Hp).
  pose proof (byte_at_range p (o + 2) Hp). pose proof (byte_at_range p (o + 3) Hp). repeat f_equal; solve_byte.
Qed.

Lemma slice_slice p n o m : 0 <= o -> 0 <= m -> o + m <= n -> slice (slice p 0 n) o m = slice p o m.
Proof.
  intros Ho Hm H. unfold slice. cbn [Z.to_nat skipn]. rewrite skipn_firstn_comm, firstn_firstn. f_equal. lia.
Qed.

Lemma ports_of p o : bytes p -> 0 <= o -> o + 4 <= zlen p ->
  ntohs (ld16 (slice p o 4) 0) = be16 p o /\ ntohs (ld16 (slice p o 4) 2) = be16 p (o + 2).
Proof.
  intros Hp Ho Hl. rewrite !ntohs_ld16 by auto with divert. unfold be16. rewrite !byte_at_slice by lia.
  rewrite Z.add_0_r. replace (o + (2 + 1)) with (o + 2 + 1) by lia. auto.
Qed.

(** A datagram gives an event with its endpoints, seen from the socket. *)
Lemma datagram_event k skb (egress : bool) st family src dst sport dport : bytes (cs_bytes skb) ->
  datagram (cs_bytes skb) family src dst sport dport ->
  let local := if egress then src else dst in
  let remote := if egress then dst else src in
  let lport := if egress then sport else dport in
  let rport := if egress then dport else sport in
  udp_flow_event k skb egress st =
    Some (mkEvent (ek_ktime k) (cookie k (cs_id skb)) 0 (sk_pid st (cs_sk skb)) 0 IPPROTO_UDP family 0 lport rport local remote,
          mkFlowKey (cookie k (cs_id skb)) remote rport lport).
Proof.
  set (p := cs_bytes skb). intros Hp D. unfold udp_flow_event, udp_addresses. fold p.
  assert (L1 : 44 <= zlen p \/ 24 <= zlen p) by (destruct D; lia).
  unfold skb_load at 1. destruct (Z.leb_spec (0 + 1) (zlen p)); [|lia]. rewrite byte_at_slice by lia. rewrite !Z.add_0_l.
  destruct D as [ihl Hi H0 H9 Hf Hl|H0 H6 Hl].
  - assert (E0 : byte_at p 0 >>> 4 = 4) by (rewrite H0, Z.shiftr_div_pow2 by lia; change (2 ^ 4) with 16; solve_byte).
    rewrite E0. cbn [Z.eqb Pos.eqb]. unfold skb_load at 1. destruct (Z.leb_spec (0 + 20) (zlen p)); [|lia].
    assert (Hf' : ntohs (ld16 (slice p 0 20) 6) &&& 0x1FFF = 0).
    { rewrite ntohs_ld16 by auto with divert. rewrite (land_mask_mod _ 13) by (lia || reflexivity). unfold be16 in *.
      rewrite !byte_at_slice by lia. exact Hf. }
    rewrite Hf', !byte_at_slice by lia. rewrite !Z.add_0_l. rewrite H9. cbn [Z.eqb Pos.eqb negb orb IPPROTO_UDP].
    assert (Et : byte_at p 0 &&& 0x0F = ihl) by (rewrite H0, (land_mask_mod _ 4) by (lia || reflexivity); change (2 ^ 4) with 16; solve_byte).
    rewrite Et. replace ((ihl * 4) &&& 0xFF) with (ihl * 4) by (rewrite (land_mask_mod _ 8) by (lia || reflexivity); rewrite Z.mod_small; lia).
    unfold skb_load. destruct (Z.leb_spec (ihl * 4 + 4) (zlen p)); [|lia]. destruct (ports_of p (ihl * 4) Hp) as [-> ->]; [lia..|].
    unfold v4_mapped. rewrite !le32_ld32 by (auto with divert; try lia; rewrite zlen_slice by lia; lia).
    rewrite !slice_slice by lia. reflexivity.
  - assert (E0 : byte_at p 0 >>> 4 = 6) by (rewrite Z.shiftr_div_pow2 by lia; change (2 ^ 4) with 16; solve_byte).
    rewrite E0. cbn [Z.eqb Pos.eqb]. unfold skb_load at 1. destruct (Z.leb_spec (0 + 40) (zlen p)); [|lia].
    rewrite !byte_at_slice by lia. rewrite !Z.add_0_l. rewrite H6. cbn [Z.eqb Pos.eqb negb IPPROTO_UDP].
    change (40 &&& 0xFF) with 40. unfold skb_load. destruct (Z.leb_spec (40 + 4) (zlen p)); [|lia].
    destruct (ports_of p 40 Hp) as [-> ->]; [lia..|]. rewrite !slice_slice by lia. reflexivity.
Qed.

(** Every known flow was reported. *)
Definition flows_known (st : ev_state) : Prop :=
  forall key, In key (udp_flows st) -> In key (map event_key (filter is_flow (event_ring st))).

Lemma no_flow_known st st' : flows_known st -> no_flow st st' -> flows_known st'.
Proof.
  intros Kn (F & l & R & O) key. rewrite F, R, filter_app, map_app, in_app_iff. intros Hk. left. now apply Kn.
Qed.

Lemma udp_event_proto k skb egress st e key : udp_flow_event k skb egress st = Some (e, key) ->
  ev_protocol e = IPPROTO_UDP.
Proof.
  unfold udp_flow_event. destruct (udp_addresses _ _) as [[[[fam local] remote] th]|]; [|discriminate].
  destruct (skb_load _ _ 4); [|discriminate]. now intros [= <- <-].
Qed.

(** A new flow with room in the ring. *)
Lemma udp_flow_new k cfg skb egress st sk e key : keeps_flows k -> ring_room k = true ->
  live_config k cfg = true -> has (evc_flags cfg) EVCFG_F_SOCKET = false -> cs_sk skb = Some sk ->
  sk_protocol sk = IPPROTO_UDP -> udp_flow_event k skb egress st = Some (e, key) ->
  existsb (key_eqb key) (udp_flows st) = false ->
  let st' := snd (udp_flow k cfg skb egress st) in
  udp_flows st' = lru_update k key (udp_flows st) /\
  filter is_flow (event_ring st') = filter is_flow (event_ring st) ++ [set_ev_event e DIVERT_EVENT_FLOW_ESTABLISHED].
Proof.
  intros Hk Hr Hl Hs Ec Ep E X. unfold udp_flow. rewrite Hl, Hs, Ec, Ep, E, X. cbn [negb orb snd].
  change (IPPROTO_UDP =? IPPROTO_UDP) with true. cbn [negb snd].
  set (st1 := mkEvState _ (lru_update _ _ _) _). destruct (no_flow_remember k (Some sk) e st1) as (F & l & R & O).
  cbv zeta. split; [unfold submit; rewrite Hr; exact F|].
  rewrite submit_ring, Hr, R, !filter_app, (filter_none is_flow l O), app_nil_r. cbn [filter].
  replace (is_flow _) with true; [reflexivity|].
  unfold is_flow. cbn [set_ev_event ev_event ev_protocol]. now rewrite (udp_event_proto _ _ _ _ _ _ E).
Qed.

Lemma udp_flow_reports k cfg skb egress st sk e key : flows_known st -> keeps_flows k -> ring_room k = true ->
  live_config k cfg = true -> has (evc_flags cfg) EVCFG_F_SOCKET = false -> cs_sk skb = Some sk ->
  sk_protocol sk = IPPROTO_UDP -> udp_flow_event k skb egress st = Some (e, key) ->
  In key (map event_key (filter is_flow (event_ring (snd (udp_flow k cfg skb egress st))))).
Proof.
  intros Kn Hk Hr Hl Hs Ec Ep E. destruct (existsb (key_eqb key) (udp_flows st)) eqn:X.
  - replace (snd (udp_flow k cfg skb egress st)) with st.
    + apply Kn. apply existsb_exists in X as (y & Hy & Ey). apply key_eqb_eq in Ey. now subst.
    + unfold udp_flow. rewrite Hl, Hs, Ec, Ep, E, X. reflexivity.
  - destruct (udp_flow_new k cfg skb egress st sk e key Hk Hr Hl Hs Ec Ep E X) as [_ ->].
    rewrite map_app. apply in_or_app. right. left. exact (udp_event_key _ _ _ _ _ _ E).
Qed.

Lemma udp_flow_known k cfg skb egress st : keeps_flows k -> ring_room k = true -> flows_known st ->
  flows_known (snd (udp_flow k cfg skb egress st)).
Proof.
  intros Hk Hr Kn. destruct (live_config k cfg) eqn:Hl; [|unfold udp_flow; now rewrite Hl].
  destruct (has (evc_flags cfg) EVCFG_F_SOCKET) eqn:Hs; [unfold udp_flow; now rewrite Hl, Hs|].
  destruct (cs_sk skb) as [sk|] eqn:Ec; [|unfold udp_flow; now rewrite Hl, Hs, Ec].
  destruct (Z.eqb_spec (sk_protocol sk) IPPROTO_UDP) as [Ep|Ep];
    [|apply Z.eqb_neq in Ep; unfold udp_flow; now rewrite Hl, Hs, Ec, Ep].
  destruct (udp_flow_event k skb egress st) as [[e key]|] eqn:E; [|unfold udp_flow; now rewrite Hl, Hs, Ec, Ep, E].
  destruct (existsb (key_eqb key) (udp_flows st)) eqn:X; [unfold udp_flow; now rewrite Hl, Hs, Ec, Ep, E, X|].
  destruct (udp_flow_new k cfg skb egress st sk e key Hk Hr Hl Hs Ec Ep E X) as [F R].
  intros key' Hin. rewrite R, map_app. rewrite F in Hin. apply in_or_app.
  apply Hk in Hin as [->|Hin]; [right; left; exact (udp_event_key _ _ _ _ _ _ E)|left; now apply Kn].
Qed.

Lemma step_weaken (K K' : ev_kernel -> Prop) cfg rules st st' : (forall k, K k -> K' k) ->
  ev_step K cfg rules st st' -> ev_step K' cfg rules st st'.
Proof.
  intros W [k sk st0 Hk|k sk v6 st0 Hk|k ctx v6 st0 Hk|k sk st0 Hk|k s st0 Hk|k skb egress st0 Hk Hb|id id' i st0 Hi].
  - apply step_create. auto.
  - apply step_bind. auto.
  - apply step_connect. auto.
  - apply step_release. auto.
  - apply step_sockops. auto.
  - apply step_udp; auto.
  - apply step_clone with (id := id). exact Hi.
Qed.

Lemma step_flows_known cfg rules st st' :
  ev_step (fun k => keeps_flows k /\ ring_room k = true) cfg rules st st' -> flows_known st -> flows_known st'.
Proof.
  intros [k sk st0 _|k sk v6 st0 _|k ctx v6 st0 _|k sk st0 _|k s st0 _|k skb egress st0 [Hk Hr] Hb|id id' i st0 Hi] H.
  - apply (no_flow_known st0); [exact H|]. unfold ev_sock_create. cbn [snd].
    destruct (storage_get_create _ _ _); [apply no_flow_storage|apply no_flow_refl].
  - apply (no_flow_known st0); [exact H|]. unfold on_bind. case_if; [apply no_flow_refl|now apply decide_no_flow].
  - apply (no_flow_known st0); [exact H|]. unfold on_connect. case_if; [apply no_flow_refl|now apply decide_no_flow].
  - apply (no_flow_known st0); [exact H|apply release_no_flow].
  - apply (no_flow_known st0); [exact H|apply sockops_no_flow].
  - now apply udp_flow_known.
  - exact H.
Qed.

(** ** Properties *)

(** A UDP packet sent by a socket, twice; the helpers succeed. *)
Definition ex_kernel : ev_kernel :=
  mkEvKernel 0 7 true (5 <<< 32) (fun id => id + 100) (fun _ => true) true (fun key l => key :: l).
Definition ex_flow_config : event_config := mkEvConfig 0 0 0.
Definition ex_sock : bpf_sock := mkBpfSock 1 AF_INET IPPROTO_UDP 1000 0 [0; 0; 0; 0].
Definition ex_skb : cgroup_skb := mkCgSkb ex_udp 1 (Some ex_sock).
Definition ex_state1 : ev_state := snd (udp_flow ex_kernel ex_flow_config ex_skb true (mkEvState [] [] [])).
Definition ex_state2 : ev_state := snd (udp_flow ex_kernel ex_flow_config ex_skb true ex_state1).

Lemma ex_keeps : keeps_flows ex_kernel.
Proof. intros key l x. cbn. split; intros [H|H]; auto. Qed.

Lemma ex_ev_reachable K : K ex_kernel -> ev_reachable K ex_flow_config [] ex_state2.
Proof.
  intros H. apply (er_step K _ _ ex_state1); [apply (er_step K _ _ (mkEvState [] [] [])); [apply er_init|]|];
    now apply step_udp; [|apply ex_udp_bytes].
Qed.

(** Everything reported is well formed, whatever the order in which sockets
    are created, bound, connected, accepted, used and released: 16-byte
    addresses, ports of 16 bits, an event number a rule's bit mask can hold;
    and so is what is stored with the sockets. *)
Lemma reported_events_wf K cfg rules st : ev_reachable K cfg rules st ->
  Forall event_ok (event_ring st) /\ Forall (fun x => info_ok (snd x)) (sk_info_map st).
Proof. intros H. destruct (reachable_state_ok K cfg rules st H). auto. Qed.


