(* ===== verification/HdQueue.v ===== *)
(** * The receive queue of a handle

    The queue of [src/handle.c]: [wake_update], [queue_push], [queue_pop],
    the queue parameters of [ebpfdivert_set_param_impl] and
    [ebpfdivert_get_param_impl], and the receive half of
    [ebpfdivert_shutdown].

    The linked list [qhead .. qtail] is a list; every operation runs under
    [qlock], so the operations of concurrent callers are a sequence of steps.
    [queue_step] is that sequence's step relation, with a log of what was
    pushed, returned and dropped. *)

From Stdlib Require Import ZArith List Bool Lia.
From S2P Require Import Prelude WdTypes WdExec.
Import ListNotations.

(** ** Data *)

(** [struct ebpfdivert_address] in its network view: the fields of
    [WINDIVERT_ADDRESS] and the bytes of [reserved3] from [L2_STASH_OFFSET]
    on, which carry the L2 stash. *)
Record address : Set := mkAddr {
  ad_base : WINDIVERT_ADDRESS;
  ad_stash : list Z
}.

(** [struct qentry]; [len] is the length of [data]. *)
Record qentry : Set := mkEntry {
  e_addr : address;
  e_data : list Z
}.

Definition e_len (e : qentry) : Z := zlen (e_data e).

(** The receive side of [struct ebpfdivert_handle]; [wake_fd] is the counter
    of the eventfd. *)
Record rx_state : Set := mkRx {
  queue : list qentry;
  qlen : Z;
  qbytes : Z;
  queue_length : Z;
  queue_time : Z;
  queue_size : Z;
  queue_drops : Z;
  shut_recv : bool;
  wake_set : bool;
  wake_fd : Z
}.

Definition EBPFDIVERT_PARAM_QUEUE_LENGTH : Z := 0.
Definition EBPFDIVERT_PARAM_QUEUE_TIME : Z := 1.
Definition EBPFDIVERT_PARAM_QUEUE_SIZE : Z := 2.
Definition EBPFDIVERT_PARAM_VERSION_MAJOR : Z := 3.
Definition EBPFDIVERT_PARAM_VERSION_MINOR : Z := 4.

Definition EBPFDIVERT_PARAM_QUEUE_LENGTH_DEFAULT : Z := 4096.
Definition EBPFDIVERT_PARAM_QUEUE_LENGTH_MIN : Z := 32.
Definition EBPFDIVERT_PARAM_QUEUE_LENGTH_MAX : Z := 16384.
Definition EBPFDIVERT_PARAM_QUEUE_TIME_DEFAULT : Z := 2000.
Definition EBPFDIVERT_PARAM_QUEUE_TIME_MIN : Z := 100.
Definition EBPFDIVERT_PARAM_QUEUE_TIME_MAX : Z := 16000.
Definition EBPFDIVERT_PARAM_QUEUE_SIZE_DEFAULT : Z := 4194304.
Definition EBPFDIVERT_PARAM_QUEUE_SIZE_MIN : Z := 65535.
Definition EBPFDIVERT_PARAM_QUEUE_SIZE_MAX : Z := 33554432.

(** The receive side [ebpfdivert_open] sets up. *)
Definition rx_init : rx_state :=
  mkRx [] 0 0 EBPFDIVERT_PARAM_QUEUE_LENGTH_DEFAULT EBPFDIVERT_PARAM_QUEUE_TIME_DEFAULT
    EBPFDIVERT_PARAM_QUEUE_SIZE_DEFAULT 0 false false 0.

(** ** Operations *)

Definition is_empty {A} (l : list A) : bool := match l with [] => true | _ => false end.

(** [wake_fd] is non-blocking and only written here: adding 1 to its counter
    always succeeds, a read succeeds and resets it unless it is 0. *)
Definition wake_update (q : rx_state) : rx_state :=
  let want := negb (is_empty (queue q)) || shut_recv q in
  if want && negb (wake_set q) then
    mkRx (queue q) (qlen q) (qbytes q) (queue_length q) (queue_time q) (queue_size q)
      (queue_drops q) (shut_recv q) true (wake_fd q + 1)
  else if negb want && wake_set q && (wake_fd q >? 0) then
    mkRx (queue q) (qlen q) (qbytes q) (queue_length q) (queue_time q) (queue_size q)
      (queue_drops q) (shut_recv q) false 0
  else q.

Definition queue_push (q : rx_state) (e : qentry) : rx_state :=
  if (qlen q >=? queue_length q) || (u64 (qbytes q + e_len e) >? queue_size q) then
    mkRx (queue q) (qlen q) (qbytes q) (queue_length q) (queue_time q) (queue_size q)
      (u64 (queue_drops q + 1)) (shut_recv q) (wake_set q) (wake_fd q)
  else
    wake_update
      (mkRx (queue q ++ [e]) (u64 (qlen q + 1)) (u64 (qbytes q + e_len e)) (queue_length q)
         (queue_time q) (queue_size q) (queue_drops q) (shut_recv q) (wake_set q) (wake_fd q)).

(** [now - e->addr.timestamp <= (int64_t)h->queue_time * 1000000LL] *)
Definition fresh (now time : Z) (e : qentry) : bool :=
  now - Timestamp (ad_base (e_addr e)) <=? time * 1000000.

(** The loop of [queue_pop]: expired entries are dropped. *)
Fixpoint pop_loop (now : Z) (l : list qentry) (q : rx_state) : option qentry * rx_state :=
  match l with
  | [] => (None, q)
  | e :: l =>
    let q := mkRx l (u64 (qlen q - 1)) (u64 (qbytes q - e_len e)) (queue_length q) (queue_time q)
               (queue_size q) (queue_drops q) (shut_recv q) (wake_set q) (wake_fd q) in
    if fresh now (queue_time q) e then (Some e, q)
    else
      pop_loop now l
        (mkRx l (qlen q) (qbytes q) (queue_length q) (queue_time q) (queue_size q)
           (u64 (queue_drops q + 1)) (shut_recv q) (wake_set q) (wake_fd q))
  end.

Definition queue_pop (now : Z) (q : rx_state) : option qentry * rx_state :=
  let '(e, q) := pop_loop now (queue q) q in (e, wake_update q).

(** Return value and queue. *)
Definition ebpfdivert_set_param_impl (q : rx_state) (param value : Z) : Z * rx_state :=
  let set l t s := mkRx (queue q) (qlen q) (qbytes q) l t s (queue_drops q) (shut_recv q)
                     (wake_set q) (wake_fd q) in
  if param =? EBPFDIVERT_PARAM_QUEUE_LENGTH then
    if (value <? EBPFDIVERT_PARAM_QUEUE_LENGTH_MIN) || (value >? EBPFDIVERT_PARAM_QUEUE_LENGTH_MAX)
    then (- EINVAL, q) else (0, set value (queue_time q) (queue_size q))
  else if param =? EBPFDIVERT_PARAM_QUEUE_TIME then
    if (value <? EBPFDIVERT_PARAM_QUEUE_TIME_MIN) || (value >? EBPFDIVERT_PARAM_QUEUE_TIME_MAX)
    then (- EINVAL, q) else (0, set (queue_length q) value (queue_size q))
  else if param =? EBPFDIVERT_PARAM_QUEUE_SIZE then
    if (value <? EBPFDIVERT_PARAM_QUEUE_SIZE_MIN) || (value >? EBPFDIVERT_PARAM_QUEUE_SIZE_MAX)
    then (- EINVAL, q) else (0, set (queue_length q) (queue_time q) value)
  else (- EINVAL, q).

(** [inr] is the value, [inl] the error. *)
Definition ebpfdivert_get_param_impl (q : rx_state) (param : Z) : Z + Z :=
  if param =? EBPFDIVERT_PARAM_QUEUE_LENGTH then inr (queue_length q)
  else if param =? EBPFDIVERT_PARAM_QUEUE_TIME then inr (queue_time q)
  else if param =? EBPFDIVERT_PARAM_QUEUE_SIZE then inr (queue_size q)
  else if param =? EBPFDIVERT_PARAM_VERSION_MAJOR then inr 2
  else if param =? EBPFDIVERT_PARAM_VERSION_MINOR then inr 2
  else inl (- EINVAL).

(** What [ebpfdivert_shutdown] does under [qlock]. *)
Definition shutdown_recv (q : rx_state) : rx_state :=
  wake_update (mkRx (queue q) (qlen q) (qbytes q) (queue_length q) (queue_time q) (queue_size q)
                 (queue_drops q) true (wake_set q) (wake_fd q)).

(** ** Step relation *)

(** A queue with the log of its pushes and of the entries handed out. *)
Record logged : Set := mkLog {
  lg_rx : rx_state;
  lg_pushed : list qentry;
  lg_returned : list qentry
}.

Definition opt_list {A} (o : option A) : list A := match o with Some x => [x] | None => [] end.

(** One critical section; packets are at most 64 KiB and a few bytes. *)
Inductive queue_step : logged -> logged -> Prop :=
| step_push q p r e : 0 <= e_len e < 2 ^ 17 ->
    queue_step (mkLog q p r) (mkLog (queue_push q e) (p ++ [e]) r)
| step_pop q p r now e q' : queue_pop now q = (e, q') ->
    queue_step (mkLog q p r) (mkLog q' p (r ++ opt_list e))
| step_set q p r param value ret q' : ebpfdivert_set_param_impl q param value = (ret, q') ->
    queue_step (mkLog q p r) (mkLog q' p r)
| step_shutdown q p r : queue_step (mkLog q p r) (mkLog (shutdown_recv q) p r).

Inductive reachable : logged -> Prop :=
| reach_init : reachable (mkLog rx_init [] [])
| reach_step s s' : reachable s -> queue_step s s' -> reachable s'.

(** ** Invariant *)

Definition total_len (l : list qentry) : Z := fold_right (fun e n => e_len e + n) 0 l.

Definition want_wake (q : rx_state) : bool := negb (is_empty (queue q)) || shut_recv q.

(** The counters fit the list; they and the parameters stay in range. *)
Record counted (q : rx_state) : Prop := {
  ct_len : qlen q = zlen (queue q);
  ct_bytes : qbytes q = total_len (queue q);
  ct_entries : Forall (fun e => 0 <= e_len e < 2 ^ 17) (queue q);
  ct_max : qlen q <= EBPFDIVERT_PARAM_QUEUE_LENGTH_MAX /\
           qbytes q <= EBPFDIVERT_PARAM_QUEUE_SIZE_MAX;
  ct_length : EBPFDIVERT_PARAM_QUEUE_LENGTH_MIN <= queue_length q <= EBPFDIVERT_PARAM_QUEUE_LENGTH_MAX;
  ct_time : EBPFDIVERT_PARAM_QUEUE_TIME_MIN <= queue_time q <= EBPFDIVERT_PARAM_QUEUE_TIME_MAX;
  ct_size : EBPFDIVERT_PARAM_QUEUE_SIZE_MIN <= queue_size q <= EBPFDIVERT_PARAM_QUEUE_SIZE_MAX
}.

(** The eventfd is readable exactly when a receiver would not block. *)
Definition awake (q : rx_state) : Prop :=
  wake_set q = want_wake q /\ wake_fd q = b2z (want_wake q).

Ltac params :=
  unfold EBPFDIVERT_PARAM_QUEUE_LENGTH_MIN, EBPFDIVERT_PARAM_QUEUE_LENGTH_MAX,
    EBPFDIVERT_PARAM_QUEUE_TIME_MIN, EBPFDIVERT_PARAM_QUEUE_TIME_MAX,
    EBPFDIVERT_PARAM_QUEUE_SIZE_MIN, EBPFDIVERT_PARAM_QUEUE_SIZE_MAX,
    EBPFDIVERT_PARAM_QUEUE_LENGTH_DEFAULT, EBPFDIVERT_PARAM_QUEUE_TIME_DEFAULT,
    EBPFDIVERT_PARAM_QUEUE_SIZE_DEFAULT in *; lia.

Lemma total_len_app a b : total_len (a ++ b) = total_len a + total_len b.
Proof. unfold total_len. induction a as [|e a IH]; cbn [app fold_right]; lia. Qed.

Lemma total_len_nonneg l : Forall (fun e => 0 <= e_len e < 2 ^ 17) l -> 0 <= total_len l.
Proof. unfold total_len. induction 1; cbn [fold_right]; lia. Qed.

Lemma u64_small z : 0 <= z < 2 ^ 64 -> u64 z = z.
Proof. intros. now apply Z.mod_small. Qed.

(** [wake_update] changes nothing but the eventfd. *)
Lemma wake_update_same q : let q' := wake_update q in
  queue q' = queue q /\ queue_drops q' = queue_drops q /\ shut_recv q' = shut_recv q /\
  (counted q -> counted q').
Proof.
  unfold wake_update. cbv zeta.
  repeat case_if; cbn; (split; [|split; [|split]]); auto; intros []; now split.
Qed.

Lemma wake_update_awake q : wake_fd q = b2z (wake_set q) -> awake (wake_update q).
Proof.
  intros H. unfold awake, wake_update, want_wake.
  destruct (negb (is_empty (queue q)) || shut_recv q) eqn:W, (wake_set q) eqn:S;
    cbn [andb negb orb] in *; cbn in H; rewrite ?H; cbn; rewrite ?W, ?S, ?H; auto.
Qed.

Lemma awake_fd q : awake q -> wake_fd q = b2z (wake_set q).
Proof. intros [-> ->]. reflexivity. Qed.

Lemma counted_push q e : counted q -> 0 <= e_len e < 2 ^ 17 -> counted (queue_push q e).
Proof.
  intros C He. unfold queue_push. case_if; [destruct C; now split|]. b2p. apply wake_update_same.
  destruct C as [L B F [M1 M2] P1 P2 P3]. pose proof (total_len_nonneg _ F).
  pose proof (zlen_nonneg (queue q)).
  assert (U : u64 (qbytes q + e_len e) = qbytes q + e_len e) by (apply u64_small; params).
  rewrite U in *. split; cbn [queue qlen qbytes queue_length queue_time queue_size];
    rewrite ?u64_small by params; auto.
  - unfold zlen in *. rewrite length_app. cbn. lia.
  - rewrite total_len_app. unfold total_len at 2. cbn. lia.
  - apply Forall_app. auto.
  - params.
Qed.

(** What [pop_loop] does: it skips expired entries and returns the next. *)
Lemma pop_loop_spec now : forall l q, queue q = l -> counted q ->
  let '(e, q') := pop_loop now l q in
  exists old rest, l = old ++ opt_list e ++ rest /\ queue q' = rest /\ counted q' /\
    Forall (fun x => fresh now (queue_time q) x = false) old /\
    (forall x, e = Some x -> fresh now (queue_time q) x = true) /\
    (e = None -> rest = []) /\
    queue_drops q' = fold_left (fun d _ => u64 (d + 1)) old (queue_drops q) /\
    shut_recv q' = shut_recv q /\ wake_set q' = wake_set q /\ wake_fd q' = wake_fd q.
Proof.
  induction l as [|x l IH]; intros q Hq C; cbn [pop_loop].
  - exists [], []. repeat (split; auto); try apply C; discriminate.
  - set (q1 := mkRx l _ _ _ _ _ _ _ _ _).
    assert (C1 : counted q1).
    { destruct C as [L B F M P1 P2 P3]. rewrite Hq in *. inversion F as [|? ? Fx Fl]; subst.
      pose proof (total_len_nonneg _ Fl). unfold zlen, total_len in *. cbn [length fold_right] in *.
      fold (total_len l) in *.
      split; subst q1; cbn [queue qlen qbytes queue_length queue_time queue_size];
        rewrite ?u64_small by params; auto; unfold zlen, total_len in *; params. }
    destruct (fresh now (queue_time q1) x) eqn:Fr.
    + exists [], l. repeat (split; auto); try apply C1; try discriminate. intros y E; now inversion E; subst.
    + set (q2 := mkRx l _ _ _ _ _ _ _ _ _). specialize (IH q2 eq_refl).
      assert (C2 : counted q2) by (destruct C1; now split). specialize (IH C2).
      destruct (pop_loop now l q2) as [e q'] eqn:E.
      destruct IH as (old & rest & -> & Hr & C' & Ho & He & Hn & Hd & Hs & Hw & Hf).
      exists (x :: old), rest. repeat (split; auto).
Qed.

(** ** Order *)

(** [a] is [b] with some elements left out. *)
Inductive subseq {A} : list A -> list A -> Prop :=
| sub_nil : subseq [] []
| sub_skip x a b : subseq a b -> subseq a (x :: b)
| sub_keep x a b : subseq a b -> subseq (x :: a) (x :: b).

Lemma subseq_snoc {A} (a b : list A) x : subseq a b -> subseq (a ++ [x]) (b ++ [x]).
Proof. induction 1; cbn; [apply sub_keep, sub_nil|now apply sub_skip|now apply sub_keep]. Qed.

Lemma subseq_more {A} (a b : list A) x : subseq a b -> subseq a (b ++ [x]).
Proof. induction 1; cbn; [apply sub_skip, sub_nil|now apply sub_skip|now apply sub_keep]. Qed.

Lemma subseq_cons_inv {A} (x : A) a b : subseq (x :: a) b -> subseq a b.
Proof.
  intros H. remember (x :: a) as l eqn:E. revert x a E.
  induction H as [|y l b H IH|y l b H IH]; intros x a E; [discriminate| |].
  - apply sub_skip. eauto.
  - inversion E; subst. now apply sub_skip.
Qed.

Lemma subseq_remove {A} (a m b p : list A) : subseq (a ++ m ++ b) p -> subseq (a ++ b) p.
Proof.
  intros H. remember (a ++ m ++ b) as l eqn:E. revert a E. induction H as [|y l p H IH|y l p H IH];
    intros a E.
  - symmetry in E. apply app_eq_nil in E as [-> E]. apply app_eq_nil in E as [-> ->]. constructor.
  - apply sub_skip. now apply IH.
  - destruct a as [|z a]; cbn in *.
    + clear IH. assert (S : subseq (m ++ b) (y :: p)) by (rewrite <- E; now apply sub_keep).
      clear E H. induction m as [|u m IHm]; [exact S|]. apply IHm. cbn in S. now apply subseq_cons_inv in S.
    + inversion E; subst. apply sub_keep. now apply IH.
Qed.

Lemma subseq_length {A} (a b : list A) : subseq a b -> (length a <= length b)%nat.
Proof. induction 1; cbn; lia. Qed.

Lemma subseq_all {A} (a b : list A) : subseq a b -> length a = length b -> a = b.
Proof.
  induction 1 as [|x a b H IH|x a b H IH]; cbn; intros E; [reflexivity| |].
  - apply subseq_length in H. lia.
  - f_equal. apply IH. lia.
Qed.

(** What holds in every reachable state. *)
Record log_ok (s : logged) : Prop := {
  lo_counted : counted (lg_rx s);
  lo_awake : awake (lg_rx s);
  lo_order : subseq (lg_returned s ++ queue (lg_rx s)) (lg_pushed s);
  lo_drops : queue_drops (lg_rx s) =
    u64 (zlen (lg_pushed s) - zlen (lg_returned s) - zlen (queue (lg_rx s)))
}.

Lemma drops_fold {A} (l : list A) d : fold_left (fun d _ => u64 (d + 1)) l (u64 d) = u64 (d + zlen l).
Proof.
  revert d. induction l as [|x l IH]; intros d; cbn [fold_left].
  - unfold zlen. cbn. f_equal. lia.
  - replace (u64 (u64 d + 1)) with (u64 (d + 1)) by (unfold u64; now rewrite Zplus_mod_idemp_l).
    rewrite IH. f_equal. unfold zlen. cbn [length]. lia.
Qed.

Lemma push_ok q p r e : 0 <= e_len e < 2 ^ 17 -> log_ok (mkLog q p r) ->
  log_ok (mkLog (queue_push q e) (p ++ [e]) r).
Proof.
  intros He [C A O D]. cbn in *. split; cbn [lg_rx lg_pushed lg_returned].
  - now apply counted_push.
  - unfold queue_push. case_if; [exact A|]. apply wake_update_awake. exact (awake_fd q A).
  - unfold queue_push. case_if; [now apply subseq_more|].
    destruct (wake_update_same (mkRx (queue q ++ [e]) (u64 (qlen q + 1)) (u64 (qbytes q + e_len e))
      (queue_length q) (queue_time q) (queue_size q) (queue_drops q) (shut_recv q) (wake_set q)
      (wake_fd q))) as (-> & _). cbn [queue]. rewrite app_assoc. now apply subseq_snoc.
  - rewrite zlen_app. unfold queue_push. case_if; cbn [queue_drops queue].
    + rewrite D. unfold u64. rewrite Zplus_mod_idemp_l. f_equal. unfold zlen. cbn. lia.
    + destruct (wake_update_same (mkRx (queue q ++ [e]) (u64 (qlen q + 1)) (u64 (qbytes q + e_len e))
        (queue_length q) (queue_time q) (queue_size q) (queue_drops q) (shut_recv q) (wake_set q)
        (wake_fd q))) as (-> & -> & _). cbn [queue queue_drops]. rewrite D, zlen_app. f_equal. lia.
Qed.

Lemma pop_ok q p r now e q' : queue_pop now q = (e, q') -> log_ok (mkLog q p r) ->
  log_ok (mkLog q' p (r ++ opt_list e)).
Proof.
  intros E [C A O D]. cbn in *. unfold queue_pop in E.
  pose proof (pop_loop_spec now (queue q) q eq_refl C) as P.
  destruct (pop_loop now (queue q) q) as [e0 q0]. inversion E; subst; clear E.
  destruct P as (old & rest & Hl & Hr & C' & _ & _ & _ & Hd & Hs & Hw & Hf).
  destruct (wake_update_same q0) as (W1 & W2 & W3 & W4).
  split; cbn [lg_rx lg_pushed lg_returned].
  - auto.
  - apply wake_update_awake. rewrite Hw, Hf. now apply awake_fd.
  - rewrite W1, Hr. rewrite Hl in O. rewrite <- app_assoc. now apply subseq_remove in O.
  - rewrite W1, W2, Hd, Hr, D, drops_fold, Hl. f_equal. rewrite !zlen_app. lia.
Qed.

Lemma set_param_ok q p r param value ret q' : ebpfdivert_set_param_impl q param value = (ret, q') ->
  log_ok (mkLog q p r) -> log_ok (mkLog q' p r).
Proof.
  intros E [C A O D]. cbn in *. revert E. unfold ebpfdivert_set_param_impl.
  repeat case_if; intros E; inversion E; subst; clear E; (split; [|exact A|exact O|exact D]);
    try exact C; b2p; destruct C; (split; cbn; auto; params).
Qed.

Lemma shutdown_ok q p r : log_ok (mkLog q p r) -> log_ok (mkLog (shutdown_recv q) p r).
Proof.
  intros [C A O D]. cbn in *. unfold shutdown_recv. set (q1 := mkRx _ _ _ _ _ _ _ _ _ _).
  destruct (wake_update_same q1) as (W1 & W2 & W3 & W4). split; cbn [lg_rx lg_pushed lg_returned].
  - apply W4. destruct C. now split.
  - apply wake_update_awake. exact (awake_fd q A).
  - now rewrite W1.
  - now rewrite W1, W2.
Qed.

Lemma reachable_ok s : reachable s -> log_ok s.
Proof.
  induction 1 as [|s s' _ IH H].
  - split; cbn; [split; cbn; auto; params|split; reflexivity|apply sub_nil|reflexivity].
  - destruct H; eauto using push_ok, pop_ok, set_param_ok, shutdown_ok.
Qed.

(** ** Example: two packets arrive, one is received *)

Definition ex_address : address :=
  mkAddr (mkAddress 7 LAYER_NETWORK 0 false true false false false true true false
            (mkDataNetwork 2 0) (mkDataFlow 0 0 0 (W128 0 0 0 0) (W128 0 0 0 0) 0 0 0)
            (mkDataReflect 0 0 LAYER_NETWORK 0 0)) [].

Definition ex_entry (n : Z) : qentry := mkEntry ex_address [n].

Definition ex_log : logged :=
  let q := queue_push (queue_push rx_init (ex_entry 1)) (ex_entry 2) in
  mkLog (snd (queue_pop 9 q)) [ex_entry 1; ex_entry 2] [ex_entry 1].

Lemma ex_reachable : reachable ex_log.
Proof.
  assert (L : forall n, 0 <= e_len (ex_entry n) < 2 ^ 17) by (intros n; unfold e_len, zlen; cbn; lia).
  eapply reach_step; [eapply reach_step; [eapply reach_step; [apply reach_init|]|]|].
  - apply (step_push _ _ _ (ex_entry 1)), L.
  - apply (step_push _ _ _ (ex_entry 2)), L.
  - apply (step_pop _ _ [] 9 (Some (ex_entry 1))). reflexivity.
Qed.

(** ** Properties *)

(** C24. The receive queue is an honest FIFO: in every reachable state the
    packets handed out so far, followed by those still queued, are the
    packets pushed, in order, without those the drop counter accounts for;
    as long as nothing is dropped none is missing. *)
Theorem queue_is_fifo s : reachable s ->
  subseq (lg_returned s ++ queue (lg_rx s)) (lg_pushed s) /\
  queue_drops (lg_rx s) = u64 (zlen (lg_pushed s) - zlen (lg_returned s) - zlen (queue (lg_rx s))) /\
  (queue_drops (lg_rx s) = 0 -> zlen (lg_pushed s) < 2 ^ 64 ->
   lg_pushed s = lg_returned s ++ queue (lg_rx s)).
Proof.
  intros H. destruct (reachable_ok s H) as [C A O D]. repeat split; auto. intros Z0 Hz. symmetry.
  apply subseq_all; [exact O|]. pose proof (subseq_length _ _ O) as L. rewrite length_app in *.
  rewrite D in Z0. unfold u64, zlen in *. rewrite Z.mod_small in Z0 by lia. lia.
Qed.

Lemma queue_is_fifo_witness : lg_pushed ex_log = lg_returned ex_log ++ queue (lg_rx ex_log).
Proof. apply (queue_is_fifo ex_log ex_reachable); reflexivity. Defined.

(** The queue's bookkeeping is right in every reachable state: its
    counters are the length and the bytes of the list and stay within the
    documented maxima, its parameters within their ranges, and its eventfd is
    readable exactly when there is a packet or the queue was shut down. *)
Theorem queue_invariant s : reachable s ->
  let q := lg_rx s in
  qlen q = zlen (queue q) /\ qbytes q = total_len (queue q) /\
  qlen q <= EBPFDIVERT_PARAM_QUEUE_LENGTH_MAX /\ qbytes q <= EBPFDIVERT_PARAM_QUEUE_SIZE_MAX /\
  EBPFDIVERT_PARAM_QUEUE_TIME_MIN <= queue_time q <= EBPFDIVERT_PARAM_QUEUE_TIME_MAX /\
  wake_set q = negb (is_empty (queue q)) || shut_recv q /\ wake_fd q = b2z (wake_set q).
Proof.
  intros H. destruct (reachable_ok s H) as [[L B F [M1 M2] P1 P2 P3] [A1 A2] _ _]. cbv zeta.
  split; [exact L|]. split; [exact B|]. split; [exact M1|]. split; [exact M2|]. split; [exact P2|].
  split; [exact A1|]. rewrite A2, A1. reflexivity.
Qed.

Lemma queue_invariant_witness : qlen (lg_rx ex_log) = 1 /\ wake_fd (lg_rx ex_log) = 1.
Proof.
  pose proof (queue_invariant ex_log ex_reachable) as (L & _ & _ & _ & _ & W & F).
  split; [exact L|]. cbv zeta in *. rewrite F, W. reflexivity.
Defined.
