(* ===== verification/HdSend.v ===== *)
(** * The send path of a handle

    [src/handle.c]: the L2 stash of an address, [prepare_gso], the socket and
    MTU caches, [send_af_packet], [send_raw_ip], [inject],
    [ebpfdivert_send_impl] and [ebpfdivert_send_ex_impl].

    What the operating system does is a [net] record: the results of creating
    a socket and of [sendto], the MTU and the hardware address of an
    interface, the clock.  A packet handed to [sendto] is a [packet_out].
    Memory allocation is assumed to succeed. *)

From Stdlib Require Import ZArith List Bool Lia.
From S2P Require Import Prelude WdTypes WdPacket WdExec WdHelper HdQueue BpfMatch BpfTc.
Import ListNotations.

Definition EPERM : Z := 1.
Definition EMSGSIZE : Z := 90.
Definition ESHUTDOWN : Z := 108.

Definition EBPFDIVERT_FLAG_RECV_ONLY : Z := 0x0004.
Definition EBPFDIVERT_FLAG_SEND_ONLY : Z := 0x0008.
Definition EBPFDIVERT_MTU_MAX : Z := 40 + 0xFFFF.

(** ** The L2 stash *)

Definition L2_STASH_MAGIC : Z := 0xEB.
Definition L2_STASH_MAX : Z := 22.

(** [stash_l2]: magic, length, [gso_size], then the L2 header; the bytes
    behind it stay. *)
Definition stash_l2 (s l2 : list Z) (gso_size : Z) : list Z :=
  if zlen l2 >? L2_STASH_MAX then s
  else [L2_STASH_MAGIC; zlen l2] ++ le16 gso_size ++ l2 ++ skipn (4 + length l2) s.

Record l2_stash : Set := mkStash {
  s_gso_size : Z;
  s_data : list Z      (* [data[0 .. len-1]] *)
}.

Definition get_stash (a : address) : option l2_stash :=
  let s := ad_stash a in
  if negb (byte_at s 0 =? L2_STASH_MAGIC) || (byte_at s 1 >? L2_STASH_MAX) then None
  else Some (mkStash (ld16 s 2) (slice s 4 (byte_at s 1))).

(** ** Handle and environment *)

(** The members of [struct ebpfdivert_handle] fixed at open time. *)
Record handle_info : Set := mkHandle {
  h_layer : WINDIVERT_LAYER;
  hd_flags : Z;
  h_tc_prio : Z;
  h_lo_ifindex : Z;
  h_filter : wd_filter;
  h_exact : bool
}.

(** A cached AF_PACKET socket with the mark and priority it was given. *)
Record inject_sock : Set := mkSock {
  is_mark : Z;
  is_prio : option Z
}.

Record mtu_entry : Set := mkMtu {
  m_ifindex : Z;
  m_mtu : Z;
  m_stamp : Z
}.

(** The send side; [raw4] and [raw6] say whether the raw sockets exist. *)
Record tx_state : Set := mkTx {
  shut_send : bool;
  socks : list inject_sock;
  raw4 : bool;
  raw6 : bool;
  mtu_cache : list mtu_entry
}.

Definition MTU_CACHE : nat := 16.

Definition tx_init : tx_state := mkTx false [] false false (repeat (mkMtu 0 0 0) MTU_CACHE).

Record virtio_net_hdr : Set := mkVnet {
  vh_flags : Z;
  vh_gso_type : Z;
  vh_hdr_len : Z;
  vh_gso_size : Z;
  vh_csum_start : Z;
  vh_csum_offset : Z
}.

Definition zero_vnet : virtio_net_hdr := mkVnet 0 0 0 0 0 0.

(** What is handed to the kernel. *)
Inductive packet_out : Set :=
| RawIp (v6 : bool) (mark : Z) (dest : list Z) (scope : Z) (data : list Z)
| Frame (ifindex mark : Z) (prio : option Z) (vh : virtio_net_hdr) (protocol : Z) (frame : list Z).

(** The operating system: 0 or a negative [errno] for a new socket and for
    [sendto]; whether an interface has a name and a datagram socket can be
    made; the answers to [SIOCGIFMTU] and to [SIOCGIFHWADDR] (hardware type
    and address), [None] when the call fails; [udp_l4] says whether the kernel
    headers know [VIRTIO_NET_HDR_GSO_UDP_L4]. *)
Record net : Type := mkNet {
  new_packet_sock : Z -> option Z -> Z;
  new_raw_sock : bool -> Z -> Z;
  sendto : packet_out -> Z;
  if_indextoname : Z -> bool;
  dgram_sock : bool;
  siocgifmtu : Z -> option Z;
  siocgifhwaddr : Z -> option (Z * list Z);
  clock : Z;
  udp_l4 : bool
}.

Definition query_mtu (n : net) (ifindex : Z) : Z :=
  if if_indextoname n ifindex && dgram_sock n then
    match siocgifmtu n ifindex with Some mtu => mtu | None => 1500 end
  else 1500.

Definition ARPHRD_ETHER : Z := 1.
Definition ARPHRD_LOOPBACK : Z := 772.

(** The six bytes [get_hwaddr] leaves in [mac]. *)
Definition get_hwaddr (n : net) (ifindex : Z) : list Z :=
  if if_indextoname n ifindex && dgram_sock n then
    match siocgifhwaddr n ifindex with
    | Some (type, mac) =>
      if (type =? ARPHRD_ETHER) || (type =? ARPHRD_LOOPBACK) then firstn 6 mac else repeat 0 6
    | None => repeat 0 6
    end
  else repeat 0 6.

(** ** Checksums of a GSO packet *)

(** [while (sum >> 16)]: two rounds are enough for 32 bits. *)
Fixpoint fold_loop (fuel : nat) (sum : Z) : Z :=
  match fuel with
  | O => sum
  | S fuel =>
    if (sum >>> 16) =? 0 then sum else fold_loop fuel (u32 ((sum &&& 0xFFFF) + (sum >>> 16)))
  end.

Definition csum_fold32 (sum : Z) : Z := u16 (fold_loop 2 sum).

Fixpoint csum_add (sum : Z) (p : list Z) : Z :=
  match p with
  | a :: b :: p => csum_add (u32 (sum + ((a <<< 8) ||| b))) p
  | [a] => u32 (sum + (a <<< 8))
  | [] => sum
  end.

Definition VIRTIO_NET_HDR_F_NEEDS_CSUM : Z := 1.
Definition VIRTIO_NET_HDR_GSO_TCPV4 : Z := 1.
Definition VIRTIO_NET_HDR_GSO_TCPV6 : Z := 4.
Definition VIRTIO_NET_HDR_GSO_UDP_L4 : Z := 5.

(** [prepare_gso] on a frame with an L2 header: the frame and the virtio
    header it leaves ([None] for [return 0]). *)
Definition prepare_gso (udp_l4 : bool) (frame : list Z) (l2_len mtu gso_size : Z)
    : option (list Z * virtio_net_hdr) :=
  match wd_parse_packet (skipn (Z.to_nat l2_len) frame) with
  | None => None
  | Some info =>
    if wi_fragment info || (wi_transport_off info <? 0) then None
    else if negb (wi_protocol info =? IPPROTO_TCP) && negb (wi_protocol info =? IPPROTO_UDP) then None
    else if negb (wi_protocol info =? IPPROTO_TCP) && negb udp_l4 then None
    else
      let tcp := wi_protocol info =? IPPROTO_TCP in
      let ip := l2_len + wi_ip_off info in
      let th := l2_len + wi_transport_off info in
      let l4_len := u32 (zlen frame - l2_len - wi_transport_off info) in
      let hdr_len := u32 (l2_len + (if wi_payload_off info >=? 0 then wi_payload_off info
                                    else wi_transport_off info)) in
      let csum_off := if tcp then 16 else 6 in
      let gso_type := if tcp then
                        if wi_ipv6 info then VIRTIO_NET_HDR_GSO_TCPV6 else VIRTIO_NET_HDR_GSO_TCPV4
                      else VIRTIO_NET_HDR_GSO_UDP_L4 in
      let gso_size := if gso_size =? 0 then u16 (mtu - (hdr_len - l2_len)) else gso_size in
      let sum :=
        if wi_ipv6 info then
          let sum := csum_add 0 (slice frame (ip + 8) 32) in
          let sum := csum_add sum [u8 (l4_len >>> 24); u8 (l4_len >>> 16); u8 (l4_len >>> 8); u8 l4_len] in
          csum_add sum [0; 0; 0; wi_protocol info]
        else
          let sum := csum_add 0 (slice frame (ip + 12) 8) in
          csum_add sum [0; wi_protocol info; u8 (l4_len >>> 8); u8 l4_len] in
      let pseudo := csum_fold32 sum in
      let frame := set_byte frame (th + csum_off) (u8 (pseudo >>> 8)) in
      let frame := set_byte frame (th + csum_off + 1) (u8 pseudo) in
      Some (frame, mkVnet VIRTIO_NET_HDR_F_NEEDS_CSUM gso_type (u16 hdr_len) gso_size (u16 th) csum_off)
  end.

(** ** Caches *)

(** The loop of [get_mtu]: a fresh entry, or the slot to replace. *)
Fixpoint mtu_loop (now ifindex : Z) (l : list mtu_entry) (i victim : nat) (oldest : Z) : Z + nat :=
  match l with
  | [] => inr victim
  | m :: l =>
    if (m_ifindex m =? ifindex) && (now - m_stamp m <? 1000000000) then inl (m_mtu m)
    else if m_stamp m <? oldest then mtu_loop now ifindex l (S i) i (m_stamp m)
    else mtu_loop now ifindex l (S i) victim oldest
  end.

Definition get_mtu (n : net) (t : tx_state) (ifindex : Z) : Z * tx_state :=
  match mtu_loop (clock n) ifindex (mtu_cache t) 0 0 (m_stamp (hd (mkMtu 0 0 0) (mtu_cache t))) with
  | inl mtu => (mtu, t)
  | inr victim =>
    let mtu := query_mtu n ifindex in
    (mtu, mkTx (shut_send t) (socks t) (raw4 t) (raw6 t)
            (set_nth victim (mkMtu ifindex mtu (clock n)) (mtu_cache t)))
  end.

(** [packet_sock]: the socket for a mark, created with the handle's priority
    when it sends redirects; [inl] is an error. *)
Definition packet_sock (n : net) (h : handle_info) (t : tx_state) (mark : Z) (redirect : bool)
    : (Z + inject_sock) * tx_state :=
  match find (fun s => is_mark s =? mark) (socks t) with
  | Some s => (inr s, t)
  | None =>
    let prio := if redirect then Some (REDIRECT_PRIO_MAGIC ||| (h_tc_prio h &&& 0xFFFF)) else None in
    let err := new_packet_sock n mark prio in
    if err <? 0 then (inl err, t)
    else
      let s := mkSock mark prio in
      (inr s, mkTx (shut_send t) (socks t ++ [s]) (raw4 t) (raw6 t) (mtu_cache t))
  end.

Definition raw_sock (n : net) (h : handle_info) (t : tx_state) (v6 : bool) : Z * tx_state :=
  if (if v6 then raw6 t else raw4 t) then (0, t)
  else
    let err := new_raw_sock n v6 (LOOP_PREVENTION_MARK ||| (h_tc_prio h &&& 0xFFFF)) in
    if err <? 0 then (err, t)
    else (0, mkTx (shut_send t) (socks t) (raw4 t || negb v6) (raw6 t || v6) (mtu_cache t)).

(** ** Sending *)

Definition ETH_P_IP : Z := 0x0800.
Definition ETH_P_IPV6 : Z := 0x86DD.
Definition ETH_HLEN : Z := 14.

(** Return value, send state and what was handed to [sendto]. *)
Definition send_result : Type := Z * tx_state * list packet_out.

Definition send_af_packet (n : net) (h : handle_info) (t : tx_state) (out_ifindex mark : Z)
    (redirect : bool) (l2 pkt : list Z) (gso_size : Z) : send_result :=
  let len := zlen pkt in
  let protocol := if (byte_at pkt 0 >>> 4) =? 6 then ETH_P_IPV6 else ETH_P_IP in
  let '(frame, vh, t) :=
    if len >? 576 then
      let '(mtu, t) := get_mtu n t (if redirect then mark &&& 0xFFFF else out_ifindex) in
      if len >? u32 mtu then
        match prepare_gso (udp_l4 n) (l2 ++ pkt) (zlen l2) (u16 mtu) gso_size with
        | Some (frame, vh) => (frame, vh, t)
        | None => (l2 ++ pkt, zero_vnet, t)
        end
      else (l2 ++ pkt, zero_vnet, t)
    else (l2 ++ pkt, zero_vnet, t) in
  match packet_sock n h t mark redirect with
  | (inl err, t) => (err, t, [])
  | (inr s, t) =>
    let out := Frame out_ifindex (is_mark s) (is_prio s) vh protocol frame in
    (sendto n out, t, [out])
  end.

(** [IN6_IS_ADDR_LOOPBACK] and [IN6_IS_ADDR_LINKLOCAL] *)
Definition is_loopback6 (a : list Z) : bool :=
  forallb (fun b => b =? 0) (firstn 15 a) && (byte_at a 15 =? 1).
Definition is_linklocal6 (a : list Z) : bool :=
  (byte_at a 0 =? 0xFE) && ((byte_at a 1 &&& 0xC0) =? 0x80).

Definition send_raw_ip (n : net) (h : handle_info) (t : tx_state) (pkt : list Z) : send_result :=
  let v6 := (byte_at pkt 0 >>> 4) =? 6 in
  let '(err, t) := raw_sock n h t v6 in
  if err <? 0 then (err, t, [])
  else
    let dest := if v6 then slice pkt 24 16 else slice pkt 16 4 in
    let scope := if v6 && (is_loopback6 dest || is_linklocal6 dest) then h_lo_ifindex h else 0 in
    let out := RawIp v6 (LOOP_PREVENTION_MARK ||| (h_tc_prio h &&& 0xFFFF)) dest scope pkt in
    (sendto n out, t, [out]).

(** The checksums [inject] leaves alone: those the address says are good. *)
Definition keep_flags (a : WINDIVERT_ADDRESS) : Z :=
  (if IPChecksum a then 1 else 0) ||| (if TCPChecksum a then 8 else 0) |||
  (if UDPChecksum a then 16 else 0).

(** The packet with its checksums recalculated; the result of
    [wd_calc_checksums] is ignored. *)
Definition fix_checksums (p : list Z) (a : WINDIVERT_ADDRESS) : option (list Z) :=
  option_map c_packet (WinDivertHelperCalcChecksums p None (keep_flags a)).

(** [inject] with [fix_checksums = 1], as every caller has it; [None] when
    the checksum code reads outside the packet. *)
Definition inject (n : net) (h : handle_info) (t : tx_state) (pkt : list Z) (addr : address)
    : option send_result :=
  let a := ad_base addr in
  let stash := get_stash addr in
  let ifindex := i32 (IfIdx (Network a)) in
  let outbound := Outbound a || layer_eqb (Layer a) LAYER_NETWORK_FORWARD in
  let ver := byte_at pkt 0 >>> 4 in
  if zlen pkt <? 20 then Some (- EINVAL, t, [])
  else if negb (ver =? 4) && negb (ver =? 6) then Some (- EINVAL, t, [])
  else
    match fix_checksums pkt a with
    | None => None
    | Some pkt =>
      Some
        (if Loopback a || ((ifindex =? h_lo_ifindex h) && (ifindex >? 0)) then send_raw_ip n h t pkt
         else if outbound then
           match stash with
           | Some s =>
             if ifindex >? 0 then
               send_af_packet n h t ifindex (LOOP_PREVENTION_MARK ||| (h_tc_prio h &&& 0xFFFF)) false
                 (s_data s) pkt (s_gso_size s)
             else send_raw_ip n h t pkt
           | None => send_raw_ip n h t pkt
           end
         else if ifindex <=? 0 then send_raw_ip n h t pkt
         else
           let eth := get_hwaddr n ifindex ++ repeat 0 6 ++
                      (if ver =? 6 then [0x86; 0xDD] else [0x08; 0x00]) in
           let '(l2, gso) :=
             match stash with
             | Some s => (if zlen (s_data s) =? ETH_HLEN then s_data s else eth, s_gso_size s)
             | None => (eth, 0)
             end in
           send_af_packet n h t (h_lo_ifindex h) (REDIRECT_MARK_MASK ||| (u32 ifindex &&& 0xFFFF)) true
             l2 pkt gso)
    end.

Definition is_network (layer : WINDIVERT_LAYER) : bool :=
  layer_eqb layer LAYER_NETWORK || layer_eqb layer LAYER_NETWORK_FORWARD.

Definition ebpfdivert_send_impl (n : net) (h : handle_info) (t : tx_state) (pkt : list Z)
    (addr : address) : option send_result :=
  if has (hd_flags h) EBPFDIVERT_FLAG_RECV_ONLY then Some (- EPERM, t, [])
  else if negb (is_network (h_layer h)) then Some (- EINVAL, t, [])
  else if shut_send t then Some (- ESHUTDOWN, t, [])
  else if zlen pkt >? EBPFDIVERT_MTU_MAX then Some (- EMSGSIZE, t, [])
  else inject n h t pkt addr.

(** The loop of [ebpfdivert_send_ex_impl] over the addresses: return value,
    bytes sent ([None] when [*send_len] is not written), state, output. *)
Fixpoint send_ex_loop (n : net) (h : handle_info) (t : tx_state) (pkt : list Z) (addrs : list address)
    (first : bool) (off sent : Z) (out : list packet_out)
    : option (Z * option Z * tx_state * list packet_out) :=
  match addrs with
  | [] => Some (0, Some sent, t, out)
  | a :: addrs =>
    if off >=? zlen pkt then Some (0, Some sent, t, out)
    else
      let p := skipn (Z.to_nat off) pkt in
      match wd_parse_packet p with
      | None => Some (if first then - EINVAL else 0, None, t, out)
      | Some info =>
        let plen := if wi_ipv6 info then 40 + ((byte_at p 4 <<< 8) ||| byte_at p 5)
                    else (byte_at p 2 <<< 8) ||| byte_at p 3 in
        if (plen =? 0) || (u32 (off + plen) >? zlen pkt) then Some (- EINVAL, None, t, out)
        else
          match ebpfdivert_send_impl n h t (firstn (Z.to_nat plen) p) a with
          | None => None
          | Some (ret, t, o) =>
            if negb (ret =? 0) then
              Some (if sent =? 0 then ret else 0, Some sent, t, out ++ o)
            else send_ex_loop n h t pkt addrs false (u32 (off + plen)) (u32 (sent + plen)) (out ++ o)
          end
      end
  end.

Definition ebpfdivert_send_ex_impl (n : net) (h : handle_info) (t : tx_state) (pkt : list Z)
    (addrs : list address) : option (Z * option Z * tx_state * list packet_out) :=
  send_ex_loop n h t pkt addrs true 0 0 [].

(** ** The stash *)

Lemma le16_ld16 v s : 0 <= v < 2 ^ 16 -> ld16 (le16 v ++ s) 0 = v.
Proof.
  intros H. unfold ld16. change (byte_at (le16 v ++ s) 0) with (v mod 2 ^ 8).
  change (byte_at (le16 v ++ s) (0 + 1)) with (v / 2 ^ 8 mod 2 ^ 8). change (2 ^ 8) with 256 in *.
  rewrite (Z.mod_small (v / 256)) by (split; [apply Z.div_pos|apply Z.div_lt_upper_bound]; lia).
  pose proof (Z.div_mod v 256). lia.
Qed.

Lemma stash_get a s l2 gso : zlen l2 <= L2_STASH_MAX -> 0 <= gso < 2 ^ 16 ->
  get_stash (mkAddr a (stash_l2 s l2 gso)) = Some (mkStash gso l2).
Proof.
  intros Hl Hg. unfold get_stash, stash_l2. cbn [ad_stash].
  destruct (zlen l2 >? L2_STASH_MAX) eqn:E; [rewrite Z.gtb_ltb in E; b2p; lia|].
  set (r := skipn _ s).
  change (byte_at ([L2_STASH_MAGIC; zlen l2] ++ le16 gso ++ l2 ++ r) 0) with L2_STASH_MAGIC.
  change (byte_at ([L2_STASH_MAGIC; zlen l2] ++ le16 gso ++ l2 ++ r) 1) with (zlen l2).
  rewrite Z.eqb_refl, E. cbn [negb orb]. do 2 f_equal.
  - rewrite <- (le16_ld16 gso (l2 ++ r) Hg) at 2. reflexivity.
  - unfold slice. change (Z.to_nat 4) with 4%nat. cbn [app skipn le16]. unfold zlen.
    rewrite Nat2Z.id, firstn_app, Nat.sub_diag, firstn_all, firstn_O. apply app_nil_r.
Qed.

(** ** Sockets *)

(** The mark of the handle's own injections and of its redirects. *)
Definition own_mark (h : handle_info) : Z := LOOP_PREVENTION_MARK ||| (h_tc_prio h &&& 0xFFFF).
Definition redirect_prio (h : handle_info) : Z := REDIRECT_PRIO_MAGIC ||| (h_tc_prio h &&& 0xFFFF).

Definition is_redirect (mark : Z) : bool := (mark &&& 0xFFFF0000) =? REDIRECT_MARK_MASK.

(** Every cached socket was given the priority its mark asks for. *)
Definition socks_ok (h : handle_info) (t : tx_state) : Prop :=
  Forall (fun s => is_prio s = if is_redirect (is_mark s) then Some (redirect_prio h) else None)
    (socks t).

Lemma prio_low p : 0 <= p < 2 ^ 16 -> p &&& 0xFFFF = p.
Proof. intros H. rewrite (land_mask_mod _ 16) by (lia || reflexivity). now apply Z.mod_small. Qed.

Lemma land16_range z : 0 <= z &&& 0xFFFF < 2 ^ 16.
Proof. rewrite (land_mask_mod _ 16) by (lia || reflexivity). apply Z.mod_pos_bound. lia. Qed.

Lemma own_not_redirect h : is_redirect (own_mark h) = false.
Proof.
  unfold is_redirect, own_mark. now rewrite (proj1 (mark_parts LOOP_PREVENTION_MARK _ eq_refl (land16_range _))).
Qed.

Lemma redirect_is ifindex : is_redirect (REDIRECT_MARK_MASK ||| (u32 ifindex &&& 0xFFFF)) = true.
Proof.
  unfold is_redirect. now rewrite (proj1 (mark_parts REDIRECT_MARK_MASK _ eq_refl (land16_range _))).
Qed.

Lemma packet_sock_ok n h t mark redirect : socks_ok h t -> is_redirect mark = redirect ->
  let '(r, t') := packet_sock n h t mark redirect in
  socks_ok h t' /\ shut_send t' = shut_send t /\
  forall s, r = inr s -> s = mkSock mark (if redirect then Some (redirect_prio h) else None).
Proof.
  intros Ho Hr. unfold packet_sock. destruct (find _ (socks t)) as [s|] eqn:F.
  - apply find_some in F as [Hin Hm]. b2p. split; [exact Ho|]. split; [reflexivity|].
    intros s' E. inversion E; subst s'. unfold socks_ok in Ho. rewrite Forall_forall in Ho.
    specialize (Ho s Hin). destruct s as [m p]. cbn in *. subst. reflexivity.
  - case_if; [split; [exact Ho|split; [reflexivity|discriminate]]|]. split.
    + unfold socks_ok in *. cbn [socks]. apply Forall_app. split; [exact Ho|].
      apply Forall_cons; [|apply Forall_nil]. cbn. now rewrite Hr.
    + split; [reflexivity|]. intros s' E. now inversion E.
Qed.

Lemma get_mtu_ok n h t ifindex : socks_ok h t -> socks_ok h (snd (get_mtu n t ifindex)).
Proof. intros Ho. unfold get_mtu. destruct (mtu_loop _ _ _ _ _ _); exact Ho. Qed.

(** A frame that fits leaves as it is. *)
Definition no_gso (n : net) (t : tx_state) (mtu_index : Z) (pkt : list Z) : Prop :=
  zlen pkt <= 576 \/ zlen pkt <= u32 (fst (get_mtu n t mtu_index)).

Lemma send_af_packet_ok n h t ifindex mark redirect l2 pkt gso : socks_ok h t ->
  is_redirect mark = redirect ->
  let '(ret, t', out) := send_af_packet n h t ifindex mark redirect l2 pkt gso in
  socks_ok h t' /\
  (out = [] \/ exists vh proto frame,
     out = [Frame ifindex mark (if redirect then Some (redirect_prio h) else None) vh proto frame] /\
     (no_gso n t (if redirect then mark &&& 0xFFFF else ifindex) pkt ->
      vh = zero_vnet /\ frame = l2 ++ pkt)).
Proof.
  intros Ho Hr. unfold send_af_packet.
  set (mi := if redirect then mark &&& 0xFFFF else ifindex).
  set (stage := if zlen pkt >? 576 then _ else _).
  assert (S : socks_ok h (snd stage) /\
    (no_gso n t mi pkt -> snd (fst stage) = zero_vnet /\ fst (fst stage) = l2 ++ pkt)).
  { subst stage. pose proof (get_mtu_ok n h t mi Ho) as Hm.
    destruct (zlen pkt >? 576) eqn:E1; [|cbn; auto].
    unfold no_gso. destruct (get_mtu n t mi) as [mtu t1] eqn:G. cbn [fst snd] in *.
    destruct (zlen pkt >? u32 mtu) eqn:E2; [|cbn; auto].
    destruct (prepare_gso _ _ _ _ _) as [[f vh]|]; cbn; (split; [exact Hm|intros [?|?]; b2p; lia]). }
  destruct stage as [[frame vh] t1]. cbn [fst snd] in S. destruct S as [S1 S2].
  pose proof (packet_sock_ok n h t1 mark redirect S1 Hr) as P.
  destruct (packet_sock n h t1 mark redirect) as [[err|s] t2]; destruct P as (P1 & _ & P2);
    (split; [exact P1|]); [now left|right].
  rewrite (P2 s eq_refl). cbn [is_mark is_prio]. eauto 6.
Qed.

Lemma raw_sock_ok n h t v6 : socks_ok h t -> socks_ok h (snd (raw_sock n h t v6)).
Proof. intros Ho. unfold raw_sock. case_if; [exact Ho|]. case_if; exact Ho. Qed.

Lemma send_raw_ok n h t pkt : socks_ok h t ->
  let '(ret, t', out) := send_raw_ip n h t pkt in
  socks_ok h t' /\ forall o, In o out -> exists v6 dest scope, o = RawIp v6 (own_mark h) dest scope pkt.
Proof.
  intros Ho. unfold send_raw_ip. set (v6 := _ =? 6). pose proof (raw_sock_ok n h t v6 Ho) as R.
  destruct (raw_sock n h t v6) as [err t1]. cbn [snd] in R. case_if; (split; [exact R|]);
    intros o; cbn; [intros []|intros [<-|[]]; eauto].
Qed.

(** What [inject] may hand to the kernel. *)
Inductive own_output (h : handle_info) : packet_out -> Prop :=
| own_raw v6 dest scope pkt : own_output h (RawIp v6 (own_mark h) dest scope pkt)
| own_frame ifindex vh proto frame : own_output h (Frame ifindex (own_mark h) None vh proto frame)
| own_redirect target vh proto frame : 0 <= target < 2 ^ 16 ->
    own_output h (Frame (h_lo_ifindex h) (REDIRECT_MARK_MASK ||| target) (Some (redirect_prio h))
                    vh proto frame).

Definition own_result (h : handle_info) (r : send_result) : Prop :=
  socks_ok h (snd (fst r)) /\ Forall (own_output h) (snd r).

Lemma raw_own n h t p : socks_ok h t -> own_result h (send_raw_ip n h t p).
Proof.
  intros Ho. pose proof (send_raw_ok n h t p Ho) as Q. destruct (send_raw_ip n h t p) as [[ret t'] out].
  destruct Q as [Q1 Q2]. split; [exact Q1|]. apply Forall_forall. intros o Hin.
  destruct (Q2 o Hin) as (? & ? & ? & ->). constructor.
Qed.

Lemma frame_own n h t ifindex l2 p gso : socks_ok h t ->
  own_result h (send_af_packet n h t ifindex (own_mark h) false l2 p gso).
Proof.
  intros Ho. pose proof (send_af_packet_ok n h t ifindex _ false l2 p gso Ho (own_not_redirect h)) as Q.
  destruct (send_af_packet _ _ _ _ _ _ _ _ _) as [[ret t'] out]. destruct Q as [Q1 Q2].
  split; [exact Q1|]. cbn [snd]. destruct Q2 as [-> | (? & ? & ? & -> & _)]; repeat constructor.
Qed.

Lemma redirect_own n h t ifindex l2 p gso : socks_ok h t ->
  own_result h (send_af_packet n h t (h_lo_ifindex h)
    (REDIRECT_MARK_MASK ||| (u32 ifindex &&& 0xFFFF)) true l2 p gso).
Proof.
  intros Ho. pose proof (send_af_packet_ok n h t (h_lo_ifindex h) _ true l2 p gso Ho
    (redirect_is ifindex)) as Q.
  destruct (send_af_packet _ _ _ _ _ _ _ _ _) as [[ret t'] out]. destruct Q as [Q1 Q2].
  split; [exact Q1|]. cbn [snd]. destruct Q2 as [-> | (? & ? & ? & -> & _)]; repeat constructor;
    apply land16_range.
Qed.

Lemma inject_own n h t pkt addr r : socks_ok h t -> inject n h t pkt addr = Some r -> own_result h r.
Proof.
  intros Ho. unfold inject. assert (N : own_result h (- EINVAL, t, [])) by (split; [exact Ho|apply Forall_nil]).
  case_if; [intros E; inversion E; now subst|]. case_if; [intros E; inversion E; now subst|].
  destruct (fix_checksums pkt (ad_base addr)) as [p|]; [|discriminate].
  intros E. injection E as <-. case_if; [now apply raw_own|]. case_if.
  - destruct (get_stash addr) as [s|]; [|now apply raw_own].
    case_if; [now apply frame_own|now apply raw_own].
  - case_if; [now apply raw_own|]. destruct (get_stash addr) as [s|]; now apply redirect_own.
Qed.

(** Send states a handle goes through. *)
Inductive tx_reachable (h : handle_info) : tx_state -> Prop :=
| tx_start : tx_reachable h tx_init
| tx_inject n t pkt addr ret t' out : tx_reachable h t ->
    inject n h t pkt addr = Some (ret, t', out) -> tx_reachable h t'
| tx_shut t : tx_reachable h t ->
    tx_reachable h (mkTx true (socks t) (raw4 t) (raw6 t) (mtu_cache t)).

Lemma tx_reachable_ok h t : tx_reachable h t -> socks_ok h t.
Proof.
  induction 1 as [|n t pkt addr ret t' out _ IH E|t _ IH].
  - apply Forall_nil.
  - exact (proj1 (inject_own _ _ _ _ _ _ IH E)).
  - exact IH.
Qed.

(** ** Checksums of re-injected packets *)

Lemma put_checksum_len ps p h o len q : put_checksum ps p h o len = Some q -> zlen q = zlen p.
Proof.
  unfold put_checksum. destruct (WinDivertCalcChecksum _ _ _ _); [|discriminate].
  intros E; inversion E. now rewrite !st16_len.
Qed.

Lemma put_pseudo_len p a b proto h o len q : put_pseudo p a b proto h o len = Some q -> zlen q = zlen p.
Proof.
  unfold put_pseudo. destruct (WinDivertInitPseudoHeader _ _ _ _ _); [|discriminate].
  apply put_checksum_len.
Qed.

Lemma calc_len p addr flags out : WinDivertHelperCalcChecksums p addr flags = Some out ->
  zlen (c_packet out) = zlen p.
Proof.
  unfold WinDivertHelperCalcChecksums. destruct (WinDivertHelperParsePacketEx p) as [info|];
    [|intros E; inversion E; reflexivity].
  destruct (calc_ip p info addr flags) as [[q addr']|] eqn:I; [|discriminate].
  assert (Hq : zlen q = zlen p).
  { revert I. unfold calc_ip. destruct (IPHeader info); [|congruence]. case_if; [congruence|].
    destruct (put_checksum _ _ _ _ _) eqn:P; [|discriminate]. apply put_checksum_len in P. congruence. }
  rewrite <- Hq. unfold calc_transport.
  destruct (ICMPHeader info), (ICMPv6Header info), (TCPHeader info), (UDPHeader info);
    repeat case_if; try (intros E; inversion E; reflexivity);
    match goal with |- context [match ?d with Some _ => _ | None => _ end = _] => destruct d eqn:D end;
    try discriminate; intros E; inversion E; cbn [c_packet];
    try (now apply put_checksum_len in D); try (now apply put_pseudo_len in D);
    match type of D with context [option_map _ ?x] => destruct x eqn:U; [|discriminate] end;
    inversion D; unfold udp_nonzero; apply put_pseudo_len in U; case_if; rewrite ?st16_len; exact U.
Qed.

Lemma fix_checksums_len p a q : fix_checksums p a = Some q -> zlen q = zlen p.
Proof.
  unfold fix_checksums. destruct (WinDivertHelperCalcChecksums _ _ _) eqn:E; [|discriminate].
  intros D; inversion D. now apply calc_len in E.
Qed.

(** The address vouches for every checksum of a TCP or UDP packet. *)
Definition checksums_good (info : WINDIVERT_PACKET) (a : WINDIVERT_ADDRESS) : bool :=
  (negb (non_null (IPHeader info)) || IPChecksum a) &&
  (if non_null (TCPHeader info) then TCPChecksum a
   else if non_null (UDPHeader info) then UDPChecksum a else false).

Lemma keep_flags_has a : has (keep_flags a) WINDIVERT_HELPER_NO_IP_CHECKSUM = IPChecksum a /\
  has (keep_flags a) WINDIVERT_HELPER_NO_TCP_CHECKSUM = TCPChecksum a /\
  has (keep_flags a) WINDIVERT_HELPER_NO_UDP_CHECKSUM = UDPChecksum a.
Proof.
  unfold keep_flags. destruct (IPChecksum a), (TCPChecksum a), (UDPChecksum a); repeat split.
Qed.

Lemma fix_checksums_keep p info a : bytes p -> WinDivertHelperParsePacketEx p = Some info ->
  checksums_good info a = true -> fix_checksums p a = Some p.
Proof.
  intros Hp Hi Hg. unfold checksums_good in Hg. apply andb_true_iff in Hg as [G1 G2].
  destruct (keep_flags_has a) as (K1 & K2 & K3). pose proof (parse_layout p info Hp Hi) as L.
  unfold fix_checksums, WinDivertHelperCalcChecksums. rewrite Hi.
  assert (I : calc_ip p info None (keep_flags a) = Some (p, None)).
  { unfold calc_ip. destruct (IPHeader info); [|reflexivity]. cbn in G1. now rewrite K1, G1. }
  rewrite I. pose proof (ly_field _ _ L) as F. unfold transport_field in F. unfold calc_transport.
  destruct (TCPHeader info) as [h|] eqn:T; [|destruct (UDPHeader info) as [h|] eqn:U; [|discriminate]];
    destruct (F h) as [F1 F2];
    destruct (ICMPHeader info), (ICMPv6Header info);
    try (specialize (F1 eq_refl); discriminate); try (specialize (F2 eq_refl); discriminate);
    cbn in G2; rewrite ?K2, ?K3, G2; reflexivity.
Qed.

(** ** Example: a UDP packet captured on interface 2 *)

Module ExSend.

Definition os : net := mkNet (fun _ _ => 0) (fun _ _ => 0) (fun _ => 0) (fun _ => true) true
  (fun _ => Some 1500) (fun _ => Some (ARPHRD_ETHER, repeat 0 6)) 0 true.

Definition handle : handle_info :=
  mkHandle LAYER_NETWORK 0 30001 1 (mkWdFilter LAYER_NETWORK 0 []) true.

Definition l2 : list Z := [2; 0; 0; 0; 0; 1;  2; 0; 0; 0; 0; 2;  0x08; 0x00].

(** The address of a packet with good checksums. *)
Definition addr (outbound : bool) : WINDIVERT_ADDRESS :=
  mkAddress 7 LAYER_NETWORK 0 false outbound false false false true false true
    (mkDataNetwork 2 0) (mkDataFlow 0 0 0 (W128 0 0 0 0) (W128 0 0 0 0) 0 0 0)
    (mkDataReflect 0 0 LAYER_NETWORK 0 0).

Definition sent (outbound : bool) : send_result :=
  match inject os handle tx_init ex_valid (mkAddr (addr outbound) (stash_l2 (repeat 0 26) l2 0)) with
  | Some r => r
  | None => (0, tx_init, [])
  end.

Lemma sent_eq outbound :
  inject os handle tx_init ex_valid (mkAddr (addr outbound) (stash_l2 (repeat 0 26) l2 0)) =
  Some (0, snd (fst (sent outbound)), snd (sent outbound)).
Proof. destruct outbound; vm_compute; reflexivity. Qed.

Definition config : divert_config := mkConfig 30001 65536 LOOP_PREVENTION_MARK 1 0 0 0.

Definition kern : kernel :=
  mkKernel 0 7 (fun _ => None) (fun _ => 0) (fun _ => true) (fun _ => true) (fun i _ => i)
    (mkLpm (fun _ _ => None) (fun _ _ => None)).

Definition skb : sk_buff :=
  mkSkb (l2 ++ ex_valid) 1 0 (REDIRECT_MARK_MASK ||| 2) (redirect_prio handle) 0 0.
End ExSend.

(** ** Properties *)

(** The L2 header is stashed in the unused bytes of the address. *)
Definition captured_address (a : WINDIVERT_ADDRESS) (s l2 : list Z) (gso : Z) : address :=
  mkAddr a (stash_l2 s l2 gso).

(** What [inject] sends for a captured outbound packet. *)
Lemma reinject_frame n h t p a s l2 gso ret t' out :
  tx_reachable h t -> zlen l2 <= L2_STASH_MAX -> 0 <= gso < 2 ^ 16 ->
  Loopback a = false -> Outbound a = true -> 0 < IfIdx (Network a) < 2 ^ 31 ->
  IfIdx (Network a) <> h_lo_ifindex h -> no_gso n t (IfIdx (Network a)) p ->
  inject n h t p (captured_address a s l2 gso) = Some (ret, t', out) -> out <> [] ->
  exists p' proto, fix_checksums p a = Some p' /\
    out = [Frame (IfIdx (Network a)) (own_mark h) None zero_vnet proto (l2 ++ p')] /\
    (forall info, bytes p -> WinDivertHelperParsePacketEx p = Some info ->
       checksums_good info a = true -> p' = p).
Proof.
  intros Hr Hl Hg Hlo Ho Hi Hne Hm. pose proof (tx_reachable_ok h t Hr) as Hs.
  unfold inject, captured_address. rewrite stash_get by assumption. cbn [ad_base s_data s_gso_size].
  assert (I : i32 (IfIdx (Network a)) = IfIdx (Network a)).
  { unfold i32, u32. rewrite Z.mod_small by lia. now destruct (Z.ltb_spec (IfIdx (Network a)) (2 ^ 31)); [|lia]. }
  rewrite I, Hlo, Ho. destruct (Z.eqb_spec (IfIdx (Network a)) (h_lo_ifindex h)); [congruence|].
  destruct (Z.gtb_spec (IfIdx (Network a)) 0); [|lia]. cbn [orb andb].
  case_if; [intros E; inversion E; congruence|]. case_if; [intros E; inversion E; congruence|].
  destruct (fix_checksums p a) as [q|] eqn:Q; [|discriminate]. fold (own_mark h).
  pose proof (send_af_packet_ok n h t (IfIdx (Network a)) (own_mark h) false l2 q gso Hs
    (own_not_redirect h)) as S.
  intros E Ne. injection E as E. rewrite E in S.
  destruct S as [_ [S|(vh & proto & frame & -> & S)]]; [contradiction|].
  destruct S as [-> ->]; [unfold no_gso in *; now rewrite (fix_checksums_len p a q Q)|].
  exists q, proto. split; [reflexivity|]. split; [reflexivity|].
  intros info Hb Hp Hc. rewrite (fix_checksums_keep p info a Hb Hp Hc) in Q. congruence.
Qed.

(** A packet that parses is long enough for [inject], and IP. *)
Lemma parse_is_ip p info : WinDivertHelperParsePacketEx p = Some info ->
  20 <= zlen p /\ (ip_Version p 0 = 4 \/ ip_Version p 0 = 6).
Proof.
  intros Hi. destruct (parse_inv _ _ Hi) as (i & Hs & _). revert Hs. case_if; b2p.
  - unfold parse_ipv4. case_if; [discriminate|]. intros _. b2p. split; [lia|now left].
  - case_if; [|discriminate]. unfold parse_ipv6. case_if; [discriminate|]. intros _. b2p. split; [lia|now right].
Qed.

(** The handle has a socket for its own mark, or the system gives it one. *)
Definition can_send (n : net) (h : handle_info) (t : tx_state) : bool :=
  existsb (fun s => is_mark s =? own_mark h) (socks t) || negb (new_packet_sock n (own_mark h) None <? 0).

Lemma packet_sock_own n h t : socks_ok h t ->
  exists t', packet_sock n h t (own_mark h) false =
    (if can_send n h t then inr (mkSock (own_mark h) None) else inl (new_packet_sock n (own_mark h) None), t').
Proof.
  intros Ho. pose proof (packet_sock_ok n h t (own_mark h) false Ho (own_not_redirect h)) as P.
  unfold can_send. assert (X : existsb (fun s => is_mark s =? own_mark h) (socks t) =
    match find (fun s => is_mark s =? own_mark h) (socks t) with Some _ => true | None => false end).
  { induction (socks t) as [|x l IH]; [reflexivity|]. cbn [existsb find]. destruct (is_mark x =? own_mark h); [reflexivity|exact IH]. }
  rewrite X. unfold packet_sock in *. destruct (find _ (socks t)) as [s|].
  - destruct P as (_ & _ & P). rewrite (P s eq_refl). cbn. eauto.
  - destruct (new_packet_sock n (own_mark h) None <? 0); cbn; eauto.
Qed.

Lemma get_mtu_socks n t ifindex : socks (snd (get_mtu n t ifindex)) = socks t.
Proof. unfold get_mtu. now destruct (mtu_loop _ _ _ _ _ _). Qed.

(** A frame that fits is handed to the kernel as it is. *)
Lemma send_af_packet_sends n h t ifindex l2 p gso : socks_ok h t -> no_gso n t ifindex p ->
  let out := Frame ifindex (own_mark h) None zero_vnet (if (byte_at p 0 >>> 4) =? 6 then ETH_P_IPV6 else ETH_P_IP) (l2 ++ p) in
  exists t', send_af_packet n h t ifindex (own_mark h) false l2 p gso =
    (if can_send n h t then (sendto n out, t', [out]) else (new_packet_sock n (own_mark h) None, t', [])).
Proof.
  intros Ho Hg. unfold send_af_packet. set (stage := if zlen p >? 576 then _ else _).
  assert (S : exists t1, stage = (l2 ++ p, zero_vnet, t1) /\ socks t1 = socks t).
  { subst stage. unfold no_gso in Hg. pose proof (get_mtu_socks n t ifindex) as M.
    destruct (zlen p >? 576) eqn:E1; [|eauto]. destruct (get_mtu n t ifindex) as [mtu t1]. cbn [fst snd] in *.
    destruct (zlen p >? u32 mtu) eqn:E2; [|eauto]. b2p. lia. }
  destruct S as (t1 & -> & St). assert (Ho1 : socks_ok h t1) by (unfold socks_ok; now rewrite St).
  destruct (packet_sock_own n h t1 Ho1) as (t2 & E). unfold can_send in *. rewrite St in E. rewrite E.
  destruct (_ || _); cbn; eauto.
Qed.

(** What becomes of a captured outbound packet that is put back unchanged. *)
Lemma reinject_sends n h t p a s l2 gso info :
  tx_reachable h t -> zlen l2 <= L2_STASH_MAX -> 0 <= gso < 2 ^ 16 ->
  Loopback a = false -> Outbound a = true -> 0 < IfIdx (Network a) < 2 ^ 31 ->
  IfIdx (Network a) <> h_lo_ifindex h -> no_gso n t (IfIdx (Network a)) p ->
  bytes p -> WinDivertHelperParsePacketEx p = Some info -> checksums_good info a = true ->
  let out := Frame (IfIdx (Network a)) (own_mark h) None zero_vnet (if ip_Version p 0 =? 6 then ETH_P_IPV6 else ETH_P_IP) (l2 ++ p) in
  exists t', inject n h t p (captured_address a s l2 gso) =
    Some (if can_send n h t then (sendto n out, t', [out]) else (new_packet_sock n (own_mark h) None, t', [])).
Proof.
  intros Hr Hl Hg Hlo Ho Hi Hne Hm Hb Hp Hc. destruct (parse_is_ip _ _ Hp) as [Hz Hv].
  unfold inject, captured_address. rewrite stash_get by assumption. cbn [ad_base s_data s_gso_size].
  assert (I : i32 (IfIdx (Network a)) = IfIdx (Network a)).
  { unfold i32, u32. rewrite Z.mod_small by lia. now destruct (Z.ltb_spec (IfIdx (Network a)) (2 ^ 31)); [|lia]. }
  rewrite I, Hlo, Ho, (fix_checksums_keep p info a Hb Hp Hc). fold (own_mark h).
  destruct (Z.eqb_spec (IfIdx (Network a)) (h_lo_ifindex h)); [congruence|].
  destruct (Z.gtb_spec (IfIdx (Network a)) 0); [|lia]. destruct (Z.ltb_spec (zlen p) 20); [lia|].
  unfold ip_Version in Hv. replace (negb _ && negb _) with false by (destruct Hv as [-> | ->]; reflexivity). cbn [orb andb].
  destruct (send_af_packet_sends n h t (IfIdx (Network a)) l2 p gso (tx_reachable_ok h t Hr) Hm) as (t' & ->). now exists t'.
Qed.

(** A captured packet can be put back where it was taken from: sending an
    outbound packet with the address it was received with hands the kernel
    one frame, on the same interface, with the L2 header it had, the
    handle's own mark, and the packet with its checksums recalculated; when
    the address vouches for the checksums the bytes are untouched. *)
Theorem reinject_restores_frame n h t p a s l2 gso ret t' out :
  tx_reachable h t -> zlen l2 <= L2_STASH_MAX -> 0 <= gso < 2 ^ 16 ->
  Loopback a = false -> Outbound a = true -> 0 < IfIdx (Network a) < 2 ^ 31 ->
  IfIdx (Network a) <> h_lo_ifindex h -> no_gso n t (IfIdx (Network a)) p ->
  inject n h t p (captured_address a s l2 gso) = Some (ret, t', out) -> out <> [] ->
  exists p' proto, fix_checksums p a = Some p' /\
    out = [Frame (IfIdx (Network a)) (own_mark h) None zero_vnet proto (l2 ++ p')] /\
    (forall info, bytes p -> WinDivertHelperParsePacketEx p = Some info ->
       checksums_good info a = true -> p' = p).
Proof. apply reinject_frame. Qed.

Lemma reinject_restores_frame_witness : exists proto,
  snd (ExSend.sent true) =
  [Frame 2 (own_mark ExSend.handle) None zero_vnet proto (ExSend.l2 ++ ex_valid)].
Proof.
  destruct (reinject_restores_frame ExSend.os ExSend.handle tx_init ex_valid (ExSend.addr true)
    (repeat 0 26) ExSend.l2 0 0 (snd (fst (ExSend.sent true))) (snd (ExSend.sent true)) (tx_start _)
    ltac:(vm_compute; congruence) ltac:(split; vm_compute; congruence) eq_refl eq_refl
    ltac:(split; vm_compute; congruence) ltac:(vm_compute; congruence)
    ltac:(left; vm_compute; congruence) (ExSend.sent_eq true) ltac:(vm_compute; congruence))
    as (p' & proto & Q & E & _).
  exists proto. rewrite E. vm_compute in Q. inversion Q. vm_compute. reflexivity.
Defined.

(** The packet [skb] the kernel makes of [o]; behind a raw socket it adds the
    L2 header itself. *)
Definition sent_as (o : packet_out) (skb : sk_buff) : Prop :=
  match o with
  | RawIp _ mark _ _ _ => skb_mark skb = mark
  | Frame _ mark prio _ _ frame =>
    skb_mark skb = mark /\ skb_bytes skb = frame /\ forall x, prio = Some x -> skb_priority skb = x
  end.

(** C11. Injected packets do not come back: whatever [inject] sends, the
    programs of the handle itself, and of every handle of a higher priority,
    let it pass without a trace; an inbound injection is first redirected
    from the loopback device to its interface and passes there. *)
Theorem injected_not_recaptured n h t pkt addr ret t' out k cfg maps st o skb :
  tx_reachable h t -> 0 <= h_tc_prio h < 2 ^ 16 -> default_mark cfg -> priority cfg <= h_tc_prio h ->
  owner_gone k cfg = false ->
  inject n h t pkt addr = Some (ret, t', out) -> In o out -> sent_as o skb ->
  if is_redirect (skb_mark skb) then
    exists skb2 skb3,
      tc_divert_ingress k cfg maps skb st =
        (redirect k (skb_mark skb &&& 0xFFFF) BPF_F_INGRESS, skb2, st) /\
      tc_divert_ingress k cfg maps skb2 st = (TC_ACT_UNSPEC, skb3, st) /\
      skb_bytes skb3 = skb_bytes skb
  else forall dir, process_packet k cfg maps skb dir st = (TC_ACT_UNSPEC, st).
Proof.
  intros Hr Hp Hd Hle Hg Hi Hin Hs.
  destruct (inject_own n h t pkt addr _ (tx_reachable_ok h t Hr) Hi) as [_ F]. cbn [snd] in F.
  rewrite Forall_forall in F. specialize (F o Hin).
  assert (Own : skb_mark skb = own_mark h ->
    if is_redirect (skb_mark skb) then exists skb2 skb3,
      tc_divert_ingress k cfg maps skb st =
        (redirect k (skb_mark skb &&& 0xFFFF) BPF_F_INGRESS, skb2, st) /\
      tc_divert_ingress k cfg maps skb2 st = (TC_ACT_UNSPEC, skb3, st) /\ skb_bytes skb3 = skb_bytes skb
    else forall dir, process_packet k cfg maps skb dir st = (TC_ACT_UNSPEC, st)).
  { intros E. rewrite E, own_not_redirect. intros dir. unfold own_mark in E. rewrite prio_low in E by exact Hp.
    destruct (injected_passes k cfg maps skb dir st _ Hd Hp E Hle) as (st' & -> & _ & Q).
    now rewrite (Q Hg). }
  destruct F as [v6 dest scope q|ifindex vh proto frame|target vh proto frame Ht]; cbn in Hs.
  - now apply Own.
  - now apply Own.
  - destruct Hs as (M & B & P). specialize (P _ eq_refl). unfold redirect_prio in P.
    rewrite prio_low in P by exact Hp. clear Own. rewrite M.
    destruct (mark_parts REDIRECT_MARK_MASK target eq_refl Ht) as [M1 M2].
    unfold is_redirect. rewrite M1, M2. change (_ =? REDIRECT_MARK_MASK) with true. cbn iota.
    destruct (hand_off k k cfg cfg maps maps skb st st target (h_tc_prio h) Ht Hp M P Hd Hle Hg)
      as (skb2 & skb3 & E1 & _ & E2 & B3 & _).
    eauto 6.
Qed.

Lemma injected_not_recaptured_witness : exists skb2 skb3,
  tc_divert_ingress ExSend.kern ExSend.config empty_maps ExSend.skb (mkState (repeat 0 8) []) =
    (2, skb2, mkState (repeat 0 8) []) /\
  tc_divert_ingress ExSend.kern ExSend.config empty_maps skb2 (mkState (repeat 0 8) []) =
    (TC_ACT_UNSPEC, skb3, mkState (repeat 0 8) []) /\ skb_bytes skb3 = ExSend.l2 ++ ex_valid.
Proof.
  pose proof (injected_not_recaptured ExSend.os ExSend.handle tx_init ex_valid _ _ _ _ ExSend.kern
    ExSend.config empty_maps (mkState (repeat 0 8) [])
    (Frame 1 (REDIRECT_MARK_MASK ||| 2) (Some (redirect_prio ExSend.handle)) zero_vnet ETH_P_IP
       (ExSend.l2 ++ ex_valid)) ExSend.skb (tx_start _) ltac:(split; vm_compute; congruence)
    ltac:(now right) ltac:(vm_compute; congruence) eq_refl (ExSend.sent_eq false)) as T.
  assert (I : In (Frame 1 (REDIRECT_MARK_MASK ||| 2) (Some (redirect_prio ExSend.handle)) zero_vnet
    ETH_P_IP (ExSend.l2 ++ ex_valid)) (snd (ExSend.sent false))) by (vm_compute; left; reflexivity).
  assert (S : sent_as (Frame 1 (REDIRECT_MARK_MASK ||| 2) (Some (redirect_prio ExSend.handle)) zero_vnet
    ETH_P_IP (ExSend.l2 ++ ex_valid)) ExSend.skb)
    by (cbn [sent_as]; split; [reflexivity|split; [exact eq_refl|intros x [= <-]; exact eq_refl]]).
  specialize (T I S). replace (is_redirect (skb_mark ExSend.skb)) with true in T by reflexivity.
  destruct T as (skb2 & skb3 & E1 & E2 & B). exists skb2, skb3.
  rewrite E1, E2, B. split; [reflexivity|split; reflexivity].
Defined.

(** ** The checksum of a GSO packet *)

(** Two rounds fold any 32-bit sum to 16 bits. *)
Lemma fold_loop_done s : 0 <= s < 2 ^ 32 -> 0 <= fold_loop 2 s < 2 ^ 16 /\
  (fold_loop 2 s) mod 0xFFFF = s mod 0xFFFF.
Proof.
  intros H. cbn [fold_loop]. rewrite !(land_mask_mod _ 16) by (lia || reflexivity).
  rewrite !Z.shiftr_div_pow2 by lia.
  assert (F : forall x, 0 <= x < 2 ^ 32 -> 0 <= x mod 2 ^ 16 + x / 2 ^ 16 <= 0xFFFF + x / 2 ^ 16 /\
    u32 (x mod 2 ^ 16 + x / 2 ^ 16) = x mod 2 ^ 16 + x / 2 ^ 16 /\
    (x mod 2 ^ 16 + x / 2 ^ 16) mod 0xFFFF = x mod 0xFFFF).
  { intros x Hx. pose proof (Z.mod_pos_bound x (2 ^ 16)). pose proof (Z.div_mod x (2 ^ 16)).
    assert (0 <= x / 2 ^ 16 < 2 ^ 16) by (split; [apply Z.div_pos|apply Z.div_lt_upper_bound]; lia).
    split; [lia|]. split; [unfold u32; apply Z.mod_small; lia|].
    rewrite <- (Z.mod_add _ (x / 2 ^ 16) 0xFFFF) by lia. f_equal. lia. }
  destruct (Z.eqb_spec (s / 2 ^ 16) 0) as [E|E].
  - split; [|reflexivity]. pose proof (Z.div_mod s (2 ^ 16)). pose proof (Z.mod_pos_bound s (2 ^ 16)). lia.
  - destruct (F s H) as (F1 & F2 & F3). rewrite F2. set (x := s mod 2 ^ 16 + s / 2 ^ 16) in *.
    assert (Hs : s / 2 ^ 16 < 2 ^ 16) by (apply Z.div_lt_upper_bound; lia).
    destruct (F x ltac:(lia)) as (G1 & G2 & G3). rewrite <- F3.
    destruct (Z.eqb_spec (x / 2 ^ 16) 0) as [E2|E2].
    + split; [|reflexivity]. pose proof (Z.div_mod x (2 ^ 16)). pose proof (Z.mod_pos_bound x (2 ^ 16)). lia.
    + rewrite G2. split; [|exact G3].
      assert (x / 2 ^ 16 < 2) by (apply Z.div_lt_upper_bound; lia).
      pose proof (Z.div_mod x (2 ^ 16)). pose proof (Z.mod_pos_bound x (2 ^ 16)). lia.
Qed.
