(* ===== verification/HdEvents.v ===== *)
(** * Event handles in user space

    [src/handle.c]: [deliver_event], [udp_track], [udp_release] and
    [event_callback] of the FLOW and SOCKET layers, [deliver_reflect] and
    [reflect_poll] of the REFLECT layer.

    Results are [None] when the evaluator leaves defined behaviour; for a
    well-formed filter it does not. *)

From Stdlib Require Import ZArith List Bool Lia ZifyBool Permutation.
From S2P Require Import Prelude WdTypes WdPacket WdHash WdExec WdHelper PfRange PfAddr PfCube PfBranch.
From S2P Require Import PfEncode PfSound PfEvents BpfMatch BpfTc BpfEvents HdQueue HdSend.
Import ListNotations.

(** ** FLOW and SOCKET *)

(** Ten bytes of zero are not all tested: only bytes 0, 8 and 9. *)
Definition addr_is_loopback (a : list Z) : bool :=
  if (byte_at a 10 =? 0xFF) && (byte_at a 11 =? 0xFF) && (byte_at a 0 =? 0) && (byte_at a 8 =? 0) &&
     (byte_at a 9 =? 0)
  then byte_at a 12 =? 127
  else list_eqb (firstn 16 a) (repeat 0 15 ++ [1]).

Definition zero_flow : WINDIVERT_DATA_FLOW := mkDataFlow 0 0 0 zero128 zero128 0 0 0.
Definition zero_reflect : WINDIVERT_DATA_REFLECT := mkDataReflect 0 0 LAYER_NETWORK 0 0.

(** The address [deliver_event] fills in. *)
Definition event_address (h : handle_info) (ev : divert_event) (event : Z) : WINDIVERT_ADDRESS :=
  {| Timestamp := i64 (ev_timestamp ev); Layer := h_layer h; Event := event;
     Sniffed := has (hd_flags h) EBPFDIVERT_FLAG_SNIFF; Outbound := false;
     Loopback := addr_is_loopback (ev_local_addr ev) || addr_is_loopback (ev_remote_addr ev);
     Impostor := false; IPv6 := ev_family ev =? 6;
     IPChecksum := false; TCPChecksum := false; UDPChecksum := false;
     Network := mkDataNetwork 0 0;
     Flow := mkDataFlow (ev_endpoint_id ev) (ev_parent_endpoint_id ev) (ev_pid ev)
               (words_from_net (ev_local_addr ev)) (words_from_net (ev_remote_addr ev))
               (ev_local_port ev) (ev_remote_port ev) (ev_protocol ev);
     Reflect := zero_reflect |}.

Definition deliver_event (h : handle_info) (ev : divert_event) (event : Z) (q : rx_state)
    : option rx_state :=
  let addr := event_address h ev event in
  match wd_filter_eval (h_filter h) None addr with
  | VUndef => None
  | VRet r => if negb (r =? 1) then Some q else Some (queue_push q (mkEntry (mkAddr addr []) []))
  end.

Definition UDP_TRACK_MAX : Z := 65536.

(** [h->udp[0 .. nudp-1]]: the UDP flows reported as established. *)
Definition udp_track (udp : list divert_event) (ev : divert_event) : list divert_event :=
  (if zlen udp =? UDP_TRACK_MAX then skipn (Z.to_nat (UDP_TRACK_MAX / 2)) udp else udp) ++ [ev].

Definition with_timestamp (e : divert_event) (t : Z) : divert_event :=
  mkEvent t (ev_endpoint_id e) (ev_parent_endpoint_id e) (ev_pid e) (ev_event e) (ev_protocol e)
    (ev_family e) (ev_flags e) (ev_local_port e) (ev_remote_port e) (ev_local_addr e) (ev_remote_addr e).

(** The loop of [udp_release] at index [i = length kept]: [kept] are the
    entries passed over, [rest] the others; a matching entry is replaced by
    the last one.  Every round shortens [rest]. *)
Fixpoint release_loop (fuel : nat) (h : handle_info) (ev : divert_event) (kept rest : list divert_event)
    (q : rx_state) : option (list divert_event * rx_state) :=
  match fuel, rest with
  | _, [] => Some (kept, q)
  | O, _ => None
  | S fuel, e :: tl =>
    if ev_endpoint_id e =? ev_endpoint_id ev then
      match deliver_event h (with_timestamp e (ev_timestamp ev)) DIVERT_EVENT_FLOW_DELETED q with
      | None => None
      | Some q =>
        (* [h->udp[i] = h->udp[--h->nudp]] *)
        let rest := match tl with [] => [] | _ => last tl e :: removelast tl end in
        release_loop fuel h ev kept rest q
      end
    else release_loop fuel h ev (kept ++ [e]) tl q
  end.

Definition udp_release (h : handle_info) (ev : divert_event) (udp : list divert_event) (q : rx_state)
    : option (list divert_event * rx_state) :=
  release_loop (length udp) h ev [] udp q.

(** [sizeof(struct divert_event)] is 72; [size] is what the ring delivers. *)
Definition event_callback (h : handle_info) (size : Z) (ev : divert_event) (udp : list divert_event)
    (q : rx_state) : option (list divert_event * rx_state) :=
  if size <? 72 then Some (udp, q)
  else if has (ev_flags ev) EVF_UDP_RELEASE then udp_release h ev udp q
  else
    let udp :=
      if layer_eqb (h_layer h) LAYER_FLOW && (ev_protocol ev =? IPPROTO_UDP) &&
         (ev_event ev =? DIVERT_EVENT_FLOW_ESTABLISHED)
      then udp_track udp ev else udp in
    match deliver_event h ev (ev_event ev) q with
    | None => None
    | Some q => Some (udp, q)
    end.

(** ** REFLECT *)

Definition EBPFDIVERT_EVENT_REFLECT_OPEN : Z := 8.
Definition EBPFDIVERT_EVENT_REFLECT_CLOSE : Z := 9.
Definition REG_FILTER_MAX : Z := 4096.

Record reg_attach : Set := mkRegAttach {
  ra_ifindex : Z;
  ra_attach_point : Z;
  ra_handle : Z;
  ra_priority : Z
}.

(** [struct reg_entry]; [re_attach] is [attach[0 .. nattach-1]]. *)
Record reg_entry : Set := mkReg {
  re_pid : Z;
  re_tc_prio : Z;
  re_pid_start : Z;
  re_timestamp : Z;
  re_flags : Z;
  re_layer : WINDIVERT_LAYER;
  re_priority : Z;
  re_legacy : bool;
  re_attach : list reg_attach;
  re_filter_len : Z;
  re_filter : list Z
}.

Record reflect_seen : Set := mkSeen {
  rs_id : Z;
  rs_data : WINDIVERT_DATA_REFLECT;
  rs_filter : list Z         (* [filter[0 .. filter_len-1]] *)
}.

Definition reflect_address (now : Z) (r : reflect_seen) (event : Z) : WINDIVERT_ADDRESS :=
  {| Timestamp := now; Layer := LAYER_REFLECT; Event := event; Sniffed := true; Outbound := false;
     Loopback := false; Impostor := false; IPv6 := false; IPChecksum := false; TCPChecksum := false;
     UDPChecksum := false; Network := mkDataNetwork 0 0; Flow := zero_flow; Reflect := rs_data r |}.

Definition deliver_reflect (h : handle_info) (now : Z) (r : reflect_seen) (event : Z) (q : rx_state)
    : option rx_state :=
  let addr := reflect_address now r event in
  match wd_filter_eval (h_filter h) (Some (rs_filter r)) addr with
  | VUndef => None
  | VRet v =>
    if negb (v =? 1) then Some q
    else Some (queue_push q (mkEntry (mkAddr addr []) (rs_filter r)))
  end.

Definition seen_of (id : Z) (e : reg_entry) : reflect_seen :=
  mkSeen id (mkDataReflect (re_timestamp e) (re_pid e) (re_layer e) (re_flags e) (re_priority e))
    (if re_filter_len e <=? REG_FILTER_MAX then firstn (Z.to_nat (re_filter_len e)) (re_filter e) else []).

(** [alive[i] = 1] for the first entry with the id; [None] when there is
    none. *)
Fixpoint mark_alive (id : Z) (seen : list (reflect_seen * bool)) : option (list (reflect_seen * bool)) :=
  match seen with
  | [] => None
  | (s, a) :: tl =>
    if rs_id s =? id then Some ((s, true) :: tl) else option_map (cons (s, a)) (mark_alive id tl)
  end.

(** The first loop of [reflect_poll]: [seen] with the [alive] flags. *)
Fixpoint poll_open (h : handle_info) (now : Z) (reg : list (Z * reg_entry))
    (seen : list (reflect_seen * bool)) (q : rx_state) : option (list (reflect_seen * bool) * rx_state) :=
  match reg with
  | [] => Some (seen, q)
  | (id, e) :: reg =>
    match mark_alive id seen with
    | Some seen => poll_open h now reg seen q
    | None =>
      let r := seen_of id e in
      match deliver_reflect h now r EBPFDIVERT_EVENT_REFLECT_OPEN q with
      | None => None
      | Some q => poll_open h now reg (seen ++ [(r, true)]) q
      end
    end
  end.

(** The second loop, at index [length kept]: entries that are not alive are
    reported closed and replaced by the last one. *)
Fixpoint poll_close (fuel : nat) (h : handle_info) (now : Z) (kept : list reflect_seen)
    (rest : list (reflect_seen * bool)) (q : rx_state) : option (list reflect_seen * rx_state) :=
  match fuel, rest with
  | _, [] => Some (kept, q)
  | O, _ => None
  | S fuel, (r, alive) :: tl =>
    if alive then poll_close fuel h now (kept ++ [r]) tl q
    else
      match deliver_reflect h now r EBPFDIVERT_EVENT_REFLECT_CLOSE q with
      | None => None
      | Some q =>
        poll_close fuel h now kept
          match tl with [] => [] | _ => last tl (r, alive) :: removelast tl end q
      end
  end.

(** [due]: the timer has expired since the last read; [now] stands for the
    clock during the poll; [reg] is the registry,
    [None] when it cannot be opened. *)
Definition reflect_poll (h : handle_info) (due : bool) (reg : option (list (Z * reg_entry))) (now : Z)
    (seen : list reflect_seen) (q : rx_state) : option (list reflect_seen * rx_state) :=
  if negb due && negb (zlen seen =? 0) then Some (seen, q)
  else
    match reg with
    | None => Some (seen, q)
    | Some reg =>
      match poll_open h now reg (map (fun s => (s, false)) seen) q with
      | None => None
      | Some (marked, q) => poll_close (length marked) h now [] marked q
      end
    end.

(** ** Deliveries are total *)

(** A handle with a filter of its own layer. *)
Definition handle_ok (h : handle_info) : Prop :=
  wf_layer (h_filter h) = h_layer h /\ wf_filter (h_layer h) (wf_object (h_filter h)) = true.

(** What is pushed for an event the filter accepts. *)
Definition pushed_event (h : handle_info) (event : Z) (q : rx_state) (ev : divert_event) : rx_state :=
  match deliver_event h ev event q with Some q => q | None => q end.

Lemma deliver_event_total h ev event q : handle_ok h -> stamp_ok (ev_timestamp ev) ->
  deliver_event h ev event q = Some (pushed_event h event q ev).
Proof.
  intros [Hl Hf] Ht. rewrite <- Hl in Hf. unfold pushed_event, deliver_event.
  destruct (wd_filter_eval_total (h_filter h) None (event_address h ev event) Hf Ht) as [->|[-> | ->]];
    try reflexivity. discriminate.
Qed.

Definition pushed_reflect (h : handle_info) (now event : Z) (q : rx_state) (r : reflect_seen) : rx_state :=
  match deliver_reflect h now r event q with Some q => q | None => q end.

Definition seen_ok (r : reflect_seen) : Prop := bytes (rs_filter r) /\ zlen (rs_filter r) < 2 ^ 31.

Lemma deliver_reflect_total h now r event q : handle_ok h -> now <> INT64_MIN -> seen_ok r ->
  deliver_reflect h now r event q = Some (pushed_reflect h now event q r).
Proof.
  intros [Hl Hf] Ht Hr. rewrite <- Hl in Hf. unfold pushed_reflect, deliver_reflect.
  destruct (wd_filter_eval_total (h_filter h) (Some (rs_filter r)) (reflect_address now r event) Hf Ht)
    as [->|[-> | ->]]; try reflexivity. intros p [= <-]. exact Hr.
Qed.

(** ** [udp_release] *)

Definition of_endpoint (ev e : divert_event) : bool := ev_endpoint_id e =? ev_endpoint_id ev.

(** Moving the last entry to the front is a permutation of the tail. *)
Lemma swap_last {A} (x : A) tl :
  Permutation match tl with [] => [] | _ => last tl x :: removelast tl end tl.
Proof.
  destruct tl as [|y tl]; [constructor|].
  rewrite (app_removelast_last x (l := y :: tl)) at 3 by discriminate.
  apply Permutation_cons_append.
Qed.

Lemma Permutation_filter {A} (f : A -> bool) l l' : Permutation l l' -> Permutation (filter f l) (filter f l').
Proof.
  induction 1 as [|x l l' _ IH|x y l|l l' l'' _ IH _ IH']; cbn.
  - constructor.
  - destruct (f x); auto.
  - destruct (f x), (f y); auto. constructor.
  - now transitivity (filter f l').
Qed.

Lemma release_spec h ev : handle_ok h -> stamp_ok (ev_timestamp ev) -> forall fuel kept rest q, (length rest <= fuel)%nat ->
  Forall (fun e => of_endpoint ev e = false) kept ->
  exists udp' gone, release_loop fuel h ev kept rest q =
    Some (udp', fold_left (pushed_event h DIVERT_EVENT_FLOW_DELETED)
                  (map (fun e => with_timestamp e (ev_timestamp ev)) gone) q) /\
    Permutation (gone ++ udp') (kept ++ rest) /\
    Forall (fun e => of_endpoint ev e = true) gone /\ Forall (fun e => of_endpoint ev e = false) udp'.
Proof.
  intros Hh Ht. induction fuel as [|fuel IH]; intros kept rest q Hf Hk; destruct rest as [|e tl].
  1, 3: exists kept, []; cbn; rewrite app_nil_r; auto.
  { cbn in Hf. lia. }
  cbn [release_loop]. fold (of_endpoint ev e). destruct (of_endpoint ev e) eqn:E.
  - rewrite deliver_event_total by (exact Hh || exact Ht). set (rest := match tl with [] => [] | _ => _ end).
    assert (P : Permutation rest tl) by apply swap_last. pose proof (Permutation_length P) as L. cbn in Hf.
    destruct (IH kept rest (pushed_event h DIVERT_EVENT_FLOW_DELETED q (with_timestamp e (ev_timestamp ev)))
      ltac:(lia) Hk) as (udp' & gone & -> & Q & G & U).
    exists udp', (e :: gone). split; [reflexivity|]. split; [|auto].
    cbn [app]. rewrite Q, P. apply Permutation_middle.
  - cbn in Hf. destruct (IH (kept ++ [e]) tl q ltac:(lia)) as (udp' & gone & -> & Q & G & U).
    + apply Forall_app. auto.
    + exists udp', gone. split; [reflexivity|]. split; [|auto]. now rewrite Q, <- app_assoc.
Qed.

(** ** [reflect_poll] *)

(** [id] is one of [ids]. *)
Definition known (ids : list Z) (id : Z) : bool := existsb (Z.eqb id) ids.

Lemma known_in ids id : known ids id = true <-> In id ids.
Proof.
  unfold known. rewrite existsb_exists. split; [intros (x & Hx & E); now apply Z.eqb_eq in E as -> |].
  intros H. exists id. now rewrite Z.eqb_refl.
Qed.

Lemma known_out ids id : known ids id = false <-> ~ In id ids.
Proof. rewrite <- known_in. now destruct (known ids id). Qed.

Definition seen_ids (seen : list (reflect_seen * bool)) : list Z := map rs_id (map fst seen).

Lemma mark_alive_spec id : forall seen, NoDup (seen_ids seen) ->
  mark_alive id seen = if known (seen_ids seen) id
    then Some (map (fun x => (fst x, snd x || (rs_id (fst x) =? id))) seen) else None.
Proof.
  induction seen as [|[s b] tl IH]; cbn; [reflexivity|]. intros N. apply NoDup_cons_iff in N as [Hs N].
  unfold known. cbn [existsb]. rewrite (Z.eqb_sym id). destruct (rs_id s =? id) eqn:E; cbn.
  - apply Z.eqb_eq in E as <-. rewrite orb_true_r. do 2 f_equal. rewrite <- (map_id tl) at 1.
    apply map_ext_in. intros [r c] Hr. cbn. replace (rs_id r =? rs_id s) with false; [now rewrite orb_false_r|].
    symmetry. apply Z.eqb_neq. intros E. apply Hs. rewrite <- E. now apply (in_map fst), (in_map rs_id) in Hr.
  - rewrite (IH N). change (existsb (Z.eqb id) (map rs_id (map fst tl))) with (known (seen_ids tl) id).
    destruct (known _ _); cbn; [|reflexivity]. now rewrite orb_false_r.
Qed.

(** The entries of the registry that are not in [ids]. *)
Definition fresh_entries (ids : list Z) (reg : list (Z * reg_entry)) : list reflect_seen :=
  map (fun x => seen_of (fst x) (snd x)) (filter (fun x => negb (known ids (fst x))) reg).

Lemma fresh_more ids id reg : ~ In id (map fst reg) -> fresh_entries (ids ++ [id]) reg = fresh_entries ids reg.
Proof.
  intros H. unfold fresh_entries. f_equal. apply filter_ext_in. intros [i e] Hi. unfold known.
  rewrite existsb_app. cbn. rewrite orb_false_r. replace (i =? id) with false; [now rewrite orb_false_r|].
  symmetry. apply Z.eqb_neq. intros ->. apply H. now apply (in_map fst) in Hi.
Qed.

Lemma seen_of_ok id e : bytes (re_filter e) -> seen_ok (seen_of id e).
Proof.
  intros H. unfold seen_ok, seen_of. cbn. case_if; b2p; [|split; [constructor|reflexivity]].
  split; [now apply bytes_firstn|]. unfold zlen. rewrite length_firstn. unfold REG_FILTER_MAX in *. lia.
Qed.

Lemma poll_open_spec h now : handle_ok h -> now <> INT64_MIN -> forall reg seen q, NoDup (map fst reg) ->
  NoDup (seen_ids seen) -> Forall (fun x => bytes (re_filter (snd x))) reg ->
  let opened := fresh_entries (seen_ids seen) reg in
  poll_open h now reg seen q =
    Some (map (fun x => (fst x, snd x || known (map fst reg) (rs_id (fst x)))) seen ++
          map (fun r => (r, true)) opened,
          fold_left (pushed_reflect h now EBPFDIVERT_EVENT_REFLECT_OPEN) opened q).
Proof.
  intros Hh Ht. induction reg as [|[id e] reg IH]; intros seen q Nr Ns Hb; cbn zeta.
  { cbn. rewrite app_nil_r. do 2 f_equal. rewrite <- (map_id seen) at 1. apply map_ext.
    intros [r a]. cbn. now rewrite orb_false_r. }
  cbn [poll_open]. cbn in Nr. apply NoDup_cons_iff in Nr as [Hid Nr]. inversion Hb as [|? ? Be Br]; subst.
  rewrite (mark_alive_spec id seen Ns). unfold fresh_entries. cbn [filter fst].
  destruct (known (seen_ids seen) id) eqn:K; cbn [negb].
  - assert (Es : seen_ids (map (fun x => (fst x, snd x || (rs_id (fst x) =? id))) seen) = seen_ids seen)
      by (unfold seen_ids; rewrite !map_map; reflexivity).
    rewrite IH by (rewrite ?Es; assumption). cbn zeta. rewrite Es, map_map. fold (fresh_entries (seen_ids seen) reg).
    do 3 f_equal. apply map_ext. intros [r a]. cbn. unfold known. cbn. now rewrite orb_assoc.
  - rewrite deliver_reflect_total by (assumption || now apply seen_of_ok).
    assert (Es : seen_ids (seen ++ [(seen_of id e, true)]) = seen_ids seen ++ [id])
      by (unfold seen_ids; now rewrite !map_app).
    rewrite IH; [|exact Nr| |exact Br].
    + cbn zeta. rewrite Es, fresh_more by exact Hid. fold (fresh_entries (seen_ids seen) reg). cbn [map fst snd fold_left].
      rewrite map_app, <- app_assoc. cbn. do 3 f_equal. apply map_ext_in. intros [r a] Hr. unfold known. cbn.
      replace (rs_id r =? id) with false; [reflexivity|]. symmetry. apply Z.eqb_neq. intros <-.
      apply known_out in K. apply K. now apply (in_map fst), (in_map rs_id) in Hr.
    + rewrite Es. apply (Permutation_NoDup (Permutation_cons_append _ _)).
      constructor; [now apply known_out|exact Ns].
Qed.

Lemma poll_close_spec h now : handle_ok h -> now <> INT64_MIN -> forall fuel kept rest q, (length rest <= fuel)%nat ->
  Forall (fun x => seen_ok (fst x)) rest ->
  exists seen' closed, poll_close fuel h now kept rest q =
    Some (seen', fold_left (pushed_reflect h now EBPFDIVERT_EVENT_REFLECT_CLOSE) closed q) /\
    Permutation seen' (kept ++ map fst (filter snd rest)) /\
    Permutation closed (map fst (filter (fun x => negb (snd x)) rest)).
Proof.
  intros Hh Hn. induction fuel as [|fuel IH]; intros kept rest q Hf Hk; destruct rest as [|[r a] tl].
  1, 3: exists kept, []; cbn; rewrite app_nil_r; auto.
  { cbn in Hf. lia. }
  cbn in Hf. inversion Hk as [|? ? Hr Ht]; subst. cbn [poll_close]. destruct a.
  - destruct (IH (kept ++ [r]) tl q ltac:(lia) Ht) as (seen' & closed & -> & P & C).
    exists seen', closed. split; [reflexivity|]. cbn. rewrite P, <- app_assoc. now split.
  - rewrite deliver_reflect_total by assumption. set (rest := match tl with [] => [] | _ => _ end).
    assert (P : Permutation rest tl) by apply swap_last. pose proof (Permutation_length P) as L.
    destruct (IH kept rest (pushed_reflect h now EBPFDIVERT_EVENT_REFLECT_CLOSE q r) ltac:(lia)
      (Permutation_Forall (Permutation_sym P) Ht)) as (seen' & closed & -> & Q & C).
    exists seen', (r :: closed). split; [reflexivity|]. cbn. rewrite Q, C. split.
    + apply Permutation_app_head, Permutation_map. now apply Permutation_filter.
    + apply perm_skip, Permutation_map. now apply Permutation_filter.
Qed.

(** The marked entries, split by the mark. *)
Lemma marked_split (f : reflect_seen -> bool) seen opened :
  let marked := map (fun s => (s, f s)) seen ++ map (fun r => (r, true)) opened in
  map fst (filter snd marked) = filter f seen ++ opened /\
  map fst (filter (fun x => negb (snd x)) marked) = filter (fun s => negb (f s)) seen.
Proof.
  cbn zeta. induction seen as [|s seen [IH1 IH2]]; cbn.
  - split; induction opened as [|r opened IH]; cbn; congruence.
  - destruct (f s); cbn; rewrite ?IH1, ?IH2; split; reflexivity.
Qed.

Lemma fresh_ids ids reg : map rs_id (fresh_entries ids reg) = filter (fun i => negb (known ids i)) (map fst reg).
Proof.
  induction reg as [|[i e] reg IH]; [reflexivity|]. unfold fresh_entries in *. cbn [filter map fst].
  destruct (negb (known ids i)); cbn [map]; now rewrite IH.
Qed.

Lemma filter_ids f seen : map rs_id (filter (fun s => f (rs_id s)) seen) = filter f (map rs_id seen).
Proof. induction seen as [|s seen IH]; cbn; [reflexivity|]. destruct (f (rs_id s)); cbn; now rewrite IH. Qed.

(** The ids that stay and the new ones are the registry. *)
Lemma synced_ids ids reg : NoDup ids -> NoDup reg ->
  Permutation (filter (known reg) ids ++ filter (fun i => negb (known ids i)) reg) reg.
Proof.
  intros Ni Nr. apply NoDup_Permutation; [|exact Nr|].
  - apply NoDup_app; try now apply NoDup_filter. intros x Hx Hy. apply filter_In in Hx as [Hx _], Hy as [_ Hy].
    apply known_in in Hx. now rewrite Hx in Hy.
  - intros x. rewrite in_app_iff, !filter_In, known_in, negb_true_iff, known_out.
    destruct (in_dec Z.eq_dec x ids); tauto.
Qed.

(** ** Blocking *)

(** The layers without packet: the evaluator sees the address only. *)
Lemma wd_filter_eval_event f addr : wf_filter (wf_layer f) (wf_object f) = true -> Layer addr = wf_layer f ->
  Timestamp addr <> INT64_MIN ->
  Layer addr = LAYER_FLOW \/ Layer addr = LAYER_SOCKET ->
  wd_filter_eval f None addr = VRet (b2z (accepts (eval_args addr [] no_packet) (wf_object f) 0)).
Proof.
  intros Hf El Ht Hl. unfold wd_filter_eval. rewrite El.
  replace (layer_eqb (wf_layer f) (wf_layer f)) with true by now destruct (wf_layer f).
  rewrite <- El. cbn [negb].
  replace (match Layer addr with LAYER_NETWORK | LAYER_NETWORK_FORWARD => None | _ => Some no_packet end)
    with (Some no_packet) by now destruct Hl as [-> | ->].
  rewrite ExecuteFilter_object; [now destruct (accepts _ _ _)| |cbn; now rewrite El].
  apply eval_args_ok; [exact Ht|constructor|reflexivity|now right].
Qed.

Lemma words_from_net_wf a : addr16_ok a -> wf128 (words_from_net a).
Proof. intros [_ H]. unfold words_from_net, wf128. cbn. repeat split; apply be32_range; exact H. Qed.

Lemma event_address_agrees h e : event_ok e -> h_layer h = LAYER_FLOW \/ h_layer h = LAYER_SOCKET ->
  event_agrees (eval_args (event_address h e (ev_event e)) [] no_packet) (event_view e)
    (Flow (event_address h e (ev_event e))).
Proof.
  intros [] Hl. split; cbn; auto.
  - destruct Hl as [-> | ->]; auto.
  - destruct eo_ports. auto.
  - destruct eo_addrs. split; now apply words_from_net_wf.
Qed.

(** A blocking SOCKET handle with exactly lowered rules. *)
Record blocking (h : handle_info) (cfg : event_config) (rules : list event_rule) : Prop := {
  bl_handle : handle_ok h;
  bl_layer : h_layer h = LAYER_SOCKET;
  bl_cfg : has (evc_flags cfg) EVCFG_F_BLOCK = true /\ has (evc_flags cfg) EVCFG_F_SOCKET = true;
  bl_low : forallb event_lowerable (wf_object (h_filter h)) = true;
  bl_exact : pf_lower_events (wf_object (h_filter h)) EVENT_RULES_MAX = (rules, true)
}.

(** The filter's verdict on an event. *)
Definition event_verdict (h : handle_info) (e : divert_event) : verdict :=
  wd_filter_eval (h_filter h) None (event_address h e (ev_event e)).

Lemma decide_event_exact h cfg rules k sk e st : blocking h cfg rules -> event_ok e ->
  stamp_ok (ev_timestamp e) ->
  let ret := fst (decide_event k cfg (loaded_events rules) sk e st) in
  event_verdict h e = VRet (1 - ret).
Proof.
  intros [[Hl Hf] HL [Hb _] Hlow Hx] He Ht. rewrite <- Hl in Hf. unfold event_verdict, decide_event, should_block.
  rewrite Hb. cbn [negb].
  assert (Hla : Layer (event_address h e (ev_event e)) = wf_layer (h_filter h)) by (cbn; congruence).
  rewrite wd_filter_eval_event by (try assumption; rewrite Hla, Hl; auto).
  rewrite <- (block_exact (eval_args (event_address h e (ev_event e)) [] no_packet)
    (Flow (event_address h e (ev_event e))) (wf_object (h_filter h)) rules e); try assumption.
  - now destruct (block_loop _ _).
  - apply event_address_agrees; auto.
  - apply eval_args_ok; [exact Ht|constructor|reflexivity|now right].
  - cbn. congruence.
Qed.

(** ** Properties *)

(** [localPort == 8080] on the SOCKET layer, and a bind of the port. *)
Definition ex_socket_handle : handle_info :=
  mkHandle LAYER_SOCKET 0 1 1
    (mkWdFilter LAYER_SOCKET 0
       [mkFilter FIELD_LOCALPORT TEST_EQ WINDIVERT_FILTER_RESULT_ACCEPT
          WINDIVERT_FILTER_RESULT_REJECT false (W128 8080 0 0 0)]) true.
Definition ex_block_config : event_config := mkEvConfig (EVCFG_F_BLOCK ||| EVCFG_F_SOCKET) 0 0.
Definition ex_rules : list event_rule := fst (pf_lower_events (wf_object (h_filter ex_socket_handle)) EVENT_RULES_MAX).
Definition ex_bind_sock : bpf_sock := mkBpfSock 1 AF_INET IPPROTO_TCP 8080 0 [0; 0; 0; 0].

Lemma ex_blocking : blocking ex_socket_handle ex_block_config ex_rules.
Proof. split; [split|..]; vm_compute; try reflexivity. split; reflexivity. Qed.

(** C7. Blocking is exact: while a SOCKET handle that blocks is alive, its
    tests are [event_lowerable] (no negative constant for a number, no address
    constant at the lower edge of the IPv4-mapped range) and its filter was
    lowered exactly, the kernel refuses a bind or a connect if and only if the
    user-space evaluator accepts the event, on every state the programs can
    reach; user space pushes precisely the refused operations on the handle's
    queue. The clock is below 2^63 ns. *)
Theorem socket_block_exact K h cfg rules k sk ctx v6 st q :
  blocking h cfg rules -> live_config k cfg = true -> stamp_ok (ek_ktime k) -> ev_reachable K cfg (loaded_events rules) st ->
  let be := bind_event k sk v6 in
  let ce := connect_event k ctx v6 st in
  let bind := fst (on_bind k cfg (loaded_events rules) sk v6 st) in
  let connect := fst (on_connect k cfg (loaded_events rules) ctx v6 st) in
  event_verdict h be = VRet (1 - bind) /\ event_verdict h ce = VRet (1 - connect) /\
  (forall e ret, (e, ret) = (be, bind) \/ (e, ret) = (ce, connect) ->
   let reported := if ret =? 0 then set_ev_flags e EVF_BLOCKED else e in
   deliver_event h reported (ev_event e) q =
     Some (if ret =? 0
           then queue_push q (mkEntry (mkAddr (event_address h e (ev_event e)) []) []) else q)).
Proof.
  intros B L T R be ce bind connect.
  assert (Eb : event_verdict h be = VRet (1 - bind)).
  { unfold bind, on_bind. rewrite L, (proj2 (bl_cfg _ _ _ B)). cbn [negb orb].
    apply decide_event_exact; [exact B|apply bind_event_ok|exact T]. }
  assert (Ec : event_verdict h ce = VRet (1 - connect)).
  { unfold connect, on_connect. rewrite L, (proj2 (bl_cfg _ _ _ B)). cbn [negb orb].
    apply decide_event_exact; [exact B| |exact T]. apply connect_event_ok. now apply reachable_state_ok in R. }
  split; [exact Eb|]. split; [exact Ec|]. intros e ret H.
  assert (E : event_verdict h e = VRet (1 - ret)) by (destruct H as [[= -> ->]|[= -> ->]]; assumption).
  cbv zeta. unfold deliver_event.
  replace (event_address h (if ret =? 0 then set_ev_flags e EVF_BLOCKED else e) (ev_event e))
    with (event_address h e (ev_event e)) by now destruct (ret =? 0).
  unfold event_verdict in E. rewrite E. replace (1 - ret =? 1) with (ret =? 0) by lia. now destruct (ret =? 0).
Qed.

Lemma socket_block_exact_witness :
  let st := mkEvState [] [] [] in
  event_verdict ex_socket_handle (bind_event ex_kernel ex_bind_sock false) = VRet 1 /\
  event_verdict ex_socket_handle (bind_event ex_kernel ex_bind_sock false) =
    VRet (1 - fst (on_bind ex_kernel ex_block_config (loaded_events ex_rules) ex_bind_sock false st)).
Proof.
  split; [vm_compute; reflexivity|].
  apply (socket_block_exact (fun _ => True) ex_socket_handle ex_block_config ex_rules ex_kernel ex_bind_sock
    (mkSockAddr 6 0 0 [0; 0; 0; 0] 1 None) false (mkEvState [] [] []) rx_init ex_blocking eq_refl).
  - apply stamp_small. vm_compute. split; congruence.
  - apply er_init.
Defined.

(** When a UDP socket goes away, every flow of the socket that was
    tracked is reported as deleted, once and with the time of the release,
    in so far as the filter accepts it; the flows of other sockets stay
    tracked; and the loop ends. *)
Theorem udp_release_complete h ev udp q : handle_ok h -> stamp_ok (ev_timestamp ev) ->
  exists udp' gone, udp_release h ev udp q =
    Some (udp', fold_left (pushed_event h DIVERT_EVENT_FLOW_DELETED)
                  (map (fun e => with_timestamp e (ev_timestamp ev)) gone) q) /\
    Permutation (gone ++ udp') udp /\
    Forall (fun e => of_endpoint ev e = true) gone /\ Forall (fun e => of_endpoint ev e = false) udp'.
Proof. intros H T. apply (release_spec h ev H T (length udp) []); [reflexivity|constructor]. Qed.

(** The REFLECT layer follows the registry: a poll ends with the handles
    seen being those registered; it reports an OPEN for every handle that was
    not known and a CLOSE for every known one that is gone, each filtered and
    queued once, in that order. *)
Theorem reflect_poll_syncs h reg now seen q : handle_ok h -> now <> INT64_MIN -> NoDup (map fst reg) ->
  NoDup (map rs_id seen) -> Forall seen_ok seen -> Forall (fun x => bytes (re_filter (snd x))) reg ->
  exists seen' closed,
    reflect_poll h true (Some reg) now seen q =
      Some (seen', fold_left (pushed_reflect h now EBPFDIVERT_EVENT_REFLECT_CLOSE) closed
        (fold_left (pushed_reflect h now EBPFDIVERT_EVENT_REFLECT_OPEN)
           (fresh_entries (map rs_id seen) reg) q)) /\
    Permutation (map rs_id seen') (map fst reg) /\
    Permutation closed (filter (fun r => negb (known (map fst reg) (rs_id r))) seen).
Proof.
  intros Hh Hn Nr Ns Hs Hr. unfold reflect_poll. cbn [negb andb].
  assert (Ei : seen_ids (map (fun s => (s, false)) seen) = map rs_id seen)
    by (unfold seen_ids; now rewrite !map_map).
  rewrite poll_open_spec by (rewrite ?Ei; assumption). cbn zeta. rewrite Ei, map_map. cbn [fst snd orb].
  destruct (marked_split (fun s => known (map fst reg) (rs_id s)) seen (fresh_entries (map rs_id seen) reg)) as [M1 M2].
  set (marked := _ ++ _) in *. edestruct (poll_close_spec h now Hh Hn (length marked) [] marked) as (seen' & closed & -> & P & C);
    [reflexivity| |].
  - apply Forall_app. rewrite !Forall_map. split; [exact Hs|]. apply Forall_map, Forall_forall. intros x Hx.
    apply filter_In in Hx as [Hx _]. apply seen_of_ok. rewrite Forall_forall in Hr. now apply (Hr x).
  - exists seen', closed. split; [reflexivity|]. split; [|now rewrite C, M2].
    rewrite P. cbn [app]. rewrite M1, map_app, fresh_ids, filter_ids. now apply synced_ids.
Qed.

(** A UDP event of another socket is kept, the two of the socket go. *)
Definition ex_flow_event (endpoint rport : Z) : divert_event :=
  mkEvent 1 endpoint 0 5 DIVERT_EVENT_FLOW_ESTABLISHED IPPROTO_UDP 4 0 1000 rport zero16 zero16.

Definition ex_flow_handle : handle_info :=
  mkHandle LAYER_FLOW EBPFDIVERT_FLAG_SNIFF 1 1
    (mkWdFilter LAYER_FLOW 0
       [mkFilter FIELD_REMOTEPORT TEST_EQ WINDIVERT_FILTER_RESULT_ACCEPT
          WINDIVERT_FILTER_RESULT_REJECT false (W128 53 0 0 0)]) true.

Definition ex_tracked : list divert_event := [ex_flow_event 7 53; ex_flow_event 8 53; ex_flow_event 7 54].

Lemma udp_release_complete_witness : exists udp' q',
  udp_release ex_flow_handle (ex_flow_event 7 0) ex_tracked rx_init = Some (udp', q') /\
  Forall (fun e => of_endpoint (ex_flow_event 7 0) e = false) udp' /\ qlen q' = 1.
Proof.
  assert (H : handle_ok ex_flow_handle) by (split; vm_compute; reflexivity).
  destruct (udp_release_complete ex_flow_handle (ex_flow_event 7 0) ex_tracked rx_init H (stamp_small 1 ltac:(lia)))
    as (udp' & gone & E & _ & _ & U).
  assert (C : match udp_release ex_flow_handle (ex_flow_event 7 0) ex_tracked rx_init with
              | Some (_, q) => qlen q = 1 | None => False end) by (vm_compute; reflexivity).
  rewrite E in C. exists udp'. eexists. split; [exact E|]. split; [exact U|exact C].
Defined.

(** Handle 1 has gone, handle 3 is new; the filter is [true]. *)
Definition ex_reflect_handle : handle_info :=
  mkHandle LAYER_REFLECT (EBPFDIVERT_FLAG_SNIFF) 1 1
    (mkWdFilter LAYER_REFLECT 0
       [mkFilter FIELD_ZERO TEST_EQ WINDIVERT_FILTER_RESULT_ACCEPT
          WINDIVERT_FILTER_RESULT_REJECT false (W128 0 0 0 0)]) true.
Definition ex_reg : reg_entry := mkReg 5 1 0 0 0 LAYER_NETWORK 0 false [] 2 [64; 65].
Definition ex_seen : list reflect_seen := [seen_of 1 ex_reg; seen_of 2 ex_reg].

Lemma reflect_poll_syncs_witness : exists seen' q',
  reflect_poll ex_reflect_handle true (Some [(2, ex_reg); (3, ex_reg)]) 9 ex_seen rx_init = Some (seen', q') /\
  Permutation (map rs_id seen') [2; 3] /\ qlen q' = 2.
Proof.
  edestruct (reflect_poll_syncs ex_reflect_handle [(2, ex_reg); (3, ex_reg)] 9 ex_seen rx_init)
    as (seen' & closed & E & P & _).
  - split; vm_compute; reflexivity.
  - discriminate.
  - repeat constructor; cbn; lia.
  - repeat constructor; cbn; lia.
  - repeat constructor; cbn; lia.
  - repeat constructor; cbn; lia.
  - assert (C : match reflect_poll ex_reflect_handle true (Some [(2, ex_reg); (3, ex_reg)]) 9 ex_seen rx_init with
                | Some (_, q) => qlen q = 2 | None => False end) by (vm_compute; reflexivity).
    rewrite E in C. exists seen'. eexists. split; [exact E|]. split; [exact P|exact C].
Defined.
