(* ===== verification/HdRecv.v ===== *)
(** * The receive path of a handle

    [src/handle.c]: [ring_callback], [consume_ring], [next_entry],
    [ebpfdivert_recv_impl], [ebpfdivert_recv_ex_impl] and
    [ebpfdivert_shutdown].

    A receive call loops until it has an entry, and what happens around it is
    a schedule: a [round] holds what the loop meets in one iteration (the
    records in the ring, the clock, the result of [epoll_wait]) and what other
    threads do to the queue between its critical sections.  When the schedule
    ends the call is still [Waiting].  The ring buffer's callback is an
    argument, as it is of [ring_buffer__new]. *)

From Stdlib Require Import ZArith List Bool Lia.
From S2P Require Import Prelude WdTypes WdPacket WdExec WdHelper BpfMatch BpfParse BpfTc PfEvents BpfEvents.
From S2P Require Import HdQueue HdSend HdEvents.
Import ListNotations.

Definition EINTR : Z := 4.
Definition EAGAIN : Z := 11.
Definition ENOBUFS : Z := 105.

Definition EBPFDIVERT_EVENT_NETWORK_PACKET : Z := 0.
Definition EBPFDIVERT_SHUTDOWN_RECV : Z := 1.
Definition EBPFDIVERT_SHUTDOWN_SEND : Z := 2.
Definition EBPFDIVERT_SHUTDOWN_BOTH : Z := 3.

(** The parts of a handle that change while it is open; [hs_sent] is what it
    has handed to the kernel so far. *)
Record hstate : Set := mkHs {
  hs_rx : rx_state;
  hs_tx : tx_state;
  hs_udp : list divert_event;
  hs_seen : list reflect_seen;
  hs_sent : list packet_out
}.

Definition set_rx (s : hstate) (q : rx_state) : hstate :=
  mkHs q (hs_tx s) (hs_udp s) (hs_seen s) (hs_sent s).

(** ** Packets *)

(** [sizeof(struct divert_pkt_header)] *)
Definition PKT_HEADER_SIZE : Z := 40.

(** The address [ring_callback] fills in. *)
Definition packet_address (h : handle_info) (hdr : divert_pkt_header) (l2 pkt : list Z)
    (ck : bool * bool * bool) : address :=
  let '(ip_ok, tcp_ok, udp_ok) := ck in
  mkAddr
    {| Timestamp := i64 (h_timestamp hdr); Layer := h_layer h; Event := EBPFDIVERT_EVENT_NETWORK_PACKET;
       Sniffed := has (h_flags hdr) PKT_F_SNIFFED; Outbound := h_direction hdr =? 2;
       Loopback := has (h_flags hdr) PKT_F_LOOPBACK; Impostor := has (h_flags hdr) PKT_F_IMPOSTOR;
       IPv6 := (zlen pkt >? 0) && ((byte_at pkt 0 >>> 4) =? 6);
       IPChecksum := ip_ok; TCPChecksum := tcp_ok; UDPChecksum := udp_ok;
       Network := mkDataNetwork (h_ifindex hdr) 0; Flow := zero_flow; Reflect := zero_reflect |}
    (stash_l2 (repeat 0 48) l2 (h_gso_size hdr)).

(** [data] is the header followed by [frame]; [None] when the evaluator or
    the checksum code leaves defined behaviour. *)
Definition ring_callback (n : net) (h : handle_info) (size : Z) (hdr : divert_pkt_header)
    (frame : list Z) (s : hstate) : option hstate :=
  if (size <? PKT_HEADER_SIZE) || (h_cap_len hdr >? size - PKT_HEADER_SIZE) ||
     (h_l2_len hdr >? h_cap_len hdr)
  then Some s
  else
    let pkt := slice frame (h_l2_len hdr) (h_cap_len hdr - h_l2_len hdr) in
    match wd_verify_checksums pkt with
    | None => None
    | Some ck =>
      let addr := packet_address h hdr (slice frame 0 (h_l2_len hdr)) pkt ck in
      let push := Some (set_rx s (queue_push (hs_rx s) (mkEntry addr pkt))) in
      if negb (h_exact h) || has (h_flags hdr) PKT_F_FRAGMENT then
        match wd_filter_eval (h_filter h) (Some pkt) (ad_base addr) with
        | VUndef => None
        | VRet r =>
          if r <=? 0 then
            if has (h_flags hdr) PKT_F_SNIFFED then Some s
            else
              match inject n h (hs_tx s) pkt addr with
              | None => None
              | Some (_, t, out) => Some (mkHs (hs_rx s) t (hs_udp s) (hs_seen s) (hs_sent s ++ out))
              end
          else if has (hd_flags h) EBPFDIVERT_FLAG_DROP then Some s
          else push
        end
      else push
    end.

(** ** The ring and the queue *)

(** What other threads do to the queue, one critical section each. *)
Inductive queue_op : Set :=
| OpPush (e : qentry)
| OpPop (now : Z)
| OpSet (param value : Z)
| OpShutdown.

Definition run_op (q : rx_state) (op : queue_op) : rx_state :=
  match op with
  | OpPush e => queue_push q e
  | OpPop now => snd (queue_pop now q)
  | OpSet param value => snd (ebpfdivert_set_param_impl q param value)
  | OpShutdown => shutdown_recv q
  end.

Definition run_ops (ops : list queue_op) (s : hstate) : hstate :=
  set_rx s (fold_left run_op ops (hs_rx s)).

Section Receive.
(** A record of the ring and the callback the ring was created with. *)
Variable rec : Type.
Variable callback : rec -> hstate -> option hstate.
Variable h : handle_info.

(** [h->rb] is set at open time: not for REFLECT, nor for a network handle
    that only sends. *)
Definition has_rb : bool :=
  match h_layer h with
  | LAYER_REFLECT => false
  | LAYER_NETWORK | LAYER_NETWORK_FORWARD => negb (has (hd_flags h) EBPFDIVERT_FLAG_SEND_ONLY)
  | _ => true
  end.

(** [ring_buffer__consume]: the callback on every record there is. *)
Fixpoint consume (items : list rec) (s : hstate) : option hstate :=
  match items with
  | [] => Some s
  | x :: items => match callback x s with Some s => consume items s | None => None end
  end.

(** The number of records and the state after them. *)
Definition consume_ring (items : list rec) (s : hstate) : option (Z * hstate) :=
  if negb has_rb then Some (0, s)
  else match consume items s with Some s => Some (zlen items, s) | None => None end.

(** One iteration of [next_entry]. *)
Record round : Type := mkRound {
  r_before : list queue_op;
  r_poll : bool * option (list (Z * reg_entry)) * Z;   (* timer expired, registry, clock *)
  r_now : Z;                                           (* clock of [queue_pop] *)
  r_ring : list rec;
  r_between : list queue_op;                           (* before [qhead] is read again *)
  r_clock : Z;                                         (* clock against the deadline *)
  r_errno : Z                                          (* of [epoll_wait], 0 for success *)
}.

Inductive waited : Set :=
| Got (e : qentry) (s : hstate)
| Failed (err : Z) (s : hstate)
| Waiting (s : hstate)
| Undefined.

(** [reflect_poll] on the handle. *)
Definition poll_handle (r : round) (s : hstate) : option hstate :=
  if layer_eqb (h_layer h) LAYER_REFLECT then
    let '(due, reg, now) := r_poll r in
    match reflect_poll h due reg now (hs_seen s) (hs_rx s) with
    | None => None
    | Some (seen, q) => Some (mkHs q (hs_tx s) (hs_udp s) seen (hs_sent s))
    end
  else Some s.

(** The end of an iteration that found nothing: an error to return, or the
    call goes on after [epoll_wait]. *)
Definition wait_round (timeout_ms deadline : Z) (r : round) : option Z :=
  if timeout_ms =? 0 then Some (- EAGAIN)
  else if (timeout_ms >? 0) && (deadline - r_clock r <=? 0) then Some (- EAGAIN)
  else if negb (r_errno r =? 0) && negb (r_errno r =? EINTR) then Some (- r_errno r)
  else None.

Fixpoint next_entry (timeout_ms deadline : Z) (rounds : list round) (s : hstate) : waited :=
  match rounds with
  | [] => Waiting s
  | r :: rounds =>
    match poll_handle r (run_ops (r_before r) s) with
    | None => Undefined
    | Some s =>
      let '(e, q) := queue_pop (r_now r) (hs_rx s) in
      let s := set_rx s q in
      match e with
      | Some e => Got e s
      | None =>
        match consume_ring (r_ring r) s with
        | None => Undefined
        | Some (n, s) =>
          if n >? 0 then next_entry timeout_ms deadline rounds s
          else if shut_recv q then Failed (- ESHUTDOWN) s
          else
            let s := run_ops (r_between r) s in
            if negb (is_empty (queue (hs_rx s))) then next_entry timeout_ms deadline rounds s
            else
              match wait_round timeout_ms deadline r with
              | Some err => Failed err s
              | None => next_entry timeout_ms deadline rounds s
              end
        end
      end
    end
  end.

(** [deadline] as computed on entry, at time [start]. *)
Definition deadline_of (timeout_ms start : Z) : Z :=
  if timeout_ms >? 0 then start + timeout_ms * 1000000 else 0.

(** ** [recv] *)

(** Return value, and what is stored through [recv_len], [addr] and [pkt]. *)
Record received : Set := mkRecv {
  rv_ret : Z;
  rv_len : option Z;
  rv_addr : option address;
  rv_data : option (list Z)
}.

(** [pkt_len = None] is a NULL [pkt]; [inl] is a call that has not returned. *)
Definition ebpfdivert_recv_impl (pkt_len : option Z) (timeout_ms start : Z) (rounds : list round)
    (s : hstate) : waited + received * hstate :=
  if has (hd_flags h) EBPFDIVERT_FLAG_SEND_ONLY then inr (mkRecv (- EPERM) None None None, s)
  else
    match next_entry timeout_ms (deadline_of timeout_ms start) rounds s with
    | Got e s =>
      match pkt_len with
      | Some n =>
        if e_len e >? n then inr (mkRecv (- ENOBUFS) (Some (e_len e)) (Some (e_addr e)) None, s)
        else inr (mkRecv 0 (Some (e_len e)) (Some (e_addr e)) (Some (e_data e)), s)
      | None => inr (mkRecv 0 (Some (e_len e)) (Some (e_addr e)) None, s)
      end
    | Failed err s => inr (mkRecv err None None None, s)
    | w => inl w
    end.

(** ** [recv_ex] *)

(** What an iteration after the first meets. *)
Record ex_round : Type := mkExRound {
  x_ring : list rec;
  x_before : list queue_op;
  x_now : Z
}.

(** The peek and the pop: [None] when the loop stops. *)
Definition take_more (pkt : option (list Z)) (used now : Z) (q : rx_state) : option qentry * rx_state :=
  match queue q, pkt with
  | [], _ => (None, q)
  | e :: _, Some buf => if u32 (used + e_len e) >? zlen buf then (None, q) else queue_pop now q
  | _ :: _, None => queue_pop now q
  end.

(** The [memcpy] of [e->len] bytes to [pkt + used]: [None] is a
    write past the end of the buffer, for which C has no meaning. *)
Definition copy_to (pkt : option (list Z)) (used : Z) (data : list Z) : option (option (list Z)) :=
  match pkt with
  | None => Some None
  | Some buf =>
    if zlen buf <? used + zlen data then None
    else Some (Some (firstn (Z.to_nat used) buf ++ data ++ skipn (Z.to_nat (used + zlen data)) buf))
  end.

(** The loop after the first entry, for at most [room] entries; [got] are the
    entries taken so far.  [None] is undefined behaviour. *)
Fixpoint ex_loop (room : nat) (env : nat -> ex_round) (i : nat) (pkt : option (list Z)) (used : Z)
    (got : list qentry) (s : hstate) : option (Z * list qentry * option (list Z) * hstate) :=
  match room with
  | O => Some (used, got, pkt, s)
  | S room =>
    let x := env i in
    match consume_ring (x_ring x) s with
    | None => None
    | Some (_, s) =>
      let s := run_ops (x_before x) s in
      let '(e, q) := take_more pkt used (x_now x) (hs_rx s) in
      let s := set_rx s q in
      match e with
      | None => Some (used, got, pkt, s)
      | Some e =>
        match copy_to pkt used (e_data e) with
        | None => None
        | Some pkt => ex_loop room env (S i) pkt (u32 (used + e_len e)) (got ++ [e]) s
        end
      end
    end
  end.

(** What a batch returns: the total length for [*recv_len], the entries whose
    number goes to [*addr_len] and whose addresses to [addrs], the buffer. *)
Record batch : Set := mkBatch { b_used : Z; b_got : list qentry; b_pkt : option (list Z) }.

(** [pkt] is the buffer of [pkt_len] bytes, [None] for NULL; [addr_len] is
    [*addr_len], [None] for a NULL pointer.  The result is the return value,
    what is stored and the state; [inl Undefined] stands for undefined
    behaviour, such as a buffer overrun. *)
Definition ebpfdivert_recv_ex_impl (pkt : option (list Z)) (addr_len : option Z) (timeout_ms start : Z)
    (rounds : list round) (env : nat -> ex_round) (s : hstate)
    : waited + Z * option batch * hstate :=
  match addr_len with
  | None => inr (- EINVAL, None, s)
  | Some max =>
    if max =? 0 then inr (- EINVAL, None, s)
    else if has (hd_flags h) EBPFDIVERT_FLAG_SEND_ONLY then inr (- EPERM, None, s)
    else
      match next_entry timeout_ms (deadline_of timeout_ms start) rounds s with
      | Got e s =>
        if match pkt with Some buf => e_len e >? zlen buf | None => false end then inr (- ENOBUFS, None, s)
        else
          match copy_to pkt 0 (e_data e) with
          | None => inl Undefined
          | Some pkt =>
            match ex_loop (Z.to_nat (max - 1)) env 0 pkt (e_len e) [e] s with
            | None => inl Undefined
            | Some (used, got, pkt, s) => inr (0, Some (mkBatch used got pkt), s)
            end
          end
      | Failed err s => inr (err, None, s)
      | w => inl w
      end
  end.
End Receive.

(** ** The queue under a receiver *)

Lemma pop_loop_find now : forall l q, queue q = l ->
  let '(e, q') := pop_loop now l q in
  e = find (fresh now (queue_time q)) l /\ shut_recv q' = shut_recv q /\ (e = None -> queue q' = []).
Proof.
  induction l as [|x l IH]; intros q Hq; cbn [pop_loop find]; [auto|].
  cbn [queue_time]. destruct (fresh now (queue_time q) x) eqn:F; [split; [reflexivity|split; [reflexivity|discriminate]]|].
  set (q2 := mkRx l _ _ _ _ _ _ _ _ _). specialize (IH q2 eq_refl).
  destruct (pop_loop now l q2) as [e q']. exact IH.
Qed.

(** [queue_pop] returns the first entry that has not expired. *)
Lemma queue_pop_find now q : let '(e, q') := queue_pop now q in
  e = find (fresh now (queue_time q)) (queue q) /\ shut_recv q' = shut_recv q /\
  (e = None -> queue q' = []).
Proof.
  unfold queue_pop. pose proof (pop_loop_find now (queue q) q eq_refl) as P.
  destruct (pop_loop now (queue q) q) as [e q']. destruct P as (P1 & P2 & P3).
  destruct (wake_update_same q') as (W1 & _ & W3 & _). rewrite W1, W3. auto.
Qed.

(** Without pushes an empty queue stays empty. *)
Lemma run_op_empty op q : match op with OpPush _ => false | _ => true end = true -> queue q = [] -> queue (run_op q op) = [].
Proof.
  intros N Q. destruct op as [e|now|param value|]; [discriminate N|..]; cbn [run_op].
  - unfold queue_pop. rewrite Q. cbn [pop_loop snd]. now rewrite (proj1 (wake_update_same q)).
  - unfold ebpfdivert_set_param_impl. repeat case_if; exact Q.
  - unfold shutdown_recv. rewrite (proj1 (wake_update_same _)). exact Q.
Qed.

Section Waiting.
Context {rec : Type}.
Variable callback : rec -> hstate -> option hstate.
Variable h : handle_info.

Lemma consume_nil s : consume_ring rec callback h [] s = Some (0, s).
Proof using. unfold consume_ring. now destruct (negb (has_rb h)). Qed.

(** The ring is empty, and no other thread queues an entry between the two
    looks at the queue; other threads may do anything else. *)
Definition no_push (op : queue_op) : bool := match op with OpPush _ => false | _ => true end.
Definition quiet (r : round rec) : Prop := r_ring _ r = [] /\ forallb no_push (r_between _ r) = true.

(** The call may not wait beyond the round. *)
Definition expires (timeout_ms deadline : Z) (r : round rec) : Prop :=
  timeout_ms = 0 \/ timeout_ms > 0 /\ deadline <= r_clock _ r.

Lemma wait_expires timeout_ms deadline r : expires timeout_ms deadline r ->
  wait_round rec timeout_ms deadline r = Some (- EAGAIN).
Proof using.
  unfold wait_round. intros [-> | [H1 H2]]; [reflexivity|]. case_if; [reflexivity|].
  rewrite Z.gtb_ltb. now destruct (Z.ltb_spec 0 timeout_ms), (Z.leb_spec (deadline - r_clock rec r) 0); try lia.
Qed.

(** How an iteration without an entry ended: what the error means. *)
Definition error_means (timeout_ms deadline : Z) (r : round rec) (err : Z) (s : hstate) : Prop :=
  err = - ESHUTDOWN /\ shut_recv (hs_rx s) = true \/
  err = - EAGAIN /\ expires timeout_ms deadline r \/
  err = - r_errno _ r /\ r_errno _ r <> 0 /\ r_errno _ r <> EINTR.

Lemma wait_means timeout_ms deadline r err s : wait_round rec timeout_ms deadline r = Some err ->
  error_means timeout_ms deadline r err s.
Proof using.
  unfold wait_round, error_means, expires. case_if; [intros [= <-]; b2p; auto|].
  case_if; [intros [= <-]; b2p; right; left; split; [reflexivity|right; lia]|].
  case_if; [|discriminate]. intros [= <-]. b2p. auto.
Qed.

Lemma consume_zero items s n s' : consume_ring rec callback h items s = Some (n, s') ->
  (n >? 0) = false -> s' = s /\ (has_rb h = true -> items = []).
Proof using.
  unfold consume_ring. destruct (has_rb h); cbn [negb]; [|intros [= <- <-]; now split].
  destruct items as [|x items]; [intros [= <- <-]; now split|].
  destruct (consume _ _ _ _); [|discriminate]. intros [= <- _] H. unfold zlen in H. cbn in H.
  b2p. lia.
Qed.

Lemma next_entry_error timeout_ms deadline err s' : forall rounds s,
  next_entry rec callback h timeout_ms deadline rounds s = Failed err s' ->
  queue (hs_rx s') = [] /\
  exists r, In r rounds /\ (has_rb h = true -> r_ring _ r = []) /\ error_means timeout_ms deadline r err s'.
Proof using.
  induction rounds as [|r rounds IH]; intros s; cbn [next_entry]; [discriminate|].
  assert (Next : forall s1, next_entry rec callback h timeout_ms deadline rounds s1 = Failed err s' ->
    queue (hs_rx s') = [] /\ exists r0, In r0 (r :: rounds) /\ (has_rb h = true -> r_ring _ r0 = []) /\
      error_means timeout_ms deadline r0 err s').
  { intros s1 E. destruct (IH s1 E) as (Q & r0 & I & R). split; [exact Q|]. exists r0. split; [now right|exact R]. }
  destruct (poll_handle _ _ _ _) as [s1|]; [|discriminate].
  pose proof (queue_pop_find (r_now _ r) (hs_rx s1)) as P.
  destruct (queue_pop (r_now _ r) (hs_rx s1)) as [e q]. destruct P as (_ & P2 & P3).
  destruct e as [e|]; [discriminate|]. specialize (P3 eq_refl).
  destruct (consume_ring _ _ _ _ _) as [[n s2]|] eqn:C; [|discriminate].
  destruct (n >? 0) eqn:N; [apply Next|]. destruct (consume_zero _ _ _ _ C N) as [-> R].
  destruct (shut_recv q) eqn:Sh.
  - intros [= <- <-]. split; [exact P3|]. exists r. split; [now left|]. split; [exact R|]. left. now split.
  - destruct (queue (hs_rx (run_ops (r_between rec r) (set_rx s1 q)))) eqn:Q; cbn [is_empty negb]; [|apply Next].
    destruct (wait_round _ _ _ r) as [err'|] eqn:W; [|apply Next]. intros [= <- <-]. split; [exact Q|].
    exists r. split; [now left|]. split; [exact R|]. now apply wait_means.
Qed.

(** The call returned. *)
Definition answered (w : waited) : Prop :=
  match w with Got _ _ | Failed _ _ => True | _ => False end.

(** A fresh entry of the queue is returned in the first round; [s1] is the
    state the other threads leave. *)
Lemma next_entry_got timeout_ms deadline r rounds s e : h_layer h <> LAYER_REFLECT ->
  let s1 := run_ops (r_before _ r) s in
  find (fresh (r_now _ r) (queue_time (hs_rx s1))) (queue (hs_rx s1)) = Some e ->
  next_entry rec callback h timeout_ms deadline (r :: rounds) s =
    Got e (set_rx s1 (snd (queue_pop (r_now _ r) (hs_rx s1)))).
Proof using.
  intros Hl s1 Hf. cbn [next_entry]. fold s1. unfold poll_handle.
  replace (layer_eqb (h_layer h) LAYER_REFLECT) with false by now destruct (h_layer h).
  pose proof (queue_pop_find (r_now _ r) (hs_rx s1)) as P.
  destruct (queue_pop (r_now _ r) (hs_rx s1)) as [e' q]. destruct P as [-> _]. now rewrite Hf.
Qed.

Lemma run_ops_empty ops s : forallb no_push ops = true -> queue (hs_rx s) = [] -> queue (hs_rx (run_ops ops s)) = [].
Proof using.
  unfold run_ops. cbn [set_rx hs_rx]. generalize (hs_rx s) as q.
  induction ops as [|op ops IH]; intros q N Q; [exact Q|]. cbn [forallb fold_left] in *. apply andb_true_iff in N.
  apply IH; [apply N|]. now apply run_op_empty.
Qed.

Lemma next_entry_returns timeout_ms deadline r after : quiet r -> expires timeout_ms deadline r ->
  forall before s, next_entry rec callback h timeout_ms deadline (before ++ r :: after) s <> Undefined ->
  answered (next_entry rec callback h timeout_ms deadline (before ++ r :: after) s).
Proof using.
  intros [Qr Qb] X. induction before as [|b before IH]; intros s; cbn [app next_entry].
  - destruct (poll_handle _ _ _ _) as [s1|]; [|congruence]. intros _.
    pose proof (queue_pop_find (r_now _ r) (hs_rx s1)) as P.
    destruct (queue_pop (r_now _ r) (hs_rx s1)) as [[e|] q]; [exact I|]. destruct P as (_ & _ & P3).
    rewrite Qr, consume_nil. change (0 >? 0) with false. cbn iota.
    destruct (shut_recv q); [exact I|]. rewrite (run_ops_empty _ _ Qb) by exact (P3 eq_refl).
    cbn [is_empty negb]. rewrite (wait_expires _ _ _ X). exact I.
  - destruct (poll_handle _ _ _ _) as [s1|]; [|congruence].
    destruct (queue_pop (r_now _ b) (hs_rx s1)) as [[e|] q]; [easy|].
    destruct (consume_ring _ _ _ _ _) as [[n s2]|]; [|congruence].
    destruct (n >? 0); [apply IH|]. destruct (shut_recv q); [easy|].
    destruct (negb _); [apply IH|]. destruct (wait_round _ _ _ b); [easy|apply IH].
Qed.
End Waiting.

(** ** Batches *)

Section Batches.
Context {rec : Type}.
Variable callback : rec -> hstate -> option hstate.
Variable h : handle_info.

(** While the loop runs, no entry at the head of the queue expires between
    the peek and the pop, none is longer than any packet, and the callback is
    defined. *)
Fixpoint heads_fresh (room : nat) (env : nat -> ex_round rec) (i : nat) (s : hstate) : Prop :=
  match room with
  | O => True
  | S room =>
    match consume_ring rec callback h (x_ring _ (env i)) s with
    | None => False
    | Some (_, s) =>
      let s := run_ops (x_before _ (env i)) s in
      match queue (hs_rx s) with
      | [] => True
      | e :: _ =>
        fresh (x_now _ (env i)) (queue_time (hs_rx s)) e = true /\ e_len e < 2 ^ 17 /\
        heads_fresh room env (S i) (set_rx s (snd (queue_pop (x_now _ (env i)) (hs_rx s))))
      end
    end
  end.

Definition all_data (got : list qentry) : list Z := concat (map e_data got).

Lemma all_data_len got : zlen (all_data got) = total_len got.
Proof using.
  unfold all_data, total_len. induction got as [|e got IH]; [reflexivity|]. cbn [map concat fold_right].
  rewrite zlen_app, IH. reflexivity.
Qed.

(** The entries taken so far lie one behind the other in the buffer. *)
Definition filled (buf : list Z) (got : list qentry) : list Z :=
  all_data got ++ skipn (Z.to_nat (total_len got)) buf.

Lemma filled_len buf got : 0 <= total_len got <= zlen buf -> zlen (filled buf got) = zlen buf.
Proof using.
  intros H. unfold filled. rewrite zlen_app, all_data_len. unfold zlen in *. rewrite length_skipn. lia.
Qed.

Lemma overwrite_tail (a d buf : list Z) :
  firstn (length a) (a ++ skipn (length a) buf) ++ d ++
    skipn (length a + length d) (a ++ skipn (length a) buf) = (a ++ d) ++ skipn (length a + length d) buf.
Proof using.
  rewrite firstn_app, Nat.sub_diag, firstn_all. cbn [firstn]. rewrite app_nil_r, <- app_assoc. do 2 f_equal.
  rewrite skipn_app, skipn_all2 by lia. rewrite skipn_skipn. cbn [app]. f_equal. lia.
Qed.

Lemma copy_filled buf got e : 0 <= total_len got -> total_len got + e_len e <= zlen buf ->
  copy_to (Some (filled buf got)) (total_len got) (e_data e) = Some (Some (filled buf (got ++ [e]))).
Proof using.
  intros H0 H. pose proof (zlen_nonneg (e_data e) : 0 <= e_len e). unfold copy_to. rewrite filled_len by lia.
  fold (e_len e). destruct (Z.ltb_spec (zlen buf) (total_len got + e_len e)); [lia|]. do 2 f_equal.
  unfold filled. rewrite total_len_app. change (total_len [e]) with (e_len e + 0). rewrite Z.add_0_r.
  replace (all_data (got ++ [e])) with (all_data got ++ e_data e)
    by (unfold all_data; rewrite map_app, concat_app; cbn [map concat]; now rewrite app_nil_r).
  rewrite <- (all_data_len got) in *. unfold e_len, zlen in *.
  replace (Z.to_nat (Z.of_nat (length (all_data got)) + Z.of_nat (length (e_data e))))
    with (length (all_data got) + length (e_data e))%nat by lia.
  rewrite Nat2Z.id. apply overwrite_tail.
Qed.

Lemma take_more_fresh buf used now q e l : queue q = e :: l -> fresh now (queue_time q) e = true ->
  take_more (Some buf) used now q =
  if u32 (used + e_len e) >? zlen buf then (None, q) else (Some e, snd (queue_pop now q)).
Proof using.
  intros Q F. unfold take_more. rewrite Q. case_if; [reflexivity|]. pose proof (queue_pop_find now q) as P.
  destruct (queue_pop now q) as [e' q']. destruct P as [-> _]. rewrite Q. cbn [find]. now rewrite F.
Qed.

Lemma ex_loop_batch env buf : zlen buf < 2 ^ 32 - 2 ^ 17 -> forall room i got s,
  0 <= total_len got <= zlen buf -> heads_fresh room env i s ->
  exists more s', ex_loop rec callback h room env i (Some (filled buf got)) (total_len got) got s =
    Some (total_len (got ++ more), got ++ more, Some (filled buf (got ++ more)), s') /\
    (length more <= room)%nat /\ total_len (got ++ more) <= zlen buf.
Proof using.
  intros Hn. induction room as [|room IH]; intros i got s Hr H; cbn [ex_loop heads_fresh] in *.
  { exists [], s. rewrite app_nil_r. repeat split; cbn; lia. }
  destruct (consume_ring _ _ _ _ _) as [[m s1]|]; [|contradiction]. cbv zeta in *.
  set (s2 := run_ops _ s1) in *. destruct (queue (hs_rx s2)) as [|e l] eqn:Q.
  { exists [], (set_rx s2 (hs_rx s2)). rewrite app_nil_r. unfold take_more. rewrite Q. repeat split; cbn; lia. }
  destruct H as (F & L & H). rewrite (take_more_fresh _ _ _ _ e l Q F), filled_len by lia.
  pose proof (zlen_nonneg (e_data e) : 0 <= e_len e). assert (U : u32 (total_len got + e_len e) = total_len got + e_len e) by (apply Z.mod_small; lia). rewrite U.
  destruct (Z.gtb_spec (total_len got + e_len e) (zlen buf)) as [G|G].
  { exists [], (set_rx s2 (hs_rx s2)). rewrite app_nil_r. repeat split; cbn; lia. }
  rewrite copy_filled, U by lia.
  replace (total_len got + e_len e) with (total_len (got ++ [e])) by (rewrite total_len_app; cbn; lia).
  destruct (IH (S i) (got ++ [e]) _ ltac:(rewrite total_len_app; cbn; lia) H) as (more & s' & -> & A & B).
  exists (e :: more), s'. rewrite <- app_assoc in *. cbn [app length] in *. repeat split; lia.
Qed.
End Batches.

(** ** Properties *)

Definition ex_idle (clock : Z) : round (Z * list Z) := mkRound _ [] (false, None, 0) 9 [] [] clock 0.
Definition ex_hs (q : rx_state) : hstate := mkHs q tx_init [] [] [].
Definition ex_queued : rx_state := queue_push (queue_push rx_init (ex_entry 1)) (ex_entry 2).

(** A callback that queues nothing. *)
Definition ex_callback (x : Z * list Z) (s : hstate) : option hstate := Some s.

(** C23. A receiver is answered.  On every layer but REFLECT, the oldest entry
    that is fresh after what other threads did first is returned in the first
    iteration, whatever the timeout and even after a shutdown.  And a call
    that may not wait (any longer) returns at the latest in the next iteration
    that finds the ring empty and in which no other thread queues an entry
    between the two looks at the queue; in all iterations before, and in that
    one otherwise, the ring and other threads may do what they like.  Where
    an evaluation is undefined nothing is claimed. *)
Theorem recv_answers {rec} (callback : rec -> hstate -> option hstate) h timeout_ms deadline :
  (forall r rounds s e, h_layer h <> LAYER_REFLECT ->
     let s1 := run_ops (r_before _ r) s in
     find (fresh (r_now _ r) (queue_time (hs_rx s1))) (queue (hs_rx s1)) = Some e ->
     next_entry rec callback h timeout_ms deadline (r :: rounds) s =
       Got e (set_rx s1 (snd (queue_pop (r_now _ r) (hs_rx s1))))) /\
  (forall before r after s, quiet r -> expires timeout_ms deadline r ->
     next_entry rec callback h timeout_ms deadline (before ++ r :: after) s <> Undefined ->
     answered (next_entry rec callback h timeout_ms deadline (before ++ r :: after) s)).
Proof.
  split; [intros r rounds s e; apply next_entry_got|].
  intros before r after s Q X. now apply next_entry_returns.
Qed.

Lemma recv_answers_witness : exists s',
  next_entry _ ex_callback ExSend.handle 5 6 [ex_idle 0] (ex_hs ex_queued) = Got (ex_entry 1) s' /\
  answered (next_entry _ ex_callback ExSend.handle 5 6 [ex_idle 0; ex_idle 6] (ex_hs rx_init)).
Proof.
  destruct (recv_answers ex_callback ExSend.handle 5 6) as [H1 H2].
  eexists. split.
  - apply H1; [discriminate|reflexivity].
  - apply (H2 [ex_idle 0] (ex_idle 6) []); [now split| |vm_compute; discriminate].
    right. cbn. lia.
Defined.

(** What an error of a receive call means: the queue is empty, the ring
    was found empty, and the handle is shut down ([-ESHUTDOWN]), or the call
    may not wait any longer ([-EAGAIN]), or [epoll_wait] failed.  In
    particular a shutdown never hides packets captured before it. *)
Theorem recv_error_means {rec} (callback : rec -> hstate -> option hstate) h timeout_ms deadline rounds s err s' :
  next_entry rec callback h timeout_ms deadline rounds s = Failed err s' ->
  queue (hs_rx s') = [] /\
  exists r, In r rounds /\ (has_rb h = true -> r_ring _ r = []) /\ error_means timeout_ms deadline r err s'.
Proof. apply next_entry_error. Qed.

Lemma recv_error_means_witness :
  queue (hs_rx (ex_hs (shutdown_recv rx_init))) = [] /\
  exists r, In r [ex_idle 0] /\ error_means 0 0 r (- ESHUTDOWN) (ex_hs (shutdown_recv rx_init)).
Proof.
  destruct (recv_error_means ex_callback ExSend.handle 0 0 [ex_idle 0] (ex_hs (shutdown_recv rx_init))
    (- ESHUTDOWN) (ex_hs (shutdown_recv rx_init)) ltac:(vm_compute; reflexivity)) as (Q & r & I & _ & E).
  split; [exact Q|]. exists r. now split.
Defined.

(** C25. A batch: when the first entry arrives and fits the buffer,
    [ebpfdivert_recv_ex] returns 0 with that entry and up to [*addr_len - 1]
    more; the length it reports is their total length and at most the size of
    the buffer, the buffer holds their data one behind the other, unchanged
    behind them, and nothing is ever written past its end.  A first entry that
    does not fit gives [-ENOBUFS].  This needs that no entry at the head of the
    queue expires between the peek and the pop ([heads_fresh]; without it the
    buffer can be overrun), that the callback is defined, entries below 2^17
    bytes and a buffer below 2^32 - 2^17. *)
Theorem recv_ex_batch {rec} (callback : rec -> hstate -> option hstate) h buf max timeout_ms start rounds env s e s1 :
  zlen buf < 2 ^ 32 - 2 ^ 17 -> 1 <= max < 2 ^ 32 -> has (hd_flags h) EBPFDIVERT_FLAG_SEND_ONLY = false ->
  next_entry rec callback h timeout_ms (deadline_of timeout_ms start) rounds s = Got e s1 ->
  heads_fresh callback h (Z.to_nat (max - 1)) env 0 s1 ->
  if e_len e >? zlen buf
  then ebpfdivert_recv_ex_impl rec callback h (Some buf) (Some max) timeout_ms start rounds env s =
         inr (- ENOBUFS, None, s1)
  else exists more s',
    let got := e :: more in
    ebpfdivert_recv_ex_impl rec callback h (Some buf) (Some max) timeout_ms start rounds env s =
      inr (0, Some (mkBatch (total_len got) got
                      (Some (concat (map e_data got) ++ skipn (Z.to_nat (total_len got)) buf))), s') /\
    total_len got <= zlen buf /\ zlen got <= max.
Proof.
  intros Hn Hm Hs W H. unfold ebpfdivert_recv_ex_impl. destruct (Z.eqb_spec max 0); [lia|]. rewrite Hs, W.
  destruct (Z.gtb_spec (e_len e) (zlen buf)) as [G|G]; [reflexivity|].
  pose proof (zlen_nonneg (e_data e) : 0 <= e_len e).
  pose proof (copy_filled buf [] e ltac:(cbn; lia) ltac:(cbn; lia)) as C. cbn [app] in C.
  change (filled buf []) with buf in C. change (total_len []) with 0 in C. rewrite C.
  replace (e_len e) with (total_len [e]) by (cbn; lia).
  destruct (ex_loop_batch callback h env buf Hn (Z.to_nat (max - 1)) 0 [e] s1 ltac:(cbn; lia) H) as (more & s' & -> & A & B).
  exists more, s'. split; [reflexivity|]. split; [exact B|]. unfold zlen. cbn [length]. lia.
Qed.

Definition ex_more (i : nat) : ex_round (Z * list Z) := mkExRound _ [] [] 9.

Lemma recv_ex_batch_witness : exists more s',
  let got := ex_entry 1 :: more in
  ebpfdivert_recv_ex_impl _ ex_callback ExSend.handle (Some (repeat 7 10)) (Some 4) 0 0 [ex_idle 0] ex_more
    (ex_hs ex_queued) =
    inr (0, Some (mkBatch (total_len got) got
                    (Some (concat (map e_data got) ++ skipn (Z.to_nat (total_len got)) (repeat 7 10)))), s') /\
  total_len got <= 10 /\ zlen got <= 4.
Proof.
  apply (recv_ex_batch ex_callback ExSend.handle (repeat 7 10) 4 0 0 [ex_idle 0] ex_more (ex_hs ex_queued) (ex_entry 1)
    (ex_hs (mkRx [ex_entry 2] 1 1 4096 2000 4194304 0 false true 1)));
    [reflexivity|lia|reflexivity|vm_compute; reflexivity|]. vm_compute. repeat split.
Defined.
