(* ===== verification/HdOpen.v ===== *)
(** * Opening, configuring and closing a handle

    [src/handle.c]: the registry of live handles ([proc_start_time],
    [proc_alive], [registry_reap], [registry_max_tc_prio], [registry_add]),
    [choose_tc_prio], the attachments, [write_config] and the heartbeat,
    [open_network], [open_events], [open_reflect], the argument checks of
    [ebpfdivert_open], [ebpfdivert_shutdown], [ebpfdivert_close] and
    [ebpfdivert_get_handle_stats_impl].

    The registry map is an association list; libbpf and the operating system
    are a record of their answers ([open_env]).  The registry lock makes the
    registry part of an open or close one step. *)

From Stdlib Require Import Ascii String ZArith List Bool Lia ZifyBool.
From S2P Require Import Prelude WdTypes WdPacket WdExec WdSerial PfEvents PfEncode BpfMatch BpfTc BpfEvents.
From S2P Require Import CString WdAnalyze WdLex WdCompile WdMeaning HdQueue HdSend HdEvents HdRecv.
Import ListNotations.

Definition ENOENT : Z := 2.
Definition EIO : Z := 5.
Definition E2BIG : Z := 7.
Definition EBADF : Z := 9.
Definition EEXIST : Z := 17.
Definition ENODEV : Z := 19.
Definition EOPNOTSUPP : Z := 95.

Definition EBPFDIVERT_FLAG_FRAGMENTS : Z := 0x0020.
Definition EBPFDIVERT_PRIORITY_HIGHEST : Z := 30000.
Definition EBPFDIVERT_PRIORITY_LOWEST : Z := -30000.
Definition AUTO_PRIORITY_BASE : Z := 30001.
Definition DEFAULT_RING_BYTES : Z := 8 <<< 20.
Definition EVENT_RING_BYTES : Z := 1 <<< 20.
Definition REGISTRY_MAX : nat := 1024.
Definition REG_MAX_ATTACH : nat := 128.
Definition EBD_MAX_LINKS : nat := 16.
Definition HEARTBEAT_TIMEOUT_NS : Z := 3 * 1000000000.

(** ** Processes *)

(** [strrchr(buf, c)]: the text from the last [c] on. *)
Fixpoint strrchr (c : Z) (s : list Z) : option (list Z) :=
  match s with
  | [] => None
  | x :: tl =>
    match strrchr c tl with
    | Some r => Some r
    | None => if x =? c then Some s else None
    end
  end.

(** The decimal digits at the start of [s], saturating like [strtoull]. *)
Fixpoint strtoull (v : Z) (s : list Z) : Z :=
  match s with
  | [] => v
  | x :: tl =>
    if (48 <=? x) && (x <=? 57) then strtoull (Z.min (v * 10 + (x - 48)) (2 ^ 64 - 1)) tl else v
  end.

(** [for (i = 0; i < 19 && p; i++) p = strchr(p + 1, ' ')] *)
Fixpoint skip_fields (i : nat) (p : list Z) : option (list Z) :=
  match i with
  | O => Some p
  | S i => match strchr 32 (tl p) with Some p => skip_fields i p | None => None end
  end.

(** [buf] is the line read from [/proc/<pid>/stat], [None] when there is
    none; the kernel writes at least 22 fields, the last a plain number. *)
Definition proc_start_time (buf : option (list Z)) : Z :=
  match buf with
  | None => 0
  | Some buf =>
    match strrchr 41 buf with
    | None => 0
    | Some p =>
      match skip_fields 19 (tl p) with
      | Some p => strtoull 0 (tl p)
      | None => 0
      end
    end
  end.

(** [exists_ pid] is false when [kill(pid, 0)] fails with [ESRCH]. *)
Definition proc_alive (exists_ : Z -> bool) (stat : Z -> option (list Z)) (pid start : Z) : bool :=
  if negb (exists_ pid) then false else proc_start_time (stat pid) =? start.

(** ** Registry *)

Definition registry : Set := list (Z * reg_entry).

(** What [detach_legacy_entry] detaches. *)
Definition detach_legacy_entry (e : reg_entry) : list reg_attach := firstn REG_MAX_ATTACH (re_attach e).

(** The registry without the dead, and the attachments removed. *)
Definition registry_reap (alive : Z -> Z -> bool) (reg : registry) : registry * list reg_attach :=
  let is_dead x := negb (alive (re_pid (snd x)) (re_pid_start (snd x))) in
  let dead := filter is_dead reg in
  let ids := firstn REGISTRY_MAX (map fst dead) in
  (filter (fun x => negb (known ids (fst x))) reg,
   concat (map (fun x => if re_legacy (snd x) then detach_legacy_entry (snd x) else []) dead)).

Definition registry_max_tc_prio (reg : registry) : Z :=
  fold_left (fun max x => if re_tc_prio (snd x) >? max then re_tc_prio (snd x) else max) reg 0.

(** The TC priority and [local_max_tc_prio]; [reg = None] is a closed
    registry. *)
Definition choose_tc_prio (prio : Z) (reg : option registry) (local_max : Z) : Z * Z :=
  if negb (prio =? 0) then (u32 (AUTO_PRIORITY_BASE - prio), local_max)
  else
    let max := match reg with Some reg => registry_max_tc_prio reg | None => 0 end in
    let max := if local_max >? max then local_max else max in
    let p := if max >=? AUTO_PRIORITY_BASE then u32 (max + 1) else AUTO_PRIORITY_BASE in
    let p := if p >? 0xFFFF then 0xFFFF else p in
    (p, if p >? local_max then p else local_max).

(** ** Attachments *)

(** [struct attachment]: the hook and the options of the filter. *)
Record attachment : Set := mkAtt {
  at_ifindex : Z;
  at_ingress : bool;
  at_handle : Z;
  at_priority : Z;
  at_legacy : bool
}.

(** [hook_create] and [tc_attach] are [bpf_tc_hook_create] and
    [bpf_tc_attach]: an error, or the handle the filter got. *)
Definition attach_one (hook_create : Z -> bool -> Z) (tc_attach : Z -> bool -> Z -> Z + Z) (tc_prio : Z)
    (att : list attachment) (ifindex : Z) (ingress : bool) : Z * list attachment :=
  let err := hook_create ifindex ingress in
  if negb (err =? 0) && negb (err =? - EEXIST) then (err, att)
  else
    match tc_attach ifindex ingress tc_prio with
    | inl err => (err, att)
    | inr handle => (0, att ++ [mkAtt ifindex ingress handle tc_prio true])
    end.

Definition name_eqb : list Z -> list Z -> bool := list_eqb.

Definition iface_selected (ifnames : option (list (list Z))) (name : list Z) : bool :=
  match ifnames with
  | None => true
  | Some l => existsb (fun n => name_eqb n name) l
  end.

(** The loop over the interfaces: [attached], the last [err], [lo_selected];
    [inl err] is a return from the loop. *)
Fixpoint attach_loop (one : list attachment -> Z -> bool -> Z * list attachment)
    (lo : Z) (ifnames : option (list (list Z))) (ifs : list (Z * list Z)) (attached err : Z)
    (lo_selected : bool) (att : list attachment) : (Z + Z * Z * bool) * list attachment :=
  match ifs with
  | [] => (inr (attached, err, lo_selected), att)
  | (ifindex, name) :: ifs =>
    let is_lo := ifindex =? lo in
    let sel := iface_selected ifnames name in
    let lo_selected := if is_lo then sel else lo_selected in
    if negb sel && negb is_lo then attach_loop one lo ifnames ifs attached err lo_selected att
    else
      let '(err, att) := one att ifindex true in
      let '(err, att) := if err =? 0 then one att ifindex false else (err, att) in
      if negb (err =? 0) then
        if sel && match ifnames with Some _ => true | None => false end then (inl err, att)
        else attach_loop one lo ifnames ifs attached err lo_selected att
      else attach_loop one lo ifnames ifs (if sel then attached + 1 else attached) err lo_selected att
  end.

(** Return value, attachments and whether [CFG_F_SKIP_LO] is set. *)
Definition attach_interfaces (one : list attachment -> Z -> bool -> Z * list attachment)
    (nametoindex : list Z -> bool) (lo : Z) (ifnames : option (list (list Z))) (ifs : list (Z * list Z))
    : Z * list attachment * bool :=
  if match ifnames with Some l => negb (forallb nametoindex l) | None => false end then (- ENODEV, [], false)
  else
    match attach_loop one lo ifnames ifs 0 0 false [] with
    | (inl err, att) => (err, att, false)
    | (inr (attached, err, lo_selected), att) =>
      (if negb (attached =? 0) then 0 else if negb (err =? 0) then err else - ENODEV, att, negb lo_selected)
    end.

(** What [detach_all] detaches. *)
Definition detach_all (att : list attachment) : list attachment := filter at_legacy att.

(** The first [REG_MAX_ATTACH] legacy attachments, as the registry holds
    them; [BPF_TC_INGRESS] is 1 and [BPF_TC_EGRESS] 2. *)
Definition registered_attach (att : list attachment) : list reg_attach :=
  firstn REG_MAX_ATTACH
    (map (fun a => mkRegAttach (u32 (at_ifindex a)) (if at_ingress a then 1 else 2) (at_handle a) (at_priority a))
       (filter at_legacy att)).

(** ** Configuration *)

(** [h->cfg] and [h->evcfg]. *)
Record handle_cfg : Set := mkHcfg {
  hc_cfg : divert_config;
  hc_evcfg : event_config
}.

Definition zero_cfg : handle_cfg := mkHcfg (mkConfig 0 0 0 0 0 0 0) (mkEvConfig 0 0 0).

Definition is_event_layer (layer : WINDIVERT_LAYER) : bool :=
  layer_eqb layer LAYER_FLOW || layer_eqb layer LAYER_SOCKET.

(** The configuration [write_config] puts into the map; it is there when the
    update returns 0. *)
Definition write_config (layer : WINDIVERT_LAYER) (now : Z) (c : handle_cfg) : handle_cfg :=
  if is_event_layer layer then
    mkHcfg (hc_cfg c) (mkEvConfig (evc_flags (hc_evcfg c)) (u64 now) HEARTBEAT_TIMEOUT_NS)
  else
    let g := hc_cfg c in
    mkHcfg (mkConfig (priority g) (snaplen g) (loop_prevention_mark g) (lo_ifindex g) (cfg_flags g)
              (u64 now) HEARTBEAT_TIMEOUT_NS) (hc_evcfg c).

Definition with_flag (c : handle_cfg) (f : Z) : handle_cfg :=
  let g := hc_cfg c in
  mkHcfg (mkConfig (priority g) (snaplen g) (loop_prevention_mark g) (lo_ifindex g) (cfg_flags g ||| f)
            (heartbeat_ns g) (heartbeat_timeout_ns g)) (hc_evcfg c).

(** [while (p < ring_bytes && p < (1u << 30)) p <<= 1] from a page on. *)
Fixpoint ring_loop (fuel : nat) (p ring_bytes : Z) : Z :=
  match fuel with
  | O => p
  | S fuel => if (p <? ring_bytes) && (p <? 1 <<< 30) then ring_loop fuel (u32 (p <<< 1)) ring_bytes else p
  end.

(** 18 doublings lead from [2^12] to [2^30]. *)
Definition ring_size (ring_bytes : Z) : Z := ring_loop 18 4096 ring_bytes.

(** ** Open *)

(** The answers of libbpf, the kernel and the other processes during one
    open: an error or 0 unless said otherwise. *)
Record open_env : Type := mkOpenEnv {
  oe_load : Z;                                     (* opening and loading the object, finding its maps *)
  oe_upd4 : Z -> Z;
  oe_upd6 : Z -> Z;
  oe_upd_event : Z -> Z;
  oe_ring : Z;                                     (* creating the ring and adding it to [epfd] *)
  oe_cfg_update : bool -> Z;                       (* the first and the second [write_config] *)
  oe_forwarding : bool;                            (* either sysctl is not zero *)
  oe_registry : option registry;
  oe_alive : Z -> Z -> bool;
  oe_local_max : Z;
  oe_nametoindex : list Z -> bool;
  oe_ifs : list (Z * list Z);
  oe_hook_create : Z -> bool -> Z;
  oe_tc_attach : Z -> bool -> Z -> Z + Z;
  oe_pid : Z * Z;                                  (* own pid and start time *)
  oe_random : Z;                                   (* a fresh id, 0 when there is no randomness *)
  oe_insert : bool;                                (* the registry takes the entry *)
  oe_cgroup : Z;
  oe_attach_prog : Z -> Z;                         (* attaching the i-th program *)
  oe_clock : Z
}.

(** What a handle holds when it is open. *)
Record opened : Type := mkOpened {
  o_exact : bool;
  o_maps : rule_maps;
  o_events : list event_rule;
  o_tc_prio : Z;
  o_cfg : handle_cfg;           (* as in the kernel *)
  o_att : list attachment;
  o_links : Z;
  o_ring : Z;                   (* bytes of the ring *)
  o_reg_id : Z;
  o_registry : option registry;
  o_local_max : Z
}.

(** The entry and its id; nothing is registered without one.  A filter whose
    serialization overflows does not come here: [WdMeaning.compiled_indices]
    shows that the filters of [wd_filter_compile] can all be serialized. *)
Definition registry_add (env : open_env) (h : handle_info) (prio tc_prio : Z)
    (att : list attachment) (reg : registry) : Z * registry :=
  let ra := registered_attach att in
  let '(n, text) := match wd_filter_serialize (h_filter h) REG_FILTER_MAX with Some x => x | None => (0, []) end in
  let filter_len := if n >? 0 then u32 n else 0 in
  let e := mkReg (fst (oe_pid env)) tc_prio (snd (oe_pid env)) (oe_clock env) (hd_flags h) (h_layer h) prio
             (negb (is_empty ra)) ra filter_len text in
  if oe_random env =? 0 then (0, reg)
  else if oe_insert env && negb (known (map fst reg) (oe_random env)) then
    (oe_random env, reg ++ [(oe_random env, e)])
  else (0, reg).

(** [wd_filter_flags] bits: inbound and outbound packets can match. *)
Definition FILTER_FLAG_INBOUND : Z := 1 <<< 4.
Definition FILTER_FLAG_OUTBOUND : Z := 1 <<< 5.
Definition FILTER_FLAG_LISTEN_ACCEPT : Z := 0x800 ||| 0x1000.

Definition network_cfg (h : handle_info) (forwarding : bool) (tc_prio : Z) : divert_config :=
  mkConfig tc_prio DIVERT_MAX_PACKET LOOP_PREVENTION_MARK (u32 (h_lo_ifindex h))
    (flag_if (has (hd_flags h) EBPFDIVERT_FLAG_FRAGMENTS) CFG_F_FRAGMENTS |||
     flag_if (layer_eqb (h_layer h) LAYER_NETWORK_FORWARD) CFG_F_FORWARD |||
     flag_if forwarding CFG_F_FWD_CHECK |||
     flag_if (negb (has (wf_flags (h_filter h)) FILTER_FLAG_INBOUND)) CFG_F_NO_INBOUND |||
     flag_if (negb (has (wf_flags (h_filter h)) FILTER_FLAG_OUTBOUND)) CFG_F_NO_OUTBOUND) 0 0.

(** [h] with the filter compiled; [ring_bytes] is 0 when the options give
    none.  [inl] is the error, with what stays attached until [free_handle]
    detaches it, and [local_max_tc_prio]. *)
Definition open_network (env : open_env) (h : handle_info) (prio ring_bytes : Z)
    (ifnames : option (list (list Z))) : (Z * list attachment * Z) + opened :=
  let ring := ring_size (if ring_bytes =? 0 then DEFAULT_RING_BYTES else ring_bytes) in
  let send_only := has (hd_flags h) EBPFDIVERT_FLAG_SEND_ONLY in
  if negb (oe_load env =? 0) then inl (oe_load env, [], oe_local_max env)
  else
    match load_rules (oe_upd4 env) (oe_upd6 env) (h_layer h) (hd_flags h) (wf_object (h_filter h)) empty_maps with
    | (err, exact, maps) =>
      if negb (err =? 0) then inl (err, [], oe_local_max env)
      else if negb send_only && negb (oe_ring env =? 0) then inl (oe_ring env, [], oe_local_max env)
      else
        let reg := option_map (fun r => fst (registry_reap (oe_alive env) r)) (oe_registry env) in
        let '(tc_prio, local_max) := choose_tc_prio prio reg (oe_local_max env) in
        let c := write_config (h_layer h) (oe_clock env)
                   (mkHcfg (network_cfg h (oe_forwarding env) tc_prio) (hc_evcfg zero_cfg)) in
        let one := attach_one (oe_hook_create env) (oe_tc_attach env) tc_prio in
        let finish c att :=
          let '(id, reg) := match reg with
            | Some r => let '(id, r) := registry_add env h prio tc_prio att r in (id, Some r)
            | None => (0, None)
            end in
          inr (mkOpened exact maps [] tc_prio c att 0 ring id reg local_max) in
        if negb (oe_cfg_update env false =? 0) then inl (oe_cfg_update env false, [], local_max)
        else if send_only then finish c []
        else
          match attach_interfaces one (oe_nametoindex env) (h_lo_ifindex h) ifnames (oe_ifs env) with
          | (err, att, skip_lo) =>
            if negb (err =? 0) then inl (err, att, local_max)
            else if negb (oe_cfg_update env true =? 0) then inl (oe_cfg_update env true, att, local_max)
            else finish (write_config (h_layer h) (oe_clock env) (if skip_lo then with_flag c CFG_F_SKIP_LO else c)) att
          end
    end.

(** The programs of [socket_progs] and [flow_progs], in order. *)
Definition event_progs (layer : WINDIVERT_LAYER) : nat := if layer_eqb layer LAYER_SOCKET then 7%nat else 5%nat.

(** Attaching stops at the first error. *)
Fixpoint attach_progs (attach : Z -> Z) (n : nat) (i : Z) : Z * Z :=
  match n with
  | O => (0, i)
  | S n => if attach i =? 0 then attach_progs attach n (i + 1) else (attach i, i)
  end.

(** Writing the rules stops at the first [errno]. *)
Fixpoint first_error (upd : Z -> Z) (n : nat) (i : Z) : Z :=
  match n with
  | O => 0
  | S n => if upd i =? 0 then first_error upd n (i + 1) else - upd i
  end.

(** The rules of a blocking handle; [inl] is the error. *)
Definition block_rules (h : handle_info) : Z + option (list event_rule) :=
  if layer_eqb (h_layer h) LAYER_SOCKET && negb (has (hd_flags h) EBPFDIVERT_FLAG_SNIFF) then
    if has (wf_flags (h_filter h)) FILTER_FLAG_LISTEN_ACCEPT then inl (- EOPNOTSUPP)
    else
      let '(rules, exact) := pf_lower_events (wf_object (h_filter h)) EVENT_RULES_MAX in
      if negb exact then inl (- EOPNOTSUPP) else inr (Some rules)
  else inr None.

Definition open_events (env : open_env) (h : handle_info) (ring_bytes : Z) : Z + opened :=
  match block_rules h with
  | inl err => inl err
  | inr block =>
    let rules := match block with Some r => r | None => [] end in
    let ring := if ring_bytes =? 0 then EVENT_RING_BYTES else ring_size ring_bytes in
    if negb (oe_load env =? 0) then inl (oe_load env)
    else
      let err := first_error (oe_upd_event env) (length rules) 0 in
      if negb (err =? 0) then inl err
      else
        let flags := flag_if (layer_eqb (h_layer h) LAYER_SOCKET) EVCFG_F_SOCKET |||
                     flag_if (match block with Some _ => true | None => false end) EVCFG_F_BLOCK in
        let c := write_config (h_layer h) (oe_clock env) (mkHcfg (hc_cfg zero_cfg) (mkEvConfig flags 0 0)) in
        if negb (oe_cfg_update env false =? 0) then inl (oe_cfg_update env false)
        else if negb (oe_ring env =? 0) then inl (oe_ring env)
        else if negb (oe_cgroup env =? 0) then inl (oe_cgroup env)
        else
          let '(err, links) := attach_progs (oe_attach_prog env) (event_progs (h_layer h)) 0 in
          if negb (err =? 0) then inl err
          else inr (mkOpened false empty_maps (loaded_events rules) 0 c [] links ring 0 (oe_registry env)
                      (oe_local_max env))
  end.

(** [register_handle]: a closed registry registers nothing. *)
Definition register_handle (env : open_env) (h : handle_info) (prio : Z) (o : opened) : opened :=
  match oe_registry env with
  | None => o
  | Some reg =>
    let '(id, reg) := registry_add env h prio (o_tc_prio o) []
                        (fst (registry_reap (oe_alive env) reg)) in
    mkOpened (o_exact o) (o_maps o) (o_events o) (o_tc_prio o) (o_cfg o) (o_att o) (o_links o) (o_ring o) id
      (Some reg) (o_local_max o)
  end.

(** The argument checks of [ebpfdivert_open]; [layer] and [flags] are the
    caller's integers. *)
Definition open_args_ok (has_filter : bool) (layer prio flags : Z) : bool :=
  let bad :=
    negb has_filter || (layer <? 0) || (layer >? 4) ||
    (prio <? EBPFDIVERT_PRIORITY_LOWEST) || (prio >? EBPFDIVERT_PRIORITY_HIGHEST) ||
    negb ((flags &&& Z.lxor (2 ^ 64 - 1) 0x3F) =? 0) ||
    (has flags EBPFDIVERT_FLAG_SNIFF && has flags EBPFDIVERT_FLAG_DROP) ||
    (has flags EBPFDIVERT_FLAG_RECV_ONLY && has flags EBPFDIVERT_FLAG_SEND_ONLY) in
  let sniff_recv := EBPFDIVERT_FLAG_SNIFF ||| EBPFDIVERT_FLAG_RECV_ONLY in
  let bad_layer :=
    (((layer =? 2) || (layer =? 4)) && negb ((flags &&& sniff_recv) =? sniff_recv)) ||
    ((layer =? 3) && negb (has flags EBPFDIVERT_FLAG_RECV_ONLY)) in
  negb bad && negb bad_layer.

(** [EBPFDIVERT_LAYER_*] *)
Definition layer_of (layer : Z) : WINDIVERT_LAYER :=
  if layer =? 0 then LAYER_NETWORK else if layer =? 1 then LAYER_NETWORK_FORWARD
  else if layer =? 2 then LAYER_FLOW else if layer =? 3 then LAYER_SOCKET else LAYER_REFLECT.

(** [open_reflect]: only the timer. *)
Definition open_reflect (env : open_env) : Z + opened :=
  if negb (oe_ring env =? 0) then inl (oe_ring env)
  else inr (mkOpened false empty_maps [] 0 zero_cfg [] 0 0 0 (oe_registry env) (oe_local_max env)).

(** [ebpfdivert_open]: [filter] is the string or NULL, [lo] the index of the
    loopback device, [fds] the error of creating the event and epoll
    descriptors.  [inl] is the negative [errno]; [None] is undefined behaviour
    of the compiler. *)
Definition ebpfdivert_open (env : open_env) (lo fds : Z) (filter : option (list Z))
    (layer prio flags ring_bytes : Z) (ifnames : option (list (list Z)))
    : option (Z + handle_info * opened) :=
  if negb (open_args_ok (non_null filter) layer prio flags) then Some (inl (- EINVAL))
  else if negb (fds =? 0) then Some (inl fds)
  else
    let l := layer_of layer in
    let lo := if lo <=? 0 then 1 else lo in
    match wd_filter_compile (match filter with Some text => text | None => [] end) l with
    | None => None
    | Some (inl (err, _)) => Some (inl err)
    | Some (inr f) =>
      let h := mkHandle l flags 0 lo f false in
      let r := match l with
               | LAYER_NETWORK | LAYER_NETWORK_FORWARD =>
                 match open_network env h prio ring_bytes ifnames with inl (err, _, _) => inl err | inr o => inr o end
               | LAYER_FLOW | LAYER_SOCKET =>
                 match open_events env h ring_bytes with
                 | inl err => inl err | inr o => inr (register_handle env h prio o) end
               | _ => match open_reflect env with
                      | inl err => inl err | inr o => inr (register_handle env h prio o) end
               end in
      match r with
      | inl err => Some (inl err)
      | inr o => Some (inr (mkHandle l flags (o_tc_prio o) lo f (o_exact o), o))
      end
    end.

(** ** Heartbeat *)

(** [hb_list]: the open handles of the process, each with its layer and its
    configuration. *)
Definition hb_entry : Set := Z * WINDIVERT_LAYER * handle_cfg.

Definition heartbeat_add (l : list hb_entry) (h : hb_entry) : list hb_entry := h :: l.

Fixpoint heartbeat_remove (l : list hb_entry) (id : Z) : list hb_entry :=
  match l with
  | [] => []
  | x :: l => if fst (fst x) =? id then l else x :: heartbeat_remove l id
  end.

(** One round of [heartbeat_main]; every [write_config] reads the clock. *)
Definition heartbeat_round (now : Z -> Z) (l : list hb_entry) : list hb_entry :=
  map (fun x => (fst (fst x), snd (fst x), write_config (snd (fst x)) (now (fst (fst x))) (snd x))) l.

(** ** Shutdown *)

(** Return value, queue, send side, and the configuration in memory and in
    the kernel; [cfg_fd] says whether there is a map, [update] whether its
    update succeeds. *)
Definition ebpfdivert_shutdown (layer : WINDIVERT_LAYER) (cfg_fd update : bool) (now how : Z)
    (q : rx_state) (t : tx_state) (mem kern : handle_cfg) : Z * rx_state * tx_state * handle_cfg * handle_cfg :=
  if negb ((how &&& Z.lnot EBPFDIVERT_SHUTDOWN_BOTH) =? 0) || (how =? 0) then (- EINVAL, q, t, mem, kern)
  else
    let '(q, mem, kern) :=
      if has how EBPFDIVERT_SHUTDOWN_RECV then
        let '(mem, kern) :=
          if shut_recv q then (mem, kern)
          else
            let mem := with_flag mem CFG_F_SHUTDOWN in
            let mem := mkHcfg (hc_cfg mem)
              (mkEvConfig (evc_flags (hc_evcfg mem) ||| EVCFG_F_SHUTDOWN) (evc_heartbeat_ns (hc_evcfg mem))
                 (evc_heartbeat_timeout_ns (hc_evcfg mem))) in
            if cfg_fd then
              let mem := write_config layer now mem in (mem, if update then mem else kern)
            else (mem, kern) in
        (shutdown_recv q, mem, kern)
      else (q, mem, kern) in
    let t := if has how EBPFDIVERT_SHUTDOWN_SEND
             then mkTx true (socks t) (raw4 t) (raw6 t) (mtu_cache t) else t in
    (0, q, t, mem, kern).

(** ** Calls in progress *)

(** [inflight] and [closing], with what they stand for: the threads inside a
    call that [handle_enter] counted, and whether [free_handle] has run.
    [outside] are the threads that are in a function of the handle without
    being counted: in [ebpfdivert_shutdown] or [ebpfdivert_get_event_fd],
    which do not call [handle_enter], or before the [handle_enter] of another
    function. *)
Record life : Set := mkLife {
  inflight : Z;
  closing : bool;
  calls : list Z;
  freed : bool;
  outside : list Z
}.

(** A thread leaves a list of threads. *)
Fixpoint leave_call (thread : Z) (l : list Z) : list Z :=
  match l with
  | [] => []
  | x :: l => if x =? thread then l else x :: leave_call thread l
  end.

(** [handle_enter] by a thread. *)
Definition handle_enter (s : life) (thread : Z) : Z * life :=
  if closing s then (- EBADF, s)
  else (0, mkLife (inflight s + 1) (closing s) (thread :: calls s) (freed s) (leave_call thread (outside s))).

Definition handle_leave (s : life) (thread : Z) : life :=
  mkLife (inflight s - 1) (closing s) (leave_call thread (calls s)) (freed s) (outside s).

(** The two critical sections of [ebpfdivert_close]: the first ends every
    other attempt, the second waits until [inflight] is 0. *)
Definition close_begin (s : life) : Z * life :=
  if closing s then (- EBADF, s) else (0, mkLife (inflight s) true (calls s) (freed s) (outside s)).

Definition close_end (s : life) : option life :=
  if inflight s >? 0 then None else Some (mkLife (inflight s) (closing s) (calls s) true (outside s)).

(** The handle is used as its contract asks: no call starts once
    [ebpfdivert_close] has freed it, and only the closer that got 0 frees.
    [life_start] and [life_return] are a thread that calls a function of the
    handle, and one that returns from a function that is not counted. *)
Inductive life_step : life -> life -> Prop :=
| life_start s thread : freed s = false ->
    life_step s (mkLife (inflight s) (closing s) (calls s) (freed s) (thread :: outside s))
| life_return s thread : In thread (outside s) ->
    life_step s (mkLife (inflight s) (closing s) (calls s) (freed s) (leave_call thread (outside s)))
| life_enter s thread : freed s = false -> life_step s (snd (handle_enter s thread))
| life_leave s thread : In thread (calls s) -> life_step s (handle_leave s thread)
| life_close s : freed s = false -> life_step s (snd (close_begin s))
| life_free s s' : closing s = true -> freed s = false -> close_end s = Some s' -> life_step s s'.

Inductive life_reachable : life -> Prop :=
| life_init : life_reachable (mkLife 0 false [] false [])
| life_next s s' : life_reachable s -> life_step s s' -> life_reachable s'.

(** ** Statistics *)

(** The sum over the CPUs of each counter; [lookup] is the per-CPU array, the
    queue's own drops are added to [STAT_QUEUE_FULL]. *)
Definition sum_cpus (vals : list Z) : Z := fold_left (fun n v => u64 (n + v)) vals 0.

Definition ebpfdivert_get_handle_stats_impl (ncpu : Z) (lookup : Z -> option (list Z)) (drops stats_len : Z)
    : Z * list Z :=
  if stats_len <=? 0 then (- EINVAL, [])
  else if ncpu <=? 0 then (if negb (ncpu =? 0) then ncpu else - EINVAL, [])
  else
    let n := Z.to_nat (Z.min stats_len STAT_MAX) in
    let st := map (fun i => match lookup (Z.of_nat i) with Some vals => sum_cpus vals | None => 0 end) (seq 0 n) in
    let st := if stats_len >? STAT_QUEUE_FULL
              then set_nth (Z.to_nat STAT_QUEUE_FULL) (u64 (nth (Z.to_nat STAT_QUEUE_FULL) st 0 + drops)) st
              else st in
    (Z.of_nat n, st).

(** ** Priorities *)

(** The TC priorities of the registered handles are 16-bit. *)
Definition registry_ok (reg : registry) : Prop :=
  Forall (fun x => 0 <= re_tc_prio (snd x) <= 0xFFFF) reg.

Lemma max_prio_spec : forall (reg : registry) max, max <= 0xFFFF -> registry_ok reg ->
  let m := fold_left (fun max x => if re_tc_prio (snd x) >? max then re_tc_prio (snd x) else max) reg max in
  max <= m <= 0xFFFF /\ Forall (fun x => re_tc_prio (snd x) <= m) reg.
Proof.
  induction reg as [|x reg IH]; intros max Hm Hr; cbn; [split; [lia|constructor]|].
  inversion Hr as [|? ? Hx Ht]; subst. cbn in IH.
  destruct (IH (if re_tc_prio (snd x) >? max then re_tc_prio (snd x) else max)) as [B F]; [case_if; lia|exact Ht|].
  destruct (re_tc_prio (snd x) >? max) eqn:E; (split; [lia|constructor; [lia|exact F]]).
Qed.

(** ** Reaping *)

Lemma NoDup_map_fst_inj {A B} (l : list (A * B)) a b b' : NoDup (map fst l) ->
  In (a, b) l -> In (a, b') l -> b = b'.
Proof.
  induction l as [|[x y] l IH]; cbn; [easy|]. intros N. apply NoDup_cons_iff in N as [Hn N].
  intros [E|H] [E'|H']; [congruence| | |now apply IH].
  - injection E as -> ->. destruct Hn. now apply (in_map fst) in H'.
  - injection E' as -> ->. destruct Hn. now apply (in_map fst) in H.
Qed.

Lemma reap_dead alive (reg : registry) : NoDup (map fst reg) -> (length reg <= REGISTRY_MAX)%nat ->
  fst (registry_reap alive reg) = filter (fun x => alive (re_pid (snd x)) (re_pid_start (snd x))) reg.
Proof.
  intros N L. unfold registry_reap. cbn [fst].
  set (dead := filter (fun x => negb (alive (re_pid (snd x)) (re_pid_start (snd x)))) reg).
  rewrite (firstn_all2 (map fst dead)) by (rewrite length_map; unfold dead; pose proof (filter_length_le
    (fun x => negb (alive (re_pid (snd x)) (re_pid_start (snd x)))) reg); lia).
  apply filter_ext_in. intros [id e] Hx. cbn [fst snd].
  destruct (alive (re_pid e) (re_pid_start e)) eqn:A.
  - apply negb_true_iff, known_out. intros Hk. apply in_map_iff in Hk as ((id', e') & E & Hd). cbn in E. subst id'.
    apply filter_In in Hd as [Hd A']. cbn in A'. 
    assert (e' = e) as -> by (eapply NoDup_map_fst_inj; eauto). now rewrite A in A'.
  - apply negb_false_iff, known_in, in_map_iff. exists (id, e). split; [reflexivity|].
    apply filter_In. cbn. now rewrite A.
Qed.

(** ** The start time of a process *)

(** Fields as [/proc/<pid>/stat] writes them, each behind a blank. *)
Definition spaced (fields : list (list Z)) : list Z := concat (map (cons 32) fields).

Definition plain_field (f : list Z) : Prop := ~ In 32 f /\ ~ In 41 f.

Lemma strrchr_none c a : ~ In c a -> strrchr c a = None.
Proof.
  induction a as [|x a IH]; cbn; [reflexivity|]. intros H. rewrite IH by tauto.
  destruct (Z.eqb_spec x c); tauto.
Qed.

Lemma strrchr_last c pre post : ~ In c post -> strrchr c (pre ++ c :: post) = Some (c :: post).
Proof.
  intros H. induction pre as [|x pre IH]; cbn; [|now rewrite IH].
  now rewrite strrchr_none, Z.eqb_refl.
Qed.

Lemma spaced_plain fields : Forall plain_field fields -> ~ In 41 (spaced fields).
Proof.
  induction 1 as [|f fields [_ Hf] _ IH]; cbn; [easy|].
  intros [E|H]; [discriminate|]. now apply in_app_or in H as [H|H].
Qed.

Lemma skip_fields_spaced : forall i fields, (i < length fields)%nat -> Forall plain_field fields ->
  skip_fields i (spaced fields) = Some (spaced (skipn i fields)).
Proof.
  induction i as [|i IH]; intros fields L F; [reflexivity|].
  destruct fields as [|f [|g fields]]; cbn in L; try lia. inversion F as [|? ? [Hf _] Fg]; subst.
  cbn [skip_fields skipn]. change (tl (spaced (f :: g :: fields))) with (f ++ spaced (g :: fields)).
  rewrite strchr_app by exact Hf. change (strchr 32 (spaced (g :: fields))) with (Some (spaced (g :: fields))).
  apply IH; [cbn; lia|exact Fg].
Qed.

Lemma strtoull_stop r : match r with [] => True | x :: _ => x = 32 end -> forall f v,
  Forall (fun x => 48 <= x <= 57) f -> strtoull v (f ++ r) = strtoull v f.
Proof.
  intros Hr. induction f as [|x f IH]; intros v F; cbn [app strtoull].
  - destruct r as [|x r]; [reflexivity|]. cbn. now subst x.
  - inversion F as [|? ? Hx Ff]; subst. destruct ((48 <=? x) && (x <=? 57)); [now apply IH|reflexivity].
Qed.

(** ** Ring sizes *)

Lemma ring_loop_spec want : forall fuel e, 0 <= e <= 30 -> 30 - e <= Z.of_nat fuel ->
  exists j, e <= j <= 30 /\ ring_loop fuel (2 ^ e) want = 2 ^ j /\ (want <= 2 ^ j \/ j = 30) /\
    (j = e \/ 2 ^ (j - 1) < want).
Proof.
  induction fuel as [|fuel IH]; intros e He Hf; cbn [ring_loop].
  { exists e. assert (e = 30) by lia. repeat split; try lia; auto. }
  change (1 <<< 30) with (2 ^ 30). destruct ((2 ^ e <? want) && (2 ^ e <? 2 ^ 30)) eqn:C.
  - b2p. assert (e < 30) by (apply (Z.pow_lt_mono_r_iff 2); lia).
    assert (E : u32 (2 ^ e <<< 1) = 2 ^ (e + 1)).
    { rewrite Z.shiftl_mul_pow2 by lia. change (2 ^ 1) with 2. rewrite Z.pow_add_r, Z.pow_1_r by lia.
      apply Z.mod_small. pose proof (Z.pow_lt_mono_r 2 e 30). lia. }
    rewrite E. destruct (IH (e + 1)) as (j & Hj & R & W & M); [lia|lia|].
    exists j. repeat split; try lia; auto. destruct M as [-> | M]; [right|now right].
    now replace (e + 1 - 1) with e by lia.
  - exists e. repeat split; try lia; auto. destruct (Z.eq_dec e 30) as [-> | Hn]; [now right|left].
    apply andb_false_iff in C as [C|C]; b2p; [lia|]. pose proof (Z.pow_lt_mono_r 2 e 30). lia.
Qed.

(** ** The heartbeat *)

Lemma heartbeat_fresh now t : 0 <= now -> now <= t < 2 ^ 64 ->
  (negb (HEARTBEAT_TIMEOUT_NS =? 0) && (u64 (t - u64 now) >? HEARTBEAT_TIMEOUT_NS)) =
  (t >? now + HEARTBEAT_TIMEOUT_NS).
Proof.
  intros H1 H2. unfold HEARTBEAT_TIMEOUT_NS. rewrite (u64_small now) by lia. rewrite u64_small by lia. lia.
Qed.

(** ** Calls *)

Lemma leave_length thread l : In thread l -> length l = S (length (leave_call thread l)).
Proof.
  induction l as [|x l IH]; cbn; [easy|]. intros H. destruct (Z.eqb_spec x thread); [reflexivity|].
  cbn. f_equal. apply IH. tauto.
Qed.

Record life_ok (s : life) : Prop := {
  lk_count : inflight s = zlen (calls s);
  lk_freed : freed s = true -> closing s = true /\ calls s = []
}.

Lemma life_invariant s : life_reachable s -> life_ok s.
Proof.
  induction 1 as [|s s' _ [C F] S]; [now split|].
  destruct S as [s thread Hf|s thread Hin|s thread Hf|s thread Hin|s Hf|s s' Hc Hf E].
  - now split.
  - now split.
  - unfold handle_enter. destruct (closing s) eqn:Ec; [split; cbn [snd]; [exact C|rewrite Ec; exact F]|]. split; cbn.
    + unfold zlen in *. cbn. lia.
    + intros H. congruence.
  - split; cbn.
    + unfold zlen in *. rewrite C, (leave_length _ _ Hin). lia.
    + intros H. destruct (F H) as [_ E]. rewrite E in Hin. destruct Hin.
  - unfold close_begin. destruct (closing s) eqn:Ec; [split; cbn [snd]; [exact C|rewrite Ec; exact F]|]. split; cbn; [exact C|congruence].
  - unfold close_end in E. destruct (inflight s >? 0) eqn:G; [discriminate|]. injection E as <-.
    split; cbn; [exact C|]. intros _. split; [exact Hc|]. rewrite C in G. unfold zlen in G.
    destruct (calls s); [reflexivity|cbn in G; lia].
Qed.

(** ** Rules *)

Lemma write_rules_success {R} (add : R -> R) upd : (forall i, 0 <= upd i) -> forall rules i m m',
  write_rules add upd i rules m = (m', 0) -> write_rules add (fun _ => 0) i rules m = (m', 0).
Proof.
  intros Hu. induction rules as [|r rules IH]; intros i m m'; cbn; [auto|].
  destruct (Z.eqb_spec (upd i) 0) as [E|E]; [apply IH|]. intros [= _ H]. specialize (Hu i). lia.
Qed.

Lemma load_rules_success upd4 upd6 layer flags obj exact maps : (forall i, 0 <= upd4 i) -> (forall i, 0 <= upd6 i) ->
  load_rules upd4 upd6 layer flags obj empty_maps = (0, exact, maps) ->
  exists res, pf_lower layer obj = Some res /\ exact = pr_exact res /\
    maps = loaded (rule_action flags (pr_exact res)) res.
Proof.
  intros H4 H6 E. destruct (pf_lower layer obj) as [res|] eqn:L; [|unfold load_rules in E; rewrite L in E; discriminate].
  exists res. split; [reflexivity|].
  assert (E0 : load_rules (fun _ => 0) (fun _ => 0) layer flags obj empty_maps = (0, exact, maps)).
  { revert E. unfold load_rules. rewrite L.
    destruct (write_rules (action4 _) upd4 _ _ _) as [m4 err4] eqn:W4.
    destruct (Z.eqb_spec err4 0) as [-> | N4].
    - rewrite (write_rules_success _ _ H4 _ _ _ _ W4). rewrite Z.eqb_refl.
      destruct (write_rules (action6 _) upd6 _ _ _) as [m6 err6] eqn:W6. intros [= -> <- <-].
      now rewrite (write_rules_success _ _ H6 _ _ _ _ W6).
    - intros [= -> _ _]. contradiction. }
  destruct (pf_lower_result _ _ _ L) as [_ _ N4 N6].
  rewrite (load_rules_loaded _ _ _ _ L N4 N6) in E0. injection E0 as <- <-. auto.
Qed.

(** The configuration a network handle runs with. *)
Definition running_cfg (env : open_env) (h : handle_info) (tc_prio : Z) (skip_lo : bool) : handle_cfg :=
  let c := write_config (h_layer h) (oe_clock env)
             (mkHcfg (network_cfg h (oe_forwarding env) tc_prio) (hc_evcfg zero_cfg)) in
  write_config (h_layer h) (oe_clock env) (if skip_lo then with_flag c CFG_F_SKIP_LO else c).

Lemma open_network_inv env h prio ring_bytes ifnames o : open_network env h prio ring_bytes ifnames = inr o ->
  exists skip_lo,
    load_rules (oe_upd4 env) (oe_upd6 env) (h_layer h) (hd_flags h) (wf_object (h_filter h)) empty_maps =
      (0, o_exact o, o_maps o) /\
    (o_tc_prio o, o_local_max o) = choose_tc_prio prio
      (option_map (fun r => fst (registry_reap (oe_alive env) r)) (oe_registry env)) (oe_local_max env) /\
    o_cfg o = running_cfg env h (o_tc_prio o) skip_lo.
Proof.
  unfold open_network. case_if; [discriminate|].
  destruct (load_rules _ _ _ _ _ _) as [[err exact] maps]. destruct (Z.eqb_spec err 0) as [-> | N]; cbn [negb]; [|discriminate].
  case_if; [discriminate|]. set (reg := option_map _ _). destruct (choose_tc_prio prio reg _) as [tc lm] eqn:C.
  case_if; [discriminate|].
  assert (W : forall c, write_config (h_layer h) (oe_clock env) (write_config (h_layer h) (oe_clock env) c) =
    write_config (h_layer h) (oe_clock env) c) by (intros c; unfold write_config; now destruct (is_event_layer _)).
  assert (Fin : forall c att r, match reg with
      | Some r => let '(id, r) := registry_add env h prio tc att r in (id, Some r)
      | None => (0, None) end = r ->
    let '(id, rg) := r in mkOpened exact maps [] tc c att 0
      (ring_size (if ring_bytes =? 0 then DEFAULT_RING_BYTES else ring_bytes)) id rg lm = o ->
    o_exact o = exact /\ o_maps o = maps /\ o_tc_prio o = tc /\ o_local_max o = lm /\ o_cfg o = c)
    by (intros c att [id rg] _ <-; repeat split).
  case_if.
  - destruct (match reg with Some _ => _ | None => _ end) as [id rg] eqn:R. intros [= E].
    destruct (Fin _ _ _ R E) as (-> & -> & -> & -> & ->). exists false. repeat split; auto.
    unfold running_cfg. now rewrite W.
  - destruct (attach_interfaces _ _ _ _ _) as [[err att] skip_lo]. case_if; [discriminate|]. case_if; [discriminate|].
    destruct (match reg with Some _ => _ | None => _ end) as [id rg] eqn:R. intros [= E].
    destruct (Fin _ _ _ R E) as (-> & -> & -> & -> & ->). exists skip_lo. repeat split; auto.
Qed.

Lemma running_cfg_ok env h tc_prio skip_lo : is_network (h_layer h) = true ->
  let g := hc_cfg (running_cfg env h tc_prio skip_lo) in
  default_mark g /\ snap_limit g = DIVERT_MAX_PACKET /\ priority g = tc_prio /\
  lo_ifindex g = u32 (h_lo_ifindex h) /\ has (cfg_flags g) CFG_F_SHUTDOWN = false /\
  heartbeat_ns g = u64 (oe_clock env) /\ heartbeat_timeout_ns g = HEARTBEAT_TIMEOUT_NS.
Proof.
  intros Hn. unfold running_cfg, write_config.
  replace (is_event_layer (h_layer h)) with false by (destruct (h_layer h); reflexivity || discriminate).
  cbn zeta. destruct skip_lo; cbn -[Z.lor has HEARTBEAT_TIMEOUT_NS]; repeat split; try (now right);
    destruct (has (hd_flags h) _), (layer_eqb (h_layer h) _), (oe_forwarding env),
      (has (wf_flags _) FILTER_FLAG_INBOUND), (has (wf_flags _) FILTER_FLAG_OUTBOUND); reflexivity.
Qed.

(** A handle opened on a network layer. *)
Lemma ebpfdivert_open_network env lo fds filter layer prio flags ring_bytes ifnames h o :
  ebpfdivert_open env lo fds filter layer prio flags ring_bytes ifnames = Some (inr (h, o)) ->
  is_network (layer_of layer) = true -> exists text h0, filter = Some text /\
  wd_filter_compile text (layer_of layer) = Some (inr (h_filter h)) /\
  h_filter h0 = h_filter h /\ h_layer h0 = layer_of layer /\
  open_network env h0 prio ring_bytes ifnames = inr o.
Proof.
  unfold ebpfdivert_open. destruct filter as [text|]; [|discriminate]. case_if; [discriminate|].
  case_if; [discriminate|]. destruct (wd_filter_compile text (layer_of layer)) as [[[err e]|f]|] eqn:C; try discriminate.
  set (h0 := mkHandle _ _ _ _ _ _). intros H N. exists text, h0. split; [reflexivity|].
  destruct (layer_of layer) eqn:L; try discriminate N;
    (destruct (open_network env h0 prio ring_bytes ifnames) as [[[err a] m]|o'] eqn:E; [discriminate|]);
    injection H as <- <-; auto.
Qed.

Lemma running_cfg_direction env h tc_prio skip_lo : is_network (h_layer h) = true ->
  let g := hc_cfg (running_cfg env h tc_prio skip_lo) in
  has (cfg_flags g) CFG_F_NO_INBOUND = negb (has (wf_flags (h_filter h)) FILTER_FLAG_INBOUND) /\
  has (cfg_flags g) CFG_F_NO_OUTBOUND = negb (has (wf_flags (h_filter h)) FILTER_FLAG_OUTBOUND).
Proof.
  intros Hn. unfold running_cfg, write_config.
  replace (is_event_layer (h_layer h)) with false by (destruct (h_layer h); reflexivity || discriminate).
  cbn zeta. destruct skip_lo; cbn -[Z.lor has HEARTBEAT_TIMEOUT_NS]; has_consts; split; reflexivity.
Qed.

(** An address whose packet is accepted has the flag of its direction. *)
Lemma accepted_direction text layer f p addr : is_text text -> is_network layer = true ->
  wd_filter_compile text layer = Some (inr f) -> bytes p -> zlen p < 2 ^ 31 ->
  wd_filter_eval f (Some p) addr = VRet 1 ->
  has (wf_flags f) (if Outbound addr then FILTER_FLAG_OUTBOUND else FILTER_FLAG_INBOUND) = true.
Proof.
  intros T N C Hp Hl. destruct (filter_compiled _ _ _ C) as (Lf & Cf & ->).
  destruct (compile_executes _ _ _ T Cf) as (W & _). unfold wd_filter_eval.
  destruct (layer_eqb (Layer addr) (wf_layer f)) eqn:L; cbn [negb]; [|discriminate].
  assert (La : Layer addr = layer) by (destruct (Layer addr), (wf_layer f); try discriminate L; congruence).
  destruct (match Layer addr with LAYER_NETWORK | LAYER_NETWORK_FORWARD => _ | _ => Some no_packet end) as [info|] eqn:I;
    [|discriminate].
  assert (Hi : WinDivertHelperParsePacketEx p = Some info).
  { rewrite La in I. destruct (WinDivertHelperParsePacketEx p) as [i|]; destruct layer; try discriminate N;
      try discriminate I; case_if_in I; try discriminate I; exact I. }
  set (a := args_at (settled (Timestamp addr)) (eval_args addr p info)).
  assert (Ha : args_ok a).
  { change a with (eval_args (mkAddress (settled (Timestamp addr)) (Layer addr) (Event addr) (Sniffed addr) (Outbound addr)
      (Loopback addr) (Impostor addr) (IPv6 addr) (IPChecksum addr) (TCPChecksum addr) (UDPChecksum addr) (Network addr)
      (Flow addr) (Reflect addr)) p info). apply eval_args_ok; auto. apply settled_ok. }
  assert (Wf : wf_filter (a_layer a) (wf_object f) = true) by (cbn; now rewrite La).
  destruct (WinDivertExecuteFilter (object_array (wf_object f)) (eval_args addr p info)) as [r|] eqn:X; [|discriminate].
  intros V. assert (r = 1) as ->.
  { pose proof (ExecuteFilter_values _ _ _ X). case_if_in V; [discriminate V|]. injection V as V.
    apply Z.ltb_ge in Heqb. destruct (Z.eqb_spec r 0); [discriminate V|]. lia. }
  apply (exec_loop_settled (eval_args addr p info)) in X. fold a in X.
  change (exec_loop _ _ _ 0) with (WinDivertExecuteFilter (object_array (wf_object f)) a) in X.
  rewrite (ExecuteFilter_object _ _ Ha Wf) in X.
  assert (E : WinDivertExecuteFilter (wf_object f) a = VRet 1) by (now rewrite (ExecuteFilter_accepts _ _ Ha Wf)).
  pose proof (flags_sound _ _ (if Outbound addr then FILTER_FLAG_OUTBOUND else FILTER_FLAG_INBOUND) Ha Wf E) as F.
  cbn [a_layer a args_at eval_args] in F. rewrite La in F. apply F. apply in_or_app. left. unfold direction_flags.
  cbn [a_layer a_outbound a args_at eval_args]. rewrite La. destruct layer; try discriminate N; destruct (Outbound addr); now left.
Qed.

(** ** Properties *)

Module ExOpen.

(** A machine with a loopback and an Ethernet device where everything
    succeeds; handle 1 of a dead process and handle 2 of a live one. *)
Definition reg : registry :=
  [(1, mkReg 41 30001 0 0 0 LAYER_NETWORK 0 true [mkRegAttach 2 1 1 30001] 0 []);
   (2, mkReg 42 30005 0 0 0 LAYER_NETWORK 0 false [] 0 [])].

Definition env : open_env :=
  mkOpenEnv 0 (fun _ => 0) (fun _ => 0) (fun _ => 0) 0 (fun _ => 0) false (Some reg) (fun pid _ => pid =? 42) 0
    (fun _ => true) [(1, [108; 111]); (2, [101])] (fun _ _ => 0) (fun _ _ _ => inr 1) (43, 9) 7 true 0
    (fun _ => 0) 5000.

Definition handle : handle_info :=
  mkHandle LAYER_NETWORK 0 0 1 (mkWdFilter LAYER_NETWORK 48 (wf_object WdExec.ex_filter)) false.

Definition result : opened :=
  match open_network env handle 0 0 None with
  | inr o => o
  | inl _ => mkOpened false empty_maps [] 0 zero_cfg [] 0 0 0 None 0
  end.

Lemma opened_ok : open_network env handle 0 0 None = inr result.
Proof. vm_compute. reflexivity. Qed.
End ExOpen.

(** C30. A network handle that opened is ready: the rules in the kernel are
    those of its filter with the handle's action, [exact] is what the
    lowering reported, and the configuration has the mark, the snap length,
    the priority and the heartbeat the capture path relies on.  The owner
    counts as alive for three seconds. *)
Theorem open_network_ready env h prio ring_bytes ifnames o :
  is_network (h_layer h) = true -> (forall i, 0 <= oe_upd4 env i) -> (forall i, 0 <= oe_upd6 env i) ->
  0 <= oe_clock env -> open_network env h prio ring_bytes ifnames = inr o ->
  let g := hc_cfg (o_cfg o) in
  (exists res, pf_lower (h_layer h) (wf_object (h_filter h)) = Some res /\ o_exact o = pr_exact res /\
     o_maps o = loaded (rule_action (hd_flags h) (pr_exact res)) res) /\
  default_mark g /\ snap_limit g = DIVERT_MAX_PACKET /\ priority g = o_tc_prio o /\
  lo_ifindex g = u32 (h_lo_ifindex h) /\ has (cfg_flags g) CFG_F_SHUTDOWN = false /\
  (forall k, oe_clock env <= ktime_check k < 2 ^ 64 ->
     owner_gone k g = (ktime_check k >? oe_clock env + HEARTBEAT_TIMEOUT_NS)).
Proof.
  intros Hn H4 H6 Hc E g. destruct (open_network_inv _ _ _ _ _ _ E) as (skip_lo & L & _ & C).
  split; [exact (load_rules_success _ _ _ _ _ _ _ H4 H6 L)|]. subst g. rewrite C.
  destruct (running_cfg_ok env h (o_tc_prio o) skip_lo Hn) as (R1 & R2 & R3 & R4 & R5 & R6 & R7).
  repeat (split; [assumption|]). intros k Hk. unfold owner_gone. rewrite R6, R7. now apply heartbeat_fresh.
Qed.

Lemma open_network_ready_witness : exists res,
  pf_lower LAYER_NETWORK (wf_object WdExec.ex_filter) = Some res /\ o_exact ExOpen.result = pr_exact res /\
  o_tc_prio ExOpen.result = 30006 /\ o_reg_id ExOpen.result = 7.
Proof.
  destruct (open_network_ready ExOpen.env ExOpen.handle 0 0 None ExOpen.result eq_refl
    ltac:(intros; cbn; lia) ltac:(intros; cbn; lia) ltac:(cbn; lia) ExOpen.opened_ok) as ((res & R1 & R2 & _) & _).
  exists res. split; [exact R1|]. split; [exact R2|]. split; vm_compute; reflexivity.
Defined.

(** A handle that refuses binds and connects is only opened when the
    kernel can decide exactly: if [open_events] succeeds on a SOCKET handle
    without SNIFF, the rules written are an exact lowering of its filter and
    the configuration asks for blocking; otherwise the open fails with
    [-EOPNOTSUPP]. *)
Theorem open_events_blocks env h ring_bytes : h_layer h = LAYER_SOCKET ->
  has (hd_flags h) EBPFDIVERT_FLAG_SNIFF = false ->
  match open_events env h ring_bytes with
  | inr o => exists rules, pf_lower_events (wf_object (h_filter h)) EVENT_RULES_MAX = (rules, true) /\
      o_events o = loaded_events rules /\
      has (evc_flags (hc_evcfg (o_cfg o))) EVCFG_F_BLOCK = true /\
      has (evc_flags (hc_evcfg (o_cfg o))) EVCFG_F_SOCKET = true
  | inl err => has (wf_flags (h_filter h)) FILTER_FLAG_LISTEN_ACCEPT ||
      negb (snd (pf_lower_events (wf_object (h_filter h)) EVENT_RULES_MAX)) = true -> err = - EOPNOTSUPP
  end.
Proof.
  intros Hl Hs. unfold open_events, block_rules. rewrite Hl, Hs. cbn [layer_eqb andb negb].
  change (layer_eqb LAYER_SOCKET LAYER_SOCKET) with true. cbn [andb negb].
  destruct (has (wf_flags _) FILTER_FLAG_LISTEN_ACCEPT); [reflexivity|].
  destruct (pf_lower_events _ _) as [rules exact]. cbn [snd orb]. destruct exact; cbn [negb]; [|reflexivity].
  repeat (case_if; [discriminate|]). destruct (attach_progs _ _ _) as [err links]. case_if; [discriminate|].
  exists rules. repeat split.
Qed.

Lemma open_events_blocks_witness : exists o,
  open_events ExOpen.env (mkHandle LAYER_SOCKET EBPFDIVERT_FLAG_RECV_ONLY 0 1 (h_filter ex_socket_handle) false) 0 = inr o /\
  o_events o = loaded_events ex_rules /\ o_links o = 7.
Proof.
  pose proof (open_events_blocks ExOpen.env
    (mkHandle LAYER_SOCKET EBPFDIVERT_FLAG_RECV_ONLY 0 1 (h_filter ex_socket_handle) false) 0 eq_refl eq_refl) as T.
  destruct (open_events _ _ _) as [err|o] eqn:E; [vm_compute in E; discriminate|].
  destruct T as (rules & L & R & _). exists o. split; [reflexivity|]. split.
  - rewrite R. unfold ex_rules. cbn [h_filter] in L. now rewrite L.
  - vm_compute in E. injection E as <-. reflexivity.
Defined.

(** Priorities: every handle gets a 16-bit TC priority, a higher priority
    a smaller number; a handle of priority 0 comes after every handle that is
    registered, until the numbers run out at 65535. *)
Theorem tc_prio_order prio reg local_max : EBPFDIVERT_PRIORITY_LOWEST <= prio <= EBPFDIVERT_PRIORITY_HIGHEST ->
  0 <= local_max <= 0xFFFF -> registry_ok reg ->
  let '(p, local') := choose_tc_prio prio (Some reg) local_max in
  1 <= p <= 0xFFFF /\ local_max <= local' <= 0xFFFF /\
  (prio = 0 -> Forall (fun x => re_tc_prio (snd x) < p) reg \/ p = 0xFFFF) /\
  (forall prio' p' l', prio' <> 0 -> prio <> 0 -> EBPFDIVERT_PRIORITY_LOWEST <= prio' ->
     choose_tc_prio prio' (Some reg) local_max = (p', l') -> prio' < prio -> p < p').
Proof.
  intros Hp Hl Hr. unfold EBPFDIVERT_PRIORITY_LOWEST, EBPFDIVERT_PRIORITY_HIGHEST in *.
  pose proof (max_prio_spec reg 0 ltac:(lia) Hr) as M. cbv zeta in M. fold (registry_max_tc_prio reg) in M.
  destruct M as [B F]. unfold choose_tc_prio, AUTO_PRIORITY_BASE, u32. destruct (Z.eqb_spec prio 0) as [-> | N]; cbn [negb].
  - set (m := if local_max >? registry_max_tc_prio reg then local_max else registry_max_tc_prio reg).
    assert (Hm : registry_max_tc_prio reg <= m <= 0xFFFF) by (subst m; case_if; lia).
    rewrite (Z.mod_small (m + 1)) by lia.
    set (p := if (if m >=? 30001 then m + 1 else 30001) >? 0xFFFF then _ else _).
    assert (Hp' : (p = 0xFFFF \/ registry_max_tc_prio reg < p) /\ 1 <= p <= 0xFFFF) by (subst p; repeat case_if; lia).
    clearbody p m. split; [lia|]. split; [case_if; lia|]. split; [|contradiction].
    intros _. destruct Hp' as [[E|E] _]; [now right|left]. eapply Forall_impl; [|exact F]. cbn. intros x. lia.
  - rewrite Z.mod_small by lia. split; [lia|]. split; [lia|]. split; [contradiction|].
    intros prio' p' l' N' _ Hb. destruct (Z.eqb_spec prio' 0); [contradiction|]. cbn [negb]. intros [= <- <-] Hlt.
    rewrite Z.mod_small; lia.
Qed.

Lemma tc_prio_order_witness : fst (choose_tc_prio 0 (Some ExOpen.reg) 0) = 30006 /\
  Forall (fun x => re_tc_prio (snd x) < fst (choose_tc_prio 0 (Some ExOpen.reg) 0)) ExOpen.reg.
Proof.
  pose proof (tc_prio_order 0 ExOpen.reg 0 ltac:(unfold EBPFDIVERT_PRIORITY_LOWEST, EBPFDIVERT_PRIORITY_HIGHEST; lia)
    ltac:(lia) ltac:(repeat constructor; cbn; lia)) as T.
  destruct (choose_tc_prio 0 (Some ExOpen.reg) 0) as [p l] eqn:E. vm_compute in E. injection E as <- <-.
  split; [reflexivity|]. destruct T as (_ & _ & T & _). now destruct (T eq_refl).
Defined.

(** The reaper removes the entries of dead processes and no others, and
    detaches precisely the filters those entries name. *)
Theorem reap_removes_dead alive reg : NoDup (map fst reg) -> (length reg <= REGISTRY_MAX)%nat ->
  let '(reg', detached) := registry_reap alive reg in
  (forall x, In x reg' <-> In x reg /\ alive (re_pid (snd x)) (re_pid_start (snd x)) = true) /\
  (forall a, In a detached <-> exists x, In x reg /\ alive (re_pid (snd x)) (re_pid_start (snd x)) = false /\
     re_legacy (snd x) = true /\ In a (firstn REG_MAX_ATTACH (re_attach (snd x)))).
Proof.
  intros N L. pose proof (reap_dead alive reg N L) as R. unfold registry_reap in *. cbn [fst] in R. rewrite R.
  split; [intros x; apply filter_In|]. intros a. rewrite in_concat. split.
  - intros (l & Hl & Ha). apply in_map_iff in Hl as (x & <- & Hx). apply filter_In in Hx as [Hx A].
    exists x. apply negb_true_iff in A. destruct (re_legacy (snd x)); [auto|destruct Ha].
  - intros (x & Hx & A & Lg & Ha). exists (detach_legacy_entry (snd x)). split; [|exact Ha].
    apply in_map_iff. exists x. rewrite Lg. split; [reflexivity|]. apply filter_In. now rewrite A.
Qed.

Lemma reap_removes_dead_witness :
  let '(reg', detached) := registry_reap (oe_alive ExOpen.env) ExOpen.reg in
  map fst reg' = [2] /\ In (mkRegAttach 2 1 1 30001) detached.
Proof.
  pose proof (reap_removes_dead (oe_alive ExOpen.env) ExOpen.reg
    ltac:(repeat constructor; cbn; lia) ltac:(cbn; unfold REGISTRY_MAX; lia)) as T.
  destruct (registry_reap (oe_alive ExOpen.env) ExOpen.reg) as [reg' detached] eqn:E.
  split; [vm_compute in E; injection E as <- _; reflexivity|].
  apply (proj2 T). eexists. split; [left; reflexivity|]. split; [reflexivity|]. split; [reflexivity|now left].
Defined.

(** C29. [ebpfdivert_close] waits for the calls that [handle_enter] counts
    (the receive, send, parameter and statistics functions, which run under
    [GUARDED]): in every interleaving of calls and closers, in which no call
    starts after the handle is freed, the counter is the number of threads
    inside such a call, the handle is freed only when there is none, and from
    the first close on [handle_enter] fails.  The functions that are not
    counted are part of the interleavings, but nothing waits for them: see
    [Findings.close_frees_under_shutdown]. *)
Theorem close_waits_for_calls s : life_reachable s ->
  inflight s = zlen (calls s) /\ (freed s = true -> calls s = []) /\
  (closing s = true -> forall thread, handle_enter s thread = (- EBADF, s)) /\
  (closing s = true -> (calls s = [] <-> close_end s <> None)).
Proof.
  intros H. destruct (life_invariant s H) as [C F]. split; [exact C|]. split; [intros E; now apply F|].
  split; [intros E thread; unfold handle_enter; now rewrite E|]. intros E. unfold close_end. rewrite C. unfold zlen.
  destruct (calls s); cbn; split; try discriminate; try congruence. now destruct (_ >? 0) eqn:G; [|lia].
Qed.

Lemma close_waits_for_calls_witness :
  let s := snd (close_begin (snd (handle_enter (mkLife 0 false [] false [8]) 5))) in
  close_end s = None /\ handle_enter s 6 = (- EBADF, s) /\ inflight s = 1.
Proof.
  intros s. assert (R : life_reachable s).
  { apply (life_next (snd (handle_enter (mkLife 0 false [] false [8]) 5))); [|now apply life_close].
    apply (life_next (mkLife 0 false [] false [8])); [|now apply life_enter].
    apply (life_next (mkLife 0 false [] false [])); [apply life_init|now apply (life_start (mkLife 0 false [] false []))]. }
  destruct (close_waits_for_calls s R) as (C & _ & E & _). split; [reflexivity|]. split; [now apply E|exact C].
Defined.

Lemma has_lor_bit f bit : has (f ||| bit) bit = negb (bit =? 0).
Proof.
  unfold has. rewrite Z.land_lor_distr_l, Z.land_diag. f_equal.
  destruct (Z.eqb_spec bit 0) as [-> | Hb]; [now rewrite Z.land_0_r|].
  apply Z.eqb_neq. intros E. apply Z.lor_eq_0_iff in E. tauto.
Qed.

(** A configuration with the shutdown flags: what the TC programs do. *)
Lemma shut_tc k cfg maps : has (cfg_flags cfg) CFG_F_SHUTDOWN = true -> forall skb st,
  tc_divert_egress k cfg maps skb st = (TC_ACT_UNSPEC, skb, st) /\
  ((skb_mark skb &&& 0xFFFF0000) <> REDIRECT_MARK_MASK ->
   exists skb', tc_divert_ingress k cfg maps skb st = (TC_ACT_UNSPEC, skb', st) /\ skb_bytes skb' = skb_bytes skb).
Proof.
  intros F skb st. unfold tc_divert_egress, tc_divert_ingress.
  assert (P : forall x d, process_packet k cfg maps x d st = (TC_ACT_UNSPEC, st)) by (intros; unfold process_packet; now rewrite F).
  rewrite !P. split; [reflexivity|]. intros N. apply Z.eqb_neq in N. rewrite N. eexists. split; [reflexivity|]. now case_if.
Qed.

(** And the event programs: they allow everything and report nothing. *)
Definition programs_idle (k : ev_kernel) (cfg : event_config) (rules : list event_rule) (st : ev_state) : Prop :=
  (forall sk v6, on_bind k cfg rules sk v6 st = (1, st)) /\
  (forall ctx v6, on_connect k cfg rules ctx v6 st = (1, st)) /\
  (forall sk, ev_sock_release k cfg sk st = (1, st)) /\
  (forall s, ev_sockops k cfg s st = (1, so_cb_flags s, st)) /\
  (forall skb egress, udp_flow k cfg skb egress st = (1, st)).

Lemma shut_events k cfg rules st : has (evc_flags cfg) EVCFG_F_SHUTDOWN = true -> programs_idle k cfg rules st.
Proof.
  intros F. assert (L : live_config k cfg = false) by (unfold live_config; now rewrite F).
  unfold programs_idle, on_bind, on_connect, ev_sock_release, ev_sockops, udp_flow. rewrite L. cbn. auto.
Qed.

(** C31. The first receive shutdown of a handle with kernel programs, when the
    update of its configuration succeeds, stops the capture at once and wakes
    receivers: the egress program passes every packet unchanged and without a
    trace; so does the ingress program, but for packets with a redirect mark,
    which other handles injected and which it still sends on to their
    interface; no bind, connect, release, TCP or UDP event is refused or
    reported; queued entries stay, the event descriptor is readable, and the
    sender is shut only if asked for. *)
Theorem shutdown_stops_capture layer now how q t mem kern :
  has how EBPFDIVERT_SHUTDOWN_RECV = true -> (how &&& Z.lnot EBPFDIVERT_SHUTDOWN_BOTH) = 0 ->
  shut_recv q = false -> awake q ->
  let '(ret, q', t', mem', kern') := ebpfdivert_shutdown layer true true now how q t mem kern in
  ret = 0 /\ mem' = kern' /\ queue q' = queue q /\ wake_fd q' = 1 /\
  shut_send t' = shut_send t || has how EBPFDIVERT_SHUTDOWN_SEND /\
  (forall k maps skb st,
     tc_divert_egress k (hc_cfg kern') maps skb st = (TC_ACT_UNSPEC, skb, st) /\
     ((skb_mark skb &&& 0xFFFF0000) <> REDIRECT_MARK_MASK ->
      exists skb', tc_divert_ingress k (hc_cfg kern') maps skb st = (TC_ACT_UNSPEC, skb', st) /\
        skb_bytes skb' = skb_bytes skb)) /\
  (forall ke rules est, programs_idle ke (hc_evcfg kern') rules est).
Proof.
  intros Hr Hm Hs [A1 A2]. unfold ebpfdivert_shutdown. rewrite Hm, Hr, Hs.
  destruct (Z.eqb_spec how 0) as [-> | Hz]; [discriminate|]. change (negb (0 =? 0) || false) with false. cbn iota.
  assert (W : awake (shutdown_recv q)) by (apply wake_update_awake; cbn; rewrite A1, A2; reflexivity).
  destruct (wake_update_same (mkRx (queue q) (qlen q) (qbytes q) (queue_length q) (queue_time q) (queue_size q)
    (queue_drops q) true (wake_set q) (wake_fd q))) as (W1 & _ & W3 & _). cbn in W1, W3. fold (shutdown_recv q) in W1, W3.
  split; [reflexivity|]. split; [reflexivity|]. split; [exact W1|].
  split; [destruct W as [_ W]; rewrite W; unfold want_wake; rewrite W3, orb_true_r; reflexivity|].
  split; [destruct (has how EBPFDIVERT_SHUTDOWN_SEND); cbn; [now rewrite orb_true_r|now rewrite orb_false_r]|].
  unfold write_config, with_flag. split; intros.
  - apply shut_tc. destruct (is_event_layer layer); cbn [hc_cfg cfg_flags]; now rewrite has_lor_bit.
  - apply shut_events. destruct (is_event_layer layer); cbn [hc_evcfg hc_cfg evc_flags]; now rewrite has_lor_bit.
Qed.

Lemma shutdown_stops_capture_witness : exists q' kern',
  ebpfdivert_shutdown LAYER_NETWORK true true 9 3 rx_init tx_init zero_cfg zero_cfg =
    (0, q', mkTx true [] false false (mtu_cache tx_init), kern', kern') /\ wake_fd q' = 1 /\
  tc_divert_egress ExSend.kern (hc_cfg kern') empty_maps ExSend.skb (mkState [] []) =
    (TC_ACT_UNSPEC, ExSend.skb, mkState [] []).
Proof.
  pose proof (shutdown_stops_capture LAYER_NETWORK 9 3 rx_init tx_init zero_cfg zero_cfg eq_refl eq_refl eq_refl
    ltac:(split; reflexivity)) as T.
  destruct (ebpfdivert_shutdown _ _ _ _ _ _ _ _ _) as [[[[ret q'] t'] mem'] kern'] eqn:E.
  destruct T as (-> & -> & _ & W & _ & P & _). exists q', kern'.
  split; [|split; [exact W|apply P]]. vm_compute in E. injection E as <- <- _ <-. vm_compute. reflexivity.
Defined.

(** The start time of a process is field 22 of its status line, whatever
    its name contains: the name is skipped to its last parenthesis, so a
    process cannot pose as another by its name. *)
Theorem start_time_is_field_22 pre fields : Forall plain_field fields -> (20 <= length fields)%nat ->
  Forall (fun x => 48 <= x <= 57) (nth 19 fields []) ->
  proc_start_time (Some (pre ++ 41 :: spaced fields)) = strtoull 0 (nth 19 fields []).
Proof.
  intros F L D. unfold proc_start_time. rewrite strrchr_last by now apply spaced_plain.
  cbn [tl]. rewrite skip_fields_spaced by (lia || exact F).
  destruct (skipn 19 fields) as [|f rest] eqn:S.
  - apply (f_equal (@length _)) in S. rewrite length_skipn in S. cbn in S. lia.
  - assert (E : nth 19 fields [] = f).
    { rewrite <- (firstn_skipn 19 fields), S, app_nth2; rewrite length_firstn; [|lia].
      now replace (19 - Nat.min 19 (length fields))%nat with 0%nat by lia. }
    rewrite E in *. change (tl (spaced (f :: rest))) with (f ++ spaced rest).
    apply strtoull_stop; [|exact D]. now destruct rest.
Qed.

(** ["1 (a) b) "] and twenty fields, the last of them 4711. *)
Lemma start_time_is_field_22_witness :
  proc_start_time (Some ([49; 32; 40; 97; 41; 32; 98] ++ 41 :: spaced (repeat [83] 19 ++ [[52; 55; 49; 49]]))) = 4711.
Proof.
  apply (start_time_is_field_22 [49; 32; 40; 97; 41; 32; 98] (repeat [83] 19 ++ [[52; 55; 49; 49]])).
  - apply Forall_forall. intros f Hf. cbn in Hf. unfold plain_field.
    repeat (destruct Hf as [<-|Hf]; [cbn; lia|]). destruct Hf.
  - cbn. lia.
  - cbn. repeat constructor; lia.
Defined.

(** The ring is the smallest power of two that holds the requested size,
    from a page up to a gigabyte; the loop ends within its bound. *)
Theorem ring_size_fits want :
  exists j, 12 <= j <= 30 /\ ring_size want = 2 ^ j /\ (want <= 2 ^ j \/ j = 30) /\ (j = 12 \/ 2 ^ (j - 1) < want).
Proof. apply (ring_loop_spec want 18 12); lia. Qed.

(** A REFLECT handle can read every registered filter: the entry a handle
    registers carries a text that [reflect_poll] hands on whole, and that
    [WinDivertDeserializeFilter] turns back into the handle's filter. *)
Theorem registered_filter_readable env h prio tc_prio att reg id reg' :
  wf_filter (wf_layer (h_filter h)) (wf_object (h_filter h)) = true ->
  forallb canonical (wf_object (h_filter h)) = true ->
  zlen (wf_object (h_filter h)) <= 255 ->
  zlen (filter_text (wf_object (h_filter h))) < REG_FILTER_MAX ->
  registry_add env h prio tc_prio att reg = (id, reg') -> id <> 0 ->
  exists e, reg' = reg ++ [(id, e)] /\
    WinDivertDeserializeFilter (rs_filter (seen_of id e)) = ReadVal (wf_object (h_filter h)).
Proof.
  intros Hf Hc Hl Hb. unfold registry_add. rewrite serialize_fits by (try assumption; now apply canonical_fits).
  pose proof (deserialize_filter_text _ _ Hf Hc) as D. revert Hb D.
  generalize (filter_text (wf_object (h_filter h))) as text. intros text Hb D.
  unfold REG_FILTER_MAX in Hb. pose proof (zlen_nonneg text).
  replace (zlen text + 1 >? 0) with true by lia. unfold u32. rewrite Z.mod_small by lia.
  case_if; [intros [= <-]; congruence|]. case_if; [|intros [= <-]; congruence].
  intros [= <- <-] _. eexists. split; [reflexivity|]. unfold seen_of. cbn [rs_filter re_filter re_filter_len].
  replace (_ <=? REG_FILTER_MAX) with true by (unfold REG_FILTER_MAX; lia).
  rewrite firstn_all2 by (rewrite length_app; unfold zlen; cbn [length]; lia). exact D.
Qed.

Lemma registered_filter_readable_witness : exists e,
  snd (registry_add ExOpen.env ExOpen.handle 0 30001 [] ExOpen.reg) = ExOpen.reg ++ [(7, e)] /\
  WinDivertDeserializeFilter (rs_filter (seen_of 7 e)) = ReadVal (wf_object (h_filter ExOpen.handle)).
Proof.
  apply (registered_filter_readable ExOpen.env ExOpen.handle 0 30001 [] ExOpen.reg 7).
  - vm_compute. reflexivity.
  - vm_compute. reflexivity.
  - vm_compute. congruence.
  - vm_compute. reflexivity.
  - vm_compute. reflexivity.
  - congruence.
Defined.

(** C14. The kernel's direction shortcut loses nothing: when a handle opened
    with a filter text runs with [CFG_F_NO_INBOUND] or [CFG_F_NO_OUTBOUND],
    which make the TC program pass all packets of that direction, then the
    filter accepts no packet of that direction. *)
Theorem skipped_direction_rejected env lo fds text layer prio flags ring_bytes ifnames h o p addr :
  is_text text -> is_network (layer_of layer) = true ->
  ebpfdivert_open env lo fds (Some text) layer prio flags ring_bytes ifnames = Some (inr (h, o)) ->
  bytes p -> zlen p < 2 ^ 31 ->
  has (cfg_flags (hc_cfg (o_cfg o))) (if Outbound addr then CFG_F_NO_OUTBOUND else CFG_F_NO_INBOUND) = true ->
  wd_filter_eval (h_filter h) (Some p) addr <> VRet 1.
Proof.
  intros T N O Hp Hl F V.
  destruct (ebpfdivert_open_network _ _ _ _ _ _ _ _ _ _ _ O N) as (text' & h0 & [= <-] & C & Hf & Ly & E).
  pose proof (accepted_direction text _ _ p addr T N C Hp Hl V) as D.
  destruct (open_network_inv _ _ _ _ _ _ E) as (skip_lo & _ & _ & Ec). rewrite Ec in F.
  destruct (running_cfg_direction env h0 (o_tc_prio o) skip_lo ltac:(now rewrite Ly)) as [I U].
  rewrite Hf in I, U. destruct (Outbound addr); [rewrite U, D in F|rewrite I, D in F]; discriminate.
Qed.

(** [outbound and udp], with an inbound packet. *)
Module ExDirection.
Definition text : list Z := Eval vm_compute in chars "outbound and udp".
Definition address : WINDIVERT_ADDRESS :=
  mkAddress 0 LAYER_NETWORK 0 false false false false false false false false
    (mkDataNetwork 2 0) (mkDataFlow 0 0 0 (W128 0 0 0 0) (W128 0 0 0 0) 0 0 0)
    (mkDataReflect 0 0 LAYER_NETWORK 0 0).
Definition result : handle_info * opened := Eval vm_compute in
  match ebpfdivert_open ExOpen.env 1 0 (Some text) 0 0 0 0 None with
  | Some (inr r) => r
  | _ => (ExOpen.handle, ExOpen.result)
  end.
End ExDirection.

Lemma skipped_direction_rejected_witness :
  wd_filter_eval (h_filter (fst ExDirection.result)) (Some ex_udp) ExDirection.address <> VRet 1.
Proof.
  apply (skipped_direction_rejected ExOpen.env 1 0 ExDirection.text 0 0 0 0 None _ (snd ExDirection.result)).
  - vm_compute. discriminate.
  - reflexivity.
  - vm_compute. reflexivity.
  - exact ex_udp_bytes.
  - reflexivity.
  - vm_compute. reflexivity.
Defined.
