(* ===== verification/HdCgroup.v ===== *)
(** * Files of /proc

    What [src/handle.c] reads from the system as text when a handle opens:
    [read_sysctl_int], which tells whether the machine forwards packets, and
    [open_cgroup_root], which looks for the cgroup v2 hierarchy in
    [/proc/self/mountinfo].  The contents of the files are arguments. *)

From Stdlib Require Import String ZArith List Bool Lia ZifyBool.
From S2P Require Import Prelude WdTypes WdSerial WdAddr WdLex HdOpen CString.
Import ListNotations.

(** ** Sysctls *)

(** [None]: the file cannot be opened or read.  The result is [None] when
    [atoi] is undefined. *)
Definition read_sysctl_int (file : option (list Z)) : option Z :=
  match file with
  | None | Some [] => Some 0
  | Some s => atoi (firstn 31 s)
  end.

(** The condition of [open_network]. *)
Definition forwarding (ip_forward forwarding6 : option (list Z)) : option bool :=
  match read_sysctl_int ip_forward with
  | None => None
  | Some v => if negb (v =? 0) then Some true else option_map (fun v => negb (v =? 0)) (read_sysctl_int forwarding6)
  end.

(** ** Mounts *)

(** The results of successive [fgets(line, sizeof(line), f)]: [room]
    characters fit, [line] holds those read so far, in reverse. *)
Definition LINE_ROOM : nat := 1023.

Fixpoint fgets_all (room : nat) (line s : list Z) : list (list Z) :=
  match s with
  | [] => match line with [] => [] | _ => [rev line] end
  | c :: s =>
    match room with
    | S (S room) => if c =? 10 then rev (c :: line) :: fgets_all LINE_ROOM [] s else fgets_all (S room) (c :: line) s
    | _ => rev (c :: line) :: fgets_all LINE_ROOM [] s
    end
  end.

(** [%<limit>s] of [sscanf]: blanks are skipped, at least one character is
    read. *)
Fixpoint scan_chars (limit : nat) (s : list Z) : list Z * list Z :=
  match limit, s with
  | S limit, c :: s' => if isspace c then ([], s) else let '(w, r) := scan_chars limit s' in (c :: w, r)
  | _, _ => ([], s)
  end.

Definition scan_field (limit : nat) (s : list Z) : option (list Z * list Z) :=
  let '(w, r) := scan_chars limit (skip_space s) in
  match w with [] => None | _ => Some (w, r) end.

(** [n] times [%*s]. *)
Fixpoint skip_words (n : nat) (s : list Z) : option (list Z) :=
  match n with
  | O => Some s
  | S n => match scan_field (length s) s with None => None | Some (_, r) => skip_words n r end
  end.

(** [sscanf(line, "%*s %*s %*s %*s %511s", mnt) == 1] *)
Definition scan_mount (line : list Z) : option (list Z) :=
  match skip_words 4 line with
  | None => None
  | Some r => option_map fst (scan_field 511 r)
  end.

Definition CGROUP2 : list Z := Eval vm_compute in chars " - cgroup2 ".

Fixpoint find_cgroup (lines : list (list Z)) : list Z :=
  match lines with
  | [] => []
  | line :: lines =>
    if negb (strstr line CGROUP2) then find_cgroup lines
    else match scan_mount line with Some mnt => snprintf 512 mnt | None => find_cgroup lines end
  end.

(** [mountinfo] is [None] when it cannot be opened; [open_dir] is [open]:
    [inl] is [errno]. *)
Definition open_cgroup_root (open_dir : list Z -> Z + Z) (mountinfo : option (list Z)) : Z + Z :=
  let path := match mountinfo with None => [] | Some s => find_cgroup (fgets_all LINE_ROOM [] s) end in
  match path with
  | [] => inl EOPNOTSUPP
  | _ => open_dir path
  end.

(** ** Lines *)

Lemma fgets_line line s : ~ In 10 line -> forall room acc, (length line < room)%nat ->
  fgets_all room acc (line ++ 10 :: s) = (rev acc ++ line ++ [10]) :: fgets_all LINE_ROOM [] s.
Proof.
  induction line as [|c line IH]; intros N room acc L; cbn [app fgets_all].
  - destruct room as [|[|room]]; [lia|..]; cbn [rev]; reflexivity.
  - cbn [length] in L. destruct room as [|[|room]]; try lia. destruct (Z.eqb_spec c 10) as [->|D]; [elim N; now left|].
    rewrite IH; [|intros I; apply N; now right|lia]. cbn [rev]. now rewrite <- app_assoc.
Qed.

(** ** Fields *)

(** A field holds no blank: [mountinfo] writes blanks inside a path as
    octal numbers. *)
Definition field_ok (f : list Z) : Prop := f <> [] /\ Forall (fun c => isspace c = false) f.

Lemma field_no f c : field_ok f -> isspace c = true -> ~ In c f.
Proof. intros [_ F] E I. rewrite Forall_forall in F. rewrite (F c I) in E. discriminate E. Qed.

Definition ends_field (s : list Z) : Prop := match s with [] => True | c :: _ => isspace c = true end.

Lemma scan_chars_field f s : Forall (fun c => isspace c = false) f -> ends_field s -> forall limit, (length f <= limit)%nat ->
  scan_chars limit (f ++ s) = (f, s).
Proof.
  intros F E. induction F as [|c f Hc _ IH]; intros limit L; cbn [app].
  - destruct limit; [reflexivity|]. destruct s as [|c s]; [reflexivity|]. cbn in E |- *. now rewrite E.
  - cbn [length] in L. destruct limit as [|limit]; [lia|]. cbn [scan_chars]. rewrite Hc, IH by lia. reflexivity.
Qed.

Lemma scan_field_at f s limit : field_ok f -> ends_field s -> (length f <= limit)%nat ->
  scan_field limit (f ++ s) = Some (f, s) /\ scan_field limit (32 :: f ++ s) = Some (f, s).
Proof.
  intros [N F] E L. assert (K : scan_field limit (f ++ s) = Some (f, s)).
  { unfold scan_field. destruct f as [|c f]; [congruence|]. inversion F as [|? ? Hc Ff]; subst.
    assert (K : skip_space ((c :: f) ++ s) = (c :: f) ++ s) by (cbn [app skip_space]; now rewrite Hc).
    rewrite K, scan_chars_field by assumption. reflexivity. }
  split; [exact K|]. exact K.
Qed.

(** A line: the fields with a blank between them. *)
Definition line_of (fields : list (list Z)) : list Z :=
  match fields with [] => [10] | f :: fields => f ++ spaced fields ++ [10] end.

Lemma ends_spaced fields : ends_field (spaced fields ++ [10]).
Proof. destruct fields; reflexivity. Qed.

Lemma scan_spaced f fields limit : field_ok f -> (length f <= limit)%nat ->
  scan_field limit (spaced (f :: fields) ++ [10]) = Some (f, spaced fields ++ [10]).
Proof.
  intros F L. change (spaced (f :: fields)) with (32 :: f ++ spaced fields). cbn [app]. rewrite <- app_assoc.
  apply (scan_field_at f _ limit F (ends_spaced fields) L).
Qed.

Lemma skip_words_S n s : skip_words (S n) s = match scan_field (length s) s with None => None | Some (_, r) => skip_words n r end.
Proof. reflexivity. Qed.

Lemma skip_spaced : forall n fields, Forall field_ok fields -> (n <= length fields)%nat ->
  skip_words n (spaced fields ++ [10]) = Some (spaced (skipn n fields) ++ [10]).
Proof.
  induction n as [|n IH]; intros fields F L; [reflexivity|]. destruct fields as [|f fields]; [cbn in L; lia|].
  inversion F as [|? ? Hf Fs]; subst. cbn [skip_words skipn].
  rewrite scan_spaced; [apply IH; [exact Fs|cbn in L; lia]|exact Hf|].
  change (spaced (f :: fields)) with (32 :: f ++ spaced fields). cbn [app length]. rewrite !length_app. lia.
Qed.

(** ** The separator *)

Lemma starts_with_nil s : starts_with [] s = true.
Proof. destruct s; reflexivity. Qed.

(** A word and a blank, against a field and what follows it. *)
Lemma starts_field f g n s : ~ In 32 f -> ~ In 32 g -> starts_with (f ++ 32 :: n) (g ++ 32 :: s) = streq f g && starts_with n s.
Proof.
  revert g. induction f as [|x f IH]; intros [|y g] Nf Ng; cbn [app starts_with streq].
  - reflexivity.
  - destruct (Z.eqb_spec 32 y) as [<-|]; [elim Ng; now left|reflexivity].
  - destruct (Z.eqb_spec x 32) as [->|]; [elim Nf; now left|reflexivity].
  - rewrite IH by (intros I; (apply Nf + apply Ng); now right). apply andb_assoc.
Qed.

Lemma starts_field_end f g n : ~ In 32 f -> ~ In 32 g -> starts_with (f ++ 32 :: n) (g ++ [10]) = false.
Proof.
  revert g. induction f as [|x f IH]; intros [|y g] Nf Ng; cbn [app starts_with]; try reflexivity.
  - destruct (Z.eqb_spec 32 y) as [<-|]; [elim Ng; now left|reflexivity].
  - destruct f; now destruct (x =? 10).
  - rewrite IH by (intros I; (apply Nf + apply Ng); now right). apply andb_false_r.
Qed.

Lemma strstr_skip f n s : ~ In 32 f -> strstr (f ++ s) (32 :: n) = strstr s (32 :: n).
Proof.
  induction f as [|x f IH]; intros N; [reflexivity|]. cbn [app strstr starts_with].
  destruct (Z.eqb_spec 32 x) as [<-|]; [elim N; now left|]. apply IH. intros I. apply N. now right.
Qed.

Definition DASH : list Z := [45].
Definition CG : list Z := Eval vm_compute in chars "cgroup2".

(** The fields - and cgroup2, with another one behind them. *)
Fixpoint has_type (fields : list (list Z)) : bool :=
  match fields with
  | [] => false
  | a :: rest => match rest with b :: _ :: _ => (streq DASH a && streq CG b) || has_type rest | _ => false end
  end.

Lemma strstr_spaced : forall fields, Forall field_ok fields -> strstr (spaced fields ++ [10]) CGROUP2 = has_type fields.
Proof.
  change CGROUP2 with (32 :: DASH ++ 32 :: CG ++ 32 :: []). assert (Nd : ~ In 32 DASH) by (intros [E|[]]; discriminate E).
  assert (Nc : ~ In 32 CG) by (intros I; cbn in I; intuition discriminate).
  induction fields as [|a fields IH]; intros F; [reflexivity|]. inversion F as [|? ? Fa Fs]; subst. specialize (IH Fs).
  pose proof (field_no a 32 Fa eq_refl) as Na. change (spaced (a :: fields)) with (32 :: a ++ spaced fields).
  cbn [app]. rewrite <- app_assoc. cbn [strstr]. rewrite strstr_skip by exact Na. rewrite IH. clear IH. cbn [starts_with]. rewrite Z.eqb_refl. cbn [andb].
  destruct fields as [|b fields]; [rewrite starts_field_end by assumption; reflexivity|].
  change (spaced (b :: fields) ++ [10]) with (32 :: (b ++ spaced fields) ++ [10]). rewrite starts_field by assumption. rewrite <- app_assoc.
  inversion Fs as [|? ? Fb Fs']; subst. pose proof (field_no b 32 Fb eq_refl) as Nb. destruct fields as [|c fields].
  - cbn [spaced map concat app]. rewrite starts_field_end by assumption. now rewrite andb_false_r.
  - change (spaced (c :: fields) ++ [10]) with (32 :: (c ++ spaced fields) ++ [10]). rewrite starts_field by assumption.
    rewrite starts_with_nil, andb_true_r. reflexivity.
Qed.

(** ** A table of mounts *)

(** Mount id, parent, device and root; the mount point; its options and
    optional fields; the type; the source and the options of the type. *)
Record mount : Set := mkMount {
  mn_head : list (list Z);
  mn_point : list Z;
  mn_options : list (list Z);
  mn_type : list Z;
  mn_tail : list (list Z)
}.

Definition mount_fields (m : mount) : list (list Z) :=
  mn_head m ++ mn_point m :: mn_options m ++ DASH :: mn_type m :: mn_tail m.

Definition mount_line (m : mount) : list Z := line_of (mount_fields m).

Definition mountinfo (l : list mount) : list Z := concat (map mount_line l).

(** What the kernel writes: four fields in front of the mount point, [-] only
    as the separator, something behind the type; and the buffers are enough. *)
Record mount_ok (m : mount) : Prop := {
  mo_head : length (mn_head m) = 4%nat;
  mo_fields : Forall field_ok (mount_fields m);
  mo_dash : Forall (fun f => f <> DASH) (mn_head m ++ mn_point m :: mn_options m ++ mn_type m :: mn_tail m);
  mo_tail : mn_tail m <> [];
  mo_point : (length (mn_point m) <= 511)%nat;
  mo_line : (length (mount_line m) <= LINE_ROOM)%nat
}.

Lemma has_type_no_dash fields : Forall (fun f => f <> DASH) fields -> has_type fields = false.
Proof.
  intros F. induction F as [|a fields Ha F IH]; [reflexivity|]. destruct fields as [|b [|c fields]]; [reflexivity..|].
  cbn [has_type] in *. rewrite IH, orb_false_r. destruct (streq DASH a) eqn:E; [|reflexivity]. apply streq_spec in E. congruence.
Qed.

Lemma has_type_pre pre fields : Forall (fun f => f <> DASH) pre -> has_type (pre ++ fields) = has_type fields.
Proof.
  intros F. induction F as [|a pre Ha F IH]; [reflexivity|]. rewrite <- IH. cbn [app]. destruct (pre ++ fields) as [|b [|c l]]; [reflexivity..|].
  cbn [has_type]. destruct (streq DASH a) eqn:E; [apply streq_spec in E; congruence|reflexivity].
Qed.

(** The line has the separator with the type cgroup2 when that is its type. *)
Lemma line_type m : mount_ok m -> strstr (mount_line m) CGROUP2 = streq CG (mn_type m).
Proof.
  intros [H F D T _ _]. unfold mount_line, line_of. unfold mount_fields in *. destruct (mn_head m) as [|f head]; [discriminate H|].
  cbn [app] in *. inversion F as [|? ? Ff Fs]; subst. inversion D as [|? ? _ Ds]; subst.
  change CGROUP2 with (32 :: tl CGROUP2). rewrite strstr_skip by (now apply field_no). change (32 :: tl CGROUP2) with CGROUP2. rewrite strstr_spaced by exact Fs.
  replace (head ++ mn_point m :: mn_options m ++ DASH :: mn_type m :: mn_tail m)
    with ((head ++ mn_point m :: mn_options m) ++ DASH :: mn_type m :: mn_tail m) by (now rewrite <- app_assoc).
  replace (head ++ mn_point m :: mn_options m ++ mn_type m :: mn_tail m)
    with ((head ++ mn_point m :: mn_options m) ++ mn_type m :: mn_tail m) in Ds by (now rewrite <- app_assoc).
  apply Forall_app in Ds as [Dp Dt]. rewrite has_type_pre by exact Dp. destruct (mn_tail m) as [|t tail]; [congruence|].
  change (has_type (DASH :: mn_type m :: t :: tail)) with ((streq DASH DASH && streq CG (mn_type m)) || has_type (mn_type m :: t :: tail)).
  now rewrite (has_type_no_dash _ Dt), orb_false_r.
Qed.

Lemma scan_mount_line m : mount_ok m -> scan_mount (mount_line m) = Some (mn_point m).
Proof.
  intros [H F _ _ P _]. unfold mount_line, line_of, mount_fields in *.
  destruct (mn_head m) as [|a head]; [discriminate H|]. cbn [app] in *. inversion F as [|? ? Fa Fs]; subst. unfold scan_mount. cbn [length] in H.
  set (rest := head ++ mn_point m :: mn_options m ++ DASH :: mn_type m :: mn_tail m) in *.
  rewrite skip_words_S, (proj1 (scan_field_at a _ (length (a ++ spaced rest ++ [10])) Fa (ends_spaced rest) ltac:(rewrite length_app; lia))).
  assert (L : (3 <= length rest)%nat) by (subst rest; rewrite length_app; cbn [length]; lia).
  rewrite (skip_spaced 3 rest Fs L). subst rest. replace (skipn 3 (head ++ _)) with (mn_point m :: mn_options m ++ DASH :: mn_type m :: mn_tail m).
  - apply Forall_app in Fs as [_ Fp]. inversion Fp as [|? ? Fm _]; subst. now rewrite scan_spaced.
  - rewrite skipn_app, skipn_all2 by lia. now replace (3 - length head)%nat with 0%nat by lia.
Qed.

Lemma fgets_mounts l : Forall mount_ok l -> fgets_all LINE_ROOM [] (mountinfo l) = map mount_line l.
Proof.
  intros F. induction F as [|m l M F IH]; [reflexivity|]. unfold mountinfo in *. cbn [map concat].
  assert (E : exists body, mount_line m = body ++ [10] /\ ~ In 10 body).
  { unfold mount_line, line_of. destruct (mount_fields m) as [|f fs] eqn:E; [now exists []|]. exists (f ++ spaced fs). split; [apply app_assoc|].
    pose proof (mo_fields m M) as Fm. rewrite E in Fm. inversion Fm as [|? ? Ff Fs]; subst. intros I. apply in_app_iff in I as [I|I].
    - exact (field_no f 10 Ff eq_refl I).
    - clear - Fs I. induction Fs as [|g fs Fg _ IH]; [destruct I|]. cbn in I. destruct I as [I|I]; [discriminate I|].
      apply in_app_iff in I as [I|I]; [exact (field_no g 10 Fg eq_refl I)|auto]. }
  destruct E as (body & E & N). pose proof (mo_line m M) as L. rewrite E in L |- *. rewrite length_app in L. cbn [length] in L.
  rewrite <- app_assoc. cbn [app]. rewrite fgets_line by (assumption || lia). now rewrite IH.
Qed.

(** The directory that [open_cgroup_root] opens for a SOCKET or FLOW
    handle: the mount point of the first mount of type cgroup2, as
    [mountinfo] writes it, and -EOPNOTSUPP when there is none, whatever the
    other mounts are called. *)
Theorem cgroup_root_found open_dir l : Forall mount_ok l ->
  open_cgroup_root open_dir (Some (mountinfo l)) =
  match find (fun m => streq CG (mn_type m)) l with
  | Some m => open_dir (mn_point m)
  | None => inl EOPNOTSUPP
  end.
Proof.
  intros F. unfold open_cgroup_root. rewrite (fgets_mounts l F). induction F as [|m l M F IH]; [reflexivity|]. cbn [map find_cgroup find].
  rewrite (line_type m M). destruct (streq CG (mn_type m)) eqn:E; cbn [negb]; [|exact IH].
  rewrite (scan_mount_line m M). rewrite snprintf_fits by (unfold zlen; pose proof (mo_point m M); lia).
  pose proof (mo_fields m M) as Fm. unfold mount_fields in Fm. apply Forall_app in Fm as [_ Fm]. inversion Fm as [|? ? [N _] _]; subst.
  destruct (mn_point m); [congruence|reflexivity].
Qed.

Definition mount_of (head : string) (point : string) (options : string) (type : string) (tail : string) : mount :=
  mkMount (strtok [32] (chars head)) (chars point) (strtok [32] (chars options)) (chars type) (strtok [32] (chars tail)).

Definition ex_mounts : list mount := Eval vm_compute in
  [mount_of "22 27 0:21 /" "/sys" "rw,nosuid shared:7" "sysfs" "sysfs rw";
   mount_of "30 22 0:26 /" "/sys/fs/cgroup" "rw,nosuid shared:4" "cgroup2" "cgroup2 rw,nsdelegate";
   mount_of "31 22 0:27 /" "/mnt/cgroup2" "rw" "tmpfs" "cgroup2 rw"].

Lemma cgroup_root_found_witness : open_cgroup_root (fun path => inr (zlen path)) (Some (mountinfo ex_mounts)) = inr 14.
Proof.
  rewrite (cgroup_root_found (fun path => inr (zlen path)) ex_mounts); [reflexivity|].
  assert (D : forall f g : list Z, streq f g = false -> f <> g) by (intros f g E <-; now rewrite streq_refl in E).
  repeat apply Forall_cons; try apply Forall_nil;
    (split; [reflexivity|repeat constructor; discriminate|repeat constructor; apply D; reflexivity|discriminate|apply Nat.leb_le; reflexivity..]).
Defined.

(** ** Sysctls *)

Lemma read_sysctl_decimal v : 0 <= v < 2 ^ 31 -> read_sysctl_int (Some (decimal v ++ [10])) = Some v.
Proof.
  intros H. pose proof (decimal_length 9 v ltac:(change (10 ^ Z.of_nat 10) with 10000000000; lia) ltac:(lia)) as L. unfold zlen in L.
  unfold read_sysctl_int. destruct (decimal v ++ [10]) as [|c s] eqn:E; [now destruct (decimal v)|]. rewrite <- E.
  rewrite firstn_all2 by (rewrite length_app; cbn [length]; lia). now apply atoi_decimal.
Qed.

(** The handle checks for forwarded packets when either sysctl is set. *)
Theorem forwarding_reads v4 v6 : 0 <= v4 < 2 ^ 31 -> 0 <= v6 < 2 ^ 31 ->
  forwarding (Some (decimal v4 ++ [10])) (Some (decimal v6 ++ [10])) = Some (negb (v4 =? 0) || negb (v6 =? 0)).
Proof.
  intros H4 H6. unfold forwarding. rewrite (read_sysctl_decimal v4 H4), (read_sysctl_decimal v6 H6). now destruct (v4 =? 0).
Qed.

(** ** What the search does not look at *)

(** The comment of [open_cgroup_root] says that it opens the root of the
    hierarchy.  A directory of it that is bind mounted in front is taken
    instead: the fourth field is not read. *)
Example cgroup_bind_mount : open_cgroup_root (fun path => inr (zlen path)) (Some (mountinfo
  [mount_of "29 1 0:26 /user.slice" "/run/u" "rw" "cgroup2" "cgroup2 rw"; mount_of "30 22 0:26 /" "/sys/fs/cgroup" "rw" "cgroup2" "cgroup2 rw"]))
  = inr (zlen (chars "/run/u")).
Proof. reflexivity. Qed.

(** A blank in the mount point is written as [\040] and passed to [open] as
    these four characters. *)
Example cgroup_escaped_blank : find_cgroup (fgets_all LINE_ROOM [] (mountinfo [mount_of "30 22 0:26 /" "/my\040cgroup" "rw" "cgroup2" "cgroup2 rw"]))
  = chars "/my\040cgroup".
Proof. reflexivity. Qed.
