(* ===== verification/HdAlive.v ===== *)
(** * The heartbeat thread and the entry points of a handle

    [heartbeat_main] of [src/handle.c] with the two clocks it uses, as a
    transition system: the thread sleeps until a deadline of the wall clock,
    is woken by [heartbeat_add], and rewrites the configuration of every open
    handle.  The programs in the kernel compare the time in it with the
    monotonic clock and pass everything when it is too old; the theorems say
    when that cannot happen.  The file also has the functions around a
    handle that the others do not have: [ebpfdivert_open_ex],
    [ebpfdivert_unregister], [ebpfdivert_get_event_fd] and the guarded entry
    points. *)

From Stdlib Require Import ZArith List Bool Lia ZifyBool.
From S2P Require Import Prelude WdTypes WdExec WdLex WdCompile BpfMatch BpfTc PfEvents BpfEvents HdEvents HdOpen.
Import ListNotations.

(** ** The heartbeat thread *)

Definition HEARTBEAT_PERIOD_MS : Z := 500.

Record timespec : Set := mkTs { tv_sec : Z; tv_nsec : Z }.

Definition ts_ns (ts : timespec) : Z := tv_sec ts * 1000000000 + tv_nsec ts.

(** [clock_gettime] of a clock that shows [ns]. *)
Definition clock_gettime (ns : Z) : timespec := mkTs (ns / 1000000000) (ns mod 1000000000).

(** When [pthread_cond_timedwait] returns at the latest. *)
Definition next_deadline (ts : timespec) : timespec :=
  let n := tv_nsec ts + HEARTBEAT_PERIOD_MS * 1000000 in
  if n >=? 1000000000 then mkTs (tv_sec ts + 1) (n - 1000000000) else mkTs (tv_sec ts) n.

(** [hb_list], [hb_running] and what the thread waits for: nothing in
    [pthread_cond_wait], else a deadline of the wall clock.  A REFLECT handle
    has no configuration in the kernel and is no entry here.  [hb_signal] is
    when the condition was first signalled since.  The wall clock shows
    [hb_now + hb_wall]. *)
Record hb_state : Set := mkHb {
  hb_now : Z;
  hb_wall : Z;
  hb_list : list hb_entry;
  hb_running : bool;
  hb_wait : option timespec;
  hb_signal : option Z
}.

(** The loop body, from the moment the thread holds the lock until it waits
    again at [t]; [times] are the readings of the clock by [write_config],
    whose updates of the map succeed. *)
Definition hb_round (times : Z -> Z) (t : Z) (s : hb_state) : hb_state :=
  match hb_list s with
  | [] => mkHb t (hb_wall s) [] (hb_running s) None None
  | l => mkHb t (hb_wall s) (heartbeat_round times l) (hb_running s) (Some (next_deadline (clock_gettime (t + hb_wall s)))) None
  end.

(** [created]: [pthread_create] succeeds. *)
Definition hb_add (created : bool) (h : hb_entry) (s : hb_state) : hb_state :=
  mkHb (hb_now s) (hb_wall s) (heartbeat_add (hb_list s) h) (hb_running s || created) (hb_wait s)
    (Some (match hb_signal s with Some w => w | None => hb_now s end)).

Definition hb_remove (id : Z) (s : hb_state) : hb_state :=
  mkHb (hb_now s) (hb_wall s) (heartbeat_remove (hb_list s) id) (hb_running s) (hb_wait s) (hb_signal s).

(** [heartbeat_after_fork], in the child. *)
Definition heartbeat_after_fork (s : hb_state) : hb_state := mkHb (hb_now s) (hb_wall s) [] false None None.

(** The thread may still be asleep at [t]: it gets the processor [slack]
    after its deadline or after a signal. *)
Definition may_sleep (slack t : Z) (s : hb_state) : Prop :=
  (forall d, hb_wait s = Some d -> t + hb_wall s <= ts_ns d + slack) /\
  (forall w, hb_signal s = Some w -> t <= w + slack).

(** When an entry was written. *)
Definition entry_beat (h : hb_entry) : Z :=
  if is_event_layer (snd (fst h)) then evc_heartbeat_ns (hc_evcfg (snd h)) else heartbeat_ns (hc_cfg (snd h)).

Definition entry_timeout (h : hb_entry) : Z :=
  if is_event_layer (snd (fst h)) then evc_heartbeat_timeout_ns (hc_evcfg (snd h)) else heartbeat_timeout_ns (hc_cfg (snd h)).

(** The process and its machine: [slack] as above, a round takes at most
    [busy], and an open reaches [heartbeat_add] at most [age] after it wrote
    the configuration. *)
Record timing : Set := mkTiming { slack : Z; busy : Z; age : Z }.

Inductive hb_step (p : timing) : hb_state -> hb_state -> Prop :=
| HbTick s t : hb_now s <= t -> (hb_running s = true -> may_sleep (slack p) t s) ->
    hb_step p s (mkHb t (hb_wall s) (hb_list s) (hb_running s) (hb_wait s) (hb_signal s))
| HbRound s times t : hb_running s = true -> hb_now s <= t <= hb_now s + busy p -> (forall id, hb_now s <= times id <= t) ->
    t < 2 ^ 64 -> hb_step p s (hb_round times t s)
| HbAdd s h : 0 <= entry_beat h -> hb_now s - age p <= entry_beat h <= hb_now s -> entry_timeout h = HEARTBEAT_TIMEOUT_NS ->
    hb_step p s (hb_add true h s)
| HbRemove s id : hb_step p s (hb_remove id s).

Inductive hb_reachable (p : timing) (wall : Z) : hb_state -> Prop :=
| HbStart t : 0 <= t -> hb_reachable p wall (mkHb t wall [] false None None)
| HbNext s s' : hb_reachable p wall s -> hb_step p s s' -> hb_reachable p wall s'.

(** The scheduler does its part. *)
Definition timely (p : timing) : Prop :=
  0 <= slack p /\ 0 <= busy p /\ 0 <= age p /\
  HEARTBEAT_PERIOD_MS * 1000000 + slack p + 2 * busy p <= HEARTBEAT_TIMEOUT_NS /\ age p + slack p + busy p <= HEARTBEAT_TIMEOUT_NS.

Lemma next_deadline_ok ns : let d := next_deadline (clock_gettime ns) in
  0 <= tv_nsec d < 1000000000 /\ ts_ns d = ns + HEARTBEAT_PERIOD_MS * 1000000.
Proof.
  unfold next_deadline, clock_gettime, ts_ns, HEARTBEAT_PERIOD_MS. cbn [tv_sec tv_nsec]. case_if; cbn [tv_sec tv_nsec]; Z.to_euclidean_division_equations; lia.
Qed.

(** Young enough at [t]. *)
Definition fresh_until (t : Z) (h : hb_entry) : Prop :=
  0 <= entry_beat h /\ t <= entry_beat h + HEARTBEAT_TIMEOUT_NS /\ entry_timeout h = HEARTBEAT_TIMEOUT_NS.

(** Every configuration is young enough until the thread has run again. *)
Record hb_ok (p : timing) (wall : Z) (s : hb_state) : Prop := {
  ok_wall : hb_wall s = wall;
  ok_now : 0 <= hb_now s;
  ok_past : Forall (fun h => entry_beat h <= hb_now s) (hb_list s);
  ok_idle : hb_running s = false -> hb_list s = [] /\ hb_wait s = None /\ hb_signal s = None;
  ok_signal : forall w, hb_signal s = Some w -> w <= hb_now s;
  ok_fresh : forall t, may_sleep (slack p) t s -> Forall (fresh_until (t + busy p)) (hb_list s);
  ok_asleep : may_sleep (slack p) (hb_now s) s
}.

Lemma round_entries times l lo hi : 0 <= lo -> hi < 2 ^ 64 -> (forall id, lo <= times id <= hi) ->
  Forall (fun h => lo <= entry_beat h <= hi /\ entry_timeout h = HEARTBEAT_TIMEOUT_NS) (heartbeat_round times l).
Proof.
  intros Hl Hh Ht. unfold heartbeat_round. apply Forall_map, Forall_forall. intros [[id layer] c] _. cbn [fst snd]. specialize (Ht id).
  unfold entry_beat, entry_timeout, write_config. cbn [fst snd]. destruct (is_event_layer layer); cbn; unfold u64; rewrite Z.mod_small by lia; auto.
Qed.

Lemma remove_forall (P : hb_entry -> Prop) l id : Forall P l -> Forall P (heartbeat_remove l id).
Proof. intros F. induction F as [|h l H F IH]; cbn; [constructor|]. case_if; [exact F|now constructor]. Qed.

Lemma round_ok p wall s times t : timely p -> hb_ok p wall s -> hb_running s = true -> hb_now s <= t <= hb_now s + busy p ->
  (forall id, hb_now s <= times id <= t) -> t < 2 ^ 64 -> hb_ok p wall (hb_round times t s).
Proof.
  intros (S1 & S2 & S3 & S4 & S5) [W N _ _ _ _ _] R T Ti B. unfold hb_round. destruct (hb_list s) as [|h l] eqn:E.
  - split; cbn; auto; try lia; try congruence. now split.
  - destruct (next_deadline_ok (t + hb_wall s)) as [_ D]. pose proof (round_entries times (h :: l) (hb_now s) t N B Ti) as F.
    split; cbn [hb_wall hb_now hb_list hb_running hb_wait hb_signal]; auto; try lia.
    + eapply Forall_impl; [|exact F]. cbv beta. lia.
    + discriminate.
    + intros t' [M _]. specialize (M _ eq_refl). cbn [hb_wall] in M. eapply Forall_impl; [|exact F]. unfold fresh_until. cbv beta. lia.
    + split; cbn; [|discriminate]. intros d [= <-]. unfold HEARTBEAT_PERIOD_MS in D. lia.
Qed.

Lemma add_ok p wall s h : timely p -> hb_ok p wall s -> 0 <= entry_beat h -> hb_now s - age p <= entry_beat h <= hb_now s ->
  entry_timeout h = HEARTBEAT_TIMEOUT_NS -> hb_ok p wall (hb_add true h s).
Proof.
  intros (S1 & S2 & S3 & S4 & S5) [W N Pa _ Sg F [A1 A2]] B0 B T. split; cbn [hb_add hb_wall hb_now hb_list hb_running hb_wait hb_signal]; auto.
  - constructor; [lia|exact Pa].
  - rewrite orb_true_r. discriminate.
  - intros w [= <-]. destruct (hb_signal s) as [w|]; [now apply Sg|lia].
  - intros t [M1 M2]. cbn in M1, M2. specialize (M2 _ eq_refl). constructor.
    + unfold fresh_until. destruct (hb_signal s) as [w|] eqn:E; [specialize (Sg w eq_refl)|]; lia.
    + apply F. split; [exact M1|]. intros w Ew. now rewrite Ew in M2.
  - split; cbn; [exact A1|]. intros w [= <-]. destruct (hb_signal s) as [w|]; [now apply A2|lia].
Qed.

Lemma step_keeps p wall s s' : timely p -> hb_ok p wall s -> hb_step p s s' -> hb_ok p wall s'.
Proof.
  intros Tm K S. destruct S as [s t T M|s times t R T Ti B|s h B0 B To|s id].
  - destruct K as [W N Pa I Sg F A]. assert (M' : may_sleep (slack p) t s).
    { destruct (hb_running s); [now apply M|]. destruct (I eq_refl) as (_ & E1 & E2). split; [rewrite E1|rewrite E2]; discriminate. }
    split; cbn; auto; try lia; [eapply Forall_impl; [|exact Pa]; cbv beta; lia|]. intros w E. specialize (Sg w E). lia.
  - now apply (round_ok p wall s times t).
  - now apply add_ok.
  - destruct K as [W N Pa I Sg F A]. split; cbn [hb_remove hb_wall hb_now hb_list hb_running hb_wait hb_signal]; auto using remove_forall.
    intros R. destruct (I R) as (-> & E1 & E2). auto.
Qed.

Lemma hb_invariant p wall s : timely p -> hb_reachable p wall s -> hb_ok p wall s.
Proof.
  intros Tm R. induction R as [t T|s s' _ IH St]; [|now apply (step_keeps p wall s)]. split; cbn; auto; try constructor; cbn; congruence.
Qed.

(** The check of the programs in the kernel, on the configuration of an entry. *)
Definition beats (k : kernel) (ek : ev_kernel) (h : hb_entry) : Prop :=
  if is_event_layer (snd (fst h)) then
    has (evc_flags (hc_evcfg (snd h))) EVCFG_F_SHUTDOWN = false -> live_config ek (hc_evcfg (snd h)) = true
  else owner_gone k (hc_cfg (snd h)) = false.

(** C28. A process that is alive is not taken for dead: as long as the
    scheduler runs the heartbeat thread in time and nobody sets the wall
    clock, the owner of an open handle counts as alive for the TC programs
    and the event programs, also while a round is under way. *)
Theorem heartbeat_keeps_alive p wall s t k ek h : timely p -> hb_reachable p wall s ->
  hb_now s <= t <= hb_now s + busy p -> t < 2 ^ 64 -> ktime_check k = t -> ek_ktime_check ek = t -> In h (hb_list s) -> beats k ek h.
Proof.
  intros Tm R T B K1 K2 I. destruct (hb_invariant p wall s Tm R) as [_ N Pa _ _ F A].
  specialize (F _ A). rewrite Forall_forall in F, Pa. specialize (F h I) as (F0 & F1 & F2). specialize (Pa h I). cbv beta in Pa.
  unfold beats, entry_beat, entry_timeout, live_config, owner_gone in *. destruct (is_event_layer _).
  - intros ->. rewrite K2, F2. unfold u64, HEARTBEAT_TIMEOUT_NS in *. rewrite Z.mod_small by lia. now destruct (_ >? _) eqn:G; [lia|].
  - rewrite K1, F2. unfold u64, HEARTBEAT_TIMEOUT_NS in *. rewrite Z.mod_small by lia. lia.
Qed.

(** ** The entry points of a handle *)

(** [GUARDED(h, expr)] in a thread: while [expr] runs, other threads enter,
    leave and close. *)
Definition GUARDED {S} (thread : Z) (expr : life * S -> Z * (life * S)) (s : life * S) : Z * (life * S) :=
  let '(r, l) := handle_enter (fst s) thread in
  if r =? 0 then
    let '(r, (l, x)) := expr (l, snd s) in
    (r, (handle_leave l thread, x))
  else (r, (l, snd s)).

(** [ebpfdivert_recv], [ebpfdivert_recv_ex], [ebpfdivert_send],
    [ebpfdivert_send_ex], [ebpfdivert_set_param], [ebpfdivert_get_param] and
    [ebpfdivert_get_handle_stats], each with its [_impl]; [None] is NULL. *)
Definition entry_point {S} (thread : Z) (impl : life * S -> Z * (life * S)) (h : option (life * S)) : Z * option (life * S) :=
  match h with
  | None => (- EINVAL, None)
  | Some s => let '(r, s) := GUARDED thread impl s in (r, Some s)
  end.

Definition ebpfdivert_get_event_fd (epfd : option Z) : Z := match epfd with Some fd => fd | None => - EINVAL end.

(** [r] is what [ebpfdivert_open] gives, the handle or [- errno]. *)
Definition ebpfdivert_open_ex {A} (out : bool) (r : Z + A) : Z * option A :=
  if negb out then (- EINVAL, None)
  else
    match r with
    | inr h => (0, Some h)
    | inl err => let errno := - err in (if negb (errno =? 0) then - errno else - EIO, None)
    end.

(** The registry, when it exists, without the entries of dead processes. *)
Definition unregister (alive : Z -> Z -> bool) (reg : option registry) : Z * option registry * list reg_attach :=
  match reg with
  | None => (0, None, [])
  | Some reg => let '(reg, detached) := registry_reap alive reg in (0, Some reg, detached)
  end.

(** What other threads do during a call of [thread]. *)
Definition others_run {S} (thread : Z) (expr : life * S -> Z * (life * S)) : Prop :=
  forall l x, life_reachable l -> In thread (calls l) ->
  let l' := fst (snd (expr (l, x))) in life_reachable l' /\ In thread (calls l').

(** Every call is inside the handle's life: the body starts and ends on a
    handle that is not freed, however many closers and other calls run
    meanwhile; once a close has begun the body does not run, and the call
    gives -EBADF. *)
Theorem guarded_call {S} thread (expr : life * S -> Z * (life * S)) l x :
  life_reachable l -> freed l = false -> others_run thread expr ->
  let l1 := snd (handle_enter l thread) in
  if closing l then GUARDED thread expr (l, x) = (- EBADF, (l, x))
  else freed l1 = false /\ freed (fst (snd (expr (l1, x)))) = false /\
    fst (GUARDED thread expr (l, x)) = fst (expr (l1, x)) /\
    life_reachable (fst (snd (GUARDED thread expr (l, x)))).
Proof.
  intros R F O. cbv zeta. unfold GUARDED. cbn [fst snd]. destruct (closing l) eqn:C; [unfold handle_enter; now rewrite C|].
  pose proof (life_next _ _ R (life_enter l thread F)) as R1. unfold handle_enter in *. rewrite C in *. cbn [fst snd] in *.
  set (l1 := mkLife _ _ _ _ _) in *. assert (I1 : In thread (calls l1)) by (now left).
  destruct (O l1 x R1 I1) as [R2 I2]. change (0 =? 0) with true. cbn [snd]. destruct (expr (l1, x)) as [r [l2 x2]]. cbn [fst snd] in *.
  split; [exact F|]. split; [|split; [reflexivity|exact (life_next _ _ R2 (life_leave l2 thread I2))]].
  destruct (freed l2) eqn:E; [|reflexivity]. destruct (life_invariant l2 R2) as [_ K]. destruct (K E) as [_ K']. rewrite K' in I2. destruct I2.
Qed.

(** ** Errors of the open *)

Ltac case_match_in H := match type of H with context [match ?x with _ => _ end] => destruct x end.

Lemma open_network_error env h prio ring_bytes ifnames err att m :
  open_network env h prio ring_bytes ifnames = inl (err, att, m) -> err <> 0.
Proof.
  unfold open_network. case_if; [intros [= <- _ _]; now b2p|]. destruct (load_rules _ _ _ _ _ _) as [[e ex] maps].
  case_if; [intros [= <- _ _]; now b2p|]. case_if; [intros [= <- _ _]; now b2p|]. destruct (choose_tc_prio _ _ _) as [p lm].
  case_if; [intros [= <- _ _]; now b2p|]. case_if; [intros E; repeat case_match_in E; discriminate E|].
  destruct (attach_interfaces _ _ _ _ _) as [[e' a'] sk]. case_if; [intros [= <- _ _]; now b2p|]. case_if; [intros [= <- _ _]; now b2p|].
  intros E. repeat case_match_in E; discriminate E.
Qed.

Lemma open_events_error env h ring_bytes err : open_events env h ring_bytes = inl err -> err <> 0.
Proof.
  unfold open_events. destruct (block_rules h) as [e|block] eqn:B.
  - intros [= <-]. unfold block_rules in B. case_if_in B; [|discriminate]. case_if_in B; [injection B as <-; discriminate|].
    destruct (pf_lower_events _ _) as [rules exact]. destruct exact; [discriminate|injection B as <-; discriminate].
  - repeat (case_if; [intros [= <-]; now b2p|]). destruct (attach_progs _ _ _) as [e links]. case_if; [intros [= <-]; now b2p|discriminate].
Qed.

(** The value of [errno] after a failed open is never 0, so
    [ebpfdivert_open_ex] gives the error of the open and never -EIO, and 0
    exactly with a handle. *)
Theorem open_ex_reports env lo fds filter layer prio flags ring_bytes ifnames r :
  ebpfdivert_open env lo fds filter layer prio flags ring_bytes ifnames = Some r ->
  ebpfdivert_open_ex true r = match r with inl err => (err, None) | inr h => (0, Some h) end /\
  match r with inl err => err <> 0 | inr _ => True end.
Proof.
  intros H. assert (N : match r with inl err => err <> 0 | inr _ => True end).
  { destruct r as [err|h]; [|exact I]. unfold ebpfdivert_open in H. case_if_in H; [injection H as <-; discriminate|].
    case_if_in H; [injection H as <-; now b2p|]. destruct (wd_filter_compile _ _) as [[[e pos]|f]|] eqn:C; [|..|discriminate].
    - injection H as <-. unfold wd_filter_compile in C. destruct (WinDivertCompileFilter _ _); try discriminate. injection C as <- _. now destruct (GET_CODE _).
    - destruct (layer_of layer).
      + destruct (open_network _ _ _ _ _) as [[[e a] m]|o] eqn:E; [|discriminate]. injection H as <-. now apply open_network_error in E.
      + destruct (open_network _ _ _ _ _) as [[[e a] m]|o] eqn:E; [|discriminate]. injection H as <-. now apply open_network_error in E.
      + destruct (open_events _ _ _) as [e|o] eqn:E; [|discriminate]. injection H as <-. now apply open_events_error in E.
      + destruct (open_events _ _ _) as [e|o] eqn:E; [|discriminate]. injection H as <-. now apply open_events_error in E.
      + unfold open_reflect in H. case_if_in H; [|discriminate]. injection H as <-. now b2p. }
  split; [|exact N]. destruct r as [err|h]; [|reflexivity]. unfold ebpfdivert_open_ex. cbn [negb]. case_if; b2p; f_equal; lia.
Qed.

Lemma filter_twice {A} (f : A -> bool) l : filter f (filter f l) = filter f l.
Proof. induction l as [|x l IH]; [reflexivity|]. cbn. destruct (f x) eqn:E; [cbn; now rewrite E, IH|exact IH]. Qed.

Lemma NoDup_filter_keys {A B} (f : A * B -> bool) l : NoDup (map fst l) -> NoDup (map fst (filter f l)).
Proof.
  induction l as [|x l IH]; [auto|]. cbn. intros N. apply NoDup_cons_iff in N as [Nx N]. destruct (f x); [|auto]. cbn. constructor; [|auto].
  intros I. apply Nx. apply in_map_iff in I as (y & <- & Hy). apply filter_In in Hy as [Hy _]. now apply in_map.
Qed.

(** Unregistering twice is unregistering once, while the same processes live. *)
Theorem unregister_idempotent alive reg : NoDup (map fst reg) -> (length reg <= REGISTRY_MAX)%nat ->
  let reg' := snd (fst (unregister alive (Some reg))) in snd (fst (unregister alive reg')) = reg'.
Proof.
  intros N L. cbv zeta. assert (E : forall r, snd (fst (unregister alive (Some r))) = Some (fst (registry_reap alive r)))
    by (intros r; unfold unregister; now destruct (registry_reap alive r)).
  rewrite E, E. f_equal. pose proof (reap_dead alive reg N L) as D. rewrite D. rewrite reap_dead.
  - apply filter_twice.
  - now apply NoDup_filter_keys.
  - pose proof (filter_length_le (fun x : Z * reg_entry => alive (re_pid (snd x)) (re_pid_start (snd x))) reg). lia.
Qed.

(** ** Examples *)

Module ExAlive.

(** A machine on which the thread runs within a second and a round takes a
    tenth of one; a network handle opened at 1 s. *)
Definition machine : timing := mkTiming 1000000000 100000000 1000000000.
Definition second : Z := 1000000000.
Definition opened_at (t : Z) : hb_entry := (7, LAYER_NETWORK, write_config LAYER_NETWORK t zero_cfg).
Definition start : hb_state := mkHb second (100 * second) [] false None None.
Definition added : hb_state := hb_add true (opened_at second) start.
Definition beaten : hb_state := hb_round (fun _ => second) second added.
Definition later : hb_state := mkHb (2 * second) (hb_wall beaten) (hb_list beaten) (hb_running beaten) (hb_wait beaten) (hb_signal beaten).

Definition kernel_at (t : Z) : kernel :=
  mkKernel t t (fun _ => None) (fun _ => 0) (fun _ => true) (fun _ => true) (fun _ _ => 0) (mkLpm (fun _ _ => None) (fun _ _ => None)).
Definition ev_kernel_at (t : Z) : ev_kernel := mkEvKernel t t true 0 (fun x => x) (fun _ => true) true (fun k l => k :: l).

Lemma later_reachable : hb_reachable machine (100 * second) later.
Proof.
  apply (HbNext _ _ beaten). 2: { apply (HbTick machine beaten (2 * second)); [cbn; unfold second; lia|]. intros _. split; [|discriminate].
    intros d [= <-]. vm_compute. discriminate. }
  apply (HbNext _ _ added). 2: { apply HbRound; cbn; unfold second; lia. }
  apply (HbNext _ _ start); [apply HbStart; unfold second; lia|]. apply HbAdd; vm_compute; try reflexivity; try split; discriminate.
Qed.

End ExAlive.

Lemma heartbeat_keeps_alive_witness : owner_gone (ExAlive.kernel_at (2 * ExAlive.second)) (hc_cfg (snd (ExAlive.opened_at ExAlive.second))) = false.
Proof.
  apply (heartbeat_keeps_alive ExAlive.machine (100 * ExAlive.second) ExAlive.later (2 * ExAlive.second) (ExAlive.kernel_at (2 * ExAlive.second))
    (ExAlive.ev_kernel_at (2 * ExAlive.second)) (ExAlive.opened_at ExAlive.second)).
  - vm_compute. repeat split; discriminate.
  - exact ExAlive.later_reachable.
  - cbn. unfold ExAlive.second. lia.
  - unfold ExAlive.second. lia.
  - reflexivity.
  - reflexivity.
  - left. reflexivity.
Defined.

(** The deadline belongs to the wall clock, the age to the monotonic one.
    When the wall clock is set back by 10 s, the thread may sleep that much
    longer: after 4 s the owner counts as gone, although it lives. *)
Example clock_set_back :
  let s := ExAlive.beaten in
  let s := mkHb (hb_now s) (hb_wall s - 10 * ExAlive.second) (hb_list s) (hb_running s) (hb_wait s) (hb_signal s) in
  let t := hb_now s + 4 * ExAlive.second in
  may_sleep 0 t s /\ Forall (fun h => owner_gone (ExAlive.kernel_at t) (hc_cfg (snd h)) = true) (hb_list s).
Proof.
  cbv zeta. split.
  - split; [|discriminate]. intros d [= <-]. vm_compute. discriminate.
  - repeat constructor.
Qed.

(** [heartbeat_add] does not report that the thread could not be created:
    the handle is open, and after 3 s it captures nothing. *)
Example no_heartbeat_thread :
  let s := hb_add false (ExAlive.opened_at ExAlive.second) ExAlive.start in
  let t := hb_now s + 4 * ExAlive.second in
  let s' := mkHb t (hb_wall s) (hb_list s) (hb_running s) (hb_wait s) (hb_signal s) in
  hb_step ExAlive.machine s s' /\ Forall (fun h => owner_gone (ExAlive.kernel_at t) (hc_cfg (snd h)) = true) (hb_list s').
Proof.
  cbv zeta. split.
  - apply HbTick; [cbn; unfold ExAlive.second; lia|discriminate].
  - repeat constructor.
Qed.
