(* ===== verification/HdResources.v ===== *)
(** * The resources of a handle

    Which memory, descriptors, BPF objects, links and TC filters the
    functions of [src/handle.c] acquire and release: [ebpfdivert_open] with
    [open_network], [open_events] and [open_reflect], [free_handle],
    [ebpfdivert_close], and the functions of an open handle that keep
    something ([packet_sock], [raw_sock], [udp_track], the queue).

    The functions are written over a ledger of the live resources.  What a
    call answers is a parameter, so every combination of failures is covered,
    also of the two releases that the system can refuse: [bpf_tc_detach] of a
    TC filter and [bpf_map_delete_elem] of the registry's entry.  Releasing
    something that is not live has no result.  What the code
    computes besides is modelled in [HdOpen], [HdSend], [HdEvents] and
    [HdQueue]; here a call that neither acquires nor releases only succeeds
    or fails.  The clsact qdisc that [bpf_tc_hook_create] may create and the
    pinned registry map belong to the system and stay. *)

From Stdlib Require Import ZArith List Bool Lia ZifyBool Permutation.
From S2P Require Import Prelude WdTypes WdExec WdCompile HdOpen.
Import ListNotations.

(** ** The ledger *)

Inductive kind : Set := Memory | Descriptor | Object | Ring | Link | Filter | Entry.

(** What the system can refuse to remove. *)
Definition removable (k : kind) : bool := match k with Filter | Entry => true | _ => false end.

(** A resource has a number of its own. *)
Definition cell : Set := nat * kind.

Definition kind_eq_dec (a b : kind) : {a = b} + {a <> b}.
Proof. decide equality. Defined.

Definition cell_eq_dec (a b : cell) : {a = b} + {a <> b}.
Proof. decide equality; [apply kind_eq_dec|apply Nat.eq_dec]. Defined.

(** The resources alive; those the system refused to release, which stay
    without an owner; the next number, and how many calls were made. *)
Record world : Set := mkWorld { w_live : list cell; w_stuck : list cell; w_next : nat; w_calls : nat }.

Definition M (A : Type) : Type := world -> option (A * world).

Definition ret {A} (a : A) : M A := fun w => Some (a, w).
Definition bind {A B} (m : M A) (k : A -> M B) : M B :=
  fun w => match m w with None => None | Some (a, w) => k a w end.

Notation "'do' x <- m ; k" := (bind m (fun x => k)) (at level 10, x name, m at level 100, k at level 200) : divert_scope.
Notation "m ;; k" := (bind m (fun _ => k)) (at level 199, right associativity) : divert_scope.

Fixpoint remove_cell (c : cell) (l : list cell) : option (list cell) :=
  match l with
  | [] => None
  | x :: l => if cell_eq_dec c x then Some l else option_map (cons x) (remove_cell c l)
  end.

Definition release (c : cell) : M unit := fun w =>
  match remove_cell c (w_live w) with None => None | Some l => Some (tt, mkWorld l (w_stuck w) (w_next w) (w_calls w)) end.

Fixpoint release_all (l : list cell) : M unit :=
  match l with [] => ret tt | c :: l => release c;; release_all l end.

(** ** A handle *)

(** The fields of [struct ebpfdivert_handle] that hold resources, and [reg_id]. *)
Inductive slot : Set :=
| h_self | h_att | h_att_filters | h_links | h_rb | h_obj | h_socks_fds | h_socks | h_raw4 | h_raw6 | h_udp
| h_seen_filters | h_seen | h_timer_fd | h_epfd | h_wake_fd | h_queue | h_filter | h_reg_id.

Definition slots : list slot :=
  [h_self; h_att; h_att_filters; h_links; h_rb; h_obj; h_socks_fds; h_socks; h_raw4; h_raw6; h_udp;
   h_seen_filters; h_seen; h_timer_fd; h_epfd; h_wake_fd; h_queue; h_filter; h_reg_id].

Definition slot_eq_dec (a b : slot) : {a = b} + {a <> b}.
Proof. decide equality. Defined.

Record handle : Set := mkRes { hs : slot -> list cell; marks : list Z }.

Definition assign (h : handle) (s : slot) (l : list cell) : handle :=
  mkRes (fun x => if slot_eq_dec s x then l else hs h x) (marks h).

(** What the handle owns. *)
Definition owned (h : handle) : list cell := concat (map (hs h) slots).

Section Calls.

(** What the [n]-th call answers, and what [bpf_tc_detach] of a filter or
    [bpf_map_delete_elem] of an entry answers: 0, or an error. *)
Variable answer : nat -> Z.
Variable removal : cell -> Z.

Definition call : M Z := fun w => Some (answer (w_calls w), mkWorld (w_live w) (w_stuck w) (w_next w) (S (w_calls w))).

(** [bpf_tc_detach] and [bpf_map_delete_elem].  The answer is not looked at:
    a resource that could not be removed is forgotten. *)
Definition try_release (c : cell) : M unit := fun w =>
  match remove_cell c (w_live w) with
  | None => None
  | Some l =>
    let stays := removable (snd c) && negb (removal c =? 0) in
    Some (tt, mkWorld l (if stays then c :: w_stuck w else w_stuck w) (w_next w) (w_calls w))
  end.

Fixpoint try_release_all (l : list cell) : M unit :=
  match l with [] => ret tt | c :: l => try_release c;; try_release_all l end.

(** [inl] is the error. *)
Definition acquire (k : kind) : M (Z + cell) := fun w =>
  let e := answer (w_calls w) in
  if e =? 0 then Some (inr (w_next w, k), mkWorld ((w_next w, k) :: w_live w) (w_stuck w) (S (w_next w)) (S (w_calls w)))
  else Some (inl e, mkWorld (w_live w) (w_stuck w) (w_next w) (S (w_calls w))).

(** A descriptor or NULL, whatever the error. *)
Definition acquire_opt (k : kind) : M (option cell) :=
  do r <- acquire k; ret (match r with inl _ => None | inr c => Some c end).

Definition release_opt (o : option cell) : M unit := match o with None => ret tt | Some c => release c end.

(** ** Registry *)

(** [open], then [flock]. *)
Definition registry_lock : M (option cell) :=
  do fd <- acquire_opt Descriptor;
  match fd with
  | None => ret None
  | Some fd =>
    do e <- call;
    if negb (e =? 0) then release fd;; ret None else ret (Some fd)
  end.

Definition registry_unlock (fd : option cell) : M unit := release_opt fd.

(** [bpf_obj_get]; else [bpf_map_create] and [bpf_obj_pin]. *)
Definition registry_open : M (option cell) :=
  do fd <- acquire_opt Descriptor;
  match fd with
  | Some fd => ret (Some fd)
  | None =>
    do fd <- acquire_opt Descriptor;
    match fd with
    | None => ret None
    | Some fd =>
      do e <- call;
      if negb (e =? 0) then release fd;; acquire_opt Descriptor else ret (Some fd)
    end
  end.

(** [fgets] fails or not. *)
Definition proc_start_time : M unit :=
  do f <- acquire_opt Descriptor;
  match f with None => ret tt | Some f => do line <- call; release f end.

(** [kill] finds no such process, or the start time decides. *)
Definition proc_alive : M unit :=
  do e <- call;
  if negb (e =? 0) then ret tt else proc_start_time.

(** The keys of the registry, as many as the answer says. *)
Fixpoint reap_keys (n : nat) : M unit :=
  match n with
  | O => ret tt
  | S n =>
    do e <- call;
    (if negb (e =? 0) then ret tt else proc_alive);;
    reap_keys n
  end.

Definition registry_reap : M unit :=
  do e <- acquire_opt Memory;
  match e with None => ret tt | Some e => do n <- call; reap_keys (Z.to_nat n);; release e end.

Definition registry_max_tc_prio : M unit :=
  do e <- acquire_opt Memory;
  match e with None => ret tt | Some e => release e end.

(** [auto]: the priority is 0. *)
Definition choose_tc_prio (auto : bool) (reg_fd : option cell) : M unit :=
  match reg_fd with Some _ => if auto then registry_max_tc_prio else ret tt | None => ret tt end.

(** The id is drawn and the entry inserted, or neither. *)
Definition registry_add (h : handle) (reg_fd : option cell) : M handle :=
  match reg_fd with
  | None => ret h
  | Some _ =>
    do e <- acquire_opt Memory;
    match e with
    | None => ret h
    | Some e =>
      proc_start_time;;
      do random <- call;
      if negb (random =? 0) then release e;; ret h
      else
        do id <- acquire_opt Entry;
        release e;;
        ret (match id with None => h | Some id => assign h h_reg_id [id] end)
    end
  end.

(** ** TC filters *)

Definition detach_all (h : handle) : M handle := try_release_all (hs h h_att_filters);; ret (assign h h_att_filters []).

(** The hook may exist already. *)
Definition attach_legacy : M (Z + cell) :=
  do e <- call;
  if negb (e =? 0) && negb (e =? - EEXIST) then ret (inl e) else acquire Filter.

Definition attach_one (h : handle) (ifindex : Z) (ingress : bool) : M (Z * handle) :=
  do prog <- call;
  if negb (prog =? 0) then ret (- ENOENT, h)
  else
    do f <- attach_legacy;
    match f with
    | inl e => ret (e, h)
    | inr f => ret (0, assign h h_att_filters (hs h h_att_filters ++ [f]))
    end.

(** The interfaces with whether they are selected; [named]: [ifnames] was
    given.  The value returned and the error after the loop. *)
Fixpoint attach_loop (h : handle) (lo : Z) (named : bool) (ifs : list (Z * bool)) (attached err : Z)
    : M (option Z * Z * Z * handle) :=
  match ifs with
  | [] => ret (None, attached, err, h)
  | (ifindex, sel) :: ifs =>
    if negb sel && negb (ifindex =? lo) then attach_loop h lo named ifs attached err
    else
      do r <- attach_one h ifindex true;
      do r <- (if fst r =? 0 then attach_one (snd r) ifindex false else ret r);
      if negb (fst r =? 0) then
        if sel && named then ret (Some (fst r), attached, fst r, snd r)
        else attach_loop (snd r) lo named ifs attached (fst r)
      else attach_loop (snd r) lo named ifs (if sel then attached + 1 else attached) (fst r)
  end.

(** [names_ok]: the names of [ifnames] exist. *)
Definition attach_interfaces (h : handle) (lo : Z) (named names_ok : bool) (ifs : list (Z * bool)) : M (Z * handle) :=
  do l <- acquire Memory;
  match l with
  | inl e => ret (e, h)
  | inr l =>
    do att <- acquire_opt Memory;
    match att with
    | None => release l;; ret (- ENOMEM, h)
    | Some att =>
      let h := assign h h_att [att] in
      if named && negb names_ok then release l;; ret (- ENODEV, h)
      else
        do r <- attach_loop h lo named ifs 0 0;
        let '(early, attached, err, h) := r in
        release l;;
        ret (match early with
             | Some e => e
             | None => if negb (attached =? 0) then 0 else if negb (err =? 0) then err else - ENODEV
             end, h)
    end
  end.

(** ** Open *)

(** [pf_lower] and [pf_lower_events]: the context of the walk. *)
Definition pf_lower : M Z :=
  do ctx <- acquire_opt Memory;
  match ctx with None => ret (- ENOMEM) | Some ctx => release ctx;; ret 0 end.

Definition load_rules : M Z :=
  do res <- acquire_opt Memory;
  match res with
  | None => ret (- ENOMEM)
  | Some res =>
    do maps <- call;
    if negb (maps =? 0) then release res;; ret (- ENOENT)
    else
      do e <- pf_lower;
      if negb (e =? 0) then release res;; ret e
      else do e <- call; release res;; ret e
  end.

(** The ring and its registration with [epfd]. *)
Definition open_ring (h : handle) : M (Z * handle) :=
  do rb <- acquire Ring;
  match rb with
  | inl e => ret (e, h)
  | inr rb => do e <- call; ret (e, assign h h_rb [rb])
  end.

(** Opening and loading the object and finding its maps. *)
Definition open_object (h : handle) : M (Z * handle) :=
  do obj <- acquire Object;
  match obj with
  | inl e => ret (e, h)
  | inr obj =>
    let h := assign h h_obj [obj] in
    do e <- call;
    if negb (e =? 0) then ret (e, h)
    else do maps <- call; ret (if negb (maps =? 0) then - ENOENT else 0, h)
  end.

Definition read_sysctl_int : M Z :=
  do fd <- acquire_opt Descriptor;
  match fd with None => ret 0 | Some fd => do v <- call; release fd;; ret v end.

Definition open_network (h : handle) (lo : Z) (auto send_only named names_ok : bool) (ifs : list (Z * bool)) : M (Z * handle) :=
  do r <- open_object h;
  if negb (fst r =? 0) then ret r
  else
    do e <- load_rules;
    if negb (e =? 0) then ret (e, snd r)
    else
      do v4 <- read_sysctl_int;
      (if negb (v4 =? 0) then ret v4 else read_sysctl_int);;
      do r <- (if send_only then ret (0, snd r) else open_ring (snd r));
      if negb (fst r =? 0) then ret r
      else
        let h := snd r in
        do lock_fd <- registry_lock;
        do reg_fd <- registry_open;
        (match reg_fd with None => ret tt | Some _ => registry_reap end);;
        choose_tc_prio auto reg_fd;;
        do e <- call;
        do r <- (if (e =? 0) && negb send_only then
                   do r <- attach_interfaces h lo named names_ok ifs;
                   if fst r =? 0 then do e <- call; ret (e, snd r) else ret r
                 else ret (e, h));
        do h <- (if fst r =? 0 then registry_add (snd r) reg_fd else ret (snd r));
        release_opt reg_fd;;
        registry_unlock lock_fd;;
        ret (fst r, h).

Definition attach_cgroup_prog (h : handle) : M (Z * handle) :=
  do prog <- call;
  if negb (prog =? 0) then ret (- ENOENT, h)
  else if Nat.eqb (length (hs h h_links)) EBD_MAX_LINKS then ret (- E2BIG, h)
  else
    do l <- acquire Link;
    match l with
    | inl e => ret (e, h)
    | inr l => ret (0, assign h h_links (hs h h_links ++ [l]))
    end.

(** Attaching stops at the first error. *)
Fixpoint attach_progs (h : handle) (progs : nat) : M (Z * handle) :=
  match progs with
  | O => ret (0, h)
  | S progs =>
    do r <- attach_cgroup_prog h;
    if negb (fst r =? 0) then ret r else attach_progs (snd r) progs
  end.

(** [mountinfo] is read and closed, the mount point is opened. *)
Definition open_cgroup_root (found : bool) : M (Z + cell) :=
  do f <- acquire_opt Descriptor;
  release_opt f;;
  if match f with None => false | Some _ => found end then acquire Descriptor else ret (inl (- EOPNOTSUPP)).

(** [block]: operations are refused; [exact]: so are the rules. *)
Definition open_events (h : handle) (block listen exact found : bool) (progs : nat) : M (Z * handle) :=
  do e <- (if block then if listen then ret (- EOPNOTSUPP) else do e <- pf_lower; ret (if e =? 0 then if exact then 0 else - EOPNOTSUPP else e)
           else ret 0);
  if negb (e =? 0) then ret (e, h)
  else
    do r <- open_object h;
    if negb (fst r =? 0) then ret r
    else
      do e <- call;
      if negb (e =? 0) then ret (e, snd r)
      else
        do r <- open_ring (snd r);
        if negb (fst r =? 0) then ret r
        else
          do cg <- open_cgroup_root found;
          match cg with
          | inl e => ret (e, snd r)
          | inr cg => do r <- attach_progs (snd r) progs; release cg;; ret r
          end.

Definition open_reflect (h : handle) : M (Z * handle) :=
  do fd <- acquire Descriptor;
  match fd with
  | inl e => ret (e, h)
  | inr fd => do e <- call; ret (e, assign h h_timer_fd [fd])
  end.

Definition register_handle (h : handle) : M handle :=
  do lock_fd <- registry_lock;
  do reg_fd <- registry_open;
  do h <- (match reg_fd with
           | None => ret h
           | Some fd => registry_reap;; do h <- registry_add h reg_fd; release fd;; ret h
           end);
  registry_unlock lock_fd;;
  ret h.

(** The filter and the pool of the compiler. *)
Definition wd_filter_compile : M (Z + cell) :=
  do f <- acquire_opt Memory;
  match f with
  | None => ret (inl (- ENOMEM))
  | Some f =>
    do pool <- acquire_opt Memory;
    match pool with
    | None => release f;; ret (inl (- ENOMEM))
    | Some pool =>
      do e <- call;
      release pool;;
      if negb (e =? 0) then release f;; ret (inl e) else ret (inr f)
    end
  end.

Definition free_handle (h : handle) : M unit :=
  do h <- detach_all h;
  release_all (hs h h_att);;
  release_all (hs h h_links);;
  let h := assign h h_links [] in
  release_all (hs h h_rb);;
  release_all (hs h h_obj);;
  release_all (hs h h_socks_fds);;
  release_all (hs h h_socks);;
  release_all (hs h h_raw4);;
  release_all (hs h h_raw6);;
  release_all (hs h h_links);;
  release_all (hs h h_udp);;
  release_all (hs h h_seen_filters);;
  release_all (hs h h_seen);;
  release_all (hs h h_timer_fd);;
  release_all (hs h h_epfd);;
  release_all (hs h h_wake_fd);;
  release_all (hs h h_queue);;
  release_all (hs h h_filter);;
  release_all (hs h h_self).

(** What the open does, by layer. *)
Inductive layer_open : Set :=
| Network (lo : Z) (auto send_only named names_ok : bool) (ifs : list (Z * bool))
| Events (block listen exact found : bool) (progs : nat)
| Reflect.

Definition open_layer (h : handle) (l : layer_open) : M (Z * handle) :=
  match l with
  | Network lo auto send_only named names_ok ifs => open_network h lo auto send_only named names_ok ifs
  | Events block listen exact found progs =>
    do r <- open_events h block listen exact found progs;
    if fst r =? 0 then do h <- register_handle (snd r); ret (0, h) else ret r
  | Reflect =>
    do r <- open_reflect h;
    if fst r =? 0 then do h <- register_handle (snd r); ret (0, h) else ret r
  end.

Definition fd_slot (r : Z + cell) : list cell := match r with inl _ => [] | inr c => [c] end.

(** [inl] is [errno], with NULL. *)
Definition ebpfdivert_open (args_ok : bool) (l : layer_open) : M (Z + handle) :=
  if negb args_ok then ret (inl EINVAL)
  else
    do self <- acquire_opt Memory;
    match self with
    | None => ret (inl ENOMEM)
    | Some self =>
      let h := assign (mkRes (fun _ => []) []) h_self [self] in
      let fail h err := free_handle h;; ret (inl (- err)) in
      do wake <- acquire Descriptor;
      do ep <- acquire Descriptor;
      let h := assign (assign h h_wake_fd (fd_slot wake)) h_epfd (fd_slot ep) in
      match ep, wake with
      | inl e, _ | _, inl e => fail h e
      | inr _, inr _ =>
        do e <- call;
        if negb (e =? 0) then fail h e
        else
          do f <- wd_filter_compile;
          match f with
          | inl e => fail h e
          | inr f =>
            do r <- open_layer (assign h h_filter [f]) l;
            if negb (fst r =? 0) then fail (snd r) (fst r) else ret (inr (snd r))
          end
      end
    end.

(** ** Using and closing *)

(** [packet_sock]: the socket of the mark, or a new one. *)
Definition packet_sock (h : handle) (mark : Z) (redirect : bool) : M (Z * handle) :=
  if existsb (Z.eqb mark) (marks h) then ret (0, h)
  else
    do fd <- acquire Descriptor;
    match fd with
    | inl e => ret (e, h)
    | inr fd =>
      do e <- call;
      if negb (e =? 0) then release fd;; ret (e, h)
      else
        do e <- (if redirect then call else ret 0);
        if negb (e =? 0) then release fd;; ret (e, h)
        else
          do ns <- acquire_opt Memory;
          match ns with
          | None => release fd;; ret (- ENOMEM, h)
          | Some ns =>
            release_all (hs h h_socks);;
            let h := assign (assign h h_socks [ns]) h_socks_fds (hs h h_socks_fds ++ [fd]) in
            ret (0, mkRes (hs h) (marks h ++ [mark]))
          end
    end.

Definition raw_sock (h : handle) (v6 : bool) : M (Z * handle) :=
  let s := if v6 then h_raw6 else h_raw4 in
  match hs h s with
  | _ :: _ => ret (0, h)
  | [] =>
    do fd <- acquire Descriptor;
    match fd with
    | inl e => ret (e, h)
    | inr fd =>
      do e <- call;
      if negb (e =? 0) then release fd;; ret (e, h) else ret (0, assign h s [fd])
    end
  end.

(** [if_indextoname], a socket, [ioctl]. *)
Definition query_mtu : M unit :=
  do e <- call;
  if negb (e =? 0) then ret tt
  else
    do fd <- acquire_opt Descriptor;
    match fd with None => ret tt | Some fd => do e <- call; release fd end.

Definition get_hwaddr : M unit := query_mtu.

(** [ask]: the packet is long and its MTU not in the cache. *)
Definition send_af_packet (h : handle) (mark : Z) (redirect ask : bool) : M (Z * handle) :=
  do frame <- acquire_opt Memory;
  match frame with
  | None => ret (- ENOMEM, h)
  | Some frame =>
    (if ask then query_mtu else ret tt);;
    do r <- packet_sock h mark redirect;
    if negb (fst r =? 0) then release frame;; ret r
    else do e <- call; release frame;; ret (e, snd r)
  end.

Definition send_raw_ip (h : handle) (v6 : bool) : M (Z * handle) :=
  do r <- raw_sock h v6;
  if negb (fst r =? 0) then ret r else do e <- call; ret (e, snd r).

(** The way [inject] takes: none, when the packet is not IP; [known]: the
    stash has the MAC header. *)
Inductive route : Set :=
| Refused
| RawIp (v6 : bool)
| Outbound (mark : Z) (ask : bool)
| Inbound (mark : Z) (known ask : bool).

Definition inject (h : handle) (way : route) : M (Z * handle) :=
  match way with
  | Refused => ret (- EINVAL, h)
  | _ =>
    do pkt <- acquire_opt Memory;
    match pkt with
    | None => ret (- ENOMEM, h)
    | Some pkt =>
      do r <- (match way with
               | Refused => ret (- EINVAL, h)
               | RawIp v6 => send_raw_ip h v6
               | Outbound mark ask => send_af_packet h mark false ask
               | Inbound mark known ask => (if known then ret tt else get_hwaddr);; send_af_packet h mark true ask
               end);
      release pkt;;
      ret r
    end
  end.

(** [full]: the limits of the queue are reached. *)
Definition queue_push (h : handle) (e : cell) (full : bool) : M handle :=
  if full then release e;; ret h else ret (assign h h_queue (hs h h_queue ++ [e])).

(** What becomes of a packet of the ring. *)
Inductive fate : Set := Reinject (way : route) | Discard | Enqueue (full : bool).

Definition ring_callback (h : handle) (v : fate) : M handle :=
  do e <- acquire_opt Memory;
  match e with
  | None => ret h
  | Some e =>
    match v with
    | Reinject way => do r <- inject h way; release e;; ret (snd r)
    | Discard => release e;; ret h
    | Enqueue full => queue_push h e full
    end
  end.

(** [deliver_event] and [deliver_reflect]. *)
Definition deliver_entry (h : handle) (matched full : bool) : M handle :=
  do e <- acquire_opt Memory;
  match e with
  | None => ret h
  | Some e => if negb matched then release e;; ret h else queue_push h e full
  end.

Definition udp_track (h : handle) : M handle :=
  match hs h h_udp with
  | _ :: _ => ret h
  | [] => do a <- acquire_opt Memory; ret (match a with None => h | Some a => assign h h_udp [a] end)
  end.

(** [udp_release] delivers an event for each flow that ends. *)
Fixpoint udp_release (h : handle) (ends : list (bool * bool)) : M handle :=
  match ends with
  | [] => ret h
  | (matched, full) :: ends => do h <- deliver_entry h matched full; udp_release h ends
  end.

Definition event_callback (h : handle) (ends : option (list (bool * bool))) (track matched full : bool) : M handle :=
  match ends with
  | Some ends => udp_release h ends
  | None =>
    do h <- (if track then udp_track h else ret h);
    deliver_entry h matched full
  end.

(** The entries that have expired go, then the one that a caller gets. *)
Fixpoint queue_pop (h : handle) (expired : nat) : M handle :=
  match hs h h_queue with
  | [] => ret h
  | e :: q =>
    release e;;
    match expired with O => ret (assign h h_queue q) | S expired => queue_pop (assign h h_queue q) expired end
  end.

(** A handle that [reflect_poll] sees for the first time: both arrays grow
    and the text of the filter is kept, if there is memory. *)
Definition see_handle (h : handle) (alive : cell) (matched full : bool) : M (handle * cell) :=
  do ns <- acquire_opt Memory;
  match ns with
  | None => ret (h, alive)
  | Some ns =>
    release_all (hs h h_seen);;
    let h := assign h h_seen [ns] in
    do na <- acquire_opt Memory;
    match na with
    | None => ret (h, alive)
    | Some na =>
      release alive;;
      do text <- acquire_opt Memory;
      do h <- deliver_entry (match text with None => h | Some t => assign h h_seen_filters (hs h h_seen_filters ++ [t]) end) matched full;
      ret (h, na)
    end
  end.

Fixpoint see_handles (h : handle) (alive : cell) (opened : list (bool * bool)) : M (handle * cell) :=
  match opened with
  | [] => ret (h, alive)
  | (matched, full) :: opened => do r <- see_handle h alive matched full; see_handles (fst r) (snd r) opened
  end.

(** The handle of the [i]-th text is gone, or one without a text. *)
Definition forget_handle (h : handle) (i : nat) (matched full : bool) : M handle :=
  do h <- deliver_entry h matched full;
  match nth_error (hs h h_seen_filters) i with
  | None => ret h
  | Some t =>
    release t;; ret (assign h h_seen_filters (firstn i (hs h h_seen_filters) ++ skipn (S i) (hs h h_seen_filters)))
  end.

Fixpoint forget_handles (h : handle) (gone : list (nat * bool * bool)) : M handle :=
  match gone with
  | [] => ret h
  | (i, matched, full) :: gone => do h <- forget_handle h i matched full; forget_handles h gone
  end.

(** When the timer is due. *)
Definition reflect_poll (h : handle) (opened : list (bool * bool)) (gone : list (nat * bool * bool)) : M handle :=
  do reg_fd <- acquire_opt Descriptor;
  match reg_fd with
  | None => ret h
  | Some reg_fd =>
    do e <- acquire_opt Memory;
    do alive <- acquire_opt Memory;
    match e, alive with
    | Some e, Some alive =>
      do r <- see_handles h alive opened;
      do h <- forget_handles (fst r) gone;
      release (snd r);; release e;; release reg_fd;;
      ret h
    | _, _ => release_opt e;; release_opt alive;; release reg_fd;; ret h
    end
  end.

Definition get_handle_stats : M Z :=
  do vals <- acquire_opt Memory;
  match vals with None => ret (- ENOMEM) | Some vals => do n <- call; release vals;; ret n end.

Definition ebpfdivert_unregister : M Z :=
  do lock_fd <- registry_lock;
  do reg_fd <- acquire_opt Descriptor;
  (match reg_fd with None => ret tt | Some fd => registry_reap;; release fd end);;
  registry_unlock lock_fd;;
  ret 0.

(** [ebpfdivert_close], once every call has left: the entry stays when the
    registry cannot be opened or refuses to delete it. *)
Definition ebpfdivert_close (h : handle) : M unit :=
  do h <- detach_all h;
  (match hs h h_reg_id with
   | [] => ret tt
   | id :: _ =>
     do lock_fd <- registry_lock;
     do reg_fd <- acquire_opt Descriptor;
     (match reg_fd with None => ret tt | Some fd => try_release id;; release fd end);;
     registry_unlock lock_fd
   end);;
  free_handle h.

(** What a program does with an open handle, and what its ring brings. *)
Inductive op : Set :=
| OpSend (way : route)
| OpPacket (v : fate)
| OpEvent (ends : option (list (bool * bool))) (track matched full : bool)
| OpPoll (opened : list (bool * bool)) (gone : list (nat * bool * bool))
| OpPop (expired : nat)
| OpStats
| OpUnregister.

Definition run_op (h : handle) (o : op) : M handle :=
  match o with
  | OpSend way => do r <- inject h way; ret (snd r)
  | OpPacket v => ring_callback h v
  | OpEvent ends track matched full => event_callback h ends track matched full
  | OpPoll opened gone => reflect_poll h opened gone
  | OpPop expired => queue_pop h expired
  | OpStats => do n <- get_handle_stats; ret h
  | OpUnregister => do e <- ebpfdivert_unregister; ret h
  end.

Fixpoint run_ops (h : handle) (l : list op) : M handle :=
  match l with [] => ret h | o :: l => do h <- run_op h o; run_ops h l end.

(** Open, use, close. *)
Definition lifetime (args_ok : bool) (l : layer_open) (ops : list op) : M (option Z) :=
  do r <- ebpfdivert_open args_ok l;
  match r with
  | inl e => ret (Some e)
  | inr h => do h <- run_ops h ops; ebpfdivert_close h;; ret None
  end.
End Calls.

(** ** Counting resources *)

Definition opt (o : option cell) : list cell := match o with None => [] | Some c => [c] end.

Definition count (x : cell) (l : list cell) : nat := count_occ cell_eq_dec l x.
Definition one (x c : cell) : nat := if cell_eq_dec c x then 1 else 0.

Lemma count_nil x : count x [] = 0%nat.
Proof. reflexivity. Qed.

Lemma count_cons x c l : count x (c :: l) = (one x c + count x l)%nat.
Proof. unfold count, one. cbn [count_occ]. destruct (cell_eq_dec c x); reflexivity. Qed.

Lemma count_app x a b : count x (a ++ b) = (count x a + count x b)%nat.
Proof. apply count_occ_app. Qed.

Lemma counted a b : (forall x, count x a = count x b) <-> Permutation a b.
Proof. symmetry. apply (Permutation_count_occ cell_eq_dec). Qed.

(** A field that is assigned: what it held before is no longer owned. *)
Lemma count_assign x h s l : (count x (owned (assign h s l)) + count x (hs h s) = count x l + count x (owned h))%nat.
Proof.
  unfold owned, slots. cbn [map concat]. destruct s; unfold assign; cbn [hs];
    repeat match goal with |- context [slot_eq_dec ?a ?b] => let E := fresh in destruct (slot_eq_dec a b) as [E|E]; [try discriminate E|try (elim E; reflexivity)] end;
    rewrite !count_app, ?count_nil; lia.
Qed.

Create Rewrite HintDb ledger.
#[export] Hint Rewrite count_app count_cons count_nil : ledger.

(** Permutations of resources, by counting. *)
Ltac count_facts x :=
  repeat match goal with H : Permutation _ _ |- _ => let K := fresh in pose proof (proj2 (counted _ _) H x) as K; clear H end;
  autorewrite with ledger in *;
  repeat match goal with
  | |- context [count x (owned (assign ?h ?s ?l))] =>
    lazymatch goal with _ : (count x (owned (assign h s l)) + _ = _)%nat |- _ => fail | _ => pose proof (count_assign x h s l) end
  | H : context [count x (owned (assign ?h ?s ?l))] |- _ =>
    lazymatch goal with _ : (count x (owned (assign h s l)) + _ = _)%nat |- _ => fail | _ => pose proof (count_assign x h s l) end
  end.

Ltac perm :=
  let x := fresh "x" in apply counted; intros x; count_facts x; cbn [opt assign hs slot_eq_dec slot_rec slot_rect] in *;
  autorewrite with ledger in *; lia.

Definition ledger_ok (w : world) : Prop :=
  NoDup (map fst (w_live w)) /\ Forall (fun c => (fst c < w_next w)%nat) (w_live w).

(** What the system refused to remove. *)
Definition refused (removal : cell -> Z) (c : cell) : Prop := removable (snd c) = true /\ removal c <> 0.

(** From [w] to [w'], only that is left without an owner. *)
Definition leaves (removal : cell -> Z) (w w' : world) : Prop :=
  exists t, w_stuck w' = t ++ w_stuck w /\ Forall (refused removal) t.

Lemma leaves_none removal w w' : w_stuck w' = w_stuck w -> leaves removal w w'.
Proof. intros E. exists []. auto. Qed.

Lemma leaves_trans removal w1 w2 w3 : leaves removal w1 w2 -> leaves removal w2 w3 -> leaves removal w1 w3.
Proof.
  intros (t & E & F) (u & E' & F'). exists (u ++ t). rewrite E', E, app_assoc. split; [reflexivity|]. apply Forall_app. auto.
Qed.

Section Rules.
Variable answer : nat -> Z.
Variable removal : cell -> Z.

(** ** Specifications

    With resources [P], [m] has a result, and leaves resources [F] with
    [Q]; the other resources stay.  Nothing is left without an owner but
    what the system refused to remove. *)

Definition spec {A} (P : list cell) (m : M A) (Q : A -> list cell -> Prop) : Prop :=
  forall w L, ledger_ok w -> Permutation (w_live w) (P ++ L) ->
  exists a w' F, m w = Some (a, w') /\ ledger_ok w' /\ Permutation (w_live w') (F ++ L) /\ leaves removal w w' /\ Q a F.

Lemma spec_ret {A} P (a : A) (Q : A -> list cell -> Prop) : Q a P -> spec P (ret a) Q.
Proof. intros H w L Ok Pm. exists a, w, P. auto 6 using leaves_none. Qed.

Lemma spec_bind {A B} P (m : M A) (k : A -> M B) Q R : spec P m Q -> (forall a F, Q a F -> spec F (k a) R) -> spec P (bind m k) R.
Proof.
  intros Hm Hk w L Ok Pm. destruct (Hm w L Ok Pm) as (a & w1 & F & E & Ok1 & P1 & V1 & q).
  destruct (Hk a F q w1 L Ok1 P1) as (b & w2 & G & E2 & Ok2 & P2 & V2 & H). exists b, w2, G. unfold bind. rewrite E.
  repeat (split; [assumption|]). split; [exact (leaves_trans _ _ _ _ V1 V2)|exact H].
Qed.

Lemma spec_impl {A} P (m : M A) (Q R : A -> list cell -> Prop) : (forall a F, Q a F -> R a F) -> spec P m Q -> spec P m R.
Proof. intros I H w L Ok Pm. destruct (H w L Ok Pm) as (a & w' & F & E & Ok' & Pm' & V & q). exists a, w', F. auto 6. Qed.

Lemma spec_perm {A} P P' (m : M A) Q : Permutation P P' -> spec P' m Q -> spec P m Q.
Proof. intros Pp H w L Ok Pm. apply (H w L Ok). rewrite Pm. now rewrite Pp. Qed.

(** The rest stays apart. *)
Lemma spec_frame {A} R P (m : M A) Q : spec P m Q -> spec (R ++ P) m (fun a F => exists F', Permutation F (R ++ F') /\ Q a F').
Proof.
  intros H w L Ok Pm. destruct (H w (R ++ L) Ok) as (a & w' & F & E & Ok' & Pm' & V & q).
  - rewrite Pm. rewrite !app_assoc. apply Permutation_app_tail, Permutation_app_comm.
  - exists a, w', (R ++ F). split; [exact E|]. split; [exact Ok'|]. split; [|eauto].
    rewrite Pm', !app_assoc. apply Permutation_app_tail, Permutation_app_comm.
Qed.

Lemma remove_cell_some c l : In c l -> exists l', remove_cell c l = Some l' /\ Permutation l (c :: l').
Proof.
  induction l as [|x l IH]; [now intros []|]. cbn [remove_cell]. intros H. destruct (cell_eq_dec c x) as [->|N]; [eauto|].
  destruct H as [H|H]; [congruence|]. destruct (IH H) as (l' & -> & P). exists (x :: l'). split; [reflexivity|]. rewrite P. apply perm_swap.
Qed.

Lemma ledger_perm w l stuck next calls : ledger_ok w -> Permutation (w_live w) l -> (w_next w <= next)%nat -> ledger_ok (mkWorld l stuck next calls).
Proof.
  intros [N F] P L. split; cbn [w_live w_next]; [now rewrite <- P|]. rewrite <- P. eapply Forall_impl; [|exact F]. cbn. intros. lia.
Qed.

Lemma ledger_less w c l stuck calls : ledger_ok w -> Permutation (w_live w) (c :: l) -> ledger_ok (mkWorld l stuck (w_next w) calls).
Proof.
  intros Ok Pl. assert (Ok' : ledger_ok (mkWorld (c :: l) stuck (w_next w) calls)) by (now apply (ledger_perm w)).
  destruct Ok' as [N F]. cbn [w_live w_next map] in *. split; [now inversion N|now inversion F].
Qed.

Lemma spec_release c P P' (Q : unit -> list cell -> Prop) : Permutation P (c :: P') -> Q tt P' -> spec P (release c) Q.
Proof.
  intros Pc q w L Ok Pm. assert (I : In c (w_live w)) by (rewrite Pm, Pc; now left). destruct (remove_cell_some c _ I) as (l' & E & Pl).
  exists tt, (mkWorld l' (w_stuck w) (w_next w) (w_calls w)), P'. unfold release. rewrite E. split; [reflexivity|].
  split; [now apply (ledger_less w c)|]. split; [|split; [now apply leaves_none|exact q]].
  cbn [w_live]. apply (Permutation_cons_inv (a := c)). rewrite <- Pl, Pm, Pc. reflexivity.
Qed.

Lemma spec_try_release c P P' (Q : unit -> list cell -> Prop) : Permutation P (c :: P') -> Q tt P' ->
  spec P (try_release removal c) Q.
Proof.
  intros Pc q w L Ok Pm. assert (I : In c (w_live w)) by (rewrite Pm, Pc; now left). destruct (remove_cell_some c _ I) as (l' & E & Pl).
  eexists tt, (mkWorld l' _ (w_next w) (w_calls w)), P'. unfold try_release. rewrite E. split; [reflexivity|].
  split; [now apply (ledger_less w c)|]. split; [|split; [|exact q]].
  - cbn [w_live]. apply (Permutation_cons_inv (a := c)). rewrite <- Pl, Pm, Pc. reflexivity.
  - destruct (removable (snd c)) eqn:Rc; [|now apply leaves_none].
    destruct (Z.eqb_spec (removal c) 0) as [Z0|Z0]; [now apply leaves_none|]. exists [c]. split; [reflexivity|]. now repeat constructor.
Qed.

Lemma spec_release_all l : forall P P' (Q : unit -> list cell -> Prop), Permutation P (l ++ P') -> Q tt P' -> spec P (release_all l) Q.
Proof.
  induction l as [|c l IH]; intros P P' Q Pm q; cbn [release_all].
  - apply (spec_perm _ P'); [exact Pm|]. now apply spec_ret.
  - eapply spec_bind; [apply (spec_release c P (l ++ P') (fun _ F => F = l ++ P')); [exact Pm|reflexivity]|]. intros [] F ->. now apply (IH _ P').
Qed.

Lemma spec_try_release_all l : forall P P' (Q : unit -> list cell -> Prop), Permutation P (l ++ P') -> Q tt P' ->
  spec P (try_release_all removal l) Q.
Proof.
  induction l as [|c l IH]; intros P P' Q Pm q; cbn [try_release_all].
  - apply (spec_perm _ P'); [exact Pm|]. now apply spec_ret.
  - eapply spec_bind; [apply (spec_try_release c P (l ++ P') (fun _ F => F = l ++ P')); [exact Pm|reflexivity]|]. intros [] F ->. now apply (IH _ P').
Qed.

Lemma spec_call P (Q : Z -> list cell -> Prop) : (forall e, Q e P) -> spec P (call answer) Q.
Proof. intros q w L Ok Pm. eexists _, _, P. split; [reflexivity|]. split; [now apply (ledger_perm w)|]. split; [exact Pm|]. split; [now apply leaves_none|apply q]. Qed.

(** Some call fails. *)
Definition call_fails : Prop := exists n, answer n <> 0.

Lemma spec_acquire P k (Q : Z + cell -> list cell -> Prop) : (forall e, e <> 0 -> call_fails -> Q (inl e) P) -> (forall i, Q (inr (i, k)) ((i, k) :: P)) ->
  spec P (acquire answer k) Q.
Proof.
  intros Qe Qc w L Ok Pm. unfold acquire. destruct (Z.eqb_spec (answer (w_calls w)) 0) as [E|E].
  - eexists _, _, _. split; [reflexivity|]. split; [|split; [|split; [now apply leaves_none|apply Qc]]].
    + destruct Ok as [N F]. split; cbn [w_live w_next map fst].
      * constructor; [|exact N]. intros I. apply in_map_iff in I. destruct I as (c & Ec & I). rewrite Forall_forall in F. specialize (F c I). lia.
      * constructor; [cbn; lia|]. eapply Forall_impl; [|exact F]. cbn. intros. lia.
    + cbn [w_live app]. now constructor.
  - eexists _, _, P. split; [reflexivity|]. split; [now apply (ledger_perm w)|]. split; [exact Pm|]. split; [now apply leaves_none|]. apply Qe; [exact E|now exists (w_calls w)].
Qed.

(** The rules in front of a continuation. *)
Lemma bind_assoc {A B C} P (m : M A) (k : A -> M B) (k' : B -> M C) R :
  spec P (bind m (fun a => bind (k a) k')) R -> spec P (bind (bind m k) k') R.
Proof. intros H w L Ok Pm. destruct (H w L Ok Pm) as (c & w' & F & E & X). exists c, w', F. split; [|exact X]. unfold bind in *. now destruct (m w) as [[a w1]|]. Qed.

Lemma bind_ret {A B} P (a : A) (k : A -> M B) R : spec P (k a) R -> spec P (bind (ret a) k) R.
Proof. intros H. exact H. Qed.

Lemma bind_call {B} P (k : Z -> M B) R : (forall e, spec P (k e) R) -> spec P (bind (call answer) k) R.
Proof. intros H. apply (spec_bind P _ k (fun _ F => F = P)); [now apply spec_call|]. intros e F ->. apply H. Qed.

Lemma bind_acquire {B} P kd (k : Z + cell -> M B) R : (forall e, e <> 0 -> spec P (k (inl e)) R) ->
  (forall i, spec ((i, kd) :: P) (k (inr (i, kd))) R) -> spec P (bind (acquire answer kd) k) R.
Proof.
  intros He Hc. apply (spec_bind P _ k (fun r F => match r with inl e => e <> 0 /\ F = P | inr c => exists i, c = (i, kd) /\ F = c :: P end)).
  - apply spec_acquire; [auto|]. intros i. eauto.
  - intros [e|c] F; [intros [N ->]; now apply He|intros (i & -> & ->); apply Hc].
Qed.

Lemma bind_acquire_or {B} P kd (k : option cell -> M B) R : (call_fails -> spec P (k None) R) -> (forall i, spec ((i, kd) :: P) (k (Some (i, kd))) R) ->
  spec P (bind (acquire_opt answer kd) k) R.
Proof.
  intros Hn Hs. apply bind_assoc.
  apply (spec_bind P _ _ (fun r F => match r with inl _ => call_fails /\ F = P | inr c => exists i, c = (i, kd) /\ F = c :: P end)).
  - apply spec_acquire; [auto|]. intros i. eauto.
  - intros [e|c] F; [intros [N ->]; apply bind_ret; auto|intros (i & -> & ->); apply bind_ret; apply Hs].
Qed.

Lemma bind_acquire_opt {B} P kd (k : option cell -> M B) R : spec P (k None) R -> (forall i, spec ((i, kd) :: P) (k (Some (i, kd))) R) ->
  spec P (bind (acquire_opt answer kd) k) R.
Proof. intros Hn Hs. apply bind_assoc, bind_acquire; intros; apply bind_ret; auto. Qed.

Lemma bind_release {B} c P P' (k : unit -> M B) R : Permutation P (c :: P') -> spec P' (k tt) R -> spec P (bind (release c) k) R.
Proof. intros Pm H. eapply spec_bind; [apply (spec_release c P P' (fun _ F => F = P')); auto|]. intros [] F ->. exact H. Qed.

Lemma bind_try_release_all {B} l P P' (k : unit -> M B) R : Permutation P (l ++ P') -> spec P' (k tt) R -> spec P (bind (try_release_all removal l) k) R.
Proof. intros Pm H. eapply spec_bind; [apply (spec_try_release_all l P P' (fun _ F => F = P')); auto|]. intros [] F ->. exact H. Qed.

Lemma bind_release_all {B} l P P' (k : unit -> M B) R : Permutation P (l ++ P') -> spec P' (k tt) R -> spec P (bind (release_all l) k) R.
Proof. intros Pm H. eapply spec_bind; [apply (spec_release_all l P P' (fun _ F => F = P')); auto|]. intros [] F ->. exact H. Qed.

Lemma bind_release_opt {B} o P P' (k : unit -> M B) R : Permutation P (opt o ++ P') -> spec P' (k tt) R -> spec P (bind (release_opt o) k) R.
Proof. destruct o as [c|]; intros Pm H; [now apply (bind_release c P P')|]. apply bind_ret. now apply (spec_perm _ P'). Qed.

(** ** The functions *)

(** From [h] to [h'] and [P] to [F]: nothing appears and nothing is lost. *)
Definition moves (h h' : handle) (P F : list cell) : Prop := Permutation (F ++ owned h) (owned h' ++ P).

(** Only the fields [l] change. *)
Definition only_in (l : list slot) (h h' : handle) : Prop := forall s, ~ In s l -> hs h' s = hs h s.

Definition grows (l : list slot) (h : handle) (P : list cell) (r : Z * handle) (F : list cell) : Prop :=
  moves h (snd r) P F /\ only_in l h (snd r).

Lemma registry_lock_spec P : spec P (registry_lock answer) (fun o F => Permutation F (opt o ++ P)).
Proof.
  unfold registry_lock. apply bind_acquire_opt; [now apply spec_ret|]. intros i. apply bind_call. intros e. case_if.
  - apply (bind_release _ _ P); [perm|]. now apply spec_ret.
  - now apply spec_ret.
Qed.

Lemma registry_open_spec P : spec P (registry_open answer) (fun o F => Permutation F (opt o ++ P)).
Proof.
  unfold registry_open. apply bind_acquire_opt; [|intros i; now apply spec_ret].
  apply bind_acquire_opt; [now apply spec_ret|]. intros i. apply bind_call. intros e. case_if; [|now apply spec_ret].
  apply (bind_release _ _ P); [perm|]. unfold acquire_opt. apply bind_acquire; intros; now apply spec_ret.
Qed.

(** What leaves the resources as they were. *)
Definition neutral {A} (m : M A) : Prop := forall P, spec P m (fun _ F => Permutation F P).

Lemma bind_neutral {A B} (m : M A) (k : A -> M B) P R : neutral m -> (forall a, spec P (k a) R) -> spec P (bind m k) R.
Proof. intros Hm Hk. eapply spec_bind; [apply Hm|]. intros a F HF. apply (spec_perm _ _ _ _ HF), Hk. Qed.

Lemma neutral_ret {A} (a : A) : neutral (ret a).
Proof. intros P. now apply spec_ret. Qed.

Lemma neutral_bind {A B} (m : M A) (k : A -> M B) : neutral m -> (forall a, neutral (k a)) -> neutral (bind m k).
Proof. intros Hm Hk P. now apply bind_neutral, (fun a => Hk a P). Qed.

Lemma neutral_call : neutral (call answer).
Proof. intros P. now apply spec_call. Qed.

Lemma neutral_if {A} (b : bool) (m n : M A) : neutral m -> neutral n -> neutral (if b then m else n).
Proof. now destruct b. Qed.

(** Something acquired, used and released on every path. *)
Definition frees {A} (c : cell) (m : M A) : Prop := forall P, spec (c :: P) m (fun _ F => Permutation F P).

Lemma frees_release c : frees c (release c).
Proof. intros P. now apply (spec_release _ _ P). Qed.

Lemma frees_ret {A} c (a : A) : frees c (release c;; ret a).
Proof. intros P. apply (bind_release _ _ P); [perm|]. now apply spec_ret. Qed.

Lemma frees_bind {A B} c (m : M A) (k : A -> M B) : neutral m -> (forall a, frees c (k a)) -> frees c (bind m k).
Proof. intros Hm Hk P. now apply bind_neutral, (fun a => Hk a P). Qed.

Lemma frees_if {A} c (b : bool) (m n : M A) : frees c m -> frees c n -> frees c (if b then m else n).
Proof. now destruct b. Qed.

Lemma neutral_scoped {B} kd (k : option cell -> M B) : neutral (k None) -> (forall i, frees (i, kd) (k (Some (i, kd)))) ->
  neutral (bind (acquire_opt answer kd) k).
Proof. intros Hn Hs P. apply bind_acquire_opt; [apply Hn|]. intros i. apply Hs. Qed.

Lemma neutral_match {A B} (o : option A) (m : M B) k : neutral m -> (forall a, neutral (k a)) -> neutral (match o with None => m | Some a => k a end).
Proof. now destruct o. Qed.

Create HintDb neutral.
#[local] Hint Resolve neutral_ret neutral_bind neutral_call neutral_if neutral_scoped neutral_match frees_release frees_ret frees_bind frees_if : neutral.

Lemma proc_start_time_spec : neutral (proc_start_time answer).
Proof. unfold proc_start_time. auto 10 with neutral. Qed.

Lemma proc_alive_spec : neutral (proc_alive answer).
Proof. unfold proc_alive. auto using proc_start_time_spec with neutral. Qed.

Lemma reap_keys_spec n : neutral (reap_keys answer n).
Proof. induction n; cbn [reap_keys]; auto 10 using proc_alive_spec with neutral. Qed.

Lemma registry_reap_spec : neutral (registry_reap answer).
Proof. unfold registry_reap. auto 10 using reap_keys_spec with neutral. Qed.

Lemma registry_max_tc_prio_spec : neutral (registry_max_tc_prio answer).
Proof. unfold registry_max_tc_prio. auto with neutral. Qed.

Lemma choose_tc_prio_spec auto reg_fd : neutral (choose_tc_prio answer auto reg_fd).
Proof. unfold choose_tc_prio. destruct reg_fd; auto using registry_max_tc_prio_spec with neutral. Qed.

Lemma pf_lower_spec : neutral (pf_lower answer).
Proof. unfold pf_lower. auto with neutral. Qed.

Lemma load_rules_spec : neutral (load_rules answer).
Proof. unfold load_rules. auto 10 using pf_lower_spec with neutral. Qed.

Lemma read_sysctl_int_spec : neutral (read_sysctl_int answer).
Proof. unfold read_sysctl_int. auto 10 with neutral. Qed.

(** A handle that did not change. *)
Lemma grows_none l h P e F : Permutation F P -> grows l h P (e, h) F.
Proof. intros H. split; [unfold moves; cbn [snd]; perm|intros s _; reflexivity]. Qed.

(** A field that was empty. *)
Lemma grows_assign l h P e s c : hs h s = [] -> In s l -> grows l h P (e, assign h s [c]) (c :: P).
Proof.
  intros E I. split; cbn [snd].
  - unfold moves. apply counted. intros x. pose proof (count_assign x h s [c]) as H. rewrite E in H. rewrite !count_app, !count_cons, ?count_nil in *. lia.
  - intros s' N. unfold assign. cbn [hs]. destruct (slot_eq_dec s s') as [->|]; [contradiction|reflexivity].
Qed.

(** A list that grows. *)
Lemma grows_snoc l h P e s c : In s l -> grows l h P (e, assign h s (hs h s ++ [c])) (c :: P).
Proof.
  intros I. split; cbn [snd].
  - unfold moves. apply counted. intros x. pose proof (count_assign x h s (hs h s ++ [c])) as H. rewrite !count_app, !count_cons, ?count_nil in *. lia.
  - intros s' N. unfold assign. cbn [hs]. destruct (slot_eq_dec s s') as [->|]; [contradiction|reflexivity].
Qed.

Lemma grows_trans l h P r F r' G : grows l h P r F -> grows l (snd r) F r' G -> grows l h P r' G.
Proof. intros [A B] [C D]. split; [unfold moves in *; perm|]. intros s N. now rewrite D, B. Qed.

Lemma grows_incl l l' h P r F : incl l l' -> grows l h P r F -> grows l' h P r F.
Proof. intros I [A B]. split; [exact A|]. intros s N. apply B. intros H. now apply N, I. Qed.

(** A step of the open, with the fields it may set. *)
Definition step_ok (l : list slot) (h : handle) (m : M (Z * handle)) : Prop := forall P, spec P m (grows l h P).

Lemma step_ret l h e : step_ok l h (ret (e, h)).
Proof. intros P. apply spec_ret, grows_none. reflexivity. Qed.

Lemma step_incl l l' h m : incl l l' -> step_ok l h m -> step_ok l' h m.
Proof. intros I H P. eapply spec_impl; [|apply H]. intros r F. now apply grows_incl. Qed.

(** One step after the other. *)
Lemma step_bind l h m k : step_ok l h m -> (forall r P F, grows l h P r F -> step_ok l (snd r) (k r)) -> step_ok l h (bind m k).
Proof.
  intros Hm Hk P. eapply spec_bind; [apply Hm|]. intros r F A. eapply spec_impl; [|apply (Hk r P F A)].
  intros r' G B. exact (grows_trans _ _ _ _ _ _ _ A B).
Qed.

Lemma step_same {A} l h (m : M A) k : neutral m -> (forall a, step_ok l h (k a)) -> step_ok l h (bind m k).
Proof. intros Hm Hk P. now apply bind_neutral, (fun a => Hk a P). Qed.

Lemma open_object_ok h : hs h h_obj = [] -> step_ok [h_obj] h (open_object answer h).
Proof.
  intros E P. unfold open_object. apply bind_acquire; [intros e _; now apply spec_ret, grows_none|]. intros i. apply bind_call. intros e.
  case_if; [|apply bind_call; intros e']; apply spec_ret; apply grows_assign; auto; now left.
Qed.

Lemma open_ring_ok h : hs h h_rb = [] -> step_ok [h_rb] h (open_ring answer h).
Proof.
  intros E P. unfold open_ring. apply bind_acquire; [intros e _; now apply spec_ret, grows_none|]. intros i. apply bind_call. intros e.
  apply spec_ret, grows_assign; auto. now left.
Qed.

Lemma attach_one_ok h ifindex ingress : step_ok [h_att_filters] h (attach_one answer h ifindex ingress).
Proof.
  intros P. unfold attach_one, attach_legacy. apply bind_call. intros e. case_if; [now apply spec_ret, grows_none|].
  apply bind_assoc, bind_call. intros e'. case_if; [now apply bind_ret, spec_ret, grows_none|].
  apply bind_acquire; [intros e2 _; now apply spec_ret, grows_none|]. intros i. apply spec_ret, grows_snoc. now left.
Qed.

Lemma attach_loop_ok lo named ifs : forall h attached err P,
  spec P (attach_loop answer h lo named ifs attached err) (fun r F => grows [h_att_filters] h P (0, snd r) F).
Proof.
  induction ifs as [|[ifindex sel] ifs IH]; intros h attached err P; cbn [attach_loop]; [now apply spec_ret, grows_none|].
  case_if; [apply IH|]. eapply spec_bind; [apply (attach_one_ok h ifindex true)|]. intros r F A.
  eapply (spec_bind F _ _ (fun r' G => grows [h_att_filters] h P r' G)).
  - case_if; [|now apply spec_ret]. eapply spec_impl; [|apply (attach_one_ok (snd r) ifindex false)].
    intros r' G B. exact (grows_trans _ _ _ _ _ _ _ A B).
  - intros r' G B. case_if; [case_if; [apply spec_ret; exact B|]|]; (eapply spec_impl; [|apply IH]);
      intros r2 G2 C; exact (grows_trans _ _ _ _ _ _ _ B C).
Qed.

Lemma attach_interfaces_ok h lo named names_ok ifs : hs h h_att = [] ->
  step_ok [h_att; h_att_filters] h (attach_interfaces answer h lo named names_ok ifs).
Proof.
  intros E P. unfold attach_interfaces. apply bind_acquire; [intros e _; now apply spec_ret, grows_none|]. intros i.
  apply bind_acquire_opt; [apply (bind_release _ _ P); [perm|]; now apply spec_ret, grows_none|]. intros j.
  pose proof (grows_assign [h_att; h_att_filters] h P 0 h_att (j, Memory) E (or_introl eq_refl)) as A. case_if.
  - apply (bind_release _ _ ((j, Memory) :: P)); [perm|]. now apply spec_ret.
  - apply (spec_perm _ (((i, Memory) :: (j, Memory) :: P) ++ [])); [perm|].
    eapply spec_bind; [apply spec_frame, attach_loop_ok|]. intros [[[early attached] err] h'] F (F' & HF & [B C]). cbn [snd] in *.
    apply (spec_perm _ _ _ _ HF). apply (bind_release _ _ ((j, Memory) :: P ++ F')); [perm|]. apply spec_ret.
    apply (grows_trans _ _ _ _ _ _ _ A). split; cbn [snd]; [unfold moves in *; perm|]. intros s N. apply C. intros I. apply N. now right.
Qed.

(** At most one entry of the registry. *)
Definition one_entry (h : handle) : Prop := hs h h_reg_id = [] \/ exists i, hs h h_reg_id = [(i, Entry)].

Definition grows_entry (h : handle) (P : list cell) (h' : handle) (F : list cell) : Prop := grows [h_reg_id] h P (0, h') F /\ one_entry h'.

Lemma registry_add_ok h reg_fd P : hs h h_reg_id = [] -> spec P (registry_add answer h reg_fd) (grows_entry h P).
Proof.
  intros E. assert (N : grows_entry h P h P) by (split; [now apply grows_none|now left]). unfold registry_add.
  destruct reg_fd; [|now apply spec_ret]. apply bind_acquire_opt; [now apply spec_ret|]. intros i.
  apply (bind_neutral _ _ _ _ proc_start_time_spec). intros _. apply bind_call. intros e. case_if.
  - apply (bind_release _ _ P); [perm|]. now apply spec_ret.
  - apply bind_acquire_opt; [apply (bind_release _ _ P); [perm|]; now apply spec_ret|]. intros j.
    apply (bind_release _ _ ((j, Entry) :: P)); [perm|]. apply spec_ret. split; [apply grows_assign; [exact E|now left]|right; now exists j].
Qed.

(** A part of the open, with the entry when it succeeds. *)
Definition opens (h : handle) (P : list cell) (r : Z * handle) (F : list cell) : Prop :=
  moves h (snd r) P F /\ one_entry (snd r) /\ (fst r <> 0 -> hs (snd r) h_reg_id = []).

(** The part of [open_network] under the registry lock. *)
Lemma locked_ok l h m (lock_fd reg_fd : option cell) P : ~ In h_reg_id l -> hs h h_reg_id = [] -> step_ok l h m ->
  spec (opt lock_fd ++ opt reg_fd ++ P) (do r <- m;
    do h <- (if fst r =? 0 then registry_add answer (snd r) reg_fd else ret (snd r));
    release_opt reg_fd;; registry_unlock lock_fd;; ret (fst r, h)) (opens h P).
Proof.
  intros N E Hm. set (R := opt lock_fd ++ opt reg_fd ++ P). apply (spec_perm _ (R ++ [])); [now rewrite app_nil_r|].
  eapply spec_bind; [apply spec_frame, Hm|]. intros [e h'] F (F' & HF & [A B]). cbn [fst snd] in *. apply (spec_perm _ _ _ _ HF).
  assert (E' : hs h' h_reg_id = []) by (rewrite B; assumption).
  eapply (spec_bind _ _ _ (fun h2 G => exists G', Permutation G (R ++ G') /\ opens h [] (e, h2) G')).
  - case_if; b2p.
    + eapply spec_impl; [|apply (spec_frame R F'), registry_add_ok; exact E']. intros h2 G (G' & HG & [[C _] K]). exists G'. split; [exact HG|].
      split; [unfold moves in *; cbn [snd] in *; perm|]. split; [exact K|cbn [fst]; congruence].
    + apply spec_ret. exists F'. split; [reflexivity|]. split; [exact A|]. split; [now left|auto].
  - intros h2 G (G' & HG & C & K & O). apply (spec_perm _ _ _ _ HG). subst R. apply (bind_release_opt reg_fd _ (opt lock_fd ++ P ++ G')); [perm|].
    apply (bind_release_opt lock_fd _ (P ++ G')); [perm|]. apply spec_ret. split; [unfold moves in *; cbn [snd] in *; perm|]. now split.
Qed.

Definition network_slots : list slot := [h_obj; h_rb; h_att; h_att_filters].

Lemma opens_early l h P r F : ~ In h_reg_id l -> hs h h_reg_id = [] -> grows l h P r F -> opens h P r F.
Proof. intros N E [A O]. assert (X : hs (snd r) h_reg_id = []) by (rewrite O; assumption). split; [exact A|]. split; [now left|auto]. Qed.

Lemma opens_after h P (r : Z * handle) F r' G : moves h (snd r) P F -> opens (snd r) F r' G -> opens h P r' G.
Proof. intros A (B & K & O). split; [unfold moves in *; perm|]. now split. Qed.

Lemma incl_one (s : slot) l : In s l -> incl [s] l.
Proof. intros H x [<-|[]]. exact H. Qed.

(** From the registry on. *)
Lemma network_registry_ok h lo auto send_only named names_ok ifs P : hs h h_att = [] -> hs h h_reg_id = [] ->
  spec P (do lock_fd <- registry_lock answer;
    do reg_fd <- registry_open answer;
    (match reg_fd with None => ret tt | Some _ => registry_reap answer end);;
    choose_tc_prio answer auto reg_fd;;
    do e <- call answer;
    do r <- (if (e =? 0) && negb send_only then
               do r <- attach_interfaces answer h lo named names_ok ifs;
               if fst r =? 0 then do e <- call answer; ret (e, snd r) else ret r
             else ret (e, h));
    do h <- (if fst r =? 0 then registry_add answer (snd r) reg_fd else ret (snd r));
    release_opt reg_fd;; registry_unlock lock_fd;; ret (fst r, h)) (opens h P).
Proof.
  intros E1 E2. eapply spec_bind; [apply registry_lock_spec|]. intros lock_fd F HF. apply (spec_perm _ _ _ _ HF).
  eapply spec_bind; [apply registry_open_spec|]. intros reg_fd G HG. apply (spec_perm _ _ _ _ HG).
  apply bind_neutral; [destruct reg_fd; auto using registry_reap_spec with neutral|]. intros _.
  apply (bind_neutral _ _ _ _ (choose_tc_prio_spec auto reg_fd)). intros _.
  apply bind_call. intros e. apply (spec_perm _ (opt lock_fd ++ opt reg_fd ++ P)); [perm|].
  apply (locked_ok network_slots); [intros [I|[I|[I|[I|[]]]]]; discriminate I|exact E2|]. case_if; [|apply step_ret].
  apply step_bind; [apply (step_incl [h_att; h_att_filters]); [intros s [<-|[<-|[]]]; unfold network_slots; cbn; auto|now apply attach_interfaces_ok]|].
  intros r P' F' _. destruct r as [e' h']. cbn [fst snd]. case_if; [|apply step_ret]. intros Q. apply bind_call. intros e2. now apply spec_ret, grows_none.
Qed.

Lemma open_network_ok h lo auto send_only named names_ok ifs P : hs h h_obj = [] -> hs h h_rb = [] -> hs h h_att = [] -> hs h h_reg_id = [] ->
  spec P (open_network answer h lo auto send_only named names_ok ifs) (opens h P).
Proof.
  intros E1 E2 E3 E4. unfold open_network. eapply spec_bind; [apply (open_object_ok h E1)|]. intros r F A.
  assert (K : forall s, s <> h_obj -> hs (snd r) s = hs h s) by (intros s N; apply A; intros [I|[]]; congruence).
  apply (grows_incl _ network_slots) in A; [|apply incl_one; cbn; auto].
  assert (N : ~ In h_reg_id network_slots) by (intros [I|[I|[I|[I|[]]]]]; discriminate I).
  case_if; [now apply spec_ret, (opens_early network_slots)|].
  apply (bind_neutral _ _ _ _ load_rules_spec). intros e. case_if; [now apply spec_ret, (opens_early network_slots)|].
  apply (bind_neutral _ _ _ _ read_sysctl_int_spec). intros v4. apply bind_neutral; [auto using read_sysctl_int_spec with neutral|]. intros _.
  eapply (spec_bind _ _ _ (grows [h_rb] (snd r) F)).
  { destruct send_only; [now apply spec_ret, grows_none|]. apply open_ring_ok. rewrite K by discriminate. exact E2. }
  intros r2 X B. assert (K2 : forall s, s <> h_rb -> hs (snd r2) s = hs (snd r) s) by (intros s D; apply B; intros [I|[]]; congruence).
  apply (grows_incl _ network_slots) in B; [|apply incl_one; cbn; auto]. pose proof (grows_trans _ _ _ _ _ _ _ A B) as C.
  case_if; [now apply spec_ret, (opens_early network_slots)|]. eapply spec_impl; [intros r' Y; apply (opens_after _ _ _ _ _ _ (proj1 C))|].
  apply network_registry_ok; rewrite K2, K by discriminate; assumption.
Qed.

(** ** Event layers, REFLECT and the filter *)

Lemma attach_cgroup_prog_ok h : step_ok [h_links] h (attach_cgroup_prog answer h).
Proof.
  intros P. unfold attach_cgroup_prog. apply bind_call. intros e. case_if; [now apply spec_ret, grows_none|]. case_if; [now apply spec_ret, grows_none|].
  apply bind_acquire; [intros e' _; now apply spec_ret, grows_none|]. intros i. apply spec_ret, grows_snoc. now left.
Qed.

Lemma attach_progs_ok progs : forall h, step_ok [h_links] h (attach_progs answer h progs).
Proof.
  induction progs as [|progs IH]; intros h; cbn [attach_progs]; [apply step_ret|]. apply step_bind; [apply attach_cgroup_prog_ok|].
  intros [e h'] P F _. cbn [fst snd]. case_if; [apply step_ret|apply IH].
Qed.

Lemma open_cgroup_root_ok found P : spec P (open_cgroup_root answer found) (fun r F => Permutation F (match r with inl _ => [] | inr c => [c] end ++ P)).
Proof.
  unfold open_cgroup_root. apply bind_acquire_opt; [apply (bind_release_opt None _ P); [reflexivity|]; now apply spec_ret|]. intros i.
  apply (bind_release_opt (Some (i, Descriptor)) _ P); [reflexivity|]. destruct found; [|now apply spec_ret].
  apply spec_acquire; [reflexivity|]. intros j. reflexivity.
Qed.

Definition event_slots : list slot := [h_obj; h_rb; h_links].

Lemma open_events_ok h block listen exact_ found progs : hs h h_obj = [] -> hs h h_rb = [] ->
  step_ok event_slots h (open_events answer h block listen exact_ found progs).
Proof.
  intros E1 E2. unfold open_events. apply step_same.
  { auto using pf_lower_spec with neutral. }
  intros e. case_if; [apply step_ret|]. intros P. eapply spec_bind; [apply (open_object_ok h E1)|]. intros r F A.
  assert (K : hs (snd r) h_rb = []) by (rewrite <- E2; apply A; intros [I|[]]; discriminate I).
  apply (grows_incl _ event_slots) in A; [|apply incl_one; cbn; auto]. case_if; [now apply spec_ret|]. apply bind_call. intros e'.
  case_if; [now apply spec_ret|]. eapply spec_bind; [apply (open_ring_ok (snd r) K)|]. intros r2 G B.
  apply (grows_incl _ event_slots) in B; [|apply incl_one; cbn; auto]. pose proof (grows_trans _ _ _ _ _ _ _ A B) as C. case_if; [now apply spec_ret|].
  eapply spec_bind; [apply open_cgroup_root_ok|]. intros cg X HX. apply (spec_perm _ _ _ _ HX). destruct cg as [e2|cg]; [now apply spec_ret|].
  apply (spec_perm _ (([cg] ++ G) ++ [])); [perm|]. eapply spec_bind; [apply spec_frame, attach_progs_ok|]. intros r3 Y (Y' & HY & D).
  apply (spec_perm _ _ _ _ HY). apply (bind_release cg _ (G ++ Y')); [perm|]. apply spec_ret. apply (grows_trans _ _ _ _ _ _ _ C).
  destruct D as [D O]. split; [unfold moves in *; perm|]. intros s N. apply O. intros [<-|[]]. apply N. cbn. auto.
Qed.

Lemma open_reflect_ok h : hs h h_timer_fd = [] -> step_ok [h_timer_fd] h (open_reflect answer h).
Proof.
  intros E P. unfold open_reflect. apply bind_acquire; [intros e _; now apply spec_ret, grows_none|]. intros i. apply bind_call. intros e.
  apply spec_ret, grows_assign; auto. now left.
Qed.

Lemma register_handle_ok h P : hs h h_reg_id = [] -> spec P (register_handle answer h) (grows_entry h P).
Proof.
  intros E. unfold register_handle. eapply spec_bind; [apply registry_lock_spec|]. intros lock_fd F HF. apply (spec_perm _ _ _ _ HF).
  eapply spec_bind; [apply registry_open_spec|]. intros reg_fd G HG. apply (spec_perm _ _ _ _ HG).
  eapply (spec_bind _ _ _ (fun h' X => exists X', Permutation X (opt lock_fd ++ X') /\ grows_entry h P h' X')).
  - destruct reg_fd as [fd|]; [|apply spec_ret; exists P; split; [reflexivity|split; [now apply grows_none|now left]]].
    apply (bind_neutral _ _ _ _ registry_reap_spec). intros _. apply (spec_perm _ (([fd] ++ opt lock_fd) ++ P)); [perm|].
    eapply spec_bind; [apply spec_frame, registry_add_ok, E|]. intros h' Y (Y' & HY & A). apply (spec_perm _ _ _ _ HY).
    apply (bind_release fd _ (opt lock_fd ++ Y')); [perm|]. apply spec_ret. now exists Y'.
  - intros h' X (X' & HX & A). apply (spec_perm _ _ _ _ HX). apply (bind_release_opt lock_fd _ X'); [perm|]. now apply spec_ret.
Qed.

Lemma wd_filter_compile_ok P : spec P (wd_filter_compile answer) (fun r F => Permutation F (match r with inl _ => [] | inr c => [c] end ++ P)).
Proof.
  unfold wd_filter_compile. apply bind_acquire_opt; [now apply spec_ret|]. intros i.
  apply bind_acquire_opt; [apply (bind_release _ _ P); [perm|]; now apply spec_ret|]. intros j. apply bind_call. intros e.
  apply (bind_release _ _ ((i, Memory) :: P)); [perm|]. case_if; [apply (bind_release _ _ P); [perm|]|]; now apply spec_ret.
Qed.

(** ** Freeing *)

Definition without (s : slot) (l : list slot) : list slot := filter (fun x => if slot_eq_dec s x then false else true) l.

Lemma count_without x h s : forall l, NoDup l -> In s l ->
  count x (concat (map (hs h) l)) = (count x (hs h s) + count x (concat (map (hs h) (without s l))))%nat.
Proof.
  induction l as [|y l IH]; intros N I; [destruct I|]. inversion N as [|? ? Ny Nl]; subst. cbn [map concat without filter].
  destruct (slot_eq_dec s y) as [->|D].
  - assert (E : without y l = l).
    { clear - Ny. induction l as [|z l IH]; [reflexivity|]. cbn [without filter]. destruct (slot_eq_dec y z) as [->|]; [elim Ny; now left|].
      f_equal. apply IH. intros I. apply Ny. now right. }
    fold (without y l). rewrite E, count_app. reflexivity.
  - fold (without s l). cbn [map concat]. rewrite !count_app, IH; [lia|exact Nl|destruct I; congruence].
Qed.

Lemma bind_release_slot {B} h s l (k : unit -> M B) R : NoDup l -> In s l ->
  spec (concat (map (hs h) (without s l))) (k tt) R -> spec (concat (map (hs h) l)) (bind (release_all (hs h s)) k) R.
Proof.
  intros N I H. apply (bind_release_all _ _ (concat (map (hs h) (without s l)))); [|exact H].
  apply counted. intros x. rewrite count_app. now apply count_without.
Qed.

Ltac distinct := repeat constructor; cbn; intuition discriminate.
Ltac free_slot := apply bind_release_slot; [distinct|cbn; tauto|cbn [without filter slot_eq_dec slot_rec slot_rect]].

Lemma detach_all_ok h P : Permutation P (owned h) -> spec P (detach_all removal h) (fun h' F => h' = assign h h_att_filters [] /\ Permutation F (owned h')).
Proof.
  intros HP. unfold detach_all. pose proof (fun x => count_assign x h h_att_filters []) as C.
  apply (bind_try_release_all _ _ (owned (assign h h_att_filters []))); [|now apply spec_ret].
  apply counted. intros x. specialize (C x). rewrite (proj2 (counted _ _) HP x), count_app. rewrite count_nil in C. lia.
Qed.

Lemma free_handle_ok h P : Permutation P (owned h) -> spec P (free_handle removal h) (fun _ F => Permutation F (hs h h_reg_id)).
Proof.
  intros HP. unfold free_handle. eapply spec_bind; [apply (detach_all_ok h P HP)|]. intros h' F [-> HF]. apply (spec_perm _ _ _ _ HF). unfold owned.
  set (g := assign h h_att_filters []). unfold slots. do 2 free_slot. set (g' := assign g h_links []). cbv zeta.
  match goal with |- spec ?P _ _ => change P with (concat (map (hs g') [h_self; h_att_filters; h_rb; h_obj; h_socks_fds; h_socks; h_raw4; h_raw6;
    h_udp; h_seen_filters; h_seen; h_timer_fd; h_epfd; h_wake_fd; h_queue; h_filter; h_reg_id])) end.
  do 6 free_slot. apply bind_ret. do 8 free_slot.
  apply (spec_release_all _ _ (hs h h_reg_id)); [|reflexivity]. subst g g'. cbn [map concat assign hs slot_eq_dec slot_rec slot_rect app]. now rewrite app_nil_r.
Qed.

(** ** Open *)

Lemma register_opens l h (m : M (Z * handle)) P : ~ In h_reg_id l -> hs h h_reg_id = [] -> step_ok l h m ->
  spec P (do r <- m; if fst r =? 0 then do h <- register_handle answer (snd r); ret (0, h) else ret r) (opens h P).
Proof.
  intros N E Hm. eapply spec_bind; [apply Hm|]. intros r F A. case_if; [|now apply spec_ret, (opens_early l)].
  eapply spec_bind; [apply register_handle_ok; rewrite (proj2 A); assumption|]. intros h' G [B K]. apply spec_ret.
  apply (opens_after _ _ _ _ _ _ (proj1 A)). split; [apply B|]. split; [exact K|]. cbn [fst]. congruence.
Qed.

Lemma open_layer_ok h l P : (forall s, In s [h_obj; h_rb; h_att; h_timer_fd; h_reg_id] -> hs h s = []) -> spec P (open_layer answer h l) (opens h P).
Proof.
  intros E. destruct l as [lo auto send_only named names_ok ifs|block listen exact_ found progs|]; cbn [open_layer].
  - apply open_network_ok; apply E; cbn; auto 10.
  - apply (register_opens event_slots); [intros [I|[I|[I|[]]]]; discriminate I|apply E; cbn; auto 10|apply open_events_ok; apply E; cbn; auto 10].
  - apply (register_opens [h_timer_fd]); [intros [I|[]]; discriminate I|apply E; cbn; auto 10|apply open_reflect_ok; apply E; cbn; auto 10].
Qed.

(** A failed open frees the handle. *)
Lemma fail_ok h err P : Permutation P (owned h) -> hs h h_reg_id = [] ->
  spec P (free_handle removal h;; ret (inl (- err) : Z + handle)) (fun r F => match r with inl _ => Permutation F [] | inr h => Permutation F (owned h) /\ one_entry h end).
Proof.
  intros HP E. eapply spec_bind; [apply (free_handle_ok h P HP)|]. intros [] F HF. rewrite E in HF. now apply spec_ret.
Qed.

Ltac owned_now := unfold owned; cbn [map concat slots hs assign slot_eq_dec slot_rec slot_rect app fd_slot]; perm.

Lemma ebpfdivert_open_ok args_ok l : spec [] (ebpfdivert_open answer removal args_ok l)
  (fun r F => match r with inl _ => Permutation F [] | inr h => Permutation F (owned h) /\ one_entry h end).
Proof.
  unfold ebpfdivert_open. case_if; [now apply spec_ret|]. apply bind_acquire_opt; [now apply spec_ret|]. intros i.
  apply bind_acquire; intros w; [intros _|]; (apply bind_acquire; intros e; [intros _|]); try (apply fail_ok; [owned_now|reflexivity]).
  apply bind_call. intros x. case_if; [apply fail_ok; [owned_now|reflexivity]|]. eapply spec_bind; [apply wd_filter_compile_ok|].
  intros f F HF. apply (spec_perm _ _ _ _ HF). destruct f as [e'|f]; [apply fail_ok; [owned_now|reflexivity]|].
  match goal with |- context [assign ?h h_filter [f]] => set (g := assign h h_filter [f]) end.
  eapply spec_bind; [apply (open_layer_ok g); intros s [<-|[<-|[<-|[<-|[<-|[]]]]]]; reflexivity|]. intros r G (A & K & O). unfold moves in A.
  assert (HG : Permutation G (owned (snd r))).
  { assert (Hg : Permutation ([f] ++ [(e, Descriptor); (w, Descriptor); (i, Memory)]) (owned g)) by (subst g; owned_now). perm. }
  case_if; b2p; [apply fail_ok; [exact HG|now apply O]|]. apply spec_ret. now split.
Qed.

(** ** Using and closing a handle *)

Definition keeps_owned (h h' : handle) (F : list cell) : Prop := Permutation F (owned h') /\ hs h' h_reg_id = hs h h_reg_id.

Lemma owned_assign h s l : Permutation (hs h s ++ owned (assign h s l)) (l ++ owned h).
Proof. perm. Qed.

Lemma owned_slot h s c l P : hs h s = l -> Permutation P (owned h) -> Permutation (c ++ P) (owned (assign h s (l ++ c))).
Proof. intros E HP. pose proof (owned_assign h s (l ++ c)) as C. rewrite E in C. perm. Qed.

Lemma packet_sock_good h mark redirect P : Permutation P (owned h) -> spec P (packet_sock answer h mark redirect) (fun r F => keeps_owned h (snd r) F).
Proof.
  intros HP. unfold packet_sock. case_if; [now apply spec_ret|]. apply bind_acquire; [intros e _; now apply spec_ret|]. intros i.
  apply bind_call. intros e. case_if; [apply (bind_release _ _ P); [perm|]; now apply spec_ret|].
  eapply (spec_bind _ _ _ (fun _ F => Permutation F ((i, Descriptor) :: P))).
  { destruct redirect; [|now apply spec_ret]. now apply spec_call. }
  intros e' F HF. apply (spec_perm _ _ _ _ HF). case_if; [apply (bind_release _ _ P); [perm|]; now apply spec_ret|].
  apply bind_acquire_opt; [apply (bind_release _ _ P); [perm|]; now apply spec_ret|]. intros j.
  pose proof (owned_assign h h_socks []) as C. apply (bind_release_all _ _ ((j, Memory) :: (i, Descriptor) :: owned (assign h h_socks []))); [perm|].
  apply spec_ret. split; [|reflexivity]. cbn [snd]. match goal with |- Permutation _ (owned (mkRes (hs ?g) _)) => change (Permutation ((j, Memory) :: (i, Descriptor) :: owned (assign h h_socks [])) (owned g)) end. perm.
Qed.

Lemma raw_sock_good h v6 P : Permutation P (owned h) -> spec P (raw_sock answer h v6) (fun r F => keeps_owned h (snd r) F).
Proof.
  intros HP. unfold raw_sock. set (s := if v6 then h_raw6 else h_raw4). destruct (hs h s) eqn:E; [|now apply spec_ret].
  apply bind_acquire; [intros e _; now apply spec_ret|]. intros i. apply bind_call. intros e. case_if.
  - apply (bind_release _ _ P); [perm|]. now apply spec_ret.
  - apply spec_ret. split; [exact (owned_slot h s [(i, Descriptor)] [] P E HP)|now subst s; destruct v6].
Qed.

(** A function on the handle that keeps the ledger. *)
Definition good {A} (h : handle) (m : M A) (f : A -> handle) : Prop :=
  forall P, Permutation P (owned h) -> spec P m (fun a F => keeps_owned h (f a) F).

Lemma good_ret {A} h (a : A) f : f a = h -> good h (ret a) f.
Proof. intros E P HP. apply spec_ret. now rewrite E. Qed.

Lemma good_neutral {A B} h (m : M A) (k : A -> M B) f : neutral m -> (forall a, good h (k a) f) -> good h (bind m k) f.
Proof. intros Hm Hk P HP. apply (bind_neutral _ _ _ _ Hm). intros a. now apply Hk. Qed.

Lemma good_bind {A B} h (m : M A) (k : A -> M B) f g : good h m f -> (forall a, good (f a) (k a) g) -> good h (bind m k) g.
Proof.
  intros Hm Hk P HP. eapply spec_bind; [now apply Hm|]. intros a F [A1 E]. eapply spec_impl; [|now apply Hk].
  intros b G [A2 E2]. split; congruence.
Qed.

(** With a local resource around. *)
Lemma good_framed {A B} h c (m : M A) (k : A -> M B) f g : good h m f ->
  (forall a P, keeps_owned h (f a) P -> spec (c :: P) (k a) (fun b F => keeps_owned h (g b) F)) ->
  forall P, Permutation P (owned h) -> spec (c :: P) (bind m k) (fun b F => keeps_owned h (g b) F).
Proof.
  intros Hm Hk P HP. eapply spec_bind; [apply (spec_frame [c] P), (Hm P HP)|]. intros a F (F' & HF & K). apply (spec_perm _ _ _ _ HF). now apply Hk.
Qed.

Lemma good_scoped {A} h c (m : M A) f P : good h m f -> Permutation P (owned h) -> spec (c :: P) (do a <- m; release c;; ret a) (fun a F => keeps_owned h (f a) F).
Proof.
  intros Hm. apply (good_framed h c m _ f f Hm). intros a Q K. apply (bind_release _ _ Q); [perm|]. now apply spec_ret.
Qed.

Lemma query_mtu_spec : neutral (query_mtu answer).
Proof. unfold query_mtu. auto 10 with neutral. Qed.

Lemma send_af_packet_good h mark redirect ask : good h (send_af_packet answer h mark redirect ask) snd.
Proof.
  intros P HP. unfold send_af_packet. apply bind_acquire_opt; [now apply spec_ret|]. intros i.
  apply bind_neutral; [auto using query_mtu_spec with neutral|]. intros _.
  apply (good_framed h (i, Memory) _ _ snd); [|clear P HP; intros r P K|exact HP]; [intros Q HQ; now apply packet_sock_good|].
  case_if; [|apply bind_call; intros e]; (apply (bind_release _ _ P); [perm|]; now apply spec_ret).
Qed.

Lemma send_raw_ip_ok h v6 : good h (send_raw_ip answer h v6) snd.
Proof.
  unfold send_raw_ip. apply (good_bind _ _ _ snd); [intros P HP; now apply raw_sock_good|]. intros r. case_if; [now apply good_ret|].
  apply good_neutral; [apply neutral_call|]. intros e. now apply good_ret.
Qed.

Lemma inject_ok h way : good h (inject answer h way) snd.
Proof.
  intros P HP. unfold inject. destruct way as [|v6|mark ask|mark known ask]; [now apply spec_ret|..];
    (apply bind_acquire_opt; [now apply spec_ret|]); intros i; (apply good_scoped; [|exact HP]); auto using send_raw_ip_ok, send_af_packet_good.
  apply good_neutral; [|auto using send_af_packet_good]. apply neutral_if; [apply neutral_ret|apply query_mtu_spec].
Qed.

Lemma queue_push_ok h e full P : Permutation P (owned h) -> spec (e :: P) (queue_push h e full) (keeps_owned h).
Proof.
  intros HP. unfold queue_push. case_if.
  - apply (bind_release _ _ P); [perm|]. now apply spec_ret.
  - apply spec_ret. split; [exact (owned_slot h h_queue [e] _ P eq_refl HP)|reflexivity].
Qed.

Lemma ring_callback_ok h v : good h (ring_callback answer h v) (fun h => h).
Proof.
  intros P HP. unfold ring_callback. apply bind_acquire_opt; [now apply spec_ret|]. intros i. destruct v as [way| |full].
  - apply (good_framed h (i, Memory) _ _ snd _ (inject_ok h way)); [|exact HP]. intros r Q K. apply (bind_release _ _ Q); [perm|]. now apply spec_ret.
  - apply (bind_release _ _ P); [perm|]. now apply spec_ret.
  - now apply queue_push_ok.
Qed.

Lemma deliver_entry_ok h matched full : good h (deliver_entry answer h matched full) (fun h => h).
Proof.
  intros P HP. unfold deliver_entry. apply bind_acquire_opt; [now apply spec_ret|]. intros i. case_if; [|now apply queue_push_ok].
  apply (bind_release _ _ P); [perm|]. now apply spec_ret.
Qed.

Lemma udp_track_ok h : good h (udp_track answer h) (fun h => h).
Proof.
  intros P HP. unfold udp_track. destruct (hs h h_udp) eqn:E; [|now apply spec_ret]. apply bind_acquire_opt; [now apply spec_ret|]. intros i.
  apply spec_ret. split; [exact (owned_slot h h_udp [(i, Memory)] [] P E HP)|reflexivity].
Qed.

Lemma udp_release_ok ends : forall h, good h (udp_release answer h ends) (fun h => h).
Proof. induction ends as [|[matched full] ends IH]; intros h; cbn [udp_release]; [now apply good_ret|]. exact (good_bind _ _ _ _ _ (deliver_entry_ok h matched full) IH). Qed.

Lemma event_callback_ok h ends track matched full : good h (event_callback answer h ends track matched full) (fun h => h).
Proof.
  unfold event_callback. destruct ends as [ends|]; [apply udp_release_ok|]. apply (good_bind _ _ _ (fun h => h)); [|intros a; apply deliver_entry_ok].
  case_if; [apply udp_track_ok|now apply good_ret].
Qed.

(** One element of a slot is released. *)
Lemma drop_ok h s a c b : hs h s = a ++ c :: b -> s <> h_reg_id -> good h (release c;; ret (assign h s (a ++ b))) (fun h => h).
Proof.
  intros E N P HP. pose proof (owned_assign h s (a ++ b)) as C. rewrite E in C.
  apply (bind_release _ _ (owned (assign h s (a ++ b)))); [perm|]. apply spec_ret. split; [reflexivity|]. cbn. now destruct (slot_eq_dec s h_reg_id).
Qed.

Lemma queue_pop_ok expired : forall h, good h (queue_pop h expired) (fun h => h).
Proof.
  induction expired as [|expired IH]; intros h P HP; cbn [queue_pop]; (destruct (hs h h_queue) as [|e q] eqn:E; [now apply spec_ret|]);
    pose proof (owned_assign h h_queue q) as C; rewrite E in C; (apply (bind_release _ _ (owned (assign h h_queue q))); [perm|]).
  - now apply spec_ret.
  - eapply spec_impl; [|now apply IH]. intros g F K. exact K.
Qed.

(** *** REFLECT *)

Definition keeps_with (h : handle) (r : handle * cell) (F : list cell) : Prop := exists F', Permutation F (snd r :: F') /\ keeps_owned h (fst r) F'.

Lemma see_handle_ok h alive matched full P : Permutation P (owned h) -> spec (alive :: P) (see_handle answer h alive matched full) (keeps_with h).
Proof.
  assert (Same : forall g c Q, Permutation Q (owned g) -> hs g h_reg_id = hs h h_reg_id -> keeps_with h (g, c) (c :: Q)) by (intros; eexists; repeat split; [reflexivity|assumption..]).
  intros HP. unfold see_handle. apply bind_acquire_opt; [now apply spec_ret, Same|]. intros i.
  pose proof (owned_assign h h_seen [(i, Memory)]) as C. set (g := assign h h_seen [(i, Memory)]) in *.
  apply (bind_release_all _ _ (alive :: owned g)); [perm|]. apply bind_acquire_opt; [now apply spec_ret, Same|]. intros j.
  apply (bind_release _ _ ((j, Memory) :: owned g)); [perm|].
  assert (D : forall g' Q, hs g' h_reg_id = hs h h_reg_id -> Permutation Q (owned g') ->
    spec ((j, Memory) :: Q) (do h <- deliver_entry answer g' matched full; ret (h, (j, Memory))) (keeps_with h)).
  { intros g' Q Eg HQ. eapply spec_bind; [apply (spec_frame [(j, Memory)] Q), (deliver_entry_ok g' matched full Q HQ)|].
    intros g2 F (F' & HF & K & E). apply (spec_perm _ _ _ _ HF), spec_ret, Same; [exact K|congruence]. }
  apply bind_acquire_opt; [now apply D|]. intros t. apply (spec_perm _ ((j, Memory) :: (t, Memory) :: owned g)); [apply perm_swap|]. apply D; [reflexivity|].
  exact (owned_slot g h_seen_filters [(t, Memory)] _ (owned g) eq_refl (Permutation_refl _)).
Qed.

Lemma see_handles_ok opened : forall h alive P, Permutation P (owned h) -> spec (alive :: P) (see_handles answer h alive opened) (keeps_with h).
Proof.
  induction opened as [|[matched full] opened IH]; intros h alive P HP; cbn [see_handles].
  - apply spec_ret. now exists P.
  - eapply spec_bind; [now apply see_handle_ok|]. intros [h' c] F (F' & HF & K & E). cbn [fst snd] in *. apply (spec_perm _ _ _ _ HF).
    eapply spec_impl; [|now apply IH]. intros r G (G' & HG & K2 & E2). exists G'. repeat split; congruence.
Qed.

Lemma forget_handle_ok h i matched full : good h (forget_handle answer h i matched full) (fun h => h).
Proof.
  unfold forget_handle. apply (good_bind _ _ _ (fun h => h)); [apply deliver_entry_ok|]. clear h. intros h.
  destruct (nth_error (hs h h_seen_filters) i) as [t|] eqn:E; [|now apply good_ret].
  apply drop_ok; [|discriminate]. apply nth_error_split in E as (a & b & -> & <-).
  now rewrite firstn_app, firstn_all, Nat.sub_diag, app_nil_r, skipn_app, skipn_all2, Nat.sub_succ_l, Nat.sub_diag by lia.
Qed.

Lemma forget_handles_ok gone : forall h, good h (forget_handles answer h gone) (fun h => h).
Proof.
  induction gone as [|[[i matched] full] gone IH]; intros h; cbn [forget_handles]; [now apply good_ret|].
  exact (good_bind _ _ _ _ _ (forget_handle_ok h i matched full) IH).
Qed.

Lemma reflect_poll_ok h opened gone : good h (reflect_poll answer h opened gone) (fun h => h).
Proof.
  intros P HP. unfold reflect_poll. apply bind_acquire_opt; [now apply spec_ret|]. intros fd.
  assert (N : forall e alive : option cell, spec (opt alive ++ opt e ++ (fd, Descriptor) :: P)
    (release_opt e;; release_opt alive;; release (fd, Descriptor);; ret h) (keeps_owned h)).
  { intros e alive. apply (bind_release_opt e _ (opt alive ++ (fd, Descriptor) :: P)); [perm|].
    apply (bind_release_opt alive _ ((fd, Descriptor) :: P)); [perm|]. apply (bind_release _ _ P); [perm|]. now apply spec_ret. }
  apply bind_acquire_opt; [apply bind_acquire_opt; [|intros a]|intros e; apply bind_acquire_opt; [|intros a]].
  - exact (N None None).
  - exact (N None (Some (a, Memory))).
  - exact (N (Some (e, Memory)) None).
  - clear N. apply (spec_perm _ ([(e, Memory); (fd, Descriptor)] ++ ((a, Memory) :: P))); [perm|].
    eapply spec_bind; [apply spec_frame, (see_handles_ok opened h (a, Memory) P HP)|]. intros [g c] F (F1 & HF & F2 & HF1 & K & E). cbn [fst snd] in *.
    apply (spec_perm _ ([(e, Memory); (fd, Descriptor); c] ++ F2)); [perm|].
    eapply spec_bind; [apply spec_frame, (forget_handles_ok gone g F2 K)|]. intros g2 G (G' & HG & K2 & E2). apply (spec_perm _ _ _ _ HG).
    apply (bind_release _ _ ([(e, Memory); (fd, Descriptor)] ++ G')); [perm|]. apply (bind_release _ _ ((fd, Descriptor) :: G')); [perm|].
    apply (bind_release _ _ G'); [perm|]. apply spec_ret. split; congruence.
Qed.

Lemma get_handle_stats_spec : neutral (get_handle_stats answer).
Proof. unfold get_handle_stats. auto 10 with neutral. Qed.

Lemma ebpfdivert_unregister_spec : neutral (ebpfdivert_unregister answer).
Proof.
  intros P. unfold ebpfdivert_unregister. eapply spec_bind; [apply registry_lock_spec|]. intros lock_fd F HF. apply (spec_perm _ _ _ _ HF).
  assert (U : spec (opt lock_fd ++ P) (registry_unlock lock_fd;; ret 0) (fun _ F => Permutation F P)) by (apply (bind_release_opt lock_fd _ P); [perm|]; now apply spec_ret).
  apply bind_acquire_opt; [now apply bind_ret|]. intros fd. apply bind_assoc. apply (bind_neutral _ _ _ _ registry_reap_spec). intros _.
  now apply (bind_release _ _ (opt lock_fd ++ P)).
Qed.

Lemma run_op_ok h o : good h (run_op answer h o) (fun h => h).
Proof.
  destruct o as [way|v|ends track matched full|opened gone|expired| |]; cbn [run_op];
    auto using ring_callback_ok, event_callback_ok, reflect_poll_ok, queue_pop_ok.
  - apply (good_bind _ _ _ snd); [apply inject_ok|]. intros r. now apply good_ret.
  - apply good_neutral; [apply get_handle_stats_spec|]. intros n. now apply good_ret.
  - apply good_neutral; [apply ebpfdivert_unregister_spec|]. intros n. now apply good_ret.
Qed.

Lemma run_ops_ok l : forall h P, Permutation P (owned h) -> spec P (run_ops answer h l) (keeps_owned h).
Proof.
  induction l as [|o l IH]; intros h P HP; cbn [run_ops]; [now apply spec_ret|].
  eapply spec_bind; [now apply run_op_ok|]. intros h' F [A B]. eapply spec_impl; [|now apply IH]. intros g G [C D]. split; congruence.
Qed.

(** The entry is removed, or stays when a call fails: the registry cannot be
    opened. *)
Lemma unregister_ok h i P : hs h h_reg_id = [(i, Entry)] -> Permutation P (owned h) ->
  spec P (do lock_fd <- registry_lock answer;
    do reg_fd <- acquire_opt answer Descriptor;
    (match reg_fd with None => ret tt | Some fd => try_release removal (i, Entry);; release fd end);;
    registry_unlock lock_fd) (fun _ F => call_fails /\ Permutation F (owned h) \/ Permutation F (owned (assign h h_reg_id []))).
Proof.
  intros K HP. pose proof (owned_assign h h_reg_id []) as C. rewrite K in C. eapply spec_bind; [apply registry_lock_spec|].
  intros lock_fd F HF. apply (spec_perm _ _ _ _ HF). apply bind_acquire_or.
  - intros Cf. apply bind_ret. unfold registry_unlock. destruct lock_fd; [apply (spec_release _ _ P); [reflexivity|]|apply spec_ret]; now left.
  - intros j. eapply (spec_bind _ _ _ (fun _ G => Permutation G (opt lock_fd ++ owned (assign h h_reg_id [])))).
    + eapply spec_bind; [apply (spec_try_release _ _ ((j, Descriptor) :: opt lock_fd ++ owned (assign h h_reg_id [])) (fun _ F => F = (j, Descriptor) :: opt lock_fd ++ owned (assign h h_reg_id []))); [perm|reflexivity]|].
      intros [] X ->. now apply (spec_release _ _ (opt lock_fd ++ owned (assign h h_reg_id []))).
    + intros u G HG. apply (spec_perm _ _ _ _ HG). unfold registry_unlock.
      destruct lock_fd; [apply (spec_release _ _ (owned (assign h h_reg_id []))); [reflexivity|]|apply spec_ret]; now right.
Qed.

(** The close releases the handle, but for the entry when a call fails. *)
Definition closed (h : handle) (F : list cell) : Prop := F = [] \/ call_fails /\ Permutation F (hs h h_reg_id).

Lemma ebpfdivert_close_ok h P : Permutation P (owned h) -> one_entry h -> spec P (ebpfdivert_close answer removal h) (fun _ => closed h).
Proof.
  intros HP K. unfold ebpfdivert_close. eapply spec_bind; [apply (detach_all_ok h P HP)|]. intros h' F [-> HF]. apply (spec_perm _ _ _ _ HF).
  set (g := assign h h_att_filters []) in *. change (closed h) with (closed g). change (one_entry h) with (one_entry g) in K.
  assert (Free : forall X, Permutation X (owned g) -> call_fails \/ hs g h_reg_id = [] -> spec X (free_handle removal g) (fun _ => closed g)).
  { intros X HX C. eapply spec_impl; [|now apply free_handle_ok]. intros u G HG. destruct C as [C|C]; [now right|left].
    rewrite C in HG. now apply Permutation_nil, Permutation_sym. }
  destruct K as [K|(i & K)]; rewrite K; [apply bind_ret; apply Free; [reflexivity|now right]|].
  eapply spec_bind; [exact (unregister_ok g i _ K (Permutation_refl _))|]. intros u G [[Cf HG]|HG]; [apply Free; [exact HG|now left]|].
  change (free_handle removal g) with (free_handle removal (assign g h_reg_id [])). eapply spec_impl; [|now apply free_handle_ok].
  intros u' Y HY. left. now apply Permutation_nil, Permutation_sym.
Qed.

Lemma lifetime_ok args_ok l ops : spec [] (lifetime answer removal args_ok l ops) (fun r F => F = [] \/ r = None /\ call_fails /\ exists i, F = [(i, Entry)]).
Proof.
  unfold lifetime. eapply spec_bind; [apply ebpfdivert_open_ok|]. intros [e|h] F H.
  - apply spec_ret. left. now apply Permutation_nil, Permutation_sym.
  - destruct H as [HF K]. eapply spec_bind; [now apply run_ops_ok|]. intros h' G [HG E].
    assert (K' : one_entry h') by (unfold one_entry; now rewrite E).
    eapply spec_bind; [now apply ebpfdivert_close_ok|]. intros [] X HX. apply spec_ret.
    destruct HX as [->|[Cf HX]]; [now left|]. destruct K' as [K'|(i & K')]; rewrite K' in HX.
    + left. now apply Permutation_nil, Permutation_sym.
    + right. split; [reflexivity|]. split; [exact Cf|]. exists i. now apply Permutation_length_1_inv, Permutation_sym.
Qed.
End Rules.

(** ** What is shown *)

(** C26. Whatever calls fail and with whatever errors, [ebpfdivert_open] has
    a result, so nothing is released twice.  When it gives NULL, the live
    resources are those from before: every error path of the three layers,
    of the filter compiler and of the registry releases what was acquired.
    When it gives a handle, what is new is what the handle owns.  The only
    thing that can stay without an owner is a TC filter whose
    [bpf_tc_detach] the system refused. *)
Theorem open_leaks_nothing answer removal args_ok l w : ledger_ok w ->
  exists r w' stuck, ebpfdivert_open answer removal args_ok l w = Some (r, w') /\
    match r with
    | inl _ => Permutation (w_live w') (w_live w)
    | inr h => Permutation (w_live w') (owned h ++ w_live w)
    end /\
    w_stuck w' = stuck ++ w_stuck w /\ Forall (refused removal) stuck.
Proof.
  intros Ok. destruct (ebpfdivert_open_ok answer removal args_ok l w (w_live w) Ok (Permutation_refl _)) as (r & w' & F & E & _ & Pm & (t & V) & Q).
  exists r, w', t. split; [exact E|]. split; [|exact V]. destruct r as [e|h]; rewrite Pm; [now rewrite Q|]. now rewrite (proj1 Q).
Qed.

(** C27. A handle opened, used by any sequence of the functions that acquire
    or release resources, and closed: everything is released, nothing is
    released twice, and what was alive before stays.  What can be left is the
    entry of the registry, when a call fails (the pinned map could not be
    opened), and the TC filters and the entry whose removal the system
    refused: nothing, when no call and no removal fails. *)
Theorem lifetime_releases answer removal args_ok l ops w : ledger_ok w ->
  exists r w' left stuck, lifetime answer removal args_ok l ops w = Some (r, w') /\
    Permutation (w_live w') (left ++ w_live w) /\
    (left = [] \/ (exists n, answer n <> 0) /\ exists i, left = [(i, Entry)]) /\
    w_stuck w' = stuck ++ w_stuck w /\ Forall (refused removal) stuck.
Proof.
  intros Ok. destruct (lifetime_ok answer removal args_ok l ops w (w_live w) Ok (Permutation_refl _)) as (r & w' & F & E & _ & Pm & (t & V) & Q).
  exists r, w', F, t. split; [exact E|]. split; [exact Pm|]. split; [|exact V]. destruct Q as [->|[_ Q]]; auto.
Qed.

Definition fails_from (n : nat) : nat -> Z := fun k => if Nat.leb n k then - 24 else 0.

(** An answer for the removal of the filters. *)
Definition filters_stay : cell -> Z := fun c => match snd c with Filter => - 19 | _ => 0 end.

Definition lo_and_eth : layer_open := Network 1 true false true true [(1, false); (2, true)].
Definition one_cell : world := mkWorld [(0%nat, Memory)] [] 1 0.

Lemma one_cell_ok : ledger_ok one_cell.
Proof. repeat constructor. cbn. tauto. Qed.

Lemma open_leaks_nothing_witness : exists r w' stuck, ebpfdivert_open (fails_from 40) filters_stay true lo_and_eth one_cell = Some (r, w') /\
  match r with inl _ => Permutation (w_live w') [(0%nat, Memory)] | inr h => Permutation (w_live w') (owned h ++ [(0%nat, Memory)]) end /\
  w_stuck w' = stuck ++ [] /\ Forall (refused filters_stay) stuck.
Proof. exact (open_leaks_nothing (fails_from 40) filters_stay true lo_and_eth one_cell one_cell_ok). Defined.

Lemma lifetime_releases_witness : exists r w' left stuck, lifetime (fun _ => 0) (fun _ => 0) true lo_and_eth
    [OpPacket (Enqueue false); OpSend (Outbound 5 true); OpPacket (Reinject (RawIp false)); OpPop 0; OpStats] one_cell = Some (r, w') /\
  Permutation (w_live w') (left ++ [(0%nat, Memory)]) /\
  (left = [] \/ (exists n, (fun _ : nat => 0) n <> 0) /\ exists i, left = [(i, Entry)]) /\
  w_stuck w' = stuck ++ [] /\ Forall (refused (fun _ => 0)) stuck.
Proof. exact (lifetime_releases (fun _ => 0) (fun _ => 0) true lo_and_eth _ one_cell one_cell_ok). Defined.

(** An open with four filters; one whose fourth filter is refused, so that
    the three attached are taken back, and the same where they cannot be; a
    close that cannot open the registry. *)
Example open_four_filters : option_map (fun r => match fst r with inr h => length (hs h h_att_filters) | inl _ => 0%nat end)
  (ebpfdivert_open (fun _ => 0) (fun _ => 0) true lo_and_eth (mkWorld [] [] 0 0)) = Some 4%nat.
Proof. reflexivity. Qed.

Example open_interrupted : option_map (fun r => (match fst r with inl e => e | inr _ => 0 end, w_next (snd r), w_live (snd r)))
  (ebpfdivert_open (fails_from 40) (fun _ => 0) true lo_and_eth (mkWorld [] [] 0 0)) = Some (24, 20%nat, []).
Proof. reflexivity. Qed.

Example entry_left : option_map (fun r => (w_live (snd r), w_stuck (snd r)))
    (lifetime (fun n => if Nat.eqb n 49 then - 2 else 0) (fun _ => 0) true lo_and_eth [] (mkWorld [] [] 0 0))
  = Some ([(23%nat, Entry)], []).
Proof. reflexivity. Qed.

(** The code does not look at what [bpf_tc_detach] answers: when the filters
    of a handle cannot be removed, the close succeeds and they stay attached,
    with nothing left to remove them. *)
Example filters_left : option_map (fun r => (fst r, w_live (snd r), map snd (w_stuck (snd r))))
    (lifetime (fun _ => 0) filters_stay true lo_and_eth [] (mkWorld [] [] 0 0))
  = Some (None, [], [Filter; Filter; Filter; Filter]).
Proof. reflexivity. Qed.
