(* ===== verification/EbLog.v ===== *)
(** * Messages

    The print functions of [src/ebpfdivert.c] and [src/ebpfdivert-cli.c],
    [ebpfdivert_strerror], and the drawing of a registry id with
    [getrandom_u64].  A message is its text; a print function says on which
    stream it appears. *)

From Stdlib Require Import String ZArith List Bool Lia ZifyBool.
From S2P Require Import Prelude WdTypes WdAddr WdSerial CString.
Import ListNotations.

(** ** Levels *)

Definition EBPFDIVERT_ERROR : Z := 0.
Definition EBPFDIVERT_WARN : Z := 1.
Definition EBPFDIVERT_INFO : Z := 2.
Definition EBPFDIVERT_DEBUG : Z := 3.

(** [enum libbpf_print_level] *)
Definition LIBBPF_WARN : Z := 0.
Definition LIBBPF_INFO : Z := 1.
Definition LIBBPF_DEBUG : Z := 2.

Inductive stream : Set := Stderr | Stdout.

(** A print function; [None] prints nothing. *)
Definition print_fn : Type := Z -> list Z -> option (stream * list Z).

Definition default_print_fn : print_fn := fun level text =>
  if level <=? EBPFDIVERT_WARN then Some (Stderr, text) else None.

(** [user] is [ebpfdivert_user_print_fn]. *)
Definition pr_log (user : option print_fn) : print_fn := fun level text =>
  match user with Some f => f level text | None => default_print_fn level text end.

Definition cli_print_fn : print_fn := fun level text =>
  if level >? EBPFDIVERT_INFO then None
  else if level <=? EBPFDIVERT_WARN then Some (Stderr, text) else Some (Stdout, text).

(** What [ebpfdivert_libbpf_print_fn] silences. *)
Definition benign : list (list Z) := Eval vm_compute in
  map chars ["Invalid handle"; "Exclusivity flag on"; "Cannot find specified qdisc"; "Kernel error message"]%string.

Definition ebpfdivert_libbpf_print_fn (user : option print_fn) : print_fn := fun level text =>
  let buf := snprintf 512 text in
  if existsb (strstr buf) benign then None
  else
    let u_level := if level =? LIBBPF_WARN then EBPFDIVERT_WARN
                   else if level =? LIBBPF_DEBUG then EBPFDIVERT_DEBUG else EBPFDIVERT_INFO in
    match user with Some f => f u_level text | None => default_print_fn u_level text end.

(** ** Errors and random numbers *)

(** [strerror_r] of a code, or nothing when it fails.  [None]: the negation
    overflows. *)
Definition ebpfdivert_strerror (strerror_r : Z -> option (list Z)) (err : Z) : option (list Z) :=
  if err =? - 2 ^ 31 then None
  else
    let err := if err <? 0 then - err else err in
    Some (match strerror_r err with
          | Some text => text
          | None => snprintf 128 (chars "Unknown error " ++ decimal err)
          end).

(** The number of bytes [getrandom] gives, and what is then in [*out]. *)
Definition getrandom_u64 (r : Z * Z) : Z * Z := if fst r =? 8 then (0, snd r) else (- 5, snd r).

(** The loop of [registry_add] over the answers of [getrandom]; a failing
    call leaves [*out] as it was. *)
Fixpoint draw_id (draws : list (Z * Z)) : Z :=
  match draws with
  | [] => 0
  | r :: draws =>
    let '(err, id) := getrandom_u64 r in
    if negb (err =? 0) then id else if id =? 0 then draw_id draws else id
  end.

(** ** Theorems *)

(** Nothing that the library reports as an error or a warning is lost: it
    appears on [stderr] with the default function and with that of the tool. *)
Theorem errors_are_printed level text : level <= EBPFDIVERT_WARN ->
  pr_log None level text = Some (Stderr, text) /\ pr_log (Some cli_print_fn) level text = Some (Stderr, text).
Proof.
  intros H. unfold pr_log, default_print_fn, cli_print_fn. replace (level >? EBPFDIVERT_INFO) with false by (unfold EBPFDIVERT_WARN, EBPFDIVERT_INFO in *; lia).
  now replace (level <=? EBPFDIVERT_WARN) with true by lia.
Qed.

(** Of libbpf's messages exactly the warnings that hold none of the benign
    phrases appear, on [stderr]; the tool also shows its infos, on
    [stdout]. *)
Theorem libbpf_messages level text : level = LIBBPF_WARN \/ level = LIBBPF_INFO \/ level = LIBBPF_DEBUG ->
  let quiet := existsb (strstr (snprintf 512 text)) benign in
  ebpfdivert_libbpf_print_fn None level text = (if quiet || negb (level =? LIBBPF_WARN) then None else Some (Stderr, text)) /\
  ebpfdivert_libbpf_print_fn (Some cli_print_fn) level text =
    (if quiet || (level =? LIBBPF_DEBUG) then None else Some (if level =? LIBBPF_WARN then Stderr else Stdout, text)).
Proof.
  intros H. cbv zeta. unfold ebpfdivert_libbpf_print_fn. destruct (existsb _ benign); [now split|]. destruct H as [->|[->| ->]]; now split.
Qed.

(** The sign of the error does not matter. *)
Theorem strerror_sign strerror_r err : - 2 ^ 31 < err < 2 ^ 31 ->
  ebpfdivert_strerror strerror_r (- err) = ebpfdivert_strerror strerror_r err /\ ebpfdivert_strerror strerror_r err <> None.
Proof.
  intros H. unfold ebpfdivert_strerror. replace (- err =? - 2 ^ 31) with false by lia. replace (err =? - 2 ^ 31) with false by lia.
  split; [|discriminate]. f_equal. replace (if - err <? 0 then - - err else - err) with (if err <? 0 then - err else err) by (do 2 case_if; lia). reflexivity.
Qed.

(** A handle gets id 0, which stands for none, only when [getrandom] fails. *)
Theorem draw_id_nonzero draws : (forall r, In r draws -> fst r = 8) -> (exists r, In r draws /\ snd r <> 0) -> draw_id draws <> 0.
Proof.
  intros F (r & I & N). induction draws as [|d draws IH]; [destruct I|]. cbn [draw_id]. unfold getrandom_u64.
  rewrite (F d (or_introl eq_refl)). change (8 =? 8) with true. cbn [negb]. change (0 =? 0) with true. cbn [negb].
  destruct (Z.eqb_spec (snd d) 0) as [E|E]; [|exact E]. destruct I as [->|I]; [contradiction|]. apply IH; [intros x Hx; apply F; now right|exact I].
Qed.

(** A report of the kernel about a real failure is silenced with the others. *)
Example kernel_report_silenced : ebpfdivert_libbpf_print_fn None LIBBPF_WARN (chars "libbpf: Kernel error message: Specified qdisc kind is unknown") = None.
Proof. reflexivity. Qed.
