(* ===== verification/EbRules.v ===== *)
(** * Rules of the pinned mode

    The rule tables written from text by [src/ebpfdivert.c]:
    [ebpfdivert_rules_add_extended], [ebpfdivert_rules_add],
    [ebpfdivert_rules_clear], with [is_option_active] and
    [parse_tcp_flags].  The tables are the kernel maps of [BpfMatch]; a
    rule's text is a C string, [None] for a NULL pointer.

    The address parsers of the C library and the BPF system calls are
    parameters ([rules_env]). *)

From Stdlib Require Import Ascii String ZArith List Bool Lia ZifyBool.
From S2P Require Import Prelude WdTypes WdPacket WdExec WdSerial WdAddr CString.
From S2P Require Import PfRange PfAddr PfCube PfEncode BpfParse BpfMatch.
Import ListNotations.
#[local] Open Scope list_scope.
#[local] Open Scope Z_scope.

(** ** Results

    A step of a rule parser gives a value, reports an error (the function
    returns -1) or has no defined behaviour ([atoi] of a number that is no
    [int]). *)

Inductive outcome (A : Type) : Type :=
| Done (a : A)
| Failed
| Undefined.

Arguments Done {A} a.
Arguments Failed {A}.
Arguments Undefined {A}.

Definition bind {A B} (x : outcome A) (f : A -> outcome B) : outcome B :=
  match x with
  | Done a => f a
  | Failed => Failed
  | Undefined => Undefined
  end.

Notation "'let!' x ':=' e 'in' k" := (bind e (fun x => k))
  (at level 10, x name, e at level 100, k at level 200) : divert_scope.
Notation "'let!' ' p ':=' e 'in' k" := (bind e (fun p => k))
  (at level 10, p strict pattern, e at level 100, k at level 200) : divert_scope.

Definition int_of (s : list Z) : outcome Z :=
  match atoi s with Some v => Done v | None => Undefined end.

(** ** What the functions ask the system *)

Record rules_env : Type := mkRulesEnv {
  obj_get4 : Z;                            (* bpf_obj_get(".../filter_rules") *)
  obj_get6 : Z;                            (* bpf_obj_get(".../filter_rules_ipv6") *)
  update4 : Z -> Z;                        (* bpf_map_update_elem by index *)
  update6 : Z -> Z;
  inet_addr : list Z -> Z;                 (* network order, INADDR_NONE on error *)
  inet_pton : list Z -> option (list Z)    (* AF_INET6; None unless 1 is returned *)
}.

Definition INADDR_NONE : Z := 0xFFFFFFFF.

Record ebpfdivert_rule_opt : Set := mkOpt {
  opt_proto : option (list Z);
  opt_src_ip_cidr : option (list Z);
  opt_dst_ip_cidr : option (list Z);
  opt_src_port_range : option (list Z);
  opt_dst_port_range : option (list Z);
  opt_action : option (list Z);
  opt_direction : option (list Z);
  opt_loopback : option (list Z);
  opt_ttl : option (list Z);
  opt_tcp_flags : option (list Z);
  opt_tcp_flags_mask : option (list Z);
  opt_invert_mask : Z
}.

(** ** Fields of a rule *)

Definition is_option_active (val : option (list Z)) : bool :=
  match val with
  | None => false
  | Some s => negb (streq s (chars "any")) && (zlen s >? 0)
  end.

(** The text when the option is active. *)
Definition active (val : option (list Z)) : option (list Z) :=
  if is_option_active val then val else None.

(** One round of the token loop. *)
Definition tcp_flag (token : list Z) : Z :=
  if strcaseeq token (chars "FIN") then 0x01
  else if strcaseeq token (chars "SYN") then 0x02
  else if strcaseeq token (chars "RST") then 0x04
  else if strcaseeq token (chars "PSH") then 0x08
  else if strcaseeq token (chars "ACK") then 0x10
  else if strcaseeq token (chars "URG") then 0x20
  else if strcaseeq token (chars "ECE") then 0x40
  else if strcaseeq token (chars "CWR") then 0x80
  else 0.

Definition parse_tcp_flags (str : option (list Z)) : Z :=
  match str with
  | None => 0
  | Some s =>
    if (nth 0 s 0 =? 48) && ((nth 1 s 0 =? 120) || (nth 1 s 0 =? 88)) then u8 (fst (strtol 16 s))
    else fold_left (fun flags token => flags ||| tcp_flag token) (strtok (chars ", |") (snprintf 64 s)) 0
  end.

(** Protocol names, compared by [eq]; [icmp] is the protocol that has no
    ports in this table. *)
Definition proto_number (eq : list Z -> list Z -> bool) (icmp_name : list Z) (icmp : Z) (s : list Z)
    : outcome Z :=
  if eq s (chars "tcp") then Done 6
  else if eq s (chars "udp") then Done 17
  else if eq s icmp_name then Done icmp
  else let! v := int_of s in Done (u8 v).

(** Mask bit and protocol. *)
Definition rule_proto eq icmp_name icmp (s : option (list Z)) : outcome (Z * Z) :=
  match s with
  | None => Done (0, 0)
  | Some s => let! p := proto_number eq icmp_name icmp s in Done (MATCH_PROTO, p)
  end.

Definition action_mask (action : option (list Z)) : Z :=
  match action with
  | None => 0
  | Some s => if streq s (chars "drop") then MATCH_DROP
              else if streq s (chars "sniff") then MATCH_SNIFF else 0
  end.

(** The text in front of the slash and the number behind it. *)
Definition split_cidr (size all : Z) (s : list Z) : outcome (list Z * Z) :=
  let ip_str := snprintf size s in
  let! bits := match strchr 47 ip_str with
               | Some slash => int_of (tl slash)
               | None => Done all
               end in
  Done (before 47 ip_str, bits).

Definition cidr_mask4 (bits : Z) : Z :=
  if bits >=? 32 then 0xFFFFFFFF
  else if bits <=? 0 then 0
  else u32 (0xFFFFFFFF <<< (32 - bits)).

(** Mask bit, address and mask. *)
Definition rule_cidr4 (env : rules_env) (flag : Z) (s : option (list Z)) : outcome (Z * Z * Z) :=
  match s with
  | None => Done (0, 0, 0)
  | Some s =>
    let! '(ip_str, bits) := split_cidr 64 32 s in
    let addr := inet_addr env ip_str in
    if addr =? INADDR_NONE then Failed
    else if (bits <? 0) || (bits >? 32) then Failed
    else Done (flag, ntohl addr, cidr_mask4 bits)
  end.

(** [for (int i = 0; i < 16; i++)]; [n] is [16 - i]. *)
Fixpoint cidr_mask6 (n : nat) (bits : Z) : list Z :=
  match n with
  | O => []
  | S n =>
    if bits >=? 8 then 0xFF :: cidr_mask6 n (bits - 8)
    else if bits >? 0 then u8 (0xFF <<< (8 - bits)) :: cidr_mask6 n 0
    else 0 :: cidr_mask6 n bits
  end.

Definition rule_cidr6 (env : rules_env) (flag : Z) (s : option (list Z))
    : outcome (Z * list Z * list Z) :=
  match s with
  | None => Done (0, zero16, zero16)
  | Some s =>
    let! '(ip_str, bits) := split_cidr 128 128 s in
    match inet_pton env ip_str with
    | None => Failed
    | Some ip =>
      if (bits <? 0) || (bits >? 128) then Failed
      else Done (flag, ip, cidr_mask6 16 bits)
    end
  end.

(** A port or two ports with a dash, stored in 16 bits. *)
Definition port_range (s : list Z) : outcome (Z * Z) :=
  let pr_str := snprintf 32 s in
  match strchr 45 pr_str with
  | Some dash =>
    let! lo := int_of (before 45 pr_str) in
    let! hi := int_of (tl dash) in
    Done (u16 lo, u16 hi)
  | None => let! p := int_of pr_str in Done (u16 p, u16 p)
  end.

(** ICMP type and code. *)
Definition type_code (s : list Z) : outcome (Z * Z) :=
  let pr_str := snprintf 32 s in
  let! type := int_of pr_str in
  let! code := match strchr 47 pr_str with Some slash => int_of (tl slash) | None => Done 0 end in
  Done (u16 type, u16 code).

Definition rule_src_port (icmp proto : Z) (s : option (list Z)) : outcome (Z * (Z * Z)) :=
  match s with
  | Some s => if proto =? icmp then Done (0, (0, 0))
              else let! r := port_range s in Done (MATCH_SRC_PORT, r)
  | None => Done (0, (0, 0))
  end.

(** Mask bit, source and destination ports.  Type and code share the members
    of the source and the destination ports. *)
Definition rule_dst_port (icmp proto : Z) (src : Z * Z) (s : option (list Z))
    : outcome (Z * (Z * Z) * (Z * Z)) :=
  match s with
  | None => Done (0, src, (0, 0))
  | Some s =>
    if proto =? icmp then
      let! '(type, code) := type_code s in Done (MATCH_DST_PORT, (type, type), (code, code))
    else let! r := port_range s in Done (MATCH_DST_PORT, src, r)
  end.

(** [if (strcasecmp(s, a) == 0) x else if (strcasecmp(s, b) == 0) y], 0 otherwise. *)
Definition rule_choice (flag : Z) (a : list Z) (x : Z) (b : list Z) (y : Z) (s : option (list Z)) : Z * Z :=
  match s with
  | None => (0, 0)
  | Some s => (flag, if strcaseeq s a then x else if strcaseeq s b then y else 0)
  end.

Definition rule_ttl (s : option (list Z)) : outcome (Z * Z) :=
  match s with
  | None => Done (0, 0)
  | Some s => let! v := int_of s in Done (MATCH_TTL, u8 v)
  end.

(** Mask bit, flags and mask. *)
Definition rule_tcp_flags (s m : option (list Z)) : Z * Z * Z :=
  if is_option_active s then
    (MATCH_TCP_FLAGS, parse_tcp_flags s, if is_option_active m then parse_tcp_flags m else 0xFF)
  else (0, 0, 0).

(** The members from the ports on; [mask] and [proto] are what was set
    before. *)
Definition extended_tail (icmp : Z) (opt : ebpfdivert_rule_opt) (mask proto : Z)
    : outcome pf_rule_common :=
  let! '(sm, src) := rule_src_port icmp proto (active (opt_src_port_range opt)) in
  let! '(pm, (ss, se), (ds, de)) := rule_dst_port icmp proto src (active (opt_dst_port_range opt)) in
  let '(dm, dir) := rule_choice MATCH_DIRECTION (chars "ingress") 1 (chars "egress") 2
                      (active (opt_direction opt)) in
  let '(lm, lo) := rule_choice MATCH_LOOPBACK (chars "yes") 1 (chars "no") 0
                     (active (opt_loopback opt)) in
  let! '(tm, ttl) := rule_ttl (active (opt_ttl opt)) in
  let '(fm, fl, flm) := rule_tcp_flags (opt_tcp_flags opt) (opt_tcp_flags_mask opt) in
  Done (mkCommon (mask ||| sm ||| pm ||| dm ||| lm ||| tm ||| fm) (opt_invert_mask opt) proto dir lo
          ttl fl flm ss se ds de).

(** ** The two rules of [ebpfdivert_rules_add_extended] *)

Definition extended_rule4 (env : rules_env) (opt : ebpfdivert_rule_opt) : outcome filter_rule :=
  let! '(pm, proto) := rule_proto strcaseeq (chars "icmp") 1 (active (opt_proto opt)) in
  let am := action_mask (opt_action opt) in
  let! '(sm, sip, smask) := rule_cidr4 env MATCH_SRC_IP (active (opt_src_ip_cidr opt)) in
  let! '(dm, dip, dmask) := rule_cidr4 env MATCH_DST_IP (active (opt_dst_ip_cidr opt)) in
  let! c := extended_tail 1 opt (MATCH_ENABLED ||| pm ||| am ||| sm ||| dm) proto in
  Done (mkRule4 sip dip smask dmask c).

Definition extended_rule6 (env : rules_env) (opt : ebpfdivert_rule_opt) : outcome filter_rule_ipv6 :=
  let! '(pm, proto) := rule_proto strcaseeq (chars "icmpv6") 58 (active (opt_proto opt)) in
  let am := action_mask (opt_action opt) in
  let! '(sm, sip, smask) := rule_cidr6 env MATCH_SRC_IP (active (opt_src_ip_cidr opt)) in
  let! '(dm, dip, dmask) := rule_cidr6 env MATCH_DST_IP (active (opt_dst_ip_cidr opt)) in
  let! c := extended_tail 58 opt (MATCH_ENABLED ||| pm ||| am ||| sm ||| dm) proto in
  Done (mkRule6 sip dip smask dmask c).

Definition has_char (c : Z) (s : option (list Z)) : bool :=
  match s with
  | Some s => match strchr c s with Some _ => true | None => false end
  | None => false
  end.

Definition is_ipv6 (opt : ebpfdivert_rule_opt) : bool :=
  has_char 58 (opt_src_ip_cidr opt) || has_char 58 (opt_dst_ip_cidr opt) ||
  match opt_proto opt with Some s => streq s (chars "icmpv6") | None => false end.

(** ** Writing the tables *)

(** [bpf_map_update_elem] of one entry and the return value; an entry is
    stored only when the call succeeds. *)
Definition put_rule {R} (update : Z -> Z) (idx : Z) (r : outcome R) (table : list R)
    : option (Z * list R) :=
  match r with
  | Undefined => None
  | Failed => Some (-1, table)
  | Done r => if update idx =? 0 then Some (0, set_nth (Z.to_nat idx) r table) else Some (-1, table)
  end.

Definition put_rule4 (env : rules_env) (idx : Z) (r : outcome filter_rule) (maps : rule_maps)
    : option (Z * rule_maps) :=
  option_map (fun '(ret, t) => (ret, mkMaps t (filter_rules_ipv6 maps)))
    (put_rule (update4 env) idx r (filter_rules maps)).

Definition put_rule6 (env : rules_env) (idx : Z) (r : outcome filter_rule_ipv6) (maps : rule_maps)
    : option (Z * rule_maps) :=
  option_map (fun '(ret, t) => (ret, mkMaps (filter_rules maps) t))
    (put_rule (update6 env) idx r (filter_rules_ipv6 maps)).

(** The maps are pinned and the index is one of the table. *)
Definition maps_missing (env : rules_env) : bool := (obj_get4 env <? 0) || (obj_get6 env <? 0).
Definition bad_index (idx : Z) : bool := (idx <? 0) || (idx >=? MAX_RULES).

(** Return value and tables; [None] is undefined behaviour. *)
Definition ebpfdivert_rules_add_extended (env : rules_env) (idx : Z)
    (opt : option ebpfdivert_rule_opt) (maps : rule_maps) : option (Z * rule_maps) :=
  match opt with
  | None => Some (-1, maps)
  | Some opt =>
    if maps_missing env then Some (-1, maps)
    else if bad_index idx then Some (-1, maps)
    else if negb (is_ipv6 opt) then put_rule4 env idx (extended_rule4 env opt) maps
    else put_rule6 env idx (extended_rule6 env opt) maps
  end.

(** ** [ebpfdivert_rules_add]: destination only *)

(** The text unless it is [any]. *)
Definition unless_any (s : list Z) : option (list Z) :=
  if streq s (chars "any") then None else Some s.

Definition simple_rule4 (env : rules_env) (proto ip_cidr port action : list Z) : outcome filter_rule :=
  let! '(pm, proto) := rule_proto streq (chars "icmp") 1 (unless_any proto) in
  let am := action_mask (Some action) in
  let! '(dm, dip, dmask) := rule_cidr4 env MATCH_DST_IP (unless_any ip_cidr) in
  let! '(om, (ss, se), (ds, de)) := rule_dst_port 1 proto (0, 0) (unless_any port) in
  Done (mkRule4 0 dip 0 dmask
          (mkCommon (MATCH_ENABLED ||| pm ||| am ||| dm ||| om) 0 proto 0 0 0 0 0 ss se ds de)).

Definition simple_rule6 (env : rules_env) (proto ip_cidr port action : list Z)
    : outcome filter_rule_ipv6 :=
  let! '(pm, proto) := rule_proto streq (chars "icmpv6") 58 (unless_any proto) in
  let am := action_mask (Some action) in
  let! '(dm, dip, dmask) := rule_cidr6 env MATCH_DST_IP (unless_any ip_cidr) in
  let! '(om, (ss, se), (ds, de)) := rule_dst_port 58 proto (0, 0) (unless_any port) in
  Done (mkRule6 zero16 dip zero16 dmask
          (mkCommon (MATCH_ENABLED ||| pm ||| am ||| dm ||| om) 0 proto 0 0 0 0 0 ss se ds de)).

Definition ebpfdivert_rules_add (env : rules_env) (idx : Z)
    (proto ip_cidr port_range action : option (list Z)) (maps : rule_maps) : option (Z * rule_maps) :=
  match proto, ip_cidr, port_range, action with
  | Some proto, Some ip_cidr, Some port_range, Some action =>
    if maps_missing env then Some (-1, maps)
    else if bad_index idx then Some (-1, maps)
    else if negb (has_char 58 (Some ip_cidr) || streq proto (chars "icmpv6"))
    then put_rule4 env idx (simple_rule4 env proto ip_cidr port_range action) maps
    else put_rule6 env idx (simple_rule6 env proto ip_cidr port_range action) maps
  | _, _, _, _ => Some (-1, maps)
  end.

(** ** [ebpfdivert_rules_clear] *)

(** [for (__u32 i = 0; i < MAX_RULES; i++)], the results of the updates
    ignored; [n] is [MAX_RULES - i]. *)
Fixpoint clear_loop {R} (update : Z -> Z) (zero : R) (n : nat) (i : Z) (table : list R) : list R :=
  match n with
  | O => table
  | S n =>
    clear_loop update zero n (i + 1)
      (if update i =? 0 then set_nth (Z.to_nat i) zero table else table)
  end.

Definition ebpfdivert_rules_clear (env : rules_env) (maps : rule_maps) : Z * rule_maps :=
  if maps_missing env then (-1, maps)
  else
    (0, mkMaps (clear_loop (update4 env) zero_rule4 (Z.to_nat MAX_RULES) 0 (filter_rules maps))
               (clear_loop (update6 env) zero_rule6 (Z.to_nat MAX_RULES) 0 (filter_rules_ipv6 maps))).
