(* ===== verification/EbMeaning.v ===== *)
(** * What a pinned rule matches

    The options of [ebpfdivert_rules_add_extended] as an administrator
    writes them ([rule_spec]), their texts, and the packets they mean.  The
    rule that [EbRules] builds from the texts is matched by the kernel
    functions of [BpfMatch] for exactly those packets; a table of such rules
    decides by the first of them that matches. *)

From Stdlib Require Import Ascii String ZArith List Bool Lia ZifyBool.
From S2P Require Import Prelude WdTypes WdPacket WdExec WdSerial WdAddr CString.
From S2P Require Import PfRange PfAddr PfCube PfEncode BpfParse BpfMatch EbRules.
Import ListNotations.
#[local] Open Scope list_scope.
#[local] Open Scope Z_scope.

(** ** Specifications *)

(** [A] is the type of addresses; a prefix is an address with a length. *)
Record rule_spec (A : Type) : Type := mkSpec {
  sp_proto : option Z;
  sp_src : option (A * Z);
  sp_dst : option (A * Z);
  sp_sport : option (Z * Z);
  sp_dport : option (Z * Z);
  sp_dir : option bool;                    (* true: ingress *)
  sp_loopback : option bool;
  sp_ttl : option Z;
  sp_flags : option (Z * Z);               (* flags and mask *)
  sp_action : Z;
  sp_invert : Z
}.

Arguments sp_proto {A}.
Arguments sp_src {A}.
Arguments sp_dst {A}.
Arguments sp_sport {A}.
Arguments sp_dport {A}.
Arguments sp_dir {A}.
Arguments sp_loopback {A}.
Arguments sp_ttl {A}.
Arguments sp_flags {A}.
Arguments sp_action {A}.
Arguments sp_invert {A}.
Arguments mkSpec {A}.

Definition is_some {A} (o : option A) : bool := match o with Some _ => true | None => false end.

Definition value {A B} (f : A -> B) (d : B) (o : option A) : B :=
  match o with Some x => f x | None => d end.

Definition all_some {A} (P : A -> Prop) (o : option A) : Prop := forall x, o = Some x -> P x.

Definition range16 (r : Z * Z) : Prop := 0 <= fst r < 2 ^ 16 /\ 0 <= snd r < 2 ^ 16.

(** The numbers fit their fields; ICMP has no ports; the loopback condition is
    not inverted, which the program does not implement. *)
Record spec_ok {A} (addr : A -> Prop) (width icmp : Z) (s : rule_spec A) : Prop := {
  ok_proto : all_some (fun p => 0 <= p < 256) (sp_proto s);
  ok_src : all_some (fun a => addr (fst a) /\ 0 <= snd a <= width) (sp_src s);
  ok_dst : all_some (fun a => addr (fst a) /\ 0 <= snd a <= width) (sp_dst s);
  ok_sport : all_some range16 (sp_sport s);
  ok_dport : all_some range16 (sp_dport s);
  ok_icmp : sp_proto s = Some icmp -> sp_sport s = None /\ sp_dport s = None;
  ok_ttl : all_some (fun t => 0 <= t < 256) (sp_ttl s);
  ok_flags : all_some (fun f => 0 <= fst f < 256 /\ 0 <= snd f < 256) (sp_flags s);
  ok_action : is_action (sp_action s);
  ok_loopback : is_some (sp_loopback s) = true -> has (sp_invert s) MATCH_LOOPBACK = false
}.

(** ** Meaning *)

Definition in_prefix (width : Z) (a n x : Z) : bool := x / 2 ^ (width - n) =? a / 2 ^ (width - n).

(** A condition that may be absent, inverted by its bit. *)
Definition meets {A} (inv flag : Z) (o : option A) (f : A -> bool) : bool :=
  match o with None => true | Some x => xorb (f x) (has inv flag) end.

Definition within (r : Z * Z) (p : Z) : bool := (fst r <=? p) && (p <=? snd r).

(** [src] and [dst] tell whether an address of the packet is in a prefix.
    The loopback condition cannot be inverted. *)
Definition spec_matches {A} (src dst : A * Z -> bool) (s : rule_spec A) (pkt : parsed_packet)
    (direction : Z) : bool :=
  let inv := sp_invert s in
  meets inv MATCH_SRC_IP (sp_src s) src &&
  meets inv MATCH_DST_IP (sp_dst s) dst &&
  meets inv MATCH_SRC_PORT (sp_sport s) (fun r => within r (src_port pkt)) &&
  meets inv MATCH_DST_PORT (sp_dport s) (fun r => within r (dst_port pkt)) &&
  meets inv MATCH_PROTO (sp_proto s) (fun p => proto pkt =? p) &&
  meets inv MATCH_DIRECTION (sp_dir s) (fun d => direction =? if d : bool then DIR_INGRESS else DIR_EGRESS) &&
  meets inv MATCH_TTL (sp_ttl s) (fun t => ttl pkt =? t) &&
  meets inv MATCH_TCP_FLAGS (sp_flags s) (fun f => (tcp_flags pkt &&& snd f) =? fst f) &&
  meets inv MATCH_LOOPBACK (sp_loopback s) (fun b => is_lo pkt =? b2z b).

Definition spec4_matches (s : rule_spec Z) (pkt : parsed_packet) (direction : Z) : bool :=
  spec_matches (fun '(a, n) => in_prefix 32 a n (src_ip pkt))
    (fun '(a, n) => in_prefix 32 a n (dst_ip pkt)) s pkt direction.

(** The number whose digits in base 256 are the bytes. *)
Fixpoint net_value (l : list Z) : Z :=
  match l with
  | [] => 0
  | b :: l => b * 2 ^ (8 * zlen l) + net_value l
  end.

Definition spec6_matches (s : rule_spec (list Z)) (pkt : parsed_packet) (direction : Z) : bool :=
  spec_matches (fun '(a, n) => in_prefix 128 (net_value a) n (net_value (src_ip6 pkt)))
    (fun '(a, n) => in_prefix 128 (net_value a) n (net_value (dst_ip6 pkt))) s pkt direction.

(** ** Texts *)

Definition proto_text (icmp_name : list Z) (icmp p : Z) : list Z :=
  if p =? 6 then chars "tcp"
  else if p =? 17 then chars "udp"
  else if p =? icmp then icmp_name
  else decimal p.

Definition cidr_text {A} (text : A -> list Z) (a : A * Z) : list Z := text (fst a) ++ 47 :: decimal (snd a).

Definition range_text (r : Z * Z) : list Z := decimal (fst r) ++ 45 :: decimal (snd r).

Definition hex_digit (d : Z) : Z := if d <? 10 then 48 + d else 87 + d.

Definition flags_text (f : Z) : list Z := [48; 120; hex_digit (f / 16); hex_digit (f mod 16)].

Definition action_text (a : Z) : list Z :=
  if a =? MATCH_DROP then chars "drop" else if a =? MATCH_SNIFF then chars "sniff" else chars "divert".

(** The options of a specification; [absent] is passed for what it does not
    constrain. *)
Definition spec_opts {A} (text : A -> list Z) (icmp_name : list Z) (icmp : Z) (absent : option (list Z))
    (s : rule_spec A) : ebpfdivert_rule_opt :=
  let opt {B} (f : B -> list Z) (o : option B) := value (fun x => Some (f x)) absent o in
  {| opt_proto := opt (proto_text icmp_name icmp) (sp_proto s);
     opt_src_ip_cidr := opt (cidr_text text) (sp_src s);
     opt_dst_ip_cidr := opt (cidr_text text) (sp_dst s);
     opt_src_port_range := opt range_text (sp_sport s);
     opt_dst_port_range := opt range_text (sp_dport s);
     opt_action := Some (action_text (sp_action s));
     opt_direction := opt (fun d : bool => if d then chars "ingress" else chars "egress") (sp_dir s);
     opt_loopback := opt (fun b : bool => if b then chars "yes" else chars "no") (sp_loopback s);
     opt_ttl := opt decimal (sp_ttl s);
     opt_tcp_flags := opt (fun f => flags_text (fst f)) (sp_flags s);
     opt_tcp_flags_mask := opt (fun f => flags_text (snd f)) (sp_flags s);
     opt_invert_mask := sp_invert s |}.

(** ** The rules *)

Definition spec_mask {A} (s : rule_spec A) : Z :=
  MATCH_ENABLED ||| flag_if (is_some (sp_proto s)) MATCH_PROTO ||| sp_action s |||
  flag_if (is_some (sp_src s)) MATCH_SRC_IP ||| flag_if (is_some (sp_dst s)) MATCH_DST_IP |||
  flag_if (is_some (sp_sport s)) MATCH_SRC_PORT ||| flag_if (is_some (sp_dport s)) MATCH_DST_PORT |||
  flag_if (is_some (sp_dir s)) MATCH_DIRECTION ||| flag_if (is_some (sp_loopback s)) MATCH_LOOPBACK |||
  flag_if (is_some (sp_ttl s)) MATCH_TTL ||| flag_if (is_some (sp_flags s)) MATCH_TCP_FLAGS.

Definition spec_common {A} (s : rule_spec A) : pf_rule_common :=
  {| match_mask := spec_mask s; invert_mask := sp_invert s;
     rc_proto := value id 0 (sp_proto s);
     rc_direction := value (fun d : bool => if d then DIR_INGRESS else DIR_EGRESS) 0 (sp_dir s);
     rc_loopback := value b2z 0 (sp_loopback s);
     rc_ttl := value id 0 (sp_ttl s);
     rc_tcp_flags := value fst 0 (sp_flags s);
     rc_tcp_flags_mask := value snd 0 (sp_flags s);
     src_port_start := value fst 0 (sp_sport s); src_port_end := value snd 0 (sp_sport s);
     dst_port_start := value fst 0 (sp_dport s); dst_port_end := value snd 0 (sp_dport s) |}.

Definition spec_rule4 (s : rule_spec Z) : filter_rule :=
  mkRule4 (value fst 0 (sp_src s)) (value fst 0 (sp_dst s))
    (value (fun a => cidr_mask4 (snd a)) 0 (sp_src s)) (value (fun a => cidr_mask4 (snd a)) 0 (sp_dst s))
    (spec_common s).

Definition spec_rule6 (s : rule_spec (list Z)) : filter_rule_ipv6 :=
  mkRule6 (value fst zero16 (sp_src s)) (value fst zero16 (sp_dst s))
    (value (fun a => cidr_mask6 16 (snd a)) zero16 (sp_src s))
    (value (fun a => cidr_mask6 16 (snd a)) zero16 (sp_dst s))
    (spec_common s).

(** ** Prefix masks *)

Lemma prefix_mask w k x y m : 0 <= k <= w -> 0 <= x < 2 ^ w -> 0 <= y < 2 ^ w ->
  m = Z.ones (w - k) <<< k ->
  ((x &&& m) =? (y &&& m)) = (x / 2 ^ k =? y / 2 ^ k).
Proof.
  intros Hk Hx Hy ->.
  assert (E : forall z, 0 <= z < 2 ^ w -> z &&& (Z.ones (w - k) <<< k) = 2 ^ k * (z / 2 ^ k)).
  { intros z Hz. rewrite Z.land_comm, land_shiftl_l, Z.land_comm, Z.land_ones by lia.
    rewrite Z.shiftr_div_pow2, Z.shiftl_mul_pow2 by lia. rewrite Z.mod_small; [ring|].
    split; [apply Z.div_pos; lia|]. apply Z.div_lt_upper_bound; [lia|].
    rewrite <- Z.pow_add_r by lia. now replace (k + (w - k)) with w by lia. }
  rewrite !E by assumption. pose proof (Z.pow_pos_nonneg 2 k ltac:(lia) ltac:(lia)).
  destruct (Z.eqb_spec (x / 2 ^ k) (y / 2 ^ k)) as [->|N]; [apply Z.eqb_refl|]. apply Z.eqb_neq. nia.
Qed.

Lemma shifted_ones w k : 0 <= k <= w -> (Z.ones w <<< k) mod 2 ^ w = Z.ones (w - k) <<< k.
Proof.
  intros H. rewrite <- Z.land_ones by lia. apply Z.bits_inj'. intros i Hi.
  rewrite Z.land_spec, !Z.shiftl_spec, !Z.testbit_ones by lia. lia.
Qed.

Lemma cidr_mask4_ones n : 0 <= n <= 32 -> cidr_mask4 n = Z.ones (32 - (32 - n)) <<< (32 - n).
Proof.
  intros H. unfold cidr_mask4. destruct (Z.geb_spec n 32); [now replace n with 32 by lia|].
  destruct (Z.leb_spec n 0); [now replace n with 0 by lia|].
  unfold u32. change 0xFFFFFFFF with (Z.ones 32). apply shifted_ones. lia.
Qed.

Lemma cidr_mask4_prefix a n x : 0 <= n <= 32 -> 0 <= a < 2 ^ 32 -> 0 <= x < 2 ^ 32 ->
  ((x &&& cidr_mask4 n) =? (a &&& cidr_mask4 n)) = in_prefix 32 a n x.
Proof. intros Hn Ha Hx. apply (prefix_mask 32); try lia. now apply cidr_mask4_ones. Qed.

Lemma net_value_bound l : bytes l -> 0 <= net_value l < 2 ^ (8 * zlen l).
Proof.
  induction 1 as [|b l Hb _ IH]; [now split|]. cbn [net_value]. rewrite zlen_cons.
  replace (8 * (1 + zlen l)) with (8 + 8 * zlen l) by lia. pose proof (zlen_nonneg l).
  rewrite Z.pow_add_r by lia. unfold is_byte in Hb. change (2 ^ 8) with 256. nia.
Qed.

Lemma cidr_mask6_length n : forall bits, length (cidr_mask6 n bits) = n.
Proof. induction n as [|n IH]; intros bits; cbn [cidr_mask6]; [reflexivity|]. repeat case_if; cbn; now rewrite IH. Qed.

Lemma cidr_mask6_bytes n : forall bits, bytes (cidr_mask6 n bits).
Proof.
  induction n as [|n IH]; intros bits; cbn [cidr_mask6]; [constructor|].
  repeat case_if; constructor; try apply IH; try (unfold is_byte; lia).
  apply Z.mod_pos_bound. reflexivity.
Qed.

Lemma bytes_eq_zero n : forall x ip, bytes_eq x ip (cidr_mask6 n 0) = true.
Proof.
  induction n as [|n IH]; intros [|b x] [|i ip]; cbn [cidr_mask6 bytes_eq]; try reflexivity.
  cbn. now rewrite !Z.land_0_r, IH.
Qed.

(** Leading bytes, [k] bits of the rest. *)
Lemma div_lead b v m k : 0 <= k <= m -> (b * 2 ^ m + v) / 2 ^ k = b * 2 ^ (m - k) + v / 2 ^ k.
Proof.
  intros H. replace (b * 2 ^ m) with (b * 2 ^ (m - k) * 2 ^ k).
  - rewrite Z.div_add_l by (apply Z.pow_nonzero; lia). reflexivity.
  - rewrite <- Z.mul_assoc, <- Z.pow_add_r by lia. do 2 f_equal. lia.
Qed.

Lemma div_trail b v m k : 0 <= m -> 0 <= k -> 0 <= v < 2 ^ m -> (b * 2 ^ m + v) / 2 ^ (m + k) = b / 2 ^ k.
Proof.
  intros Hm Hk Hv. rewrite Z.pow_add_r, <- Z.div_div by lia.
  rewrite Z.div_add_l, (Z.div_small v) by lia. now rewrite Z.add_0_r.
Qed.

Lemma split_eq a v b w m : 0 <= v < m -> 0 <= w < m -> (a * m + v =? b * m + w) = (a =? b) && (v =? w).
Proof. intros. destruct (Z.eqb_spec a b) as [->|], (Z.eqb_spec v w) as [->|]; cbn; nia. Qed.

(** The loop of [rules_add_extended] builds the mask of a prefix. *)
Lemma cidr_mask6_prefix : forall x ip bits, length x = length ip -> bytes x -> bytes ip ->
  0 <= bits <= 8 * zlen x ->
  bytes_eq x ip (cidr_mask6 (length x) bits) =
  in_prefix (8 * zlen x) (net_value ip) bits (net_value x).
Proof.
  unfold in_prefix. induction x as [|b x IH]; intros [|i ip] bits L Hx Hip Hb; try discriminate L; [reflexivity|].
  inversion Hx as [|? ? Bb Bx]; inversion Hip as [|? ? Bi Bip]; subst. cbn [length] in L. injection L as L.
  assert (Lz : zlen ip = zlen x) by (unfold zlen; lia). rewrite zlen_cons in *. pose proof (zlen_nonneg x).
  pose proof (net_value_bound x Bx) as Vx. pose proof (net_value_bound ip Bip) as Vi. rewrite Lz in Vi.
  cbn [length cidr_mask6 net_value]. rewrite Lz. unfold is_byte in Bb, Bi.
  destruct (Z.geb_spec bits 8) as [G|G].
  - cbn [bytes_eq]. rewrite IH by (assumption || lia). change 255 with (Z.ones 8).
    rewrite !Z.land_ones, !Z.mod_small by lia.
    replace (8 * (1 + zlen x) - bits) with (8 * zlen x - (bits - 8)) by lia.
    rewrite !div_lead by lia. rewrite split_eq; [reflexivity|..];
      (split; [apply Z.div_pos; lia|apply Z.div_lt_upper_bound; [lia|]];
       rewrite <- Z.pow_add_r by lia; eapply Z.lt_le_trans; [first [apply Vx|apply Vi]|];
       apply Z.pow_le_mono_r; lia).
  - destruct (Z.gtb_spec bits 0) as [P|P].
    + cbn [bytes_eq]. rewrite bytes_eq_zero, andb_true_r.
      replace (8 * (1 + zlen x) - bits) with (8 * zlen x + (8 - bits)) by lia.
      rewrite !div_trail by lia. unfold u8. change 0xFF with (Z.ones 8).
      rewrite shifted_ones by lia. apply (prefix_mask 8); try reflexivity; lia.
    + replace bits with 0 by lia. change (0 :: cidr_mask6 (length x) 0) with (cidr_mask6 (S (length x)) 0).
      rewrite bytes_eq_zero. symmetry. apply Z.eqb_eq.
      replace (8 * (1 + zlen x) - 0) with (8 * zlen x + 8) by lia. rewrite !div_trail by lia.
      now rewrite !Z.div_small by lia.
Qed.

(** ** The texts are read back *)

Lemma active_char c s : In c s -> ~ In c (chars "any") -> is_option_active (Some s) = true.
Proof.
  intros Hc Ha. unfold is_option_active. destruct (streq s (chars "any")) eqn:E.
  - apply streq_spec in E. subst s. contradiction.
  - destruct s; [destruct Hc|]. rewrite zlen_cons. pose proof (zlen_nonneg s). cbn. lia.
Qed.

Lemma active_decimal v : 0 <= v < 2 ^ 32 -> is_option_active (Some (decimal v)) = true.
Proof.
  intros H. destruct (decimal_digits v H) as (D & N & _). destruct (decimal v) as [|c d]; [congruence|].
  pose proof (digit_bounds _ c D (or_introl eq_refl)). apply (active_char c); [now left|]. cbn. lia.
Qed.

Lemma active_slash s t : is_option_active (Some (s ++ 47 :: t)) = true.
Proof. apply (active_char 47); [apply in_elt|]. cbn. lia. Qed.

Lemma active_dash s t : is_option_active (Some (s ++ 45 :: t)) = true.
Proof. apply (active_char 45); [apply in_elt|]. cbn. lia. Qed.

(** An option that does not constrain is not active. *)
Lemma active_value {B} (f : B -> list Z) absent o : is_option_active absent = false ->
  all_some (fun x => is_option_active (Some (f x)) = true) o ->
  active (value (fun x => Some (f x)) absent o) = option_map f o.
Proof.
  intros Ha H. unfold active. destruct o as [x|]; cbn [value option_map]; [now rewrite (H x eq_refl)|].
  now rewrite Ha.
Qed.

Lemma int_of_decimal v rest : 0 <= v < 2 ^ 31 -> digit_of (hd 0 rest) >= 10 ->
  int_of (decimal v ++ rest) = Done v.
Proof. intros H Hr. unfold int_of. now rewrite atoi_decimal. Qed.

Lemma int_of_plain v : 0 <= v < 2 ^ 31 -> int_of (decimal v) = Done v.
Proof. intros H. unfold int_of. now rewrite atoi_plain. Qed.

(** The protocol without ports of each table. *)
Definition icmp_kind (name : list Z) (icmp : Z) : Prop :=
  (name = chars "icmp" /\ icmp = 1) \/ (name = chars "icmpv6" /\ icmp = 58).

Lemma active_proto name icmp p : icmp_kind name icmp -> 0 <= p < 256 ->
  is_option_active (Some (proto_text name icmp p)) = true.
Proof.
  intros K Hp. unfold proto_text. repeat case_if; try reflexivity; [|apply active_decimal; lia].
  destruct K as [[-> _]|[-> _]]; reflexivity.
Qed.

Lemma proto_number_text name icmp p : icmp_kind name icmp -> 0 <= p < 256 ->
  proto_number strcaseeq name icmp (proto_text name icmp p) = Done p.
Proof.
  intros K Hp. unfold proto_text.
  destruct (Z.eqb_spec p 6) as [->|]; [reflexivity|]. destruct (Z.eqb_spec p 17) as [->|]; [reflexivity|].
  destruct (Z.eqb_spec p icmp) as [->|].
  - destruct K as [[-> ->]|[-> ->]]; reflexivity.
  - unfold proto_number. rewrite !decimal_not_case_name by (lia || reflexivity).
    replace (strcaseeq (decimal p) name) with false
      by (destruct K as [[-> _]|[-> _]]; symmetry; apply decimal_not_case_name; (lia || reflexivity)).
    rewrite int_of_plain by lia. cbn [bind]. unfold u8. now rewrite Z.mod_small by lia.
Qed.

Lemma rule_proto_text name icmp o : icmp_kind name icmp -> all_some (fun p => 0 <= p < 256) o ->
  rule_proto strcaseeq name icmp (option_map (proto_text name icmp) o) =
  Done (flag_if (is_some o) MATCH_PROTO, value id 0 o).
Proof.
  intros K H. destruct o as [p|]; [|reflexivity]. cbn [option_map rule_proto].
  rewrite proto_number_text by (exact K || now apply H). reflexivity.
Qed.

Lemma action_mask_text a : is_action a -> action_mask (Some (action_text a)) = a.
Proof. intros [->|[->| ->]]; reflexivity. Qed.

Lemma split_cidr_text {A} (text : A -> list Z) size all a n : ~ In 47 (text a) -> 0 <= n <= 128 ->
  zlen (text a) + 4 < size -> split_cidr size all (cidr_text text (a, n)) = Done (text a, n).
Proof.
  intros Ha Hn Hs. unfold split_cidr, cidr_text. cbn [fst snd].
  pose proof (decimal_length 2 n ltac:(change (10 ^ Z.of_nat 3) with 1000; lia) ltac:(lia)) as L.
  rewrite snprintf_fits by (rewrite zlen_app, zlen_cons; lia).
  rewrite strchr_at, before_at by exact Ha. cbn [tl]. rewrite int_of_plain by lia. reflexivity.
Qed.

Lemma port_range_text r : range16 r -> port_range (range_text r) = Done r.
Proof.
  destruct r as [lo hi]. intros [Hl Hh]. cbn [fst snd] in *. unfold port_range, range_text. cbn [fst snd].
  pose proof (decimal_length 4 lo ltac:(change (10 ^ Z.of_nat 5) with 100000; lia) ltac:(lia)).
  pose proof (decimal_length 4 hi ltac:(change (10 ^ Z.of_nat 5) with 100000; lia) ltac:(lia)).
  rewrite snprintf_fits by (rewrite zlen_app, zlen_cons; lia).
  rewrite strchr_at, before_at by (apply decimal_no; lia). cbn [tl].
  rewrite !int_of_plain by lia. cbn [bind]. now rewrite !u16_small by lia.
Qed.

Lemma tcp_flags_text f : 0 <= f < 256 ->
  parse_tcp_flags (Some (flags_text f)) = f /\ is_option_active (Some (flags_text f)) = true.
Proof.
  intros H. split; [|reflexivity]. apply Z.eqb_eq.
  apply (byte_cases (fun f => parse_tcp_flags (Some (flags_text f)) =? f)); [vm_compute; reflexivity|exact H].
Qed.

Section Texts.
Context {A : Type} (addr : A -> Prop) (width : Z) (text : A -> list Z).
Context (name : list Z) (icmp : Z) (absent : option (list Z)) (s : rule_spec A).
Hypothesis Kind : icmp_kind name icmp.
Hypothesis Absent : is_option_active absent = false.
Hypothesis Ok : spec_ok addr width icmp s.

Let opts := spec_opts text name icmp absent s.
Let p := value id 0 (sp_proto s).

(** Only a rule for ICMP is about ICMP. *)
Lemma no_ports : (p =? icmp) = true -> sp_sport s = None /\ sp_dport s = None.
Proof using Kind Ok.
  clear opts. intros E. apply Z.eqb_eq in E. apply (ok_icmp _ _ _ _ Ok). unfold p, value, id in E.
  destruct (sp_proto s); [congruence|]. destruct Kind as [[_ ->]|[_ ->]]; discriminate E.
Qed.

Lemma src_port_text : rule_src_port icmp p (active (opt_src_port_range opts)) =
  Done (flag_if (is_some (sp_sport s)) MATCH_SRC_PORT, value id (0, 0) (sp_sport s)).
Proof using Kind Absent Ok.
  unfold opts, spec_opts. cbn [opt_src_port_range]. rewrite active_value; [|exact Absent|intros r _; apply active_dash].
  pose proof no_ports as N. pose proof (ok_sport _ _ _ _ Ok) as R.
  destruct (sp_sport s) as [r|]; [|reflexivity]. cbn [option_map rule_src_port].
  destruct (p =? icmp); [now destruct (N eq_refl)|]. rewrite port_range_text by now apply R. reflexivity.
Qed.

Lemma dst_port_text src : rule_dst_port icmp p src (active (opt_dst_port_range opts)) =
  Done (flag_if (is_some (sp_dport s)) MATCH_DST_PORT, src, value id (0, 0) (sp_dport s)).
Proof using Kind Absent Ok.
  unfold opts, spec_opts. cbn [opt_dst_port_range]. rewrite active_value; [|exact Absent|intros r _; apply active_dash].
  pose proof no_ports as N. pose proof (ok_dport _ _ _ _ Ok) as R.
  destruct (sp_dport s) as [r|]; [|reflexivity]. cbn [option_map rule_dst_port].
  destruct (p =? icmp); [now destruct (N eq_refl)|]. rewrite port_range_text by now apply R. reflexivity.
Qed.

Lemma ttl_text : rule_ttl (active (opt_ttl opts)) =
  Done (flag_if (is_some (sp_ttl s)) MATCH_TTL, value id 0 (sp_ttl s)).
Proof using Absent Ok.
  pose proof (ok_ttl _ _ _ _ Ok) as R. unfold opts, spec_opts. cbn [opt_ttl].
  rewrite active_value; [|exact Absent|intros t E; apply active_decimal; specialize (R t E); cbn in R; lia].
  destruct (sp_ttl s) as [t|]; [|reflexivity]. specialize (R t eq_refl). cbn in R.
  cbn [option_map rule_ttl]. rewrite int_of_plain by lia. cbn [bind]. unfold u8. now rewrite Z.mod_small by lia.
Qed.

Lemma flags_text_read : rule_tcp_flags (opt_tcp_flags opts) (opt_tcp_flags_mask opts) =
  (flag_if (is_some (sp_flags s)) MATCH_TCP_FLAGS, value fst 0 (sp_flags s), value snd 0 (sp_flags s)).
Proof using Absent Ok.
  pose proof (ok_flags _ _ _ _ Ok) as R. unfold opts, spec_opts, rule_tcp_flags. cbn [opt_tcp_flags opt_tcp_flags_mask].
  destruct (sp_flags s) as [[f m]|]; cbn [value]; [|now rewrite Absent].
  destruct (R _ eq_refl) as [Hf Hm]. cbn [fst snd] in *.
  destruct (tcp_flags_text f Hf) as [-> ->]. destruct (tcp_flags_text m Hm) as [-> ->]. reflexivity.
Qed.

Lemma choice_text flag a x b y (f : bool -> list Z) (o : option bool) (sel : bool -> Z)
    (proj : option (list Z)) : proj = value (fun v => Some (f v)) absent o ->
  (forall v, is_option_active (Some (f v)) = true) ->
  (forall v, (if strcaseeq (f v) a then x else if strcaseeq (f v) b then y else 0) = sel v) ->
  rule_choice flag a x b y (active proj) = (flag_if (is_some o) flag, value sel 0 o).
Proof using Absent.
  intros -> Ha H. rewrite active_value; [|exact Absent|intros v _; apply Ha].
  destruct o as [v|]; [|reflexivity]. cbn [option_map rule_choice is_some flag_if value]. now rewrite H.
Qed.

(** Everything behind the addresses. *)
Lemma tail_text mask : mask = MATCH_ENABLED ||| flag_if (is_some (sp_proto s)) MATCH_PROTO ||| sp_action s |||
    flag_if (is_some (sp_src s)) MATCH_SRC_IP ||| flag_if (is_some (sp_dst s)) MATCH_DST_IP ->
  extended_tail icmp opts mask p = Done (spec_common s).
Proof using Kind Absent Ok.
  intros ->. unfold extended_tail. rewrite src_port_text. cbn [bind]. rewrite dst_port_text. cbn [bind].
  rewrite ttl_text, flags_text_read. unfold opts, spec_opts. cbn [opt_direction opt_loopback opt_invert_mask].
  rewrite (choice_text MATCH_DIRECTION _ _ _ _ (fun d : bool => if d then chars "ingress" else chars "egress")
             (sp_dir s) (fun d : bool => if d then DIR_INGRESS else DIR_EGRESS))
    by (reflexivity || intros []; reflexivity).
  rewrite (choice_text MATCH_LOOPBACK _ _ _ _ (fun b : bool => if b then chars "yes" else chars "no")
             (sp_loopback s) b2z) by (reflexivity || intros []; reflexivity).
  unfold spec_common, spec_mask. destruct (sp_sport s) as [[]|], (sp_dport s) as [[]|]; reflexivity.
Qed.

Lemma proto_text_read : rule_proto strcaseeq name icmp (active (opt_proto opts)) =
  Done (flag_if (is_some (sp_proto s)) MATCH_PROTO, p).
Proof using Kind Absent Ok.
  pose proof (ok_proto _ _ _ _ Ok) as R. unfold opts, spec_opts. cbn [opt_proto].
  rewrite active_value; [now apply rule_proto_text|exact Absent|]. intros q E. apply active_proto; [exact Kind|now apply R].
Qed.
End Texts.

(** ** The rules of the two tables *)

(** The C library reads dotted decimal addresses in network order. *)
Definition reads_dotted (env : rules_env) : Prop :=
  forall a, 0 <= a < 2 ^ 32 -> inet_addr env (ipv4_text a) = htonl a.

(** [text a] is a text of the IPv6 address [a], with a colon and in at most
    45 characters, that the C library reads. *)
Record addr6_ok (env : rules_env) (text : list Z -> list Z) (a : list Z) : Prop := {
  text6_addr : addr16_ok a;
  text6_read : inet_pton env (text a) = Some a;
  text6_colon : In 58 (text a);
  text6_slash : ~ In 47 (text a);
  text6_length : zlen (text a) <= 45
}.

(** Addresses the parser accepts: -1 is its error value. *)
Definition addr4_ok (a : Z) : Prop := 0 <= a < 2 ^ 32 - 1.

Lemma be32_rev p q r t : be32 [p; q; r; t] 0 = ld32 [t; r; q; p] 0.
Proof. change (2 ^ 24 * p + 2 ^ 16 * q + 2 ^ 8 * r + t = t + 2 ^ 8 * r + 2 ^ 16 * q + 2 ^ 24 * p). ring. Qed.

Lemma swap_swap a : 0 <= a < 2 ^ 32 -> ntohl (htonl a) = a.
Proof.
  intros H.
  assert (B : bytes (le32 a)) by (repeat constructor; apply Z.mod_pos_bound; reflexivity).
  assert (E : a = ld32 (le32 a) 0).
  { change (a = a mod 256 + 256 * (a / 256 mod 256) + 65536 * (a / 65536 mod 256) + 16777216 * (a / 16777216 mod 256)).
    Z.to_euclidean_division_equations. lia. }
  rewrite E at 1. change htonl with ntohl. rewrite ntohl_ld32 by exact B. unfold le32 at 1. rewrite be32_rev.
  rewrite ntohl_ld32 by now apply (Forall_rev B). rewrite be32_rev. now symmetry.
Qed.

Lemma ipv4_text_no a c : 0 <= a < 2 ^ 32 -> c < 46 \/ c = 47 \/ 57 < c -> ~ In c (ipv4_text a).
Proof.
  intros H Hc Hi. destruct (ipv4_parts a H) as [Ht _].
  assert (D : forall v, 0 <= v < 256 -> Forall (fun x => x = 46 \/ 48 <= x <= 57) (octet_text v)).
  { intros v Hv. destruct (decimal_digits v ltac:(lia)) as [D _]. apply Forall_forall. intros x Hx.
    right. now apply (digit_bounds (decimal v)). }
  assert (F : Forall (fun x => x = 46 \/ 48 <= x <= 57) (ipv4_text a)).
  { unfold ipv4_text. repeat (apply Forall_app; split);
      try (apply D; (exact Ht || apply Z.mod_pos_bound; lia)); repeat constructor. }
  rewrite Forall_forall in F. specialize (F c Hi). lia.
Qed.

Lemma cidr4_text env flag o : reads_dotted env -> all_some (fun a => addr4_ok (fst a) /\ 0 <= snd a <= 32) o ->
  rule_cidr4 env flag (option_map (cidr_text ipv4_text) o) =
  Done (flag_if (is_some o) flag, value fst 0 o, value (fun a => cidr_mask4 (snd a)) 0 o).
Proof.
  intros He Ho. destruct o as [[a n]|]; [|reflexivity]. destruct (Ho _ eq_refl) as [Ha Hn]. cbn [fst snd] in *.
  unfold addr4_ok in Ha. pose proof (ipv4_text_length a ltac:(lia)).
  cbn [option_map rule_cidr4]. rewrite split_cidr_text by (lia || apply ipv4_text_no; lia). cbn [bind].
  rewrite He by lia. pose proof (swap_swap a ltac:(lia)) as E. destruct (Z.eqb_spec (htonl a) INADDR_NONE) as [F|F].
  - rewrite F in E. change (ntohl INADDR_NONE) with 0xFFFFFFFF in E. lia.
  - rewrite E. replace ((n <? 0) || (n >? 32)) with false by lia. reflexivity.
Qed.

Lemma cidr6_text env text flag o : all_some (fun a => addr6_ok env text (fst a) /\ 0 <= snd a <= 128) o ->
  rule_cidr6 env flag (option_map (cidr_text text) o) =
  Done (flag_if (is_some o) flag, value fst zero16 o, value (fun a => cidr_mask6 16 (snd a)) zero16 o).
Proof.
  intros Ho. destruct o as [[a n]|]; [|reflexivity]. destruct (Ho _ eq_refl) as [Ha Hn]. cbn [fst snd] in *.
  pose proof (text6_length _ _ _ Ha).
  cbn [option_map rule_cidr6]. rewrite split_cidr_text by (lia || apply Ha). cbn [bind].
  rewrite (text6_read _ _ _ Ha). replace ((n <? 0) || (n >? 128)) with false by lia.
  cbn [is_some flag_if value fst snd]. reflexivity.
Qed.

Definition opts4 (absent : option (list Z)) (s : rule_spec Z) : ebpfdivert_rule_opt :=
  spec_opts ipv4_text (chars "icmp") 1 absent s.

Definition opts6 (text : list Z -> list Z) (absent : option (list Z)) (s : rule_spec (list Z)) : ebpfdivert_rule_opt :=
  spec_opts text (chars "icmpv6") 58 absent s.

Lemma extended_rule4_text env absent s : reads_dotted env -> is_option_active absent = false ->
  spec_ok addr4_ok 32 1 s -> extended_rule4 env (opts4 absent s) = Done (spec_rule4 s).
Proof.
  intros He Ha Ok. unfold extended_rule4, opts4.
  assert (K : icmp_kind (chars "icmp") 1) by now left.
  rewrite (proto_text_read addr4_ok 32) by assumption. cbn [bind].
  change (opt_action _) with (Some (action_text (sp_action s))).
  rewrite action_mask_text by apply Ok. unfold spec_opts at 1 2. cbn [opt_src_ip_cidr opt_dst_ip_cidr].
  rewrite !active_value by (exact Ha || intros x _; apply active_slash).
  rewrite !cidr4_text by (exact He || apply Ok). cbn [bind].
  rewrite (tail_text addr4_ok 32) by (assumption || reflexivity). reflexivity.
Qed.

Lemma extended_rule6_text env text absent s : is_option_active absent = false ->
  spec_ok (addr6_ok env text) 128 58 s -> extended_rule6 env (opts6 text absent s) = Done (spec_rule6 s).
Proof.
  intros Ha Ok. unfold extended_rule6, opts6.
  assert (K : icmp_kind (chars "icmpv6") 58) by now right.
  rewrite (proto_text_read (addr6_ok env text) 128) by assumption. cbn [bind].
  change (opt_action _) with (Some (action_text (sp_action s))).
  rewrite action_mask_text by apply Ok. unfold spec_opts at 1 2. cbn [opt_src_ip_cidr opt_dst_ip_cidr].
  rewrite !active_value by (exact Ha || intros x _; apply active_slash).
  rewrite !(cidr6_text _ text) by apply Ok. cbn [bind].
  rewrite (tail_text (addr6_ok env text) 128) by (assumption || reflexivity). reflexivity.
Qed.

(** ** Which table *)

Lemma inactive_cases absent : is_option_active absent = false ->
  absent = None \/ absent = Some (chars "any") \/ absent = Some [].
Proof.
  destruct absent as [[|x t]|]; [now right; right| |now left]. intros H. right. left.
  unfold is_option_active in H. rewrite zlen_cons in H. pose proof (zlen_nonneg t).
  destruct (streq (x :: t) (chars "any")) eqn:E; [apply streq_spec in E; now rewrite E|].
  cbn [negb andb] in H. lia.
Qed.

Lemma has_char_spec c s : has_char c (Some s) = true <-> In c s.
Proof.
  unfold has_char. induction s as [|x s IH]; cbn [strchr In]; [easy|].
  destruct (Z.eqb_spec x c); [tauto|]. rewrite IH. tauto.
Qed.

Lemma cidr4_no_colon absent o : is_option_active absent = false ->
  all_some (fun a => addr4_ok (fst a) /\ 0 <= snd a <= 32) o ->
  has_char 58 (value (fun x => Some (cidr_text ipv4_text x)) absent o) = false.
Proof.
  intros Ha Ho. destruct o as [[a n]|]; cbn [value].
  - destruct (Ho _ eq_refl) as [H Hn]. unfold addr4_ok in H. cbn [fst snd] in *. apply not_true_iff_false.
    rewrite has_char_spec. unfold cidr_text. cbn [fst snd]. rewrite in_app_iff. cbn [In].
    pose proof (ipv4_text_no a 58 ltac:(lia) ltac:(lia)). pose proof (decimal_no n 58 ltac:(lia) ltac:(lia)).
    assert (47 <> 58) by lia. tauto.
  - destruct (inactive_cases _ Ha) as [->|[->| ->]]; reflexivity.
Qed.

Lemma opts4_table absent s : is_option_active absent = false -> spec_ok addr4_ok 32 1 s ->
  is_ipv6 (opts4 absent s) = false.
Proof.
  intros Ha Ok. unfold is_ipv6, opts4, spec_opts. cbn [opt_src_ip_cidr opt_dst_ip_cidr opt_proto].
  rewrite !cidr4_no_colon by (exact Ha || apply Ok). cbn [orb].
  destruct (sp_proto s) as [p|] eqn:E; cbn [value].
  - pose proof (ok_proto _ _ _ _ Ok p E) as Hp. cbn in Hp. unfold proto_text. repeat case_if; try reflexivity.
    apply decimal_not_name; [lia|]. right. reflexivity.
  - destruct (inactive_cases _ Ha) as [->|[->| ->]]; reflexivity.
Qed.

(** Some text of the options is about IPv6. *)
Definition names_ipv6 (s : rule_spec (list Z)) : bool :=
  is_some (sp_src s) || is_some (sp_dst s) || value (fun p => p =? 58) false (sp_proto s).

Lemma opts6_table env text absent s : spec_ok (addr6_ok env text) 128 58 s ->
  names_ipv6 s = true -> is_ipv6 (opts6 text absent s) = true.
Proof.
  intros Ok H. unfold is_ipv6, opts6, spec_opts. cbn [opt_src_ip_cidr opt_dst_ip_cidr opt_proto].
  assert (C : forall o, all_some (fun a => addr6_ok env text (fst a) /\ 0 <= snd a <= 128) o -> is_some o = true ->
            has_char 58 (value (fun x => Some (cidr_text text x)) absent o) = true).
  { intros [[a n]|] Ho E; [|discriminate E]. cbn [value]. apply has_char_spec. unfold cidr_text.
    apply in_or_app. left. apply (text6_colon env). now apply (Ho _ eq_refl). }
  unfold names_ipv6 in H. apply orb_true_iff in H. destruct H as [H|H]; [apply orb_true_iff in H; destruct H as [H|H]|].
  - now rewrite (C _ (ok_src _ _ _ _ Ok) H).
  - rewrite (C _ (ok_dst _ _ _ _ Ok) H). now rewrite orb_true_r.
  - destruct (sp_proto s) as [p|]; [|discriminate H]. cbn [value] in *. apply Z.eqb_eq in H. subst p.
    now rewrite orb_true_r.
Qed.

(** ** What the kernel matches *)

Lemma fails_meets {A} mm inv flag (o : option A) f cond : has mm flag = is_some o ->
  all_some (fun x => cond = f x) o -> fails mm inv flag cond = negb (meets inv flag o f).
Proof.
  intros E H. unfold fails, meets. rewrite E. destruct o as [x|]; [|reflexivity].
  cbn [is_some]. rewrite (H x eq_refl). now destruct (f x), (has inv flag).
Qed.

Lemma if_not (b c : bool) : (if negb b then false else c) = b && c.
Proof. now destruct b. Qed.

Lemma spec_mask_bits {A} (s : rule_spec A) : is_action (sp_action s) ->
  has (spec_mask s) MATCH_ENABLED = true /\ has (spec_mask s) MATCH_FALSE = false /\
  has (spec_mask s) MATCH_LPM_TRIE = false /\
  has (spec_mask s) MATCH_SRC_IP = is_some (sp_src s) /\ has (spec_mask s) MATCH_DST_IP = is_some (sp_dst s) /\
  has (spec_mask s) MATCH_SRC_PORT = is_some (sp_sport s) /\
  has (spec_mask s) MATCH_DST_PORT = is_some (sp_dport s) /\
  has (spec_mask s) MATCH_PROTO = is_some (sp_proto s) /\
  has (spec_mask s) MATCH_DIRECTION = is_some (sp_dir s) /\
  has (spec_mask s) MATCH_TTL = is_some (sp_ttl s) /\
  has (spec_mask s) MATCH_TCP_FLAGS = is_some (sp_flags s) /\
  has (spec_mask s) MATCH_LOOPBACK = is_some (sp_loopback s).
Proof. intros H. unfold spec_mask. destruct H as [->|[->| ->]]; repeat split; has_consts; reflexivity. Qed.

Section Matching.
Context {A : Type} (addr : A -> Prop) (width icmp : Z) (s : rule_spec A).
Hypothesis Ok : spec_ok addr width icmp s.

(** The conditions behind the addresses. *)
Lemma spec_common_matches pkt dir : matches_common pkt (spec_common s) dir =
  meets (sp_invert s) MATCH_SRC_PORT (sp_sport s) (fun r => within r (src_port pkt)) &&
  (meets (sp_invert s) MATCH_DST_PORT (sp_dport s) (fun r => within r (dst_port pkt)) &&
  (meets (sp_invert s) MATCH_PROTO (sp_proto s) (fun p => proto pkt =? p) &&
  (meets (sp_invert s) MATCH_DIRECTION (sp_dir s)
     (fun d => dir =? if d : bool then DIR_INGRESS else DIR_EGRESS) &&
  (meets (sp_invert s) MATCH_TTL (sp_ttl s) (fun t => ttl pkt =? t) &&
  (meets (sp_invert s) MATCH_TCP_FLAGS (sp_flags s) (fun f => (tcp_flags pkt &&& snd f) =? fst f) &&
   meets (sp_invert s) MATCH_LOOPBACK (sp_loopback s) (fun b => is_lo pkt =? b2z b)))))).
Proof using Ok.
  destruct (spec_mask_bits s (ok_action _ _ _ _ Ok)) as (_ & _ & _ & _ & _ & B1 & B2 & B3 & B4 & B5 & B6 & B7).
  unfold matches_common, spec_common.
  cbn [match_mask invert_mask rc_proto rc_direction rc_loopback rc_ttl rc_tcp_flags rc_tcp_flags_mask
       src_port_start src_port_end dst_port_start dst_port_end].
  rewrite (fails_meets _ _ _ _ (fun r => within r (src_port pkt)) _ B1)
    by (intros [lo hi] E; rewrite E; unfold within; cbn [value fst snd]; now rewrite !Z.geb_leb).
  rewrite (fails_meets _ _ _ _ (fun r => within r (dst_port pkt)) _ B2)
    by (intros [lo hi] E; rewrite E; unfold within; cbn [value fst snd]; now rewrite !Z.geb_leb).
  rewrite (fails_meets _ _ _ _ (fun p => proto pkt =? p) _ B3) by (intros p E; now rewrite E).
  rewrite (fails_meets _ _ _ _ (fun d => dir =? if d : bool then DIR_INGRESS else DIR_EGRESS) _ B4)
    by (intros d E; now rewrite E).
  rewrite (fails_meets _ _ _ _ (fun t => ttl pkt =? t) _ B5) by (intros t E; now rewrite E).
  rewrite (fails_meets _ _ _ _ (fun f => (tcp_flags pkt &&& snd f) =? fst f) _ B6)
    by (intros f E; now rewrite E).
  rewrite !if_not, B7. do 6 f_equal. pose proof (ok_loopback _ _ _ _ Ok) as Lo. destruct (sp_loopback s) as [b|]; [|reflexivity].
  cbn [is_some value andb meets] in *. rewrite (Lo eq_refl), xorb_false_r. now destruct (is_lo pkt =? b2z b).
Qed.
End Matching.

Definition parsed4_ok (pkt : parsed_packet) : Prop :=
  parsed_ok pkt = true /\ ver pkt = 4 /\ 0 <= src_ip pkt < 2 ^ 32 /\ 0 <= dst_ip pkt < 2 ^ 32.

Lemma spec_rule4_matches lpm s pkt dir : spec_ok addr4_ok 32 1 s -> parsed4_ok pkt ->
  matches_rule_ipv4 lpm pkt (spec_rule4 s) dir = spec4_matches s pkt dir.
Proof.
  intros Ok (P & V & Hs & Hd).
  destruct (spec_mask_bits s (ok_action _ _ _ _ Ok)) as (B1 & B2 & B3 & B4 & B5 & _).
  pose proof (ok_src _ _ _ _ Ok) as Os. pose proof (ok_dst _ _ _ _ Ok) as Od.
  assert (E32 : forall x a n, 0 <= x < 2 ^ 32 -> addr4_ok a /\ 0 <= n <= 32 ->
            ((x &&& cidr_mask4 n) =? (a &&& cidr_mask4 n)) = in_prefix 32 a n x).
  { clear. unfold addr4_ok. intros x a n Hx [Ha Hn]. apply cidr_mask4_prefix; lia. }
  unfold matches_rule_ipv4, spec_rule4. cbn [r4_common r4_src_ip r4_dst_ip r4_src_mask r4_dst_mask].
  rewrite (spec_common_matches addr4_ok 32 1 s Ok). change (match_mask (spec_common s)) with (spec_mask s).
  change (invert_mask (spec_common s)) with (sp_invert s). rewrite B1, B2, B3, P, V. cbn [negb orb Z.eqb Pos.eqb].
  rewrite (fails_meets _ _ _ _ (fun '(a, n) => in_prefix 32 a n (src_ip pkt)) _ B4)
    by (intros [a n] E; rewrite E; exact (E32 _ a n Hs (Os _ E))).
  rewrite (fails_meets _ _ _ _ (fun '(a, n) => in_prefix 32 a n (dst_ip pkt)) _ B5)
    by (intros [a n] E; rewrite E; exact (E32 _ a n Hd (Od _ E))).
  rewrite !if_not. unfold spec4_matches, spec_matches. now rewrite !andb_assoc.
Qed.

Lemma spec_rule6_matches env text lpm s pkt dir : spec_ok (addr6_ok env text) 128 58 s -> parsed_wf pkt -> ver pkt = 6 ->
  matches_rule_ipv6 lpm pkt (spec_rule6 s) dir = spec6_matches s pkt dir.
Proof.
  intros Ok (P & Ls & Bs & Ld & Bd) V.
  destruct (spec_mask_bits s (ok_action _ _ _ _ Ok)) as (B1 & B2 & B3 & B4 & B5 & _).
  pose proof (ok_src _ _ _ _ Ok) as Os. pose proof (ok_dst _ _ _ _ Ok) as Od.
  assert (E16 : forall x a n, length x = 16%nat -> bytes x -> addr16_ok a -> 0 <= n <= 128 ->
            eq_u64 x a (cidr_mask6 16 n) = in_prefix 128 (net_value a) n (net_value x)).
  { intros x a n L B [La Ba] Hn. rewrite eq_u64_bytes by (assumption || apply cidr_mask6_length || apply cidr_mask6_bytes).
    rewrite <- L at 1. rewrite cidr_mask6_prefix; unfold zlen; rewrite ?L; try assumption; [reflexivity|congruence]. }
  unfold matches_rule_ipv6, spec_rule6. cbn [r6_common r6_src_ip r6_dst_ip r6_src_mask r6_dst_mask].
  rewrite (spec_common_matches (addr6_ok env text) 128 58 s Ok). change (match_mask (spec_common s)) with (spec_mask s).
  change (invert_mask (spec_common s)) with (sp_invert s). rewrite B1, B2, B3, P, V. cbn [negb orb Z.eqb Pos.eqb].
  rewrite (fails_meets _ _ _ _ (fun '(a, n) => in_prefix 128 (net_value a) n (net_value (src_ip6 pkt))) _ B4)
    by (intros [a n] E; rewrite E; destruct (Os _ E) as [[] ]; cbn [value fst snd] in *; now apply E16).
  rewrite (fails_meets _ _ _ _ (fun '(a, n) => in_prefix 128 (net_value a) n (net_value (dst_ip6 pkt))) _ B5)
    by (intros [a n] E; rewrite E; destruct (Od _ E) as [[] ]; cbn [value fst snd] in *; now apply E16).
  rewrite !if_not. unfold spec6_matches, spec_matches. now rewrite !andb_assoc.
Qed.

(** ** Filling the tables *)

(** One call per specification, from index [i] on; every call must return 0. *)
Fixpoint add_specs {S} (opts : S -> ebpfdivert_rule_opt) (env : rules_env) (i : Z) (specs : list S)
    (maps : rule_maps) : option rule_maps :=
  match specs with
  | [] => Some maps
  | s :: specs =>
    match ebpfdivert_rules_add_extended env i (Some (opts s)) maps with
    | Some (0, maps) => add_specs opts env (i + 1) specs maps
    | _ => None
    end
  end.

(** The maps are pinned and can be written. *)
Record maps_ready (env : rules_env) : Prop := {
  ready_get : maps_missing env = false;
  ready_upd4 : forall i, update4 env i = 0;
  ready_upd6 : forall i, update6 env i = 0
}.

Definition table_sizes (maps : rule_maps) : Prop :=
  length (filter_rules maps) = Z.to_nat MAX_RULES /\ length (filter_rules_ipv6 maps) = Z.to_nat MAX_RULES.

Lemma clear_loop_all {R} (upd : Z -> Z) (zero : R) : (forall i, upd i = 0) -> forall rest done,
  clear_loop upd zero (length rest) (zlen done) (done ++ rest) = done ++ repeat zero (length rest).
Proof.
  intros H. induction rest as [|x rest IH]; intros done; cbn [length clear_loop repeat]; [reflexivity|].
  rewrite H. cbn [Z.eqb]. unfold zlen at 2. rewrite Nat2Z.id, set_nth_app.
  change (done ++ zero :: rest) with (done ++ [zero] ++ rest). rewrite app_assoc.
  replace (zlen done + 1) with (zlen (done ++ [zero])) by (rewrite zlen_app; reflexivity).
  rewrite IH, <- app_assoc. reflexivity.
Qed.

Lemma rules_clear_empty env maps : maps_ready env -> table_sizes maps ->
  ebpfdivert_rules_clear env maps = (0, empty_maps).
Proof.
  intros R [L4 L6]. unfold ebpfdivert_rules_clear. rewrite (ready_get _ R).
  pose proof (clear_loop_all _ zero_rule4 (ready_upd4 _ R) (filter_rules maps) []) as C4.
  pose proof (clear_loop_all _ zero_rule6 (ready_upd6 _ R) (filter_rules_ipv6 maps) []) as C6.
  rewrite L4 in C4. rewrite L6 in C6. cbn [app] in C4, C6. change (zlen []) with 0 in C4, C6.
  now rewrite C4, C6.
Qed.

(** *** Adding behind what is there *)

Definition table4 (rules : list filter_rule) : list filter_rule :=
  rules ++ repeat zero_rule4 (Z.to_nat MAX_RULES - length rules).

Definition table6 (rules : list filter_rule_ipv6) : list filter_rule_ipv6 :=
  rules ++ repeat zero_rule6 (Z.to_nat MAX_RULES - length rules).

Lemma put_next {R} (upd : Z -> Z) (zero r : R) done n : upd (zlen done) = 0 -> (length done < n)%nat ->
  put_rule upd (zlen done) (Done r) (done ++ repeat zero (n - length done)) =
  Some (0, (done ++ [r]) ++ repeat zero (n - length (done ++ [r]))).
Proof.
  intros U L. unfold put_rule. rewrite U. cbn [Z.eqb]. unfold zlen. rewrite Nat2Z.id.
  replace (n - length done)%nat with (S (n - length (done ++ [r]))) by (rewrite length_app; cbn [length]; lia).
  cbn [repeat]. rewrite set_nth_app. now rewrite <- app_assoc.
Qed.

Section Adding.
Context (env : rules_env) (absent : option (list Z)) (text : list Z -> list Z).
Hypothesis Ready : maps_ready env.
Hypothesis Absent : is_option_active absent = false.

Lemma good_index {R} (done : list R) : (length done < Z.to_nat MAX_RULES)%nat -> bad_index (zlen done) = false.
Proof. unfold bad_index, zlen, MAX_RULES. lia. Qed.

Lemma add_specs4 (Dotted : reads_dotted env) m6 : forall specs done, Forall (spec_ok addr4_ok 32 1) specs ->
  (length done + length specs <= Z.to_nat MAX_RULES)%nat ->
  add_specs (opts4 absent) env (zlen done) specs (mkMaps (table4 done) m6) =
  Some (mkMaps (table4 (done ++ map spec_rule4 specs)) m6).
Proof using Ready Absent.
  induction specs as [|s specs IH]; intros done F L; cbn [add_specs map]; [now rewrite app_nil_r|].
  inversion F as [|? ? Hs Fs]; subst. cbn [length] in L. unfold ebpfdivert_rules_add_extended.
  rewrite (ready_get _ Ready), good_index by lia. rewrite opts4_table by assumption. cbn [negb].
  rewrite extended_rule4_text by assumption. unfold put_rule4. cbn [filter_rules filter_rules_ipv6].
  unfold table4 at 1.
  rewrite put_next by (lia || apply (ready_upd4 _ Ready)). cbn [option_map].
  replace (zlen done + 1) with (zlen (done ++ [spec_rule4 s])) by (rewrite zlen_app; reflexivity).
  fold (table4 (done ++ [spec_rule4 s])).
  rewrite IH; [now rewrite <- app_assoc|exact Fs|]. rewrite length_app. cbn [length]. lia.
Qed.

Lemma add_specs6 m4 : forall specs done, Forall (fun s => spec_ok (addr6_ok env text) 128 58 s /\ names_ipv6 s = true) specs ->
  (length done + length specs <= Z.to_nat MAX_RULES)%nat ->
  add_specs (opts6 text absent) env (zlen done) specs (mkMaps m4 (table6 done)) =
  Some (mkMaps m4 (table6 (done ++ map spec_rule6 specs))).
Proof using Ready Absent.
  induction specs as [|s specs IH]; intros done F L; cbn [add_specs map]; [now rewrite app_nil_r|].
  inversion F as [|? ? [Hs Hn] Fs]; subst. cbn [length] in L. unfold ebpfdivert_rules_add_extended.
  rewrite (ready_get _ Ready), good_index by lia. rewrite (opts6_table env) by assumption. cbn [negb].
  rewrite extended_rule6_text by assumption. unfold put_rule6. cbn [filter_rules filter_rules_ipv6].
  unfold table6 at 1.
  rewrite put_next by (lia || apply (ready_upd6 _ Ready)). cbn [option_map].
  replace (zlen done + 1) with (zlen (done ++ [spec_rule6 s])) by (rewrite zlen_app; reflexivity).
  fold (table6 (done ++ [spec_rule6 s])).
  rewrite IH; [now rewrite <- app_assoc|exact Fs|]. rewrite length_app. cbn [length]. lia.
Qed.
End Adding.

(** ** Deciding *)

Lemma spec_mask_range {A} (s : rule_spec A) : is_action (sp_action s) -> 0 < spec_mask s < 2 ^ 16.
Proof.
  intros H. destruct (spec_mask_bits s H) as (E & F & L & _). apply mask_ok_pos. repeat split; try assumption.
  all: unfold spec_mask; destruct H as [->|[->| ->]]; repeat (apply lor_u16 || apply flag_if_u16);
    try (vm_compute; split; congruence).
Qed.

Section Deciding.
Variables (lpm : lpm_maps) (maps : rule_maps) (pkt : parsed_packet) (dir : Z).
Hypothesis Hdir : 0 <= dir < 256.

Lemma decide4 specs : filter_rules maps = table4 (map spec_rule4 specs) ->
  Forall (spec_ok addr4_ok 32 1) specs -> (length specs <= Z.to_nat MAX_RULES)%nat -> parsed4_ok pkt ->
  find_rule lpm maps pkt dir = option_map spec_mask (List.find (fun s => spec4_matches s pkt dir) specs).
Proof using Hdir.
  intros T F L P. unfold find_rule. destruct P as (Po & V & Ps). rewrite V. cbn [Z.eqb Pos.eqb].
  assert (M : Forall (fun r => 0 < match_mask (r4_common r) < 2 ^ 16) (map spec_rule4 specs)).
  { apply Forall_map. eapply Forall_impl; [|exact F]. intros s Hs. apply spec_mask_range, Hs. }
  rewrite (rule_loop_scan (fun r => match_mask (r4_common r))
    (fun r => matches_rule_ipv4 lpm pkt r (u8 dir)) (table4 (map spec_rule4 specs))).
  - unfold table4. rewrite scan_loaded by (reflexivity || exact M). rewrite find_map.
    rewrite (find_ext_in _ (fun s => spec4_matches s pkt dir)); [now destruct (List.find _ _)|].
    intros s Hs. unfold u8. rewrite Z.mod_small by lia. rewrite Forall_forall in F.
    apply spec_rule4_matches; [now apply F|]. now repeat split.
  - apply Forall_app. split; [eapply Forall_impl; [|exact M]; cbn; lia|].
    apply Forall_forall. intros r Hr. apply repeat_spec in Hr. subst. cbn. lia.
  - lia.
  - unfold table4. rewrite length_app, repeat_length, length_map. lia.
  - intros j Hj. rewrite Z.sub_0_r. unfold match_rule_v4. now rewrite T.
Qed.

Lemma decide6 env text specs : filter_rules_ipv6 maps = table6 (map spec_rule6 specs) ->
  Forall (spec_ok (addr6_ok env text) 128 58) specs -> (length specs <= Z.to_nat MAX_RULES)%nat ->
  parsed_wf pkt -> ver pkt = 6 ->
  find_rule lpm maps pkt dir = option_map spec_mask (List.find (fun s => spec6_matches s pkt dir) specs).
Proof using Hdir.
  intros T F L P V. unfold find_rule. rewrite V. cbn [Z.eqb Pos.eqb].
  assert (M : Forall (fun r => 0 < match_mask (r6_common r) < 2 ^ 16) (map spec_rule6 specs)).
  { apply Forall_map. eapply Forall_impl; [|exact F]. intros s Hs. apply spec_mask_range, Hs. }
  rewrite (rule_loop_scan (fun r => match_mask (r6_common r))
    (fun r => matches_rule_ipv6 lpm pkt r (u8 dir)) (table6 (map spec_rule6 specs))).
  - unfold table6. rewrite scan_loaded by (reflexivity || exact M). rewrite find_map.
    rewrite (find_ext_in _ (fun s => spec6_matches s pkt dir)); [now destruct (List.find _ _)|].
    intros s Hs. unfold u8. rewrite Z.mod_small by lia. rewrite Forall_forall in F.
    apply (spec_rule6_matches env text); [now apply F|exact P|exact V].
  - apply Forall_app. split; [eapply Forall_impl; [|exact M]; cbn; lia|].
    apply Forall_forall. intros r Hr. apply repeat_spec in Hr. subst. cbn. lia.
  - lia.
  - unfold table6. rewrite length_app, repeat_length, length_map. lia.
  - intros j Hj. rewrite Z.sub_0_r. unfold match_rule_v6. now rewrite T.
Qed.
End Deciding.

(** C12. The pinned mode implements its rules: after [ebpfdivert_rules_clear],
    one [ebpfdivert_rules_add_extended] per rule at the indices 0, 1, ... of
    its table succeeds, and the kernel then decides every packet by the first
    rule whose conditions (protocol, prefixes, port ranges, direction,
    loopback, TTL, TCP flags, each possibly inverted) it meets, with that
    rule's action; a packet that meets none is not matched. The rules are given
    by the texts that print their numbers, at most 64 per table, with numbers
    that fit their fields and without ports for ICMP; the maps accept updates
    and the address functions of the C library read what they should. Rules
    that invert the loopback condition are left out: the program ignores the
    inversion ([loopback_not_inverted]). *)
Theorem pinned_rules_decide env absent text maps0 specs4 specs6 :
  maps_ready env -> reads_dotted env -> table_sizes maps0 -> is_option_active absent = false ->
  Forall (spec_ok addr4_ok 32 1) specs4 -> (length specs4 <= Z.to_nat MAX_RULES)%nat ->
  Forall (fun s => spec_ok (addr6_ok env text) 128 58 s /\ names_ipv6 s = true) specs6 ->
  (length specs6 <= Z.to_nat MAX_RULES)%nat ->
  exists maps1 maps,
    let '(ret, cleared) := ebpfdivert_rules_clear env maps0 in
    ret = 0 /\
    add_specs (opts4 absent) env 0 specs4 cleared = Some maps1 /\
    add_specs (opts6 text absent) env 0 specs6 maps1 = Some maps /\
    forall lpm pkt dir, 0 <= dir < 256 ->
      (parsed4_ok pkt -> find_rule lpm maps pkt dir =
         option_map spec_mask (List.find (fun s => spec4_matches s pkt dir) specs4)) /\
      (parsed_wf pkt -> ver pkt = 6 -> find_rule lpm maps pkt dir =
         option_map spec_mask (List.find (fun s => spec6_matches s pkt dir) specs6)).
Proof.
  intros R D S A F4 L4 F6 L6. rewrite rules_clear_empty by assumption.
  exists (mkMaps (table4 (map spec_rule4 specs4)) (table6 [])).
  exists (mkMaps (table4 (map spec_rule4 specs4)) (table6 (map spec_rule6 specs6))).
  split; [reflexivity|]. split; [|split].
  - exact (add_specs4 env absent R A D (table6 []) specs4 [] F4 L4).
  - exact (add_specs6 env absent text R A (table4 (map spec_rule4 specs4)) specs6 [] F6 L6).
  - intros lpm pkt dir Hd. split; intros P.
    + now apply decide4.
    + intros V. apply (decide6 _ _ _ _ Hd env text); try assumption; [reflexivity|].
      eapply Forall_impl; [|exact F6]. now intros s [H _].
Qed.

Module ExPinned.
Definition env : rules_env :=
  mkRulesEnv 5 6 (fun _ => 0) (fun _ => 0)
    (fun t => match WinDivertHelperParseIPv4Address t with Some a => htonl a | None => INADDR_NONE end)
    (fun t => match WinDivertHelperParseIPv6Address t with V6True w => Some (to_net16 w) | _ => None end).

(** --proto tcp --dst-ip 10.0.0.0/8 --dst-port 80-90 --invert dst-port, drop *)
Definition drop_web : rule_spec Z :=
  mkSpec (Some 6) None (Some (0x0A000000, 8)) None (Some (80, 90)) None None None None MATCH_DROP MATCH_DST_PORT.

Definition doc_addr : list Z := [0x20; 0x01; 0x0d; 0xb8; 0; 0; 0; 0; 0; 0; 0; 0; 0; 0; 0; 0].

(** --src-ip 2001:db8::/32 --direction ingress, sniff *)
Definition sniff_doc : rule_spec (list Z) :=
  mkSpec None (Some (doc_addr, 32)) None None None (Some true) None None None MATCH_SNIFF 0.

Definition text (_ : list Z) : list Z := chars "2001:db8::".

Definition pkt4 (dport : Z) : parsed_packet :=
  mkParsed 0x01020304 zero16 0x0A010203 zero16 4000 dport 14 2 6 4 64 2 true false 0.

Lemma spec4 : spec_ok addr4_ok 32 1 drop_web.
Proof.
  constructor; cbn; try discriminate; try (intros x [= <-]; unfold range16, addr4_ok; cbn; lia).
  now right; right.
Qed.

Lemma spec6 : spec_ok (addr6_ok env text) 128 58 sniff_doc.
Proof.
  constructor; cbn; try discriminate; [|now right; left].
  intros x [= <-]. split; [|cbn; lia]. constructor; cbn [fst].
  - split; [reflexivity|]. repeat constructor; unfold is_byte; lia.
  - vm_compute. reflexivity.
  - vm_compute. tauto.
  - vm_compute. lia.
  - vm_compute. congruence.
Qed.

Lemma ready : maps_ready env /\ reads_dotted env /\ table_sizes empty_maps.
Proof.
  split; [now constructor|]. split; [|split; reflexivity].
  intros a Ha. unfold env. cbn [inet_addr]. now rewrite parse_ipv4_text.
Qed.
End ExPinned.

Lemma pinned_rules_decide_witness : exists maps,
  find_rule (mkLpm (fun _ _ => None) (fun _ _ => None)) maps (ExPinned.pkt4 443) 2 =
    Some (MATCH_ENABLED ||| MATCH_PROTO ||| MATCH_DROP ||| MATCH_DST_IP ||| MATCH_DST_PORT) /\
  find_rule (mkLpm (fun _ _ => None) (fun _ _ => None)) maps (ExPinned.pkt4 85) 2 = None.
Proof.
  destruct ExPinned.ready as (R & D & S).
  destruct (pinned_rules_decide ExPinned.env None ExPinned.text empty_maps [ExPinned.drop_web] [ExPinned.sniff_doc]
    R D S eq_refl) as (maps1 & maps & H).
  - constructor; [exact ExPinned.spec4|constructor].
  - vm_compute. lia.
  - constructor; [split; [exact ExPinned.spec6|reflexivity]|constructor].
  - vm_compute. lia.
  - exists maps. destruct (ebpfdivert_rules_clear ExPinned.env empty_maps) as [ret cleared].
    destruct H as (_ & _ & _ & H). split.
    + rewrite (proj1 (H _ (ExPinned.pkt4 443) 2 ltac:(lia))); [reflexivity|unfold parsed4_ok; cbn; lia].
    + rewrite (proj1 (H _ (ExPinned.pkt4 85) 2 ltac:(lia))); [reflexivity|unfold parsed4_ok; cbn; lia].
Defined.

(** ** Errors and frame *)

Lemma put_rule_cases {R} upd idx (r : outcome R) table ret table' :
  put_rule upd idx r table = Some (ret, table') ->
  (ret = -1 /\ table' = table) \/ (ret = 0 /\ exists x, r = Done x /\ table' = set_nth (Z.to_nat idx) x table).
Proof.
  unfold put_rule. destruct r as [x| |]; try case_if; intros [= <- <-]; auto. right. eauto.
Qed.

(** What a call does to the tables. *)
Definition added (env : rules_env) (idx : Z) (o : ebpfdivert_rule_opt) (maps maps' : rule_maps) : Prop :=
  (is_ipv6 o = false /\ exists r, extended_rule4 env o = Done r /\
     maps' = mkMaps (set_nth (Z.to_nat idx) r (filter_rules maps)) (filter_rules_ipv6 maps)) \/
  (is_ipv6 o = true /\ exists r, extended_rule6 env o = Done r /\
     maps' = mkMaps (filter_rules maps) (set_nth (Z.to_nat idx) r (filter_rules_ipv6 maps))).

Lemma rules_add_cases env idx opt maps ret maps' :
  ebpfdivert_rules_add_extended env idx opt maps = Some (ret, maps') ->
  (ret = -1 /\ maps' = maps) \/
  (ret = 0 /\ maps_missing env = false /\ 0 <= idx < MAX_RULES /\
   exists o, opt = Some o /\ added env idx o maps maps').
Proof.
  unfold ebpfdivert_rules_add_extended. destruct opt as [o|]; [|intros [= <- <-]; auto].
  destruct (maps_missing env) eqn:M; [intros [= <- <-]; auto|].
  destruct (bad_index idx) eqn:B; [intros [= <- <-]; auto|].
  assert (I : 0 <= idx < MAX_RULES) by (unfold bad_index in B; lia).
  assert (Z4 : mkMaps (filter_rules maps) (filter_rules_ipv6 maps) = maps) by now destruct maps.
  destruct (is_ipv6 o) eqn:V; cbn [negb]; unfold put_rule4, put_rule6;
    destruct (put_rule _ _ _ _) as [[rt t]|] eqn:E; try discriminate; intros [= <- <-];
    destruct (put_rule_cases _ _ _ _ _ _ E) as [[-> ->]|[-> (x & X & ->)]]; try (now left);
    right; split; auto; split; auto; split; auto; exists o; split; unfold added; eauto 6.
Qed.

(** C39. [ebpfdivert_rules_add_extended] is atomic: it returns 0 after writing
    one rule at the given index of one table, an index below 64, or returns
    -1 and both tables are as before; NULL options, unpinned maps, a bad
    index, an unparsable address, a prefix length out of range and a failed
    map update all give -1. *)
Theorem rules_add_atomic env idx opt maps ret maps' :
  ebpfdivert_rules_add_extended env idx opt maps = Some (ret, maps') ->
  (ret = -1 /\ maps' = maps) \/
  (ret = 0 /\ maps_missing env = false /\ 0 <= idx < MAX_RULES /\
   exists o, opt = Some o /\ added env idx o maps maps').
Proof. apply rules_add_cases. Qed.

Lemma rules_add_atomic_witness : exists r maps,
  ebpfdivert_rules_add_extended ExPinned.env 63 (Some (opts4 None ExPinned.drop_web)) empty_maps = Some (0, maps) /\
  maps = mkMaps (set_nth 63 r (filter_rules empty_maps)) (filter_rules_ipv6 empty_maps).
Proof.
  destruct (ebpfdivert_rules_add_extended ExPinned.env 63 (Some (opts4 None ExPinned.drop_web)) empty_maps)
    as [[ret maps]|] eqn:E; [|vm_compute in E; discriminate E].
  destruct (rules_add_atomic _ _ _ _ _ _ E) as [[-> _]|(-> & _ & _ & o & [= <-] & [(_ & r & _ & ->)|(V & _)])].
  - vm_compute in E. discriminate E.
  - exists r. eexists. split; reflexivity.
  - vm_compute in V. discriminate V.
Defined.

(** ** Gaps *)

Lemma rule_loop_stop m m' j : m j < 0 -> m' j < 0 -> forall n i, i <= j -> (forall k, i <= k < j -> m k = m' k) ->
  rule_loop n i m = rule_loop n i m'.
Proof.
  intros H H'. induction n as [|n IH]; intros i Hi E; [reflexivity|]. cbn [rule_loop].
  destruct (Z.eq_dec i j) as [->|N].
  - now replace (m j <? 0) with true by lia; replace (m' j <? 0) with true by lia.
  - rewrite (E i) by lia. rewrite (IH (i + 1)) by (lia || intros k Hk; apply E; lia). reflexivity.
Qed.

(** An entry of the table that holds no rule. *)
Definition empty_slot (o : ebpfdivert_rule_opt) (maps : rule_maps) (j : Z) : Prop :=
  if is_ipv6 o
  then exists r, nth_error (filter_rules_ipv6 maps) (Z.to_nat j) = Some r /\ match_mask (r6_common r) = 0
  else exists r, nth_error (filter_rules maps) (Z.to_nat j) = Some r /\ match_mask (r4_common r) = 0.

(** The kernel stops at the first empty entry of a table: a rule added
    behind an entry that holds no rule changes no decision, whatever its
    conditions, until the gap is filled. *)
Theorem rule_behind_gap_ignored env idx o maps ret maps' j lpm pkt dir :
  ebpfdivert_rules_add_extended env idx (Some o) maps = Some (ret, maps') ->
  0 <= j < idx -> empty_slot o maps j ->
  find_rule lpm maps' pkt dir = find_rule lpm maps pkt dir.
Proof.
  intros H Hj E. destruct (rules_add_cases _ _ _ _ _ _ H) as [[_ ->]|(_ & _ & _ & o' & [= <-] & A)]; [reflexivity|].
  unfold empty_slot in E. unfold find_rule.
  destruct A as [(V & r & _ & ->)|(V & r & _ & ->)]; rewrite V in E; destruct E as (z & Ez & Mz);
    destruct (ver pkt =? 4); try reflexivity.
  - apply (rule_loop_stop _ _ j); try lia; unfold match_rule_v4; cbn [filter_rules].
    + now rewrite nth_error_set_nth, Ez, Mz by lia.
    + now rewrite Ez, Mz.
    + intros k Hk. now rewrite nth_error_set_nth by lia.
  - apply (rule_loop_stop _ _ j); try lia; unfold match_rule_v6; cbn [filter_rules_ipv6].
    + now rewrite nth_error_set_nth, Ez, Mz by lia.
    + now rewrite Ez, Mz.
    + intros k Hk. now rewrite nth_error_set_nth by lia.
Qed.

Lemma rule_behind_gap_ignored_witness : exists maps,
  ebpfdivert_rules_add_extended ExPinned.env 1 (Some (opts4 None ExPinned.drop_web)) empty_maps = Some (0, maps) /\
  find_rule (mkLpm (fun _ _ => None) (fun _ _ => None)) maps (ExPinned.pkt4 443) 2 = None.
Proof.
  destruct (ebpfdivert_rules_add_extended ExPinned.env 1 (Some (opts4 None ExPinned.drop_web)) empty_maps)
    as [[ret maps]|] eqn:E; [|vm_compute in E; discriminate E].
  exists maps. split.
  - vm_compute in E. injection E as <- <-. vm_compute. reflexivity.
  - rewrite (rule_behind_gap_ignored _ _ _ _ _ _ 0 _ _ _ E ltac:(lia)); [reflexivity|].
    exists zero_rule4. split; reflexivity.
Defined.

(** ** The two ways to add a rule *)

Definition simple_opts (proto ip_cidr port action : list Z) : ebpfdivert_rule_opt :=
  mkOpt (Some proto) None (Some ip_cidr) None (Some port) (Some action) None None None None None 0.

Lemma active_any s : s <> [] -> active (Some s) = unless_any s.
Proof.
  intros H. unfold active, unless_any, is_option_active. destruct s as [|x s]; [congruence|].
  rewrite zlen_cons. pose proof (zlen_nonneg s). destruct (streq (x :: s) (chars "any")); [reflexivity|].
  cbn [negb andb]. now replace (1 + zlen s >? 0) with true by lia.
Qed.

(** [strcasecmp] and [strcmp] agree on lower case texts. *)
Lemma rule_proto_case name icmp s : icmp_kind name icmp -> map tolower s = s ->
  rule_proto strcaseeq name icmp (unless_any s) = rule_proto streq name icmp (unless_any s).
Proof.
  intros K L. unfold unless_any. case_if; [reflexivity|]. cbn [rule_proto]. unfold proto_number, strcaseeq. rewrite L.
  now destruct K as [[-> _]|[-> _]].
Qed.

Lemma simple_tail icmp p ip port action mask proto : port <> [] ->
  extended_tail icmp (simple_opts p ip port action) mask proto =
  (let! '(om, (ss, se), (ds, de)) := rule_dst_port icmp proto (0, 0) (unless_any port) in
   Done (mkCommon (mask ||| om) 0 proto 0 0 0 0 0 ss se ds de)).
Proof.
  intros H. unfold extended_tail, simple_opts. cbn [opt_src_port_range opt_dst_port_range opt_direction opt_loopback
    opt_ttl opt_tcp_flags opt_tcp_flags_mask opt_invert_mask]. change (active None) with (@None (list Z)).
  cbn [rule_src_port bind]. rewrite active_any by exact H.
  destruct (rule_dst_port icmp proto (0, 0) (unless_any port)) as [[[om [ss se]] [ds de]]| |]; try reflexivity.
  cbn. now rewrite !Z.lor_0_r.
Qed.

(** [simple_opts] with its parts that matter. *)
Lemma simple_rule4_extended env p ip port action : p <> [] -> ip <> [] -> port <> [] -> map tolower p = p ->
  extended_rule4 env (simple_opts p ip port action) = simple_rule4 env p ip port action.
Proof.
  intros Hp Hi Ho L. unfold extended_rule4, simple_rule4.
  change (opt_proto (simple_opts p ip port action)) with (Some p).
  change (opt_src_ip_cidr (simple_opts p ip port action)) with (@None (list Z)).
  change (opt_dst_ip_cidr (simple_opts p ip port action)) with (Some ip).
  change (opt_action (simple_opts p ip port action)) with (Some action).
  rewrite !active_any by assumption. rewrite rule_proto_case by (exact L || now left).
  destruct (rule_proto streq (chars "icmp") 1 (unless_any p)) as [[pm proto]| |]; try reflexivity.
  change (active None) with (@None (list Z)). cbn [bind rule_cidr4].
  destruct (rule_cidr4 env MATCH_DST_IP (unless_any ip)) as [[[dm dip] dmask]| |]; try reflexivity.
  cbn [bind]. rewrite simple_tail by exact Ho. rewrite !Z.lor_0_r.
  now destruct (rule_dst_port 1 proto (0, 0) (unless_any port)) as [[[om [ss se]] [ds de]]| |].
Qed.

Lemma simple_rule6_extended env p ip port action : p <> [] -> ip <> [] -> port <> [] -> map tolower p = p ->
  extended_rule6 env (simple_opts p ip port action) = simple_rule6 env p ip port action.
Proof.
  intros Hp Hi Ho L. unfold extended_rule6, simple_rule6.
  change (opt_proto (simple_opts p ip port action)) with (Some p).
  change (opt_src_ip_cidr (simple_opts p ip port action)) with (@None (list Z)).
  change (opt_dst_ip_cidr (simple_opts p ip port action)) with (Some ip).
  change (opt_action (simple_opts p ip port action)) with (Some action).
  rewrite !active_any by assumption. rewrite rule_proto_case by (exact L || now right).
  destruct (rule_proto streq (chars "icmpv6") 58 (unless_any p)) as [[pm proto]| |]; try reflexivity.
  change (active None) with (@None (list Z)). cbn [bind rule_cidr6].
  destruct (rule_cidr6 env MATCH_DST_IP (unless_any ip)) as [[[dm dip] dmask]| |]; try reflexivity.
  cbn [bind]. rewrite simple_tail by exact Ho. rewrite !Z.lor_0_r.
  now destruct (rule_dst_port 58 proto (0, 0) (unless_any port)) as [[[om [ss se]] [ds de]]| |].
Qed.

(** [ebpfdivert_rules_add] is [ebpfdivert_rules_add_extended] with only
    a protocol, a destination, a destination port and an action: for texts
    that are not empty and a protocol in lower case both calls give the same
    result and the same tables, errors included. *)
Theorem rules_add_is_extended env idx p ip port action maps :
  p <> [] -> ip <> [] -> port <> [] -> map tolower p = p ->
  ebpfdivert_rules_add env idx (Some p) (Some ip) (Some port) (Some action) maps =
  ebpfdivert_rules_add_extended env idx (Some (simple_opts p ip port action)) maps.
Proof.
  intros Hp Hi Ho L. unfold ebpfdivert_rules_add, ebpfdivert_rules_add_extended.
  rewrite simple_rule4_extended, simple_rule6_extended by assumption. reflexivity.
Qed.

Lemma rules_add_is_extended_witness :
  ebpfdivert_rules_add ExPinned.env 2 (Some (chars "udp")) (Some (chars "10.0.0.0/8")) (Some (chars "53"))
    (Some (chars "drop")) empty_maps =
  ebpfdivert_rules_add_extended ExPinned.env 2
    (Some (simple_opts (chars "udp") (chars "10.0.0.0/8") (chars "53") (chars "drop"))) empty_maps.
Proof. apply rules_add_is_extended; (discriminate || reflexivity). Defined.

(** ** ICMP rules *)

(** A rule for one ICMP type and code. *)
Definition icmp_opts (type code : Z) : ebpfdivert_rule_opt :=
  simple_opts (chars "icmp") (chars "any") (decimal type ++ 47 :: decimal code) (chars "drop").

Lemma type_code_text t c : 0 <= t < 256 -> 0 <= c < 256 -> type_code (decimal t ++ 47 :: decimal c) = Done (t, c).
Proof.
  intros Ht Hc. unfold type_code.
  pose proof (decimal_length 2 t ltac:(change (10 ^ Z.of_nat 3) with 1000; lia) ltac:(lia)).
  pose proof (decimal_length 2 c ltac:(change (10 ^ Z.of_nat 3) with 1000; lia) ltac:(lia)).
  rewrite snprintf_fits by (rewrite zlen_app, zlen_cons; lia).
  rewrite int_of_decimal by (lia || cbn; lia). cbn [bind]. rewrite strchr_at by (apply decimal_no; lia). cbn [tl].
  rewrite int_of_plain by lia. cbn [bind]. now rewrite !u16_small by lia.
Qed.

(** The type goes to the source ports, whose mask bit is not set: the rule
    matches every type. *)
Lemma icmp_type_not_compared env t c lpm pkt dir : 0 <= t < 256 -> 0 <= c < 256 -> parsed4_ok pkt ->
  exists r, extended_rule4 env (icmp_opts t c) = Done r /\ src_port_start (r4_common r) = t /\
    matches_rule_ipv4 lpm pkt r dir = (dst_port pkt =? c) && (proto pkt =? 1).
Proof.
  intros Ht Hc (P & V & _). unfold icmp_opts. rewrite simple_rule4_extended;
    [|discriminate..|now destruct (decimal t)|reflexivity].
  unfold simple_rule4.
  change (rule_proto streq (chars "icmp") 1 (unless_any (chars "icmp"))) with (Done (MATCH_PROTO, 1)).
  change (unless_any (chars "any")) with (@None (list Z)). cbn [bind rule_cidr4].
  rewrite <- active_any by now destruct (decimal t). unfold active. rewrite active_slash.
  cbn [rule_dst_port Z.eqb Pos.eqb]. rewrite type_code_text by assumption. cbn [bind].
  eexists. split; [reflexivity|]. split; [reflexivity|].
  unfold matches_rule_ipv4, matches_common. rewrite P, V.
  cbn [r4_common match_mask invert_mask dst_port_start dst_port_end rc_proto]. unfold fails.
  match goal with |- context [has ?m MATCH_ENABLED] => set (mm := m) end.
  repeat match goal with |- context [has mm ?f] =>
    let v := eval vm_compute in (has mm f) in change (has mm f) with v end.
  change (has 0 MATCH_DST_PORT) with false. change (has 0 MATCH_PROTO) with false. cbn.
  replace ((dst_port pkt >=? c) && (dst_port pkt <=? c)) with (dst_port pkt =? c) by lia.
  now destruct (dst_port pkt =? c), (proto pkt =? 1).
Qed.

(** The inversion of a loopback condition has no effect: the rule for packets
    that are not on the loopback device matches those that are. *)
Lemma loopback_not_inverted lpm pkt dir : parsed4_ok pkt ->
  let rule invert := spec_rule4 (mkSpec None None None None None None (Some true) None None MATCH_DROP invert) in
  matches_rule_ipv4 lpm pkt (rule MATCH_LOOPBACK) dir = (is_lo pkt =? 1) /\
  matches_rule_ipv4 lpm pkt (rule 0) dir = (is_lo pkt =? 1).
Proof.
  intros (P & V & _). unfold spec_rule4, matches_rule_ipv4, matches_common, fails. rewrite P, V. cbn.
  split; now destruct (is_lo pkt) as [|[]|].
Qed.
