(* ===== verification/EbList.v ===== *)
(** * Listing the rules, reading the statistics

    [ebpfdivert_rules_list] and [ebpfdivert_get_stats] of
    [src/ebpfdivert.c].  The listing is built in buffers of fixed size: a
    [strcat] that does not fit is undefined ([None]), an [snprintf] cuts.
    The text of an IPv6 address is a parameter, the C library's
    [inet_ntop]. *)

From Stdlib Require Import Ascii String ZArith List Bool Lia ZifyBool.
From S2P Require Import Prelude WdTypes WdPacket WdExec WdSerial WdAddr CString.
From S2P Require Import PfRange PfAddr PfCube PfEncode BpfParse BpfMatch BpfTc EbRules EbMeaning.
Import ListNotations.
#[local] Open Scope list_scope.
#[local] Open Scope Z_scope.

(** ** Formatting *)

(** [strcat(dst, src)] into a buffer of [cap] bytes. *)
Definition strcat (cap : Z) (dst src : list Z) : option (list Z) :=
  if zlen dst + zlen src <? cap then Some (dst ++ src) else None.

Fixpoint strcat_all (cap : Z) (dst : list Z) (pieces : list (list Z)) : option (list Z) :=
  match pieces with
  | [] => Some dst
  | p :: pieces => match strcat cap dst p with Some dst => strcat_all cap dst pieces | None => None end
  end.

(** [%-5s]: blanks up to the width. *)
Definition pad (w : Z) (s : list Z) : list Z := s ++ repeat 32 (Z.to_nat (w - zlen s)).

(** [%02x] of a byte, [%04x] of 16 bits. *)
Definition hex2 (v : Z) : list Z := [hex_digit (v / 16); hex_digit (v mod 16)].
Definition hex4 (v : Z) : list Z := hex2 (v / 256) ++ hex2 (v mod 256).

(** [inet_ntoa] of an address in network order. *)
Definition inet_ntoa (s_addr : Z) : list Z := ipv4_text (ntohl s_addr).

(** ** Columns

    [fmt n s] is how the text [s] gets into a buffer of [n] bytes and [cat]
    how the details are put together: [snprintf] and [strcat] in the code. *)

Section Columns.
Variable fmt : Z -> list Z -> list Z.
Variable cat : list (list Z) -> option (list Z).

Definition list_proto (known : Z -> option (list Z)) (r : pf_rule_common) : list Z :=
  if has (match_mask r) MATCH_PROTO then
    match known (rc_proto r) with
    | Some s => s
    | None => fmt 16 (decimal (rc_proto r))
    end
  else chars "ANY".

Definition known4 (p : Z) : option (list Z) :=
  if p =? 6 then Some (chars "TCP") else if p =? 1 then Some (chars "ICMP")
  else if p =? 17 then Some (chars "UDP") else None.

Definition known6 (p : Z) : option (list Z) :=
  if p =? 6 then Some (chars "TCP") else if p =? 17 then Some (chars "UDP")
  else if p =? 58 then Some (chars "ICMPv6") else None.

Definition list_action (r : pf_rule_common) : list Z :=
  if has (match_mask r) MATCH_DROP then chars "DROP"
  else if has (match_mask r) MATCH_SNIFF then chars "SNIFF" else chars "DIVERT".

(** Type and code share the members of the ports. *)
Definition list_port (icmp : Z) (r : pf_rule_common) : list Z :=
  if has (match_mask r) MATCH_DST_PORT then
    if rc_proto r =? icmp then
      fmt 32 (chars "Type:" ++ decimal (src_port_start r) ++ chars " Code:" ++ decimal (dst_port_start r))
    else fmt 32 (decimal (dst_port_start r) ++ chars "-" ++ decimal (dst_port_end r))
  else chars "ANY".

(** [snprintf(ip_str, cap, "%s/%s", ip, mask)] *)
Definition list_ip (cap : Z) (r : pf_rule_common) (ip mask : list Z) : list Z :=
  if has (match_mask r) MATCH_DST_IP then fmt cap (ip ++ chars "/" ++ mask) else chars "ANY".

Definition piece (b : bool) (s : list Z) : list (list Z) := if b then [s] else [].

(** The pieces appended to [details]; [cap] is the size of the buffer of the
    first. *)
Definition detail_pieces (cap : Z) (r : pf_rule_common) (ip mask : list Z) : list (list Z) :=
  let mm := match_mask r in
  piece (has mm MATCH_SRC_IP) (fmt cap (chars "src_ip=" ++ ip ++ chars "/" ++ mask ++ chars " ")) ++
  piece (has mm MATCH_SRC_PORT)
    (fmt 32 (chars "src_port=" ++ decimal (src_port_start r) ++ chars "-" ++
                  decimal (src_port_end r) ++ chars " ")) ++
  piece (has mm MATCH_DIRECTION)
    (if rc_direction r =? 1 then chars "dir=ingress " else chars "dir=egress ") ++
  piece (has mm MATCH_LOOPBACK)
    (if negb (rc_loopback r =? 0) then chars "loopback=yes " else chars "loopback=no ") ++
  piece (has mm MATCH_TTL) (fmt 32 (chars "ttl=" ++ decimal (rc_ttl r) ++ chars " ")) ++
  piece (has mm MATCH_TCP_FLAGS)
    (fmt 64 (chars "tcp_flags=0x" ++ hex2 (rc_tcp_flags r) ++ chars "/0x" ++
                  hex2 (rc_tcp_flags_mask r) ++ chars " ")) ++
  piece (negb (invert_mask r =? 0)) (fmt 64 (chars "invert=0x" ++ hex4 (invert_mask r) ++ chars " ")).

(** [printf("%-3u | %-5s | %-6s | %-14s | %-20s | %s\n", ...)] *)
Definition list_row (i : Z) (proto action port ip details : list Z) : list Z :=
  pad 3 (decimal i) ++ chars " | " ++ pad 5 proto ++ chars " | " ++ pad 6 action ++ chars " | " ++
  pad 14 port ++ chars " | " ++ pad 20 ip ++ chars " | " ++ details ++ [10].

(** One round of a loop: nothing for a rule that is not enabled. *)
Definition list_rule4 (i : Z) (rule : filter_rule) : option (list Z) :=
  let c := r4_common rule in
  if negb (has (match_mask c) MATCH_ENABLED) then Some []
  else
    let addr x := fmt 32 (inet_ntoa (htonl x)) in
    let ip_str := list_ip 64 c (addr (r4_dst_ip rule)) (addr (r4_dst_mask rule)) in
    match cat (detail_pieces 128 c (addr (r4_src_ip rule)) (addr (r4_src_mask rule))) with
    | None => None
    | Some details => Some (list_row i (list_proto known4 c) (list_action c) (list_port 1 c) ip_str details)
    end.

Definition list_rule6 (inet_ntop : list Z -> list Z) (i : Z) (rule : filter_rule_ipv6) : option (list Z) :=
  let c := r6_common rule in
  if negb (has (match_mask c) MATCH_ENABLED) then Some []
  else
    let ip_str := list_ip 128 c (inet_ntop (r6_dst_ip rule)) (inet_ntop (r6_dst_mask rule)) in
    match cat (detail_pieces 256 c (inet_ntop (r6_src_ip rule)) (inet_ntop (r6_src_mask rule))) with
    | None => None
    | Some details => Some (list_row i (list_proto known6 c) (list_action c) (list_port 58 c) ip_str details)
    end.

(** [for (__u32 i = 0; i < MAX_RULES; i++)]; [found i] tells whether
    [bpf_map_lookup_elem] succeeds. *)
Fixpoint list_loop {R} (found : Z -> bool) (row : Z -> R -> option (list Z)) (i : Z) (table : list R)
    : option (list Z) :=
  match table with
  | [] => Some []
  | r :: table =>
    match (if found i then row i r else Some []), list_loop found row (i + 1) table with
    | Some a, Some b => Some (a ++ b)
    | _, _ => None
    end
  end.

Definition list_head : list Z :=
  chars "IDX | Proto | Action | Dst Port Range | Dst IP/Mask          | Advanced Match Details" ++ [10] ++
  chars "--------------------------------------------------------------------------------------" ++ [10].

(** The whole text. *)
Definition listing (found4 found6 : Z -> bool) (inet_ntop : list Z -> list Z) (maps : rule_maps)
    : option (list Z) :=
  match list_loop found4 list_rule4 0 (filter_rules maps),
        list_loop found6 (list_rule6 inet_ntop) 0 (filter_rules_ipv6 maps) with
  | Some a, Some b =>
    Some (chars "IPv4/Generic Rules:" ++ [10] ++ list_head ++ a ++
          [10] ++ chars "IPv6-specific Rules:" ++ [10] ++ list_head ++ b)
  | _, _ => None
  end.
End Columns.

(** Return value and the text printed. *)
Definition ebpfdivert_rules_list (env : rules_env) (found4 found6 : Z -> bool)
    (inet_ntop : list Z -> list Z) (maps : rule_maps) : option (Z * list Z) :=
  if maps_missing env then Some (-1, [])
  else option_map (fun text => (0, text)) (listing snprintf (strcat_all 256 []) found4 found6 inet_ntop maps).

(** ** Statistics *)

(** What the statistics are read from: [bpf_obj_get], the number of CPUs and
    the values of a key, one per CPU; [None] when the lookup fails. *)
Record stats_env : Type := mkStatsEnv {
  stats_get : Z;
  num_cpus : Z;
  stats_lookup : Z -> option (list Z)
}.

(** [for (int i = 0; i < num_cpus; i++) total += values[i]], in 64 bits. *)
Definition sum64 (values : list Z) : Z := fold_left (fun total v => u64 (total + v)) values 0.

(** [for (__u32 key = 0; key < (__u32)stats_len; key++)]: a store behind the
    end of [stats] is undefined; [n] is [stats_len - key]. *)
Fixpoint stats_loop (env : stats_env) (n : nat) (key : Z) (stats : list Z) : option (list Z) :=
  match n with
  | O => Some stats
  | S n =>
    if key <? zlen stats then
      let total := match stats_lookup env key with Some values => sum64 values | None => 0 end in
      stats_loop env n (key + 1) (set_nth (Z.to_nat key) total stats)
    else None
  end.

Definition ebpfdivert_get_stats (env : stats_env) (stats : list Z) (stats_len : Z) : option (Z * list Z) :=
  if stats_get env <? 0 then Some (-1, stats)
  else if num_cpus env <=? 0 then Some (-1, stats)
  else option_map (fun s => (0, s)) (stats_loop env (Z.to_nat (u32 stats_len)) 0 stats).

(** ** The buffers are large enough *)

(** What the members of a rule can hold. *)
Record common_range (r : pf_rule_common) : Prop := {
  rg_proto : 0 <= rc_proto r < 2 ^ 8;
  rg_ttl : 0 <= rc_ttl r < 2 ^ 8;
  rg_src : 0 <= src_port_start r < 2 ^ 16 /\ 0 <= src_port_end r < 2 ^ 16;
  rg_dst : 0 <= dst_port_start r < 2 ^ 16 /\ 0 <= dst_port_end r < 2 ^ 16
}.

Definition rule4_range (r : filter_rule) : Prop :=
  common_range (r4_common r) /\ is_u32 (r4_src_ip r) /\ is_u32 (r4_src_mask r) /\
  is_u32 (r4_dst_ip r) /\ is_u32 (r4_dst_mask r).

(** The reference: texts without buffers. *)
Definition whole (_ : Z) (s : list Z) : list Z := s.
Definition joined (pieces : list (list Z)) : option (list Z) := Some (concat pieces).

Lemma strcat_all_fits cap : forall pieces dst, zlen dst + zlen (concat pieces) < cap ->
  strcat_all cap dst pieces = Some (dst ++ concat pieces).
Proof.
  induction pieces as [|p pieces IH]; intros dst H; cbn [strcat_all concat] in *; [now rewrite app_nil_r|].
  rewrite zlen_app in H. pose proof (zlen_nonneg (concat pieces)). unfold strcat.
  replace (zlen dst + zlen p <? cap) with true by lia. rewrite IH by (rewrite zlen_app; lia).
  now rewrite <- app_assoc.
Qed.

Lemma decimal3 v : 0 <= v < 2 ^ 8 -> zlen (decimal v) <= 3.
Proof. intros H. apply (decimal_length 2); [change (10 ^ Z.of_nat 3) with 1000|]; lia. Qed.

Lemma decimal5 v : 0 <= v < 2 ^ 16 -> zlen (decimal v) <= 5.
Proof. intros H. apply (decimal_length 4); [change (10 ^ Z.of_nat 5) with 100000|]; lia. Qed.

Lemma zlen_chars s n : Z.of_nat (String.length s) = n -> zlen (chars s) = n.
Proof. intros <-. unfold zlen. f_equal. induction s as [|c s IH]; cbn; [reflexivity|now rewrite IH]. Qed.

(** The length of a text made of literals and numbers. *)
Ltac text_length :=
  rewrite ?zlen_app, ?zlen_cons, ?zlen_nil;
  repeat match goal with |- context [zlen (chars ?s)] =>
    let n := eval vm_compute in (Z.of_nat (String.length s)) in rewrite (zlen_chars s n eq_refl) end.

Section Fits.
Variable r : pf_rule_common.
Hypothesis Range : common_range r.

Lemma list_proto_whole known : list_proto snprintf known r = list_proto whole known r.
Proof using Range.
  unfold list_proto, whole. case_if; [|reflexivity]. destruct (known (rc_proto r)); [reflexivity|].
  apply snprintf_fits. pose proof (decimal3 _ (rg_proto _ Range)). lia.
Qed.

Lemma list_port_whole icmp : list_port snprintf icmp r = list_port whole icmp r.
Proof using Range.
  unfold list_port, whole. destruct (rg_src _ Range) as [S1 S2]. destruct (rg_dst _ Range) as [D1 D2].
  pose proof (decimal5 _ S1). pose proof (decimal5 _ D1). pose proof (decimal5 _ D2).
  repeat case_if; try reflexivity; apply snprintf_fits; text_length; lia.
Qed.

Lemma list_ip_whole cap ip mask : zlen ip + zlen mask + 1 < cap ->
  list_ip snprintf cap r ip mask = list_ip whole cap r ip mask.
Proof using. intros H. unfold list_ip, whole. case_if; [|reflexivity]. apply snprintf_fits. text_length. lia. Qed.

Lemma details_whole cap ip mask : zlen ip + zlen mask + 9 < cap ->
  detail_pieces snprintf cap r ip mask = detail_pieces whole cap r ip mask.
Proof using Range.
  intros H. unfold detail_pieces, whole. destruct (rg_src _ Range) as [S1 S2].
  pose proof (decimal5 _ S1). pose proof (decimal5 _ S2). pose proof (decimal3 _ (rg_ttl _ Range)).
  rewrite (snprintf_fits cap) by (text_length; lia). rewrite !(snprintf_fits 32) by (text_length; lia).
  rewrite !(snprintf_fits 64) by (unfold hex4, hex2; text_length; lia). reflexivity.
Qed.

Lemma piece_length b s rest n m : zlen s <= n -> zlen (concat rest) <= m ->
  zlen (concat (piece b s ++ rest)) <= n + m.
Proof using.
  intros Hs Hr. pose proof (zlen_nonneg s).
  destruct b; cbn [piece app concat]; rewrite ?zlen_app; lia.
Qed.

Lemma details_length cap ip mask :
  zlen (concat (detail_pieces whole cap r ip mask)) <= zlen ip + zlen mask + 97.
Proof using Range.
  destruct (rg_src _ Range) as [S1 S2].
  pose proof (decimal5 _ S1). pose proof (decimal5 _ S2). pose proof (decimal3 _ (rg_ttl _ Range)).
  unfold detail_pieces, whole, hex4, hex2. rewrite <- (app_nil_r (piece (negb (invert_mask r =? 0)) _)).
  replace (zlen ip + zlen mask + 97)
    with ((zlen ip + zlen mask + 9) + (21 + (12 + (13 + (8 + (20 + (14 + 0))))))) by lia.
  repeat apply piece_length; cbn [concat]; try case_if; text_length; lia.
Qed.
End Fits.

Lemma ntoa_length x : is_u32 x -> zlen (inet_ntoa (htonl x)) <= 15.
Proof. intros H. unfold inet_ntoa. rewrite swap_swap by exact H. now apply ipv4_text_length. Qed.

Lemma details_fit cap r ip mask : common_range r -> zlen ip + zlen mask + 9 < cap -> zlen ip + zlen mask < 159 ->
  strcat_all 256 [] (detail_pieces snprintf cap r ip mask) = joined (detail_pieces whole cap r ip mask).
Proof.
  intros R H1 H2. rewrite details_whole by assumption. rewrite strcat_all_fits; [reflexivity|].
  pose proof (details_length r R cap ip mask). rewrite zlen_nil. lia.
Qed.

Lemma list_rule4_whole i rule : rule4_range rule ->
  list_rule4 snprintf (strcat_all 256 []) i rule = list_rule4 whole joined i rule.
Proof.
  intros (R & H1 & H2 & H3 & H4). unfold list_rule4. case_if; [reflexivity|].
  pose proof (ntoa_length _ H1). pose proof (ntoa_length _ H2). pose proof (ntoa_length _ H3). pose proof (ntoa_length _ H4).
  rewrite !(snprintf_fits 32) by lia. rewrite details_fit by (assumption || lia).
  rewrite list_ip_whole by lia. rewrite list_proto_whole, list_port_whole by exact R.
  cbv zeta. unfold whole. reflexivity.
Qed.

Lemma list_rule6_whole ntop i rule : common_range (r6_common rule) -> (forall a, zlen (ntop a) <= 45) ->
  list_rule6 snprintf (strcat_all 256 []) ntop i rule = list_rule6 whole joined ntop i rule.
Proof.
  intros R N. unfold list_rule6. case_if; [reflexivity|].
  pose proof (N (r6_src_ip rule)). pose proof (N (r6_src_mask rule)).
  pose proof (N (r6_dst_ip rule)). pose proof (N (r6_dst_mask rule)).
  rewrite details_fit by (assumption || lia). rewrite list_ip_whole by lia.
  rewrite list_proto_whole, list_port_whole by exact R. reflexivity.
Qed.

Lemma list_loop_total {R} found (row : Z -> R -> option (list Z)) : (forall i r, exists t, row i r = Some t) ->
  forall table i, exists t, list_loop found row i table = Some t.
Proof.
  intros H. induction table as [|r table IH]; intros i; cbn [list_loop]; [eauto|].
  destruct (IH (i + 1)) as [b ->]. destruct (H i r) as [a Ha]. destruct (found i); rewrite ?Ha; eauto.
Qed.

Lemma list_loop_ext {R} found (row row' : Z -> R -> option (list Z)) : forall table i,
  Forall (fun r => forall i, row i r = row' i r) table -> list_loop found row i table = list_loop found row' i table.
Proof.
  induction table as [|r table IH]; intros i F; [reflexivity|]. inversion F as [|? ? Hr Ft]; subst.
  cbn [list_loop]. now rewrite Hr, IH.
Qed.

(** Listing the rules overflows and cuts nothing: for any tables of rules
    and IPv6 texts of at most 45 characters, [ebpfdivert_rules_list] prints
    the text that the columns and details of the enabled rules have without
    buffers; no [strcat] passes the end of its buffer. *)
Theorem rules_list_whole env found4 found6 ntop maps :
  maps_missing env = false -> Forall rule4_range (filter_rules maps) ->
  Forall (fun r => common_range (r6_common r)) (filter_rules_ipv6 maps) -> (forall a, zlen (ntop a) <= 45) ->
  exists text, listing whole joined found4 found6 ntop maps = Some text /\
    ebpfdivert_rules_list env found4 found6 ntop maps = Some (0, text).
Proof.
  intros M F4 F6 N. unfold ebpfdivert_rules_list. rewrite M. unfold listing.
  rewrite (list_loop_ext found4 (list_rule4 snprintf (strcat_all 256 [])) (list_rule4 whole joined) (filter_rules maps) 0)
    by (eapply Forall_impl; [|exact F4]; intros r H i; now apply list_rule4_whole).
  rewrite (list_loop_ext found6 (list_rule6 snprintf (strcat_all 256 []) ntop) (list_rule6 whole joined ntop) (filter_rules_ipv6 maps) 0)
    by (eapply Forall_impl; [|exact F6]; intros r H i; now apply list_rule6_whole).
  destruct (list_loop_total found4 (list_rule4 whole joined)) with (table := filter_rules maps) (i := 0) as [a ->];
    [intros i r; unfold list_rule4, joined; case_if; eauto|].
  destruct (list_loop_total found6 (list_rule6 whole joined ntop)) with (table := filter_rules_ipv6 maps) (i := 0)
    as [b ->]; [intros i r; unfold list_rule6, joined; case_if; eauto|].
  eexists. split; reflexivity.
Qed.

Lemma rules_list_whole_witness : exists maps text,
  ebpfdivert_rules_add_extended ExPinned.env 0 (Some (opts4 None ExPinned.drop_web)) empty_maps = Some (0, maps) /\
  ebpfdivert_rules_list ExPinned.env (fun _ => true) (fun _ => true) (fun _ => chars "::") maps = Some (0, text).
Proof.
  exists (mkMaps (table4 [spec_rule4 ExPinned.drop_web]) (table6 [])).
  destruct (rules_list_whole ExPinned.env (fun _ => true) (fun _ => true) (fun _ => chars "::")
    (mkMaps (table4 [spec_rule4 ExPinned.drop_web]) (table6 []))) as (text & _ & H).
  - reflexivity.
  - apply Forall_forall. intros r Hr. apply in_app_or in Hr. destruct Hr as [[<-|[]]|Hr].
    + split; [constructor; vm_compute; repeat split; congruence|]. unfold is_u32. vm_compute. repeat split; congruence.
    + apply repeat_spec in Hr. subst r. split; [constructor; vm_compute; repeat split; congruence|]. unfold is_u32. vm_compute. repeat split; congruence.
  - apply Forall_forall. intros r Hr. apply repeat_spec in Hr. subst r. constructor; vm_compute; repeat split; congruence.
  - intros _. vm_compute. congruence.
  - exists text. split; [vm_compute; reflexivity|exact H].
Defined.

(** ** Statistics: one counter per CPU *)

Lemma sum64_spec l : sum64 l = u64 (zsum l).
Proof.
  assert (G : forall l a, fold_left (fun total v => u64 (total + v)) l (u64 a) = u64 (a + zsum l)).
  { clear l. induction l as [|v l IH]; intros a; cbn [fold_left zsum fold_right]; [f_equal; lia|].
    replace (u64 (u64 a + v)) with (u64 (a + v)) by (unfold u64; now rewrite Zplus_mod_idemp_l).
    rewrite IH. f_equal. unfold zsum. lia. }
  exact (G l 0).
Qed.

(** What is stored for a key. *)
Definition total (env : stats_env) (key : Z) : Z :=
  match stats_lookup env key with Some values => sum64 values | None => 0 end.

Lemma stats_loop_spec env : forall n key out, 0 <= key -> key + Z.of_nat n <= zlen out ->
  exists res, stats_loop env n key out = Some res /\ length res = length out /\
    forall j, nth j res 0 =
      if (key <=? Z.of_nat j) && (Z.of_nat j <? key + Z.of_nat n) then total env (Z.of_nat j) else nth j out 0.
Proof.
  induction n as [|n IH]; intros key out Hk Hl; cbn [stats_loop].
  - exists out. split; [reflexivity|]. split; [reflexivity|]. intros j.
    now replace ((key <=? Z.of_nat j) && (Z.of_nat j <? key + Z.of_nat 0)) with false by lia.
  - replace (key <? zlen out) with true by lia. cbv zeta. fold (total env key).
    destruct (IH (key + 1) (set_nth (Z.to_nat key) (total env key) out)) as (res & E & L & H);
      [lia|unfold zlen in *; rewrite set_nth_length; lia|].
    exists res. split; [exact E|]. split; [now rewrite L, set_nth_length|].
    intros j. rewrite H, nth_set_nth. unfold zlen in Hl. destruct (Nat.eqb_spec j (Z.to_nat key)) as [->|N].
    + rewrite Z2Nat.id by lia. replace (Z.to_nat key <? length out)%nat with true by (symmetry; apply Nat.ltb_lt; lia).
      replace ((key + 1 <=? key) && (key <? key + 1 + Z.of_nat n)) with false by lia.
      now replace ((key <=? key) && (key <? key + Z.of_nat (S n))) with true by lia.
    + cbn [andb]. replace ((key + 1 <=? Z.of_nat j) && (Z.of_nat j <? key + 1 + Z.of_nat n))
        with ((key <=? Z.of_nat j) && (Z.of_nat j <? key + Z.of_nat (S n))) by lia. reflexivity.
Qed.

Definition counter (key : Z) (st : bpf_state) : Z := nth (Z.to_nat key) (BpfTc.stats st) 0.

(** The map [stats_map] as the system call shows it. *)
Definition stats_of (cpus : list bpf_state) : stats_env :=
  mkStatsEnv 0 (zlen cpus)
    (fun key => if (0 <=? key) && (key <? STAT_MAX) then Some (map (counter key) cpus) else None).

(** The programs count on the CPU they run on. *)
Definition count_on (event : nat * Z) (cpus : list bpf_state) : list bpf_state :=
  match nth_error cpus (fst event) with
  | Some st => set_nth (fst event) (increment_stat (snd event) st) cpus
  | None => cpus
  end.

Definition stats_wf (st : bpf_state) : Prop := length (BpfTc.stats st) = Z.to_nat STAT_MAX.

Definition event_ok (n : nat) (e : nat * Z) : Prop := (fst e < n)%nat /\ 0 <= snd e < STAT_MAX.

Lemma increment_counter key k st : stats_wf st -> 0 <= k < STAT_MAX -> 0 <= key < STAT_MAX ->
  stats_wf (increment_stat k st) /\
  counter key (increment_stat k st) = if key =? k then u64 (counter key st + 1) else counter key st.
Proof.
  intros W Hk Hkey. unfold stats_wf, STAT_MAX in *. unfold increment_stat.
  destruct (nth_error (BpfTc.stats st) (Z.to_nat k)) as [v|] eqn:E.
  - unfold counter. cbn [BpfTc.stats]. rewrite set_nth_length, nth_set_nth. split; [exact W|].
    destruct (Z.eqb_spec key k) as [->|N].
    + rewrite Nat.eqb_refl, W. cbn [andb].
      replace (Z.to_nat k <? Z.to_nat 8)%nat with true by (symmetry; apply Nat.ltb_lt; lia).
      now rewrite (nth_error_nth _ _ 0 E).
    + destruct (Nat.eqb_spec (Z.to_nat key) (Z.to_nat k)); [lia|reflexivity].
  - apply nth_error_None in E. lia.
Qed.

Lemma count_on_total key e cpus : Forall stats_wf cpus -> event_ok (length cpus) e -> 0 <= key < STAT_MAX ->
  Forall stats_wf (count_on e cpus) /\ length (count_on e cpus) = length cpus /\
  u64 (zsum (map (counter key) (count_on e cpus))) =
  u64 (zsum (map (counter key) cpus) + b2z (key =? snd e)).
Proof.
  intros W [Hc Hk] Hkey. unfold count_on. destruct (nth_error cpus (fst e)) as [st|] eqn:E;
    [|apply nth_error_None in E; lia].
  pose proof W as W'. rewrite Forall_forall in W'. specialize (W' st (nth_error_In _ _ E)).
  destruct (increment_counter key (snd e) st W' Hk Hkey) as [Ws C].
  split; [now apply set_nth_forall|]. split; [apply set_nth_length|].
  rewrite map_set_nth. erewrite sum_set_nth by (rewrite nth_error_map, E; reflexivity).
  rewrite C. destruct (key =? snd e); cbn [b2z]; [|f_equal; lia].
  unfold u64. rewrite Zplus_mod_idemp_r. f_equal. lia.
Qed.

(** How often [key] was counted. *)
Definition times (key : Z) (events : list (nat * Z)) : Z := zlen (filter (fun e => key =? snd e) events).

Lemma count_all_total key : forall events cpus, Forall stats_wf cpus -> Forall (event_ok (length cpus)) events ->
  0 <= key < STAT_MAX ->
  length (fold_left (fun c e => count_on e c) events cpus) = length cpus /\
  u64 (zsum (map (counter key) (fold_left (fun c e => count_on e c) events cpus))) =
  u64 (zsum (map (counter key) cpus) + times key events).
Proof.
  induction events as [|e events IH]; intros cpus W F Hk; cbn [fold_left].
  - split; [reflexivity|]. unfold times. cbn. rewrite zlen_nil. f_equal. lia.
  - inversion F as [|? ? He Fe]; subst. destruct (count_on_total key e cpus W He Hk) as (W' & L & T).
    destruct (IH (count_on e cpus) W') as [L' T']; [now rewrite L|exact Hk|].
    split; [congruence|]. rewrite T'. unfold times in *. cbn [filter].
    assert (B : forall a b c, u64 a = u64 b -> u64 (a + c) = u64 (b + c)).
    { intros a b c Hab. unfold u64 in *. now rewrite <- Zplus_mod_idemp_l, Hab, Zplus_mod_idemp_l. }
    rewrite (B _ _ _ T). destruct (key =? snd e); cbn [b2z]; rewrite ?zlen_cons; f_equal; lia.
Qed.

(** [ebpfdivert_get_stats] reports what the programs counted: whatever
    CPUs they ran on and in whatever order, it returns 0 and each of the
    eight counters has grown by the number of times the programs incremented
    it, modulo 2^64. *)
Theorem get_stats_counts cpus events out : cpus <> [] -> Forall stats_wf cpus ->
  Forall (event_ok (length cpus)) events -> zlen out = STAT_MAX ->
  exists res, ebpfdivert_get_stats (stats_of (fold_left (fun c e => count_on e c) events cpus)) out STAT_MAX =
      Some (0, res) /\ zlen res = STAT_MAX /\
    forall key, 0 <= key < STAT_MAX ->
      nth (Z.to_nat key) res 0 = u64 (zsum (map (counter key) cpus) + times key events).
Proof.
  intros N W F L. set (final := fold_left (fun c e => count_on e c) events cpus).
  assert (Lf : length final = length cpus) by (apply (count_all_total 0); [exact W|exact F|unfold STAT_MAX; lia]).
  unfold ebpfdivert_get_stats, stats_of. cbn [stats_get num_cpus]. cbn [Z.ltb Z.compare].
  replace (zlen final <=? 0) with false by (unfold zlen; destruct cpus; [congruence|cbn in Lf; lia]).
  fold (stats_of final). destruct (stats_loop_spec (stats_of final) (Z.to_nat (u32 STAT_MAX)) 0 out) as (res & -> & Lr & H);
    [lia|rewrite L; vm_compute; congruence|].
  exists res. split; [reflexivity|]. split; [unfold zlen in *; now rewrite Lr|]. intros key Hk.
  change (Z.of_nat (Z.to_nat (u32 STAT_MAX))) with 8 in H. unfold STAT_MAX in Hk.
  rewrite H, Z2Nat.id by lia. replace ((0 <=? key) && (key <? 0 + 8)) with true by lia.
  unfold total, stats_of. cbn [stats_lookup]. unfold STAT_MAX. replace ((0 <=? key) && (key <? 8)) with true by lia.
  rewrite sum64_spec. now apply count_all_total.
Qed.

Lemma get_stats_counts_witness : exists res,
  ebpfdivert_get_stats (stats_of (fold_left (fun c e => count_on e c) [(1%nat, STAT_DROPPED); (0%nat, STAT_DROPPED)]
    [mkState (repeat 0 8) []; mkState (repeat 0 8) []])) (repeat 7 8) STAT_MAX = Some (0, res) /\
  nth (Z.to_nat STAT_DROPPED) res 0 = 2.
Proof.
  destruct (get_stats_counts [mkState (repeat 0 8) []; mkState (repeat 0 8) []]
    [(1%nat, STAT_DROPPED); (0%nat, STAT_DROPPED)] (repeat 7 8)) as (res & E & _ & H).
  - discriminate.
  - repeat constructor.
  - repeat constructor; cbn; try lia; vm_compute; congruence.
  - reflexivity.
  - exists res. split; [exact E|]. rewrite H by (vm_compute; split; congruence). reflexivity.
Defined.
