(* ===== verification/EbLoad.v ===== *)
(** * Loading and unloading the pinned program

    [ebpfdivert_load], [ebpfdivert_unload], [attach_tc_hooks],
    [detach_tc_hooks] and [cleanup_pinned_resources] of [src/ebpfdivert.c].
    The traffic control hooks belong to libbpf: the class [TcHooks] is what
    the code calls and [TcLaws] what it relies on.  The other answers of
    libbpf and the system are the record [load_env]. *)

From Stdlib Require Import Ascii String ZArith List Bool Lia ZifyBool.
From S2P Require Import Prelude WdTypes WdPacket WdExec WdSerial WdAddr CString.
From S2P Require Import PfRange PfAddr PfCube PfEncode BpfParse BpfMatch BpfTc HdOpen EbRules EbMeaning.
Import ListNotations.
#[local] Open Scope list_scope.
#[local] Open Scope Z_scope.

(** ** Traffic control *)

Inductive tc_point : Set := TC_INGRESS | TC_EGRESS.

(** The calls on the hooks of an interface; [S] is the state of the kernel.
    Results the code ignores are left out. *)
Class TcHooks (S : Type) : Type := {
  tc_hook_create : Z -> tc_point -> S -> S;
  tc_attach : Z -> tc_point -> S -> Z * S;
  tc_detach : Z -> tc_point -> S -> S;
  tc_hook_destroy : Z -> list tc_point -> S -> Z * S;
  tc_query : Z -> S -> Z;
  attached : S -> Z -> tc_point -> bool              (* a filter is there *)
}.

(** Documented behaviour.  Calls act on their interface only; an attach that
    succeeds, or finds a filter, leaves a filter there, and touches the other
    hook of the interface in no case; a hook that is destroyed has no filter. *)
Class TcLaws (S : Type) {H : TcHooks S} : Prop := {
  create_keeps : forall i p s, attached (tc_hook_create i p s) = attached s;
  attach_there : forall i p s, let '(err, s') := tc_attach i p s in
    err = 0 \/ err = - EEXIST -> attached s' i p = true;
  attach_else : forall i p s j q, (j, q) <> (i, p) -> attached (snd (tc_attach i p s)) j q = attached s j q;
  detach_else : forall i p s j q, (j, q) <> (i, p) -> attached (tc_detach i p s) j q = attached s j q;
  destroy_there : forall i ps s p, let '(err, s') := tc_hook_destroy i ps s in
    err = 0 -> In p ps -> attached s' i p = false;
  destroy_else : forall i ps s j q, j <> i -> attached (snd (tc_hook_destroy i ps s)) j q = attached s j q;
  query_none : forall i s p, tc_query i s = - ENOENT -> attached s i p = false
}.

(** ** The system *)

(** One entry of [getifaddrs]; [if_packet] tells that it has an address of
    family [AF_PACKET]. *)
Record ifaddr : Set := mkIfaddr {
  ifa_name : list Z;
  if_packet : bool;
  if_up : bool
}.

Record load_env : Type := mkLoadEnv {
  nametoindex : list Z -> Z;               (* 0 when there is no such interface *)
  ifaddrs : option (list ifaddr);          (* None: getifaddrs fails *)
  object_open : bool;
  object_load : bool;
  object_map : list Z -> bool;             (* bpf_object__find_map_by_name *)
  map_pin : list Z -> bool;                (* bpf_map__pin succeeds *)
  config_update : bool;                    (* bpf_map_update_elem succeeds *)
  programs_found : bool
}.

(** The maps pinned under [/sys/fs/bpf/ebpfdivert/], the configuration of the
    program that was loaded last, and the hooks. *)
Record pin_state (S : Type) : Type := mkPin {
  pins : list (list Z);
  config : option divert_config;
  hooks : S
}.

Arguments pins {S}.
Arguments config {S}.
Arguments hooks {S}.
Arguments mkPin {S}.

Definition map_names : list (list Z) :=
  map chars ["filter_rules"; "filter_rules_ipv6"; "stats_map"; "config_map"; "pcap_ringbuf";
             "ipv4_lpm_trie"; "ipv6_lpm_trie"]%string.

Definition unlink (name : list Z) (files : list (list Z)) : list (list Z) :=
  filter (fun f => negb (streq f name)) files.

(** The directory goes with [rmdir] when it is empty. *)
Definition cleanup_pinned_resources (files : list (list Z)) : list (list Z) :=
  fold_left (fun files name => unlink name files) map_names files.

Section Loading.
Context {S : Type} {H : TcHooks S}.

Definition attach_failed (err : Z) : bool := negb (err =? 0) && negb (err =? - EEXIST).

Definition attach_tc_hooks (ifindex : Z) (s : S) : Z * S :=
  let s := tc_hook_create ifindex TC_INGRESS s in
  let '(err, s) := tc_attach ifindex TC_INGRESS s in
  if attach_failed err then (-1, snd (tc_hook_destroy ifindex [TC_INGRESS] s))
  else
    let s := tc_hook_create ifindex TC_EGRESS s in
    let '(err, s) := tc_attach ifindex TC_EGRESS s in
    if attach_failed err then
      let s := tc_detach ifindex TC_INGRESS s in
      let s := snd (tc_hook_destroy ifindex [TC_INGRESS] s) in
      (-1, snd (tc_hook_destroy ifindex [TC_EGRESS] s))
    else (0, s).

Definition detach_tc_hooks (ifindex : Z) (s : S) : Z * S :=
  if tc_query ifindex s =? - ENOENT then (0, s)
  else tc_hook_destroy ifindex [TC_INGRESS; TC_EGRESS] s.

Definition is_all (ifname : option (list Z)) : bool :=
  match ifname with None => true | Some s => streq s (chars "all") end.

Definition lo_name : list Z := chars "lo".

(** The loop over the interfaces of [ebpfdivert_unload]. *)
Fixpoint detach_loop (env : load_env) (ifs : list ifaddr) (s : S) : S :=
  match ifs with
  | [] => s
  | ifa :: ifs =>
    let idx := nametoindex env (ifa_name ifa) in
    if negb (if_packet ifa) then detach_loop env ifs s
    else if idx =? 0 then detach_loop env ifs s
    else detach_loop env ifs (snd (detach_tc_hooks idx s))
  end.

(** [lo_idx > 0 && lo_idx != ifindex] on the value of [if_nametoindex] as an
    [int]. *)
Definition also_lo (env : load_env) (ifindex : Z) : bool :=
  let lo := i32 (nametoindex env lo_name) in (lo >? 0) && negb (lo =? ifindex).

Definition ebpfdivert_unload (env : load_env) (ifname : option (list Z)) (st : pin_state S)
    : Z * pin_state S :=
  match (if is_all ifname then None else ifname) with
  | None =>
    match ifaddrs env with
    | None => (-1, st)
    | Some ifs =>
      (0, mkPin (cleanup_pinned_resources (pins st)) (config st) (detach_loop env ifs (hooks st)))
    end
  | Some name =>
    let ifindex := i32 (nametoindex env name) in
    if ifindex =? 0 then (-1, st)
    else
      let s := snd (detach_tc_hooks ifindex (hooks st)) in
      let s := if also_lo env ifindex then snd (detach_tc_hooks (i32 (nametoindex env lo_name)) s) else s in
      (0, mkPin (cleanup_pinned_resources (pins st)) (config st) s)
  end.

(** [unlink] and [bpf_map__pin] of each map the object has. *)
Definition pin_map (env : load_env) (files : list (list Z)) (name : list Z) : list (list Z) :=
  if object_map env name then
    let files := unlink name files in if map_pin env name then name :: files else files
  else files.

Definition pinned_config (env : load_env) (prio : Z) : divert_config :=
  let lo := i32 (nametoindex env lo_name) in
  mkConfig prio DIVERT_MAX_PACKET LOOP_PREVENTION_MARK (u32 (if lo >? 0 then lo else 1)) 0 0 0.

(** The loop over the interfaces of [ebpfdivert_load]: how many were
    attached. *)
Fixpoint attach_loop (env : load_env) (ifs : list ifaddr) (count : Z) (s : S) : Z * S :=
  match ifs with
  | [] => (count, s)
  | ifa :: ifs =>
    let idx := nametoindex env (ifa_name ifa) in
    if negb (if_packet ifa) then attach_loop env ifs count s
    else if streq (ifa_name ifa) lo_name then attach_loop env ifs count s
    else if negb (if_up ifa) then attach_loop env ifs count s
    else if idx =? 0 then attach_loop env ifs count s
    else
      let '(ret, s) := attach_tc_hooks idx s in
      attach_loop env ifs (if ret =? 0 then count + 1 else count) s
  end.

(** Attaching to what was asked for: did it succeed? *)
Definition attach_requested (env : load_env) (ifindex : option Z) (s : S) : bool * S :=
  match ifindex with
  | None =>
    match ifaddrs env with
    | None => (false, s)
    | Some ifs => let '(count, s) := attach_loop env ifs 0 s in (negb (count =? 0), s)
    end
  | Some idx => let '(ret, s) := attach_tc_hooks idx s in (ret =? 0, s)
  end.

Definition ebpfdivert_load (env : load_env) (ifname : option (list Z)) (prio : Z) (st : pin_state S)
    : Z * pin_state S :=
  let st := snd (ebpfdivert_unload env ifname st) in
  let ifindex := if is_all ifname then None
                 else option_map (fun name => i32 (nametoindex env name)) ifname in
  if match ifindex with Some idx => idx =? 0 | None => false end then (-1, st)
  else if negb (object_open env) then (-1, st)
  else if negb (object_load env) then (-1, st)
  else
    let files := fold_left (pin_map env) map_names (pins st) in
    let cfg := if object_map env (chars "config_map") && config_update env
               then Some (pinned_config env prio) else None in
    if negb (programs_found env) then (-1, mkPin (cleanup_pinned_resources files) cfg (hooks st))
    else
      let '(ok, s) := attach_requested env ifindex (hooks st) in
      if negb ok then (-1, mkPin (cleanup_pinned_resources files) cfg s)
      else
        let idx := match ifindex with Some idx => idx | None => 0 end in
        let s := if also_lo env idx then snd (attach_tc_hooks (i32 (nametoindex env lo_name)) s) else s in
        (0, mkPin files cfg s).
End Loading.

(** ** Hooks *)

Section Hooks.
Context {S : Type} {H : TcHooks S} {L : TcLaws S}.

Lemma attach_tc_hooks_else i s j q : j <> i -> attached (snd (attach_tc_hooks i s)) j q = attached s j q.
Proof using L.
  intros N. assert (P : forall p, (j, q) <> (i, p)) by congruence. unfold attach_tc_hooks.
  pose proof (attach_else i TC_INGRESS (tc_hook_create i TC_INGRESS s) j q (P _)) as A1.
  destruct (tc_attach i TC_INGRESS _) as [e1 s1]. cbn [snd] in A1. rewrite create_keeps in A1.
  destruct (attach_failed e1); cbn [snd]; [now rewrite destroy_else by exact N|].
  pose proof (attach_else i TC_EGRESS (tc_hook_create i TC_EGRESS s1) j q (P _)) as A2.
  destruct (tc_attach i TC_EGRESS _) as [e2 s2]. cbn [snd] in A2. rewrite create_keeps in A2.
  destruct (attach_failed e2); cbn [snd]; [|congruence].
  rewrite !destroy_else, detach_else by (exact N || apply P). congruence.
Qed.

Lemma attach_tc_hooks_there i s p : fst (attach_tc_hooks i s) = 0 -> attached (snd (attach_tc_hooks i s)) i p = true.
Proof using L.
  unfold attach_tc_hooks.
  pose proof (attach_there i TC_INGRESS (tc_hook_create i TC_INGRESS s)) as T1.
  destruct (tc_attach i TC_INGRESS _) as [e1 s1]. destruct (attach_failed e1) eqn:F1; [discriminate|].
  pose proof (attach_there i TC_EGRESS (tc_hook_create i TC_EGRESS s1)) as T2.
  pose proof (attach_else i TC_EGRESS (tc_hook_create i TC_EGRESS s1) i TC_INGRESS ltac:(congruence)) as E2.
  destruct (tc_attach i TC_EGRESS _) as [e2 s2]. destruct (attach_failed e2) eqn:F2; [discriminate|].
  intros _. cbn [snd] in *. rewrite create_keeps in E2. unfold attach_failed in F1, F2.
  destruct p; [rewrite E2; apply T1; lia|apply T2; lia].
Qed.

Lemma detach_tc_hooks_else i s j q : j <> i -> attached (snd (detach_tc_hooks i s)) j q = attached s j q.
Proof using L. intros N. unfold detach_tc_hooks. case_if; [reflexivity|]. now apply destroy_else. Qed.

Lemma detach_tc_hooks_there i s p : fst (detach_tc_hooks i s) = 0 -> attached (snd (detach_tc_hooks i s)) i p = false.
Proof using L.
  unfold detach_tc_hooks. destruct (tc_query i s =? - ENOENT) eqn:Q; intros E.
  - apply query_none. now apply Z.eqb_eq.
  - pose proof (destroy_there i [TC_INGRESS; TC_EGRESS] s p) as D.
    destruct (tc_hook_destroy i [TC_INGRESS; TC_EGRESS] s). apply D; [exact E|]. destruct p; cbn; tauto.
Qed.

(** *** The loops over the interfaces *)

(** Interfaces have different indices. *)
Definition distinct (env : load_env) : Prop :=
  forall a b, nametoindex env a = nametoindex env b -> nametoindex env a <> 0 -> a = b.

(** What the loop of [ebpfdivert_load] attaches to. *)
Definition eligible (env : load_env) (ifa : ifaddr) : bool :=
  if_packet ifa && negb (streq (ifa_name ifa) lo_name) && if_up ifa && negb (nametoindex env (ifa_name ifa) =? 0).

Lemma attach_loop_else env : forall ifs count s j q,
  (forall ifa, In ifa ifs -> eligible env ifa = true -> nametoindex env (ifa_name ifa) <> j) ->
  attached (snd (attach_loop env ifs count s)) j q = attached s j q.
Proof using L.
  induction ifs as [|ifa ifs IH]; intros count s j q Hj; cbn [attach_loop]; [reflexivity|].
  assert (Ht : forall a, In a ifs -> eligible env a = true -> nametoindex env (ifa_name a) <> j)
    by (intros a Ha; apply Hj; now right).
  pose proof (Hj ifa (or_introl eq_refl)) as Hi. unfold eligible in Hi.
  destruct (if_packet ifa); cbn [negb andb] in *; [|now apply IH].
  destruct (streq (ifa_name ifa) lo_name); cbn [negb andb] in *; [now apply IH|].
  destruct (if_up ifa); cbn [negb andb] in *; [|now apply IH].
  destruct (nametoindex env (ifa_name ifa) =? 0); [now apply IH|]. specialize (Hi eq_refl).
  destruct (attach_tc_hooks _ s) as [ret s'] eqn:E. rewrite IH by exact Ht.
  change s' with (snd (ret, s')). rewrite <- E. apply attach_tc_hooks_else. congruence.
Qed.

Lemma attach_loop_count env : distinct env -> forall ifs count s, NoDup (map ifa_name (filter if_packet ifs)) ->
  fst (attach_loop env ifs count s) <> count ->
  exists ifa, In ifa ifs /\ eligible env ifa = true /\
    forall p, attached (snd (attach_loop env ifs count s)) (nametoindex env (ifa_name ifa)) p = true.
Proof using L.
  intros D. induction ifs as [|ifa ifs IH]; intros count s ND Hc; cbn [attach_loop] in *; [now cbn in Hc|].
  assert (ND' : NoDup (map ifa_name (filter if_packet ifs)))
    by (cbn [filter] in ND; destruct (if_packet ifa); [now inversion ND|exact ND]).
  assert (Next : forall c s', fst (attach_loop env ifs c s') <> c -> exists a, In a (ifa :: ifs) /\ eligible env a = true /\
            forall p, attached (snd (attach_loop env ifs c s')) (nametoindex env (ifa_name a)) p = true).
  { intros c s' Hc'. destruct (IH c s' ND' Hc') as (a & Ha & Ea & Pa). exists a. split; [now right|]. now split. }
  destruct (if_packet ifa) eqn:P; cbn [negb] in *; [|now apply Next].
  destruct (streq (ifa_name ifa) lo_name) eqn:Lo; [now apply Next|].
  destruct (if_up ifa) eqn:U; cbn [negb] in *; [|now apply Next].
  destruct (nametoindex env (ifa_name ifa) =? 0) eqn:I; [now apply Next|].
  destruct (attach_tc_hooks _ s) as [ret s'] eqn:E. destruct (Z.eqb_spec ret 0) as [->|R]; [|now apply Next].
  exists ifa. split; [now left|]. split; [unfold eligible; now rewrite P, Lo, U, I|].
  intros p. rewrite attach_loop_else.
  - change s' with (snd (0, s')). rewrite <- E. apply attach_tc_hooks_there. now rewrite E.
  - intros a Ha Ea Eq. unfold eligible in Ea. b2p.
    assert (En : ifa_name a = ifa_name ifa) by (apply D; [exact Eq|lia]).
    cbn [filter] in ND. rewrite P in ND. cbn [map] in ND. inversion ND as [|? ? Nin _]. subst.
    apply Nin. rewrite <- En. apply in_map, filter_In. now split.
Qed.

Hypothesis Destroys : forall i s, fst (detach_tc_hooks i s) = 0.

Lemma detach_stays env : forall ifs s j q, attached s j q = false -> attached (detach_loop env ifs s) j q = false.
Proof using L Destroys.
  induction ifs as [|ifa ifs IH]; intros s j q A; cbn [detach_loop]; [exact A|].
  repeat (case_if; [now apply IH|]). apply IH.
  destruct (Z.eq_dec j (nametoindex env (ifa_name ifa))) as [->|N].
  - now apply detach_tc_hooks_there.
  - now rewrite detach_tc_hooks_else.
Qed.

Lemma detach_loop_there env : forall ifs s ifa q, In ifa ifs -> if_packet ifa = true ->
  nametoindex env (ifa_name ifa) <> 0 -> attached (detach_loop env ifs s) (nametoindex env (ifa_name ifa)) q = false.
Proof using L Destroys.
  induction ifs as [|a ifs IH]; intros s ifa q Hi P N; [destruct Hi|]. cbn [detach_loop]. destruct Hi as [->|Hi].
  - rewrite P. cbn [negb]. replace (nametoindex env (ifa_name ifa) =? 0) with false by lia.
    apply detach_stays. now apply detach_tc_hooks_there.
  - repeat (case_if; [now apply IH|]). now apply IH.
Qed.
End Hooks.

(** ** Pinned files *)

Lemma unlink_In f name files : In f (unlink name files) <-> In f files /\ f <> name.
Proof.
  unfold unlink. rewrite filter_In. split; intros [Hf N]; split; auto.
  - intros ->. now rewrite streq_refl in N.
  - destruct (streq f name) eqn:E; [apply streq_spec in E; contradiction|reflexivity].
Qed.

Lemma cleanup_In f files : In f (cleanup_pinned_resources files) <-> In f files /\ ~ In f map_names.
Proof.
  unfold cleanup_pinned_resources. generalize map_names as names. intros names. revert files.
  induction names as [|n names IH]; intros files; cbn [fold_left In]; [tauto|].
  rewrite IH, unlink_In. intuition congruence.
Qed.

(** A file that is no map is left alone; a map is there when it was pinned. *)
Lemma pin_maps_In env f : forall names files, In f (fold_left (pin_map env) names files) ->
  In f files \/ In f names.
Proof.
  induction names as [|n names IH]; intros files Hf; cbn [fold_left In] in *; [now left|].
  destruct (IH _ Hf) as [Hp|Hp]; [|tauto]. unfold pin_map in Hp.
  destruct (object_map env n), (map_pin env n); cbn [In] in Hp; rewrite ?unlink_In in Hp; tauto.
Qed.

Lemma pin_maps_keep env f : forall names files, ~ In f names -> In f files ->
  In f (fold_left (pin_map env) names files).
Proof.
  induction names as [|n names IH]; intros files N Hf; cbn [fold_left In] in *; [exact Hf|].
  apply IH; [tauto|]. unfold pin_map.
  destruct (object_map env n), (map_pin env n); cbn [In]; rewrite ?unlink_In; intuition congruence.
Qed.

Lemma pin_maps_there env f : object_map env f = true -> map_pin env f = true -> forall names files,
  In f names \/ In f files -> In f (fold_left (pin_map env) names files).
Proof.
  intros O P. induction names as [|n names IH]; intros files Hf; cbn [fold_left In] in *; [tauto|].
  apply IH. assert (C : f = n \/ f <> n) by (destruct (streq f n) eqn:E; [left; now apply streq_spec|
    right; intros ->; now rewrite streq_refl in E]).
  destruct C as [->|N].
  - right. unfold pin_map. rewrite O, P. now left.
  - destruct Hf as [[Hf|Hf]|Hf]; [congruence|now left|]. right. unfold pin_map.
    destruct (object_map env n), (map_pin env n); cbn [In]; rewrite ?unlink_In; auto.
Qed.

(** ** Loading *)

Section Results.
Context {S : Type} {H : TcHooks S} {L : TcLaws S} (env : load_env).

(** What was asked for has a filter at both hooks. *)
Definition requested_attached (ifname : option (list Z)) (s : S) : Prop :=
  match (if is_all ifname then None else ifname) with
  | Some name => forall p, attached s (i32 (nametoindex env name)) p = true
  | None => exists ifs ifa, ifaddrs env = Some ifs /\ In ifa ifs /\ eligible env ifa = true /\
      forall p, attached s (nametoindex env (ifa_name ifa)) p = true
  end.

(** Indices are small positive numbers. *)
Definition indices_ok : Prop := distinct env /\ (forall a, 0 <= nametoindex env a < 2 ^ 31).

Lemma i32_small z : 0 <= z < 2 ^ 31 -> i32 z = z.
Proof using. intros Hz. unfold i32, u32. rewrite Z.mod_small by lia. now replace (z <? 2 ^ 31) with true by lia. Qed.

(** Attaching lo keeps what was attached to the other interfaces. *)
Lemma lo_keeps (s : S) j p : j <> i32 (nametoindex env lo_name) ->
  attached (snd (attach_tc_hooks (i32 (nametoindex env lo_name)) s)) j p = attached s j p.
Proof using L. apply attach_tc_hooks_else. Qed.

Lemma load_attaches ifname prio st st' : indices_ok ->
  (forall ifs, ifaddrs env = Some ifs -> NoDup (map ifa_name (filter if_packet ifs))) ->
  ebpfdivert_load env ifname prio st = (0, st') ->
  requested_attached ifname (hooks st') /\
  pins st' = fold_left (pin_map env) map_names (pins (snd (ebpfdivert_unload env ifname st))).
Proof using L.
  intros [D R] ND. unfold ebpfdivert_load, requested_attached.
  set (st0 := snd (ebpfdivert_unload env ifname st)).
  assert (K : (if is_all ifname then None else option_map (fun name => i32 (nametoindex env name)) ifname) =
              option_map (fun name => i32 (nametoindex env name)) (if is_all ifname then None else ifname))
    by now destruct (is_all ifname).
  rewrite K. destruct (if is_all ifname then None else ifname) as [name|]; cbn [option_map attach_requested].
  - destruct (i32 (nametoindex env name) =? 0); [discriminate|].
    destruct (object_open env), (object_load env), (programs_found env); cbn [negb]; try discriminate.
    destruct (attach_tc_hooks (i32 (nametoindex env name)) (hooks st0)) as [ret s] eqn:E.
    destruct (Z.eqb_spec ret 0) as [->|]; cbn [negb]; [|discriminate]. intros [= <-]. cbn [hooks pins].
    split; [|reflexivity]. intros p.
    assert (A : attached s (i32 (nametoindex env name)) p = true).
    { change s with (snd (0, s)). rewrite <- E. apply attach_tc_hooks_there. now rewrite E. }
    destruct (also_lo env (i32 (nametoindex env name))) eqn:Lo; [|exact A].
    rewrite lo_keeps; [exact A|]. unfold also_lo in Lo. lia.
  - destruct (object_open env), (object_load env), (programs_found env); cbn [negb]; try discriminate.
    destruct (ifaddrs env) as [ifs|] eqn:I; [|discriminate].
    destruct (attach_loop env ifs 0 (hooks st0)) as [count s] eqn:E.
    destruct (Z.eqb_spec count 0) as [->|C]; cbn [negb]; [discriminate|]. intros [= <-]. cbn [hooks pins].
    split; [|reflexivity].
    destruct (attach_loop_count env D ifs 0 (hooks st0) (ND ifs eq_refl)) as (ifa & Hi & Ei & A); [now rewrite E|].
    rewrite E in A. exists ifs, ifa. repeat split; auto. intros p.
    destruct (also_lo env 0) eqn:Lo; [|exact (A p)]. rewrite lo_keeps; [exact (A p)|].
    rewrite i32_small by apply R. unfold eligible in Ei. apply andb_true_iff in Ei. destruct Ei as [Ei Nz].
    apply andb_true_iff in Ei. destruct Ei as [Ei _]. apply andb_true_iff in Ei. destruct Ei as [_ Nl].
    intros Eq. assert (En : ifa_name ifa = lo_name) by (apply D; [exact Eq|lia]).
    rewrite En, streq_refl in Nl. discriminate Nl.
Qed.
End Results.

(** A load that returns 0 has done what it was asked for: the named
    interface, or for all interfaces at least one that is up and not lo, has
    a filter at both hooks; every map of the object that could be pinned is
    pinned; and the configuration, when it could be written, holds the given
    priority, takes whole packets and disables the owner's heartbeat. *)
Theorem load_success {S : Type} {H : TcHooks S} {L : TcLaws S} (env : load_env) ifname prio (st st' : pin_state S) :
  indices_ok env ->
  (forall ifs, ifaddrs env = Some ifs -> NoDup (map ifa_name (filter if_packet ifs))) ->
  ebpfdivert_load env ifname prio st = (0, st') ->
  requested_attached env ifname (hooks st') /\
  (forall name, In name map_names -> object_map env name = true -> map_pin env name = true ->
     In name (pins st')) /\
  (object_map env (chars "config_map") = true -> config_update env = true ->
     exists cfg, config st' = Some cfg /\ priority cfg = prio /\ snaplen cfg = DIVERT_MAX_PACKET /\
       cfg_flags cfg = 0 /\ forall k, owner_gone k cfg = false).
Proof.
  intros I ND E. destruct (load_attaches env ifname prio st st' I ND E) as [A P].
  split; [exact A|]. split; [intros name Hn O M; rewrite P; apply pin_maps_there; auto|].
  intros O U. exists (pinned_config env prio). split; [|repeat split].
  unfold ebpfdivert_load in E. rewrite O, U in E. repeat (case_if_in E; [discriminate E|]).
  destruct (attach_requested _ _ _) as [ok s]. case_if_in E; [discriminate E|]. now injection E as <-.
Qed.

(** A load that fails leaves no map pinned behind: when the interface
    was known (so that the unload it starts with ran) and the load still
    returns -1, none of the seven maps is pinned; whatever it returns, files
    of the directory that are no map of the program, such as the registry of
    handles, are as before. *)
Theorem load_failure_clean {S : Type} {H : TcHooks S} (env : load_env) ifname prio (st : pin_state S) :
  let '(ret, st') := ebpfdivert_load env ifname prio st in
  (ret <> 0 -> fst (ebpfdivert_unload env ifname st) = 0 -> forall name, In name map_names -> ~ In name (pins st')) /\
  (forall f, ~ In f map_names -> In f (pins st') <-> In f (pins st)).
Proof.
  assert (U : let st0 := snd (ebpfdivert_unload env ifname st) in
    (fst (ebpfdivert_unload env ifname st) = 0 -> forall name, In name map_names -> ~ In name (pins st0)) /\
    (forall f, ~ In f map_names -> In f (pins st0) <-> In f (pins st))).
  { unfold ebpfdivert_unload. destruct (if is_all ifname then None else ifname).
    - case_if; cbn [fst snd pins]; [split; [discriminate|tauto]|].
      split; [intros _ n Hn; rewrite cleanup_In; tauto|intros f Hf; rewrite cleanup_In; tauto].
    - destruct (ifaddrs env); cbn [fst snd pins]; [|split; [discriminate|tauto]].
      split; [intros _ n Hn; rewrite cleanup_In; tauto|intros f Hf; rewrite cleanup_In; tauto]. }
  destruct (ebpfdivert_unload env ifname st) as [r0 st0] eqn:E0. cbv zeta in U. cbn [fst snd] in U. destruct U as [U1 U2].
  assert (F : forall f, ~ In f map_names -> In f (fold_left (pin_map env) map_names (pins st0)) <-> In f (pins st)).
  { intros f Hf. rewrite <- (U2 f Hf). split; [intros Hi; destruct (pin_maps_In _ _ _ _ Hi); tauto|now apply pin_maps_keep]. }
  assert (C : forall f, In f (cleanup_pinned_resources (fold_left (pin_map env) map_names (pins st0))) <->
                        In f (pins st) /\ ~ In f map_names).
  { intros f. rewrite cleanup_In. split; intros [A B]; (split; [|exact B]); now apply (F f B). }
  unfold ebpfdivert_load. rewrite E0. cbn [fst snd].
  repeat (case_if; [split; [auto|exact U2]|]). case_if.
  - cbn [pins]. split; [intros _ _ n Hn; rewrite C; tauto|intros f Hf; rewrite C; tauto].
  - destruct (attach_requested _ _ _) as [ok s]. destruct ok; cbn [negb pins].
    + split; [congruence|exact F].
    + split; [intros _ _ n Hn; rewrite C; tauto|intros f Hf; rewrite C; tauto].
Qed.

(** [ebpfdivert_unload] for all interfaces detaches the program: when
    the hooks can be destroyed it returns 0, no interface of the system with
    a link layer has a filter at either hook any more, no map is pinned, and
    files that are no map are kept. *)
Theorem unload_all_detaches {S : Type} {H : TcHooks S} {L : TcLaws S} (env : load_env) ifs (st : pin_state S) :
  ifaddrs env = Some ifs -> (forall i s, fst (detach_tc_hooks (S := S) i s) = 0) ->
  exists st', ebpfdivert_unload env None st = (0, st') /\
    (forall ifa p, In ifa ifs -> if_packet ifa = true -> nametoindex env (ifa_name ifa) <> 0 ->
       attached (hooks st') (nametoindex env (ifa_name ifa)) p = false) /\
    (forall f, In f (pins st') <-> In f (pins st) /\ ~ In f map_names).
Proof.
  intros I D. unfold ebpfdivert_unload. cbn [is_all]. rewrite I. eexists. split; [reflexivity|]. cbn [hooks pins].
  split; [|intros f; apply cleanup_In]. intros ifa p Hi P N. now apply detach_loop_there.
Qed.

(** ** A kernel with the documented behaviour *)

Module ExTc.
Definition same (a b : Z * tc_point) : bool :=
  (fst a =? fst b) && match snd a, snd b with TC_INGRESS, TC_INGRESS | TC_EGRESS, TC_EGRESS => true | _, _ => false end.

Definition there (s : list (Z * tc_point)) (i : Z) (p : tc_point) : bool := existsb (same (i, p)) s.
Definition drop (s : list (Z * tc_point)) (i : Z) (p : tc_point) : list (Z * tc_point) :=
  filter (fun x => negb (same (i, p) x)) s.

#[export] Instance hooks_list : TcHooks (list (Z * tc_point)) := {
  tc_hook_create _ _ s := s;
  tc_attach i p s := if there s i p then (- EEXIST, s) else (0, (i, p) :: s);
  tc_detach i p s := drop s i p;
  tc_hook_destroy i ps s := (0, fold_left (fun s p => drop s i p) ps s);
  tc_query i s := if there s i TC_INGRESS || there s i TC_EGRESS then 0 else - ENOENT;
  attached := there
}.

Lemma same_spec a b : same a b = true <-> a = b.
Proof.
  destruct a as [i p], b as [j q]. unfold same. cbn [fst snd]. rewrite andb_true_iff, Z.eqb_eq.
  split; [intros [-> E]; destruct p, q; congruence|intros [= -> ->]; now destruct q].
Qed.

Lemma there_spec s i p : there s i p = true <-> In (i, p) s.
Proof.
  unfold there. rewrite existsb_exists. split; [intros (x & Hx & E); apply same_spec in E; now subst|].
  intros Hi. exists (i, p). split; [exact Hi|now apply same_spec].
Qed.

Lemma there_drop s i p j q : there (drop s i p) j q = there s j q && negb (same (i, p) (j, q)).
Proof.
  unfold there, drop. induction s as [|x s IH]; [reflexivity|]. cbn [filter existsb].
  destruct (same (i, p) x) eqn:E; cbn [negb existsb]; rewrite IH.
  - apply same_spec in E. subst x. destruct (same (j, q) (i, p)) eqn:F; [|reflexivity].
    apply same_spec in F. injection F as -> ->. replace (same (i, p) (i, p)) with true by (symmetry; now apply same_spec).
    now rewrite !andb_false_r.
  - destruct (same (j, q) x) eqn:F; [|reflexivity]. apply same_spec in F. subst x. rewrite E. reflexivity.
Qed.

Lemma there_drops i ps : forall s j q, there (fold_left (fun s p => drop s i p) ps s) j q =
  there s j q && negb ((i =? j) && existsb (fun p => same (i, p) (i, q)) ps).
Proof.
  induction ps as [|p ps IH]; intros s j q; cbn [fold_left existsb]; [now rewrite andb_false_r, andb_true_r|].
  rewrite IH, there_drop. unfold same. cbn [fst snd]. rewrite Z.eqb_refl. cbn [andb].
  destruct (there s j q), (i =? j); cbn [andb negb orb]; try reflexivity.
  now destruct (match p, q with TC_INGRESS, TC_INGRESS | TC_EGRESS, TC_EGRESS => true | _, _ => false end).
Qed.

#[export] Instance laws_list : TcLaws (list (Z * tc_point)).
Proof.
  constructor; cbn [tc_hook_create tc_attach tc_detach tc_hook_destroy tc_query attached hooks_list].
  - reflexivity.
  - intros i p s. destruct (there s i p) eqn:E; [auto|]. intros _. apply there_spec. now left.
  - intros i p s j q N. destruct (there s i p) eqn:E; cbn [snd]; [reflexivity|]. unfold there. cbn [existsb].
    replace (same (j, q) (i, p)) with false; [reflexivity|]. symmetry. apply not_true_iff_false. now rewrite same_spec.
  - intros i p s j q N. rewrite there_drop. replace (same (i, p) (j, q)) with false; [now rewrite andb_true_r|].
    symmetry. apply not_true_iff_false. rewrite same_spec. congruence.
  - intros i ps s p _ Hp. rewrite there_drops, Z.eqb_refl.
    replace (existsb _ ps) with true; [now rewrite andb_false_r|]. symmetry. apply existsb_exists.
    exists p. split; [exact Hp|now apply same_spec].
  - intros i ps s j q N. cbn [snd]. rewrite there_drops. replace (i =? j) with false by lia. now rewrite andb_true_r.
  - intros i s p Q. destruct (there s i TC_INGRESS) eqn:E1, (there s i TC_EGRESS) eqn:E2;
      try discriminate Q. now destruct p.
Qed.

Definition env : load_env :=
  mkLoadEnv (fun n => if streq n lo_name then 1 else if streq n (chars "eth0") then 2 else 0)
    (Some [mkIfaddr lo_name true true; mkIfaddr (chars "eth0") true true; mkIfaddr (chars "eth0") false true])
    true true (fun _ => true) (fun _ => true) true true.

Definition fresh : pin_state (list (Z * tc_point)) := mkPin [chars "registry"] None [].

Lemma indices : indices_ok env /\ (forall ifs, ifaddrs env = Some ifs -> NoDup (map ifa_name (filter if_packet ifs))).
Proof.
  split; [split|].
  - intros a b. cbn [env nametoindex]. destruct (streq a lo_name) eqn:A1, (streq b lo_name) eqn:B1;
      destruct (streq a (chars "eth0")) eqn:A2, (streq b (chars "eth0")) eqn:B2; intros E N; try lia;
      rewrite ?streq_spec in *; congruence.
  - intros a. cbn [env nametoindex]. repeat case_if; lia.
  - intros ifs [= <-]. repeat constructor; cbn; intuition discriminate.
Qed.
End ExTc.

#[local] Existing Instances ExTc.hooks_list ExTc.laws_list.

Lemma load_success_witness : exists st',
  ebpfdivert_load ExTc.env (Some (chars "all")) 7 ExTc.fresh = (0, st') /\
  requested_attached ExTc.env (Some (chars "all")) (hooks st').
Proof.
  destruct ExTc.indices as [I ND].
  destruct (ebpfdivert_load ExTc.env (Some (chars "all")) 7 ExTc.fresh) as [ret st'] eqn:E.
  assert (R : ret = 0) by (vm_compute in E; now injection E). subst ret. exists st'. split; [reflexivity|].
  exact (proj1 (load_success ExTc.env (Some (chars "all")) 7 ExTc.fresh st' I ND E)).
Defined.

Lemma unload_all_detaches_witness : exists st',
  ebpfdivert_unload ExTc.env None (snd (ebpfdivert_load ExTc.env None 7 ExTc.fresh)) = (0, st') /\
  attached (hooks st') 2 TC_EGRESS = false.
Proof.
  destruct (unload_all_detaches ExTc.env
    [mkIfaddr lo_name true true; mkIfaddr (chars "eth0") true true; mkIfaddr (chars "eth0") false true]
    (snd (ebpfdivert_load ExTc.env None 7 ExTc.fresh))) as (st' & E & D & _).
  - reflexivity.
  - intros i s. unfold detach_tc_hooks. now case_if.
  - exists st'. split; [exact E|].
    apply (D (mkIfaddr (chars "eth0") true true) TC_EGRESS); [now right; left|reflexivity|vm_compute; congruence].
Defined.

Lemma load_failure_clean_witness :
  let broken := mkLoadEnv (nametoindex ExTc.env) (ifaddrs ExTc.env) true false (fun _ => true) (fun _ => true) true true in
  let st := snd (ebpfdivert_load ExTc.env None 7 ExTc.fresh) in
  In (chars "stats_map") (pins st) /\
  fst (ebpfdivert_load broken None 0 st) = -1 /\
  ~ In (chars "stats_map") (pins (snd (ebpfdivert_load broken None 0 st))) /\
  In (chars "registry") (pins (snd (ebpfdivert_load broken None 0 st))).
Proof.
  intros broken st. pose proof (load_failure_clean broken None 0 st) as F.
  assert (R : fst (ebpfdivert_load broken None 0 st) = -1) by (vm_compute; reflexivity).
  split; [vm_compute; tauto|]. split; [exact R|].
  destruct (ebpfdivert_load broken None 0 st) as [ret st']. cbn [fst snd] in *. destruct F as [F1 F2].
  split; [apply F1; [lia|vm_compute; reflexivity|vm_compute; tauto]|].
  apply F2; [vm_compute; intuition discriminate|vm_compute; tauto].
Defined.

(** ** One interface of many *)

Definition two_interfaces : load_env :=
  mkLoadEnv (fun n => if streq n lo_name then 1 else if streq n (chars "eth0") then 2
                      else if streq n (chars "eth1") then 3 else 0)
    (Some [mkIfaddr lo_name true true; mkIfaddr (chars "eth0") true true; mkIfaddr (chars "eth1") true true])
    true true (fun _ => true) (fun _ => true) true true.

(** Unloading one interface unpins the maps, and detaches lo, while the
    program stays attached to the other interfaces: its rules can no longer
    be listed or changed. *)
Lemma unload_one_unpins :
  let st := snd (ebpfdivert_load two_interfaces None 0 ExTc.fresh) in
  let '(ret, st') := ebpfdivert_unload two_interfaces (Some (chars "eth0")) st in
  ret = 0 /\ attached (hooks st') 3 TC_INGRESS = true /\ attached (hooks st') 1 TC_INGRESS = false /\
  pins st' = [chars "registry"].
Proof. vm_compute. repeat split. Qed.
