(* ===== verification/Pinned.v ===== *)
(** * The pinned mode as a whole

    [ebpfdivert_load] configures the programs of [src/ebpfdivert.bpf.c],
    [ebpfdivert_rules_clear] and [ebpfdivert_rules_add_extended] fill their
    tables: what then happens to a packet. *)

From Stdlib Require Import Ascii String ZArith List Bool Lia ZifyBool.
From S2P Require Import Prelude WdTypes WdPacket WdExec WdSerial WdAddr CString WdMeaning.
From S2P Require Import PfRange PfAddr PfCube PfEncode BpfParse BpfMatch BpfTc HdOpen EbRules EbMeaning EbLoad.
Import ListNotations.
#[local] Open Scope list_scope.
#[local] Open Scope Z_scope.

(** ** Parsed packets *)

Lemma l2_nonneg data l2 : find_l2 data = Some l2 -> 0 <= l2.
Proof. unfold find_l2, ethernet_len. repeat case_if; intros [= <-]; lia. Qed.

Lemma load16_wf data o : bytes data -> 0 <= o -> o + 16 <= zlen data ->
  length (load16 data o) = 16%nat /\ bytes (load16 data o).
Proof.
  intros B H0 H. split; [|now apply bytes_firstn, bytes_skipn].
  unfold load16, zlen in *. rewrite length_firstn, length_skipn. lia.
Qed.

Lemma parse_packet_wf data ifindex pkt : bytes data -> parse_packet data ifindex = Some pkt ->
  (ver pkt = 4 /\ parsed4_ok pkt) \/ (ver pkt = 6 /\ parsed_wf pkt).
Proof.
  intros B. unfold parse_packet. destruct (find_l2 data) as [l2|] eqn:E; [|discriminate]. apply l2_nonneg in E.
  case_if; [discriminate|]. case_if; [|case_if; [|discriminate]].
  - unfold parse_v4. repeat (case_if; [discriminate|]). destruct (if has _ _ then _ else _) as [[sp dp] fl].
    intros [= <-]. left. split; [reflexivity|]. unfold parsed4_ok. cbn [parsed_ok ver src_ip dst_ip].
    split; [reflexivity|]. split; [reflexivity|]. split; apply ntohl_range.
  - unfold parse_v6. case_if; [discriminate|]. destruct (ext_headers _ _ _ _ _) as [[[pr o] frag]|]; [|discriminate].
    destruct (if frag then _ else _) as [[sp dp] fl]. intros [= <-]. right. split; [reflexivity|].
    unfold parsed_wf. cbn [parsed_ok src_ip6 dst_ip6].
    destruct (load16_wf data (l2 + 8) B) as [L1 B1]; [lia..|]. destruct (load16_wf data (l2 + 24) B) as [L2 B2]; [lia..|].
    auto.
Qed.

(** ** Packets the pinned program looks at *)

(** Not injected by the library, not on lo, sent by this host or received. *)
Definition ordinary (cfg : divert_config) (skb : sk_buff) (dir : Z) : Prop :=
  (skb_mark skb &&& 0xFFFF0000) <> LOOP_PREVENTION_MARK /\
  (skb_mark skb &&& 0xFFFF0000) <> REDIRECT_MARK_MASK /\
  skb_ifindex skb <> lo_ifindex cfg /\
  (dir = DIR_INGRESS \/ (dir = DIR_EGRESS /\ skb_ingress_ifindex skb = 0)).

Lemma ordinary_guard env prio skb dir : ordinary (pinned_config env prio) skb dir ->
  guard_packet (pinned_config env prio) skb dir = Some 0.
Proof.
  set (cfg := pinned_config env prio). intros (M1 & M2 & Lo & D). unfold guard_packet.
  assert (Inj : injected cfg skb = false).
  { unfold injected. change (prevent_mark cfg &&& 0xFFFF0000) with LOOP_PREVENTION_MARK. now apply Z.eqb_neq. }
  rewrite Inj. change (cfg_flags cfg) with 0. rewrite !has_0.
  replace (skb_ifindex skb =? lo_ifindex cfg) with false by (symmetry; now apply Z.eqb_neq).
  replace ((skb_mark skb &&& 0xFFFF0000) =? REDIRECT_MARK_MASK) with false by (symmetry; now apply Z.eqb_neq).
  destruct D as [->|[-> ->]]; reflexivity.
Qed.

(** What the first matching rule does. *)
Definition first_rule (specs4 : list (rule_spec Z)) (specs6 : list (rule_spec (list Z))) (pkt : parsed_packet)
    (dir : Z) : option Z :=
  if ver pkt =? 4 then option_map sp_action (List.find (fun s => spec4_matches s pkt dir) specs4)
  else option_map sp_action (List.find (fun s => spec6_matches s pkt dir) specs6).

Lemma spec_mask_action {A} (s : rule_spec A) : is_action (sp_action s) ->
  has (spec_mask s) MATCH_DROP = (sp_action s =? MATCH_DROP) /\
  has (spec_mask s) MATCH_SNIFF = (sp_action s =? MATCH_SNIFF).
Proof. intros H. unfold spec_mask. destruct H as [->|[->| ->]]; split; has_consts; reflexivity. Qed.

Lemma process_pinned env prio k maps skb dir st lin pkt : ordinary (pinned_config env prio) skb dir ->
  pull_data k (Z.min (skb_len skb) 128) = Some lin ->
  parse_packet (firstn lin (skb_bytes skb)) (skb_ifindex skb) = Some pkt -> fragment pkt = false -> is_lo pkt = 0 ->
  process_packet k (pinned_config env prio) maps skb dir st =
  match find_rule (BpfTc.lpm k) maps pkt dir with
  | None => (TC_ACT_UNSPEC, st)
  | Some mm => deliver k (pinned_config env prio) skb pkt dir 0 mm st
  end.
Proof.
  intros O Hp Hq F Lo. unfold process_packet. change (has (cfg_flags (pinned_config env prio)) _) with false at 1.
  change (owner_gone k (pinned_config env prio)) with false. cbn iota.
  rewrite (ordinary_guard _ _ _ _ O), Hp, Hq. destruct O as (_ & _ & N & _).
  replace (skb_ifindex skb =? lo_ifindex (pinned_config env prio)) with false by (symmetry; now apply Z.eqb_neq).
  assert (W : with_is_lo pkt (b2z false) = pkt) by (destruct pkt; cbn in *; now subst).
  rewrite W, F. cbn [andb flag_if]. change (has (cfg_flags (pinned_config env prio)) CFG_F_FWD_CHECK) with false.
  rewrite andb_false_r. cbn [andb]. unfold match_packet. rewrite F. reflexivity.
Qed.

Lemma parse_not_lo data ifindex pkt : parse_packet data ifindex = Some pkt -> is_lo pkt = 0.
Proof.
  unfold parse_packet. destruct (find_l2 data); [|discriminate]. repeat (case_if; try discriminate).
  - unfold parse_v4. repeat (case_if; [discriminate|]). destruct (if has _ _ then _ else _) as [[sp dp] fl].
    now intros [= <-].
  - unfold parse_v6. case_if; [discriminate|]. destruct (ext_headers _ _ _ _ _) as [[[pr o] frag]|]; [|discriminate].
    destruct (if frag then _ else _) as [[sp dp] fl]. now intros [= <-].
Qed.

(** The ring has room for the packet and the copy succeeds. *)
Definition can_copy (k : kernel) (skb : sk_buff) : bool :=
  (skb_len skb <=? DIVERT_MAX_PACKET) && reserve k (40 + size_class (skb_len skb)) && load_bytes k (skb_len skb).

(** What an action does with a packet: dropped and counted; or left to the
    stack; or taken away exactly when it was copied. *)
Definition acts (k : kernel) (skb : sk_buff) (action : Z) (st : bpf_state) (res : Z * bpf_state) : Prop :=
  if action =? MATCH_DROP then res = (TC_ACT_SHOT, increment_stat STAT_DROPPED st)
  else if action =? MATCH_SNIFF then fst res = TC_ACT_UNSPEC
  else fst res = if can_copy k skb then TC_ACT_STOLEN else TC_ACT_UNSPEC.

Lemma deliver_acts {A} k env prio skb pkt dir (s : rule_spec A) st : is_action (sp_action s) -> 1 <= skb_len skb ->
  acts k skb (sp_action s) st (deliver k (pinned_config env prio) skb pkt dir 0 (spec_mask s) st).
Proof.
  intros Ha Hl. destruct (spec_mask_action s Ha) as [D Sn]. unfold acts, deliver. rewrite D, Sn.
  change (snaplen (pinned_config env prio)) with DIVERT_MAX_PACKET.
  destruct (sp_action s =? MATCH_DROP); [reflexivity|]. cbn [Z.eqb negb]. change (DIVERT_MAX_PACKET =? 0) with false.
  cbv zeta. cbn iota. change (DIVERT_MAX_PACKET >? DIVERT_MAX_PACKET) with false. cbn iota.
  destruct (sp_action s =? MATCH_SNIFF); cbn [negb].
  - rewrite andb_false_r. destruct (emit_packet _ _ _ _ _ _ _) as [[] st']; reflexivity.
  - rewrite andb_true_r. unfold can_copy. destruct (skb_len skb >? DIVERT_MAX_PACKET) eqn:E.
    + now replace (skb_len skb <=? DIVERT_MAX_PACKET) with false by lia.
    + replace (skb_len skb <=? DIVERT_MAX_PACKET) with true by lia. rewrite emit_packet_spec by lia. cbn [andb].
      destruct (reserve k _); [|reflexivity]. destruct (load_bytes k _); reflexivity.
Qed.

(** C6. The pinned mode from text to verdict: with the configuration that
    [ebpfdivert_load] writes and the tables that [ebpfdivert_rules_clear] and
    one [ebpfdivert_rules_add_extended] per rule leave, the TC programs pass
    every ordinary packet that no rule describes, and for the others carry out
    the action of the first rule that describes the packet: drop and count it,
    leave it to the stack ([TC_ACT_UNSPEC]), or take it away if, and only if,
    it was copied for user space. Ordinary packets have no mark of the library,
    are not on the loopback device, and were sent by this host or received;
    they parse and are no fragments. The rules are given by the texts that
    print their numbers, at most 64 per table, without ports for ICMP and
    without an inverted loopback condition; the maps accept updates and the
    address functions of the C library read what they should. *)
Theorem pinned_verdict env absent text lenv prio maps0 specs4 specs6 maps1 maps k skb dir st lin pkt :
  maps_ready env -> reads_dotted env -> table_sizes maps0 -> is_option_active absent = false ->
  Forall (spec_ok addr4_ok 32 1) specs4 -> (length specs4 <= Z.to_nat MAX_RULES)%nat ->
  Forall (fun s => spec_ok (addr6_ok env text) 128 58 s /\ names_ipv6 s = true) specs6 ->
  (length specs6 <= Z.to_nat MAX_RULES)%nat ->
  add_specs (opts4 absent) env 0 specs4 (snd (ebpfdivert_rules_clear env maps0)) = Some maps1 ->
  add_specs (opts6 text absent) env 0 specs6 maps1 = Some maps ->
  bytes (skb_bytes skb) -> ordinary (pinned_config lenv prio) skb dir ->
  pull_data k (Z.min (skb_len skb) 128) = Some lin ->
  parse_packet (firstn lin (skb_bytes skb)) (skb_ifindex skb) = Some pkt -> fragment pkt = false ->
  let res := process_packet k (pinned_config lenv prio) maps skb dir st in
  match first_rule specs4 specs6 pkt dir with
  | None => res = (TC_ACT_UNSPEC, st)
  | Some action => acts k skb action st res
  end.
Proof.
  intros R D Sz A F4 L4 F6 L6 A4 A6 B O Hp Hq Fr res. rewrite rules_clear_empty in A4 by assumption. cbn [snd] in A4.
  pose proof (add_specs4 env absent R A D (table6 []) specs4 [] F4 L4) as E4.
  change (add_specs (opts4 absent) env 0 specs4 empty_maps = Some (mkMaps (table4 (map spec_rule4 specs4)) (table6 []))) in E4.
  rewrite E4 in A4. injection A4 as <-.
  pose proof (add_specs6 env absent text R A (table4 (map spec_rule4 specs4)) specs6 [] F6 L6) as E6.
  change (zlen []) with 0 in E6. rewrite E6 in A6. injection A6 as <-. cbn [app] in *.
  assert (Hl : 1 <= skb_len skb).
  { apply parse_nonempty in Hq. unfold skb_len, zlen in *. rewrite length_firstn in Hq. lia. }
  assert (Hd : 0 <= dir < 256) by (destruct O as (_ & _ & _ & [->|[-> _]]); vm_compute; split; congruence).
  unfold res. rewrite (process_pinned _ _ _ _ _ _ _ _ _ O Hp Hq Fr (parse_not_lo _ _ _ Hq)).
  unfold first_rule. destruct (parse_packet_wf _ _ _ (bytes_firstn _ _ B) Hq) as [[V W]|[V W]]; rewrite V; cbn [Z.eqb Pos.eqb].
  - rewrite (decide4 _ _ _ _ Hd specs4) by (reflexivity || assumption).
    destruct (List.find _ specs4) as [s|] eqn:Fd; cbn [option_map]; [|reflexivity].
    apply deliver_acts; [|exact Hl]. apply List.find_some in Fd. rewrite Forall_forall in F4. apply (F4 s), Fd.
  - rewrite (decide6 _ _ _ _ Hd env text specs6); try assumption; try reflexivity;
      [|eapply Forall_impl; [|exact F6]; now intros s [Hs _]].
    destruct (List.find _ specs6) as [s|] eqn:Fd; cbn [option_map]; [|reflexivity].
    apply deliver_acts; [|exact Hl]. apply List.find_some in Fd. rewrite Forall_forall in F6. apply (F6 s), Fd.
Qed.

Module ExVerdict.
Definition k : kernel :=
  mkKernel 0 0 (fun n => Some (Z.to_nat n)) (fun _ => 0) (fun _ => true) (fun _ => true) (fun _ _ => 0)
    (mkLpm (fun _ _ => None) (fun _ _ => None)).

(** An Ethernet frame with a TCP segment from 1.2.3.4 to 10.1.2.3. *)
Definition frame (dport : Z) : list Z :=
  repeat 0 12 ++ [8; 0; 69; 0; 0; 40; 0; 0; 0; 0; 64; 6; 0; 0; 1; 2; 3; 4; 10; 1; 2; 3;
                  15; 160; dport / 256; dport mod 256] ++ repeat 0 9 ++ [2] ++ repeat 0 6.

Definition skb (dport : Z) : sk_buff := mkSkb (frame dport) 2 0 0 0 0 0.
End ExVerdict.

Lemma pinned_verdict_witness : exists maps st', forall st,
  process_packet ExVerdict.k (pinned_config ExTc.env 7) maps (ExVerdict.skb 443) DIR_EGRESS st = (TC_ACT_SHOT, st' st) /\
  process_packet ExVerdict.k (pinned_config ExTc.env 7) maps (ExVerdict.skb 85) DIR_EGRESS st = (TC_ACT_UNSPEC, st).
Proof.
  destruct ExPinned.ready as (R & D & S).
  set (maps1 := mkMaps (table4 [spec_rule4 ExPinned.drop_web]) (table6 [])).
  set (maps := mkMaps (table4 [spec_rule4 ExPinned.drop_web]) (table6 [spec_rule6 ExPinned.sniff_doc])).
  assert (V : forall dport st pkt,
    (dport = 443 \/ dport = 85) -> parse_packet (ExVerdict.frame dport) 2 = Some pkt -> fragment pkt = false ->
    let res := process_packet ExVerdict.k (pinned_config ExTc.env 7) maps (ExVerdict.skb dport) DIR_EGRESS st in
    match first_rule [ExPinned.drop_web] [ExPinned.sniff_doc] pkt DIR_EGRESS with
    | None => res = (TC_ACT_UNSPEC, st)
    | Some action => acts ExVerdict.k (ExVerdict.skb dport) action st res
    end).
  { intros dport st pkt Hd Hq Hf.
    apply (pinned_verdict ExPinned.env None ExPinned.text ExTc.env 7 empty_maps [ExPinned.drop_web] [ExPinned.sniff_doc]
             maps1 maps ExVerdict.k (ExVerdict.skb dport) DIR_EGRESS st 54 pkt R D S eq_refl).
    - constructor; [exact ExPinned.spec4|constructor].
    - vm_compute. lia.
    - constructor; [split; [exact ExPinned.spec6|reflexivity]|constructor].
    - vm_compute. lia.
    - vm_compute. reflexivity.
    - vm_compute. reflexivity.
    - destruct Hd as [->| ->]; repeat constructor; vm_compute; congruence.
    - destruct Hd as [->| ->]; repeat split; try (vm_compute; congruence); right; split; reflexivity.
    - destruct Hd as [->| ->]; reflexivity.
    - destruct Hd as [->| ->]; exact Hq.
    - exact Hf. }
  exists maps, (increment_stat STAT_DROPPED). intros st. split.
  - exact (V 443 st _ (or_introl eq_refl) eq_refl eq_refl).
  - exact (V 85 st _ (or_intror eq_refl) eq_refl eq_refl).
Defined.
