(* ===== verification/Cli.v ===== *)
(** * The command line tool

    [src/ebpfdivert-cli.c]: the commands of [main] with their arguments, the
    option loop of [rules add-ext], the packet lines and the capture file of
    [cli_sniff].  [argv] is the list of arguments behind the program name. *)

From Stdlib Require Import Ascii String ZArith List Bool Lia ZifyBool.
From S2P Require Import Prelude WdTypes WdSerial WdAddr CString PfEncode BpfMatch EbRules EbMeaning EbList.
Import ListNotations.
#[local] Open Scope list_scope.
#[local] Open Scope Z_scope.

(** ** Commands *)

Inductive command : Type :=
| CmdUsage                                            (* no command: usage, exit 1 *)
| CmdVersion
| CmdLoad (ifname obj_path : option (list Z)) (priority : Z)
| CmdUnload (ifname : option (list Z))
| CmdStats
| CmdSniff (filter : list Z) (pcap : option (list Z))
| CmdCleanup
| CmdRulesList
| CmdRulesClear
| CmdRulesAdd (idx : Z) (proto ip_cidr port_range action : list Z)
| CmdRulesAddExt (idx : Z) (opt : ebpfdivert_rule_opt)
| CmdError.                                           (* message, exit 1 *)

(** [strtol(arg, &endptr, 10)] read to the end and not negative. *)
Definition as_priority (arg : list Z) : option Z :=
  let '(v, rest) := strtol 10 arg in
  match rest with [] => if v >=? 0 then Some (u32 v) else None | _ => None end.

(** [(uint32_t)atoi(s)], [None] when it is undefined. *)
Definition atoi_u32 (s : list Z) : option Z := option_map u32 (atoi s).

(** [load [interface] [priority] [bpf_object_path]] in the orders the code
    accepts. *)
Definition load_command (args : list (list Z)) : option command :=
  match args with
  | [] => Some (CmdLoad None None 0)
  | arg :: rest =>
    match as_priority arg with
    | Some p => Some (CmdLoad None (hd_error rest) p)
    | None =>
      if strstr arg (chars ".o") then
        match rest with
        | [] => Some (CmdLoad None (Some arg) 0)
        | s :: _ => option_map (CmdLoad None (Some arg)) (atoi_u32 s)
        end
      else
        match rest with
        | [] => Some (CmdLoad (Some arg) None 0)
        | s :: rest =>
          match as_priority s with
          | Some p => Some (CmdLoad (Some arg) (hd_error rest) p)
          | None =>
            match rest with
            | [] => Some (CmdLoad (Some arg) (Some s) 0)
            | t :: _ => option_map (CmdLoad (Some arg) (Some s)) (atoi_u32 t)
            end
          end
        end
    end
  end.

(** ** [rules add-ext] *)

Definition invert_flag (tok : list Z) : Z :=
  if strcaseeq tok (chars "src-ip") then MATCH_SRC_IP
  else if strcaseeq tok (chars "dst-ip") then MATCH_DST_IP
  else if strcaseeq tok (chars "src-port") then MATCH_SRC_PORT
  else if strcaseeq tok (chars "dst-port") then MATCH_DST_PORT
  else if strcaseeq tok (chars "proto") then MATCH_PROTO
  else if strcaseeq tok (chars "direction") then MATCH_DIRECTION
  else if strcaseeq tok (chars "loopback") then MATCH_LOOPBACK
  else if strcaseeq tok (chars "ttl") then MATCH_TTL
  else 0.

(** [opt.invert_mask |= ...] over the tokens. *)
Definition invert_fields (mask : Z) (arg : list Z) : Z :=
  fold_left (fun m tok => m ||| invert_flag tok) (strtok (chars ",") (snprintf 256 arg)) mask.

(** The options that store their argument, with the place of the member. *)
Definition text_options : list (list Z * nat) :=
  [(chars "--proto", 0); (chars "--src-ip", 1); (chars "--dst-ip", 2); (chars "--src-port", 3);
   (chars "--dst-port", 4); (chars "--direction", 5); (chars "--loopback", 6); (chars "--ttl", 7);
   (chars "--tcp-flags", 8); (chars "--tcp-flags-mask", 9)]%nat.

(** The member at a place, changed. *)
Definition set_with (n : nat) (g : option (list Z) -> option (list Z)) (o : ebpfdivert_rule_opt)
    : ebpfdivert_rule_opt :=
  let at_ k old := if Nat.eqb n k then g old else old in
  {| opt_proto := at_ 0%nat (opt_proto o);
     opt_src_ip_cidr := at_ 1%nat (opt_src_ip_cidr o);
     opt_dst_ip_cidr := at_ 2%nat (opt_dst_ip_cidr o);
     opt_src_port_range := at_ 3%nat (opt_src_port_range o);
     opt_dst_port_range := at_ 4%nat (opt_dst_port_range o);
     opt_action := opt_action o;
     opt_direction := at_ 5%nat (opt_direction o);
     opt_loopback := at_ 6%nat (opt_loopback o);
     opt_ttl := at_ 7%nat (opt_ttl o);
     opt_tcp_flags := at_ 8%nat (opt_tcp_flags o);
     opt_tcp_flags_mask := at_ 9%nat (opt_tcp_flags_mask o);
     opt_invert_mask := opt_invert_mask o |}.

Definition set_member (n : nat) (v : list Z) : ebpfdivert_rule_opt -> ebpfdivert_rule_opt :=
  set_with n (fun _ => Some v).

Definition set_invert (m : Z) (o : ebpfdivert_rule_opt) : ebpfdivert_rule_opt :=
  mkOpt (opt_proto o) (opt_src_ip_cidr o) (opt_dst_ip_cidr o) (opt_src_port_range o) (opt_dst_port_range o)
    (opt_action o) (opt_direction o) (opt_loopback o) (opt_ttl o) (opt_tcp_flags o) (opt_tcp_flags_mask o) m.

(** One option with an argument; [None] when it is none of them. *)
Definition set_option (name v : list Z) (o : ebpfdivert_rule_opt) : option ebpfdivert_rule_opt :=
  match List.find (fun e => streq name (fst e)) text_options with
  | Some (_, n) => Some (set_member n v o)
  | None =>
    if streq name (chars "--invert") then Some (set_invert (invert_fields (opt_invert_mask o) v) o) else None
  end.

(** [for (int i = 5; i < argc; i++)]: an argument that is no option, or has
    none behind it, is skipped. *)
Fixpoint option_loop (args : list (list Z)) (o : ebpfdivert_rule_opt) : ebpfdivert_rule_opt :=
  match args with
  | a :: (v :: rest) as tl =>
    match set_option a v o with
    | Some o => option_loop rest o
    | None => option_loop tl o
    end
  | _ => o
  end.

Definition default_opt (action : list Z) : ebpfdivert_rule_opt :=
  let any := Some (chars "any") in
  mkOpt any any any any any (Some action) any any any any any 0.

Definition rules_command (args : list (list Z)) : option command :=
  match args with
  | [] => Some CmdError
  | subcmd :: args =>
    if streq subcmd (chars "list") then Some CmdRulesList
    else if streq subcmd (chars "clear") then Some CmdRulesClear
    else if streq subcmd (chars "add") then
      match args with
      | idx :: proto :: ip :: port :: action :: _ =>
        option_map (fun i => CmdRulesAdd i proto ip port action) (atoi idx)
      | _ => Some CmdError
      end
    else if streq subcmd (chars "add-ext") then
      match args with
      | idx :: action :: opts =>
        option_map (fun i => CmdRulesAddExt i (option_loop opts (default_opt action))) (atoi idx)
      | _ => Some CmdError
      end
    else Some CmdError
  end.

(** The command; [None] is undefined behaviour of [atoi]. *)
Definition main_command (argv : list (list Z)) : option command :=
  match argv with
  | [] => Some CmdUsage
  | cmd :: args =>
    if streq cmd (chars "version") || streq cmd (chars "--version") || streq cmd (chars "-v") then Some CmdVersion
    else if streq cmd (chars "load") then load_command args
    else if streq cmd (chars "unload") then Some (CmdUnload (hd_error args))
    else if streq cmd (chars "stats") then Some CmdStats
    else if streq cmd (chars "sniff") then
      Some (CmdSniff (hd (chars "true") args) (hd_error (tl args)))
    else if streq cmd (chars "cleanup") then Some CmdCleanup
    else if streq cmd (chars "rules") then rules_command args
    else Some CmdError
  end.

(** Exit status and tables of the commands that change rules; [None] when
    undefined or another command. *)
Definition main_rules (env : rules_env) (argv : list (list Z)) (maps : rule_maps) : option (Z * rule_maps) :=
  let exit (r : option (Z * rule_maps)) := option_map (fun '(ret, m) => (if ret =? 0 then 0 else 1, m)) r in
  match main_command argv with
  | Some (CmdRulesAdd idx proto ip port action) =>
    exit (ebpfdivert_rules_add env idx (Some proto) (Some ip) (Some port) (Some action) maps)
  | Some (CmdRulesAddExt idx opt) => exit (ebpfdivert_rules_add_extended env idx (Some opt) maps)
  | Some CmdRulesClear => exit (Some (ebpfdivert_rules_clear env maps))
  | _ => None
  end.

(** ** [cli_sniff] *)

(** What [ebpfdivert_recv] gives in one round. *)
Record sniffed : Set := mkSniffed {
  sn_ret : Z;
  sn_pkt : list Z;
  sn_outbound : bool;
  sn_loopback : bool;
  sn_ipv6 : bool;
  sn_if_idx : Z;
  sn_sec : Z;                              (* clock_gettime in write_pcap_packet *)
  sn_nsec : Z
}.

Definition EAGAIN : Z := 11.
Definition EINTR : Z := 4.

Definition sniff_proto (r : sniffed) : Z :=
  if zlen (sn_pkt r) >=? 20 then byte_at (sn_pkt r) (if sn_ipv6 r then 6 else 9) else 0.

Definition proto_name (p : Z) : list Z :=
  if p =? 6 then chars "TCP" else if p =? 17 then chars "UDP" else if p =? 1 then chars "ICMP"
  else if p =? 58 then chars "ICMPv6" else chars "UNKNOWN".

(** [%8s] *)
Definition pad_left (w : Z) (s : list Z) : list Z := repeat 32 (Z.to_nat (w - zlen s)) ++ s.

Definition sniff_line (r : sniffed) : list Z :=
  chars "[" ++ pad_left 8 (if sn_outbound r then chars "OUTBOUND" else chars "INBOUND") ++
  (if sn_loopback r then chars ",LO" else []) ++ chars "] IfIndex: " ++ decimal (sn_if_idx r) ++
  chars ", Len: " ++ decimal (zlen (sn_pkt r)) ++ chars ", Proto: " ++ proto_name (sniff_proto r) ++
  chars " (" ++ decimal (sniff_proto r) ++ chars ")" ++ [10].

Definition write_pcap_header : list Z :=
  le32 0xa1b2c3d4 ++ le16 2 ++ le16 4 ++ le32 0 ++ le32 0 ++ le32 65535 ++ le32 101.

Definition write_pcap_packet (sec nsec : Z) (pkt : list Z) : list Z :=
  le32 (u32 sec) ++ le32 (u32 (nsec / 1000)) ++ le32 (zlen pkt) ++ le32 (zlen pkt) ++ pkt.

(** The receive loop; the rounds end when the signal handler has set
    [stop_sniffing].  Return value, lines printed, bytes written. *)
Fixpoint sniff_loop (rounds : list sniffed) : Z * list Z * list Z :=
  match rounds with
  | [] => (0, [], [])
  | r :: rounds =>
    if (sn_ret r =? - EAGAIN) || (sn_ret r =? - EINTR) then sniff_loop rounds
    else if sn_ret r <? 0 then (-1, [], [])
    else
      let '(ret, out, file) := sniff_loop rounds in
      (ret, sniff_line r ++ out, write_pcap_packet (sn_sec r) (sn_nsec r) (sn_pkt r) ++ file)
  end.

(** The capture file when one was asked for. *)
Definition sniff_file (rounds : list sniffed) : list Z :=
  write_pcap_header ++ snd (sniff_loop rounds).

(** ** [cli_stats] *)

Definition stat_names : list (list Z) :=
  map chars ["Diverted"; "Dropped"; "Sniffed"; "Parsing Errors"; "Ringbuf Full"; "Queue Full"; "Too Big";
             "Owner Gone"]%string.

(** [printf("%-15s | %lu\n", ...)]; [dec64] writes a 64-bit number. *)
Definition cli_stats (dec64 : Z -> list Z) (env : stats_env) : option (Z * list Z) :=
  match ebpfdivert_get_stats env (repeat 0 8) 8 with
  | None => None
  | Some (ret, stats) =>
    if negb (ret =? 0) then Some (-1, [])
    else Some (0,
      chars "eBPFDivert Statistics:" ++ [10] ++ chars "Metric          | Value" ++ [10] ++
      chars "---------------------------" ++ [10] ++
      concat (map (fun '(name, v) => pad 15 name ++ chars " | " ++ dec64 v ++ [10]) (combine stat_names stats)))
  end.

(** ** A rule as a command line *)

(** The names [--invert] knows. *)
Definition invert_names : list (list Z * Z) :=
  [(chars "src-ip", MATCH_SRC_IP); (chars "dst-ip", MATCH_DST_IP); (chars "src-port", MATCH_SRC_PORT);
   (chars "dst-port", MATCH_DST_PORT); (chars "proto", MATCH_PROTO); (chars "direction", MATCH_DIRECTION);
   (chars "loopback", MATCH_LOOPBACK); (chars "ttl", MATCH_TTL)].

Definition invert_text (m : Z) : list Z :=
  concat (map (fun e => fst e ++ [44]) (filter (fun e => has m (snd e)) invert_names)).

(** A mask of those fields, from eight bits. *)
Definition invert_mask_of (b : Z) : Z := (b &&& 127) ||| ((b / 128) <<< 11).

Definition invertible (m : Z) : Prop := exists b, 0 <= b < 256 /\ m = invert_mask_of b.

Lemma invert_text_read m : invertible m -> invert_fields 0 (invert_text m) = m.
Proof.
  intros (b & Hb & ->). apply Z.eqb_eq.
  apply (byte_cases (fun b => invert_fields 0 (invert_text (invert_mask_of b)) =? invert_mask_of b));
    [vm_compute; reflexivity|exact Hb].
Qed.

Definition arg {B} (name : string) (f : B -> list Z) (o : option B) : list (list Z) :=
  match o with Some x => [chars name; f x] | None => [] end.

(** The options of [rules add-ext] for a specification. *)
Definition spec_args {A} (text : A -> list Z) (icmp_name : list Z) (icmp : Z) (s : rule_spec A) : list (list Z) :=
  arg "--proto" (proto_text icmp_name icmp) (sp_proto s) ++
  arg "--src-ip" (cidr_text text) (sp_src s) ++
  arg "--dst-ip" (cidr_text text) (sp_dst s) ++
  arg "--src-port" range_text (sp_sport s) ++
  arg "--dst-port" range_text (sp_dport s) ++
  arg "--direction" (fun d : bool => if d then chars "ingress" else chars "egress") (sp_dir s) ++
  arg "--loopback" (fun b : bool => if b then chars "yes" else chars "no") (sp_loopback s) ++
  arg "--ttl" decimal (sp_ttl s) ++
  arg "--tcp-flags" (fun f => flags_text (fst f)) (sp_flags s) ++
  arg "--tcp-flags-mask" (fun f => flags_text (snd f)) (sp_flags s) ++
  [chars "--invert"; invert_text (sp_invert s)].

(** An option with its argument is consumed. *)
Lemma option_loop_arg {B} name n (f : B -> list Z) o rest opt :
  List.find (fun e => streq (chars name) (fst e)) text_options = Some (chars name, n) ->
  option_loop (arg name f o ++ rest) opt =
  option_loop rest (set_with n (fun old => value (fun x => Some (f x)) old o) opt).
Proof.
  intros H. destruct o as [x|]; cbn [arg app value].
  - cbn [option_loop]. unfold set_option. now rewrite H.
  - f_equal. unfold set_with. destruct opt. cbn. now repeat case_if.
Qed.

(** The tool passes on what it is told: for a rule written with the
    options of [rules add-ext], the option loop gives the library exactly
    the texts of that rule, "any" for what is not constrained, and the
    fields named by [--invert]. *)
Theorem cli_add_ext {A} (text : A -> list Z) name icmp (s : rule_spec A) idx :
  0 <= idx < 2 ^ 31 -> invertible (sp_invert s) ->
  main_command (chars "rules" :: chars "add-ext" :: decimal idx :: action_text (sp_action s) ::
                spec_args text name icmp s) =
  Some (CmdRulesAddExt idx (spec_opts text name icmp (Some (chars "any")) s)).
Proof.
  intros Hi Hv. change (main_command (chars "rules" :: chars "add-ext" :: decimal idx ::
    action_text (sp_action s) :: spec_args text name icmp s)) with
    (option_map (fun i => CmdRulesAddExt i (option_loop (spec_args text name icmp s)
       (default_opt (action_text (sp_action s))))) (atoi (decimal idx))).
  rewrite atoi_plain by exact Hi. cbn [option_map]. do 2 f_equal. unfold spec_args.
  do 10 (erewrite option_loop_arg by reflexivity).
  cbn [option_loop]. unfold set_option.
  change (List.find (fun e => streq (chars "--invert") (fst e)) text_options) with (@None (list Z * nat)).
  change (streq (chars "--invert") (chars "--invert")) with true. cbn iota.
  cbn [option_loop set_invert set_with Nat.eqb opt_proto opt_src_ip_cidr opt_dst_ip_cidr opt_src_port_range
       opt_dst_port_range opt_action opt_direction opt_loopback opt_ttl opt_tcp_flags opt_tcp_flags_mask
       opt_invert_mask default_opt]. rewrite invert_text_read by exact Hv.
  reflexivity.
Qed.

Lemma cli_add_ext_witness :
  main_command (map chars ["rules"; "add-ext"; "1"; "drop"; "--proto"; "tcp"; "--dst-ip"; "10.0.0.0/8"; "--dst-port";
                           "80-90"; "--invert"; "dst-port,"]%string) =
  Some (CmdRulesAddExt 1 (spec_opts ipv4_text (chars "icmp") 1 (Some (chars "any")) ExPinned.drop_web)).
Proof.
  apply (cli_add_ext ipv4_text (chars "icmp") 1 ExPinned.drop_web 1); [lia|].
  exists 8. split; [lia|]. vm_compute. reflexivity.
Defined.

(** ** The capture file *)

(** A reader of the format: the global header, then records. *)
Fixpoint read_records (fuel : nat) (f : list Z) : option (list (Z * Z * list Z)) :=
  match f, fuel with
  | [], _ => Some []
  | _, O => None
  | _, S fuel =>
    let n := ld32 f 8 in
    if (zlen f <? 16 + n) || negb (ld32 f 12 =? n) then None
    else option_map (cons (ld32 f 0, ld32 f 4, slice f 16 n)) (read_records fuel (skipn (Z.to_nat (16 + n)) f))
  end.

Definition read_pcap (f : list Z) : option (list (Z * Z * list Z)) :=
  if (zlen f <? 24) || negb (ld32 f 0 =? 0xa1b2c3d4) || negb (ld16 f 4 =? 2) || negb (ld32 f 20 =? 101) then None
  else read_records (length f) (skipn 24 f).

(** The packets received before an error or the end. *)
Fixpoint received (rounds : list sniffed) : list sniffed :=
  match rounds with
  | [] => []
  | r :: rounds =>
    if (sn_ret r =? - EAGAIN) || (sn_ret r =? - EINTR) then received rounds
    else if sn_ret r <? 0 then [] else r :: received rounds
  end.

Definition pcap_entry (r : sniffed) : Z * Z * list Z := (u32 (sn_sec r), u32 (sn_nsec r / 1000), sn_pkt r).

Lemma ld32_le32 v rest : 0 <= v < 2 ^ 32 -> ld32 (le32 v ++ rest) 0 = v.
Proof.
  intros H. change (v mod 256 + 256 * (v / 256 mod 256) + 65536 * (v / 65536 mod 256) + 16777216 * (v / 16777216 mod 256) = v).
  Z.to_euclidean_division_equations. lia.
Qed.

Lemma ld32_skip p q o : zlen p = o -> ld32 (p ++ q) o = ld32 q 0.
Proof.
  intros <-. unfold ld32. pose proof (zlen_nonneg p). rewrite !byte_at_app_r by lia.
  replace (zlen p - zlen p) with 0 by lia. replace (zlen p + 1 - zlen p) with (0 + 1) by lia.
  replace (zlen p + 2 - zlen p) with (0 + 2) by lia. now replace (zlen p + 3 - zlen p) with (0 + 3) by lia.
Qed.

Lemma skipn_exact {A} (p q : list A) n : length p = n -> skipn n (p ++ q) = q.
Proof. intros <-. now rewrite skipn_app, skipn_all, Nat.sub_diag. Qed.

Lemma read_record fuel sec nsec pkt rest : zlen pkt < 2 ^ 32 ->
  read_records (S fuel) (write_pcap_packet sec nsec pkt ++ rest) =
  option_map (cons (u32 sec, u32 (nsec / 1000), pkt)) (read_records fuel rest).
Proof.
  intros Hl. pose proof (zlen_nonneg pkt). set (f := write_pcap_packet sec nsec pkt ++ rest).
  assert (U : forall z, 0 <= u32 z < 2 ^ 32) by (intros z; apply Z.mod_pos_bound; reflexivity).
  assert (F : f = le32 (u32 sec) ++ le32 (u32 (nsec / 1000)) ++ le32 (zlen pkt) ++ le32 (zlen pkt) ++ pkt ++ rest)
    by (unfold f, write_pcap_packet; now rewrite <- !app_assoc).
  assert (E0 : ld32 f 0 = u32 sec) by (rewrite F; now apply ld32_le32).
  assert (E4 : ld32 f 4 = u32 (nsec / 1000)) by (rewrite F, (ld32_skip (le32 _)) by reflexivity; now apply ld32_le32).
  assert (E8 : ld32 f 8 = zlen pkt).
  { rewrite F, app_assoc, (ld32_skip (le32 _ ++ le32 _)) by reflexivity. apply ld32_le32. lia. }
  assert (E12 : ld32 f 12 = zlen pkt).
  { rewrite F, !app_assoc, <- !app_assoc, (app_assoc (le32 _) (le32 _)), (app_assoc (le32 _ ++ le32 _) (le32 _)).
    rewrite (ld32_skip ((le32 _ ++ le32 _) ++ le32 _)) by reflexivity. apply ld32_le32. lia. }
  set (h := le32 (u32 sec) ++ le32 (u32 (nsec / 1000)) ++ le32 (zlen pkt) ++ le32 (zlen pkt)).
  assert (Fh : f = h ++ pkt ++ rest) by (rewrite F; unfold h; now rewrite <- !app_assoc).
  assert (Lf : zlen f = 16 + zlen pkt + zlen rest) by (rewrite Fh, !zlen_app; change (zlen h) with 16; lia).
  assert (Sl : slice f 16 (zlen pkt) = pkt).
  { unfold slice. rewrite Fh. change (Z.to_nat 16) with (length h). rewrite skipn_exact by reflexivity.
    unfold zlen. rewrite Nat2Z.id, firstn_app, firstn_all, Nat.sub_diag. apply app_nil_r. }
  assert (Sk : skipn (Z.to_nat (16 + zlen pkt)) f = rest).
  { rewrite Fh, app_assoc. apply skipn_exact. rewrite length_app. change (length h) with 16%nat. unfold zlen. lia. }
  clearbody f. destruct f as [|x f]; [unfold zlen in Lf; cbn in Lf; lia|]. cbn [read_records].
  rewrite E8, E12, E0, E4, Sl, Sk, Z.eqb_refl, Lf. pose proof (zlen_nonneg rest).
  now replace (16 + zlen pkt + zlen rest <? 16 + zlen pkt) with false by lia.
Qed.

Lemma read_received : forall rounds fuel, Forall (fun r => zlen (sn_pkt r) < 2 ^ 32) rounds ->
  (length (snd (sniff_loop rounds)) <= fuel)%nat ->
  read_records fuel (snd (sniff_loop rounds)) = Some (map pcap_entry (received rounds)).
Proof.
  induction rounds as [|r rounds IH]; intros fuel F L; cbn [sniff_loop received] in *; [now destruct fuel|].
  inversion F as [|? ? Hr Fr]; subst. case_if; [now apply IH|]. case_if; [now destruct fuel|].
  destruct (sniff_loop rounds) as [[ret out] file]. cbn [snd map] in *.
  unfold write_pcap_packet in L. rewrite !length_app in L. cbn [length le32] in L.
  destruct fuel as [|fuel]; [lia|]. rewrite read_record by exact Hr. rewrite IH by (assumption || lia). reflexivity.
Qed.

(** C40. The capture file is a faithful record: whatever rounds the receive
    loop has, reading the file that [cli_sniff] writes gives exactly the
    packets received before the first error, whole, in order, each with the
    time at which it was written, in microseconds. The reader goes by the
    length of each record and not by the snap length of the file header, which
    is smaller than the longest packets. *)
Theorem sniff_file_roundtrip rounds : Forall (fun r => zlen (sn_pkt r) < 2 ^ 32) rounds ->
  read_pcap (sniff_file rounds) = Some (map pcap_entry (received rounds)).
Proof.
  intros F. unfold read_pcap, sniff_file. set (body := snd (sniff_loop rounds)).
  assert (L : zlen (write_pcap_header ++ body) = 24 + zlen body) by (rewrite zlen_app; reflexivity).
  pose proof (zlen_nonneg body). rewrite L. replace (24 + zlen body <? 24) with false by lia. cbn [orb].
  change (ld32 (write_pcap_header ++ body) 0 =? 0xa1b2c3d4) with true.
  change (ld16 (write_pcap_header ++ body) 4 =? 2) with true.
  change (ld32 (write_pcap_header ++ body) 20 =? 101) with true. cbn [negb orb].
  rewrite skipn_exact by reflexivity. apply read_received; [exact F|]. rewrite length_app. fold body. lia.
Qed.

Lemma sniff_file_roundtrip_witness :
  let r := mkSniffed 0 [69; 0; 0; 20] true false false 2 1700000000 5000 in
  read_pcap (sniff_file [r; mkSniffed (- EAGAIN) [] false false false 0 0 0; r]) =
  Some [(1700000000, 5, [69; 0; 0; 20]); (1700000000, 5, [69; 0; 0; 20])].
Proof.
  intros r. rewrite (sniff_file_roundtrip [r; mkSniffed (- EAGAIN) [] false false false 0 0 0; r]);
    [reflexivity|repeat constructor].
Defined.
