(* ===== verification/CliSniff.v ===== *)
(** * The sniff command

    The whole of [cli_sniff] of [src/ebpfdivert-cli.c]: opening a handle that
    sniffs, reporting why it could not be opened, the capture file, the
    receive loop of [Cli] and the closing. *)

From Stdlib Require Import Ascii String ZArith List Bool Lia ZifyBool.
From S2P Require Import Prelude WdTypes WdExec WdSerial WdAddr WdLex WdCompile WdApi CString BpfMatch HdSend HdRecv HdOpen Cli.
Import ListNotations.
#[local] Open Scope list_scope.
#[local] Open Scope Z_scope.

(** The system around the command: for [ebpfdivert_open], the texts of
    [strerror], [fopen] (an [errno] when it fails) and what the receive loop
    gets. *)
Record sniff_env : Type := mkSniffEnv {
  se_open : open_env;
  se_lo : Z;
  se_fds : Z;
  se_strerror : Z -> list Z;
  se_fopen : list Z -> option Z;
  se_rounds : list sniffed
}.

(** Exit value, what is printed, the file, and whether a handle was opened
    and closed. *)
Record sniff_result : Type := mkSniffResult {
  sr_ret : Z;
  sr_stdout : list Z;
  sr_stderr : list Z;
  sr_file : option (list Z);
  sr_opened : bool;
  sr_closed : bool
}.

Definition SNIFF_FLAGS : Z := EBPFDIVERT_FLAG_SNIFF ||| EBPFDIVERT_FLAG_RECV_ONLY.

(** The message for a filter that does not compile. *)
Definition filter_message (pos : option Z) (text : string) : list Z :=
  chars "ERROR: invalid filter at position " ++ decimal (match pos with Some p => u32 p | None => 0 end) ++ chars ": " ++ chars text ++ [10].

Definition open_message (env : sniff_env) (err : Z) : list Z :=
  chars "ERROR: failed to open eBPFDivert handle: " ++ se_strerror env err ++ [10].

(** What is printed when the open fails with [err]; [None] is undefined
    behaviour of the compiler. *)
Definition open_failed (env : sniff_env) (filter : list Z) (err : Z) : option (list Z) :=
  if err =? EINVAL then
    match ebpfdivert_helper_compile_filter filter LAYER_NETWORK with
    | None => None
    | Some (r, text, pos) =>
      Some (match text with
            | Some text => if negb (r =? 0) then filter_message pos text else open_message env err
            | None => open_message env err
            end)
    end
  else Some (open_message env err).

(** The error that ends the loop. *)
Fixpoint receive_error (rounds : list sniffed) : Z :=
  match rounds with
  | [] => 0
  | r :: rounds =>
    if (sn_ret r =? - EAGAIN) || (sn_ret r =? - EINTR) then receive_error rounds
    else if sn_ret r <? 0 then sn_ret r else receive_error rounds
  end.

Definition cli_sniff (env : sniff_env) (filter : list Z) (pcap_filename : option (list Z)) : option sniff_result :=
  match ebpfdivert_open (se_open env) (se_lo env) (se_fds env) (Some filter) 0 0 SNIFF_FLAGS 0 None with
  | None => None
  | Some (inl e) => option_map (fun msg => mkSniffResult (-1) [] msg None false false) (open_failed env filter (- e))
  | Some (inr _) =>
    match match pcap_filename with Some name => option_map (pair name) (se_fopen env name) | None => None end with
    | Some (name, errno) =>
      Some (mkSniffResult (-1) []
              (chars "ERROR: failed to open PCAP file '" ++ name ++ chars "' for writing: " ++ se_strerror env errno ++ [10]) None true true)
    | None =>
      let head := chars "Sniffing '" ++ filter ++ match pcap_filename with
                                                  | Some name => chars "' to '" ++ name ++ chars "'..."
                                                  | None => chars "' to console..."
                                                  end ++ [10] in
      let '(ret, out, records) := sniff_loop (se_rounds env) in
      Some (mkSniffResult ret (head ++ out)
              (if ret =? 0 then [] else chars "ERROR: receiving packet failed: " ++ se_strerror env (receive_error (se_rounds env)) ++ [10])
              (option_map (fun _ => write_pcap_header ++ records) pcap_filename) true true)
    end
  end.

Lemma sniff_loop_ret : forall rounds, fst (fst (sniff_loop rounds)) = if receive_error rounds =? 0 then 0 else -1.
Proof.
  induction rounds as [|r rounds IH]; [reflexivity|]. cbn [sniff_loop receive_error]. case_if; [exact IH|]. case_if.
  - cbn. now replace (sn_ret r =? 0) with false by (b2p; lia).
  - destruct (sniff_loop rounds) as [[ret out] file]. exact IH.
Qed.

(** A filter with a mistake: the command prints the position and the message
    of the compiler, whatever the system does, and opens nothing. *)
Theorem sniff_reports_filter env filter pcap e : wd_filter_compile filter LAYER_NETWORK = Some (inl (- EINVAL, e)) -> se_fds env = 0 ->
  cli_sniff env filter pcap =
  Some (mkSniffResult (-1) [] (filter_message (GET_POS e) (WinDivertErrorString (Some (GET_CODE e)))) None false false).
Proof.
  intros C F. unfold cli_sniff, ebpfdivert_open. rewrite F. change (open_args_ok _ _ _ _) with true. cbn [negb].
  change (layer_of 0) with LAYER_NETWORK. rewrite C. unfold open_failed, ebpfdivert_helper_compile_filter. rewrite C. reflexivity.
Qed.

Lemma sniff_reports_filter_witness : exists e,
  cli_sniff (mkSniffEnv ExOpen.env 1 0 (fun _ => []) (fun _ => None) []) (chars "tcp and or") None =
  Some (mkSniffResult (-1) [] (filter_message (GET_POS e) (WinDivertErrorString (Some (GET_CODE e)))) None false false).
Proof.
  eexists. apply (sniff_reports_filter (mkSniffEnv ExOpen.env 1 0 (fun _ => []) (fun _ => None) []) (chars "tcp and or") None);
    [vm_compute; reflexivity|reflexivity].
Defined.

(** However the command ends, a handle that was opened is closed; it says
    nothing on [stderr] exactly when it returns 0, and then the file asked
    for holds every packet received. *)
Theorem sniff_closes env filter pcap r : cli_sniff env filter pcap = Some r ->
  sr_closed r = sr_opened r /\ (sr_ret r = 0 <-> sr_stderr r = []) /\
  (sr_ret r = 0 -> sr_file r = option_map (fun _ => sniff_file (se_rounds env)) pcap).
Proof.
  unfold cli_sniff. destruct (ebpfdivert_open _ _ _ _ _ _ _ _ _) as [[e|h]|]; [|..|discriminate].
  - unfold open_failed. destruct (option_map _ _) as [r'|] eqn:E; [|discriminate]. intros [= <-].
    revert E. case_if; [destruct (ebpfdivert_helper_compile_filter _ _) as [[[c text] pos]|]; [|discriminate]; destruct text as [text|]; [case_if|]|];
      intros [= <-]; (split; [reflexivity|]; split; [split; discriminate|discriminate]).
  - destruct (match pcap with Some name => _ | None => None end) as [[name errno]|]; [intros [= <-]; split; [reflexivity|]; split; [split; discriminate|discriminate]|].
    pose proof (sniff_loop_ret (se_rounds env)) as L. unfold sniff_file. destruct (sniff_loop (se_rounds env)) as [[ret out] records]. intros [= <-]. cbn in *.
    split; [reflexivity|]. split; [|reflexivity]. subst ret. case_if; cbn; [split; reflexivity|]. split; discriminate.
Qed.
