(* ===== verification/Divert.v ===== *)
(** * From the packet to the verdict

    The filter of a handle is evaluated twice: as rules in the kernel and,
    unless the rules are exact, by the evaluator in user space.  On a
    captured packet both parsers agree on, the rules loaded for a filter
    match whenever the filter accepts, and only then when they are exact. *)

From Stdlib Require Import ZArith List Bool Lia ZifyBool.
From S2P Require Import Prelude WdTypes WdPacket WdHash WdExec PfRange PfAddr PfCube PfBranch.
From S2P Require Import PfInsn PfWalk PfEncode PfSound BpfParse BpfMatch BpfAgree BpfTc.
Import ListNotations.

(** IPv4-mapped address at offset [o] of an IPv6 header. *)
Definition mapped_at (p : list Z) (o : Z) : bool :=
  (be32 p o =? 0) && (be32 p (o + 4) =? 0) && (be32 p (o + 8) =? 0x0000FFFF).

(** A captured packet: [frame] from its L2 header with [lin] linear bytes,
    [l2] bytes of them L2; [addr] is the address user space derives. *)
Record capture (frame : list Z) (lin l2 : nat) (addr : WINDIVERT_ADDRESS) (dir : Z) : Prop := {
  cp_bytes : bytes frame;
  cp_lin : (l2 <= lin <= length frame)%nat;
  cp_len : zlen frame < 2 ^ 31;
  cp_l2 : find_l2 (firstn lin frame) = Some (Z.of_nat l2);
  cp_plain : plain (skipn l2 frame) (Z.of_nat (lin - l2)) = true;
  cp_addr : network_addr addr dir;
  cp_ipv6 : IPv6 addr = (ip_Version (skipn l2 frame) 0 =? 6);
  cp_mapped : ip_Version (skipn l2 frame) 0 = 6 ->
    mapped_at (skipn l2 frame) 8 = false /\ mapped_at (skipn l2 frame) 24 = false;
  cp_time : Timestamp addr <> INT64_MIN
}.

(** A filter of the handle's layer whose instructions are lowered faithfully
    for packets of the given family. *)
Record lowered_filter (f : wd_filter) (addr : WINDIVERT_ADDRESS) (res : pf_result) : Prop := {
  lf_layer : Layer addr = wf_layer f;
  lf_wf : wf_filter (wf_layer f) (wf_object f) = true;
  lf_low : forallb (lowerable (negb (IPv6 addr))) (wf_object f) = true;
  lf_res : pf_lower (wf_layer f) (wf_object f) = Some res
}.

Lemma capture_parse frame lin l2 addr dir ifindex : capture frame lin l2 addr dir ->
  exists pkt info, both_parse frame lin l2 ifindex addr dir pkt info.
Proof. intros []. now apply plain_agrees. Qed.

Lemma capture_no_mapped frame lin l2 addr dir ifindex pkt info : capture frame lin l2 addr dir ->
  both_parse frame lin l2 ifindex addr dir pkt info ->
  no_mapped (pkt_view (with_is_lo pkt (b2z (Loopback addr))) dir).
Proof.
  intros C B Hv. destruct (bp_ver _ _ _ _ _ _ _ _ B) as [[V _]|(V & H6 & V6)];
    [cbn in Hv; congruence|]. destruct (cp_mapped _ _ _ _ _ C V6) as [M1 M2].
  pose proof (bytes_skipn l2 frame (cp_bytes _ _ _ _ _ C)) as Hp.
  destruct (IPv6Header info) as [h|] eqn:Eh; [|contradiction].
  assert (E0 : h = 0).
  { destruct (parse_inv _ _ (bp_user _ _ _ _ _ _ _ _ B)) as (i & _ & ->). cbn in Eh.
    destruct (ip_v4 i); [discriminate|congruence]. }
  destruct (ag_ipv6 _ _ (bp_agrees _ _ _ _ _ _ _ _ B) h Eh) as (_ & -> & ->). subst h.
  unfold ipv6_SrcAddr, ipv6_DstAddr, is_mapped_ipv4. cbn [a_packet eval_args w0 w1 w2 w3].
  rewrite !ntohl_ld32 by exact Hp. exact (conj M1 M2).
Qed.

Section EndToEnd.
Variable frame : list Z.
Variable lin l2 : nat.
Variable addr : WINDIVERT_ADDRESS.
Variable dir ifindex : Z.
Variable f : wd_filter.
Variable res : pf_result.
Hypothesis Hcap : capture frame lin l2 addr dir.
Hypothesis Hlow : lowered_filter f addr res.

Lemma dir_byte : 0 <= dir < 256.
Proof using Hcap.
  destruct (cp_addr _ _ _ _ _ Hcap) as (_ & _ & ->). unfold DIR_EGRESS, DIR_INGRESS.
  destruct (Outbound addr); lia.
Qed.

Variable pkt : parsed_packet.
Hypothesis Hpkt : parse_packet (firstn lin frame) ifindex = Some pkt.

Let kpkt := with_is_lo pkt (b2z (Loopback addr)).

(** What the evaluator says, in terms of the agreed view of the packet. *)
Lemma eval_view : exists info, both_parse frame lin l2 ifindex addr dir pkt info /\
  wd_filter_eval f (Some (skipn l2 frame)) addr =
    VRet (b2z (accepts (eval_args addr (skipn l2 frame) info) (wf_object f) 0)) /\
  (accepts (eval_args addr (skipn l2 frame) info) (wf_object f) 0 = true ->
   pf_match res (pkt_view kpkt dir) = true) /\
  (pr_exact res = true -> pf_match res (pkt_view kpkt dir) = true ->
   accepts (eval_args addr (skipn l2 frame) info) (wf_object f) 0 = true).
Proof using Hcap Hlow Hpkt.
  destruct (capture_parse _ _ _ _ _ ifindex Hcap) as (pkt' & info & B).
  assert (pkt' = pkt) as -> by (pose proof (bp_kernel _ _ _ _ _ _ _ _ B); congruence).
  pose proof (capture_no_mapped _ _ _ _ _ _ _ _ Hcap B) as NM.
  destruct Hlow as [El Hwf Hlo Hres]. pose proof (bp_agrees _ _ _ _ _ _ _ _ B) as Ag.
  pose proof (bp_ver _ _ _ _ _ _ _ _ B) as V. pose proof (cp_ipv6 _ _ _ _ _ Hcap) as E6.
  assert (Hlen : zlen (skipn l2 frame) < 2 ^ 31)
    by (pose proof (cp_len _ _ _ _ _ Hcap); unfold zlen in *; rewrite length_skipn; lia).
  pose proof (bytes_skipn l2 frame (cp_bytes _ _ _ _ _ Hcap)) as Hp.
  pose proof (eval_args_ok addr _ info (cp_time _ _ _ _ _ Hcap) Hp Hlen (or_introl (bp_user _ _ _ _ _ _ _ _ B))) as Hargs.
  assert (I4 : is_v4 (pkt_view kpkt dir) = negb (IPv6 addr)).
  { unfold is_v4. change (k_ver (pkt_view kpkt dir)) with (ver pkt). rewrite E6.
    destruct V as [(-> & _ & ->)|(-> & _ & ->)]; reflexivity. }
  exists info. split; [exact B|]. split.
  - apply wd_filter_eval_packet; auto; [apply (cp_time _ _ _ _ _ Hcap)|apply (cp_addr _ _ _ _ _ Hcap)|apply (bp_user _ _ _ _ _ _ _ _ B)|].
    rewrite E6. destruct V as [(_ & H & ->)|(_ & H & ->)]; exact H.
  - apply (lower_sound (eval_args addr (skipn l2 frame) info)); auto.
    + cbn. now rewrite El.
    + now rewrite I4.
    + cbn. now rewrite El.
Qed.

Variable lpm : lpm_maps.
Variable action : Z.
Hypothesis Haction : is_action action.

(** The rule loop against the evaluator. *)
Lemma kernel_decision :
  match find_rule lpm (loaded action res) kpkt dir with
  | None => wd_filter_eval f (Some (skipn l2 frame)) addr = VRet 0
  | Some m => (pr_exact res = true -> wd_filter_eval f (Some (skipn l2 frame)) addr = VRet 1) /\
              mask_ok m /\ has m MATCH_SNIFF = has action MATCH_SNIFF /\
              has m MATCH_DROP = has action MATCH_DROP
  end.
Proof using Hcap Hlow Hpkt Haction.
  destruct eval_view as (info & B & -> & S & X). destruct Hlow as [_ _ _ Hres].
  pose proof (find_rule_match lpm res action kpkt dir (pf_lower_result _ _ _ Hres) Haction
    (bp_wf _ _ _ _ _ _ _ _ B) dir_byte) as M.
  assert (V : ver kpkt = 4 \/ ver kpkt = 6)
    by (change (ver kpkt) with (ver pkt); destruct (bp_ver _ _ _ _ _ _ _ _ B) as [(V & _)|(V & _)]; auto).
  specialize (M V). destruct (find_rule _ _ _ _) as [m|].
  - destruct M as (Hm & Hr). split; [|exact Hr]. intros He. now rewrite (X He Hm).
  - destruct (accepts _ _ _); [|reflexivity]. rewrite (S eq_refl) in M. discriminate.
Qed.
End EndToEnd.

(** ** The whole program on a packet that reaches the rules *)

(** The owner is alive, the packet passes the guards of [process_packet] and
    is not one the host forwards. *)
Record reaches_rules (k : kernel) (cfg : divert_config) (skb : sk_buff) (dir : Z) (lin : nat)
    (flags : Z) (pkt : parsed_packet) : Prop := {
  rr_running : has (cfg_flags cfg) CFG_F_SHUTDOWN = false;
  rr_owner : owner_gone k cfg = false;
  rr_guard : guard_packet cfg skb dir = Some flags;
  rr_pull : pull_data k (Z.min (skb_len skb) 128) = Some lin;
  rr_parse : parse_packet (firstn lin (skb_bytes skb)) (skb_ifindex skb) = Some pkt;
  rr_local : has (cfg_flags cfg) CFG_F_FWD_CHECK = false \/ dir = DIR_EGRESS
}.

(** The packet as matched. *)
Definition kernel_packet (cfg : divert_config) (skb : sk_buff) (pkt : parsed_packet) : parsed_packet :=
  with_is_lo pkt (b2z (skb_ifindex skb =? lo_ifindex cfg)).

Lemma process_reaches k cfg maps skb dir lin flags pkt st :
  reaches_rules k cfg skb dir lin flags pkt -> fragment pkt = false ->
  process_packet k cfg maps skb dir st =
  match find_rule (lpm k) maps (kernel_packet cfg skb pkt) dir with
  | None => (TC_ACT_UNSPEC, st)
  | Some mm => deliver k cfg skb (kernel_packet cfg skb pkt) dir flags mm st
  end.
Proof.
  intros [R1 R2 R3 R4 R5 R6] Hf. unfold process_packet. rewrite R1, R2, R3, R4, R5.
  change (fragment (with_is_lo pkt (b2z (skb_ifindex skb =? lo_ifindex cfg)))) with (fragment pkt).
  rewrite Hf. cbn [andb].
  assert (Ef : (dir =? DIR_INGRESS) && has (cfg_flags cfg) CFG_F_FWD_CHECK = false)
    by (destruct R6 as [-> | ->]; [apply andb_false_r|reflexivity]).
  rewrite Ef. cbn [andb flag_if]. rewrite Z.lor_0_r. unfold match_packet.
  change (fragment (with_is_lo pkt (b2z (skb_ifindex skb =? lo_ifindex cfg)))) with (fragment pkt).
  now rewrite Hf.
Qed.

Lemma capture_fragment frame lin l2 addr dir ifindex pkt : capture frame lin l2 addr dir ->
  parse_packet (firstn lin frame) ifindex = Some pkt -> fragment pkt = false.
Proof.
  intros C P. destruct (capture_parse _ _ _ _ _ ifindex C) as (pkt' & info & B).
  pose proof (bp_kernel _ _ _ _ _ _ _ _ B) as K. rewrite P in K. inversion K; subst.
  apply (bp_fragment _ _ _ _ _ _ _ _ B).
Qed.

Section Program.
Variable k : kernel.
Variable cfg : divert_config.
Variable skb : sk_buff.
Variable dir : Z.
Variable lin l2 : nat.
Variable flags : Z.
Variable pkt : parsed_packet.
Variable addr : WINDIVERT_ADDRESS.
Variable f : wd_filter.
Variable res : pf_result.
Variable st : bpf_state.
Hypothesis Hreach : reaches_rules k cfg skb dir lin flags pkt.
Hypothesis Hcap : capture (skb_bytes skb) lin l2 addr dir.
Hypothesis Hlo : Loopback addr = (skb_ifindex skb =? lo_ifindex cfg).
Hypothesis Hlow : lowered_filter f addr res.

Let verdict_of := wd_filter_eval f (Some (skipn l2 (skb_bytes skb))) addr.

(** The program's result against the verdict of the filter. *)
Lemma process_verdict action : is_action action ->
  (process_packet k cfg (loaded action res) skb dir st = (TC_ACT_UNSPEC, st) /\ verdict_of = VRet 0) \/
  (exists mm, process_packet k cfg (loaded action res) skb dir st =
     deliver k cfg skb (kernel_packet cfg skb pkt) dir flags mm st /\
     has mm MATCH_SNIFF = has action MATCH_SNIFF /\ has mm MATCH_DROP = has action MATCH_DROP /\
     (pr_exact res = true -> verdict_of = VRet 1)).
Proof using Hreach Hcap Hlo Hlow.
  intros Ha. pose proof Hreach as [R1 R2 R3 R4 R5 R6].
  rewrite (process_reaches k cfg (loaded action res) skb dir lin flags pkt st Hreach
    (capture_fragment _ _ _ _ _ _ _ Hcap R5)).
  pose proof (kernel_decision _ _ _ _ _ _ f res Hcap Hlow pkt R5 (lpm k) action Ha) as D.
  unfold kernel_packet. rewrite <- Hlo.
  destruct (find_rule _ _ _ _) as [mm|]; [right; exists mm|left; auto].
  destruct D as (D1 & _ & D3 & D4). auto.
Qed.

Lemma verdict_bool : verdict_of = VRet 0 \/ verdict_of = VRet 1.
Proof using Hreach Hcap Hlow.
  pose proof Hreach as [R1 R2 R3 R4 R5 R6].
  destruct (eval_view _ _ _ _ _ _ f res Hcap Hlow pkt R5) as (info & _ & E & _).
  unfold verdict_of. rewrite E. destruct (accepts _ _ _); auto.
Qed.
End Program.

(** A matched packet within the snap length is copied whole. *)
Lemma deliver_copies k cfg skb pkt dir flags mm st : has mm MATCH_DROP = false ->
  1 <= skb_len skb <= snap_limit cfg ->
  reserve k (40 + size_class (skb_len skb)) = true -> load_bytes k (skb_len skb) = true ->
  let sniff := has mm MATCH_SNIFF in
  let copy := record_of k skb pkt dir (flags ||| flag_if sniff PKT_F_SNIFFED) (skb_len skb) in
  let st' := mkState (stats st) (ring st ++ [copy]) in
  deliver k cfg skb pkt dir flags mm st =
    if sniff then (TC_ACT_UNSPEC, increment_stat STAT_SNIFFED st')
    else (TC_ACT_STOLEN, increment_stat STAT_DIVERTED st').
Proof.
  intros Hd Hlen Hres Hload. unfold deliver. rewrite Hd. cbv zeta.
  pose proof (snap_limit_eq cfg) as E. cbv zeta in E. rewrite E.
  replace (skb_len skb >? snap_limit cfg) with false by lia. cbn [andb].
  rewrite emit_packet_spec, Hres, Hload; [reflexivity|].
  unfold snap_limit, DIVERT_MAX_PACKET in *. destruct (snaplen cfg =? 0); lia.
Qed.

(** ** Example: an outgoing TCP segment to port 80 *)

Module Ex.

Definition frame : list Z :=
  [2; 0; 0; 0; 0; 1;  2; 0; 0; 0; 0; 2;  0x08; 0x00] ++
  [0x45; 0; 0; 40;  0; 1; 0x40; 0;  64; 6; 0; 0;  10; 0; 0; 1;  192; 0; 2; 7] ++
  [0xC0; 0x01; 0; 80;  0; 0; 0; 1;  0; 0; 0; 0;  0x50; 0x02; 0xFF; 0xFF;  0; 0; 0; 0].

Definition address : WINDIVERT_ADDRESS :=
  mkAddress 0 LAYER_NETWORK 0 false true false false false false false false
    (mkDataNetwork 2 0) (mkDataFlow 0 0 0 zero128 zero128 0 0 0) (mkDataReflect 0 0 LAYER_NETWORK 0 0).

(** [outbound and tcp.DstPort == 80]. *)
Definition filter : wd_filter :=
  mkWdFilter LAYER_NETWORK 0
    [mkFilter FIELD_OUTBOUND TEST_NEQ 1 WINDIVERT_FILTER_RESULT_REJECT false zero128;
     mkFilter FIELD_TCP_DSTPORT TEST_EQ WINDIVERT_FILTER_RESULT_ACCEPT
       WINDIVERT_FILTER_RESULT_REJECT false (W128 80 0 0 0)].

Definition result : pf_result :=
  match pf_lower LAYER_NETWORK (wf_object filter) with Some r => r | None => match_all end.

Definition packet : parsed_packet :=
  match parse_packet frame 2 with
  | Some pkt => pkt
  | None => mkParsed 0 [] 0 [] 0 0 0 0 0 0 0 0 false false 0
  end.

Definition no_lpm : lpm_maps := mkLpm (fun _ _ => None) (fun _ _ => None).

Lemma captured : capture frame 54 14 address DIR_EGRESS.
Proof.
  split; try (vm_compute; reflexivity).
  - apply Forall_forall. intros b Hb. cbn in Hb. unfold is_byte.
    repeat (destruct Hb as [<-|Hb]; [lia|]). destruct Hb.
  - cbn. lia.
  - repeat split. now left.
  - intros H. vm_compute in H. discriminate.
  - vm_compute. discriminate.
Qed.

Lemma lowered : lowered_filter filter address result.
Proof. split; vm_compute; reflexivity. Qed.

Definition config : divert_config := mkConfig 30001 65536 LOOP_PREVENTION_MARK 1 0 0 0.

Definition skb : sk_buff := mkSkb frame 2 0 0 0 0 0.

(** A kernel whose helpers succeed. *)
Definition helpers : kernel :=
  mkKernel 0 7 (fun _ => Some 54%nat) (fun _ => 4) (fun _ => true) (fun _ => true) (fun _ _ => 7) no_lpm.

Definition state : bpf_state := mkState (repeat 0 8) [].

Lemma reaches : reaches_rules helpers config skb DIR_EGRESS 54 0 packet.
Proof. split; try (vm_compute; reflexivity). now right. Qed.

Lemma parsed : parse_packet (firstn 54 frame) 2 = Some packet.
Proof. vm_compute. reflexivity. Qed.
End Ex.

(** ** Properties *)

(** C4. The kernel never loses a packet the filter accepts: for a captured
    packet and the rules loaded for a filter, if the evaluator in user space
    accepts the packet then the rule loop of the BPF program finds a matching
    rule. The packet is [plain] for both parsers and has no IPv4-mapped address
    ([capture]), and every test of the filter is [lowerable] for its IP version
    ([lowered_filter]); [Findings] has the cases outside. *)
Theorem prefilter_superset frame lin l2 addr dir ifindex f res pkt lpm action :
  capture frame lin l2 addr dir -> lowered_filter f addr res ->
  parse_packet (firstn lin frame) ifindex = Some pkt -> is_action action ->
  wd_filter_eval f (Some (skipn l2 frame)) addr = VRet 1 ->
  find_rule lpm (loaded action res) (with_is_lo pkt (b2z (Loopback addr))) dir <> None.
Proof.
  intros Hc Hf Hp Ha He Hn.
  pose proof (kernel_decision frame lin l2 addr dir ifindex f res Hc Hf pkt Hp lpm action Ha) as D.
  rewrite Hn, He in D. discriminate.
Qed.

Lemma prefilter_superset_witness :
  find_rule Ex.no_lpm (loaded 0 Ex.result) (with_is_lo Ex.packet 0) DIR_EGRESS <> None.
Proof.
  apply (prefilter_superset Ex.frame 54 14 Ex.address DIR_EGRESS 2 Ex.filter Ex.result Ex.packet
    Ex.no_lpm 0 Ex.captured Ex.lowered Ex.parsed); [now left|vm_compute; reflexivity].
Defined.

(** C5. When the lowering reports an exact result, kernel and user space decide
    alike: the rule loop finds a rule exactly for the packets the evaluator
    accepts, so skipping the evaluation in user space is sound. As above, for
    [plain] packets without IPv4-mapped addresses and filters of [lowerable]
    tests. *)
Theorem prefilter_exact frame lin l2 addr dir ifindex f res pkt lpm action :
  capture frame lin l2 addr dir -> lowered_filter f addr res ->
  parse_packet (firstn lin frame) ifindex = Some pkt -> is_action action ->
  pr_exact res = true ->
  (find_rule lpm (loaded action res) (with_is_lo pkt (b2z (Loopback addr))) dir <> None <->
   wd_filter_eval f (Some (skipn l2 frame)) addr = VRet 1).
Proof.
  intros Hc Hf Hp Ha He.
  pose proof (kernel_decision frame lin l2 addr dir ifindex f res Hc Hf pkt Hp lpm action Ha) as D.
  destruct (find_rule _ _ _ _) as [m|].
  - split; [intros _; now apply D|discriminate].
  - split; [contradiction|]. intros E. rewrite E in D. discriminate.
Qed.

Lemma prefilter_exact_witness :
  find_rule Ex.no_lpm (loaded 0 Ex.result) (with_is_lo Ex.packet 0) DIR_EGRESS <> None <->
  wd_filter_eval Ex.filter (Some (skipn 14 Ex.frame)) Ex.address = VRet 1.
Proof.
  apply (prefilter_exact Ex.frame 54 14 Ex.address DIR_EGRESS 2 Ex.filter Ex.result Ex.packet
    Ex.no_lpm 0 Ex.captured Ex.lowered Ex.parsed); [now left|vm_compute; reflexivity].
Defined.

(** C22. A handle opened to drop, whose filter is lowered exactly, drops in the
    kernel precisely the packets its filter accepts: every other packet that
    reaches the rules is passed on and leaves no trace. As above, for [plain]
    packets without IPv4-mapped addresses and filters of [lowerable] tests. *)
Theorem drop_handle_exact k cfg skb dir lin l2 flags pkt addr f res st :
  reaches_rules k cfg skb dir lin flags pkt -> capture (skb_bytes skb) lin l2 addr dir ->
  Loopback addr = (skb_ifindex skb =? lo_ifindex cfg) -> lowered_filter f addr res ->
  pr_exact res = true ->
  let action := rule_action EBPFDIVERT_FLAG_DROP (pr_exact res) in
  process_packet k cfg (loaded action res) skb dir st =
  match wd_filter_eval f (Some (skipn l2 (skb_bytes skb))) addr with
  | VRet 1 => (TC_ACT_SHOT, increment_stat STAT_DROPPED st)
  | _ => (TC_ACT_UNSPEC, st)
  end.
Proof.
  intros Hr Hc Hl Hf He action. unfold action. rewrite He.
  change (rule_action EBPFDIVERT_FLAG_DROP true) with MATCH_DROP.
  destruct (process_verdict k cfg skb dir lin l2 flags pkt addr f res st Hr Hc Hl Hf MATCH_DROP
    (or_intror (or_intror eq_refl))) as [[-> ->]|(mm & Ep & _ & Hd & Hv)]; [reflexivity|].
  rewrite Ep, (Hv He).
  unfold deliver. now rewrite Hd.
Qed.

Lemma drop_handle_exact_witness :
  process_packet Ex.helpers Ex.config (loaded MATCH_DROP Ex.result) Ex.skb DIR_EGRESS Ex.state =
  (TC_ACT_SHOT, increment_stat STAT_DROPPED Ex.state).
Proof.
  exact (drop_handle_exact Ex.helpers Ex.config Ex.skb DIR_EGRESS 54 14 0 Ex.packet Ex.address Ex.filter
    Ex.result Ex.state Ex.reaches Ex.captured eq_refl Ex.lowered eq_refl).
Defined.

(** A handle opened to divert takes every packet its filter accepts from
    the stack and puts a whole copy with its metadata into the ring buffer,
    as long as the ring has room and the packet is within the snap length;
    when the rules are exact it touches no other packet. *)
Theorem divert_handle_delivers k cfg skb dir lin l2 flags pkt addr f res st :
  reaches_rules k cfg skb dir lin flags pkt -> capture (skb_bytes skb) lin l2 addr dir ->
  Loopback addr = (skb_ifindex skb =? lo_ifindex cfg) -> lowered_filter f addr res ->
  1 <= skb_len skb <= snap_limit cfg ->
  reserve k (40 + size_class (skb_len skb)) = true -> load_bytes k (skb_len skb) = true ->
  let out := process_packet k cfg (loaded (rule_action 0 (pr_exact res)) res) skb dir st in
  let verdict := wd_filter_eval f (Some (skipn l2 (skb_bytes skb))) addr in
  let copy := record_of k skb (kernel_packet cfg skb pkt) dir flags (skb_len skb) in
  b_data copy = skb_bytes skb /\
  (verdict = VRet 1 ->
   out = (TC_ACT_STOLEN, increment_stat STAT_DIVERTED (mkState (stats st) (ring st ++ [copy])))) /\
  (pr_exact res = true -> verdict = VRet 0 -> out = (TC_ACT_UNSPEC, st)).
Proof.
  intros Hr Hc Hl Hf Hlen Hres Hload out verdict copy. split; [apply record_whole|].
  assert (Ea : rule_action 0 (pr_exact res) = 0) by reflexivity.
  destruct (process_verdict k cfg skb dir lin l2 flags pkt addr f res st Hr Hc Hl Hf 0 (or_introl eq_refl))
    as [[Ep Ev]|(mm & Ep & Hs & Hd & Hv)].
  - unfold out, verdict. rewrite Ea, Ep, Ev. split; [discriminate|auto].
  - unfold out, verdict. rewrite Ea, Ep. split; [intros _|intros He E; rewrite (Hv He) in E; discriminate].
    rewrite deliver_copies by (assumption || now rewrite Hd). rewrite Hs.
    change (has 0 MATCH_SNIFF) with false. cbn [flag_if]. now rewrite Z.lor_0_r.
Qed.

Lemma divert_handle_delivers_witness :
  b_data (record_of Ex.helpers Ex.skb (kernel_packet Ex.config Ex.skb Ex.packet) DIR_EGRESS 0 54) =
    Ex.frame /\
  process_packet Ex.helpers Ex.config (loaded 0 Ex.result) Ex.skb DIR_EGRESS Ex.state =
    (TC_ACT_STOLEN, increment_stat STAT_DIVERTED (mkState (repeat 0 8)
      [record_of Ex.helpers Ex.skb (kernel_packet Ex.config Ex.skb Ex.packet) DIR_EGRESS 0 54])).
Proof.
  destruct (divert_handle_delivers Ex.helpers Ex.config Ex.skb DIR_EGRESS 54 14 0 Ex.packet Ex.address
    Ex.filter Ex.result Ex.state Ex.reaches Ex.captured eq_refl Ex.lowered) as (H1 & H2 & _).
  - vm_compute; split; discriminate.
  - reflexivity.
  - reflexivity.
  - split; [exact H1|]. apply H2. vm_compute. reflexivity.
Defined.

(** ** The properties of the TC programs on the example *)

Lemma stolen_is_copied_witness : exists st' hdr,
  process_packet Ex.helpers Ex.config (loaded 0 Ex.result) Ex.skb DIR_EGRESS Ex.state =
    (TC_ACT_STOLEN, st') /\ ring st' = [mkBuffer hdr Ex.frame] /\ h_cap_len hdr = 54.
Proof.
  eexists. destruct (stolen_is_copied Ex.helpers Ex.config (loaded 0 Ex.result) Ex.skb DIR_EGRESS Ex.state
    (snd (process_packet Ex.helpers Ex.config (loaded 0 Ex.result) Ex.skb DIR_EGRESS Ex.state)))
    as (hdr & H1 & H2 & _); [vm_compute; discriminate|vm_compute; reflexivity|].
  exists hdr. split; [vm_compute; reflexivity|]. split; [exact H1|exact H2].
Defined.

(** A second handle behind the one of the example, and the packet as the
    first injects it. *)
Definition ex_config2 : divert_config := mkConfig 30002 65536 LOOP_PREVENTION_MARK 1 0 0 0.
Definition ex_injected : sk_buff := with_mark Ex.skb (LOOP_PREVENTION_MARK ||| 30001) 0.

Lemma injection_terminates_witness : zlen [Ex.config; ex_config2] <= 2 ^ 16 - 30001.
Proof.
  apply (injection_terminates [ex_config2] Ex.config). apply ic_step.
  - now right.
  - cbn. lia.
  - exists Ex.helpers, (loaded 0 Ex.result), ex_injected, DIR_EGRESS, Ex.state.
    eexists _, _. split; [reflexivity|]. split; [vm_compute; reflexivity|]. left. discriminate.
  - apply ic_one; [now right|cbn; lia].
Defined.

Lemma owner_gone_fails_open_witness :
  process_packet (mkKernel 5000 0 (fun _ => None) (fun _ => 0) (fun _ => true) (fun _ => true)
                    (fun _ _ => 0) Ex.no_lpm)
    (mkConfig 30001 65536 LOOP_PREVENTION_MARK 1 0 1000 3000) (loaded 0 Ex.result) Ex.skb DIR_EGRESS Ex.state
  = (TC_ACT_UNSPEC, increment_stat STAT_OWNER_GONE Ex.state).
Proof. apply owner_gone_fails_open; cbn; try lia. reflexivity. Defined.

Lemma redirect_hand_off_witness : exists skb2 skb3,
  tc_divert_ingress Ex.helpers Ex.config (loaded 0 Ex.result)
    (with_mark Ex.skb (REDIRECT_MARK_MASK ||| 2) (REDIRECT_PRIO_MAGIC ||| 30001)) Ex.state =
    (redirect Ex.helpers 2 BPF_F_INGRESS, skb2, Ex.state) /\ skb_bytes skb2 = Ex.frame /\
  tc_divert_ingress Ex.helpers Ex.config (loaded 0 Ex.result) skb2 Ex.state =
    (TC_ACT_UNSPEC, skb3, Ex.state) /\
  skb_bytes skb3 = Ex.frame /\ skb_mark skb3 = LOOP_PREVENTION_MARK ||| 30001.
Proof.
  apply (redirect_hand_off Ex.helpers Ex.helpers Ex.config Ex.config (loaded 0 Ex.result)
    (loaded 0 Ex.result) (with_mark Ex.skb (REDIRECT_MARK_MASK ||| 2) (REDIRECT_PRIO_MAGIC ||| 30001))
    Ex.state Ex.state 2 30001); try reflexivity; try (cbn; lia). now right.
Defined.

(** The contract of the lowering on the example. *)
Lemma pf_lower_contract_witness :
  pf_match Ex.result (pkt_view (with_is_lo Ex.packet 0) DIR_EGRESS) = true.
Proof.
  destruct (capture_parse _ _ _ _ _ 2 Ex.captured) as (pkt & info & B).
  pose proof (bp_kernel _ _ _ _ _ _ _ _ B) as K. rewrite Ex.parsed in K. inversion K; subst pkt.
  assert (Hp : bytes (skipn 14 Ex.frame)) by apply bytes_skipn, (cp_bytes _ _ _ _ _ Ex.captured).
  refine (proj1 (pf_lower_contract (eval_args Ex.address (skipn 14 Ex.frame) info) _
    (wf_object Ex.filter) Ex.result (bp_agrees _ _ _ _ _ _ _ _ B) _ _ _ _ _) _).
  - intros H. vm_compute in H. discriminate.
  - apply eval_args_ok; [vm_compute; discriminate|exact Hp|reflexivity|]. left. apply (bp_user _ _ _ _ _ _ _ _ B).
  - vm_compute. reflexivity.
  - vm_compute. reflexivity.
  - vm_compute. reflexivity.
  - pose proof (bp_user _ _ _ _ _ _ _ _ B) as U. vm_compute in U. inversion U. vm_compute. reflexivity.
Defined.
