(* ===== verification/System.v ===== *)
(** * Kernel and user space together

    A packet's way through a network handle: the TC program of [src/bpf]
    copies it into the ring, [ring_callback] of [src/handle.c] evaluates the
    filter again where the rules are a superset, and queues the packet or puts
    it back.  Seen from outside the handle is its filter. *)

From Stdlib Require Import ZArith List Bool Lia ZifyBool.
From S2P Require Import Prelude WdTypes WdPacket WdHash WdExec WdHelper PfRange PfAddr PfCube PfBranch.
From S2P Require Import PfInsn PfWalk PfEncode PfSound BpfParse BpfMatch BpfAgree BpfTc Divert.
From S2P Require Import HdQueue HdSend HdEvents HdRecv.
Import ListNotations.

(** A frame both parsers understand: [capture] without the address. *)
Record plain_frame (frame : list Z) (lin l2 : nat) : Prop := {
  pl_bytes : bytes frame;
  pl_lin : (l2 <= lin <= length frame)%nat;
  pl_len : zlen frame < 2 ^ 31;
  pl_l2 : find_l2 (firstn lin frame) = Some (Z.of_nat l2);
  pl_plain : plain (skipn l2 frame) (Z.of_nat (lin - l2)) = true;
  pl_mapped : ip_Version (skipn l2 frame) 0 = 6 ->
    mapped_at (skipn l2 frame) 8 = false /\ mapped_at (skipn l2 frame) 24 = false
}.

Lemma guard_flags cfg skb dir flags : guard_packet cfg skb dir = Some flags ->
  has flags PKT_F_LOOPBACK = (skb_ifindex skb =? lo_ifindex cfg) /\ has flags PKT_F_SNIFFED = false /\
  has flags PKT_F_FRAGMENT = false.
Proof.
  unfold guard_packet. cbv zeta. repeat (case_if; [discriminate|]). intros E. injection E as <-.
  destruct (injected cfg skb), (skb_ifindex skb =? lo_ifindex cfg), (dir =? DIR_EGRESS),
    (skb_ingress_ifindex skb =? 0); repeat split.
Qed.

Lemma parse_l2_len data ifindex pkt l2 : find_l2 data = Some l2 -> parse_packet data ifindex = Some pkt ->
  l2_len pkt = l2.
Proof.
  intros F. unfold parse_packet. rewrite F. case_if; [discriminate|]. case_if.
  - unfold parse_v4. case_if; [discriminate|]. case_if; [discriminate|].
    destruct (if has _ _ then _ else _) as [[sp dp] fl]. now intros [= <-].
  - case_if; [|discriminate]. unfold parse_v6. case_if; [discriminate|].
    destruct (ext_headers _ _ _ _ _) as [[[pr o] frag]|]; [|discriminate].
    destruct (if frag then _ else _) as [[sp dp] fl]. now intros [= <-].
Qed.

(** The bytes of a record, from offset [o] on. *)
Lemma slice_record frame pad o : (o <= length frame)%nat ->
  slice (frame ++ pad) (Z.of_nat o) (zlen frame - Z.of_nat o) = skipn o frame.
Proof.
  intros H. unfold slice, zlen. rewrite Nat2Z.id, skipn_app, firstn_app.
  replace (Z.to_nat (Z.of_nat (length frame) - Z.of_nat o)) with (length (skipn o frame))
    by (rewrite length_skipn; lia).
  now rewrite firstn_all, Nat.sub_diag, firstn_O, app_nil_r.
Qed.

Lemma size_class_fits len : len <= DIVERT_MAX_PACKET -> len <= size_class len.
Proof. unfold size_class, DIVERT_MAX_PACKET. repeat case_if; lia. Qed.

(** An L2 header fits the stash. *)
Lemma find_l2_max data l2 : find_l2 data = Some l2 -> 0 <= l2 <= L2_STASH_MAX.
Proof.
  unfold find_l2, L2_STASH_MAX. destruct (ethernet_len data) as [x|] eqn:E.
  - intros [= <-]. revert E. unfold ethernet_len.
    repeat case_if; try discriminate; intros [= <-]; lia.
  - repeat case_if; try discriminate; intros [= <-]; lia.
Qed.

(** A packet and the handle it meets: the kernel's helpers, the handle's
    configuration, the packet with its direction, linear bytes and L2 header,
    what the guards and the parser make of it, the rules, the operating
    system, the handle, the state of the checksums and the unused bytes of
    the ring slot. *)
Record way : Type := mkWay {
  w_kernel : kernel;
  w_cfg : divert_config;
  w_skb : sk_buff;
  w_dir : Z;
  w_lin : nat;
  w_l2 : nat;
  w_flags : Z;
  w_pkt : parsed_packet;
  w_res : pf_result;
  w_net : net;
  w_handle : handle_info;
  w_ck : bool * bool * bool;
  w_pad : list Z
}.

Section Handle.
Variable w : way.
Variable st : bpf_state.
Variable s : hstate.

Let k := w_kernel w.
Let cfg := w_cfg w.
Let skb := w_skb w.
Let dir := w_dir w.
Let lin := w_lin w.
Let l2 := w_l2 w.
Let flags := w_flags w.
Let pkt := w_pkt w.
Let res := w_res w.
Let n := w_net w.
Let h := w_handle w.
Let ck := w_ck w.
Let pad := w_pad w.

(** The packet behind its L2 header. *)
Definition way_data : list Z := skipn l2 (skb_bytes skb).

(** The record the kernel writes, and how user space addresses it. *)
Definition ring_record (sniff : bool) : divert_packet_buffer :=
  record_of k skb (kernel_packet cfg skb pkt) dir (flags ||| flag_if sniff PKT_F_SNIFFED) (skb_len skb).

Definition user_address (sniff : bool) : address :=
  packet_address h (b_header (ring_record sniff))
    (slice (skb_bytes skb ++ pad) 0 (h_l2_len (b_header (ring_record sniff)))) way_data ck.

(** The rules loaded for the handle. *)
Definition handle_rules : rule_maps := loaded (rule_action (hd_flags h) (pr_exact res)) res.

(** The verdict of the handle's filter on the packet. *)
Definition packet_verdict (sniff : bool) : verdict :=
  wd_filter_eval (h_filter h) (Some way_data) (ad_base (user_address sniff)).

(** What [ring_callback] does with the record; the ring's slot is as large
    as the size class. *)
Definition user_side (sniff : bool) : option hstate :=
  ring_callback n h (40 + size_class (skb_len skb)) (b_header (ring_record sniff))
    (b_data (ring_record sniff) ++ pad) s.

(** A packet and a handle in the scope of the theorems: the packet passes the
    guards of the program (it was not injected by the handle or one behind it,
    the owner lives, ...) and is [plain] for both parsers, without IPv4-mapped
    addresses; it fits the snap length, and the ring and the helpers accept
    it; the filter belongs to the handle's layer and each of its tests can be
    lowered faithfully; the handle diverts, or sniffs, and does not drop; the
    checksums were verified; the clock has not reached 2^63 ns. *)
Record on_the_way (sniff : bool) : Prop := {
  ow_reach : reaches_rules k cfg skb dir lin flags pkt;
  ow_frame : plain_frame (skb_bytes skb) lin l2;
  ow_dir : dir = DIR_INGRESS \/ dir = DIR_EGRESS;
  ow_room : 1 <= skb_len skb <= snap_limit cfg /\ reserve k (40 + size_class (skb_len skb)) = true /\
            load_bytes k (skb_len skb) = true;
  ow_layer : h_layer h = LAYER_NETWORK \/ h_layer h = LAYER_NETWORK_FORWARD;
  ow_filter : lowered_filter (h_filter h) (ad_base (user_address sniff)) res;
  ow_exact : h_exact h = pr_exact res;
  ow_flags : has (hd_flags h) EBPFDIVERT_FLAG_SNIFF = sniff /\ has (hd_flags h) EBPFDIVERT_FLAG_DROP = false;
  ow_sums : wd_verify_checksums way_data = Some ck;
  ow_time : stamp_ok (ktime_emit k)
}.

Variable sniff : bool.
Hypothesis H : on_the_way sniff.

Lemma record_l2 : h_l2_len (b_header (ring_record sniff)) = Z.of_nat l2.
Proof using H.
  destruct H as [R F _ _ _ _ _ _ _ _]. exact (parse_l2_len _ _ _ _ (pl_l2 _ _ _ F) (rr_parse _ _ _ _ _ _ _ R)).
Qed.

Lemma record_flags : has (flags ||| flag_if sniff PKT_F_SNIFFED) PKT_F_LOOPBACK =
    (skb_ifindex skb =? lo_ifindex cfg) /\
  has (flags ||| flag_if sniff PKT_F_SNIFFED) PKT_F_SNIFFED = sniff /\
  has (flags ||| flag_if sniff PKT_F_SNIFFED) PKT_F_FRAGMENT = false.
Proof using H.
  destruct H as [R _ _ _ _ _ _ _ _ _]. destruct (guard_flags _ _ _ _ (rr_guard _ _ _ _ _ _ _ R)) as (G1 & G2 & G3).
  unfold has in *. rewrite !Z.land_lor_distr_l.
  destruct sniff; cbn [flag_if]; rewrite ?Z.land_0_l, ?Z.lor_0_r; auto.
  repeat split; auto.
  apply negb_false_iff, Z.eqb_eq in G2. now rewrite G2.
Qed.

Lemma user_capture : capture (skb_bytes skb) lin l2 (ad_base (user_address sniff)) dir.
Proof using H.
  destruct H as [R F D _ L _ _ _ _ T]. destruct F. destruct ck as [[c1 c2] c3] eqn:Eck. split; auto.
  - unfold user_address. rewrite Eck. cbn. repeat split; auto. destruct D as [-> | ->]; reflexivity.
  - unfold user_address. rewrite Eck. cbn. unfold ip_Version.
    destruct (Z.gtb_spec (zlen way_data) 0) as [Hz|Hz]; [reflexivity|].
    assert (E : way_data = []) by (pose proof (zlen_nonneg way_data); destruct way_data; [reflexivity|unfold zlen in *; cbn in *; lia]).
    fold way_data. rewrite E. reflexivity.
  - unfold user_address. rewrite Eck. exact T.
Qed.

Lemma user_loopback : Loopback (ad_base (user_address sniff)) = (skb_ifindex skb =? lo_ifindex cfg).
Proof using H. unfold user_address. destruct ck as [[c1 c2] c3]. exact (proj1 record_flags). Qed.

(** The kernel's half: pass a packet the filter rejects, or copy it. *)
Lemma kernel_side :
  (process_packet k cfg handle_rules skb dir st = (TC_ACT_UNSPEC, st) /\ packet_verdict sniff = VRet 0) \/
  (process_packet k cfg handle_rules skb dir st =
     (let st' := mkState (stats st) (ring st ++ [ring_record sniff]) in
      if sniff then (TC_ACT_UNSPEC, increment_stat STAT_SNIFFED st')
      else (TC_ACT_STOLEN, increment_stat STAT_DIVERTED st')) /\
   (pr_exact res = true -> packet_verdict sniff = VRet 1)).
Proof using H.
  pose proof H as [R F _ (Hl & Hr & Hb) _ Hf _ (Hs & Hd) _ _].
  assert (Ea : rule_action (hd_flags h) (pr_exact res) = if sniff then MATCH_SNIFF else 0).
  { unfold rule_action. rewrite Hs, Hd. now destruct sniff. }
  unfold handle_rules. rewrite Ea.
  destruct (process_verdict k cfg skb dir lin l2 flags pkt _ _ res st R user_capture user_loopback Hf
    (if sniff then MATCH_SNIFF else 0)) as [[-> V]|(mm & -> & Ms & Md & V)].
  - unfold is_action. destruct sniff; auto.
  - now left.
  - right. split; [|exact V]. rewrite deliver_copies by (try assumption; rewrite Md; now destruct sniff).
    rewrite Ms. now destruct sniff.
Qed.

(** User space's half: what becomes of the record. *)
Lemma user_half : user_side sniff =
  let entry := mkEntry (user_address sniff) way_data in
  let queued := Some (set_rx s (queue_push (hs_rx s) entry)) in
  if h_exact h then queued
  else match packet_verdict sniff with
       | VRet 0 =>
         if sniff then Some s
         else match inject n h (hs_tx s) way_data (user_address sniff) with
              | Some (_, t, out) => Some (mkHs (hs_rx s) t (hs_udp s) (hs_seen s) (hs_sent s ++ out))
              | None => None
              end
       | _ => queued
       end.
Proof using H.
  pose proof H as [R F _ (Hl & _) _ Hf Hx (Hs & Hd) Hck _]. pose proof record_l2 as L2.
  destruct record_flags as (_ & Fs & Ff). pose proof (pl_lin _ _ _ F) as Hlin.
  assert (B : b_data (ring_record sniff) = skb_bytes skb) by apply record_whole.
  assert (G : (40 + size_class (skb_len skb) <? PKT_HEADER_SIZE) ||
    (h_cap_len (b_header (ring_record sniff)) >? 40 + size_class (skb_len skb) - PKT_HEADER_SIZE) ||
    (h_l2_len (b_header (ring_record sniff)) >? h_cap_len (b_header (ring_record sniff))) = false).
  { rewrite L2. change (h_cap_len (b_header (ring_record sniff))) with (skb_len skb).
    pose proof (size_class_fits (skb_len skb)). unfold snap_limit, DIVERT_MAX_PACKET, PKT_HEADER_SIZE in *.
    unfold skb_len, zlen in *. destruct (snaplen cfg =? 0); lia. }
  unfold user_side, ring_callback. rewrite G, B, L2.
  change (h_cap_len (b_header (ring_record sniff))) with (zlen (skb_bytes skb)).
  change (h_flags (b_header (ring_record sniff))) with (flags ||| flag_if sniff PKT_F_SNIFFED).
  rewrite slice_record by lia. fold way_data. rewrite Hck, <- L2. fold (user_address sniff).
  rewrite Ff, Fs, Hd. fold (packet_verdict sniff).
  destruct (verdict_bool k cfg skb dir lin l2 flags pkt _ _ res R user_capture Hf) as [V|V];
    change (packet_verdict sniff = VRet 0) in V || change (packet_verdict sniff = VRet 1) in V;
    rewrite V; destruct (h_exact h); cbn [negb orb]; reflexivity.
Qed.
End Handle.

(** ** Example: the filter of [Ex], and one that cannot be lowered exactly *)

Module ExWay.

(** [outbound and tcp.DstPort == 80], and a test of the payload length the
    rules cannot express. *)
Definition inexact : wd_filter :=
  mkWdFilter LAYER_NETWORK 0
    [mkFilter FIELD_OUTBOUND TEST_NEQ 1 WINDIVERT_FILTER_RESULT_REJECT false zero128;
     mkFilter FIELD_TCP_DSTPORT TEST_EQ 2 WINDIVERT_FILTER_RESULT_REJECT false (W128 80 0 0 0);
     mkFilter FIELD_TCP_PAYLOADLENGTH TEST_NEQ WINDIVERT_FILTER_RESULT_ACCEPT
       WINDIVERT_FILTER_RESULT_REJECT false (W128 0 0 0 0)].

Definition result (f : wd_filter) : pf_result :=
  match pf_lower LAYER_NETWORK (wf_object f) with Some r => r | None => match_all end.

(** The frame of [Ex] with good checksums. *)
Definition frame : list Z :=
  firstn 14 Ex.frame ++
  match WinDivertHelperCalcChecksums (skipn 14 Ex.frame) None 0 with Some out => c_packet out | None => [] end.

Definition skb : sk_buff := mkSkb frame 2 0 0 0 0 0.

Definition packet : parsed_packet :=
  match parse_packet frame 2 with Some pkt => pkt | None => Ex.packet end.

Definition journey (f : wd_filter) (flags : Z) : way :=
  mkWay Ex.helpers Ex.config skb DIR_EGRESS 54 14 0 packet (result f) ExSend.os
    (mkHandle LAYER_NETWORK flags 30001 1 f (pr_exact (result f))) (true, true, false) (repeat 0 1994).

Lemma frame_plain : plain_frame frame 54 14.
Proof.
  split; try (vm_compute; reflexivity).
  - apply Forall_forall. intros b Hb. vm_compute in Hb. unfold is_byte.
    repeat (destruct Hb as [<-|Hb]; [lia|]). destruct Hb.
  - vm_compute. lia.
  - intros H. vm_compute in H. discriminate.
Qed.

Lemma under_way f flags sniff : f = Ex.filter \/ f = inexact -> flags = 0 /\ sniff = false \/
  flags = EBPFDIVERT_FLAG_SNIFF /\ sniff = true -> on_the_way (journey f flags) sniff.
Proof.
  intros Hf Hs. assert (R : reaches_rules Ex.helpers Ex.config skb DIR_EGRESS 54 0 packet)
    by (split; try (vm_compute; reflexivity); now right).
  assert (L : forall b, f = Ex.filter \/ f = inexact ->
    lowered_filter f (ad_base (user_address (journey f flags) b)) (result f))
    by (intros b [-> | ->]; split; vm_compute; reflexivity).
  split; [exact R|exact frame_plain|right; exact eq_refl| |left; exact eq_refl|apply L, Hf|exact eq_refl| | |].
  - split; [split; vm_compute; discriminate|split; vm_compute; reflexivity].
  - destruct Hs as [[-> ->]|[-> ->]]; split; vm_compute; reflexivity.
  - vm_compute. reflexivity.
  - vm_compute. discriminate.
Qed.
End ExWay.

(** ** Properties *)

(** The state after the kernel has copied the packet. *)
Definition copied (w : way) (sniff : bool) (stat : Z) (st : bpf_state) : bpf_state :=
  increment_stat stat (mkState (stats st) (ring st ++ [ring_record w sniff])).

Definition kernel_result (w : way) (st : bpf_state) : Z * bpf_state :=
  process_packet (w_kernel w) (w_cfg w) (handle_rules w) (w_skb w) (w_dir w) st.

(** The packet as the handle queues it. *)
Definition with_queued (w : way) (sniff : bool) (s : hstate) : hstate :=
  set_rx s (queue_push (hs_rx s) (mkEntry (user_address w sniff) (way_data w))).

(** C1. A diverting handle is its filter, for packets and filters as in
    [on_the_way]: if the filter accepts the packet, the kernel takes it and
    user space offers the queue an entry that holds the whole packet (the
    queue counts the entry as lost when it is full); otherwise the kernel
    passes the packet without a trace, or, when the rules are only a superset,
    user space hands it back to [inject] and leaves the queue alone. *)
Theorem divert_implements_filter w st s : on_the_way w false ->
  (packet_verdict w false = VRet 0 \/ packet_verdict w false = VRet 1) /\
  (packet_verdict w false = VRet 1 ->
   kernel_result w st = (TC_ACT_STOLEN, copied w false STAT_DIVERTED st) /\
   user_side w s false = Some (with_queued w false s)) /\
  (packet_verdict w false = VRet 0 ->
   kernel_result w st = (TC_ACT_UNSPEC, st) \/
   kernel_result w st = (TC_ACT_STOLEN, copied w false STAT_DIVERTED st) /\
   forall ret t out,
     inject (w_net w) (w_handle w) (hs_tx s) (way_data w) (user_address w false) = Some (ret, t, out) ->
     user_side w s false = Some (mkHs (hs_rx s) t (hs_udp s) (hs_seen s) (hs_sent s ++ out))).
Proof.
  intros H. pose proof (kernel_side w st false H) as K. pose proof (user_half w s false H) as U.
  cbv zeta in U. rewrite U. clear U. rewrite (ow_exact w false H).
  assert (V : packet_verdict w false = VRet 0 \/ packet_verdict w false = VRet 1)
    by exact (verdict_bool _ _ _ _ _ _ _ _ _ _ _ (ow_reach w false H) (user_capture w false H) (ow_filter w false H)).
  split; [exact V|]. unfold kernel_result. split; intros E; rewrite E in *.
  - destruct K as [[_ K]|[-> _]]; [discriminate|]. split; [reflexivity|]. now destruct (pr_exact _).
  - destruct K as [[-> _]|[-> X]]; [now left|right]. split; [reflexivity|].
    destruct (pr_exact _); [specialize (X eq_refl); discriminate|]. intros ret t out I. now rewrite I.
Qed.

Lemma divert_implements_filter_witness :
  packet_verdict (ExWay.journey Ex.filter 0) false = VRet 1 /\
  user_side (ExWay.journey Ex.filter 0) (ex_hs rx_init) false =
    Some (with_queued (ExWay.journey Ex.filter 0) false (ex_hs rx_init)).
Proof.
  split; [vm_compute; reflexivity|].
  apply (divert_implements_filter (ExWay.journey Ex.filter 0) Ex.state (ex_hs rx_init)); [|vm_compute; reflexivity].
  apply ExWay.under_way; [now left|left; now split].
Defined.

(** C2. A sniffing handle is invisible and sees what its filter accepts, for
    packets and filters as in [on_the_way]: the packet is passed on in every
    case ([TC_ACT_UNSPEC]), and a copy is offered to the queue if and only if
    the filter accepts it; nothing is ever sent. *)
Theorem sniff_implements_filter w st s : on_the_way w true ->
  fst (kernel_result w st) = TC_ACT_UNSPEC /\
  (packet_verdict w true = VRet 1 ->
   kernel_result w st = (TC_ACT_UNSPEC, copied w true STAT_SNIFFED st) /\
   user_side w s true = Some (with_queued w true s)) /\
  (packet_verdict w true = VRet 0 ->
   kernel_result w st = (TC_ACT_UNSPEC, st) \/
   kernel_result w st = (TC_ACT_UNSPEC, copied w true STAT_SNIFFED st) /\ user_side w s true = Some s).
Proof.
  intros H. pose proof (kernel_side w st true H) as K. pose proof (user_half w s true H) as U.
  cbv zeta in U. rewrite U. clear U. rewrite (ow_exact w true H). unfold kernel_result.
  split; [destruct K as [[-> _]|[-> _]]; reflexivity|]. split; intros E; rewrite E in *.
  - destruct K as [[_ K]|[-> _]]; [discriminate|]. split; [reflexivity|]. now destruct (pr_exact _).
  - destruct K as [[-> _]|[-> X]]; [now left|right]. split; [reflexivity|].
    destruct (pr_exact _); [specialize (X eq_refl); discriminate|reflexivity].
Qed.

Lemma sniff_implements_filter_witness :
  packet_verdict (ExWay.journey ExWay.inexact EBPFDIVERT_FLAG_SNIFF) true = VRet 0 /\
  fst (kernel_result (ExWay.journey ExWay.inexact EBPFDIVERT_FLAG_SNIFF) Ex.state) = TC_ACT_UNSPEC.
Proof.
  split; [vm_compute; reflexivity|].
  apply (sniff_implements_filter (ExWay.journey ExWay.inexact EBPFDIVERT_FLAG_SNIFF) Ex.state (ex_hs rx_init)).
  apply ExWay.under_way; [now right|right; now split].
Defined.

(** C8. A packet the kernel took by mistake continues unchanged.  When the
    rules are a superset and the filter rejects an outbound TCP or UDP packet
    of a device other than the loopback, with good checksums and no longer
    than the MTU: if the handle has a packet socket or the system gives it
    one, what user space hands to [sendto] is the frame that was captured,
    byte for byte, on the interface it was captured on, with the handle's own
    mark (so that the handle does not capture it again); it sends nothing
    only when the system refuses the socket.  The queue is left alone. *)
Theorem rejected_continues_unchanged w s info : on_the_way w false -> packet_verdict w false = VRet 0 ->
  h_exact (w_handle w) = false -> tx_reachable (w_handle w) (hs_tx s) ->
  w_dir w = DIR_EGRESS -> skb_ifindex (w_skb w) <> lo_ifindex (w_cfg w) ->
  0 < skb_ifindex (w_skb w) < 2 ^ 31 -> skb_ifindex (w_skb w) <> h_lo_ifindex (w_handle w) ->
  no_gso (w_net w) (hs_tx s) (skb_ifindex (w_skb w)) (way_data w) ->
  WinDivertHelperParsePacketEx (way_data w) = Some info ->
  checksums_good info (ad_base (user_address w false)) = true ->
  exists s', user_side w s false = Some s' /\ hs_rx s' = hs_rx s /\
    hs_sent s' = hs_sent s ++
      if can_send (w_net w) (w_handle w) (hs_tx s) then
        [Frame (skb_ifindex (w_skb w)) (own_mark (w_handle w)) None zero_vnet
           (if ip_Version (way_data w) 0 =? 6 then ETH_P_IPV6 else ETH_P_IP) (skb_bytes (w_skb w))]
      else [].
Proof.
  intros H V Hx Ht Hd Hlo Hi Hh Hg Hp Hc. rewrite (user_half w s false H), Hx, V.
  pose proof (record_l2 w false H) as L2. pose proof (user_loopback w false H) as Lo.
  pose proof (pl_lin _ _ _ (ow_frame w false H)) as Hlin. destruct (find_l2_max _ _ (pl_l2 _ _ _ (ow_frame w false H))) as [_ Hm].
  set (l2 := slice (skb_bytes (w_skb w) ++ w_pad w) 0 (h_l2_len (b_header (ring_record w false)))) in *.
  assert (El : l2 = firstn (w_l2 w) (skb_bytes (w_skb w))).
  { subst l2. rewrite L2. unfold slice. rewrite Nat2Z.id. change (Z.to_nat 0) with 0%nat.
    rewrite skipn_O, firstn_app. replace (w_l2 w - length (skb_bytes (w_skb w)))%nat with 0%nat by lia.
    now rewrite firstn_O, app_nil_r. }
  assert (Ea : user_address w false = captured_address (ad_base (user_address w false)) (repeat 0 48) l2
    (u16 (skb_gso_size (w_skb w)))) by (unfold user_address; now destruct (w_ck w) as [[c1 c2] c3]).
  assert (Eb : IfIdx (Network (ad_base (user_address w false))) = skb_ifindex (w_skb w) /\
    Outbound (ad_base (user_address w false)) = (w_dir w =? 2))
    by (unfold user_address; now destruct (w_ck w) as [[c1 c2] c3]). destruct Eb as [Ei Eo].
  destruct (reinject_sends (w_net w) (w_handle w) (hs_tx s) (way_data w) (ad_base (user_address w false)) (repeat 0 48) l2
    (u16 (skb_gso_size (w_skb w))) info) as (t' & I); rewrite ?Ei; auto.
  - rewrite El. unfold zlen. rewrite length_firstn. lia.
  - unfold u16. apply Z.mod_pos_bound. lia.
  - rewrite Lo. now apply Z.eqb_neq.
  - now rewrite Eo, Hd.
  - apply bytes_skipn, (pl_bytes _ _ _ (ow_frame w false H)).
  - rewrite <- Ea, Ei in I. replace (l2 ++ way_data w) with (skb_bytes (w_skb w)) in I
      by (rewrite El; unfold way_data; now rewrite firstn_skipn). rewrite I.
    destruct (can_send _ _ _); eexists; (split; [reflexivity|]); split; reflexivity.
Qed.

Lemma rejected_continues_unchanged_witness : exists s',
  user_side (ExWay.journey ExWay.inexact 0) (ex_hs rx_init) false = Some s' /\
  hs_sent s' = [Frame 2 (own_mark (w_handle (ExWay.journey ExWay.inexact 0))) None zero_vnet ETH_P_IP ExWay.frame].
Proof.
  set (w := ExWay.journey ExWay.inexact 0).
  destruct (WinDivertHelperParsePacketEx (way_data w)) as [info|] eqn:I; [|vm_compute in I; discriminate].
  destruct (rejected_continues_unchanged w (ex_hs rx_init) info) as (s' & U & _ & E).
  - apply ExWay.under_way; [now right|left; now split].
  - vm_compute. reflexivity.
  - vm_compute. reflexivity.
  - apply tx_start.
  - reflexivity.
  - vm_compute. discriminate.
  - vm_compute. split; [reflexivity|reflexivity].
  - vm_compute. discriminate.
  - left. vm_compute. discriminate.
  - exact I.
  - vm_compute in I. injection I as <-. vm_compute. reflexivity.
  - exists s'. split; [exact U|]. rewrite E. vm_compute. reflexivity.
Defined.
