(* ===== verification/Findings.v ===== *)
(** * Findings: where kernel and user space part ways

    Evaluated examples of the cases the hypotheses of [prefilter_superset]
    and [prefilter_exact] leave out.  Each lemma runs the modelled code on a
    concrete filter and packet; [loses] says that the filter accepts a packet
    for which the kernel finds no rule, [oversteps] that rules flagged exact
    match a packet the filter rejects. *)

From Stdlib Require Import ZArith List Bool.
From S2P Require Import Prelude WdTypes WdPacket WdExec WdHelper WdSerial PfRange PfAddr PfCube PfEncode.
From S2P Require Import PfEvents BpfParse BpfMatch BpfTc BpfEvents Divert.
From S2P Require Import HdQueue HdSend HdEvents HdRecv HdOpen.
Import ListNotations.

Definition ACCEPT : Z := WINDIVERT_FILTER_RESULT_ACCEPT.
Definition REJECT : Z := WINDIVERT_FILTER_RESULT_REJECT.

Definition num (n : Z) : u128 := W128 n 0 0 0.

(** An outbound packet on an ordinary interface. *)
Definition outbound (v6 : bool) : WINDIVERT_ADDRESS :=
  mkAddress 0 LAYER_NETWORK 0 false true false false v6 false false false
    (mkDataNetwork 2 0) (mkDataFlow 0 0 0 zero128 zero128 0 0 0)
    (mkDataReflect 0 0 LAYER_NETWORK 0 0).

Definition user_accepts (obj : list WINDIVERT_FILTER) (p : list Z) (v6 : bool) : bool :=
  match wd_filter_eval (mkWdFilter LAYER_NETWORK 0 obj) (Some p) (outbound v6) with
  | VRet 1 => true
  | _ => false
  end.

(** The decision of the kernel for the packet [p] behind an L2 header. *)
Definition kernel_matches (obj : list WINDIVERT_FILTER) (l2 p : list Z) : option bool :=
  match pf_lower LAYER_NETWORK obj, parse_packet (l2 ++ p) 2 with
  | Some res, Some pkt =>
    match match_packet Ex.helpers (loaded 0 res) (with_is_lo pkt 0) DIR_EGRESS with
    | Some _ => Some true
    | None => Some false
    end
  | _, _ => None
  end.

Definition exact_rules (obj : list WINDIVERT_FILTER) : bool :=
  match pf_lower LAYER_NETWORK obj with Some res => pr_exact res | None => false end.

Definition loses (obj : list WINDIVERT_FILTER) (l2 p : list Z) (v6 : bool) : Prop :=
  wf_filter LAYER_NETWORK obj = true /\ user_accepts obj p v6 = true /\
  kernel_matches obj l2 p = Some false.

Definition oversteps (obj : list WINDIVERT_FILTER) (l2 p : list Z) (v6 : bool) : Prop :=
  wf_filter LAYER_NETWORK obj = true /\ exact_rules obj = true /\
  user_accepts obj p v6 = false /\ kernel_matches obj l2 p = Some true.

(** ** Packets *)

Definition eth4 : list Z := [2; 0; 0; 0; 0; 1;  2; 0; 0; 0; 0; 2;  0x08; 0x00].
Definition eth6 : list Z := [2; 0; 0; 0; 0; 1;  2; 0; 0; 0; 0; 2;  0x86; 0xDD].

Definition ip4 (len frag proto : Z) (src payload : list Z) : list Z :=
  [0x45; 0; 0; len;  0; 1; frag; 0;  64; proto; 0; 0] ++ src ++ [192; 0; 2; 7] ++ payload.

Definition ip6 (len next : Z) (src payload : list Z) : list Z :=
  [0x60; 0; 0; 0;  len / 256; len mod 256; next; 64] ++ src ++
  [0x20; 1; 0; 0; 0; 0; 0; 0; 0; 0; 0; 0; 0; 0; 0; 2] ++ payload.

Definition tcp_syn : list Z :=
  [0xC0; 0x01; 0; 80;  0; 0; 0; 1;  0; 0; 0; 0;  0x50; 0x02; 0xFF; 0xFF;  0; 0; 0; 0].

Definition src4 : list Z := [10; 0; 0; 1].
Definition src6 : list Z := [0x20; 1; 0; 0; 0; 0; 0; 0; 0; 0; 0; 0; 0; 0; 0; 1].
Definition mapped6 : list Z := [0; 0; 0; 0; 0; 0; 0; 0; 0; 0; 0xFF; 0xFF; 1; 2; 3; 4].

(** ** Rules that match less than the filter *)

(** [not tcp]: a packet of protocol 6 whose TCP header is cut off has no TCP
    header for the evaluator, but the rule only looks at the protocol. *)
Lemma truncated_tcp_lost :
  loses [mkFilter FIELD_TCP TEST_EQ ACCEPT REJECT false zero128] eth4
    (ip4 24 0x40 6 src4 [0xC0; 0x01; 0; 80]) false.
Proof. vm_compute. repeat split. Qed.

(** [localAddr == 1.2.3.4] also holds for an IPv6 packet from
    [::ffff:1.2.3.4], which the IPv4-only rule misses. *)
Lemma mapped_source_lost :
  loses [mkFilter FIELD_LOCALADDR TEST_EQ ACCEPT REJECT false (W128 0x01020304 0xFFFF 0 0)] eth6
    (ip6 20 6 mapped6 tcp_syn) true.
Proof. vm_compute. repeat split. Qed.

(** [tcp]: an authentication header hides TCP from the BPF parser, which
    skips only four kinds of extension headers. *)
Lemma ah_tcp_lost :
  loses [mkFilter FIELD_TCP TEST_NEQ ACCEPT REJECT false zero128] eth6
    (ip6 32 51 src6 ([6; 1; 0; 0; 0; 0; 0; 0; 0; 0; 0; 0] ++ tcp_syn)) true.
Proof. vm_compute. repeat split. Qed.

(** [tcp]: so do five extension headers, one more than the BPF parser
    skips. *)
Lemma five_headers_lost :
  let opt next := [next; 0; 1; 4; 0; 0; 0; 0] in
  loses [mkFilter FIELD_TCP TEST_NEQ ACCEPT REJECT false zero128] eth6
    (ip6 60 60 src6 (opt 60 ++ opt 60 ++ opt 60 ++ opt 60 ++ opt 6 ++ tcp_syn)) true.
Proof. vm_compute. repeat split. Qed.

(** [ip.Protocol == 6 and not tcp] holds for later fragments of TCP segments, but
    has an empty rule table, with which the kernel captures no fragment. *)
Lemma fragment_lost :
  loses [mkFilter FIELD_IP_PROTOCOL TEST_EQ 1 REJECT false (num 6);
         mkFilter FIELD_TCP TEST_EQ ACCEPT REJECT false zero128] eth4
    (ip4 40 0x01 6 src4 tcp_syn) false.
Proof. vm_compute. repeat split. Qed.

(** [tcp.SrcPort != -5] always holds for TCP; the lowering drops it. *)
Lemma negative_lost :
  loses [mkFilter FIELD_TCP_SRCPORT TEST_NEQ ACCEPT REJECT true (num 5)] eth4
    (ip4 40 0x40 6 src4 tcp_syn) false.
Proof. vm_compute. repeat split. Qed.

(** ** Exact rules that match more than the filter *)

(** [tcp]: the truncated packet again. *)
Lemma truncated_tcp_overstep :
  oversteps [mkFilter FIELD_TCP TEST_NEQ ACCEPT REJECT false zero128] eth4
    (ip4 24 0x40 6 src4 [0xC0; 0x01; 0; 80]) false.
Proof. vm_compute. repeat split. Qed.

(** [ip and localAddr >= 8000::]: no IPv4 packet qualifies, but the prefix
    of the range is cut to the 32 bits of an IPv4 rule. *)
Lemma v4_range_overstep :
  oversteps [mkFilter FIELD_IP TEST_NEQ 1 REJECT false zero128;
             mkFilter FIELD_LOCALADDR TEST_GEQ ACCEPT REJECT false (W128 0 0 0 0x80000000)] eth4
    (ip4 40 0x40 6 src4 tcp_syn) false.
Proof. vm_compute. repeat split. Qed.

(** The IPv4-mapped range minus one address, on [ipv6.SrcAddr]: encoded as
    everything but that address. *)
Lemma v6_mapped_range_overstep :
  oversteps [mkFilter FIELD_IPV6_SRCADDR TEST_GEQ 1 REJECT false (W128 0 0xFFFF 0 0);
             mkFilter FIELD_IPV6_SRCADDR TEST_LEQ 2 REJECT false (W128 0xFFFFFFFF 0xFFFF 0 0);
             mkFilter FIELD_IPV6_SRCADDR TEST_NEQ ACCEPT REJECT false (W128 0x01020304 0xFFFF 0 0)]
    eth6 (ip6 20 6 src6 tcp_syn) true.
Proof. vm_compute. repeat split. Qed.

(** ** Parsers *)

(** A raw IPv4 packet (no L2 header) from 8.0.0.0/16 is taken for an
    Ethernet frame: the address has the bytes of the IPv4 EtherType. *)
Lemma raw_ip_misdetected :
  find_l2 (ip4 40 0x40 6 [8; 0; 0; 1] tcp_syn) = Some 14 /\
  find_l2 (ip4 40 0x40 6 src4 tcp_syn) = Some 0.
Proof. vm_compute. repeat split. Qed.

(** An extension header of 2048 bytes is masked to length 0, so the BPF
    parser reads its first bytes as the next header. *)
Lemma long_header_not_skipped :
  let opts := [6; 255] ++ repeat 0 2046 in
  let packet := ip6 2068 60 src6 (opts ++ tcp_syn) in
  option_map src_port (parse_packet (eth6 ++ packet) 2) = Some 0x06FF /\
  user_accepts [mkFilter FIELD_TCP_SRCPORT TEST_EQ ACCEPT REJECT false (num 0xC001)] packet true
  = true.
Proof. vm_compute. repeat split. Qed.

(** ** Evaluator *)

(** The flow label 1 is read as [2^16]: the bytes of the label are swapped
    as if it filled the whole word. *)
Lemma flow_label_scrambled :
  let packet := [0x60; 0; 0; 1; 0; 0; 59; 64] ++ src6 ++ src6 in
  user_accepts [mkFilter FIELD_IPV6_FLOWLABEL TEST_EQ ACCEPT REJECT false (num 1)] packet true
  = false /\
  user_accepts [mkFilter FIELD_IPV6_FLOWLABEL TEST_EQ ACCEPT REJECT false (num (2 ^ 16))] packet
    true = true.
Proof. vm_compute. repeat split. Qed.

(** ** Checksums *)

(** The parser accepts a TCP header longer than the packet, and the checksum
    is then taken over the claimed length: a read past the end of the packet,
    on the capture path ([wd_verify_checksums]) too. *)
Lemma tcp_checksum_overread :
  let segment := [0xC0; 0x01; 0; 80;  0; 0; 0; 1;  0; 0; 0; 0;  0xF0; 0x02; 0xFF; 0xFF;  0; 0; 0; 0] in
  let packet := ip4 40 0x40 6 src4 segment in
  WinDivertHelperCalcChecksums packet None 0 = None /\ wd_verify_checksums packet = None.
Proof. vm_compute. repeat split. Qed.

(** ** Heartbeat *)

(** A clock reading taken just before a concurrent heartbeat wraps around:
    the owner is declared gone. *)
Lemma heartbeat_wraps :
  owner_gone Ex.helpers (mkConfig 30001 65536 LOOP_PREVENTION_MARK 1 0 1 5000000000) = true.
Proof. vm_compute. reflexivity. Qed.

(** ** Handles *)

Definition queued (len time : Z) : qentry :=
  mkEntry (mkAddr (mkAddress time LAYER_NETWORK 0 false true false false false true true false
    (mkDataNetwork 2 0) zero_flow zero_reflect) []) (repeat 0 (Z.to_nat len)).

(** [ebpfdivert_recv_ex] checks the length of the entry at the head of the
    queue, but [queue_pop] drops it when it has expired and returns the next
    one: 100 bytes are copied to offset 20 of a buffer of 60. *)
Lemma recv_ex_overruns :
  let q := fold_left queue_push [queued 20 5000000000; queued 20 0; queued 100 5000000000] rx_init in
  let r := mkRound (Z * list Z) [] (false, None, 0) 5000000000 [] [] 0 0 in
  ebpfdivert_recv_ex_impl _ ex_callback ExSend.handle (Some (repeat 0 60)) (Some 3) 0 0 [r]
    (fun _ => mkExRound _ [] [] 5000000000) (ex_hs q) = inl Undefined.
Proof. vm_compute. reflexivity. Qed.

(** [ebpfdivert_shutdown] and [ebpfdivert_get_event_fd] do not call
    [handle_enter]: the close frees the handle while a thread is inside. *)
Lemma close_frees_under_shutdown : exists s, life_reachable s /\ freed s = true /\ outside s = [7].
Proof.
  exists (mkLife 0 true [] true [7]). split; [|repeat split].
  apply (life_next (mkLife 0 true [] false [7])); [|now apply life_free].
  apply (life_next (mkLife 0 false [] false [7])); [|exact (life_close (mkLife 0 false [] false [7]) eq_refl)].
  exact (life_next _ _ life_init (life_start (mkLife 0 false [] false []) 7 eq_refl)).
Qed.

(** [local_max_tc_prio] never decreases: after 35535 handles of priority 0,
    opened and closed one after the other, every further one gets 65535. *)
Lemma tc_prio_runs_out :
  let open_close local_max := snd (choose_tc_prio 0 (Some []) local_max) in
  let local_max := N.iter 35535 open_close 0 in
  local_max = 0xFFFF /\ choose_tc_prio 0 (Some []) local_max = (0xFFFF, 0xFFFF).
Proof. vm_compute. repeat split. Qed.

(** Without a registry a handle of priority 0 does not come after an open
    handle of priority -5. *)
Lemma auto_priority_before_explicit :
  let '(explicit, local_max) := choose_tc_prio (-5) None 0 in
  (fst (choose_tc_prio 0 None local_max) <? explicit) = true.
Proof. vm_compute. reflexivity. Qed.

(** A batch whose second packet does not parse: the first one is sent and 0
    is returned, but the number of bytes sent is not stored. *)
Lemma send_ex_loses_length : exists t out,
  ebpfdivert_send_ex_impl ExSend.os ExSend.handle tx_init (ex_valid ++ [0])
    [mkAddr (ExSend.addr true) []; mkAddr (ExSend.addr true) []] = Some (0, None, t, out) /\ out <> [].
Proof. eexists _, _. split; [vm_compute; reflexivity|discriminate]. Qed.

(** An inbound packet for interface 65538 is redirected to interface 2. *)
Lemma redirect_truncates_ifindex :
  let a := mkAddress 7 LAYER_NETWORK 0 false false false false false true false true
    (mkDataNetwork 65538 0) zero_flow zero_reflect in
  match inject ExSend.os ExSend.handle tx_init ex_valid (mkAddr a []) with
  | Some (_, _, [Frame _ mark _ _ _ _]) => mark &&& 0xFFFF = 2
  | _ => False
  end.
Proof. vm_compute. reflexivity. Qed.

(** The two tests for a loopback address differ: 1::ffff:7f00:1 is one for
    the address of an event, not for the rules. *)
Lemma loopback_tests_differ :
  let a := [0; 1; 0; 0; 0; 0; 0; 0; 0; 0; 0xFF; 0xFF; 127; 0; 0; 1] in
  addr_is_loopback a = true /\ is_loopback a = false.
Proof. vm_compute. repeat split. Qed.

(** [localPort != -5], which always holds, is lowered to no rule at all and
    flagged exact: a blocking handle blocks nothing. *)
Lemma negative_event_not_blocked :
  let obj := [mkFilter FIELD_LOCALPORT TEST_NEQ ACCEPT REJECT true (num 5)] in
  pf_lower_events obj EVENT_RULES_MAX = ([], true) /\
  event_verdict (mkHandle LAYER_SOCKET 0 1 1 (mkWdFilter LAYER_SOCKET 0 obj) true)
    (bind_event ex_kernel ex_bind_sock false) = VRet 1.
Proof. vm_compute. repeat split. Qed.

(** A filter of 256 tests, each going on with the next, is serialized with
    length 0, which the reader rejects. *)
Definition chain (n : nat) : list WINDIVERT_FILTER :=
  map (fun i => mkFilter FIELD_TCP_DSTPORT TEST_NEQ
         (if Nat.eqb (S i) n then ACCEPT else Z.of_nat (S i)) REJECT false (num (Z.of_nat i))) (seq 0 n).

Lemma serialize_256_lost :
  let f := mkWdFilter LAYER_NETWORK 0 (chain 256) in
  wf_filter LAYER_NETWORK (wf_object f) = true /\
  match wd_filter_serialize f 4096 with
  | Some (n, text) => n = 11 /\ WinDivertDeserializeFilter text = ReadFalse
  | None => False
  end.
Proof. vm_compute. repeat split. Qed.

(** A text that fills the buffer without its NUL loses its last character,
    and success is reported. *)
Lemma serialize_exact_fit_truncated :
  let f := mkWdFilter LAYER_NETWORK 0 (chain 1) in
  let n := zlen (filter_text (chain 1)) in
  match wd_filter_serialize f n with
  | Some (m, text) => m = n /\ WinDivertDeserializeFilter text = ReadFalse
  | None => False
  end.
Proof. vm_compute. repeat split. Qed.

(** A serialized filter is not checked against the layer: one with a NETWORK
    field is accepted for a FLOW handle, and its evaluation always fails. *)
Lemma object_layer_unchecked :
  let f := mkWdFilter LAYER_NETWORK 0 (chain 1) in
  match wd_filter_serialize f 4096 with
  | Some (_, text) => WinDivertDeserializeFilter text = ReadVal (chain 1)
  | None => False
  end /\
  forallb (fun i => WinDivertValidateField LAYER_FLOW (field i)) (chain 1) = false.
Proof. vm_compute. repeat split. Qed.

(** The index of a serialized [packet\[i\]] is read as an [INT] and reduced
    by 65535: for 0x80000000 the subtraction overflows. *)
Lemma deserialize_overflows :
  deserialize_words FIELD_PACKET 0 (number_text 0x80000000) = ReadUndef.
Proof. vm_compute. reflexivity. Qed.

(** A negative time stamp is negated: for the least one the result does not
    fit. *)
Lemma timestamp_overflows :
  let a := mkAddress INT64_MIN LAYER_NETWORK 0 false true false false false false false false
    (mkDataNetwork 2 0) zero_flow zero_reflect in
  wd_filter_eval (mkWdFilter LAYER_NETWORK 0 [mkFilter FIELD_TIMESTAMP TEST_EQ ACCEPT REJECT false (num 5)])
    (Some ex_valid) a = VUndef.
Proof. vm_compute. reflexivity. Qed.
