(* ===== verification/FindingsLang.v ===== *)
(** * Findings: the filter language

    Evaluated examples of what [plain_expr] and the theorems on the compiler
    leave out: filter texts whose object decides against their meaning, texts
    that are accepted or read in a way the language does not say, and texts
    the compiler fails on. *)

From Stdlib Require Import Ascii String ZArith List Bool.
From S2P Require Import Prelude WdTypes WdPacket WdExec WdSerial WdAddr WdLex WdParse WdCompile WdMeaning Findings.
Import ListNotations.

(** The verdict of a filter text on an outbound IPv4 packet. *)
Definition verdict_of (text : string) (p : list Z) : option verdict :=
  match wd_filter_compile (chars text) LAYER_NETWORK with
  | Some (inr f) => Some (wd_filter_eval f (Some p) (outbound false))
  | _ => None
  end.

(** An object and the kind of a compiled text. *)
Definition object_of (text : string) : option (list WINDIVERT_FILTER) :=
  match WinDivertCompileFilter (chars text) LAYER_NETWORK with COk obj => Some obj | _ => None end.

Definition same_object (a b : string) : Prop := object_of a = object_of b /\ object_of a <> None.

(** A test that no value passes becomes a test for the missing header: it
    accepts every packet without one, here a UDP packet. *)
Lemma impossible_port_accepts_others :
  verdict_of "tcp.DstPort == 65536" ex_udp = Some (VRet 1) /\
  verdict_of "tcp.DstPort < 0" ex_udp = Some (VRet 1) /\
  verdict_of "ipv6.HopLimit > 255" ex_udp = Some (VRet 1).
Proof. vm_compute. repeat split. Qed.

(** A test that every byte passes becomes a test for the header, although
    the payload of the packet has four bytes. *)
Lemma missing_byte_accepted :
  verdict_of "udp.Payload[100] < 256" ex_udp = Some (VRet 1) /\
  verdict_of "udp.Payload[100] < 255" ex_udp = Some (VRet 0).
Proof. vm_compute. repeat split. Qed.

(** Constants beyond 32 bits are cut where no bounds are checked. *)
Lemma wide_constant_cut :
  match object_of "tcp.SeqNum == 4294967297" with
  | Some [i] => test_result (test i) (WinDivertCompare128 false (num 1) (neg i) (arg i) false) = true
  | _ => False
  end.
Proof. vm_compute. reflexivity. Qed.

(** Zero with a minus is less than zero. *)
Lemma negative_zero_differs :
  verdict_of "udp.Checksum == 0" ex_udp = Some (VRet 1) /\ verdict_of "udp.Checksum == -0" ex_udp = Some (VRet 0).
Proof. vm_compute. repeat split. Qed.

(** A condition that does not parse is dereferenced. *)
Lemma null_condition : wd_filter_compile (chars "( ? true : true)") LAYER_NETWORK = None.
Proof. vm_compute. reflexivity. Qed.

(** A [b] of its own is not kept: the index counts elements, not bytes. *)
Lemma separate_b_dropped :
  same_object "packet16[3 b] == 1" "packet16[3] == 1" /\ object_of "packet16[3b] == 1" <> object_of "packet16[3] == 1".
Proof. vm_compute. repeat split; discriminate. Qed.

(** The position of the error after a number with a [b] is not set. *)
Lemma bytes_position_unset :
  match WinDivertCompileFilter (chars "tcp.DstPort == 3b") LAYER_NETWORK with
  | CErr e => GET_POS e = None
  | _ => False
  end.
Proof. vm_compute. reflexivity. Qed.

(** Numbers out of range are taken modulo 2^32 in an IPv4 address, and [0x]
    is a number. *)
Lemma address_overflow_accepted :
  WinDivertHelperParseIPv4Address (chars "4294967297.2.3.4") = Some 0x01020304 /\
  same_object "tcp.DstPort == 0x" "tcp.DstPort == 0".
Proof. vm_compute. repeat split. discriminate. Qed.

(** Text behind the eighth group of an IPv6 address is ignored. *)
Lemma address_trailer_ignored :
  WinDivertHelperParseIPv6Address (chars "1:2:3:4:5:6:7:8:hello") =
  WinDivertHelperParseIPv6Address (chars "1:2:3:4:5:6:7:8").
Proof. vm_compute. reflexivity. Qed.

(** An IPv4 tail behind seven groups reads the ninth of eight groups. *)
Lemma address_reads_outside :
  WinDivertHelperParseIPv6Address (chars "::0:0:0:0:0:0:0:1.2.3.4") = V6Undef /\
  wd_filter_compile (chars "localAddr == ::0:0:0:0:0:0:0:1.2.3.4") LAYER_NETWORK = None.
Proof. vm_compute. repeat split. Qed.
