(* ===== verification/FindingsFormat.v ===== *)
(** * Findings: formatted filters

    Evaluated examples of what the hypotheses of the theorems on formatting
    leave out: texts that are cut without an error, that mean something else
    than the filter, that do not compile, and a filter on which the formatter
    has no defined behaviour. *)

From Stdlib Require Import Ascii String ZArith List Bool.
From S2P Require Import Prelude WdTypes WdPacket WdExec WdHelper WdSerial WdAddr WdLex WdParse WdCompile WdDecompile WdFormat.
From S2P Require Import WdIPv6 FindingsLang.
Import ListNotations.
#[local] Open Scope Z_scope.

Definition formats_to (filter : string) (buflen : Z) (text : string) : Prop :=
  WinDivertHelperFormatFilter (chars filter) LAYER_NETWORK buflen = FmtTrue (chars text ++ [NUL]).

(** The end of the text is lost without an error when the buffer is full at
    the start of an operand. *)
Lemma format_cut_silently :
  formats_to "tcp and udp" 8 "tcp and" /\
  WinDivertHelperFormatFilter (chars "tcp and udp") LAYER_NETWORK 7 = FmtFalse (Some ERROR_INSUFFICIENT_BUFFER).
Proof. vm_compute. repeat split. Qed.

(** The sign of a constant is lost when an array element is compared. *)
Lemma format_loses_array_sign :
  formats_to "packet32[0] = -5" 100 "packet32[0b] = 0x5" /\
  object_of "packet32[0] = -5" <> object_of "packet32[0b] = 0x5".
Proof. split; [vm_compute; reflexivity|]. intros E. vm_compute in E. discriminate E. Qed.

(** The sign of a constant is lost when a flag is compared. *)
Lemma format_loses_flag_sign :
  formats_to "loopback = -1" 100 "loopback" /\ formats_to "impostor != -1" 100 "not impostor".
Proof. vm_compute. repeat split. Qed.

(** The colon of an if-then-else runs into an address that ends in one. *)
Lemma format_triple_colon :
  formats_to "(ip? ipv6.SrcAddr = 1:: : udp)" 100 "(ip? ipv6.SrcAddr = 1::: udp)" /\
  object_of "(ip? ipv6.SrcAddr = 1:: : udp)" <> None /\ object_of "(ip? ipv6.SrcAddr = 1::: udp)" = None.
Proof. split; [vm_compute; reflexivity|]. split; [|vm_compute; reflexivity]. intros E. vm_compute in E. discriminate E. Qed.

(** It makes an address of 39 characters longer than a word may be. *)
Lemma format_long_word :
  formats_to "(ip? ipv6.SrcAddr = 1111:2222:3333:4444:5555:6666:7777:8888 : udp)" 100
    "(ip? ipv6.SrcAddr = 1111:2222:3333:4444:5555:6666:7777:8888: udp)" /\
  object_of "(ip? ipv6.SrcAddr = 1111:2222:3333:4444:5555:6666:7777:8888: udp)" = None.
Proof. vm_compute. repeat split. Qed.

(** A formatted IPv4-mapped address is not the same address for
    [WinDivertHelperParseIPv6Address]. *)
Lemma mapped_address_read_otherwise :
  WinDivertHelperFormatIPv6Address (W128 0x01020304 0xFFFF 0 0) 40 = (true, chars "1.2.3.4" ++ [NUL]) /\
  WinDivertHelperParseIPv6Address (chars "1.2.3.4") = V6True (W128 0x01020304 0 0 0).
Proof. vm_compute. repeat split. Qed.

(** [n] copies of a text. *)
Fixpoint copies (n : nat) (t : string) : string :=
  match n with O => ""%string | S n => (t ++ copies n t)%string end.

Definition many_references : string :=
  "(ip or ipv6) and (true? true: tcp" ++ copies 250 " or tcp" ++ copies 2 " or (tcp? true: true)" ++ ") and udp".

(** A counter of one byte wraps: the formatter dereferences a null pointer. *)
Lemma format_count_wraps :
  object_of many_references <> None /\
  WinDivertHelperFormatFilter (chars many_references) LAYER_NETWORK 10000 = FmtUndef.
Proof. split; [|vm_compute; reflexivity]. intros E. vm_compute in E. discriminate E. Qed.
